(* ===== verification/_CoqProject ===== *)
-Q . S2P
Prelude.v
X86.v
Emit.v
Regs.v
Decode64.v
Translate32.v
Frame.v
Thumb.v
RegAlloc.v
Neon.v
Sve.v
Translate64.v
Handlers64.v
Block64.v
Run64.v
Dbt.v
Core.v
Pool.v
TCache.v
JumpTable.v
PageProt.v
Peephole.v
Hotblock.v
PCache.v
CodeHash.v
Easy.v
Elf.v
Reloc.v
Syscall.v
Signals.v
Chain.v
Trace.v
