(* ===== verification/Prelude.v ===== *)
(** * A verification of Arm2x86

    Arm2x86 translates ARM machine code to x86-64 machine code.  Its sources are the
    modules [src/modules/arm2x86_*.c], all included into the one translation unit
    [src/arm2x86.c].  This library models the parts that decide what code is run:
    the decoder of guest words, the code emitter, the ARM32, Thumb and ARM64 translators
    built on it (with the register allocator and the NEON handlers of the latter, and
    the SVE emitters), the loop that translates and runs code block by block, the
    optimizers, the tables that keep, find, redirect and throw away translated code, the
    loader of ELF libraries with its relocations, the two interfaces that put the parts
    together, the core library and the easy interface, and what the translated program
    needs from its surroundings: system calls, signals, and the records of what ran.  It
    proves what each part does on every input, the wrong results included: where the
    code does not do what it means to, the theorem says what it does.

    ** How the parts interact

    The ARM32 translator reads 32-bit words of guest memory, looks x86 registers up in
    the register map and calls the emitter, which appends bytes at a cursor.  The ARM64
    translator decodes each word, calls the handler of its type, which takes its operands
    from the register home in memory or from the register allocator, and ends a block at
    the first branch.  The Thumb translator cuts memory into words of 16 and 32 bits.  The
    translation loop ([Dbt]) looks an address up in its own table of blocks, compares the
    guest code with the copy it took, calls the translator of the context's mode and
    runs the result.  The
    translation cache maps guest addresses to blocks of such bytes, evicts the least
    recently used ones and patches the jumps that led into them.  The jump table
    gives every guest address a patchable stub.  The page protection tracker decides
    which write faults on guest pages are handled.  The peephole optimizer rewrites
    emitted bytes in place, the hot-block optimizer copies those of a block that has run a
    hundred times through four passes.  Nothing in the program calls the SVE emitters.
    The core library owns the context and translates a piece of code into memory of its
    own.  The easy interface has an instance with all levels of translated code: the
    translation cache (by address), the persistent cache (in files, by address and a hash of
    the guest code), a table by content, and the translator, which takes memory from the
    pool or the system.  The ELF loader reads guest libraries, relocates them and finds
    their symbols; only its caller translates them.  Translated code asks the kernel through
    [do_translated_syscall]; a fault in a loaded module is translated where it happened by
    the handler of SIGSEGV.  Trace, profiler and counters record what the others tell them.

    ** The files

    - [Prelude]: the C operators on integers ([&&&], [|||], [>>>]...), the
      conversions to the fixed-width types, bit-field lemmas, little-endian bytes, and
      the case-analysis tactics ([each_of_8], [each_of_16], [decide_masks]); loops with an
      invariant and a measure ([while_rule]) and searches in arrays ([find_first],
      [first_least]).
    - [X86]: the reference.  A decoder of the x86-64 instructions the program emits,
      written from the processor manual, and the execution of the register-only ones.
      It models no file of the program: the theorems about emitted bytes are stated
      with it.
    - [Emit]: [arm2x86_emit.c].  An emitter is a state transformer on the bytes written
      so far; the cursor [*buf] is their number.  One definition per C function, with
      its name.  The class [Appends] states that an emitter appends bytes that do not
      depend on what precedes them; its instances are found by resolution and give the
      concatenation laws the translator's theorems use.
    - [Regs]: [arm2x86_regs.c], the two register maps and the spill code.
    - [Decode64]: [arm2x86_decode64.c].  The decoded structure is the record
      [DecodedInstruction]; the long function [arm2x86_decode] is split into its blocks
      ([decode_branches], [decode_system], ...), tried in the order of the source by
      [decode_word].
    - [Translate32]: [arm2x86_translate32.c], and [translate_arm32_vfma] and
      [translate_arm32_vfms] of [arm2x86_syscall.c].  [translate_instruction] is the
      cascade of the block loop, [convert_instruction] one iteration of it.
    - [Thumb]: [arm2x86_translate_thumb.c] with the IT-block state of [arm2x86_regs.c]; one
      definition per case of [translate_thumb16] and [translate_thumb32].
    - [Frame]: emitters that look at the cursor and patch what they have written.
      [Rel p m1 m2] relates the runs of an emitter with and without [p] bytes in front,
      [Grows n m] bounds what it appends, [Decodes m il] says which instructions its
      bytes are.
    - [RegAlloc]: the first part of [arm2x86_translate64.c]: the translation context, the
      register allocator, the map of translated addresses, direct jumps and dispatch
      stubs, as computations in a state monad over the context.  [Safe rec n m] is what a
      handler may do: append [n] bytes, record its address, keep the allocator's
      invariant [alloc_ok]; [Records] and [KeepsMap] of [Handlers64] say which handlers do
      record it.
    - [Neon]: [arm2x86_neon.c], an emitter per operation and per handler.
    - [Sve]: [arm2x86_sve.c]: the vector context with its operations, an emitter per
      instruction, and a small machine with a stack and vector registers.
    - [Translate64]: the handlers of [arm2x86_translate64.c], one definition per C
      function, over the class [Host] of what they take from their environment;
      [Handlers64] proves what the branches append, [Run64] what the code of the others
      does on the machine of [X86].
    - [Block64]: [arm2x86_convert_block] with its loop, prologue and epilogue; the switch
      over the instruction type is the table [handlers].  The inductive relation
      [translating] is the sequence of contexts the loop passes through.
    - [Dbt]: [arm2x86_dbt.c], the table of blocks, the code region and the mutex as the
      state of a monad without result when the program waits for ever; [program] runs
      are sequences of its operations and of writes to guest memory.
    - [TCache]: [arm2x86_tcache.c].  The state is a heap of entries with the pointers of
      the C structure, the cache header, the registered jump targets and code memory;
      an operation is a computation in a state monad that has no result when a pointer
      to a freed or unallocated entry is followed.  The invariant [wf w lru ins] says
      that the LRU list is the doubly linked list [lru], that every chain is the part of
      [ins] (the entries, newest first) with that bucket, and that the counters agree.
    - [JumpTable]: [arm2x86_jumptable.c], with stub memory as a function from addresses
      to bytes.
    - [PageProt]: [arm2x86_pageprot.c]; the array of page states is a list.
    - [Peephole]: [arm2x86_peephole.c]; the code buffer is a function from offsets to
      bytes.
    - [Hotblock]: [arm2x86_hotblock.c]: the passes as steps of a loop over a read cursor,
      the bytes written and a count, the phases with their buffers, the manager.
    - [PCache]: [arm2x86_pcache.c], the cache of translated blocks on disk; the directory
      is a finite map from names to file contents.
    - [Core]: [src/arm2x86.c] with [arm2x86_error.c]: messages, the context, statistics,
      translation into new memory, and the code cache of 4096 entries.
    - [Pool], [CodeHash], [Easy]: [arm2x86_easy.c], the memory pool, the table of
      translations by content, and the instance with everything else.  An operation of
      [Easy] is a computation over the instance, the process memory and the protection of
      its pages, without a result when the program would fail; it runs the operations of
      [TCache] on the part of the instance that is their state ([on_cache]).  What
      the system answers to a call is a record ([services]).
    - [Elf], [Reloc]: [arm2x86_elf.c], [arm2x86_fini.c], [arm2x86_arm64_32.c] and the
      relocation functions of [arm2x86_syscall.c].  A module's image is a function from
      offsets to bytes; the ELF structures are tables of field offsets, for both classes.
    - [Syscall]: of [arm2x86_syscall.c], the table of numbers, the structures, the TLS base,
      [do_translated_syscall] and the CRC-32 helper.  The kernel is a function from registers
      and memory to a result and memory; a process records the calls it made.
    - [Signals]: of [arm2x86_syscall.c], the flags and contexts of the guest, translation on
      a fault, and the handlers the guest registers; [arm2x86_signal.c].  The dispositions
      of the kernel are part of the state, and a handler is the list of what it calls.
    - [Chain]: of [arm2x86_syscall.c], the patching of exits, the inline cache, the AVX
      emitters and the counts of hot blocks.
    - [Trace]: [arm2x86_trace.c], [arm2x86_profiler.c] and [arm2x86_perf.c].  [slots_ok]
      relates a ring buffer to the list of everything recorded.

    ** The theorems

    - Translation loop: what a returned pointer leads to after any run
      ([dbt_translate_block_correct], [dbt_thumb_stale]), the next call for an address
      ([dbt_second_call]), insertion, invalidation and flush ([dbt_insert_spec],
      [dbt_invalidate_flush]) and how far a block can leave the region
      ([dbt_region_overrun]).
    - Thumb: the block translator ([convert_block_thumb_concat]), which body a word gets
      ([thumb16_dispatch], [thumb32_dispatch]) and what the code computes
      ([thumb_data_run]).
    - Hot blocks: the passes end within their buffers ([hotblock_passes_fit]), what each
      does to code ([dead_code_elimination_bytes], [constant_propagation_wrong],
      [fusion_effect], [unrolling_effect]), and what a hit does to the manager
      ([hotblock_record_hit_correct]).
    - SVE: the type of the context ([sve_context_typed]), predicates that are never written
      ([sve_predicates_inert]), and the code of the loops, accesses, reductions and calls
      ([sve_loop_code], [sve_access_address], [sve_reductions_no_result],
      [sve_crypto_stack]).
    - Translation cache: lookup, insertion with eviction, resizing and clearing follow
      no dangling pointer, keep the invariant, and refine operations on the two lists
      [lru] and [ins] ([tcache_insert_correct], [tcache_lookup_correct],
      [tcache_resize_correct], [tcache_clear_correct], [tcache_adjust_auto_correct]).  The
      reversal of the chains by a resize, which makes a stale block win, is part of the
      third.  [Keeps] says that they leave code and jump targets alone.
    - ARM32 translator: a block's code is the concatenation of its words' code
      ([convert_block_arm32_concat]) and at most 2301 bytes a word
      ([convert_block_arm32_size]); what conditions, branches, data processing and the
      dispatch really produce ([conditional_skips_body], [translate_branch_target],
      [translate_dp_runs], [cascade_dispatch]).
    - ARM64 block translator: it always returns, exactly which words it translates, that
      the output is their code and how many bytes they take
      ([convert_block64_structure]); which branches inside the block reach the code of
      their target, those to words of [unrecorded_types] do not ([translate_b_targets]);
      what is stored at the end
      ([block_exit_stores]).  The allocator's invariant and where it fails
      ([reg_alloc_operations], [frame_pointer_lost]).
    - ARM64 handlers: the exact code of the conditional branches
      ([conditional_branches_overwritten]), and what the code of the others computes:
      [handlers_64bit_run], [handlers_32bit_run], [loads_stores_run],
      [allocated_arith_run], [mov_imm_run], [system_registers_ignored].  NEON:
      [neon_binary_operands].
    - Emitter: decoding what an emitter wrote gives the intended instruction
      ([mov_r64_imm_decodes], [emit_modrm_disp_addresses], [emit_branch_targets],
      [patch_rel32_hits_target]) or the one it gives instead ([emitters_destination]).
    - Decoder: totality and ranges ([arm2x86_decode_total]), errors
      ([arm2x86_decode_errors]), the exact set of types produced
      ([decode_type_reachable]), and field by field results for the branches
      ([decode_branch_offsets]), moves, additions and loads.
    - Persistent cache: what is stored is looked up again ([pcache_store_lookup]), damage
      is found in the header and never in the code ([pcache_damage]), a cleanup removes
      the least recently used files, just as many as it must ([pcache_cleanup_correct]),
      how far the totals are from the files on every run ([pcache_accounting]), and the hash is
      the CRC-32 ([compute_hash_is_crc32]).
    - Core library: what a translation returns and writes ([convert_correct]), what an
      insertion into the code cache changes ([code_cache_insert_lookup]).
    - Easy interface: the blocks of the pool never overlap ([mempool_correct]); the hash
      and the table of contents ([code_hash_distinguishes], [code_table_refines]); a new
      translation is what the memory holds ([translate_easy_new]), the next call returns it
      again ([translate_easy_again]), by what a translation is found, which is not enough
      ([translate_easy_keys]), files of translated code and where that code comes from
      ([aot_roundtrip]), and the division of a batch ([parallel_ranges]).
    - ELF: loading gives the file's bytes ([elf_load_image]), the symbol table is an
      association list ([symbol_table_lookup]).  Relocation: where it writes
      ([elf_relocate_bounds]), that it relocates ([elf_relocate_relative]), the compact
      formats ([relr_relocation], [packed_relocations], [leb128_roundtrip]).
    - System calls: the numbers ([syscall_numbers]), what the kernel is entered with on
      every branch ([do_syscall_enters]), what the guest reads after fstat ([fstat_result]), and the
      CRC-32 instructions ([crc32_is_arm]).
    - Signals: contexts ([signal_context]), faults ([sigsegv_outcome]), handlers of the guest
      ([guest_handlers]) and of the bridge ([signal_bridge]).
    - Chaining ([chain_blocks_retargets]), the inline cache ([inline_cache_correct]), AVX
      ([avx_encodings]), hot blocks ([profile_counts]).
    - Records: the trace ([trace_export]), the profiler ([profiler_records],
      [top_blocks_report], [region_timing]), the counters ([perf_counts]).
    - Register maps: which registers share ([map_register_arm64_sharing]) and the spill round trip ([spill_round_trip]).
    - Jump table, page tracker, peephole optimizer: the invariants and effects of their
      operations, and the non-termination of the optimizer ([peephole_diverges]).

    ** Bounds and fuel

    Loops over linked lists take as fuel one more than the number of heap entries
    ([heap_fuel]); the theorems prove the result exists, so the fuel is enough on every
    well-formed cache.  The ARM32 block loop takes its fuel as an argument, one step per
    word begun; the ARM64 loop counts its at most 64 instructions itself, each of at most
    658 bytes ([max_handler_bytes]).  The Thumb loop makes at most one step per halfword of its
    512 bytes, 257 with the last test, and a block of the translation loop has at most 147264
    bytes ([max_translation]).  The passes of the hot-block optimizer have fuel 1000
    ([pass_fuel]), more than the bytes any of them reads.  The page loop takes the number of pages of the range plus one
    ([add_fuel]).  The optimizer's fuel is an argument: [peephole_identity] shows one
    step per byte is enough when nothing matches, [peephole_diverges] that none is
    enough once the scan stands on a zeroing of EAX that is wholly in the buffer.  The ELF loader's loops take a bound on the length of names and
    on the entries of the dynamic section as an argument, and the chain walks the number of
    symbols; LEB128 numbers have at most ten bytes.  Integers have the width of the C types, through [u8], [u32],
    [s32]... where an operation can wrap.

    ** What is not modelled

    Locks, except in [Dbt], where one is taken twice: each other function takes and
    releases its mutex within itself, and the model is sequential.  Parameters stand for
    the results of the allocator, [mmap], [mprotect] and the symbol lookup, for the
    addresses of the run-time helpers the ARM64 handlers call, for what CPUID and the
    clock report, and for what a shift with a count out of range gives.  The execution
    of [X86] covers register and memory moves and arithmetic without flags, so the
    theorems about running code are about the handlers that need no more.  The threads of
    a parallel batch run one after another.  Not modelled, because they are input and
    output of the host or glue to it: the native bridge and its JNI tables, the namespaces
    of libraries, the trampolines (hand-written assembly), the CPU features, the text of
    reports and exports, the callbacks and debug prints. *)
From Stdlib Require Import ZArith Lia Bool.
From stdpp Require Import base numbers list.
From coqutil Require Import Z.prove_Zeq_bitwise.

Open Scope Z_scope.

(** ** Notation: the C operators on integers *)

Declare Scope c_scope.
Delimit Scope c_scope with C.
Notation "a &&& b" := (Z.land a b) (at level 40, left associativity) : c_scope.
Notation "a ||| b" := (Z.lor a b) (at level 50, left associativity) : c_scope.
Notation "a ^^^ b" := (Z.lxor a b) (at level 50, left associativity) : c_scope.
Notation "a >>> b" := (Z.shiftr a b) (at level 38, left associativity) : c_scope.
Notation "a <<< b" := (Z.shiftl a b) (at level 38, left associativity) : c_scope.
Open Scope c_scope.

(** ** Machine integers: conversions to the C fixed-width types *)

Definition u8 (v : Z) : Z := v mod 2^8.
Definition u16 (v : Z) : Z := v mod 2^16.
Definition u32 (v : Z) : Z := v mod 2^32.
Definition u64 (v : Z) : Z := v mod 2^64.
Definition s8 (v : Z) : Z := (v + 2^7) mod 2^8 - 2^7.
Definition s16 (v : Z) : Z := (v + 2^15) mod 2^16 - 2^15.
Definition s32 (v : Z) : Z := (v + 2^31) mod 2^32 - 2^31.
Definition s64 (v : Z) : Z := (v + 2^63) mod 2^64 - 2^63.

(** C's truth value of an integer, and an [int] made of a comparison. *)
Definition c_true (v : Z) : bool := negb (v =? 0).
Definition b2z (b : bool) : Z := if b then 1 else 0.

Lemma u8_range v : 0 <= u8 v < 256.
Proof. apply Z.mod_pos_bound; lia. Qed.
Lemma u32_range v : 0 <= u32 v < 2^32.
Proof. apply Z.mod_pos_bound; lia. Qed.
Lemma u64_range v : 0 <= u64 v < 2^64.
Proof. apply Z.mod_pos_bound; lia. Qed.
Lemma s32_range v : - 2^31 <= s32 v < 2^31.
Proof. unfold s32. pose proof (Z.mod_pos_bound (v + 2^31) (2^32)). lia. Qed.

Lemma u8_small v : 0 <= v < 256 -> u8 v = v.
Proof. apply Z.mod_small. Qed.
Lemma u16_small v : 0 <= v < 2^16 -> u16 v = v.
Proof. apply Z.mod_small. Qed.
Lemma u32_small v : 0 <= v < 2^32 -> u32 v = v.
Proof. apply Z.mod_small. Qed.
Lemma u64_small v : 0 <= v < 2^64 -> u64 v = v.
Proof. apply Z.mod_small. Qed.
Lemma s32_small v : - 2^31 <= v < 2^31 -> s32 v = v.
Proof. intros H. unfold s32. rewrite Z.mod_small; lia. Qed.
Lemma s32_u32 v : s32 (u32 v) = s32 v.
Proof. unfold s32, u32. by rewrite Zplus_mod_idemp_l. Qed.
Lemma u8_s8 v : u8 (s8 v) = u8 v.
Proof. unfold u8, s8. rewrite Zminus_mod_idemp_l. f_equal. lia. Qed.
Lemma u32_s32 v : u32 (s32 v) = u32 v.
Proof.
  unfold s32, u32. rewrite Zminus_mod_idemp_l. f_equal. lia.
Qed.

(** ** Bit fields *)

Lemma land_ones_mod v n m : 0 <= n -> m = 2^n - 1 -> v &&& m = v mod 2^n.
Proof.
  intros Hn ->. replace (2^n - 1) with (Z.ones n).
  - by apply Z.land_ones.
  - rewrite Z.ones_equiv. lia.
Qed.

Lemma land_255 v : v &&& 0xff = u8 v.
Proof. by apply (land_ones_mod v 8). Qed.
Lemma land_7 v : v &&& 7 = v mod 2^3.
Proof. by apply (land_ones_mod v 3). Qed.
Lemma land_1 v : v &&& 1 = v mod 2.
Proof. by apply (land_ones_mod v 1). Qed.
Lemma land_15 v : v &&& 0xf = v mod 2^4.
Proof. by apply (land_ones_mod v 4). Qed.
Lemma land_31 v : v &&& 0x1f = v mod 2^5.
Proof. by apply (land_ones_mod v 5). Qed.

(** A masked value lies below any power of two that bounds the mask. *)
Lemma land_range v m : 0 <= m -> 0 <= v &&& m <= m.
Proof.
  intros Hm. rewrite Z.land_comm. split.
  - apply Z.land_nonneg. by left.
  - destruct (decide (m = 0)) as [->|]; [by rewrite Z.land_0_l|].
    assert (Hnn : 0 <= m &&& v) by (apply Z.land_nonneg; by left).
    enough (Hd : m = (m &&& v) + Z.ldiff m v).
    { assert (0 <= Z.ldiff m v) by (apply Z.ldiff_nonneg; by left). lia. }
    rewrite Z.add_nocarry_lxor.
    + apply Z.bits_inj'. intros k _. rewrite Z.lxor_spec, Z.land_spec, Z.ldiff_spec.
      by destruct (Z.testbit m k), (Z.testbit v k).
    + apply Z.bits_inj'. intros k _.
      rewrite Z.land_spec, Z.land_spec, Z.ldiff_spec, Z.bits_0.
      by destruct (Z.testbit m k), (Z.testbit v k).
Qed.

(** ** Little-endian byte strings *)

Fixpoint le_bytes (n : nat) (v : Z) : list Z :=
  match n with
  | O => []
  | S n => u8 v :: le_bytes n (v >>> 8)
  end.

Fixpoint le_combine (bs : list Z) : Z :=
  match bs with
  | [] => 0
  | b :: bs => b + 2^8 * le_combine bs
  end.

Lemma length_le_bytes n v : length (le_bytes n v) = n.
Proof. revert v. induction n; intros v; simpl; auto. Qed.

Lemma le_combine_bytes n v : le_combine (le_bytes n v) = v mod 2^(8 * Z.of_nat n).
Proof.
  revert v. induction n as [|n IH]; intros v.
  - simpl. by rewrite Z.mod_1_r.
  - cbn [le_bytes le_combine]. rewrite IH, Z.shiftr_div_pow2 by lia.
    replace (8 * Z.of_nat (S n)) with (8 + 8 * Z.of_nat n) by lia.
    rewrite (Z.pow_add_r 2 8) by lia.
    assert (0 < 2 ^ (8 * Z.of_nat n)) by (apply Z.pow_pos_nonneg; lia).
    rewrite Z.rem_mul_r by lia. unfold u8. lia.
Qed.

Lemma le_bytes_byte n v b : In b (le_bytes n v) -> 0 <= b < 256.
Proof.
  revert v. induction n as [|n IH]; intros v; simpl; [done|].
  intros [<-|H]; [apply u8_range | eauto].
Qed.

#[global] Arguments le_bytes : simpl never.

(** A byte value, and a list of them. *)
Notation bytes bs := (Forall (fun b => 0 <= b < 256) bs).

Lemma le_bytes_bytes n v : bytes (le_bytes n v).
Proof. apply Forall_forall. intros b Hb%list_elem_of_In. by apply le_bytes_byte in Hb. Qed.

Lemma le_bytes_combine bs : bytes bs -> le_bytes (length bs) (le_combine bs) = bs.
Proof.
  induction 1 as [|b bs Hb Hbs IH]; [done|]. cbn [length le_combine]. unfold le_bytes; fold le_bytes.
  f_equal; [unfold u8; rewrite Z.mul_comm, Z.mod_add, Z.mod_small; lia|].
  rewrite Z.shiftr_div_pow2 by lia. rewrite Z.mul_comm, Z.div_add, Z.div_small by lia. exact IH.
Qed.

(** Reading an [n]-byte little-endian integer off the front. *)
Definition take_le (n : nat) (bs : list Z) : option (Z * list Z) :=
  if Nat.leb n (length bs) then Some (le_combine (take n bs), drop n bs) else None.

Lemma take_le_bytes n v rest :
  take_le n (le_bytes n v ++ rest) = Some (v mod 2^(8 * Z.of_nat n), rest).
Proof.
  unfold take_le. rewrite length_app, length_le_bytes.
  replace (n <=? n + length rest)%nat with true by (symmetry; apply Nat.leb_le; lia).
  rewrite take_app_length', drop_app_length' by (by rewrite length_le_bytes).
  by rewrite le_combine_bytes.
Qed.

Lemma take_le_some n bs :
  (n <= length bs)%nat -> exists v r, take_le n bs = Some (v, r) /\ length bs = (n + length r)%nat.
Proof.
  intros H. exists (le_combine (take n bs)), (drop n bs). unfold take_le.
  rewrite (proj2 (Nat.leb_le _ _)) by done. split; [done|]. rewrite length_drop. lia.
Qed.

Lemma take_le_inv n bs v rest :
  bytes bs -> take_le n bs = Some (v, rest) -> bs = le_bytes n v ++ rest /\ bytes rest /\ 0 <= v < 2^(8 * Z.of_nat n).
Proof.
  unfold take_le. intros Hb. destruct (n <=? length bs)%nat eqn:E; [|done]. apply Nat.leb_le in E.
  intros [= <- <-].
  assert (Hbn : bytes (take n bs)) by (by apply Forall_take). pose proof (le_bytes_combine _ Hbn) as H.
  rewrite length_take, Nat.min_l in H by done. split_and!.
  - by rewrite H, take_drop.
  - by apply Forall_drop.
  - rewrite <- H, le_combine_bytes. apply Z.mod_pos_bound. apply Z.pow_pos_nonneg; lia.
  - rewrite <- H, le_combine_bytes. apply Z.mod_pos_bound. apply Z.pow_pos_nonneg; lia.
Qed.

(** ** Finite ranges: a boolean check of every value proves the claim *)

Definition all_below (n : nat) (f : Z -> bool) : bool := forallb f (seqZ 0 (Z.of_nat n)).

Lemma all_below_spec n f :
  all_below n f = true -> forall x, 0 <= x < Z.of_nat n -> f x = true.
Proof.
  unfold all_below. rewrite forallb_forall. intros H x Hx. apply H.
  apply list_elem_of_In, elem_of_seqZ. lia.
Qed.

(** Case analysis on the value of a register number. *)
Lemma cases_8 (x : Z) : 0 <= x < 8 ->
  x = 0 \/ x = 1 \/ x = 2 \/ x = 3 \/ x = 4 \/ x = 5 \/ x = 6 \/ x = 7.
Proof. lia. Qed.
Lemma cases_16 (x : Z) : 0 <= x < 16 ->
  x = 0 \/ x = 1 \/ x = 2 \/ x = 3 \/ x = 4 \/ x = 5 \/ x = 6 \/ x = 7 \/
  x = 8 \/ x = 9 \/ x = 10 \/ x = 11 \/ x = 12 \/ x = 13 \/ x = 14 \/ x = 15.
Proof. lia. Qed.

Ltac each_of_8 H := apply cases_8 in H; destruct_or! H; subst.
Ltac each_of_16 H := apply cases_16 in H; destruct_or! H; subst.

(** ** Lists: overwriting part of a byte buffer *)

Definition write_at (i : nat) (bs l : list Z) : list Z := list_inserts i bs l.

Lemma length_write_at i bs l : length (write_at i bs l) = length l.
Proof. apply length_inserts. Qed.

Lemma write_at_app l1 l2 bs l3 :
  length l2 = length bs -> write_at (length l1) bs (l1 ++ l2 ++ l3) = l1 ++ bs ++ l3.
Proof.
  unfold write_at. revert l1 l2. induction bs as [|b bs IH]; intros l1 [|x l2] Hl; try done.
  simpl. specialize (IH (l1 ++ [x]) l2). rewrite length_app in IH. simpl in IH.
  rewrite Nat.add_1_r in IH. rewrite <- !app_assoc in IH. simpl in IH.
  rewrite IH by (simpl in Hl; lia).
  rewrite insert_app_r_alt by lia. by rewrite Nat.sub_diag.
Qed.

(** ** Loops: [while (cond) body], [None] when the fuel runs out *)

Fixpoint while {S} (fuel : nat) (cond : S -> bool) (body : S -> S) (s : S) : option S :=
  match fuel with
  | O => None
  | S fuel => if cond s then while fuel cond body (body s) else Some s
  end.

(** A loop with an invariant and a measure ends, with the invariant and without the condition. *)
Lemma while_rule {S} (inv : S -> Prop) (measure : S -> Z) cond body fuel s :
  (forall s, inv s -> cond s = true -> inv (body s) /\ 0 < measure s /\ measure (body s) < measure s) ->
  inv s -> measure s < Z.of_nat fuel -> 0 < Z.of_nat fuel ->
  exists s', while fuel cond body s = Some s' /\ inv s' /\ cond s' = false.
Proof.
  intros Hstep. revert s. induction fuel as [|fuel IH]; intros s Hs Hf Hp; [lia|]. cbn [while].
  destruct (cond s) eqn:Ec; [|by exists s]. destruct (Hstep s Hs Ec) as (H1 & H2 & H3).
  apply IH; [done | lia..].
Qed.

(** ** Searching an array of which the first [n] entries are in use *)

(** The first entry that satisfies [P]. *)
Definition find_first {A} (P : A -> Prop) `{forall x, Decision (P x)} (n : nat) (l : list A) : option nat :=
  fst <$> list_find P (take n l).

Lemma find_first_some {A} d (P : A -> Prop) `{forall x, Decision (P x)} n l i :
  find_first P n l = Some i <->
  (i < n)%nat /\ (i < length l)%nat /\ P (nth i l d) /\ forall j, (j < i)%nat -> ~ P (nth j l d).
Proof.
  assert (Hnth : forall j, (j < n)%nat -> (j < length l)%nat -> take n l !! j = Some (nth j l d)).
  { intros j Hn Hl. rewrite lookup_take_lt by done. destruct (lookup_lt_is_Some_2 l j Hl) as [x Hx].
    by rewrite (nth_lookup_Some _ _ d _ Hx). }
  unfold find_first. split.
  - destruct (list_find P _) as [[k x]|] eqn:E; [|done]. intros [= ->]. apply list_find_Some in E as (Hx & HP & Hno).
    pose proof (lookup_lt_Some _ _ _ Hx) as Hlt. rewrite length_take in Hlt. rewrite Hnth in Hx by lia.
    injection Hx as Hx. split_and!; [lia..|by rewrite Hx|].
    intros j Hj. apply (Hno j); [by rewrite Hnth by lia | done].
  - intros (Hn & Hl & HP & Hno).
    rewrite (proj2 (list_find_Some P (take n l) i (nth i l d))); [done|]. split_and!; [by rewrite Hnth | done |].
    intros j y Hy Hj. rewrite Hnth in Hy by lia. injection Hy as <-. by apply Hno.
Qed.

Lemma find_first_none {A} d (P : A -> Prop) `{forall x, Decision (P x)} n l :
  find_first P n l = None <-> forall j, (j < n)%nat -> (j < length l)%nat -> ~ P (nth j l d).
Proof.
  split.
  - intros E j Hn Hl HP. unfold find_first in E. destruct (list_find P _) as [[k x]|] eqn:Ef; [done|].
    apply list_find_None in Ef. rewrite Forall_lookup in Ef. destruct (lookup_lt_is_Some_2 l j Hl) as [x Hx].
    apply (Ef j x); [by rewrite lookup_take_lt|]. by rewrite (nth_lookup_Some _ _ d _ Hx) in HP.
  - intros Hno. destruct (find_first P n l) as [i|] eqn:E; [|done].
    apply (find_first_some d) in E as (Hn & Hl & HP & _). by destruct (Hno i).
Qed.

(** The first index from 0 on with the least key: [best] is that of those below [i]. *)
Fixpoint first_least (key : nat -> Z) (n i best : nat) : nat :=
  match n with
  | O => best
  | S n => first_least key n (S i) (if key i <? key best then i else best)
  end.

Lemma first_least_ext key key' n i best : (forall j, key j = key' j) -> first_least key n i best = first_least key' n i best.
Proof. intros H. revert i best. induction n as [|n IH]; intros i best; cbn [first_least]; [done|]. by rewrite IH, !H. Qed.

Lemma first_least_spec key n i best : (best < i)%nat ->
  (forall j, (j < i)%nat -> key best <= key j) -> (forall j, (j < best)%nat -> key best < key j) ->
  let r := first_least key n i best in
  (r < i + n)%nat /\ (forall j, (j < i + n)%nat -> key r <= key j) /\ (forall j, (j < r)%nat -> key r < key j).
Proof.
  revert i best. induction n as [|n IH]; intros i best Hl Hmin Hfirst; cbn [first_least]; cbv zeta.
  { rewrite Nat.add_0_r. done. }
  rewrite <- Nat.add_succ_comm. destruct (Z.ltb_spec (key i) (key best)) as [H|H].
  - apply IH; [lia| |].
    + intros j Hj. destruct (decide (j = i)) as [->|]; [done|]. specialize (Hmin j ltac:(lia)). lia.
    + intros j Hj. specialize (Hmin j ltac:(lia)). lia.
  - apply IH; [lia| |done]. intros j Hj. destruct (decide (j = i)) as [->|]; [done|]. apply Hmin. lia.
Qed.

(** The whole array, from entry 0. *)
Lemma first_least_all key n : (0 < n)%nat ->
  let r := first_least key (n - 1) 1 0 in
  (r < n)%nat /\ (forall j, (j < n)%nat -> key r <= key j) /\ (forall j, (j < r)%nat -> key r < key j).
Proof.
  intros Hn. pose proof (first_least_spec key (n - 1) 1 0 ltac:(lia)) as H. cbv zeta in H.
  replace (1 + (n - 1))%nat with n in H by lia. apply H; intros j Hj; [replace j with 0%nat by lia|]; lia.
Qed.

Lemma nth_insert {A} (d : A) i b l j : (i < length l)%nat -> nth j (<[i := b]> l) d = if decide (j = i) then b else nth j l d.
Proof.
  intros Hi. rewrite !nth_lookup. destruct (decide (j = i)) as [->|].
  - by rewrite list_lookup_insert_eq.
  - by rewrite list_lookup_insert_ne.
Qed.

Lemma nth_alter {A} (d : A) f i l j : (i < length l)%nat ->
  nth j (alter f i l) d = if decide (j = i) then f (nth i l d) else nth j l d.
Proof.
  intros Hi. rewrite !nth_lookup. destruct (decide (j = i)) as [->|].
  - rewrite list_lookup_alter_eq. destruct (lookup_lt_is_Some_2 l i Hi) as [b ->]. done.
  - by rewrite list_lookup_alter_ne.
Qed.

Lemma alter_nth {A} (d : A) f i l : (i < length l)%nat -> alter f i l = <[i := f (nth i l d)]> l.
Proof.
  revert i. induction l as [|a l IH]; intros [|i] Hi; cbn in *; [lia..|done|]. f_equal. apply IH. lia.
Qed.

(** ** Hint databases *)

Create HintDb wrap.
#[export] Hint Rewrite land_255 land_7 land_1 land_15 land_31 length_le_bytes : wrap.
#[export] Hint Resolve u8_range u32_range u64_range s32_range : wrap.

(** ** Tests of an instruction word against masks

    Decoders test [(op &&& m) =? c] for many constants [m] and [c].  Once the bits
    of [op] under one mask [cm] are known, every test of a mask inside [cm], and
    every test that disagrees on a bit of [cm], is decided by computation. *)

Lemma mask_known op cm cv m : op &&& cm = cv -> cm &&& m = m -> op &&& m = cv &&& m.
Proof. intros <- Hm. by rewrite <- Z.land_assoc, Hm. Qed.

Lemma mask_differs op cm cv m c :
  op &&& cm = cv -> (cv &&& m) <> (c &&& cm) -> ((op &&& m) =? c) = false.
Proof.
  intros <- Hne. apply Z.eqb_neq. intros <-. apply Hne.
  by rewrite <- !Z.land_assoc, (Z.land_comm cm m).
Qed.

Lemma word_differs op cm cv c : op &&& cm = cv -> cv <> (c &&& cm) -> (op =? c) = false.
Proof. intros <- Hne. apply Z.eqb_neq. by intros ->. Qed.

(** Decide every mask test on [op] that [Hop : op &&& cm = cv] determines. *)
Ltac decide_masks Hop :=
  match type of Hop with
  | ?op &&& ?cm = ?cv =>
    repeat match goal with
    | |- context [Z.eqb (Z.land (Zpos ?a) (Zpos ?b)) ?c] =>
      let v := eval vm_compute in (Z.eqb (Z.land (Zpos a) (Zpos b)) c) in
      change (Z.eqb (Z.land (Zpos a) (Zpos b)) c) with v
    | |- context [Z.eqb (Z.land op ?m) ?c] =>
      first
        [ rewrite (mask_known op cm cv m Hop) by (vm_compute; reflexivity)
        | rewrite (mask_differs op cm cv m c Hop) by (vm_compute; discriminate) ]
    | |- context [Z.eqb op ?c] =>
      rewrite (word_differs op cm cv c Hop) by (vm_compute; discriminate)
    end
  end; cbn [orb andb negb].

(** ** Bit-field algebra

    An encoding is a constant and shifted masked fields joined with [|||].
    [fields] extracts and masks parts of such a word by distributing over the
    parts and computing on the constants. *)

Lemma shl_land x k m : 0 <= k -> (x <<< k) &&& m = (x &&& (m >>> k)) <<< k.
Proof.
  intros Hk. apply Z.bits_inj'. intros i Hi.
  rewrite Z.land_spec, !Z.shiftl_spec, Z.land_spec by lia.
  destruct (decide (k <= i)).
  - by rewrite Z.shiftr_spec, Z.sub_add by lia.
  - by rewrite (Z.testbit_neg_r x) by lia.
Qed.

Lemma shl_shr_le x j k : 0 <= j <= k -> (x <<< j) >>> k = x >>> (k - j).
Proof. intros. by rewrite Z.shiftr_shiftl_r by lia. Qed.
Lemma shl_shr_ge x j k : 0 <= k <= j -> (x <<< j) >>> k = x <<< (j - k).
Proof. intros. by rewrite Z.shiftr_shiftl_l by lia. Qed.

Lemma land_small x n m : 0 <= n -> m = 2^n - 1 -> 0 <= x < 2^n -> x &&& m = x.
Proof. intros Hn Hm Hx. rewrite (land_ones_mod x n) by done. by apply Z.mod_small. Qed.

Ltac fold_consts :=
  repeat match goal with
  | |- context [Z.land (Zpos ?a) (Zpos ?b)] =>
    let v := eval vm_compute in (Z.land (Zpos a) (Zpos b)) in change (Z.land (Zpos a) (Zpos b)) with v
  | |- context [Z.lor (Zpos ?a) (Zpos ?b)] =>
    let v := eval vm_compute in (Z.lor (Zpos a) (Zpos b)) in change (Z.lor (Zpos a) (Zpos b)) with v
  | |- context [Z.shiftr (Zpos ?a) (Zpos ?b)] =>
    let v := eval vm_compute in (Z.shiftr (Zpos a) (Zpos b)) in change (Z.shiftr (Zpos a) (Zpos b)) with v
  | |- context [Z.shiftl (Zpos ?a) (Zpos ?b)] =>
    let v := eval vm_compute in (Z.shiftl (Zpos a) (Zpos b)) in change (Z.shiftl (Zpos a) (Zpos b)) with v
  | |- context [Z.sub (Zpos ?a) (Zpos ?b)] =>
    let v := eval vm_compute in (Z.sub (Zpos a) (Zpos b)) in change (Z.sub (Zpos a) (Zpos b)) with v
  end.

Ltac fields :=
  repeat first
    [ progress fold_consts
    | rewrite Z.land_0_r | rewrite Z.land_0_l | rewrite Z.shiftl_0_l | rewrite Z.shiftr_0_l
    | rewrite Z.lor_0_r | rewrite Z.lor_0_l | rewrite Z.shiftr_0_r | rewrite Z.shiftl_0_r
    | rewrite Z.land_lor_distr_l | rewrite Z.shiftr_lor
    | rewrite shl_land by lia | rewrite Z.shiftr_land
    | rewrite <- Z.land_assoc | rewrite shl_shr_le by lia | rewrite shl_shr_ge by lia ].
