(* ===== verification/X86.v ===== *)
(** * The x86-64 reference: instruction decoding and register semantics

    The specification the code emitter is checked against.  It follows the
    encoding rules of the Intel SDM (volume 2, chapter 2: prefixes, REX, ModR/M,
    SIB, displacement, immediate) for the opcodes that [arm2x86_emit.c],
    [arm2x86_regs.c] and the translators produce.  Nothing in this file models
    code under [src/]: it is what the bytes written there mean to the processor. *)
From S2P Require Import Prelude.
From Stdlib Require Import ZArith Lia Bool.
From stdpp Require Import base numbers list.
Open Scope Z_scope.
Open Scope c_scope.

(** ** Instructions *)

Inductive width := W8 | W16 | W32 | W64.
#[export] Instance width_eq_dec : EqDecision width.
Proof. solve_decision. Defined.

Inductive operand :=
| Reg (r : Z)
| Mem (base : option Z) (index : option (Z * Z)) (disp : Z)
| RipRel (disp : Z).

Inductive alu_op := ADD | OR | ADC | SBB | AND | SUB | XOR | CMP.
Inductive shift_op := ROL | ROR | SHL | SHR | SAR.
Inductive unary_op := NOT | NEG | MUL | IMUL | DIV | IDIV.
Inductive scan_op := BSF | BSR | TZCNT | LZCNT | POPCNT.
Inductive fence_op := LFENCE | MFENCE | SFENCE.

Inductive insn :=
| MovRmR (w : width) (dst : operand) (src : Z)
| MovRRm (w : width) (dst : Z) (src : operand)
| MovRI (w : width) (dst : Z) (imm : Z)
| Movzx (w from : width) (dst : Z) (src : operand)
| Movsx (w from : width) (dst : Z) (src : operand)
| AluRmR (op : alu_op) (w : width) (dst : operand) (src : Z)
| AluRRm (op : alu_op) (w : width) (dst : Z) (src : operand)
| AluRmI (op : alu_op) (w : width) (dst : operand) (imm : Z)
| TestRmR (w : width) (a : operand) (b : Z)
| TestRmI (w : width) (a : operand) (imm : Z)
| ShiftI (op : shift_op) (w : width) (dst : operand) (imm : Z)
| ShiftCl (op : shift_op) (w : width) (dst : operand)
| Unary (op : unary_op) (w : width) (dst : operand)
| ImulRRm (w : width) (dst : Z) (src : operand)
| ImulRRmI (w : width) (dst : Z) (src : operand) (imm : Z)
| Cmov (cc : Z) (w : width) (dst : Z) (src : operand)
| Setcc (cc : Z) (dst : operand)
| Scan (op : scan_op) (w : width) (dst : Z) (src : operand)
| Bswap (w : width) (r : Z)
| Cmpxchg (lock : bool) (w : width) (dst : operand) (src : Z)
| Xadd (lock : bool) (w : width) (dst : operand) (src : Z)
| PushR (r : Z) | PopR (r : Z)
| PushRm (src : operand) | PopRm (dst : operand)
| JmpRm (target : operand) | CallRm (target : operand)
| JmpRel (rel : Z) | CallRel (rel : Z) | Jcc (cc : Z) (rel : Z)
| Ret | Nop | Cdq | Cqo | Syscall | Ud2
| Fence (op : fence_op)
| Sse (prefix : Z) (opcode : Z) (w : width) (xmm : Z) (rm : operand)
| SseI (prefix : Z) (opcode : Z) (w : width) (xmm : Z) (rm : operand) (imm : Z).

(** ** Decoding *)

(** The prefixes seen so far: the mandatory prefix byte (0x66, 0xF2, 0xF3, or 0),
    LOCK, a segment override, and the REX bits (R, X and B as 0 or 8). *)
Record prefixes := {
  p_mand : Z; p_lock : bool; p_seg : Z;
  p_rex : bool; p_w : bool; p_r : Z; p_x : Z; p_b : Z }.

Definition no_prefix : prefixes :=
  {| p_mand := 0; p_lock := false; p_seg := 0; p_rex := false;
     p_w := false; p_r := 0; p_x := 0; p_b := 0 |}.

(** Legacy prefixes, then at most one REX byte, which must come last. *)
Fixpoint decode_prefixes (p : prefixes) (bs : list Z) : prefixes * list Z :=
  match bs with
  | [] => (p, [])
  | b :: rest =>
    if (b =? 0x66) || (b =? 0xf2) || (b =? 0xf3) then
      decode_prefixes {| p_mand := b; p_lock := p_lock p; p_seg := p_seg p;
        p_rex := false; p_w := false; p_r := 0; p_x := 0; p_b := 0 |} rest
    else if b =? 0xf0 then
      decode_prefixes {| p_mand := p_mand p; p_lock := true; p_seg := p_seg p;
        p_rex := false; p_w := false; p_r := 0; p_x := 0; p_b := 0 |} rest
    else if b =? 0x64 then
      decode_prefixes {| p_mand := p_mand p; p_lock := p_lock p; p_seg := b;
        p_rex := false; p_w := false; p_r := 0; p_x := 0; p_b := 0 |} rest
    else if (b / 16) =? 4 then
      ({| p_mand := p_mand p; p_lock := p_lock p; p_seg := p_seg p; p_rex := true;
          p_w := Z.testbit b 3; p_r := 8 * b2z (Z.testbit b 2);
          p_x := 8 * b2z (Z.testbit b 1); p_b := 8 * b2z (Z.testbit b 0) |}, rest)
    else (p, bs)
  end.

Definition take_s8 (bs : list Z) : option (Z * list Z) :=
  '(v, r) ← take_le 1 bs; Some (s8 v, r).
Definition take_s32 (bs : list Z) : option (Z * list Z) :=
  '(v, r) ← take_le 4 bs; Some (s32 v, r).

Definition disp_of (md : Z) (bs : list Z) : option (Z * list Z) :=
  if md =? 0 then Some (0, bs) else if md =? 1 then take_s8 bs else take_s32 bs.

(** ModR/M, SIB and displacement: the value of the reg field (with REX.R), the
    r/m operand, and the remaining bytes. *)
Definition decode_modrm (p : prefixes) (bs : list Z) : option (Z * operand * list Z) :=
  match bs with
  | [] => None
  | b :: bs =>
    let md := b / 64 in
    let reg := (b / 8) mod 8 + p_r p in
    let rm := b mod 8 in
    if md =? 3 then Some (reg, Reg (rm + p_b p), bs)
    else if rm =? 4 then
      match bs with
      | [] => None
      | s :: bs =>
        let idx := (s / 8) mod 8 + p_x p in
        let index := if idx =? 4 then None else Some (idx, 2 ^ (s / 64)) in
        if (s mod 8 =? 5) && (md =? 0) then
          '(d, r) ← take_s32 bs; Some (reg, Mem None index d, r)
        else
          '(d, r) ← disp_of md bs; Some (reg, Mem (Some (s mod 8 + p_b p)) index d, r)
      end
    else if (rm =? 5) && (md =? 0) then
      '(d, r) ← take_s32 bs; Some (reg, RipRel d, r)
    else
      '(d, r) ← disp_of md bs; Some (reg, Mem (Some (rm + p_b p)) None d, r)
  end.

Definition alu_of (n : Z) : alu_op :=
  match n with
  | 0 => ADD | 1 => OR | 2 => ADC | 3 => SBB | 4 => AND | 5 => SUB | 6 => XOR | _ => CMP
  end.

Definition shift_of (n : Z) : option shift_op :=
  match n with 0 => Some ROL | 1 => Some ROR | 4 => Some SHL | 5 => Some SHR
             | 7 => Some SAR | _ => None end.

Definition opsize (p : prefixes) : width :=
  if p_w p then W64 else if p_mand p =? 0x66 then W16 else W32.

(** An instruction with a ModR/M byte and no immediate. *)
Definition with_modrm (p : prefixes) (bs : list Z) (f : Z -> operand -> insn)
    : option (insn * list Z) :=
  '(reg, rm, r) ← decode_modrm p bs; Some (f reg rm, r).

Definition decode_sse (p : prefixes) (op : Z) (bs : list Z) : option (insn * list Z) :=
  with_modrm p bs (fun reg rm => Sse (p_mand p) op (if p_w p then W64 else W32) reg rm).

(** The two-byte opcode map (0x0F escape). *)
Definition decode_0f (p : prefixes) (op : Z) (bs : list Z) : option (insn * list Z) :=
  let w := opsize p in
  let m := with_modrm p bs in
  if op =? 0x05 then Some (Syscall, bs)
  else if op =? 0x0b then Some (Ud2, bs)
  else if op / 16 =? 4 then m (fun reg rm => Cmov (op mod 16) w reg rm)
  else if op / 16 =? 8 then '(d, r) ← take_s32 bs; Some (Jcc (op mod 16) d, r)
  else if op / 16 =? 9 then m (fun _ rm => Setcc (op mod 16) rm)
  else if op =? 0xaf then m (fun reg rm => ImulRRm w reg rm)
  else if op =? 0xb6 then m (fun reg rm => Movzx w W8 reg rm)
  else if op =? 0xb7 then m (fun reg rm => Movzx w W16 reg rm)
  else if op =? 0xbe then m (fun reg rm => Movsx w W8 reg rm)
  else if op =? 0xbf then m (fun reg rm => Movsx w W16 reg rm)
  else if op =? 0xb1 then m (fun reg rm => Cmpxchg (p_lock p) w rm reg)
  else if op =? 0xc1 then m (fun reg rm => Xadd (p_lock p) w rm reg)
  else if op =? 0xb8 then
    if p_mand p =? 0xf3 then m (fun reg rm => Scan POPCNT w reg rm) else None
  else if op =? 0xbc then
    m (fun reg rm => Scan (if p_mand p =? 0xf3 then TZCNT else BSF) w reg rm)
  else if op =? 0xbd then
    m (fun reg rm => Scan (if p_mand p =? 0xf3 then LZCNT else BSR) w reg rm)
  else if (0xc8 <=? op) && (op <=? 0xcf) then Some (Bswap w (op - 0xc8 + p_b p), bs)
  else if op =? 0xae then
    match bs with
    | 0xe8 :: r => Some (Fence LFENCE, r)
    | 0xf0 :: r => Some (Fence MFENCE, r)
    | 0xf8 :: r => Some (Fence SFENCE, r)
    | _ => None
    end
  else if (op =? 0x10) || (op =? 0x11) || (op =? 0x28) || (op =? 0x29) || (op =? 0x2a)
       || (op =? 0x2d) || (op =? 0x2e) || (op =? 0x2f) || ((op / 16 =? 5) && negb (op =? 0x50))
       || (op =? 0x6e) || (op =? 0x6f) || (op =? 0x7e) || (op =? 0xd9) || (op =? 0xd5)
       || (op =? 0xdb) || (op =? 0xeb) || (op =? 0xef) || (op =? 0xf3) || (op =? 0xe3)
       || (op =? 0xd4) || (op =? 0xea) || (op =? 0xee) || (op =? 0xf6)
  then decode_sse p op bs
  else if op =? 0x70 then
    '(reg, rm, r) ← decode_modrm p bs; '(i, r) ← take_le 1 r;
    Some (SseI (p_mand p) op (if p_w p then W64 else W32) reg rm i, r)
  else None.

(** The one-byte opcode map, after the prefixes. *)
Definition decode_main (p : prefixes) (op : Z) (bs : list Z) : option (insn * list Z) :=
  let w := opsize p in
  let m := with_modrm p bs in
  if (op <? 0x40) && (op mod 8 =? 1) then m (fun reg rm => AluRmR (alu_of (op / 8)) w rm reg)
  else if (op <? 0x40) && (op mod 8 =? 3) then m (fun reg rm => AluRRm (alu_of (op / 8)) w reg rm)
  else if op / 8 =? 10 then Some (PushR (op mod 8 + p_b p), bs)
  else if op / 8 =? 11 then Some (PopR (op mod 8 + p_b p), bs)
  else if op =? 0x63 then m (fun reg rm => Movsx w W32 reg rm)
  else if op =? 0x69 then
    '(reg, rm, r) ← decode_modrm p bs; '(i, r) ← take_s32 r; Some (ImulRRmI w reg rm i, r)
  else if op =? 0x81 then
    '(reg, rm, r) ← decode_modrm p bs; '(i, r) ← take_s32 r;
    Some (AluRmI (alu_of (reg mod 8)) w rm i, r)
  else if op =? 0x83 then
    '(reg, rm, r) ← decode_modrm p bs; '(i, r) ← take_s8 r;
    Some (AluRmI (alu_of (reg mod 8)) w rm i, r)
  else if op =? 0x85 then m (fun reg rm => TestRmR w rm reg)
  else if op =? 0x88 then m (fun reg rm => MovRmR W8 rm reg)
  else if op =? 0x89 then m (fun reg rm => MovRmR w rm reg)
  else if op =? 0x8b then m (fun reg rm => MovRRm w reg rm)
  else if op =? 0x8f then m (fun _ rm => PopRm rm)
  else if op =? 0x90 then Some (Nop, bs)
  else if op =? 0x99 then Some (if p_w p then Cqo else Cdq, bs)
  else if op / 8 =? 23 then
    if p_w p then '(i, r) ← take_le 8 bs; Some (MovRI W64 (op mod 8 + p_b p) i, r)
    else '(i, r) ← take_le 4 bs; Some (MovRI W32 (op mod 8 + p_b p) i, r)
  else if op =? 0xc1 then
    '(reg, rm, r) ← decode_modrm p bs; '(i, r) ← take_le 1 r;
    k ← shift_of (reg mod 8); Some (ShiftI k w rm i, r)
  else if op =? 0xd3 then
    '(reg, rm, r) ← decode_modrm p bs; k ← shift_of (reg mod 8); Some (ShiftCl k w rm, r)
  else if op =? 0xc3 then Some (Ret, bs)
  else if op =? 0xe8 then '(d, r) ← take_s32 bs; Some (CallRel d, r)
  else if op =? 0xe9 then '(d, r) ← take_s32 bs; Some (JmpRel d, r)
  else if op =? 0xeb then '(d, r) ← take_s8 bs; Some (JmpRel d, r)
  else if op =? 0xf7 then
    '(reg, rm, r) ← decode_modrm p bs;
    match reg mod 8 with
    | 0 => '(i, r) ← take_s32 r; Some (TestRmI w rm i, r)
    | 2 => Some (Unary NOT w rm, r) | 3 => Some (Unary NEG w rm, r)
    | 4 => Some (Unary MUL w rm, r) | 5 => Some (Unary IMUL w rm, r)
    | 6 => Some (Unary DIV w rm, r) | 7 => Some (Unary IDIV w rm, r)
    | _ => None
    end
  else if op =? 0xff then
    '(reg, rm, r) ← decode_modrm p bs;
    match reg mod 8 with
    | 2 => Some (CallRm rm, r) | 4 => Some (JmpRm rm, r) | 6 => Some (PushRm rm, r)
    | _ => None
    end
  else None.

(** One instruction from the front of a byte string, and the bytes after it. *)
Definition decode (bs : list Z) : option (insn * list Z) :=
  let '(p, bs) := decode_prefixes no_prefix bs in
  match bs with
  | [] => None
  | 0x0f :: op :: r => decode_0f p op r
  | op :: r => decode_main p op r
  end.

(** A whole byte string, decoded to the end. *)
Fixpoint decode_all (fuel : nat) (bs : list Z) : option (list insn) :=
  match bs, fuel with
  | [], _ => Some []
  | _, O => None
  | _, S fuel => '(i, r) ← decode bs; il ← decode_all fuel r; Some (i :: il)
  end.
Definition disassemble (bs : list Z) : option (list insn) := decode_all (length bs) bs.

(** ** Register and memory semantics of the instructions the theorems run *)

Record machine := { regs : Z -> Z; memory : Z -> Z }.

Definition upd (f : Z -> Z) (k v : Z) : Z -> Z := fun x => if x =? k then v else f x.

Definition store64 (m : Z -> Z) (a v : Z) : Z -> Z :=
  fun x => let o := (x - a) mod 2^64 in
           if o <? 8 then u8 (v >>> (8 * o)) else m x.
Definition load64 (m : Z -> Z) (a : Z) : Z :=
  le_combine (map (fun o => m (u64 (a + o))) [0; 1; 2; 3; 4; 5; 6; 7]).

Definition store32 (m : Z -> Z) (a v : Z) : Z -> Z :=
  fun x => let o := (x - a) mod 2^64 in
           if o <? 4 then u8 (v >>> (8 * o)) else m x.
Definition load32 (m : Z -> Z) (a : Z) : Z :=
  le_combine (map (fun o => m (u64 (a + o))) [0; 1; 2; 3]).

Definition eff_addr (st : machine) (base : option Z) (index : option (Z * Z)) (d : Z) : Z :=
  u64 ((match base with Some b => regs st b | None => 0 end)
       + (match index with Some (i, s) => regs st i * s | None => 0 end) + d).

Definition trunc (w : width) (v : Z) : Z :=
  match w with W8 => u8 v | W16 => u16 v | W32 => u32 v | W64 => u64 v end.

Definition alu_sem (op : alu_op) (a b : Z) : option Z :=
  match op with
  | ADD => Some (a + b) | SUB => Some (a - b) | AND => Some (a &&& b)
  | OR => Some (a ||| b) | XOR => Some (a ^^^ b) | ADC | SBB | CMP => None
  end.

Definition set_reg (st : machine) (w : width) (r v : Z) : option machine :=
  match w with
  | W32 | W64 => Some {| regs := upd (regs st) r (trunc w v); memory := memory st |}
  | _ => None
  end.

(** Execution of 32- and 64-bit register moves and arithmetic and of 32- and 64-bit
    loads and stores; the other instructions have no successor here. *)
Definition exec (i : insn) (st : machine) : option machine :=
  match i with
  | MovRI w d imm => set_reg st w d imm
  | MovRmR w (Reg d) s => set_reg st w d (regs st s)
  | MovRRm w d (Reg s) => set_reg st w d (regs st s)
  | MovRmR W64 (Mem b ix dsp) s =>
      Some {| regs := regs st; memory := store64 (memory st) (eff_addr st b ix dsp) (regs st s) |}
  | MovRRm W64 d (Mem b ix dsp) =>
      set_reg st W64 d (load64 (memory st) (eff_addr st b ix dsp))
  | MovRmR W32 (Mem b ix dsp) s =>
      Some {| regs := regs st; memory := store32 (memory st) (eff_addr st b ix dsp) (regs st s) |}
  | MovRRm W32 d (Mem b ix dsp) =>
      set_reg st W32 d (load32 (memory st) (eff_addr st b ix dsp))
  | AluRmR op w (Reg d) s => v ← alu_sem op (regs st d) (regs st s); set_reg st w d v
  | AluRRm op w d (Reg s) => v ← alu_sem op (regs st d) (regs st s); set_reg st w d v
  | AluRmI op w (Reg d) imm => v ← alu_sem op (regs st d) imm; set_reg st w d v
  | ImulRRm w d (Reg s) => set_reg st w d (regs st d * regs st s)
  | Unary NOT w (Reg d) => set_reg st w d (Z.lnot (regs st d))
  | Unary NEG w (Reg d) => set_reg st w d (- regs st d)
  | Nop => Some st
  | _ => None
  end.

Fixpoint exec_all (il : list insn) (st : machine) : option machine :=
  match il with
  | [] => Some st
  | i :: il => st ← exec i st; exec_all il st
  end.

(** What the bytes do to the machine. *)
Definition run (bs : list Z) (st : machine) : option machine :=
  il ← disassemble bs; exec_all il st.

(** ** Sequences of instructions *)

Lemma decode_all_more n m bs il :
  decode_all n bs = Some il -> (n <= m)%nat -> decode_all m bs = Some il.
Proof.
  revert m bs il. induction n as [|n IH]; intros m [|b bs] il H Hm; try done.
  { by destruct m. }
  { by destruct m. }
  destruct m as [|m]; [lia|]. cbn [decode_all] in *.
  destruct (decode (b :: bs)) as [[i r]|]; [|done]. simpl in *.
  destruct (decode_all n r) as [l|] eqn:E; [|done]. simpl in *.
  rewrite (IH m r l) by (done || lia). done.
Qed.

Lemma disassemble_nil : disassemble [] = Some [].
Proof. done. Qed.

(** One instruction in front of a byte string that disassembles. *)
Lemma disassemble_cons bs rest i il :
  decode (bs ++ rest) = Some (i, rest) -> bs <> [] ->
  disassemble rest = Some il -> disassemble (bs ++ rest) = Some (i :: il).
Proof.
  intros Hd Hne Hr. unfold disassemble in *. destruct bs as [|b bs]; [done|].
  rewrite length_app. cbn [length Nat.add app decode_all] in *. rewrite Hd. simpl.
  rewrite (decode_all_more _ (length bs + length rest) _ _ Hr) by lia. done.
Qed.

Lemma disassemble_one bs i :
  decode bs = Some (i, []) -> bs <> [] -> disassemble bs = Some [i].
Proof.
  intros Hd Hne. rewrite <- (app_nil_r bs). apply disassemble_cons; [|done..].
  by rewrite app_nil_r.
Qed.

Lemma run_cons bs rest i st st' :
  decode (bs ++ rest) = Some (i, rest) -> bs <> [] -> disassemble rest <> None ->
  exec i st = Some st' -> run (bs ++ rest) st = run rest st'.
Proof.
  intros Hd Hne Hr He. unfold run.
  destruct (disassemble rest) as [il|] eqn:E; [|done].
  rewrite (disassemble_cons _ _ _ il) by done. simpl. by rewrite He.
Qed.

Lemma run_one bs i st : decode bs = Some (i, []) -> bs <> [] -> run bs st = exec i st.
Proof.
  intros Hd Hne. unfold run. rewrite (disassemble_one _ i) by done. simpl.
  by destruct (exec i st).
Qed.
