(* ===== verification/Emit.v ===== *)
(** * The x86-64 code emitter: [modules/arm2x86_emit.c]

    Every function of the file takes [uint8_t **buf], a cursor into an output
    buffer that it advances as it writes.  Here the buffer is the list of the
    bytes written so far, the cursor is its length, and an [emitter A] is a
    function that extends the buffer and returns an [A] (the functions that
    return a patch location return an index into the buffer).  A parameter of C
    type [uint8_t] is a [Z] below 256. *)
From S2P Require Import Prelude X86.
From Stdlib Require Import ZArith Lia Bool.
From stdpp Require Import base numbers list.
Open Scope Z_scope.
Open Scope c_scope.

(** ** The emitter monad *)

Definition emitter (A : Type) : Type := list Z -> A * list Z.

#[export] Instance emitter_ret : MRet emitter := fun A a b => (a, b).
#[export] Instance emitter_bind : MBind emitter :=
  fun A B f m b => let '(a, b') := m b in f a b'.

(** The code an emitter writes into an empty buffer. *)
Definition code {A} (m : emitter A) : list Z := (m []).2.

(** [*buf]: the cursor as a position. *)
Definition here : emitter nat := fun b => (length b, b).

(** ** Basic emit functions *)

Definition emit_byte (v : Z) : emitter unit := fun b => (tt, b ++ [u8 v]).

Definition emit_imm32 (v : Z) : emitter unit :=
  emit_byte (v &&& 0xff) ;;
  emit_byte ((v >>> 8) &&& 0xff) ;;
  emit_byte ((v >>> 16) &&& 0xff) ;;
  emit_byte ((v >>> 24) &&& 0xff).

Definition emit_imm16 (v : Z) : emitter unit :=
  emit_byte (v &&& 0xff) ;;
  emit_byte ((v >>> 8) &&& 0xff).

Definition emit_imm8 (v : Z) : emitter unit := emit_byte (u8 v).

Fixpoint nop_padding (count : nat) : emitter unit :=
  match count with
  | O => mret tt
  | S count => emit_byte 0x90 ;; nop_padding count
  end.

(** ** REX and ModR/M encoding *)

Definition rex (w r x b : Z) : emitter unit :=
  emit_byte (0x40 ||| (if c_true w then 0x08 else 0)
             ||| ((r &&& 1) <<< 2) ||| ((x &&& 1) <<< 1) ||| (b &&& 1)).

Definition rex_r (reg rm : Z) : emitter unit := rex 1 (reg >>> 3) 0 (rm >>> 3).
Definition rex_rm (reg rm : Z) : emitter unit := rex 0 (reg >>> 3) 0 (rm >>> 3).

Definition modrm (md reg rm : Z) : emitter unit :=
  emit_byte ((md <<< 6) ||| ((reg &&& 7) <<< 3) ||| (rm &&& 7)).

Definition sib (scale index base : Z) : emitter unit :=
  emit_byte ((scale <<< 6) ||| ((index &&& 7) <<< 3) ||| (base &&& 7)).

Definition X86_REG_RAX := 0.
Definition X86_REG_RCX := 1.
Definition X86_REG_RDX := 2.
Definition X86_REG_RBX := 3.
Definition X86_REG_RSP := 4.
Definition X86_REG_RBP := 5.
Definition X86_REG_RSI := 6.
Definition X86_REG_RDI := 7.
Definition X86_REG_R8 := 8.
Definition X86_REG_R9 := 9.
Definition X86_REG_R10 := 10.
Definition X86_REG_R11 := 11.
Definition X86_REG_R12 := 12.
Definition X86_REG_R13 := 13.
Definition X86_REG_R14 := 14.
Definition X86_REG_R15 := 15.

Definition emit_modrm_sib_disp (reg base index scale disp : Z) : emitter unit :=
  let md := if (disp =? 0) && negb (base =? X86_REG_RBP) && negb (base =? X86_REG_RSP) then 0
            else if (-128 <=? disp) && (disp <=? 127) then 1 else 2 in
  modrm md reg 4 ;;
  sib scale index base ;;
  if md =? 1 then emit_imm8 (s8 disp) else if md =? 2 then emit_imm32 disp else mret tt.

Definition emit_modrm_disp (reg base disp : Z) : emitter unit :=
  let md := if (disp =? 0) && negb (base =? X86_REG_RBP) then 0
            else if (-128 <=? disp) && (disp <=? 127) then 1 else 2 in
  modrm md reg (base &&& 7) ;;
  if md =? 1 then emit_imm8 (s8 disp) else if md =? 2 then emit_imm32 disp else mret tt.

(** ** Moves *)

Definition mov_r64_imm (reg imm : Z) : emitter unit :=
  rex 1 0 0 (reg >>> 3) ;;
  emit_byte (0xb8 ||| (reg &&& 7)) ;;
  emit_byte (imm &&& 0xff) ;;
  emit_byte ((imm >>> 8) &&& 0xff) ;;
  emit_byte ((imm >>> 16) &&& 0xff) ;;
  emit_byte ((imm >>> 24) &&& 0xff) ;;
  emit_byte ((imm >>> 32) &&& 0xff) ;;
  emit_byte ((imm >>> 40) &&& 0xff) ;;
  emit_byte ((imm >>> 48) &&& 0xff) ;;
  emit_byte ((imm >>> 56) &&& 0xff).

Definition mov_r32_imm (reg imm : Z) : emitter unit :=
  rex_rm 0 reg ;;
  emit_byte (0xb8 ||| (reg &&& 7)) ;;
  emit_imm32 (s32 imm).

Definition mov_r64_r64 (dest src : Z) : emitter unit :=
  rex_r dest src ;; emit_byte 0x89 ;; modrm 3 (dest &&& 7) (src &&& 7).

Definition movzx_r64_r8 (dest src : Z) : emitter unit :=
  rex 1 0 (dest >>> 3) (src >>> 3) ;;
  emit_byte 0x0f ;; emit_byte 0xb6 ;; modrm 3 (dest &&& 7) (src &&& 7).

Definition add_r64_imm8 (reg imm : Z) : emitter unit :=
  rex_rm 1 (reg >>> 3) ;; emit_byte 0x83 ;; modrm 3 0 (reg &&& 7) ;; emit_imm8 imm.

Definition test_r64_r64 (a b : Z) : emitter unit :=
  rex_r a b ;; emit_byte 0x85 ;; modrm 3 (a &&& 7) (b &&& 7).

Definition mov_r64_mem (reg mem : Z) : emitter unit :=
  rex_r reg 0 ;; emit_byte 0x89 ;; modrm 0 (reg &&& 7) 5 ;; emit_imm32 0.

(** ** Control flow *)

Definition emit_jmp (offset : Z) : emitter nat :=
  patch_loc ← here;
  emit_byte 0xe9 ;; emit_imm32 (s32 (offset - 5)) ;; mret patch_loc.

Definition emit_jmp8 (offset : Z) : emitter nat :=
  patch_loc ← here;
  emit_byte 0xeb ;; emit_imm8 (s8 (offset - 2)) ;; mret patch_loc.

Definition emit_jcc (cond offset : Z) : emitter nat :=
  emit_byte 0x0f ;; emit_byte cond ;;
  patch_loc ← here;
  emit_imm32 (s32 (offset - 6)) ;; mret patch_loc.

Definition emit_call (offset : Z) : emitter nat :=
  patch_loc ← here;
  emit_byte 0xe8 ;; emit_imm32 (s32 (offset - 5)) ;; mret patch_loc.

Definition emit_ret : emitter unit := emit_byte 0xc3.

Definition cmov_r64_r64 (cond dest src : Z) : emitter unit :=
  rex_r dest src ;; emit_byte 0x0f ;; emit_byte (0x40 + cond) ;;
  modrm 3 (dest &&& 7) (src &&& 7).

Definition emit_call_reg (reg : Z) : emitter unit :=
  rex_r 2 reg ;; emit_byte 0xff ;; modrm 3 2 (reg &&& 7).

Definition emit_jmp_reg (reg : Z) : emitter unit :=
  rex_r 0 reg ;; emit_byte 0xff ;; modrm 3 4 (reg &&& 7).

(** ** Integer arithmetic *)

Definition add_r64_r64 (dest src : Z) : emitter unit :=
  rex_r dest src ;; emit_byte 0x01 ;; modrm 3 (dest &&& 7) (src &&& 7).
Definition sub_r64_r64 (dest src : Z) : emitter unit :=
  rex_r dest src ;; emit_byte 0x29 ;; modrm 3 (dest &&& 7) (src &&& 7).
Definition and_r64_r64 (dest src : Z) : emitter unit :=
  rex_r dest src ;; emit_byte 0x21 ;; modrm 3 (dest &&& 7) (src &&& 7).
Definition or_r64_r64 (dest src : Z) : emitter unit :=
  rex_r dest src ;; emit_byte 0x09 ;; modrm 3 (dest &&& 7) (src &&& 7).
Definition xor_r64_r64 (dest src : Z) : emitter unit :=
  rex_r dest src ;; emit_byte 0x31 ;; modrm 3 (dest &&& 7) (src &&& 7).

Definition cmp_r64_r64 (a b : Z) : emitter unit :=
  rex_r 0 a ;; emit_byte 0x3b ;; modrm 3 (a &&& 7) (b &&& 7).
Definition cmp_r64_imm32 (reg imm : Z) : emitter unit :=
  rex_r 0 reg ;; emit_byte 0x81 ;; modrm 3 7 (reg &&& 7) ;; emit_imm32 imm.
Definition cmp_r64_imm8 (reg imm : Z) : emitter unit :=
  rex_r 0 reg ;; emit_byte 0x83 ;; modrm 3 7 (reg &&& 7) ;; emit_imm8 imm.

Definition shl_r64_imm8 (reg amount : Z) : emitter unit :=
  rex_r 0 reg ;; emit_byte 0xc1 ;; modrm 3 4 (reg &&& 7) ;; emit_imm8 (s8 amount).
Definition shr_r64_imm8 (reg amount : Z) : emitter unit :=
  rex_r 0 reg ;; emit_byte 0xc1 ;; modrm 3 5 (reg &&& 7) ;; emit_imm8 (s8 amount).
Definition sar_r64_imm8 (reg amount : Z) : emitter unit :=
  rex_r 0 reg ;; emit_byte 0xc1 ;; modrm 3 7 (reg &&& 7) ;; emit_imm8 (s8 amount).

Definition neg_r64 (reg : Z) : emitter unit :=
  rex_r 0 reg ;; emit_byte 0xf7 ;; modrm 3 3 (reg &&& 7).
Definition not_r64 (reg : Z) : emitter unit :=
  rex_r 0 reg ;; emit_byte 0xf7 ;; modrm 3 2 (reg &&& 7).

Definition imul_r64_r64 (dest src : Z) : emitter unit :=
  rex_r dest src ;; emit_byte 0x0f ;; emit_byte 0xaf ;; modrm 3 (dest &&& 7) (src &&& 7).

Definition pop_r64 (reg : Z) : emitter unit :=
  (if c_true (reg &&& 8) then emit_byte 0x41 else mret tt) ;;
  emit_byte (0x58 ||| (reg &&& 7)).
Definition push_r64 (reg : Z) : emitter unit :=
  (if c_true (reg &&& 8) then emit_byte 0x41 else mret tt) ;;
  emit_byte (0x50 ||| (reg &&& 7)).

Definition mul_r64 (src : Z) : emitter unit :=
  rex_r 0 src ;; emit_byte 0xf7 ;; modrm 3 4 (src &&& 7).
Definition imul_r64 (src : Z) : emitter unit :=
  rex_r 0 src ;; emit_byte 0xf7 ;; modrm 3 5 (src &&& 7).
Definition div_r64 (src : Z) : emitter unit :=
  rex_r 0 src ;; emit_byte 0xf7 ;; modrm 3 6 (src &&& 7).
Definition idiv_r64 (src : Z) : emitter unit :=
  rex_r 0 src ;; emit_byte 0xf7 ;; modrm 3 7 (src &&& 7).

Definition emit_cdq : emitter unit := emit_byte 0x99.
Definition emit_cqo : emitter unit := emit_byte 0x48 ;; emit_byte 0x99.

(** ** Barriers, atomics, system calls *)

Definition emit_mfence : emitter unit := emit_byte 0x0f ;; emit_byte 0xae ;; emit_byte 0xf0.
Definition emit_lfence : emitter unit := emit_byte 0x0f ;; emit_byte 0xae ;; emit_byte 0xe8.
Definition emit_sfence : emitter unit := emit_byte 0x0f ;; emit_byte 0xae ;; emit_byte 0xf8.
Definition emit_lock : emitter unit := emit_byte 0xf0.

Definition emit_lock_cmpxchg_mem (reg base disp : Z) : emitter unit :=
  emit_lock ;; rex_r 0 reg ;; emit_byte 0x0f ;; emit_byte 0xb1 ;;
  emit_modrm_disp (reg &&& 7) base disp.
Definition emit_lock_xadd_mem (reg base disp : Z) : emitter unit :=
  emit_lock ;; rex_r reg 0 ;; emit_byte 0x0f ;; emit_byte 0xc1 ;;
  emit_modrm_disp (reg &&& 7) base disp.

Definition emit_syscall : emitter unit := emit_byte 0x0f ;; emit_byte 0x05.

(** ** Scalar floating point *)

Definition movsd_xmm_xmm (dest src : Z) : emitter unit :=
  emit_byte 0xf2 ;; emit_byte 0x0f ;; emit_byte 0x10 ;;
  emit_byte (0xc0 ||| ((dest &&& 7) <<< 3) ||| (src &&& 7)).
Definition addsd_xmm_xmm (dest src : Z) : emitter unit :=
  emit_byte 0xf2 ;; emit_byte 0x0f ;; emit_byte 0x58 ;;
  emit_byte (0xc0 ||| ((dest &&& 7) <<< 3) ||| (src &&& 7)).
Definition subsd_xmm_xmm (dest src : Z) : emitter unit :=
  emit_byte 0xf2 ;; emit_byte 0x0f ;; emit_byte 0x5c ;;
  emit_byte (0xc0 ||| ((dest &&& 7) <<< 3) ||| (src &&& 7)).
Definition mulsd_xmm_xmm (dest src : Z) : emitter unit :=
  emit_byte 0xf2 ;; emit_byte 0x0f ;; emit_byte 0x59 ;;
  emit_byte (0xc0 ||| ((dest &&& 7) <<< 3) ||| (src &&& 7)).
Definition divsd_xmm_xmm (dest src : Z) : emitter unit :=
  emit_byte 0xf2 ;; emit_byte 0x0f ;; emit_byte 0x5e ;;
  emit_byte (0xc0 ||| ((dest &&& 7) <<< 3) ||| (src &&& 7)).
Definition cvtsi2sd_xmm_r64 (xmm reg : Z) : emitter unit :=
  emit_byte 0xf2 ;; rex_r xmm reg ;; emit_byte 0x2a ;; modrm 3 (xmm &&& 7) (reg &&& 7).
Definition cvtsd2si_r64_xmm (reg xmm : Z) : emitter unit :=
  emit_byte 0xf2 ;; rex_r reg xmm ;; emit_byte 0x2d ;; modrm 3 (reg &&& 7) (xmm &&& 7).
Definition comisd_xmm_xmm (a b : Z) : emitter unit :=
  emit_byte 0x66 ;; emit_byte 0x0f ;; emit_byte 0x2f ;;
  emit_byte (0xc0 ||| ((a &&& 7) <<< 3) ||| (b &&& 7)).
Definition sqrtsd_xmm_xmm (dest src : Z) : emitter unit :=
  emit_byte 0xf2 ;; emit_byte 0x0f ;; emit_byte 0x51 ;;
  emit_byte (0xc0 ||| ((dest &&& 7) <<< 3) ||| (src &&& 7)).
Definition xorps_xmm_xmm (xmm : Z) : emitter unit :=
  emit_byte 0x0f ;; emit_byte 0x57 ;; emit_byte (0xc0 ||| (xmm <<< 3) ||| xmm).

(** ** Patching already emitted code *)

Definition patch_bytes (v : Z) : list Z :=
  [u8 (v &&& 0xff); u8 ((v >>> 8) &&& 0xff); u8 ((v >>> 16) &&& 0xff); u8 ((v >>> 24) &&& 0xff)].

Definition patch_rel32 (patch_loc : option nat) (target : nat) : emitter unit :=
  fun b =>
    match patch_loc with
    | None => (tt, b)
    | Some p =>
      let offset := s32 (Z.of_nat target - Z.of_nat p - 4) in
      (tt, write_at p (patch_bytes offset) b)
    end.

Definition patch_rel32_value (patch_loc : option nat) (offset : Z) : emitter unit :=
  fun b =>
    match patch_loc with
    | None => (tt, b)
    | Some p => let rel := s32 (offset - 4) in (tt, write_at p (patch_bytes rel) b)
    end.

(** ** Additional helpers *)

Definition emit_rex_r32 (reg : Z) : emitter unit := rex_rm 0 reg.

Definition adc_r64_r64 (dest src : Z) : emitter unit :=
  rex 1 0 (dest >>> 3) (src >>> 3) ;; emit_byte 0x11 ;; modrm 3 (dest &&& 7) (src &&& 7).
Definition sbb_r64_r64 (dest src : Z) : emitter unit :=
  rex 1 0 (dest >>> 3) (src >>> 3) ;; emit_byte 0x19 ;; modrm 3 (dest &&& 7) (src &&& 7).
Definition ror_r64_imm8 (reg imm : Z) : emitter unit :=
  rex_rm 1 (reg >>> 3) ;; emit_byte 0xc1 ;; modrm 3 1 (reg &&& 7) ;; emit_imm8 (s8 imm).
Definition ror_r64_r64 (dest src : Z) : emitter unit :=
  rex 1 0 (dest >>> 3) (src >>> 3) ;; emit_byte 0xd3 ;; modrm 3 1 (dest &&& 7).
Definition bsf_r64_r64 (dest src : Z) : emitter unit :=
  rex 1 0 (dest >>> 3) (src >>> 3) ;;
  emit_byte 0x0f ;; emit_byte 0xbc ;; modrm 3 (dest &&& 7) (src &&& 7).
Definition bsr_r64_r64 (dest src : Z) : emitter unit :=
  rex 1 0 (dest >>> 3) (src >>> 3) ;;
  emit_byte 0x0f ;; emit_byte 0xbd ;; modrm 3 (dest &&& 7) (src &&& 7).
Definition lzcnt_r64_r64 (dest src : Z) : emitter unit :=
  emit_byte 0xf3 ;; rex 1 0 (dest >>> 3) (src >>> 3) ;;
  emit_byte 0x0f ;; emit_byte 0xbd ;; modrm 3 (dest &&& 7) (src &&& 7).
Definition tzcnt_r64_r64 (dest src : Z) : emitter unit :=
  emit_byte 0xf3 ;; rex 1 0 (dest >>> 3) (src >>> 3) ;;
  emit_byte 0x0f ;; emit_byte 0xbc ;; modrm 3 (dest &&& 7) (src &&& 7).
Definition popcnt_r64_r64 (dest src : Z) : emitter unit :=
  emit_byte 0xf3 ;; rex 1 0 (dest >>> 3) (src >>> 3) ;;
  emit_byte 0x0f ;; emit_byte 0xb8 ;; modrm 3 (dest &&& 7) (src &&& 7).
Definition emit_bswap (reg : Z) : emitter unit :=
  rex_rm 1 (reg >>> 3) ;; emit_byte 0x0f ;; emit_byte (0xc8 ||| (reg &&& 7)).

Definition emit_movsx (size dest src : Z) : emitter unit :=
  rex 1 0 (dest >>> 3) (src >>> 3) ;;
  (if size =? 8 then emit_byte 0x0f ;; emit_byte 0xbe
   else if size =? 16 then emit_byte 0x0f ;; emit_byte 0xbf
   else if size =? 32 then emit_byte 0x63
   else mret tt) ;;
  modrm 3 (dest &&& 7) (src &&& 7).

Definition emit_movzx (size dest src : Z) : emitter unit :=
  if size =? 32 then
    rex 0 0 (dest >>> 3) (src >>> 3) ;; emit_byte 0x89 ;; modrm 3 (src &&& 7) (dest &&& 7)
  else
    (if size =? 8 then
       rex 1 0 (dest >>> 3) (src >>> 3) ;; emit_byte 0x0f ;; emit_byte 0xb6
     else if size =? 16 then
       rex 1 0 (dest >>> 3) (src >>> 3) ;; emit_byte 0x0f ;; emit_byte 0xb7
     else mret tt) ;;
    modrm 3 (dest &&& 7) (src &&& 7).

Definition emit_movsxd (dest src : Z) : emitter unit :=
  rex 1 0 (dest >>> 3) (src >>> 3) ;; emit_byte 0x63 ;; modrm 3 (dest &&& 7) (src &&& 7).

Definition emit_imul_r64_imm32 (reg imm : Z) : emitter unit :=
  rex_rm 1 (reg >>> 3) ;; emit_byte 0x69 ;; modrm 3 (reg &&& 7) (reg &&& 7) ;; emit_imm32 imm.
Definition emit_mul_r64 (reg : Z) : emitter unit :=
  rex_rm 1 (reg >>> 3) ;; emit_byte 0xf7 ;; modrm 3 4 (reg &&& 7).
Definition emit_imul_r64 (reg : Z) : emitter unit :=
  rex_rm 1 (reg >>> 3) ;; emit_byte 0xf7 ;; modrm 3 5 (reg &&& 7).
Definition emit_test_r64_r64 (a b : Z) : emitter unit :=
  rex 1 0 (a >>> 3) (b >>> 3) ;; emit_byte 0x85 ;; modrm 3 (a &&& 7) (b &&& 7).
Definition emit_test_r64_imm32 (reg imm : Z) : emitter unit :=
  rex_rm 1 (reg >>> 3) ;; emit_byte 0xf7 ;; modrm 3 0 (reg &&& 7) ;; emit_imm32 imm.
Definition emit_setcc (cond reg : Z) : emitter unit :=
  rex_rm 0 (reg >>> 3) ;;
  emit_byte 0x0f ;; emit_byte (0x90 ||| (cond &&& 0x0f)) ;; modrm 3 0 (reg &&& 7).
Definition emit_cmovcc (cond dest src : Z) : emitter unit :=
  rex 1 0 (dest >>> 3) (src >>> 3) ;;
  emit_byte 0x0f ;; emit_byte (0x40 ||| (cond &&& 0x0f)) ;; modrm 3 (dest &&& 7) (src &&& 7).
Definition emit_cmpxchg (dest src : Z) : emitter unit :=
  rex 1 0 (dest >>> 3) (src >>> 3) ;;
  emit_byte 0x0f ;; emit_byte 0xb1 ;; modrm 3 (dest &&& 7) (src &&& 7).
Definition emit_xadd (dest src : Z) : emitter unit :=
  emit_byte 0xf0 ;; rex 1 0 (dest >>> 3) (src >>> 3) ;;
  emit_byte 0x0f ;; emit_byte 0xc1 ;; modrm 3 (dest &&& 7) (src &&& 7).

Definition emit_addsd_xmm_xmm (dest src : Z) : emitter unit :=
  emit_byte 0xf2 ;; emit_byte 0x0f ;; emit_byte 0x58 ;;
  emit_byte (0xc0 ||| ((dest &&& 7) <<< 3) ||| (src &&& 7)).
Definition emit_subsd_xmm_xmm (dest src : Z) : emitter unit :=
  emit_byte 0xf2 ;; emit_byte 0x0f ;; emit_byte 0x5c ;;
  emit_byte (0xc0 ||| ((dest &&& 7) <<< 3) ||| (src &&& 7)).
Definition emit_mulsd_xmm_xmm (dest src : Z) : emitter unit :=
  emit_byte 0xf2 ;; emit_byte 0x0f ;; emit_byte 0x59 ;;
  emit_byte (0xc0 ||| ((dest &&& 7) <<< 3) ||| (src &&& 7)).
Definition emit_divsd_xmm_xmm (dest src : Z) : emitter unit :=
  emit_byte 0xf2 ;; emit_byte 0x0f ;; emit_byte 0x5e ;;
  emit_byte (0xc0 ||| ((dest &&& 7) <<< 3) ||| (src &&& 7)).
Definition emit_sqrtsd_xmm_xmm (dest src : Z) : emitter unit :=
  emit_byte 0xf2 ;; emit_byte 0x0f ;; emit_byte 0x51 ;;
  emit_byte (0xc0 ||| ((dest &&& 7) <<< 3) ||| (src &&& 7)).

Definition emit_abssd_xmm_xmm (dest src : Z) : emitter unit :=
  (if negb (dest =? src) then
     emit_byte 0xf3 ;; emit_byte 0x0f ;; emit_byte 0x7e ;; modrm 3 (dest &&& 7) (src &&& 7)
   else mret tt) ;;
  emit_byte 0x48 ;; emit_byte 0xb8 ;;
  emit_byte 0xff ;; emit_byte 0xff ;; emit_byte 0xff ;; emit_byte 0x7f ;;
  emit_byte 0x00 ;; emit_byte 0x00 ;; emit_byte 0x00 ;; emit_byte 0x00 ;;
  emit_byte 0x49 ;; emit_byte 0x0f ;; emit_byte 0x6e ;; modrm 3 3 3 ;;
  emit_byte 0x66 ;; emit_byte 0x41 ;; emit_byte 0x0f ;; emit_byte 0x70 ;; modrm 3 3 3 ;;
  emit_byte 0x00 ;;
  emit_byte 0x0f ;; emit_byte 0x54 ;; modrm 3 (dest &&& 7) 3.

Definition emit_negsd_xmm_xmm (dest src : Z) : emitter unit :=
  (if negb (dest =? src) then
     emit_byte 0xf3 ;; emit_byte 0x0f ;; emit_byte 0x7e ;; modrm 3 (dest &&& 7) (src &&& 7)
   else mret tt) ;;
  emit_byte 0x48 ;; emit_byte 0xb8 ;;
  emit_byte 0x00 ;; emit_byte 0x00 ;; emit_byte 0x00 ;; emit_byte 0x00 ;;
  emit_byte 0x00 ;; emit_byte 0x00 ;; emit_byte 0x00 ;; emit_byte 0x80 ;;
  emit_byte 0x49 ;; emit_byte 0x0f ;; emit_byte 0x6e ;; modrm 3 3 3 ;;
  emit_byte 0x66 ;; emit_byte 0x0f ;; emit_byte 0x57 ;; modrm 3 (dest &&& 7) 3.

Definition emit_ucomisd_xmm_xmm (a b : Z) : emitter unit :=
  emit_byte 0x66 ;; emit_byte 0x0f ;; emit_byte 0x2e ;;
  emit_byte (0xc0 ||| ((a &&& 7) <<< 3) ||| (b &&& 7)).
Definition emit_cvtss2sd (dest src : Z) : emitter unit :=
  emit_byte 0xf3 ;; emit_byte 0x0f ;; emit_byte 0x5a ;;
  emit_byte (0xc0 ||| ((dest &&& 7) <<< 3) ||| (src &&& 7)).
Definition emit_cvtsd2ss (dest src : Z) : emitter unit :=
  emit_byte 0xf2 ;; emit_byte 0x0f ;; emit_byte 0x5a ;;
  emit_byte (0xc0 ||| ((dest &&& 7) <<< 3) ||| (src &&& 7)).
Definition emit_movd_xmm_r64 (xmm reg : Z) : emitter unit :=
  emit_byte 0x66 ;; rex_r xmm reg ;; emit_byte 0x0f ;; emit_byte 0x6e ;;
  modrm 3 (xmm &&& 7) (reg &&& 7).
Definition emit_movq_xmm_xmm (dest src : Z) : emitter unit :=
  emit_byte 0xf3 ;; emit_byte 0x0f ;; emit_byte 0x7e ;;
  emit_byte (0xc0 ||| ((dest &&& 7) <<< 3) ||| (src &&& 7)).
Definition emit_pcmov_sd (cond dest src : Z) : emitter unit := mret tt.

(** ** Emitters only append *)

(** [Appends m]: whatever is already in the buffer, [m] leaves it in place and
    adds the same bytes. *)
Class Appends {A} (m : emitter A) : Prop := appends b : (m b).2 = b ++ code m.

Lemma code_bind_const {A B} (m : emitter A) (k : emitter B) :
  Appends k -> code (m ;; k) = code m ++ code k.
Proof.
  intros Hk. unfold code at 1. unfold mbind, emitter_bind.
  destruct (m []) as [a c] eqn:E. rewrite (Hk c). unfold code. by rewrite E.
Qed.

#[export] Instance appends_ret {A} (a : A) : Appends (mret a).
Proof. intros b. unfold code, mret, emitter_ret. simpl. by rewrite app_nil_r. Qed.

#[export] Instance appends_byte v : Appends (emit_byte v).
Proof. done. Qed.

#[export] Instance appends_bind_const {A B} (m : emitter A) (k : emitter B) :
  Appends m -> Appends k -> Appends (m ;; k).
Proof.
  intros Hm Hk b. rewrite code_bind_const by done. unfold mbind, emitter_bind.
  pose proof (Hm b) as E. destruct (m b) as [a c]; simpl in E; subst c.
  by rewrite (Hk _), app_assoc.
Qed.

#[export] Instance appends_if {A} (c : bool) (m1 m2 : emitter A) :
  Appends m1 -> Appends m2 -> Appends (if c then m1 else m2).
Proof. by destruct c. Qed.

(** Functions that remember the cursor and return it. *)
#[export] Instance appends_here_pre {B} (m : emitter B) :
  Appends m -> Appends (p ← here; m ;; mret p).
Proof.
  intros Hm b. unfold code. unfold here, mbind, emitter_bind, mret, emitter_ret. simpl.
  pose proof (Hm b) as E1. unfold code in E1.
  destruct (m b), (m []); simpl in *; congruence.
Qed.

#[export] Instance appends_here_pre2 {B C} (m : emitter B) (k : emitter C) :
  Appends m -> Appends k -> Appends (p ← here; m ;; k ;; mret p).
Proof.
  intros Hm Hk b. unfold code. unfold here, mbind, emitter_bind, mret, emitter_ret. simpl.
  pose proof (Hm b) as E1. unfold code in E1.
  destruct (m b) as [x1 c1], (m []) as [x2 c2]; simpl in *; subst.
  pose proof (Hk (b ++ c2)) as E2. pose proof (Hk c2) as E3. unfold code in E2, E3.
  destruct (k (b ++ c2)), (k c2); simpl in *; subst. by rewrite app_assoc.
Qed.

(** [Appends] of a function of this file, by its structure. *)
Ltac solve_appends :=
  intros;
  repeat match goal with
  | |- Appends (if _ then _ else _) => apply appends_if
  | |- Appends (mbind (fun _ => ?k) ?m) => apply appends_bind_const
  | |- Appends (emit_byte _) => apply appends_byte
  | |- Appends (mret _) => apply appends_ret
  | _ => apply _
  end.

#[export] Instance appends_imm32 v : Appends (emit_imm32 v).
Proof. unfold emit_imm32. solve_appends. Qed.
#[export] Instance appends_imm8 v : Appends (emit_imm8 v).
Proof. unfold emit_imm8. solve_appends. Qed.
#[export] Instance appends_imm16 v : Appends (emit_imm16 v).
Proof. unfold emit_imm16. solve_appends. Qed.
#[export] Instance appends_nops n : Appends (nop_padding n).
Proof. induction n; simpl; solve_appends. Qed.
#[export] Instance appends_rex w r x b : Appends (rex w r x b).
Proof. unfold rex. solve_appends. Qed.
#[export] Instance appends_modrm m r b : Appends (modrm m r b).
Proof. unfold modrm. solve_appends. Qed.
#[export] Instance appends_sib s i b : Appends (sib s i b).
Proof. unfold sib. solve_appends. Qed.
#[export] Instance appends_modrm_disp r b d : Appends (emit_modrm_disp r b d).
Proof. unfold emit_modrm_disp. cbv zeta. solve_appends. Qed.
#[export] Instance appends_modrm_sib_disp r b i s d : Appends (emit_modrm_sib_disp r b i s d).
Proof. unfold emit_modrm_sib_disp. cbv zeta. solve_appends. Qed.

Lemma code_ret {A} (a : A) : code (mret a) = [].
Proof. done. Qed.
Lemma code_byte v : code (emit_byte v) = [u8 v].
Proof. done. Qed.

Lemma u8_land_255 v : u8 (v &&& 0xff) = u8 v.
Proof. rewrite land_255. apply Zmod_mod. Qed.

(** A 32-bit immediate is written little-endian. *)
Lemma code_imm32 v : code (emit_imm32 v) = le_bytes 4 v.
Proof.
  unfold emit_imm32. rewrite !code_bind_const by apply _. rewrite !code_byte, !u8_land_255.
  lazy beta iota delta [le_bytes app]. by rewrite !Z.shiftr_shiftr by lia.
Qed.

Lemma code_imm8 v : code (emit_imm8 v) = [u8 v].
Proof. unfold emit_imm8. rewrite code_byte. unfold u8. by rewrite Zmod_mod. Qed.

Lemma take_s32_bytes v rest : take_s32 (le_bytes 4 v ++ rest) = Some (s32 v, rest).
Proof.
  unfold take_s32. rewrite take_le_bytes. simpl. do 2 f_equal. apply s32_u32.
Qed.

Lemma take_s8_byte v rest : take_s8 (u8 v :: rest) = Some (s8 v, rest).
Proof.
  unfold take_s8. change (u8 v :: rest) with (le_bytes 1 v ++ rest).
  rewrite take_le_bytes. simpl. do 2 f_equal. unfold s8. by rewrite Zplus_mod_idemp_l.
Qed.

(** The code of a sequence of emitters with concrete registers. *)
Ltac emit_norm :=
  repeat (rewrite code_bind_const by solve_appends);
  repeat rewrite ?code_byte, ?code_imm32, ?code_imm8, ?code_ret.

(** ** What the emitted bytes mean *)

(** The emitter of a two-operand ALU operation. *)
Definition alu_emitter (op : alu_op) : option (Z -> Z -> emitter unit) :=
  match op with
  | ADD => Some add_r64_r64 | SUB => Some sub_r64_r64 | AND => Some and_r64_r64
  | OR => Some or_r64_r64 | XOR => Some xor_r64_r64 | _ => None
  end.

(** The register forms decode with [src] as the r/m operand, the one written. *)
Lemma decode_alu_r64_r64 op f d s rest :
  alu_emitter op = Some f -> 0 <= d < 16 -> 0 <= s < 16 ->
  decode (code (f d s) ++ rest) = Some (AluRmR op W64 (Reg s) d, rest).
Proof.
  intros Hop Hd Hs.
  destruct op; simpl in Hop; try discriminate; injection Hop as <-;
    each_of_16 Hd; each_of_16 Hs; reflexivity.
Qed.
Lemma decode_mov_r64_r64 d s rest :
  0 <= d < 16 -> 0 <= s < 16 ->
  decode (code (mov_r64_r64 d s) ++ rest) = Some (MovRmR W64 (Reg s) d, rest).
Proof. intros Hd Hs. each_of_16 Hd; each_of_16 Hs; reflexivity. Qed.

(** ** Immediates and moves *)

Lemma code_rex w r x b :
  code (rex w r x b) = [u8 (0x40 ||| (if c_true w then 0x08 else 0)
    ||| ((r &&& 1) <<< 2) ||| ((x &&& 1) <<< 1) ||| (b &&& 1))].
Proof. done. Qed.
Lemma code_modrm md reg rm :
  code (modrm md reg rm) = [u8 ((md <<< 6) ||| ((reg &&& 7) <<< 3) ||| (rm &&& 7))].
Proof. done. Qed.

Lemma code_mov_r64_imm reg imm :
  code (mov_r64_imm reg imm)
  = code (rex 1 0 0 (reg >>> 3)) ++ [u8 (0xb8 ||| (reg &&& 7))] ++ le_bytes 8 imm.
Proof.
  unfold mov_r64_imm. emit_norm. rewrite !u8_land_255.
  lazy beta iota delta [le_bytes app]. by rewrite !Z.shiftr_shiftr by lia.
Qed.

Lemma take_le8 v rest : take_le 8 (le_bytes 8 v ++ rest) = Some (u64 v, rest).
Proof. apply take_le_bytes. Qed.
Lemma take_le4 v rest : take_le 4 (le_bytes 4 v ++ rest) = Some (u32 v, rest).
Proof. apply take_le_bytes. Qed.
Lemma take_le1 v rest : take_le 1 (u8 v :: rest) = Some (u8 v, rest).
Proof. apply (take_le_bytes 1). Qed.

(** Decoding of a byte string whose opcode bytes are concrete; immediates stay
    symbolic. *)
Ltac concrete_bytes :=
  repeat match goal with
  | |- context [u8 ?t] =>
    let v := eval vm_compute in (u8 t) in
    lazymatch v with Zpos _ => change (u8 t) with v | Z0 => change (u8 t) with v end
  end.
Ltac decode_eval := concrete_bytes; lazy -[app le_bytes take_le take_s32 take_s8 s8 s32 u8 u32 u64].
Ltac decode_fields :=
  rewrite ?take_le8, ?take_le4, ?take_le1, ?take_s32_bytes, ?take_s8_byte, ?u32_s32, ?u8_s8; try reflexivity.

(** [mov_r64_imm] writes one [mov r64, imm64] of exactly the register and
    the 64-bit value it is given, whatever follows it in the buffer. *)
Theorem mov_r64_imm_decodes reg imm rest :
  0 <= reg < 16 ->
  decode (code (mov_r64_imm reg imm) ++ rest) = Some (MovRI W64 reg (u64 imm), rest).
Proof.
  intros Hr. rewrite code_mov_r64_imm, code_rex, <- !app_assoc. cbn [app].
  each_of_16 Hr; decode_eval; decode_fields.
Qed.
Lemma mov_r64_imm_decodes_witness :
  0 <= 10 < 16 /\
  decode (code (mov_r64_imm 10 (-1)) ++ [0xc3]) = Some (MovRI W64 10 (2^64 - 1), [0xc3]).
Proof. split; [lia | apply (mov_r64_imm_decodes 10 (-1) [0xc3]); lia]. Defined.

(** [mov_r32_imm] is decoded as a 32-bit move: the upper half is cleared. *)
Lemma mov_r32_imm_decodes reg imm rest :
  0 <= reg < 16 ->
  decode (code (mov_r32_imm reg imm) ++ rest) = Some (MovRI W32 reg (u32 imm), rest).
Proof.
  intros Hr. unfold mov_r32_imm, rex_rm. emit_norm. rewrite code_rex. rewrite <- !app_assoc. cbn [app].
  each_of_16 Hr; decode_eval; decode_fields.
Qed.

(** The register-register move and the two-operand arithmetic emitters take
    [(dest, src)] but put [dest] in the ModR/M reg field under the r/m,r opcodes:
    the processor writes register [src], and [dest] keeps its value. *)
Theorem r64_r64_writes_src op f d s st :
  alu_emitter op = Some f -> 0 <= d < 16 -> 0 <= s < 16 ->
  run (code (f d s)) st = (v ← alu_sem op (regs st s) (regs st d); set_reg st W64 s v) /\
  run (code (mov_r64_r64 d s)) st = set_reg st W64 s (regs st d).
Proof.
  intros Hop Hd Hs.
  pose proof (decode_alu_r64_r64 op f d s [] Hop Hd Hs) as H1.
  pose proof (decode_mov_r64_r64 d s [] Hd Hs) as H2. rewrite app_nil_r in H1, H2. split.
  - rewrite (run_one _ _ st H1) by (intros E; rewrite E in H1; discriminate). done.
  - rewrite (run_one _ _ st H2) by done. done.
Qed.
Lemma r64_r64_writes_src_witness :
  let st := {| regs := fun r => 100 + r; memory := fun _ => 0 |} in
  (run (code (sub_r64_r64 2 9)) st
     = (v ← alu_sem SUB (regs st 9) (regs st 2); set_reg st W64 9 v)) /\
  run (code (mov_r64_r64 2 9)) st = set_reg st W64 9 (regs st 2).
Proof. intros st. apply (r64_r64_writes_src SUB); [reflexivity | lia | lia]. Defined.

(** A register pushed by [push_r64] is the register the processor pushes, and
    likewise for [pop_r64], extended registers included. *)
Theorem push_pop_decode reg rest :
  0 <= reg < 16 ->
  decode (code (push_r64 reg) ++ rest) = Some (PushR reg, rest) /\
  decode (code (pop_r64 reg) ++ rest) = Some (PopR reg, rest).
Proof. intros Hr. each_of_16 Hr; split; reflexivity. Qed.
Lemma push_pop_decode_witness :
  0 <= 13 < 16 /\ decode (code (push_r64 13) ++ []) = Some (PushR 13, []) /\
  decode (code (pop_r64 13) ++ []) = Some (PopR 13, []).
Proof. split; [lia | apply (push_pop_decode 13 []); lia]. Defined.

(** The emitters whose REX prefix is [rex(buf, 1, 0, dest >> 3, src >> 3)], with
    the instruction each stands for. *)
Definition reg_x_family : list ((Z -> Z -> emitter unit) * (Z -> operand -> insn)) :=
  [ (movzx_r64_r8, Movzx W64 W8); (emit_movzx 8, Movzx W64 W8); (emit_movzx 16, Movzx W64 W16);
    (emit_movsx 8, Movsx W64 W8); (emit_movsx 16, Movsx W64 W16);
    (emit_movsx 32, Movsx W64 W32); (emit_movsxd, Movsx W64 W32);
    (bsf_r64_r64, Scan BSF W64); (bsr_r64_r64, Scan BSR W64); (lzcnt_r64_r64, Scan LZCNT W64);
    (tzcnt_r64_r64, Scan TZCNT W64); (popcnt_r64_r64, Scan POPCNT W64);
    (emit_cmovcc 4, Cmov 4 W64); (emit_cmovcc 5, Cmov 5 W64) ].

(** These emitters put [dest >> 3] in REX.X, which does not extend the reg
    field: for every pair of registers the instruction written has destination
    [dest mod 8], the intended one exactly when [dest < 8]. *)
Theorem reg_x_family_dest f g d s :
  In (f, g) reg_x_family -> 0 <= d < 16 -> 0 <= s < 16 ->
  decode (code (f d s)) = Some (g (d mod 8) (Reg s), []).
Proof.
  intros Hin Hd Hs. unfold reg_x_family in Hin. simpl in Hin.
  destruct_or! Hin; try done; injection Hin as <- <-;
    each_of_16 Hd; each_of_16 Hs; vm_compute; reflexivity.
Qed.
Lemma reg_x_family_dest_witness :
  In (lzcnt_r64_r64, Scan LZCNT W64) reg_x_family /\
  decode (code (lzcnt_r64_r64 12 9)) = Some (Scan LZCNT W64 (12 mod 8) (Reg 9), []).
Proof.
  split; [simpl; tauto |].
  apply (reg_x_family_dest lzcnt_r64_r64 (Scan LZCNT W64) 12 9); [simpl; tauto | lia | lia].
Defined.

(** [add_r64_imm8], [ror_r64_imm8], [emit_bswap], [emit_mul_r64],
    [emit_imul_r64] and [emit_test_r64_imm32] hand [reg >> 3] to [rex_rm], which
    shifts it again and never sets W: what they write is the 32-bit operation on
    register [reg mod 8]. *)
Theorem rex_rm_family_32bit reg imm rest :
  0 <= reg < 16 ->
  decode (code (add_r64_imm8 reg imm) ++ rest)
    = Some (AluRmI ADD W32 (Reg (reg mod 8)) (s8 imm), rest) /\
  decode (code (emit_test_r64_imm32 reg imm) ++ rest)
    = Some (TestRmI W32 (Reg (reg mod 8)) (s32 imm), rest) /\
  decode (code (ror_r64_imm8 reg imm) ++ rest)
    = Some (ShiftI ROR W32 (Reg (reg mod 8)) (u8 imm), rest) /\
  decode (code (emit_bswap reg) ++ rest) = Some (Bswap W32 (reg mod 8), rest) /\
  decode (code (emit_mul_r64 reg) ++ rest) = Some (Unary MUL W32 (Reg (reg mod 8)), rest) /\
  decode (code (emit_imul_r64 reg) ++ rest) = Some (Unary IMUL W32 (Reg (reg mod 8)), rest).
Proof.
  intros Hr. unfold add_r64_imm8, emit_test_r64_imm32, ror_r64_imm8, rex_rm. emit_norm. rewrite !code_rex, !code_modrm.
  rewrite <- !app_assoc. cbn [app].
  each_of_16 Hr; (split; [decode_eval; decode_fields|]);
    (split; [decode_eval; decode_fields|]); (split; [decode_eval; decode_fields|]);
    repeat split; reflexivity.
Qed.
Lemma rex_rm_family_32bit_witness :
  0 <= 9 < 16 /\
  decode (code (add_r64_imm8 9 (-8)) ++ []) = Some (AluRmI ADD W32 (Reg 1) (-8), []).
Proof. split; [lia | apply (rex_rm_family_32bit 9 (-8) []); lia]. Defined.

(** Which register the emitters write.  The moves and the two-operand arithmetic
    take [(dest, src)] but put [dest] in the ModR/M reg field under the r/m,r opcodes: the
    processor writes [src], and [dest] keeps its value.  The extending moves, bit scans
    and conditional moves write [dest mod 8], because [dest >> 3] goes to REX.X.  The
    emitters that hand [reg >> 3] to [rex_rm] write the 32-bit operation on [reg mod 8]. *)
Theorem emitters_destination op f g h d s imm st :
  alu_emitter op = Some f -> In (g, h) reg_x_family -> 0 <= d < 16 -> 0 <= s < 16 ->
  (run (code (f d s)) st = (v ← alu_sem op (regs st s) (regs st d); set_reg st W64 s v) /\
   run (code (mov_r64_r64 d s)) st = set_reg st W64 s (regs st d)) /\
  decode (code (g d s)) = Some (h (d mod 8) (Reg s), []) /\
  decode (code (add_r64_imm8 d imm)) = Some (AluRmI ADD W32 (Reg (d mod 8)) (s8 imm), []) /\
  decode (code (emit_test_r64_imm32 d imm)) = Some (TestRmI W32 (Reg (d mod 8)) (s32 imm), []) /\
  decode (code (ror_r64_imm8 d imm)) = Some (ShiftI ROR W32 (Reg (d mod 8)) (u8 imm), []) /\
  decode (code (emit_bswap d)) = Some (Bswap W32 (d mod 8), []) /\
  decode (code (emit_mul_r64 d)) = Some (Unary MUL W32 (Reg (d mod 8)), []) /\
  decode (code (emit_imul_r64 d)) = Some (Unary IMUL W32 (Reg (d mod 8)), []).
Proof.
  intros Hop Hin Hd Hs. split; [by apply r64_r64_writes_src|]. split; [by apply reg_x_family_dest|].
  pose proof (rex_rm_family_32bit d imm [] Hd) as H. by rewrite !app_nil_r in H.
Qed.
Lemma emitters_destination_witness :
  let st := {| regs := fun r => 100 + r; memory := fun _ => 0 |} in
  run (code (mov_r64_r64 2 9)) st = set_reg st W64 9 (regs st 2) /\
  decode (code (lzcnt_r64_r64 12 9)) = Some (Scan LZCNT W64 (12 mod 8) (Reg 9), []).
Proof.
  intros st.
  destruct (emitters_destination SUB sub_r64_r64 lzcnt_r64_r64 (Scan LZCNT W64) 2 9 0 st) as ((_ & H1) & _);
    [reflexivity | simpl; tauto | lia | lia |].
  destruct (emitters_destination SUB sub_r64_r64 lzcnt_r64_r64 (Scan LZCNT W64) 12 9 0 st) as (_ & H2 & _);
    [reflexivity | simpl; tauto | lia | lia |].
  exact (conj H1 H2).
Defined.

(** ** Memory operands *)

Lemma s8_small v : -128 <= v < 128 -> s8 v = v.
Proof. intros H. unfold s8. rewrite Z.mod_small; lia. Qed.

Lemma code_modrm_disp reg base disp :
  code (emit_modrm_disp reg base disp)
  = let md := if (disp =? 0) && negb (base =? X86_REG_RBP) then 0
              else if (-128 <=? disp) && (disp <=? 127) then 1 else 2 in
    u8 ((md <<< 6) ||| ((reg &&& 7) <<< 3) ||| ((base &&& 7) &&& 7)) ::
    (if md =? 1 then [u8 (s8 disp)] else if md =? 2 then le_bytes 4 disp else []).
Proof.
  unfold emit_modrm_disp. cbv zeta. rewrite code_bind_const by solve_appends.
  destruct ((disp =? 0) && negb (base =? X86_REG_RBP)); [done|].
  destruct ((-128 <=? disp) && (disp <=? 127)); rewrite code_modrm; cbn [app].
  - simpl (1 =? 1). cbv iota. by rewrite code_imm8.
  - simpl (2 =? 1). simpl (2 =? 2). cbv iota. by rewrite code_imm32.
Qed.

(** The REX.B bit a caller of [emit_modrm_disp] sets with [rex_r(buf, _, base)]. *)
Definition rex_b_of (base : Z) : prefixes :=
  {| p_mand := 0; p_lock := false; p_seg := 0; p_rex := true; p_w := true;
     p_r := 0; p_x := 0; p_b := 8 * (base / 8) |}.

Lemma decode_modrm_disp reg base disp rest :
  0 <= reg < 8 -> 0 <= base < 16 -> - 2^31 <= disp < 2^31 ->
  base mod 8 <> 4 -> (base <> 13 \/ disp <> 0) ->
  decode_modrm (rex_b_of base) (code (emit_modrm_disp reg base disp) ++ rest)
  = Some (reg, Mem (Some base) None disp, rest).
Proof.
  intros Hr Hb Hd Hsib H13. rewrite code_modrm_disp. cbv zeta.
  destruct (decide (disp = 0)) as [->|Hd0].
  - change (0 =? 0) with true. cbn [andb].
    each_of_8 Hr; each_of_16 Hb; try (exfalso; apply Hsib; reflexivity);
      try (destruct H13; done); reflexivity.
  - rewrite (proj2 (Z.eqb_neq disp 0)) by done. cbn [andb].
    destruct ((-128 <=? disp) && (disp <=? 127)) eqn:E8; cbn [Z.eqb Pos.eqb].
    + apply andb_true_iff in E8 as [E1%Z.leb_le E2%Z.leb_le].
      assert (Hs : s8 (s8 disp) = disp) by (rewrite !s8_small; rewrite ?s8_small; lia).
      cbn [app].
      each_of_8 Hr; each_of_16 Hb; try (exfalso; apply Hsib; reflexivity);
        decode_eval; rewrite take_s8_byte, Hs; reflexivity.
    + rewrite <- app_comm_cons. 
      each_of_8 Hr; each_of_16 Hb; try (exfalso; apply Hsib; reflexivity);
        decode_eval; rewrite take_s32_bytes, s32_small by lia; reflexivity.
Qed.

(** [emit_modrm_disp] addresses [[base + disp]] for every 32-bit displacement,
    with no displacement byte, one or four as the value needs, for every base
    except RSP and R12, which need a SIB byte, and R13 without displacement. *)
Theorem emit_modrm_disp_addresses reg base disp rest :
  0 <= reg < 8 -> 0 <= base < 16 -> - 2^31 <= disp < 2^31 ->
  base mod 8 <> 4 -> (base <> 13 \/ disp <> 0) ->
  decode_modrm (rex_b_of base) (code (emit_modrm_disp reg base disp) ++ rest)
  = Some (reg, Mem (Some base) None disp, rest).
Proof. apply decode_modrm_disp. Qed.
Lemma emit_modrm_disp_addresses_witness :
  decode_modrm (rex_b_of 13) (code (emit_modrm_disp 2 13 4096) ++ [])
  = Some (2, Mem (Some 13) None 4096, []).
Proof.
  apply (emit_modrm_disp_addresses 2 13 4096 []);
    [lia | lia | lia | discriminate | right; discriminate].
Defined.

(** The two bases left out: R12 is read as a SIB byte, R13 as RIP-relative. *)
Example emit_modrm_disp_r13 :
  decode_modrm (rex_b_of 13) (code (emit_modrm_disp 2 13 0) ++ [1; 0; 0; 0])
  = Some (2, RipRel 1, []).
Proof. reflexivity. Qed.

(** ** Branches and patching *)

Lemma emit_jmp_eq v b : emit_jmp v b = (length b, b ++ 0xe9 :: le_bytes 4 (s32 (v - 5))).
Proof.
  rewrite <- code_imm32. unfold emit_jmp, mbind, emitter_bind, here. cbn iota beta zeta.
  unfold emit_byte at 1. pose proof (appends_imm32 (s32 (v - 5)) (b ++ [u8 0xe9])) as E.
  destruct (emit_imm32 (s32 (v - 5)) (b ++ [u8 0xe9])). simpl in E. subst.
  unfold mret, emitter_ret. by rewrite <- app_assoc.
Qed.
Lemma emit_call_eq v b : emit_call v b = (length b, b ++ 0xe8 :: le_bytes 4 (s32 (v - 5))).
Proof.
  rewrite <- code_imm32. unfold emit_call, mbind, emitter_bind, here. cbn iota beta zeta.
  unfold emit_byte at 1. pose proof (appends_imm32 (s32 (v - 5)) (b ++ [u8 0xe8])) as E.
  destruct (emit_imm32 (s32 (v - 5)) (b ++ [u8 0xe8])). simpl in E. subst.
  unfold mret, emitter_ret. by rewrite <- app_assoc.
Qed.
Lemma emit_jcc_eq c v b :
  emit_jcc c v b = ((length b + 2)%nat, b ++ 0x0f :: u8 c :: le_bytes 4 (s32 (v - 6))).
Proof.
  rewrite <- code_imm32. unfold emit_jcc, mbind, emitter_bind, here. cbn iota beta zeta.
  unfold emit_byte. pose proof (appends_imm32 (s32 (v - 6)) ((b ++ [u8 0x0f]) ++ [u8 c])) as E.
  destruct (emit_imm32 (s32 (v - 6)) ((b ++ [u8 0x0f]) ++ [u8 c])). simpl in E. subst.
  unfold mret, emitter_ret. rewrite !length_app, <- !app_assoc. simpl. f_equal. lia.
Qed.

#[export] Instance appends_jmp v : Appends (emit_jmp v).
Proof. intros b. unfold code. by rewrite !emit_jmp_eq. Qed.
#[export] Instance appends_call v : Appends (emit_call v).
Proof. intros b. unfold code. by rewrite !emit_call_eq. Qed.
#[export] Instance appends_jcc c v : Appends (emit_jcc c v).
Proof. intros b. unfold code. by rewrite !emit_jcc_eq. Qed.

Lemma decode_jmp_rel v rest :
  decode (0xe9 :: le_bytes 4 v ++ rest) = Some (JmpRel (s32 v), rest).
Proof. decode_eval. by rewrite take_s32_bytes. Qed.
Lemma decode_call_rel v rest :
  decode (0xe8 :: le_bytes 4 v ++ rest) = Some (CallRel (s32 v), rest).
Proof. decode_eval. by rewrite take_s32_bytes. Qed.
Lemma decode_jcc_rel cc v rest : 0 <= cc < 16 ->
  decode (0x0f :: u8 (0x80 + cc) :: le_bytes 4 v ++ rest) = Some (Jcc cc (s32 v), rest).
Proof. intros H. each_of_16 H; decode_eval; by rewrite take_s32_bytes. Qed.

(** The instruction at position [at] of a buffer. *)
Definition decode_at (pos : nat) (buf : list Z) : option insn :=
  '(i, _) ← decode (drop pos buf); Some i.

(** [emit_jmp] and [emit_call] append a branch at the cursor [P] whose target
    is [P + offset] (the displacement counts from the end of the instruction), and
    return [P]; [emit_jcc], given the second opcode byte of a condition, does the
    same with a six-byte branch and returns where its displacement lies. *)
Theorem emit_branch_targets b offset cc :
  - 2^31 + 6 <= offset < 2^31 -> 0 <= cc < 16 ->
  let P := length b in
  let '(p1, b1) := emit_jmp offset b in
  let '(p2, b2) := emit_call offset b in
  let '(p3, b3) := emit_jcc (0x80 + cc) offset b in
  p1 = P /\ decode_at P b1 = Some (JmpRel (offset - 5)) /\ length b1 = (P + 5)%nat /\
  p2 = P /\ decode_at P b2 = Some (CallRel (offset - 5)) /\ length b2 = (P + 5)%nat /\
  p3 = (P + 2)%nat /\ decode_at P b3 = Some (Jcc cc (offset - 6)) /\ length b3 = (P + 6)%nat.
Proof.
  intros Ho Hcc. rewrite emit_jmp_eq, emit_call_eq, emit_jcc_eq. cbn zeta.
  unfold decode_at. rewrite !drop_app_length, !length_app. cbn [length].
  rewrite !length_le_bytes.
  rewrite <- (app_nil_r (le_bytes 4 (s32 (offset - 5)))), <- (app_nil_r (le_bytes 4 (s32 (offset - 6)))).
  rewrite decode_jmp_rel, decode_call_rel, decode_jcc_rel by done.
  rewrite !(s32_small (s32 _)) by apply s32_range. rewrite !s32_small by lia.
  repeat split; lia.
Qed.
Lemma emit_branch_targets_witness :
  (emit_jmp 100 [0x90]).1 = 1%nat /\
  decode_at 1 (emit_jmp 100 [0x90]).2 = Some (JmpRel 95).
Proof.
  pose proof (emit_branch_targets [0x90] 100 4 ltac:(lia) ltac:(lia)) as H.
  vm_compute in H. vm_compute. tauto.
Defined.

(** Patching the four placeholder bytes of a branch at [p] makes the
    displacement read there lead exactly to [target], changes nothing else in the
    buffer, and does nothing for a null patch location. *)
Theorem patch_rel32_hits_target pre hole post target :
  length hole = 4%nat ->
  - 2^31 <= Z.of_nat target - Z.of_nat (length pre) - 4 < 2^31 ->
  let buf := pre ++ hole ++ post in
  let buf' := (patch_rel32 (Some (length pre)) target buf).2 in
  (exists d, take_s32 (drop (length pre) buf') = Some (d, post) /\
             Z.of_nat (length pre) + 4 + d = Z.of_nat target) /\
  take (length pre) buf' = pre /\ length buf' = length buf /\
  patch_rel32 None target buf = (tt, buf).
Proof.
  intros Hh Ht buf buf'. set (off := s32 (Z.of_nat target - Z.of_nat (length pre) - 4)).
  assert (Hb : buf' = pre ++ le_bytes 4 off ++ post).
  { unfold buf', buf, patch_rel32. fold off.
    replace (patch_bytes off) with (le_bytes 4 off).
    - apply write_at_app. by rewrite Hh.
    - unfold patch_bytes. rewrite !u8_land_255. lazy beta iota delta [le_bytes].
      by rewrite !Z.shiftr_shiftr by lia. }
  assert (Hoff : off = Z.of_nat target - Z.of_nat (length pre) - 4) by (apply s32_small; lia).
  rewrite Hb. split_and!.
  - exists off. rewrite drop_app_length, take_s32_bytes, s32_small by lia. split; [done|lia].
  - by rewrite take_app_length.
  - unfold buf. rewrite !length_app, length_le_bytes, Hh. done.
  - done.
Qed.
Lemma patch_rel32_hits_target_witness :
  (patch_rel32 (Some 2%nat) 10 [0x0f; 0x84; 0; 0; 0; 0; 0x90; 0x90; 0x90; 0x90]).2
  = [0x0f; 0x84; 4; 0; 0; 0; 0x90; 0x90; 0x90; 0x90].
Proof.
  pose proof (patch_rel32_hits_target [0x0f; 0x84] [0; 0; 0; 0] [0x90; 0x90; 0x90; 0x90] 10
    eq_refl ltac:(simpl; lia)) as H.
  destruct H as (_ & _ & _ & H). vm_compute in H. vm_compute. reflexivity.
Defined.
