(* ===== verification/Regs.v ===== *)
(** * Register mapping and spilling: [modules/arm2x86_regs.c]

    The ARM-to-x86 register maps, the three spill slots of the ARM64 map, and the
    code that loads and stores a spilled register.  The two spill functions write
    through [( *buf )[i]] and then advance the cursor; here they append the same
    bytes. *)
From S2P Require Import Prelude X86 Emit.
From Stdlib Require Import ZArith Lia Bool.
From stdpp Require Import base numbers list.
Open Scope Z_scope.
Open Scope c_scope.

Definition REG_MAX := 32.
Definition ARM32_REG_MAX := 16.

Definition g_reg_map_arm64 : list Z :=
  [ X86_REG_RAX; X86_REG_RDI; X86_REG_RSI; X86_REG_RDX; X86_REG_RCX; X86_REG_R8;
    X86_REG_R9; X86_REG_R10; X86_REG_R11; X86_REG_R12; X86_REG_R13; X86_REG_R14;
    X86_REG_R15; X86_REG_RBX; X86_REG_RBP; X86_REG_RSI; X86_REG_R10; X86_REG_R11;
    X86_REG_RAX; X86_REG_RBX; X86_REG_R12; X86_REG_R13; X86_REG_R14; X86_REG_R15;
    X86_REG_RBP; X86_REG_RDI; X86_REG_RSI; X86_REG_R8; X86_REG_R9; X86_REG_RBP;
    X86_REG_R14; X86_REG_RSP ].

Definition SPILL_X15 := 0.
Definition SPILL_X18 := 8.
Definition SPILL_X29 := 16.
Definition SPILL_AREA_SIZE := 24.

Definition arm2x86_get_spill_offset (arm64_reg : Z) : Z :=
  match arm64_reg with
  | 15 => SPILL_X15
  | 18 => SPILL_X18
  | 29 => SPILL_X29
  | _ => -1
  end.

Definition arm2x86_needs_spill (arm64_reg : Z) : bool :=
  0 <=? arm2x86_get_spill_offset arm64_reg.

Definition g_reg_map_arm32 : list Z :=
  [ X86_REG_RAX; X86_REG_RDI; X86_REG_RSI; X86_REG_RDX; X86_REG_RCX; X86_REG_R8;
    X86_REG_R9; X86_REG_R10; X86_REG_R11; X86_REG_R12; X86_REG_R13; X86_REG_R14;
    X86_REG_R15; X86_REG_RSP; X86_REG_RBP; X86_REG_RBX ].

Definition arm2x86_map_register (arm64_reg : Z) : Z :=
  if REG_MAX <=? arm64_reg then X86_REG_RAX
  else nth (Z.to_nat arm64_reg) g_reg_map_arm64 0.

Definition arm2x86_map_register_arm32 (arm32_reg : Z) : Z :=
  if ARM32_REG_MAX <=? arm32_reg then X86_REG_RAX
  else nth (Z.to_nat arm32_reg) g_reg_map_arm32 0.

Definition arm2x86_spill_area_size : Z := SPILL_AREA_SIZE.

Definition arm2x86_load_spilled (arm64_reg x86_dest : Z) : emitter unit :=
  let offset := arm2x86_get_spill_offset arm64_reg in
  if offset <? 0 then mret tt
  else if arm64_reg =? 18 then
    emit_byte 0x64 ;; emit_byte 0x48 ;; emit_byte 0x8b ;; emit_byte 0x05 ;;
    emit_byte 0x00 ;; emit_byte 0x00 ;; emit_byte 0x00 ;; emit_byte 0x00
  else
    (if 8 <=? x86_dest then emit_byte 0x4c else emit_byte 0x48) ;;
    emit_byte 0x8b ;;
    emit_byte (0x44 ||| ((x86_dest &&& 7) <<< 3)) ;;
    emit_byte 0x24 ;;
    emit_byte offset.

Definition arm2x86_store_spilled (arm64_reg x86_src : Z) : emitter unit :=
  let offset := arm2x86_get_spill_offset arm64_reg in
  if offset <? 0 then mret tt
  else if arm64_reg =? 18 then
    emit_byte 0x64 ;; emit_byte 0x48 ;; emit_byte 0x89 ;; emit_byte 0x05 ;;
    emit_byte 0x00 ;; emit_byte 0x00 ;; emit_byte 0x00 ;; emit_byte 0x00
  else
    (if 8 <=? x86_src then emit_byte 0x4c else emit_byte 0x48) ;;
    emit_byte 0x89 ;;
    emit_byte (0x44 ||| ((x86_src &&& 7) <<< 3)) ;;
    emit_byte 0x24 ;;
    emit_byte offset.

(** ** The register maps *)

(** The ARM32 map is a permutation of the sixteen x86 registers: no two ARM
    registers share an x86 register and every x86 register is used; a register
    number out of range is read as R0. *)
Theorem map_register_arm32_permutation :
  (forall r, 0 <= r < 16 -> 0 <= arm2x86_map_register_arm32 r < 16) /\
  (forall r r', 0 <= r < 16 -> 0 <= r' < 16 ->
     arm2x86_map_register_arm32 r = arm2x86_map_register_arm32 r' -> r = r') /\
  (forall x, 0 <= x < 16 -> exists r, 0 <= r < 16 /\ arm2x86_map_register_arm32 r = x) /\
  (forall r, 16 <= r -> arm2x86_map_register_arm32 r = arm2x86_map_register_arm32 0).
Proof.
  split_and!.
  - intros r Hr. each_of_16 Hr; vm_compute; split; congruence.
  - intros r r' Hr Hr'. each_of_16 Hr; each_of_16 Hr'; vm_compute; congruence.
  - intros x Hx.
    exists (nth (Z.to_nat x) [0; 4; 3; 15; 13; 14; 2; 1; 5; 6; 7; 8; 9; 10; 11; 12] 0).
    each_of_16 Hx; vm_compute; repeat split; congruence.
  - intros r Hr. unfold arm2x86_map_register_arm32, ARM32_REG_MAX.
    by rewrite (proj2 (Z.leb_le 16 r)) by lia.
Qed.

Lemma map_arm32_range r : 0 <= r -> 0 <= arm2x86_map_register_arm32 r < 16.
Proof.
  intros H. destruct (decide (r < 16)).
  - assert (Hr : 0 <= r < 16) by lia. each_of_16 Hr; vm_compute; split; congruence.
  - unfold arm2x86_map_register_arm32, ARM32_REG_MAX.
    rewrite (proj2 (Z.leb_le 16 r)) by lia. vm_compute. split; congruence.
Qed.

Definition reg_range := seqZ 0 32.
Lemma reg_cases (P : Z -> bool) :
  forallb P reg_range = true -> forall r, 0 <= r < 32 -> P r = true.
Proof. intros H r Hr. apply (all_below_spec 32 P); [exact H | simpl; lia]. Qed.

(** The ARM64 map gives X0-X14 and SP sixteen different x86 registers, and
    each of X15-X30 the register of one of X0-X14: sixteen of the thirty-two
    registers share, and only three of those sixteen (X15, X18, X29) have a spill
    slot. *)
Theorem map_register_arm64_sharing :
  (forall r r', (0 <= r < 15 \/ r = 31) -> (0 <= r' < 15 \/ r' = 31) ->
     arm2x86_map_register r = arm2x86_map_register r' -> r = r') /\
  (forall r, 15 <= r < 31 ->
     exists r', 0 <= r' < 15 /\ arm2x86_map_register r' = arm2x86_map_register r) /\
  (forall r, 0 <= r < 32 ->
     arm2x86_needs_spill r = true <-> r = 15 \/ r = 18 \/ r = 29).
Proof.
  split_and!.
  - assert (Hc : forall r, (0 <= r < 15 \/ r = 31) -> exists k, 0 <= k < 16 /\
      r = nth (Z.to_nat k) [0; 1; 2; 3; 4; 5; 6; 7; 8; 9; 10; 11; 12; 13; 14; 31] 0).
    { intros r [H | ->]; [exists r | exists 15]; (split; [lia|]); [|done].
      assert (H' : 0 <= r < 16) by lia. each_of_16 H'; try done. lia. }
    intros r r' (k & Hk & ->)%Hc (k' & Hk' & ->)%Hc.
    each_of_16 Hk; each_of_16 Hk'; vm_compute; congruence.
  - intros r Hr.
    exists (nth (Z.to_nat (r - 15)) [2; 7; 8; 0; 13; 9; 10; 11; 12; 14; 1; 2; 5; 6; 14; 11] 0).
    assert (Hk : 0 <= r - 15 < 16) by lia. remember (r - 15) as k.
    replace r with (k + 15) by lia. clear - Hk. each_of_16 Hk; vm_compute; repeat split; congruence.
  - intros r Hr. split.
    + intros H.
      pose proof (reg_cases (fun r => implb (arm2x86_needs_spill r)
        ((r =? 15) || (r =? 18) || (r =? 29))) eq_refl r Hr) as Hall.
      cbv beta in Hall. rewrite H in Hall. cbn [implb] in Hall.
      rewrite !orb_true_iff, !Z.eqb_eq in Hall. tauto.
    + by intros [-> | [-> | ->]].
Qed.

(** ** Spilling *)

Lemma land_ff_shift v k : 0 <= k -> u8 (v >>> (8 * k)) = (v / 2^(8 * k)) mod 2^8.
Proof. intros. unfold u8. by rewrite Z.shiftr_div_pow2 by lia. Qed.

Lemma load64_store64 m a v : 0 <= v < 2^64 -> load64 (store64 m a v) a = v.
Proof.
  intros Hv. unfold load64, store64.
  assert (Ho : forall o, 0 <= o < 8 -> (u64 (a + o) - a) mod 2^64 = o).
  { intros o Ho. unfold u64. rewrite Zminus_mod_idemp_l.
    replace (a + o - a) with o by lia. apply Z.mod_small. lia. }
  cbn [map]. rewrite !Ho by lia.
  transitivity (le_combine (le_bytes 8 v)).
  - lazy beta iota delta [le_bytes]. by rewrite !Z.shiftr_shiftr by lia.
  - rewrite le_combine_bytes. apply Z.mod_small. lia.
Qed.

(** Accesses to other addresses, and to the low half. *)
Lemma store_offset a o x : 0 <= o < 8 -> 8 <= (x - a) mod 2^64 <= 2^64 - 8 -> 8 <= (u64 (x + o) - a) mod 2^64.
Proof.
  intros Ho Hx. unfold u64. rewrite Zminus_mod_idemp_l. replace (x + o - a) with ((x - a) + o) by lia.
  rewrite <- Zplus_mod_idemp_l. rewrite Z.mod_small by lia. lia.
Qed.

Lemma load64_store64_other m a v x : 8 <= (x - a) mod 2^64 <= 2^64 - 8 -> load64 (store64 m a v) x = load64 m x.
Proof.
  intros Hx. unfold load64. f_equal. apply map_ext_in. intros o Ho.
  assert (0 <= o < 8) by (cbn in Ho; lia). unfold store64. cbv zeta.
  pose proof (store_offset a o x ltac:(lia) Hx). by rewrite (proj2 (Z.ltb_ge _ 8)) by lia.
Qed.

Lemma load64_store32_other m a v x : 8 <= (x - a) mod 2^64 <= 2^64 - 8 -> load64 (store32 m a v) x = load64 m x.
Proof.
  intros Hx. unfold load64. f_equal. apply map_ext_in. intros o Ho.
  assert (0 <= o < 8) by (cbn in Ho; lia). unfold store32. cbv zeta.
  pose proof (store_offset a o x ltac:(lia) Hx). by rewrite (proj2 (Z.ltb_ge _ 4)) by lia.
Qed.

(** The upper half of a 64-bit word in memory. *)
Definition load_high (m : Z -> Z) (a : Z) : Z := le_combine (map (fun o => m (u64 (a + o))) [4; 5; 6; 7]).

Lemma load64_halves m a : load64 m a = load32 m a + 2^32 * load_high m a.
Proof. unfold load64, load32, load_high. cbn [map le_combine]. ring. Qed.

Lemma load64_store32 m a v : load64 (store32 m a v) a = u32 v + 2^32 * load_high m a.
Proof.
  rewrite load64_halves.
  assert (Ho : forall o, 0 <= o < 8 -> (u64 (a + o) - a) mod 2^64 = o).
  { intros o Ho. unfold u64. rewrite Zminus_mod_idemp_l.
    replace (a + o - a) with o by lia. apply Z.mod_small. lia. }
  f_equal.
  - unfold load32, store32. cbn [map]. rewrite !Ho by lia.
    transitivity (le_combine (le_bytes 4 v)); [|by rewrite le_combine_bytes].
    lazy beta iota delta [le_bytes]. by rewrite !Z.shiftr_shiftr by lia.
  - f_equal. unfold load_high, store32. f_equal. cbn [map]. by rewrite !Ho by lia.
Qed.

(** The slot of a spilled register other than X18, as an x86 operand. *)
Definition spill_slot (r : Z) : operand := Mem (Some X86_REG_RSP) None (arm2x86_get_spill_offset r).

(** For X15 and X29 the spill code stores the given x86 register to
    [[rsp + slot]] and loads it back into any register:
    storing and then loading moves the value, through its own slot of the area. *)
Theorem spill_round_trip r s d st :
  r = 15 \/ r = 29 -> 0 <= s < 16 -> 0 <= d < 16 -> 0 <= regs st s < 2^64 ->
  disassemble (code (arm2x86_store_spilled r s)) = Some [MovRmR W64 (spill_slot r) s] /\
  disassemble (code (arm2x86_load_spilled r d)) = Some [MovRRm W64 d (spill_slot r)] /\
  (exists st', run (code (arm2x86_store_spilled r s ;; arm2x86_load_spilled r d)) st = Some st' /\
     regs st' d = regs st s /\ (forall x, x <> d -> regs st' x = regs st x)) /\
  0 <= arm2x86_get_spill_offset r /\
  arm2x86_get_spill_offset r + 8 <= arm2x86_spill_area_size.
Proof.
  intros Hr Hs Hd Hv.
  assert (H1 : disassemble (code (arm2x86_store_spilled r s)) = Some [MovRmR W64 (spill_slot r) s])
    by (destruct Hr as [-> | ->]; each_of_16 Hs; reflexivity).
  assert (H2 : disassemble (code (arm2x86_load_spilled r d)) = Some [MovRRm W64 d (spill_slot r)])
    by (destruct Hr as [-> | ->]; each_of_16 Hd; reflexivity).
  assert (H3 : disassemble (code (arm2x86_store_spilled r s ;; arm2x86_load_spilled r d))
    = Some [MovRmR W64 (spill_slot r) s; MovRRm W64 d (spill_slot r)])
    by (destruct Hr as [-> | ->]; each_of_16 Hs; each_of_16 Hd; reflexivity).
  split_and!; [done | done | | destruct Hr as [-> | ->]; done | destruct Hr as [-> | ->]; done].
  unfold run. rewrite H3. simpl. eexists. split; [reflexivity|].
  split; simpl; unfold upd.
  - rewrite Z.eqb_refl.
    change (eff_addr {| regs := regs st; memory := _ |}) with (eff_addr st).
    rewrite load64_store64 by done. by apply Z.mod_small.
  - intros x Hx. by rewrite (proj2 (Z.eqb_neq x d)).
Qed.
Lemma spill_round_trip_witness :
  let st := {| regs := fun r => 1000 * r; memory := fun _ => 0 |} in
  disassemble (code (arm2x86_load_spilled 29 12)) = Some [MovRRm W64 12 (spill_slot 29)] /\
  exists st', run (code (arm2x86_store_spilled 29 9 ;; arm2x86_load_spilled 29 12)) st = Some st' /\
    regs st' 12 = 9000.
Proof.
  intros st.
  destruct (spill_round_trip 29 9 12 st) as (_ & H2 & (st' & H3 & H4 & _) & _);
    [right; reflexivity | lia | lia | simpl; lia |].
  split; [exact H2 | exists st'; split; [exact H3 | exact H4]].
Defined.

(** X18 is different: its spill code names RAX whatever register it is asked for,
    and addresses the FS segment relative to RIP with a zero displacement. *)
Example spill_x18_ignores_register d :
  code (arm2x86_load_spilled 18 d) = [0x64; 0x48; 0x8b; 0x05; 0; 0; 0; 0] /\
  disassemble (code (arm2x86_load_spilled 18 d)) = Some [MovRRm W64 X86_REG_RAX (RipRel 0)].
Proof. split; reflexivity. Qed.
