(* ===== verification/Decode64.v ===== *)
(** * The ARM64 instruction decoder: [modules/arm2x86_decode64.c]

    [arm2x86_decode] reads one little-endian 32-bit word and fills a
    [DecodedInstruction].  The C function is a cascade of tests with early returns;
    the blocks of the cascade are functions returning [Some] when they return and
    [None] when control falls through, tried in the order of the source.  Guest
    memory is a total function from addresses to bytes; a null pointer is [None]
    (or address 0 for the code pointer). *)
From S2P Require Import Prelude.
From Stdlib Require Import ZArith Lia Bool.
From stdpp Require Import base numbers list.
From coqutil Require Import Z.prove_Zeq_bitwise.
Open Scope Z_scope.
Open Scope c_scope.

(** ** Error codes, instruction types and encodings ([arm2x86.h]) *)

Definition ARM2X86_OK := 0.
Definition ARM2X86_ERR_INVALID_PARAM := -4.
Definition ARM2X86_ERR_MEMORY := -3.
Definition ARM2X86_ERR_CONVERT_FAIL := -2.
Definition ARM2X86_ERR_LOAD_FAIL := -1.

(** What a module or a context holds. *)
Inductive Arm2x86Mode := ARM2X86_MODE_ARM64 | ARM2X86_MODE_ARM32 | ARM2X86_MODE_THUMB | ARM2X86_MODE_AUTO.
#[export] Instance Arm2x86Mode_eq_dec : EqDecision Arm2x86Mode.
Proof. solve_decision. Defined.

Definition INSTR_UNKNOWN := 0.
Definition INSTR_BL := 1.
Definition INSTR_B := 4.
Definition INSTR_B_COND := 5.
Definition INSTR_LDR_LITERAL := 6.
Definition INSTR_CBZ := 7.
Definition INSTR_CBNZ := 8.
Definition INSTR_TBZ := 9.
Definition INSTR_TBNZ := 10.
Definition INSTR_RET := 11.
Definition INSTR_BR := 12.
Definition INSTR_BLR := 13.
Definition INSTR_DATAPROC := 14.
Definition INSTR_LDST := 15.
Definition INSTR_ADD := 17.
Definition INSTR_SUB := 18.
Definition INSTR_AND := 19.
Definition INSTR_ORR := 20.
Definition INSTR_LSL := 22.
Definition INSTR_LSR := 23.
Definition INSTR_ASR := 24.
Definition INSTR_CSEL := 27.
Definition INSTR_STP := 28.
Definition INSTR_LDP := 29.
Definition INSTR_STR := 30.
Definition INSTR_LDR := 31.
Definition INSTR_MOVZ := 38.
Definition INSTR_MOVK := 39.
Definition INSTR_MOVN := 40.
Definition INSTR_MUL := 46.
Definition INSTR_BIC := 48.
Definition INSTR_BRK := 56.
Definition INSTR_HLT := 57.
Definition INSTR_ERET := 58.
Definition INSTR_FMOV_REG := 60.
Definition INSTR_LDR_SIMD := 76.
Definition INSTR_STR_SIMD := 77.
Definition INSTR_DMB := 90.
Definition INSTR_DSB := 91.
Definition INSTR_ISB := 92.
Definition INSTR_MRS := 110.
Definition INSTR_MSR := 111.
Definition INSTR_SVC := 112.
Definition INSTR_HINT := 116.
Definition INSTR_ADC := 120.
Definition INSTR_SBC := 121.
Definition INSTR_SMULH := 124.
Definition INSTR_UMULH := 125.
Definition INSTR_MADD := 126.
Definition INSTR_SBFM := 134.
Definition INSTR_UBFM := 135.
Definition INSTR_EXTR := 139.
Definition INSTR_ORN := 140.
Definition INSTR_CCMN := 143.
Definition INSTR_CCMP := 144.
Definition INSTR_CSET := 148.
Definition INSTR_SDIV := 153.
Definition INSTR_UDIV := 154.
Definition INSTR_SXTB := 155.
Definition INSTR_SXTH := 156.
Definition INSTR_UXTB := 157.
Definition INSTR_UXTH := 158.
Definition INSTR_PRFM := 161.
Definition INSTR_NEON_ADD := 200.
Definition INSTR_NEON_SUB := 201.
Definition INSTR_NEON_MUL := 202.
Definition INSTR_NEON_AND := 204.
Definition INSTR_NEON_ORR := 205.
Definition INSTR_NEON_EOR := 206.
Definition INSTR_NEON_BSL := 207.
Definition INSTR_NEON_EXT := 208.
Definition INSTR_NEON_INS := 209.
Definition INSTR_NEON_SHL := 220.
Definition INSTR_NEON_FADD := 240.
Definition INSTR_NEON_FSUB := 241.
Definition INSTR_NEON_FMUL := 242.
Definition INSTR_NEON_FDIV := 243.
Definition INSTR_NEON_FMLA := 244.
Definition INSTR_NEON_FMLS := 245.
Definition INSTR_NEON_FMAX := 246.
Definition INSTR_NEON_FMIN := 247.
Definition INSTR_NEON_FCVT := 248.
Definition INSTR_NEON_FSQRT := 252.
Definition INSTR_NEON_FABS := 253.
Definition INSTR_NEON_FNEG := 254.
Definition INSTR_CAS := 268.
Definition INSTR_LDADD := 270.
Definition INSTR_CRC32 := 280.
Definition INSTR_CRC32C := 281.
Definition INSTR_AESD := 282.
Definition INSTR_AESE := 283.
Definition INSTR_AESMC := 284.
Definition INSTR_AESIMC := 285.
Definition INSTR_SHA256 := 287.

Definition ARM64_BL := 0x94000000.
Definition ARM64_B := 0x14000000.
Definition ARM64_BR := 0xd61f0000.
Definition ARM64_BLR := 0xd63f0000.
Definition ARM64_RET := 0xd65f03c0.
Definition ARM64_B_COND := 0x54000000.
Definition ARM64_DMB := 0xd50330bf.
Definition ARM64_DSB := 0xd503309f.
Definition ARM64_ISB := 0xd50330df.
Definition ARM64_SVC := 0xd4000001.
Definition ARM64_HVC := 0xd4000002.
Definition ARM64_SMC := 0xd4000003.

(** ** The decoded instruction *)

Record DecodedInstruction := {
  d_opcode : Z;
  d_pc : Z;
  d_instr_type : Z;
  d_imm : Z;
  d_rd : Z;
  d_rn : Z;
  d_rm : Z;
  d_rt : Z;
  d_rt2 : Z;
  d_is_64bit : Z;
  d_decoded : Z;
  d_cond : Z;
  d_shift_type : Z;
  d_shift_imm : Z;
  d_update_flags : Z;
  d_x86_code : list Z;
  d_x86_code_len : Z }.

Definition zero_instruction : DecodedInstruction :=
  {| d_opcode := 0; d_pc := 0; d_instr_type := 0; d_imm := 0; d_rd := 0; d_rn := 0; d_rm := 0;
     d_rt := 0; d_rt2 := 0; d_is_64bit := 0; d_decoded := 0; d_cond := 0; d_shift_type := 0;
     d_shift_imm := 0; d_update_flags := 0; d_x86_code := replicate 16 0; d_x86_code_len := 0 |}.

Definition set_opcode (v : Z) (d : DecodedInstruction) : DecodedInstruction :=
    {| d_opcode := v; d_pc := d_pc d; d_instr_type := d_instr_type d; d_imm := d_imm d; d_rd
     := d_rd d; d_rn := d_rn d; d_rm := d_rm d; d_rt := d_rt d; d_rt2 := d_rt2 d; d_is_64bit
     := d_is_64bit d; d_decoded := d_decoded d; d_cond := d_cond d; d_shift_type :=
     d_shift_type d; d_shift_imm := d_shift_imm d; d_update_flags := d_update_flags d;
     d_x86_code := d_x86_code d; d_x86_code_len := d_x86_code_len d |}.
Definition set_pc (v : Z) (d : DecodedInstruction) : DecodedInstruction :=
    {| d_opcode := d_opcode d; d_pc := v; d_instr_type := d_instr_type d; d_imm := d_imm d;
     d_rd := d_rd d; d_rn := d_rn d; d_rm := d_rm d; d_rt := d_rt d; d_rt2 := d_rt2 d;
     d_is_64bit := d_is_64bit d; d_decoded := d_decoded d; d_cond := d_cond d; d_shift_type
     := d_shift_type d; d_shift_imm := d_shift_imm d; d_update_flags := d_update_flags d;
     d_x86_code := d_x86_code d; d_x86_code_len := d_x86_code_len d |}.
Definition set_instr_type (v : Z) (d : DecodedInstruction) : DecodedInstruction :=
    {| d_opcode := d_opcode d; d_pc := d_pc d; d_instr_type := v; d_imm := d_imm d; d_rd :=
     d_rd d; d_rn := d_rn d; d_rm := d_rm d; d_rt := d_rt d; d_rt2 := d_rt2 d; d_is_64bit :=
     d_is_64bit d; d_decoded := d_decoded d; d_cond := d_cond d; d_shift_type :=
     d_shift_type d; d_shift_imm := d_shift_imm d; d_update_flags := d_update_flags d;
     d_x86_code := d_x86_code d; d_x86_code_len := d_x86_code_len d |}.
Definition set_imm (v : Z) (d : DecodedInstruction) : DecodedInstruction :=
    {| d_opcode := d_opcode d; d_pc := d_pc d; d_instr_type := d_instr_type d; d_imm := v;
     d_rd := d_rd d; d_rn := d_rn d; d_rm := d_rm d; d_rt := d_rt d; d_rt2 := d_rt2 d;
     d_is_64bit := d_is_64bit d; d_decoded := d_decoded d; d_cond := d_cond d; d_shift_type
     := d_shift_type d; d_shift_imm := d_shift_imm d; d_update_flags := d_update_flags d;
     d_x86_code := d_x86_code d; d_x86_code_len := d_x86_code_len d |}.
Definition set_rd (v : Z) (d : DecodedInstruction) : DecodedInstruction :=
    {| d_opcode := d_opcode d; d_pc := d_pc d; d_instr_type := d_instr_type d; d_imm :=
     d_imm d; d_rd := v; d_rn := d_rn d; d_rm := d_rm d; d_rt := d_rt d; d_rt2 := d_rt2 d;
     d_is_64bit := d_is_64bit d; d_decoded := d_decoded d; d_cond := d_cond d; d_shift_type
     := d_shift_type d; d_shift_imm := d_shift_imm d; d_update_flags := d_update_flags d;
     d_x86_code := d_x86_code d; d_x86_code_len := d_x86_code_len d |}.
Definition set_rn (v : Z) (d : DecodedInstruction) : DecodedInstruction :=
    {| d_opcode := d_opcode d; d_pc := d_pc d; d_instr_type := d_instr_type d; d_imm :=
     d_imm d; d_rd := d_rd d; d_rn := v; d_rm := d_rm d; d_rt := d_rt d; d_rt2 := d_rt2 d;
     d_is_64bit := d_is_64bit d; d_decoded := d_decoded d; d_cond := d_cond d; d_shift_type
     := d_shift_type d; d_shift_imm := d_shift_imm d; d_update_flags := d_update_flags d;
     d_x86_code := d_x86_code d; d_x86_code_len := d_x86_code_len d |}.
Definition set_rm (v : Z) (d : DecodedInstruction) : DecodedInstruction :=
    {| d_opcode := d_opcode d; d_pc := d_pc d; d_instr_type := d_instr_type d; d_imm :=
     d_imm d; d_rd := d_rd d; d_rn := d_rn d; d_rm := v; d_rt := d_rt d; d_rt2 := d_rt2 d;
     d_is_64bit := d_is_64bit d; d_decoded := d_decoded d; d_cond := d_cond d; d_shift_type
     := d_shift_type d; d_shift_imm := d_shift_imm d; d_update_flags := d_update_flags d;
     d_x86_code := d_x86_code d; d_x86_code_len := d_x86_code_len d |}.
Definition set_rt (v : Z) (d : DecodedInstruction) : DecodedInstruction :=
    {| d_opcode := d_opcode d; d_pc := d_pc d; d_instr_type := d_instr_type d; d_imm :=
     d_imm d; d_rd := d_rd d; d_rn := d_rn d; d_rm := d_rm d; d_rt := v; d_rt2 := d_rt2 d;
     d_is_64bit := d_is_64bit d; d_decoded := d_decoded d; d_cond := d_cond d; d_shift_type
     := d_shift_type d; d_shift_imm := d_shift_imm d; d_update_flags := d_update_flags d;
     d_x86_code := d_x86_code d; d_x86_code_len := d_x86_code_len d |}.
Definition set_rt2 (v : Z) (d : DecodedInstruction) : DecodedInstruction :=
    {| d_opcode := d_opcode d; d_pc := d_pc d; d_instr_type := d_instr_type d; d_imm :=
     d_imm d; d_rd := d_rd d; d_rn := d_rn d; d_rm := d_rm d; d_rt := d_rt d; d_rt2 := v;
     d_is_64bit := d_is_64bit d; d_decoded := d_decoded d; d_cond := d_cond d; d_shift_type
     := d_shift_type d; d_shift_imm := d_shift_imm d; d_update_flags := d_update_flags d;
     d_x86_code := d_x86_code d; d_x86_code_len := d_x86_code_len d |}.
Definition set_is_64bit (v : Z) (d : DecodedInstruction) : DecodedInstruction :=
    {| d_opcode := d_opcode d; d_pc := d_pc d; d_instr_type := d_instr_type d; d_imm :=
     d_imm d; d_rd := d_rd d; d_rn := d_rn d; d_rm := d_rm d; d_rt := d_rt d; d_rt2 := d_rt2
     d; d_is_64bit := v; d_decoded := d_decoded d; d_cond := d_cond d; d_shift_type :=
     d_shift_type d; d_shift_imm := d_shift_imm d; d_update_flags := d_update_flags d;
     d_x86_code := d_x86_code d; d_x86_code_len := d_x86_code_len d |}.
Definition set_decoded (v : Z) (d : DecodedInstruction) : DecodedInstruction :=
    {| d_opcode := d_opcode d; d_pc := d_pc d; d_instr_type := d_instr_type d; d_imm :=
     d_imm d; d_rd := d_rd d; d_rn := d_rn d; d_rm := d_rm d; d_rt := d_rt d; d_rt2 := d_rt2
     d; d_is_64bit := d_is_64bit d; d_decoded := v; d_cond := d_cond d; d_shift_type :=
     d_shift_type d; d_shift_imm := d_shift_imm d; d_update_flags := d_update_flags d;
     d_x86_code := d_x86_code d; d_x86_code_len := d_x86_code_len d |}.
Definition set_cond (v : Z) (d : DecodedInstruction) : DecodedInstruction :=
    {| d_opcode := d_opcode d; d_pc := d_pc d; d_instr_type := d_instr_type d; d_imm :=
     d_imm d; d_rd := d_rd d; d_rn := d_rn d; d_rm := d_rm d; d_rt := d_rt d; d_rt2 := d_rt2
     d; d_is_64bit := d_is_64bit d; d_decoded := d_decoded d; d_cond := v; d_shift_type :=
     d_shift_type d; d_shift_imm := d_shift_imm d; d_update_flags := d_update_flags d;
     d_x86_code := d_x86_code d; d_x86_code_len := d_x86_code_len d |}.
Definition set_shift_type (v : Z) (d : DecodedInstruction) : DecodedInstruction :=
    {| d_opcode := d_opcode d; d_pc := d_pc d; d_instr_type := d_instr_type d; d_imm :=
     d_imm d; d_rd := d_rd d; d_rn := d_rn d; d_rm := d_rm d; d_rt := d_rt d; d_rt2 := d_rt2
     d; d_is_64bit := d_is_64bit d; d_decoded := d_decoded d; d_cond := d_cond d;
     d_shift_type := v; d_shift_imm := d_shift_imm d; d_update_flags := d_update_flags d;
     d_x86_code := d_x86_code d; d_x86_code_len := d_x86_code_len d |}.
Definition set_shift_imm (v : Z) (d : DecodedInstruction) : DecodedInstruction :=
    {| d_opcode := d_opcode d; d_pc := d_pc d; d_instr_type := d_instr_type d; d_imm :=
     d_imm d; d_rd := d_rd d; d_rn := d_rn d; d_rm := d_rm d; d_rt := d_rt d; d_rt2 := d_rt2
     d; d_is_64bit := d_is_64bit d; d_decoded := d_decoded d; d_cond := d_cond d;
     d_shift_type := d_shift_type d; d_shift_imm := v; d_update_flags := d_update_flags d;
     d_x86_code := d_x86_code d; d_x86_code_len := d_x86_code_len d |}.

(** The common ending [d->instr_type = t; d->decoded = 1; return ARM2X86_OK]. *)
Definition done_as (t : Z) (d : DecodedInstruction) : DecodedInstruction :=
  set_decoded 1 (set_instr_type t d).
Definition undecoded_as (t : Z) (d : DecodedInstruction) : DecodedInstruction :=
  set_decoded 0 (set_instr_type t d).

(** ** Reading and sign extension *)

Definition read_le32 (mem : Z -> Z) (p : Z) : Z :=
  mem p ||| (mem (p + 1) <<< 8) ||| (mem (p + 2) <<< 16) ||| (mem (p + 3) <<< 24).

Definition sign_extend64_full (val bits : Z) : Z :=
  let shift := 64 - bits in s64 (u64 (val <<< shift)) >>> shift.

Definition sign_extend64 (val bits : Z) : Z :=
  let shift := 64 - bits in s32 (s64 (u64 (val <<< shift)) >>> shift).

Definition is_valid_instruction_alignment (pc : Z) : bool := (pc &&& 0x3) =? 0.

Definition is_in_executable_region (pc : Z) : bool := true.

(** ** Data processing *)

(** The register forms of [decode_dp_register]. *)
Definition decode_dp_reg_forms (op : Z) (d : DecodedInstruction) : option DecodedInstruction :=
  if (op &&& 0x1fe00000) =? 0x0a000000 then
    let opc := (op >>> 29) &&& 3 in
    let t := match opc with 0 => INSTR_AND | 1 => INSTR_BIC | 2 => INSTR_ORR | _ => INSTR_ORN end in
    let d := set_instr_type t d in
    let d := set_shift_type ((op >>> 22) &&& 3) d in
    let d := set_shift_imm ((op >>> 10) &&& 0x3f) d in
    Some (set_decoded 1 d)
  else if (op &&& 0x1fe00000) =? 0x0b000000 then
    let op21 := (op >>> 30) &&& 3 in
    let shift := (op >>> 22) &&& 3 in
    let t := if op21 =? 0 then INSTR_ADD else if op21 =? 1 then INSTR_SUB
             else if op21 =? 2 then INSTR_SUB else INSTR_SUB in
    let d := set_instr_type t d in
    let d := set_shift_type shift d in
    let d := set_shift_imm ((op >>> 10) &&& 0x3f) d in
    Some (set_decoded 1 d)
  else if (op &&& 0x1fe00000) =? 0x1a000000 then
    Some (done_as (if (op &&& 0x00600000) =? 0 then INSTR_ADC else INSTR_SBC) d)
  else if (op &&& 0x1fe00000) =? 0x1ac00000 then
    Some (done_as (if c_true ((op >>> 11) &&& 1) then INSTR_UDIV else INSTR_SDIV) d)
  else if (op &&& 0x1f800000) =? 0x1b000000 then
    let t := if (op &&& 0x80000000) =? 0 then
               if (op &&& 0x400000) =? 0 then INSTR_MUL
               else if c_true ((op >>> 21) &&& 1) then INSTR_SMULH else INSTR_UMULH
             else INSTR_MADD in
    Some (done_as t d)
  else if (op &&& 0x1fe00000) =? 0x1a800000 then
    let d := set_cond (op &&& 0xf) d in
    let opcode_hi := (op >>> 12) &&& 0x1f in
    Some (if opcode_hi =? 0 then done_as INSTR_CSEL d
          else if opcode_hi =? 2 then done_as INSTR_CCMN d
          else if opcode_hi =? 4 then done_as INSTR_CCMP d
          else if opcode_hi =? 8 then done_as INSTR_CSET d
          else undecoded_as INSTR_DATAPROC d)
  else None.

(** Bitfield moves, with the sign- and zero-extension aliases. *)
Definition decode_dp_bitfield (op : Z) (d : DecodedInstruction) : option DecodedInstruction :=
  if ((op &&& 0x7f800000) =? 0x13000000) || ((op &&& 0x7f800000) =? 0x53000000) then
    let N := (op >>> 22) &&& 1 in
    let opc := (op >>> 29) &&& 3 in
    let d := set_imm ((op >>> 10) &&& 0x3f) d in
    let d := set_shift_imm ((op >>> 16) &&& 0x3f) d in
    let t :=
      if (N =? 0) && (opc =? 0) then
        if d_shift_imm d =? 0 then INSTR_ASR
        else if d_shift_imm d =? 31 then INSTR_LSL else INSTR_SBFM
      else if (N =? 0) && (opc =? 2) then
        if d_shift_imm d =? 0 then INSTR_LSR else INSTR_UBFM
      else if (N =? 0) && (opc =? 3) then INSTR_EXTR
      else if opc =? 0 then INSTR_SBFM else if opc =? 2 then INSTR_UBFM else INSTR_EXTR in
    let t :=
      if (t =? INSTR_SBFM) && (d_imm d =? 7) && (d_shift_imm d =? 0) then INSTR_SXTB
      else if (t =? INSTR_SBFM) && (d_imm d =? 15) && (d_shift_imm d =? 0) then INSTR_SXTH
      else if (t =? INSTR_UBFM) && (d_imm d =? 7) && (d_shift_imm d =? 0) then INSTR_UXTB
      else if (t =? INSTR_UBFM) && (d_imm d =? 15) && (d_shift_imm d =? 0) then INSTR_UXTH
      else t in
    let d := set_instr_type t d in
    let d := set_is_64bit N d in
    Some (set_decoded 1 d)
  else None.

(** Logical immediates, move wide, CRC32. *)
Definition decode_dp_imm_forms (op : Z) (d : DecodedInstruction) : option DecodedInstruction :=
  if ((op &&& 0x1f800000) =? 0x12000000) || ((op &&& 0x7f800000) =? 0x32000000) then
    let opc := (op >>> 29) &&& 3 in
    let t := if opc =? 0 then INSTR_AND else if opc =? 1 then INSTR_BIC
             else if opc =? 2 then INSTR_ORR else INSTR_ORN in
    let d := set_instr_type t d in
    let d := set_is_64bit ((op >>> 31) &&& 1) d in
    Some (set_decoded 1 d)
  else
  let mov_mask := op &&& 0xFFE00000 in
  if (mov_mask =? 0xD2800000) || (mov_mask =? 0x92800000) || (mov_mask =? 0xF2800000)
     || (mov_mask =? 0x52800000) || (mov_mask =? 0x12800000) || (mov_mask =? 0x72800000) then
    let opc := (op >>> 29) &&& 3 in
    if opc =? 1 then Some (undecoded_as INSTR_DATAPROC d)
    else
      let t := if opc =? 0 then INSTR_MOVN else if opc =? 2 then INSTR_MOVZ else INSTR_MOVK in
      let d := set_instr_type t d in
      let d := set_is_64bit ((op >>> 31) &&& 1) d in
      let d := set_imm ((op >>> 5) &&& 0xffff) d in
      let d := set_shift_imm (((op >>> 21) &&& 3) * 16) d in
      let d := set_rd (op &&& 0x1f) d in
      let d := set_rn 0 d in
      let d := set_rm 0 d in
      Some (set_decoded 1 d)
  else if (op &&& 0x7fe0fc00) =? 0x1ac00000 then
    let crc_op := (op >>> 10) &&& 0x7 in
    if (crc_op =? 0) || (crc_op =? 4) then Some (done_as INSTR_CRC32 d)
    else if (crc_op =? 1) || (crc_op =? 5) then Some (done_as INSTR_CRC32C d)
    else Some (undecoded_as INSTR_DATAPROC d)
  else None.

Definition decode_dp_register (op : Z) (d : DecodedInstruction) : Z * DecodedInstruction :=
  let d := set_rd (op &&& 0x1f) d in
  let d := set_rn ((op >>> 5) &&& 0x1f) d in
  let d := set_rm ((op >>> 16) &&& 0x1f) d in
  let d := set_is_64bit ((op >>> 31) &&& 1) d in
  if (31 <? d_rd d) || (31 <? d_rn d) || (31 <? d_rm d) then
    (ARM2X86_ERR_INVALID_PARAM, undecoded_as INSTR_UNKNOWN d)
  else
    match decode_dp_reg_forms op d with
    | Some d => (ARM2X86_OK, d)
    | None =>
      match decode_dp_bitfield op d with
      | Some d => (ARM2X86_OK, d)
      | None =>
        match decode_dp_imm_forms op d with
        | Some d => (ARM2X86_OK, d)
        | None => (ARM2X86_OK, done_as INSTR_DATAPROC d)
        end
      end
    end.

(** ** Loads and stores *)

Definition decode_loadstore (op : Z) (d : DecodedInstruction) : Z * DecodedInstruction :=
  let d := set_rt (op &&& 0x1f) d in
  let d := set_rn ((op >>> 5) &&& 0x1f) d in
  let d := set_is_64bit ((op >>> 31) &&& 1) d in
  let op0 := (op >>> 30) &&& 3 in
  let op2 := (op >>> 22) &&& 1 in
  let is_load := c_true op2 in
  let size := op0 in
  if (op &&& 0x3b200c00) =? 0x38000000 then
    let imm9 := sign_extend64 ((op >>> 12) &&& 0x1ff) 9 in
    let d := set_imm imm9 d in
    (ARM2X86_OK, done_as (if is_load then INSTR_LDR else INSTR_STR) d)
  else if (op &&& 0x3b000000) =? 0x39000000 then
    let imm12 := (op >>> 10) &&& 0xfff in
    let d := set_imm (s32 (u32 (imm12 <<< size))) d in
    let d := set_is_64bit (b2z (size =? 3)) d in
    (ARM2X86_OK, done_as (if is_load then INSTR_LDR else INSTR_STR) d)
  else if (op &&& 0xbf000000) =? 0x18000000 then
    let imm19 := sign_extend64 (((op >>> 5) &&& 0x7ffff) <<< 2) 21 in
    let d := set_imm imm19 d in
    let d := set_is_64bit ((op >>> 30) &&& 1) d in
    (ARM2X86_OK, done_as (if is_load then INSTR_LDR_LITERAL else INSTR_PRFM) d)
  else if ((op &&& 0x7fc00000) =? 0x28800000) || ((op &&& 0x7fc00000) =? 0x29800000) then
    let d := set_rt2 ((op >>> 10) &&& 0x1f) d in
    let imm7 := sign_extend64 ((op >>> 15) &&& 0x7f) 7 in
    let opc := (op >>> 30) &&& 3 in
    let shift := if opc =? 3 then 3 else 2 in
    let d := set_imm (imm7 <<< shift) d in
    let d := set_is_64bit (b2z (opc =? 3)) d in
    (ARM2X86_OK, done_as (if is_load then INSTR_LDP else INSTR_STP) d)
  else (ARM2X86_OK, undecoded_as INSTR_UNKNOWN d).

(** ** The blocks of [arm2x86_decode] *)

(** Branches: immediate, indirect, conditional, compare-and-branch, test-and-branch. *)
Definition decode_branches (op : Z) (d : DecodedInstruction) : option DecodedInstruction :=
  if (op &&& 0xfc000000) =? ARM64_BL then
    Some (set_decoded 1 (set_imm (sign_extend64 ((op &&& 0x03ffffff) <<< 2) 28)
           (set_instr_type INSTR_BL d)))
  else if (op &&& 0xfc000000) =? ARM64_B then
    Some (set_decoded 1 (set_imm (sign_extend64 ((op &&& 0x03ffffff) <<< 2) 28)
           (set_instr_type INSTR_B d)))
  else if (op &&& 0xfffffc1f) =? ARM64_BR then
    Some (set_decoded 1 (set_rn ((op >>> 5) &&& 0x1f) (set_instr_type INSTR_BR d)))
  else if (op &&& 0xfffffc1f) =? ARM64_BLR then
    Some (set_decoded 1 (set_rn ((op >>> 5) &&& 0x1f) (set_instr_type INSTR_BLR d)))
  else if op =? ARM64_RET then Some (done_as INSTR_RET d)
  else if (op &&& 0xff000010) =? ARM64_B_COND then
    let d := set_instr_type INSTR_B_COND d in
    let d := set_cond (op &&& 0xf) d in
    let d := set_imm (sign_extend64 (((op >>> 5) &&& 0xffffe) <<< 1) 19) d in
    let d := if 14 <? d_cond d then set_cond 14 d else d in
    Some (set_decoded 1 d)
  else if (op &&& 0x7e000000) =? 0x34000000 then
    let d := set_rn ((op >>> 5) &&& 0x1f) d in
    let d := set_imm (sign_extend64 (((op >>> 5) &&& 0x7ffff) <<< 2) 21) d in
    let d := set_is_64bit ((op >>> 31) &&& 1) d in
    Some (done_as (if c_true (op &&& 0x01000000) then INSTR_CBNZ else INSTR_CBZ) d)
  else if (op &&& 0x7e000000) =? 0x36000000 then
    let d := set_rt ((op >>> 5) &&& 0x1f) d in
    let d := set_imm (sign_extend64 (((op >>> 5) &&& 0x3fff) <<< 2) 16) d in
    let d := set_shift_imm ((op >>> 19) &&& 0x1f) d in
    Some (done_as (if c_true (op &&& 0x01000000) then INSTR_TBNZ else INSTR_TBZ) d)
  else None.

(** System instructions; a system word none of the tests recognises falls through. *)
Definition decode_system (op : Z) (d : DecodedInstruction) : option DecodedInstruction :=
  if (op &&& 0xff000000) =? 0xd5000000 then
    if (op &&& 0xfff00000) =? 0xd5300000 then
      Some (set_decoded 1 (set_rt (op &&& 0x1f) (set_instr_type INSTR_MRS d)))
    else if (op &&& 0xfff00000) =? 0xd5100000 then
      Some (set_decoded 1 (set_rt (op &&& 0x1f) (set_instr_type INSTR_MSR d)))
    else if (op =? ARM64_DMB) || (op =? ARM64_DSB) || (op =? ARM64_ISB) then
      Some (done_as (if op =? ARM64_DMB then INSTR_DMB
                     else if op =? ARM64_DSB then INSTR_DSB else INSTR_ISB) d)
    else if (op =? ARM64_SVC) || (op =? ARM64_HVC) || (op =? ARM64_SMC) then
      Some (set_decoded 1 (set_imm ((op >>> 5) &&& 0xffff) (set_instr_type INSTR_SVC d)))
    else if (op &&& 0xffff001f) =? 0xd503001f then
      let crm := (op >>> 16) &&& 0xf in
      let op2 := (op >>> 12) &&& 0xf in
      Some (done_as (if (crm =? 0) && (op2 <=? 4) then INSTR_HINT else INSTR_DATAPROC) d)
    else None
  else None.

Definition is_loadstore (op : Z) : bool :=
  ((op &&& 0x0a000000) =? 0x08000000) || ((op &&& 0x3b000000) =? 0x28000000)
  || ((op &&& 0x3b000000) =? 0x38000000) || ((op &&& 0x3b000000) =? 0x39000000).

Definition decode_atomic (op : Z) (d : DecodedInstruction) : option DecodedInstruction :=
  if (op &&& 0x3b200000) =? 0x08200000 then
    let o3 := (op >>> 22) &&& 7 in
    Some (done_as (if o3 =? 3 then INSTR_CAS else if o3 =? 0 then INSTR_LDADD else INSTR_LDST) d)
  else None.

(** The register fields the SIMD blocks fill in. *)
Definition simd_fields (op : Z) (d : DecodedInstruction) : DecodedInstruction :=
  let d := set_rd (op &&& 0x1f) d in
  let d := set_rn ((op >>> 5) &&& 0x1f) d in
  let d := set_rm ((op >>> 16) &&& 0x1f) d in
  let d := set_is_64bit ((op >>> 30) &&& 1) d in
  set_decoded 1 d.

Definition decode_neon_int (op : Z) (d : DecodedInstruction) : option DecodedInstruction :=
  if ((op &&& 0x5f000000) =? 0x0e000000) || ((op &&& 0x5f000000) =? 0x4e000000) then
    let opcode := (op >>> 11) &&& 0x3f in
    let t := match opcode with
      | 0x09 => INSTR_NEON_ADD | 0x19 => INSTR_NEON_SUB | 0x01 => INSTR_NEON_AND
      | 0x03 => INSTR_NEON_ORR | 0x07 => INSTR_NEON_EOR | 0x08 => INSTR_NEON_MUL
      | 0x11 => INSTR_NEON_BSL | 0x13 => INSTR_NEON_EXT | 0x10 => INSTR_NEON_INS
      | 0x18 => INSTR_NEON_SHL | _ => INSTR_NEON_ADD end in
    Some (set_instr_type t (simd_fields op d))
  else None.

Definition decode_neon_fp (op : Z) (d : DecodedInstruction) : option DecodedInstruction :=
  if (op &&& 0x5f000000) =? 0x1e000000 then
    let opcode := (op >>> 11) &&& 0x3f in
    let t := match opcode with
      | 0x09 => INSTR_NEON_FADD | 0x19 => INSTR_NEON_FSUB | 0x08 => INSTR_NEON_FMUL
      | 0x1a => INSTR_NEON_FDIV | 0x15 => INSTR_NEON_FMAX | 0x14 => INSTR_NEON_FMIN
      | 0x03 => INSTR_NEON_FMLA | 0x1e => INSTR_NEON_FABS | 0x2e => INSTR_NEON_FNEG
      | 0x1c => INSTR_NEON_FSQRT | 0x1f => INSTR_NEON_FCVT | 0x0b => INSTR_NEON_FMLS
      | _ => INSTR_NEON_FADD end in
    Some (set_instr_type t (simd_fields op d))
  else None.

Definition decode_simd_ldst (op : Z) (d : DecodedInstruction) : option DecodedInstruction :=
  if ((op &&& 0xbf000000) =? 0x0d000000) || ((op &&& 0xbf000000) =? 0x0c000000) then
    let l_bit := (op >>> 22) &&& 1 in
    let d := set_rd (op &&& 0x1f) d in
    let d := set_rn ((op >>> 5) &&& 0x1f) d in
    let d := set_decoded 1 d in
    Some (set_instr_type (if c_true l_bit then INSTR_LDR_SIMD else INSTR_STR_SIMD) d)
  else None.

(** CRC32, AES and SHA. *)
Definition decode_crypto (op : Z) (d : DecodedInstruction) : option DecodedInstruction :=
  if (op &&& 0x7fe0fc00) =? 0x1a000000 then
    let crc_op := (op >>> 10) &&& 0x7 in
    let d := set_rd (op &&& 0x1f) d in
    let d := set_rn ((op >>> 5) &&& 0x1f) d in
    let d := set_rm ((op >>> 16) &&& 0x1f) d in
    let d := set_decoded 1 d in
    Some (set_instr_type
            (if (crc_op =? 0) || (crc_op =? 4) then INSTR_CRC32 else INSTR_CRC32C) d)
  else if ((op &&& 0x5f20fc00) =? 0x48200000) || ((op &&& 0x5f20fc00) =? 0x48201000)
       || ((op &&& 0x5f20fc00) =? 0x48202000) || ((op &&& 0x5f20fc00) =? 0x48203000) then
    let d := set_rd (op &&& 0x1f) d in
    let d := set_rn ((op >>> 5) &&& 0x1f) d in
    let d := set_decoded 1 d in
    let opcode := (op >>> 10) &&& 0x7 in
    let t := match opcode with
      | 0 => INSTR_AESE | 1 => INSTR_AESD | 2 => INSTR_AESMC | 3 => INSTR_AESIMC
      | _ => INSTR_AESE end in
    Some (set_instr_type t d)
  else if (op &&& 0xff00fc00) =? 0x58000000 then
    let d := set_rd (op &&& 0x1f) d in
    let d := set_rn ((op >>> 5) &&& 0x1f) d in
    let d := set_rm ((op >>> 16) &&& 0x1f) d in
    let d := set_decoded 1 d in
    Some (set_instr_type INSTR_SHA256 d)
  else None.

(** FMOV, ERET, BRK, HLT. *)
Definition decode_misc (op : Z) (d : DecodedInstruction) : option DecodedInstruction :=
  if (op &&& 0x1f000000) =? 0x1e000000 then Some (done_as INSTR_FMOV_REG d)
  else if op =? 0xd69c03c0 then Some (done_as INSTR_ERET d)
  else if (op &&& 0xfff0001f) =? 0xd4200000 then
    Some (set_decoded 1 (set_imm ((op >>> 5) &&& 0xffff) (set_instr_type INSTR_BRK d)))
  else if (op &&& 0xfff0001f) =? 0xd4400000 then
    Some (set_decoded 1 (set_imm ((op >>> 5) &&& 0xffff) (set_instr_type INSTR_HLT d)))
  else None.

(** Blocks tried in order: the first that returns wins. *)
Fixpoint first_block (blocks : list (Z -> DecodedInstruction -> option DecodedInstruction))
    (op : Z) (d : DecodedInstruction) : option DecodedInstruction :=
  match blocks with
  | [] => None
  | b :: bs => match b op d with Some r => Some r | None => first_block bs op d end
  end.

(** The cascade on the instruction word, after the parameter checks. *)
Definition decode_word (op : Z) (d : DecodedInstruction) : Z * DecodedInstruction :=
  if (op =? 0x00000000) || (op =? 0xffffffff) then (ARM2X86_OK, undecoded_as INSTR_UNKNOWN d)
  else
    match first_block [decode_branches; decode_system] op d with
    | Some r => (ARM2X86_OK, r)
    | None =>
      if is_loadstore op then decode_loadstore op d
      else
        match first_block [decode_atomic; decode_neon_int; decode_neon_fp; decode_simd_ldst;
                           decode_crypto; decode_misc] op d with
        | Some r => (ARM2X86_OK, r)
        | None => decode_dp_register op d
        end
    end.

(** [ctx] is only tested against null. *)
Definition arm2x86_decode (ctx : option unit) (mem : Z -> Z) (arm64_code : Z)
    (decoded : option DecodedInstruction) : Z * option DecodedInstruction :=
  match ctx, decoded with
  | None, _ => (ARM2X86_ERR_INVALID_PARAM, decoded)
  | Some _, None => (ARM2X86_ERR_INVALID_PARAM, decoded)
  | Some _, Some _ =>
    if arm64_code =? 0 then (ARM2X86_ERR_INVALID_PARAM, decoded)
    else if negb (is_valid_instruction_alignment arm64_code) then
      (ARM2X86_ERR_INVALID_PARAM, decoded)
    else
      let op := read_le32 mem arm64_code in
      let d := set_opcode op (set_pc arm64_code zero_instruction) in
      let '(rc, d) := decode_word op d in (rc, Some d)
  end.

(** ** Lemmas on the cascade *)

Lemma sign_extend64_spec v bits :
  0 < bits <= 32 -> 0 <= v < 2^bits ->
  sign_extend64 v bits = if v <? 2^(bits - 1) then v else v - 2^bits.
Proof.
  intros Hb Hv. unfold sign_extend64. cbv zeta.
  rewrite Z.shiftl_mul_pow2, Z.shiftr_div_pow2 by lia.
  assert (Hp : 2^64 = 2^bits * 2^(64 - bits)) by (rewrite <- Z.pow_add_r by lia; f_equal; lia).
  assert (Hh : 2^bits = 2 * 2^(bits - 1)) by (rewrite <- Z.pow_succ_r by lia; f_equal; lia).
  assert (H32 : 2^bits <= 2^32) by (apply Z.pow_le_mono_r; lia).
  assert (0 < 2^(64 - bits)) by (apply Z.pow_pos_nonneg; lia).
  assert (0 < 2^(bits - 1)) by (apply Z.pow_pos_nonneg; lia).
  rewrite u64_small by nia.
  assert (H63 : 2^63 = 2^(bits - 1) * 2^(64 - bits)) by (rewrite <- Z.pow_add_r by lia; f_equal; lia).
  destruct (v <? 2^(bits - 1)) eqn:E; [apply Z.ltb_lt in E | apply Z.ltb_ge in E].
  - replace (s64 (v * 2^(64 - bits))) with (v * 2^(64 - bits)).
    + rewrite Z.div_mul by lia. apply s32_small. lia.
    + unfold s64. rewrite Z.mod_small by nia. lia.
  - replace (s64 (v * 2^(64 - bits))) with ((v - 2^bits) * 2^(64 - bits)).
    + rewrite Z.div_mul by lia. apply s32_small. lia.
    + unfold s64. rewrite Hp, H63.
      replace (v * 2 ^ (64 - bits) + 2 ^ (bits - 1) * 2 ^ (64 - bits))
        with ((v - 2^(bits-1)) * 2^(64 - bits) + 1 * (2^bits * 2^(64 - bits))) by nia.
      rewrite Z_mod_plus_full, Z.mod_small by nia. nia.
Qed.

(** Sign extension undoes truncation to [bits] bits, and scales. *)
Lemma sign_extend64_scaled i bits k m :
  0 < bits -> 0 <= k -> bits + k <= 32 -> m = 2^bits - 1 ->
  - 2^(bits - 1) <= i < 2^(bits - 1) ->
  sign_extend64 ((i &&& m) <<< k) (bits + k) = i * 2^k.
Proof.
  intros Hb Hk Hs -> Hi. rewrite (land_ones_mod i bits) by lia.
  assert (Hh : 2^bits = 2 * 2^(bits - 1)) by (rewrite <- Z.pow_succ_r by lia; f_equal; lia).
  assert (Hbk : 2^(bits + k) = 2^bits * 2^k) by (apply Z.pow_add_r; lia).
  assert (Hbk1 : 2^(bits + k - 1) = 2^(bits - 1) * 2^k) by (rewrite <- Z.pow_add_r by lia; f_equal; lia).
  assert (0 < 2^k) by (apply Z.pow_pos_nonneg; lia).
  assert (0 < 2^(bits - 1)) by (apply Z.pow_pos_nonneg; lia).
  rewrite Z.shiftl_mul_pow2 by lia.
  destruct (decide (0 <= i)).
  - rewrite Z.mod_small by lia. rewrite sign_extend64_spec by nia.
    by rewrite (proj2 (Z.ltb_lt _ _)) by nia.
  - replace (i mod 2^bits) with (i + 2^bits)
      by (symmetry; rewrite <- (Z_mod_plus_full i 1), Z.mul_1_l; apply Z.mod_small; lia).
    rewrite sign_extend64_spec by nia.
    rewrite (proj2 (Z.ltb_ge _ _)) by nia. nia.
Qed.

(** The outcome of the cascade on a word. *)
Definition decoded_word (op : Z) : DecodedInstruction := (decode_word op zero_instruction).2.

Ltac unfold_cascade :=
  unfold decoded_word, decode_word, first_block, decode_branches, decode_system, is_loadstore,
    decode_loadstore, decode_atomic, decode_neon_int, decode_neon_fp, decode_simd_ldst,
    decode_crypto, decode_misc.

(** ** Encodings of the ARM Architecture Reference Manual *)

Definition enc_b (link : bool) (imm26 : Z) : Z :=
  (if link then 0x94000000 else 0x14000000) ||| (imm26 &&& 0x3ffffff).

Lemma enc_b_opcode link imm26 :
  enc_b link imm26 &&& 0xfc000000 = if link then 0x94000000 else 0x14000000.
Proof. unfold enc_b. destruct link; fields; reflexivity. Qed.
Lemma enc_b_field link imm26 : enc_b link imm26 &&& 0x03ffffff = imm26 &&& 0x3ffffff.
Proof. unfold enc_b. destruct link; fields; reflexivity. Qed.

(** Every B and BL decodes to its type with the byte offset [4 * imm26],
    sign included, over the whole +-128 MiB range. *)
Theorem decode_b_bl link imm26 :
  - 2^25 <= imm26 < 2^25 ->
  let d := decoded_word (enc_b link imm26) in
  d_instr_type d = (if link then INSTR_BL else INSTR_B) /\
  d_imm d = 4 * imm26 /\ d_decoded d = 1.
Proof.
  intros Hi d. pose proof (enc_b_opcode link imm26) as Hop.
  unfold d. unfold_cascade. destruct link; decide_masks Hop; cbn [snd];
    rewrite ?enc_b_field; (split; [reflexivity | split; [|reflexivity]]);
    cbn [d_imm set_decoded set_imm]; rewrite (sign_extend64_scaled imm26 26 2) by lia; lia.
Qed.
Lemma decode_b_bl_witness :
  - 2^25 <= -1 < 2^25 /\ d_imm (decoded_word (enc_b true (-1))) = -4.
Proof. split; [lia | apply (decode_b_bl true (-1)); lia]. Defined.

Lemma land_lt v m n : 0 <= m < n -> 0 <= v &&& m < n.
Proof. intros H. pose proof (land_range v m). lia. Qed.

Lemma reg_in_range v : (31 <? (v &&& 0x1f)) = false.
Proof. apply Z.ltb_ge. pose proof (land_range v 0x1f). lia. Qed.

Lemma bit_cases b : 0 <= b < 2 -> b = 0 \/ b = 1.
Proof. lia. Qed.

(** Compare-and-branch: [sf], [nz] (0 for CBZ, 1 for CBNZ), [imm19], [rt]. *)
Definition enc_cbz (sf nz imm19 rt : Z) : Z :=
  0x34000000 ||| ((sf &&& 1) <<< 31) ||| ((nz &&& 1) <<< 24) ||| ((imm19 &&& 0x7ffff) <<< 5)
  ||| (rt &&& 0x1f).

(** CBZ and CBNZ decode to their type, width and byte offset [4 * imm19];
    the register tested is taken from bits 9-5 of the word, the low bits of the
    offset, and does not depend on the operand [rt] of the instruction. *)
Theorem decode_cbz sf nz imm19 rt :
  0 <= sf < 2 -> 0 <= nz < 2 -> - 2^18 <= imm19 < 2^18 -> 0 <= rt < 32 ->
  let d := decoded_word (enc_cbz sf nz imm19 rt) in
  d_instr_type d = (if nz =? 1 then INSTR_CBNZ else INSTR_CBZ) /\
  d_is_64bit d = sf /\ d_imm d = 4 * imm19 /\ d_rn d = imm19 mod 32 /\ d_rt d = 0.
Proof.
  intros Hsf Hnz Hi Hrt d.
  assert (Hop : enc_cbz sf nz imm19 rt &&& 0x7e000000 = 0x34000000)
    by (unfold enc_cbz; fields; reflexivity).
  assert (H1 : (enc_cbz sf nz imm19 rt >>> 5) &&& 0x1f = imm19 &&& 0x1f)
    by (unfold enc_cbz; fields; reflexivity).
  assert (H2 : (enc_cbz sf nz imm19 rt >>> 5) &&& 0x7ffff = imm19 &&& 0x7ffff)
    by (unfold enc_cbz; fields; reflexivity).
  assert (H3 : (enc_cbz sf nz imm19 rt >>> 31) &&& 1 = sf)
    by (unfold enc_cbz; fields; by apply (land_small sf 1)).
  assert (H4 : enc_cbz sf nz imm19 rt &&& 0x01000000 = (nz &&& 1) <<< 24)
    by (unfold enc_cbz; fields; reflexivity).
  unfold d. unfold_cascade. decide_masks Hop. rewrite H1, H2, H3, H4.
  rewrite (sign_extend64_scaled imm19 19 2) by lia.
  clear - Hnz. apply bit_cases in Hnz as [-> | ->]; cbn;
    rewrite land_31; (split_and!; [reflexivity.. | lia | reflexivity | reflexivity]).
Qed.
Lemma decode_cbz_witness :
  d_rn (decoded_word (enc_cbz 1 1 (-2) 3)) = 30 /\ d_imm (decoded_word (enc_cbz 1 1 (-2) 3)) = -8.
Proof.
  destruct (decode_cbz 1 1 (-2) 3) as (_ & _ & H1 & H2 & _); [lia.. |].
  split; [exact H2 | exact H1].
Defined.

(** Conditional branch. *)
Definition enc_bcond (imm19 cond : Z) : Z :=
  0x54000000 ||| ((imm19 &&& 0x7ffff) <<< 5) ||| (cond &&& 0xf).

Lemma sign_extend64_mod v bits :
  0 < bits <= 64 -> sign_extend64 (v mod 2^bits) bits = sign_extend64 v bits.
Proof.
  intros Hb. unfold sign_extend64. cbv zeta. do 2 f_equal. f_equal.
  rewrite !Z.shiftl_mul_pow2 by lia. unfold u64.
  replace (2^64) with (2^bits * 2^(64 - bits)) by (rewrite <- Z.pow_add_r by lia; f_equal; lia).
  assert (0 < 2^(64 - bits)) by (apply Z.pow_pos_nonneg; lia).
  assert (0 < 2^bits) by (apply Z.pow_pos_nonneg; lia).
  rewrite !Z.mul_mod_distr_r by lia. by rewrite Zmod_mod.
Qed.

Lemma land_drop_bit0 x : ((x >>> 1) &&& 0x1ffff) <<< 2 = (x &&& 0x3fffe) <<< 1.
Proof.
  rewrite !Z.shiftl_land. change (0x1ffff <<< 2) with 0x7fffc. change (0x3fffe <<< 1) with 0x7fffc.
  apply Z.bits_inj'. intros i Hi. rewrite !Z.land_spec.
  destruct (decide (i = 0)) as [->|]; [by rewrite !andb_false_r|].
  destruct (decide (i = 1)) as [->|]; [by rewrite !andb_false_r|].
  rewrite !Z.shiftl_spec, Z.shiftr_spec by lia. do 2 f_equal. lia.
Qed.

(** B.cond decodes its condition (NV read as AL), but its offset comes out as
    [4 * (imm19 / 2)] for every word offset within +-2^17: the architecture's
    [4 * imm19] only for the offsets 0 and -1. *)
Theorem decode_bcond imm19 cond :
  - 2^17 <= imm19 < 2^17 -> 0 <= cond < 16 ->
  let d := decoded_word (enc_bcond imm19 cond) in
  d_instr_type d = INSTR_B_COND /\ d_cond d = Z.min cond 14 /\
  d_imm d = 4 * (imm19 / 2) /\
  (d_imm d = 4 * imm19 <-> imm19 = 0 \/ imm19 = -1).
Proof.
  intros Hi Hc d.
  assert (Hop : enc_bcond imm19 cond &&& 0xff000010 = 0x54000000)
    by (unfold enc_bcond; fields; reflexivity).
  assert (H1 : (enc_bcond imm19 cond >>> 5) &&& 0xffffe = imm19 &&& 0x7fffe)
    by (unfold enc_bcond; fields; reflexivity).
  assert (H2 : enc_bcond imm19 cond &&& 0xf = cond)
    by (unfold enc_bcond; fields; by apply (land_small cond 4)).
  assert (H3 : sign_extend64 ((imm19 &&& 0x7fffe) <<< 1) 19 = 4 * (imm19 / 2)).
  { rewrite <- sign_extend64_mod by lia.
    replace (((imm19 &&& 0x7fffe) <<< 1) mod 2^19) with (((imm19 / 2) &&& 0x1ffff) <<< 2).
    - rewrite (sign_extend64_scaled (imm19 / 2) 17 2) by (try done; Z.div_mod_to_equations; lia). lia.
    - rewrite <- (land_ones_mod _ 19 0x7ffff) by done.
      replace (imm19 / 2) with (imm19 >>> 1) by (rewrite Z.shiftr_div_pow2; done).
      fields. apply land_drop_bit0. }
  assert (Hd : d_instr_type d = INSTR_B_COND /\ d_cond d = Z.min cond 14 /\
               d_imm d = 4 * (imm19 / 2)).
  { unfold d. unfold_cascade. decide_masks Hop. rewrite H1, H2, H3. clear - Hc.
    cbn [d_cond set_imm set_cond].
    destruct (14 <? cond) eqn:E; [apply Z.ltb_lt in E | apply Z.ltb_ge in E];
      (split_and!; [reflexivity | cbn; lia | reflexivity]). }
  destruct Hd as (Hd1 & Hd2 & Hd3). split_and!; [done..|].
  rewrite Hd3. split; [intros; Z.div_mod_to_equations; lia | by intros [-> | ->]].
Qed.
Lemma decode_bcond_witness :
  d_imm (decoded_word (enc_bcond 16 1)) = 32 /\ d_cond (decoded_word (enc_bcond 16 1)) = 1.
Proof.
  destruct (decode_bcond 16 1) as (_ & H1 & H2 & _); [lia.. |]. split; [exact H2 | exact H1].
Defined.

(** What the branches decode to.  B and BL: their byte offset [4 * imm26], sign
    included, over the whole range.  CBZ and CBNZ: type, width and byte offset
    [4 * imm19], but the register tested is taken from bits 9-5 of the word, the low bits
    of the offset, whatever the operand [rt] is.  B.cond: the condition (NV read as AL),
    but an offset of [4 * (imm19 / 2)], the architecture's [4 * imm19] only for the
    offsets 0 and -1. *)
Theorem decode_branch_offsets link imm26 sf nz imm19 rt cond :
  - 2^25 <= imm26 < 2^25 -> 0 <= sf < 2 -> 0 <= nz < 2 -> - 2^17 <= imm19 < 2^17 -> 0 <= rt < 32 ->
  0 <= cond < 16 ->
  let b := decoded_word (enc_b link imm26) in
  let cbz := decoded_word (enc_cbz sf nz imm19 rt) in
  let bcond := decoded_word (enc_bcond imm19 cond) in
  (d_instr_type b = (if link then INSTR_BL else INSTR_B) /\ d_imm b = 4 * imm26) /\
  (d_instr_type cbz = (if nz =? 1 then INSTR_CBNZ else INSTR_CBZ) /\
   d_is_64bit cbz = sf /\ d_imm cbz = 4 * imm19 /\ d_rn cbz = imm19 mod 32 /\ d_rt cbz = 0) /\
  d_instr_type bcond = INSTR_B_COND /\ d_cond bcond = Z.min cond 14 /\
  d_imm bcond = 4 * (imm19 / 2) /\ (d_imm bcond = 4 * imm19 <-> imm19 = 0 \/ imm19 = -1).
Proof.
  intros Hb Hsf Hnz Hi Hrt Hc b cbz bcond. split; [|split].
  - destruct (decode_b_bl link imm26 Hb) as (H1 & H2 & _). by split.
  - apply decode_cbz; done || lia.
  - by apply decode_bcond.
Qed.
Lemma decode_branch_offsets_witness :
  d_imm (decoded_word (enc_b true (-1))) = -4 /\ d_rn (decoded_word (enc_cbz 1 1 (-2) 3)) = 30 /\
  d_imm (decoded_word (enc_bcond 5 1)) = 8.
Proof.
  destruct (decode_branch_offsets true (-1) 1 1 (-2) 3 1) as ((_ & H1) & (_ & _ & _ & H2 & _) & _); [lia.. |].
  destruct (decode_branch_offsets true (-1) 1 1 5 3 1) as (_ & _ & _ & _ & H3 & _); [lia.. |].
  exact (conj H1 (conj H2 H3)).
Defined.

(** Move wide: [opc] is 0 for MOVN, 2 for MOVZ, 3 for MOVK. *)
Definition enc_movw (sf opc hw imm16 rd : Z) : Z :=
  0x12800000 ||| ((sf &&& 1) <<< 31) ||| ((opc &&& 3) <<< 29) ||| ((hw &&& 3) <<< 21)
  ||| ((imm16 &&& 0xffff) <<< 5) ||| (rd &&& 0x1f).

(** Evaluate the right-hand side of a word equation. *)
Ltac eval_rhs H :=
  match type of H with ?a = ?b => let v := eval vm_compute in b in change (a = v) in H end.

Lemma cases_4 x : 0 <= x < 4 -> x = 0 \/ x = 1 \/ x = 2 \/ x = 3.
Proof. lia. Qed.

(** A known mask determines every mask inside it. *)
Lemma mask_weaken op cm cv m c :
  op &&& cm = cv -> cm &&& m = m /\ cv &&& m = c -> op &&& m = c.
Proof. intros Hop [Hm Hc]. rewrite (mask_known op cm cv m Hop Hm). exact Hc. Qed.

(** The range checks of [decode_dp_register] never fire. *)
Lemma decode_dp_register_eq op d :
  decode_dp_register op d =
    let d := set_is_64bit ((op >>> 31) &&& 1) (set_rm ((op >>> 16) &&& 0x1f)
               (set_rn ((op >>> 5) &&& 0x1f) (set_rd (op &&& 0x1f) d))) in
    (ARM2X86_OK,
     default (done_as INSTR_DATAPROC d)
       (first_block [decode_dp_reg_forms; decode_dp_bitfield; decode_dp_imm_forms] op d)).
Proof.
  unfold decode_dp_register. cbn [d_rd d_rn d_rm set_rd set_rn set_rm set_is_64bit].
  rewrite !reg_in_range. cbn [orb first_block].
  repeat case_match; simplify_eq; done.
Qed.

Lemma enc_movw_fields sf opc hw imm16 rd :
  let op := enc_movw sf opc hw imm16 rd in
  op &&& 0xffe00000
    = 0x12800000 ||| ((sf &&& 1) <<< 31) ||| ((opc &&& 3) <<< 29) ||| ((hw &&& 3) <<< 21) /\
  op &&& 0x1f = rd &&& 0x1f /\ (op >>> 5) &&& 0xffff = imm16 &&& 0xffff /\
  (op >>> 31) &&& 1 = sf &&& 1 /\ (op >>> 29) &&& 3 = opc &&& 3 /\ (op >>> 21) &&& 3 = hw &&& 3.
Proof. cbv zeta. unfold enc_movw. split_and!; fields; reflexivity. Qed.

Lemma movw_reaches_dp op :
  op &&& 0x1f800000 = 0x12800000 ->
  decoded_word op = (decode_dp_register op zero_instruction).2 /\
  decode_dp_reg_forms op = (fun _ => None) /\ decode_dp_bitfield op = (fun _ => None).
Proof.
  intros Hop. split_and!.
  - unfold_cascade. decide_masks Hop. reflexivity.
  - unfold decode_dp_reg_forms. decide_masks Hop. reflexivity.
  - unfold decode_dp_bitfield. decide_masks Hop. reflexivity.
Qed.

Lemma addsub_reaches_dp op :
  op &&& 0x1fe00000 = 0x0b000000 ->
  decoded_word op = (decode_dp_register op zero_instruction).2.
Proof. intros Hop. unfold_cascade. decide_masks Hop. reflexivity. Qed.

Lemma ldst_reaches_loadstore op :
  op &&& 0x3f000000 = 0x39000000 ->
  decoded_word op = (decode_loadstore op zero_instruction).2.
Proof. intros Hop. unfold_cascade. decide_masks Hop. reflexivity. Qed.

(** MOVN, MOVZ and MOVK without a shift decode to their type, width, register
    and 16-bit immediate; with a shift of 16, 32 or 48 ([hw] not 0) the same words
    decode to the catch-all type, without immediate. *)
Theorem decode_movw sf opc hw imm16 rd :
  0 <= sf < 2 -> opc = 0 \/ opc = 2 \/ opc = 3 -> 0 <= hw < 4 ->
  0 <= imm16 < 2^16 -> 0 <= rd < 32 ->
  let d := decoded_word (enc_movw sf opc hw imm16 rd) in
  d_rd d = rd /\ d_is_64bit d = sf /\
  (if hw =? 0
   then d_instr_type d = (if opc =? 0 then INSTR_MOVN else if opc =? 2 then INSTR_MOVZ else INSTR_MOVK)
        /\ d_imm d = imm16 /\ d_shift_imm d = 0
   else d_instr_type d = INSTR_DATAPROC /\ d_imm d = 0).
Proof.
  intros Hsf Hopc Hhw Hi Hrd d. unfold d. clear d.
  destruct (enc_movw_fields sf opc hw imm16 rd) as (Hop & H1 & H2 & H3 & H4 & H5).
  rewrite (land_small rd 5) in H1 by done. rewrite (land_small imm16 16) in H2 by done.
  remember (enc_movw sf opc hw imm16 rd) as op. clear Heqop.
  apply bit_cases in Hsf. apply cases_4 in Hhw.
  assert (Hr : op &&& 0x1f800000 = 0x12800000).
  { eapply mask_weaken; [exact Hop|].
    destruct Hsf as [-> | ->], Hopc as [-> | [-> | ->]], Hhw as [-> | [-> | [-> | ->]]];
      split; reflexivity. }
  destruct (movw_reaches_dp op Hr) as (-> & Hf & Hb).
  rewrite decode_dp_register_eq. cbv zeta. cbn [first_block]. rewrite Hf, Hb, H1, H3. clear Hf Hb Hr.
  destruct Hsf as [-> | ->]; destruct Hopc as [-> | [-> | ->]];
    destruct Hhw as [-> | [-> | [-> | ->]]];
    (eval_rhs Hop; eval_rhs H4; eval_rhs H5; unfold decode_dp_imm_forms;
     decide_masks Hop; rewrite ?H1, ?H2, ?H3, ?H4, ?H5;
     cbn [Z.eqb Pos.eqb]; split_and!; reflexivity).
Qed.
Lemma decode_movw_witness :
  d_instr_type (decoded_word (enc_movw 1 2 0 42 0)) = INSTR_MOVZ /\
  d_imm (decoded_word (enc_movw 1 2 0 42 0)) = 42 /\
  d_instr_type (decoded_word (enc_movw 1 2 1 42 0)) = INSTR_DATAPROC.
Proof.
  destruct (decode_movw 1 2 0 42 0) as (_ & _ & H1 & H2 & _); [lia | tauto | lia.. |].
  destruct (decode_movw 1 2 1 42 0) as (_ & _ & H3 & _); [lia | tauto | lia.. |].
  split; [exact H1 | split; [exact H2 | exact H3]].
Defined.

(** Add and subtract (shifted register), shift type LSL. *)
Definition enc_addsub (sf sub S rm imm6 rn rd : Z) : Z :=
  0x0b000000 ||| ((sf &&& 1) <<< 31) ||| ((sub &&& 1) <<< 30) ||| ((S &&& 1) <<< 29)
  ||| ((rm &&& 0x1f) <<< 16) ||| ((imm6 &&& 0x3f) <<< 10) ||| ((rn &&& 0x1f) <<< 5) ||| (rd &&& 0x1f).

Lemma enc_addsub_fields sf sub S rm imm6 rn rd :
  let op := enc_addsub sf sub S rm imm6 rn rd in
  op &&& 0xffe00000
    = 0x0b000000 ||| ((sf &&& 1) <<< 31) ||| ((sub &&& 1) <<< 30) ||| ((S &&& 1) <<< 29) /\
  op &&& 0x1f = rd &&& 0x1f /\ (op >>> 5) &&& 0x1f = rn &&& 0x1f /\
  (op >>> 16) &&& 0x1f = rm &&& 0x1f /\ (op >>> 10) &&& 0x3f = imm6 &&& 0x3f /\
  (op >>> 31) &&& 1 = sf &&& 1 /\ (op >>> 22) &&& 3 = 0 /\
  (op >>> 30) &&& 3 = (sub &&& 1) ||| ((sf &&& 1) <<< 1).
Proof.
  cbv zeta. unfold enc_addsub. split_and!; fields; try reflexivity. by rewrite Z.lor_comm.
Qed.

(** ADD and SUB of shifted registers decode their three registers, shift
    amount and width, but the type is chosen by bits 31-30 together: it is ADD for
    the 32-bit addition only, and the 64-bit ADD (and ADDS) decodes as SUB. *)
Theorem decode_addsub sf sub S rm imm6 rn rd :
  0 <= sf < 2 -> 0 <= sub < 2 -> 0 <= S < 2 -> 0 <= rm < 32 -> 0 <= imm6 < 64 ->
  0 <= rn < 32 -> 0 <= rd < 32 ->
  let d := decoded_word (enc_addsub sf sub S rm imm6 rn rd) in
  d_rd d = rd /\ d_rn d = rn /\ d_rm d = rm /\ d_shift_imm d = imm6 /\ d_shift_type d = 0 /\
  d_is_64bit d = sf /\
  d_instr_type d = (if (sf =? 0) && (sub =? 0) then INSTR_ADD else INSTR_SUB).
Proof.
  intros Hsf Hsub HS Hrm Hi Hrn Hrd d. unfold d. clear d.
  destruct (enc_addsub_fields sf sub S rm imm6 rn rd) as (Hop & H1 & H2 & H3 & H4 & H5 & H6 & H7).
  rewrite (land_small rd 5) in H1 by done. rewrite (land_small rn 5) in H2 by done.
  rewrite (land_small rm 5) in H3 by done. rewrite (land_small imm6 6) in H4 by done.
  remember (enc_addsub sf sub S rm imm6 rn rd) as op. clear Heqop.
  apply bit_cases in Hsf. apply bit_cases in Hsub. apply bit_cases in HS.
  assert (Hr : op &&& 0x1fe00000 = 0x0b000000).
  { eapply mask_weaken; [exact Hop|].
    destruct Hsf as [-> | ->], Hsub as [-> | ->], HS as [-> | ->]; split; reflexivity. }
  rewrite (addsub_reaches_dp op Hr), decode_dp_register_eq.
  cbv zeta. cbn [first_block]. unfold decode_dp_reg_forms.
  decide_masks Hr. rewrite H1, H2, H3, H4, H5, H6, H7.
  destruct Hsf as [-> | ->], Hsub as [-> | ->]; split_and!; reflexivity.
Qed.
Lemma decode_addsub_witness :
  d_instr_type (decoded_word (enc_addsub 1 0 0 2 0 1 0)) = INSTR_SUB /\
  d_instr_type (decoded_word (enc_addsub 0 0 0 2 0 1 0)) = INSTR_ADD.
Proof.
  destruct (decode_addsub 1 0 0 2 0 1 0) as (_ & _ & _ & _ & _ & _ & H1); [lia.. |].
  destruct (decode_addsub 0 0 0 2 0 1 0) as (_ & _ & _ & _ & _ & _ & H2); [lia.. |].
  split; [exact H1 | exact H2].
Defined.

(** Load/store register, unsigned scaled offset. *)
Definition enc_ldst (size opc imm12 rn rt : Z) : Z :=
  0x39000000 ||| ((size &&& 3) <<< 30) ||| ((opc &&& 3) <<< 22) ||| ((imm12 &&& 0xfff) <<< 10)
  ||| ((rn &&& 0x1f) <<< 5) ||| (rt &&& 0x1f).

Lemma enc_ldst_fields size opc imm12 rn rt :
  let op := enc_ldst size opc imm12 rn rt in
  op &&& 0xffc00000 = 0x39000000 ||| ((size &&& 3) <<< 30) ||| ((opc &&& 3) <<< 22) /\
  op &&& 0x1f = rt &&& 0x1f /\ (op >>> 5) &&& 0x1f = rn &&& 0x1f /\
  (op >>> 10) &&& 0xfff = imm12 &&& 0xfff /\ (op >>> 30) &&& 3 = size &&& 3 /\
  (op >>> 22) &&& 1 = opc &&& 1 /\ (op >>> 31) &&& 1 = (size >>> 1) &&& 1.
Proof. cbv zeta. unfold enc_ldst. split_and!; fields; reflexivity. Qed.

(** A load or store with an unsigned offset decodes its base, its transfer
    register and the byte offset [imm12 * 2^size]; it is a load exactly when the
    low bit of [opc] is set, so the sign-extending loads of [opc] 2 become stores. *)
Theorem decode_ldst_unsigned size opc imm12 rn rt :
  0 <= size < 4 -> 0 <= opc < 4 -> 0 <= imm12 < 4096 -> 0 <= rn < 32 -> 0 <= rt < 32 ->
  let d := decoded_word (enc_ldst size opc imm12 rn rt) in
  d_instr_type d = (if opc mod 2 =? 1 then INSTR_LDR else INSTR_STR) /\
  d_rt d = rt /\ d_rn d = rn /\ d_imm d = imm12 * 2^size /\ d_is_64bit d = b2z (size =? 3).
Proof.
  intros Hs Ho Hi Hrn Hrt d. unfold d. clear d.
  destruct (enc_ldst_fields size opc imm12 rn rt) as (Hop & H1 & H2 & H3 & H4 & H5 & H6).
  rewrite (land_small rt 5) in H1 by done. rewrite (land_small rn 5) in H2 by done.
  rewrite (land_small imm12 12) in H3 by done.
  remember (enc_ldst size opc imm12 rn rt) as op. clear Heqop.
  assert (Him : s32 (u32 (imm12 <<< size)) = imm12 * 2^size).
  { assert (1 <= 2^size <= 8) by (apply cases_4 in Hs; destruct_or! Hs; subst; lia).
    rewrite Z.shiftl_mul_pow2, u32_small, s32_small by nia. done. }
  apply cases_4 in Hs. apply cases_4 in Ho.
  assert (Hr : op &&& 0x3f000000 = 0x39000000).
  { eapply mask_weaken; [exact Hop|].
    destruct Hs as [-> | [-> | [-> | ->]]], Ho as [-> | [-> | [-> | ->]]]; split; reflexivity. }
  rewrite (ldst_reaches_loadstore op Hr). unfold decode_loadstore.
  decide_masks Hr. rewrite H1, H2, H3, H4, H5, H6. cbn [snd].
  rewrite (land_small size 2) by (destruct_or! Hs; subst; done). rewrite Him.
  destruct Hs as [-> | [-> | [-> | ->]]], Ho as [-> | [-> | [-> | ->]]]; split_and!; reflexivity.
Qed.
Lemma decode_ldst_unsigned_witness :
  d_imm (decoded_word (enc_ldst 3 1 1 1 1)) = 8 /\
  d_instr_type (decoded_word (enc_ldst 2 2 1 1 1)) = INSTR_STR.
Proof.
  destruct (decode_ldst_unsigned 3 1 1 1 1) as (_ & _ & _ & H1 & _); [lia.. |].
  destruct (decode_ldst_unsigned 2 2 1 1 1) as (H2 & _); [lia.. |].
  split; [exact H1 | exact H2].
Defined.

(** ** What the decoder can return *)

(** Every field of a decoded instruction is in the range its readers assume. *)
Record in_range (d : DecodedInstruction) : Prop := {
  range_rd : 0 <= d_rd d < 32;
  range_rn : 0 <= d_rn d < 32;
  range_rm : 0 <= d_rm d < 32;
  range_rt : 0 <= d_rt d < 32;
  range_rt2 : 0 <= d_rt2 d < 32;
  range_cond : 0 <= d_cond d < 16;
  range_shift_type : 0 <= d_shift_type d < 4;
  range_shift_imm : 0 <= d_shift_imm d < 64;
  range_imm : - 2^31 <= d_imm d < 2^31;
  range_64bit : 0 <= d_is_64bit d < 2;
  range_decoded : 0 <= d_decoded d < 2 }.

Lemma zero_in_range : in_range zero_instruction.
Proof. split; cbn; lia. Qed.

Section setters.
Context (d : DecodedInstruction) (Hd : in_range d).
Ltac setter := destruct Hd; split; cbn; done || lia.
Lemma in_range_opcode v : in_range (set_opcode v d). Proof. setter. Qed.
Lemma in_range_pc v : in_range (set_pc v d). Proof. setter. Qed.
Lemma in_range_type v : in_range (set_instr_type v d). Proof. setter. Qed.
Lemma in_range_rd v : in_range (set_rd (v &&& 0x1f) d).
Proof. pose proof (land_range v 0x1f). setter. Qed.
Lemma in_range_rn v : in_range (set_rn (v &&& 0x1f) d).
Proof. pose proof (land_range v 0x1f). setter. Qed.
Lemma in_range_rm v : in_range (set_rm (v &&& 0x1f) d).
Proof. pose proof (land_range v 0x1f). setter. Qed.
Lemma in_range_rt v : in_range (set_rt (v &&& 0x1f) d).
Proof. pose proof (land_range v 0x1f). setter. Qed.
Lemma in_range_rt2 v : in_range (set_rt2 (v &&& 0x1f) d).
Proof. pose proof (land_range v 0x1f). setter. Qed.
Lemma in_range_rn0 : in_range (set_rn 0 d). Proof. setter. Qed.
Lemma in_range_rm0 : in_range (set_rm 0 d). Proof. setter. Qed.
Lemma in_range_cond v : in_range (set_cond (v &&& 0xf) d).
Proof. pose proof (land_range v 0xf). setter. Qed.
Lemma in_range_cond14 : in_range (set_cond 14 d). Proof. setter. Qed.
Lemma in_range_shift_type v : in_range (set_shift_type (v &&& 3) d).
Proof. pose proof (land_range v 3). setter. Qed.
Lemma in_range_shift_imm v : in_range (set_shift_imm (v &&& 0x3f) d).
Proof. pose proof (land_range v 0x3f). setter. Qed.
Lemma in_range_shift_imm5 v : in_range (set_shift_imm (v &&& 0x1f) d).
Proof. pose proof (land_range v 0x1f). setter. Qed.
Lemma in_range_shift_imm16 v : in_range (set_shift_imm ((v &&& 3) * 16) d).
Proof. pose proof (land_range v 3). setter. Qed.
Lemma in_range_imm v : - 2^31 <= v < 2^31 -> in_range (set_imm v d).
Proof. intros. setter. Qed.
Lemma in_range_imm16 v : in_range (set_imm (v &&& 0xffff) d).
Proof. pose proof (land_range v 0xffff). apply in_range_imm. lia. Qed.
Lemma in_range_imm6 v : in_range (set_imm (v &&& 0x3f) d).
Proof. pose proof (land_range v 0x3f). apply in_range_imm. lia. Qed.
Lemma in_range_imm_s32 v : in_range (set_imm (s32 v) d).
Proof. apply in_range_imm. apply s32_range. Qed.
Lemma in_range_imm_sext v n : in_range (set_imm (sign_extend64 v n) d).
Proof. apply in_range_imm. apply s32_range. Qed.
Lemma in_range_imm7 v (b : bool) :
  in_range (set_imm (sign_extend64 (v &&& 0x7f) 7 <<< (if b then 3 else 2)) d).
Proof.
  pose proof (land_range v 0x7f). apply in_range_imm.
  rewrite sign_extend64_spec, Z.shiftl_mul_pow2 by (destruct b; lia).
  destruct (_ <? _), b; lia.
Qed.
Lemma in_range_imm7_8 v : in_range (set_imm (sign_extend64 (v &&& 0x7f) 7 <<< 3) d).
Proof. exact (in_range_imm7 v true). Qed.
Lemma in_range_imm7_4 v : in_range (set_imm (sign_extend64 (v &&& 0x7f) 7 <<< 2) d).
Proof. exact (in_range_imm7 v false). Qed.
Lemma in_range_64bit v : in_range (set_is_64bit (v &&& 1) d).
Proof. pose proof (land_range v 1). setter. Qed.
Lemma in_range_64bit_b (b : bool) : in_range (set_is_64bit (b2z b) d).
Proof. destruct b; setter. Qed.
Lemma in_range_decoded0 : in_range (set_decoded 0 d). Proof. setter. Qed.
Lemma in_range_decoded1 : in_range (set_decoded 1 d). Proof. setter. Qed.
End setters.

Create HintDb decoded.
#[export] Hint Resolve zero_in_range in_range_opcode in_range_pc in_range_type in_range_rd
  in_range_rn in_range_rm in_range_rt in_range_rt2 in_range_rn0 in_range_rm0 in_range_cond
  in_range_cond14 in_range_shift_type in_range_shift_imm in_range_shift_imm5
  in_range_shift_imm16 in_range_imm16 in_range_imm6 in_range_imm_s32 in_range_imm_sext
  in_range_imm7_8 in_range_imm7_4 in_range_64bit in_range_64bit_b in_range_decoded0 in_range_decoded1 : decoded.

(** A block of the cascade keeps the fields in range. *)
Definition keeps_range (b : Z -> DecodedInstruction -> option DecodedInstruction) : Prop :=
  forall op d r, in_range d -> b op d = Some r -> in_range r.

Ltac block_range :=
  intros op d r Hd; cbv zeta; unfold done_as, undecoded_as;
  repeat match goal with |- context [if ?b then _ else _] =>
           lazymatch b with context [if _ then _ else _] => fail | _ => destruct b end end;
  intros; simplify_eq; eauto 20 with decoded nocore.

Lemma branches_range : keeps_range decode_branches.
Proof. unfold keeps_range, decode_branches. block_range. Qed.
Lemma system_range : keeps_range decode_system.
Proof. unfold keeps_range, decode_system. block_range. Qed.
Lemma atomic_range : keeps_range decode_atomic.
Proof. unfold keeps_range, decode_atomic. block_range. Qed.
Lemma simd_fields_range op d : in_range d -> in_range (simd_fields op d).
Proof. intros. unfold simd_fields. eauto 20 with decoded nocore. Qed.
Lemma neon_int_range : keeps_range decode_neon_int.
Proof. unfold keeps_range, decode_neon_int. intros op d r Hd.
  destruct (_ || _); intros; simplify_eq. by apply in_range_type, simd_fields_range. Qed.
Lemma neon_fp_range : keeps_range decode_neon_fp.
Proof. unfold keeps_range, decode_neon_fp. intros op d r Hd.
  destruct (_ =? _); intros; simplify_eq. by apply in_range_type, simd_fields_range. Qed.
Lemma simd_ldst_range : keeps_range decode_simd_ldst.
Proof. unfold keeps_range, decode_simd_ldst. block_range. Qed.
Lemma crypto_range : keeps_range decode_crypto.
Proof. unfold keeps_range, decode_crypto. block_range. Qed.
Lemma misc_range : keeps_range decode_misc.
Proof. unfold keeps_range, decode_misc. block_range. Qed.
Lemma dp_reg_forms_range : keeps_range decode_dp_reg_forms.
Proof. unfold keeps_range, decode_dp_reg_forms. block_range. Qed.
Lemma dp_imm_forms_range : keeps_range decode_dp_imm_forms.
Proof. unfold keeps_range, decode_dp_imm_forms. block_range. Qed.
Lemma dp_bitfield_range : keeps_range decode_dp_bitfield.
Proof.
  unfold keeps_range, decode_dp_bitfield. intros op d r Hd. cbv zeta.
  destruct (_ || _); intros; simplify_eq. eauto 20 with decoded nocore.
Qed.

Lemma first_block_range blocks : Forall keeps_range blocks -> keeps_range (first_block blocks).
Proof.
  induction 1 as [|b bs Hb _ IH]; intros op d r Hd; cbn [first_block]; [done|].
  destruct (b op d) eqn:E; intros Hr; simplify_eq; [by apply (Hb op d) | by apply (IH op d)].
Qed.

Lemma loadstore_range op d : in_range d -> in_range (decode_loadstore op d).2.
Proof.
  intros Hd. unfold decode_loadstore. cbv zeta. unfold done_as, undecoded_as.
  repeat case_match; cbn [snd]; eauto 20 with decoded nocore.
Qed.

Lemma dp_register_range op d : in_range d -> in_range (decode_dp_register op d).2.
Proof.
  intros Hd. rewrite decode_dp_register_eq. cbv zeta. set (d' := set_is_64bit _ _).
  assert (Hd' : in_range d') by (unfold d'; eauto 20 with decoded nocore).
  cbn [snd]. destruct (first_block _ op d') as [r|] eqn:E; cbn [default].
  - revert E. apply first_block_range; [|done].
    eauto using Forall_cons_2, Forall_nil_2, dp_reg_forms_range, dp_bitfield_range, dp_imm_forms_range.
  - unfold done_as; eauto 20 with decoded nocore.
Qed.

Lemma decode_word_range op d : in_range d -> in_range (decode_word op d).2.
Proof.
  intros Hd. unfold decode_word, undecoded_as.
  destruct (_ || _); cbn [snd]; [eauto with decoded nocore|].
  destruct (first_block [decode_branches; _] op d) eqn:E1; cbn [snd].
  { revert E1. apply first_block_range; [|done].
    eauto using Forall_cons_2, Forall_nil_2, branches_range, system_range. }
  destruct (is_loadstore op); [by apply loadstore_range|].
  destruct (first_block (decode_atomic :: _) op d) eqn:E2; cbn [snd]; [|by apply dp_register_range].
  revert E2. apply first_block_range; [|done].
  eauto 10 using Forall_cons_2, Forall_nil_2, atomic_range, neon_int_range, neon_fp_range,
    simd_ldst_range, crypto_range, misc_range.
Qed.

Lemma decode_word_ok op d : (decode_word op d).1 = ARM2X86_OK.
Proof.
  unfold decode_word, decode_loadstore. rewrite decode_dp_register_eq. cbv zeta.
  repeat case_match; reflexivity.
Qed.

(** C14: on non-null arguments and an aligned, non-zero code address the decoder
    always succeeds, whatever the word: it overwrites the whole structure (the old
    contents do not matter), records the word and the address, and every field is
    within the range its readers assume. *)
Theorem arm2x86_decode_total mem pc old :
  pc <> 0 -> pc mod 4 = 0 ->
  exists d, arm2x86_decode (Some tt) mem pc (Some old) = (ARM2X86_OK, Some d) /\ in_range d /\
    d = (decode_word (read_le32 mem pc) (set_opcode (read_le32 mem pc) (set_pc pc zero_instruction))).2.
Proof.
  intros Hpc Hal. unfold arm2x86_decode. rewrite (proj2 (Z.eqb_neq pc 0) Hpc).
  unfold is_valid_instruction_alignment. rewrite (land_ones_mod pc 2) by done.
  change (2^2) with 4. rewrite Hal. cbn [Z.eqb negb]. cbv zeta.
  set (d0 := set_opcode _ _).
  pose proof (decode_word_ok (read_le32 mem pc) d0) as Hrc.
  pose proof (decode_word_range (read_le32 mem pc) d0) as Hr.
  destruct (decode_word _ d0) as [rc d]. cbn in *. subst rc.
  exists d. split_and!; [done| |done]. apply Hr. unfold d0. eauto with decoded nocore.
Qed.
Lemma arm2x86_decode_total_witness :
  4 <> 0 /\ exists d, arm2x86_decode (Some tt) (fun _ => 0x55) 4 (Some zero_instruction)
    = (ARM2X86_OK, Some d) /\ in_range d.
Proof.
  split; [lia|]. destruct (arm2x86_decode_total (fun _ => 0x55) 4 zero_instruction) as (d & H1 & H2 & _);
    [lia | reflexivity |]. exists d. split; [exact H1 | exact H2].
Defined.

(** A null context, a null destination, a null or an unaligned code address is
    refused with [ARM2X86_ERR_INVALID_PARAM] and the destination is left as it was. *)
Theorem arm2x86_decode_errors ctx mem pc dst :
  ctx = None \/ dst = None \/ pc = 0 \/ pc mod 4 <> 0 ->
  arm2x86_decode ctx mem pc dst = (ARM2X86_ERR_INVALID_PARAM, dst).
Proof.
  intros H. unfold arm2x86_decode.
  destruct ctx, dst; try done. destruct (pc =? 0) eqn:E; [done|]. apply Z.eqb_neq in E.
  destruct H as [H | [H | [H | H]]]; try done.
  unfold is_valid_instruction_alignment. rewrite (land_ones_mod pc 2) by done.
  change (2^2) with 4. by rewrite (proj2 (Z.eqb_neq _ 0) H).
Qed.
Lemma arm2x86_decode_errors_witness :
  arm2x86_decode (Some tt) (fun _ => 0) 6 (Some zero_instruction)
  = (ARM2X86_ERR_INVALID_PARAM, Some zero_instruction).
Proof. apply arm2x86_decode_errors. right. right. right. vm_compute. discriminate. Defined.

(** ** The instruction types the decoder produces *)

Lemma field_known op cm cv k m :
  op &&& cm = cv -> 0 <= k -> cm &&& (m <<< k) = m <<< k -> (op >>> k) &&& m = (cv >>> k) &&& m.
Proof.
  intros <- Hk Hm. apply Z.bits_inj'. intros i Hi.
  rewrite !Z.land_spec, !Z.shiftr_spec, Z.land_spec by lia.
  destruct (Z.testbit m i) eqn:E; [|by rewrite !andb_false_r].
  assert (Hc : Z.testbit (cm &&& (m <<< k)) (i + k) = Z.testbit (m <<< k) (i + k)) by by rewrite Hm.
  rewrite Z.land_spec, !Z.shiftl_spec, Z.add_simpl_r, E, andb_true_r in Hc by lia.
  by rewrite Hc, !andb_true_r.
Qed.

(** [t] is one of the types [S]; a block returns only the types [S] on words in [P]. *)
Definition one_of (S : list Z) (t : Z) : bool := existsb (Z.eqb t) S.
Definition block_types (P : Z -> Prop) (S : list Z)
    (b : Z -> DecodedInstruction -> option DecodedInstruction) : Prop :=
  forall op d r, P op -> b op d = Some r -> one_of S (d_instr_type r) = true.

Definition any_word (op : Z) : Prop := True.
Definition not_loadstore (op : Z) : Prop := is_loadstore op = false.

Definition branch_types : list Z :=
  [INSTR_BL; INSTR_B; INSTR_BR; INSTR_BLR; INSTR_RET; INSTR_B_COND; INSTR_CBZ; INSTR_CBNZ;
   INSTR_TBZ; INSTR_TBNZ].
Definition system_types : list Z :=
  [INSTR_MRS; INSTR_MSR; INSTR_DMB; INSTR_DSB; INSTR_ISB; INSTR_DATAPROC].
Definition neon_int_types : list Z :=
  [INSTR_NEON_ADD; INSTR_NEON_SUB; INSTR_NEON_AND; INSTR_NEON_ORR; INSTR_NEON_EOR;
   INSTR_NEON_MUL; INSTR_NEON_BSL; INSTR_NEON_EXT; INSTR_NEON_INS; INSTR_NEON_SHL].
Definition neon_fp_types : list Z :=
  [INSTR_NEON_FADD; INSTR_NEON_FSUB; INSTR_NEON_FMUL; INSTR_NEON_FDIV; INSTR_NEON_FMAX;
   INSTR_NEON_FMIN; INSTR_NEON_FMLA; INSTR_NEON_FABS; INSTR_NEON_FNEG; INSTR_NEON_FSQRT;
   INSTR_NEON_FCVT; INSTR_NEON_FMLS].
Definition misc_types : list Z := [INSTR_CRC32; INSTR_FMOV_REG; INSTR_ERET; INSTR_BRK; INSTR_HLT].
Definition dp_types : list Z :=
  [INSTR_AND; INSTR_BIC; INSTR_ORR; INSTR_ORN; INSTR_ADD; INSTR_SUB; INSTR_ADC; INSTR_UDIV;
   INSTR_SDIV; INSTR_MUL; INSTR_SMULH; INSTR_UMULH; INSTR_MADD; INSTR_CSEL; INSTR_CCMN; INSTR_CCMP;
   INSTR_CSET; INSTR_DATAPROC; INSTR_ASR; INSTR_LSL; INSTR_SBFM; INSTR_LSR; INSTR_UBFM;
   INSTR_SXTB; INSTR_SXTH; INSTR_UXTB; INSTR_UXTH; INSTR_MOVN; INSTR_MOVZ; INSTR_MOVK; INSTR_CRC32].
Definition loadstore_types : list Z :=
  [INSTR_LDR; INSTR_STR; INSTR_LDR_LITERAL; INSTR_PRFM; INSTR_STP; INSTR_UNKNOWN].

(** Every type some word decodes to. *)
Definition reachable_types : list Z :=
  branch_types ++ system_types ++ neon_int_types ++ neon_fp_types ++ misc_types ++ dp_types
  ++ loadstore_types.

(** Split on the tests of a block, keeping what each test says of the word. *)
Ltac test_cases :=
  repeat match goal with
  | |- context [if ?b then _ else _] =>
    lazymatch b with
    | context [if _ then _ else _] => fail
    | (_ || _)%bool => destruct b eqn:?
    | (_ && _)%bool => destruct b eqn:?
    | (Z.land _ _ =? _) => let E := fresh "E" in destruct b eqn:E; [apply Z.eqb_eq in E|]
    | _ => destruct b eqn:?
    end
  end.
Ltac known_type := intros; simplify_eq; vm_compute; reflexivity.

Lemma branches_types : block_types any_word branch_types decode_branches.
Proof. intros op d r _. unfold decode_branches. cbv zeta. test_cases; known_type. Qed.

Lemma hint_crm op : op &&& 0xffff001f = 0xd503001f -> (op >>> 16) &&& 0xf = 3.
Proof. intros E. by rewrite (field_known _ _ _ 16 0xf E). Qed.

Lemma system_word op :
  op &&& 0xff000000 = 0xd5000000 -> (op =? ARM64_SVC) || (op =? ARM64_HVC) || (op =? ARM64_SMC) = false.
Proof. intros E. unfold ARM64_SVC, ARM64_HVC, ARM64_SMC. by decide_masks E. Qed.

Lemma system_types_ok : block_types any_word system_types decode_system.
Proof.
  intros op d r _. unfold decode_system. cbv zeta.
  destruct (_ =? 0xd5000000) eqn:E; [apply Z.eqb_eq in E | done].
  rewrite (system_word op E). do 2 (destruct (_ &&& _ =? _); [known_type|]).
  destruct (_ || _); [repeat case_match; known_type|].
  destruct (_ &&& _ =? _) eqn:E2; [apply Z.eqb_eq in E2 | done].
  rewrite (hint_crm op E2). known_type.
Qed.

Lemma neon_int_types_ok : block_types any_word neon_int_types decode_neon_int.
Proof. intros op d r _. unfold decode_neon_int. cbv zeta. repeat case_match; known_type. Qed.
Lemma neon_fp_types_ok : block_types any_word neon_fp_types decode_neon_fp.
Proof. intros op d r _. unfold decode_neon_fp. cbv zeta. repeat case_match; known_type. Qed.

(** Words with bit 27 set and bit 25 clear are taken by the load/store test. *)
Lemma loadstore_shadows op m c :
  is_loadstore op = false -> m &&& 0x0a000000 = 0x0a000000 -> c &&& 0x0a000000 = 0x08000000 ->
  ((op &&& m) =? c) = false.
Proof.
  unfold is_loadstore. rewrite !orb_false_iff. intros [[[H _] _] _] Hm Hc.
  apply Z.eqb_neq. intros E. apply Z.eqb_neq in H. apply H.
  by rewrite (mask_known op m c _ E Hm).
Qed.
Lemma atomic_shadowed op d : is_loadstore op = false -> decode_atomic op d = None.
Proof. intros H. unfold decode_atomic.
  destruct (_ =? _) eqn:E; [|done]. apply Z.eqb_eq in E.
  unfold is_loadstore in H. revert H. decide_masks E. done. Qed.
Lemma simd_ldst_shadowed op d : is_loadstore op = false -> decode_simd_ldst op d = None.
Proof. intros H. unfold decode_simd_ldst. by rewrite !(loadstore_shadows op) by done. Qed.

Lemma crypto_types_ok : block_types not_loadstore misc_types decode_crypto.
Proof.
  intros op d r H. unfold decode_crypto. cbv zeta.
  destruct (_ =? 0x1a000000) eqn:E.
  - apply Z.eqb_eq in E.
    assert (Hc : (op >>> 10) &&& 7 = 0) by exact (field_known _ _ _ 10 7 E ltac:(done) eq_refl).
    rewrite Hc. cbn [Z.eqb orb]. known_type.
  - rewrite !(loadstore_shadows op) by done. done.
Qed.
Lemma misc_types_ok : block_types any_word misc_types decode_misc.
Proof. intros op d r _. unfold decode_misc. cbv zeta. test_cases; known_type. Qed.

Lemma dp_reg_forms_types : block_types any_word dp_types decode_dp_reg_forms.
Proof.
  intros op d r _. unfold decode_dp_reg_forms. cbv zeta.
  destruct (_ =? 0x0a000000); [repeat case_match; known_type|].
  destruct (_ =? 0x0b000000); [repeat case_match; known_type|].
  destruct (_ =? 0x1a000000) eqn:E.
  { apply Z.eqb_eq in E. rewrite (mask_known _ _ _ 0x600000 E) by done. known_type. }
  clear E. test_cases; known_type.
Qed.

Lemma dp_bitfield_types : block_types any_word dp_types decode_dp_bitfield.
Proof.
  intros op d r _. unfold decode_dp_bitfield. cbv zeta.
  destruct (_ || _) eqn:E; [|done].
  assert (Ho : (op >>> 29) &&& 3 = 0 \/ (op >>> 29) &&& 3 = 2).
  { apply orb_true_iff in E as [E|E]; apply Z.eqb_eq in E;
      rewrite (field_known _ _ _ 29 3 E) by done; [by left | by right]. }
  intros ?; simplify_eq. cbn [d_instr_type set_decoded set_is_64bit set_instr_type].
  cbn [d_shift_imm d_imm set_shift_imm set_imm].
  generalize ((op >>> 22) &&& 1 =? 0) ((op >>> 16) &&& 0x3f =? 0) ((op >>> 16) &&& 0x3f =? 31)
    ((op >>> 10) &&& 0x3f =? 7) ((op >>> 10) &&& 0x3f =? 15).
  intros b1 b2 b3 b4 b5.
  destruct Ho as [-> | ->], b1, b2, b3, b4, b5; reflexivity.
Qed.

Lemma dp_imm_forms_types : block_types any_word dp_types decode_dp_imm_forms.
Proof.
  intros op d r _. unfold decode_dp_imm_forms. cbv zeta.
  destruct (_ || _); [repeat case_match; known_type|].
  destruct (_ || _); [repeat case_match; known_type|].
  destruct (_ =? 0x1ac00000) eqn:E; [|done]. apply Z.eqb_eq in E.
  assert (Hc : (op >>> 10) &&& 7 = 0) by exact (field_known _ _ _ 10 7 E ltac:(done) eq_refl).
  rewrite Hc. cbn [Z.eqb orb]. known_type.
Qed.

Lemma one_of_reachable S t : one_of S t = true -> incl S reachable_types -> one_of reachable_types t = true.
Proof.
  unfold one_of. rewrite !existsb_exists. intros (x & Hx & E) Hi. exists x. auto.
Qed.

(** A list is included in another, by computation. *)
Lemma incl_check (S T : list Z) : forallb (fun t => one_of T t) S = true -> incl S T.
Proof.
  rewrite forallb_forall. intros H x Hx. specialize (H x Hx). unfold one_of in H.
  apply existsb_exists in H as (y & Hy & E). apply Z.eqb_eq in E. by subst.
Qed.

Lemma first_block_types (P : Z -> Prop) blocks op d r :
  Forall (fun b => exists S, incl S reachable_types /\ block_types P S b) blocks ->
  P op -> first_block blocks op d = Some r ->
  one_of reachable_types (d_instr_type r) = true.
Proof.
  intros H Hls. induction H as [|b bs (S & HS & Hb) _ IH]; cbn [first_block]; [done|].
  destruct (b op d) eqn:E; [|done]. intros Hr; simplify_eq.
  by apply (one_of_reachable S); [apply (Hb op d)|].
Qed.

Lemma loadstore_types_ok op d :
  one_of loadstore_types (d_instr_type (decode_loadstore op d).2) = true.
Proof.
  unfold decode_loadstore. cbv zeta.
  do 3 (destruct (_ =? _); [cbn [snd]; case_match; reflexivity|]).
  destruct (_ || _) eqn:E; [|reflexivity].
  assert (Ho : (op >>> 22) &&& 1 = 0).
  { apply orb_true_iff in E as [E|E]; apply Z.eqb_eq in E; by rewrite (field_known _ _ _ 22 1 E). }
  rewrite Ho. reflexivity.
Qed.

Lemma decode_word_types op d : one_of reachable_types (d_instr_type (decode_word op d).2) = true.
Proof.
  unfold decode_word. destruct (_ || _); [reflexivity|].
  destruct (first_block [decode_branches; decode_system] op d) eqn:E1; cbn [snd].
  { revert E1. apply (first_block_types any_word); [|exact I].
    apply Forall_cons_2; [exists branch_types | apply Forall_cons_2; [exists system_types | apply Forall_nil_2]];
      (split; [apply incl_check; reflexivity|]); [apply branches_types | apply system_types_ok]. }
  destruct (is_loadstore op) eqn:Hls.
  { apply (one_of_reachable loadstore_types); [apply loadstore_types_ok | by apply incl_check]. }
  cbn [first_block]. rewrite (atomic_shadowed op d Hls), (simd_ldst_shadowed op d Hls).
  repeat match goal with
  | |- context [decode_neon_int op d] => destruct (decode_neon_int op d) eqn:E
  | |- context [decode_neon_fp op d] => destruct (decode_neon_fp op d) eqn:E2
  | |- context [decode_crypto op d] => destruct (decode_crypto op d) eqn:E3
  | |- context [decode_misc op d] => destruct (decode_misc op d) eqn:E4
  end; cbn [snd].
  - apply (one_of_reachable neon_int_types); [by eapply neon_int_types_ok | by apply incl_check].
  - apply (one_of_reachable neon_fp_types); [by eapply neon_fp_types_ok | by apply incl_check].
  - apply (one_of_reachable misc_types); [by eapply crypto_types_ok | by apply incl_check].
  - apply (one_of_reachable misc_types); [by eapply misc_types_ok | by apply incl_check].
  - rewrite decode_dp_register_eq. cbv zeta. cbn [snd]. set (d' := set_is_64bit _ _).
    destruct (first_block _ op d') eqn:E5; cbn [default]; [|reflexivity].
    revert E5. apply (first_block_types any_word); [|exact I].
    apply Forall_cons_2; [|apply Forall_cons_2; [|apply Forall_cons_2; [|apply Forall_nil_2]]];
      exists dp_types; (split; [by apply incl_check|]);
      [apply dp_reg_forms_types | apply dp_bitfield_types | apply dp_imm_forms_types].
Qed.

(** A word for every reachable type. *)
Definition type_examples : list Z :=
  [0x0; 0x94000001; 0x14000001; 0x54000020; 0x18400000; 0x34000000; 0x35000000; 0x36000000;
   0x37000000; 0xd65f03c0; 0xd61f0000; 0xd63f0000; 0xd4200000; 0xd4400000; 0xd69c03c0;
   0xd50330bf; 0xd503309f; 0xd50330df; 0xd5300000; 0xd5100000; 0x1a020020; 0xd503201f;
   0x13401c00; 0x13403c00; 0x53401c00; 0x53403c00;
   3130796250; 982911679; 1392559498; 1519274963; 518443400; 2466259684; 1861487429; 515680760;
   2654381310; 2652520788; 2655059518; 1314275373; 2468286914; 446595242; 2652304899; 3471082025;
   185384079; 994292973; 1385222698; 2458437254; 2922290425; 1311260393; 3526164272; 241180356;
   3194058292; 998079524; 1052514747; 1046793022; 405870670; 1046764834; 986091238; 2451883724;
   1922625957; 1779387424; 2060506703; 2472673001; 508617838; 3657977015; 1584051042; 3463483243;
   3681187385; 1033714260; 1312342935; 2663564348; 681718727; 3459220209; 2067552989; 238733440;
   704795892; 1259214074; 4251996718; 1398574760].

Lemma type_examples_cover t :
  In t reachable_types -> exists op, 0 <= op < 2^32 /\ d_instr_type (decoded_word op) = t.
Proof.
  intros Ht.
  assert (H : forallb (fun t => existsb (fun op => (0 <=? op) && (op <? 2^32)
                && (d_instr_type (decoded_word op) =? t)) type_examples) reachable_types = true)
    by (vm_compute; reflexivity).
  rewrite forallb_forall in H. specialize (H t Ht). apply existsb_exists in H as (op & _ & H).
  exists op. rewrite !andb_true_iff, Z.leb_le, Z.ltb_lt, Z.eqb_eq in H. lia.
Qed.

(** The instruction types some 32-bit word decodes to are exactly
    [reachable_types].  System calls and hints (their tests are shadowed or
    contradictory), the atomics, SIMD structure loads and stores, AES and SHA words
    (all taken by the earlier load/store test), the pair load LDP (its load bit is
    outside the value tested), EXTR, SBC and CRC32C are produced by no word at all,
    although the translator has cases for them. *)
Theorem decode_type_reachable :
  (forall t, (exists op, 0 <= op < 2^32 /\ d_instr_type (decoded_word op) = t)
             <-> In t reachable_types) /\
  Forall (fun t => ~ In t reachable_types)
    [INSTR_SVC; INSTR_HINT; INSTR_CAS; INSTR_LDADD; INSTR_LDST; INSTR_LDR_SIMD; INSTR_STR_SIMD;
     INSTR_AESE; INSTR_AESD; INSTR_AESMC; INSTR_AESIMC; INSTR_SHA256; INSTR_LDP; INSTR_EXTR;
     INSTR_SBC; INSTR_CRC32C].
Proof.
  split.
  - intros t. split; [|apply type_examples_cover].
    intros (op & _ & <-). pose proof (decode_word_types op zero_instruction) as H.
    apply existsb_exists in H as (y & Hy & E). apply Z.eqb_eq in E.
    unfold decoded_word. by rewrite E.
  - apply List.Forall_forall. intros t Ht Hr.
    assert (H : forallb (fun t => negb (one_of reachable_types t))
      [INSTR_SVC; INSTR_HINT; INSTR_CAS; INSTR_LDADD; INSTR_LDST; INSTR_LDR_SIMD; INSTR_STR_SIMD;
       INSTR_AESE; INSTR_AESD; INSTR_AESMC; INSTR_AESIMC; INSTR_SHA256; INSTR_LDP; INSTR_EXTR;
       INSTR_SBC; INSTR_CRC32C] = true) by reflexivity.
    rewrite forallb_forall in H. specialize (H t Ht). apply negb_true_iff in H. unfold one_of in H.
    rewrite (proj2 (existsb_exists (Z.eqb t) reachable_types)) in H; [done|]. exists t. by rewrite Z.eqb_refl.
Qed.
