(* ===== verification/Translate32.v ===== *)
(** * ARM32 translation: [modules/arm2x86_translate32.c]

    One ARM32 instruction at a time: a conditional jump that skips the body, the
    body chosen by a cascade of mask tests, and the patching of that jump.  The two
    fused multiply-accumulate emitters the cascade calls live in
    [modules/arm2x86_syscall.c] and are modelled here.  Guest memory is a total
    function; the output buffer is the emitter's byte list. *)
From S2P Require Import Prelude X86 Emit Regs Decode64.
From Stdlib Require Import ZArith Lia Bool.
From stdpp Require Import base numbers list.
Open Scope Z_scope.
Open Scope c_scope.

(** ** Conditions *)

Definition ARM32_COND_AL := 14.
Definition ARM32_COND_NV := 15.

Definition arm32_to_x86_cond : list Z :=
  [0x84; 0x85; 0x83; 0x82; 0x88; 0x89; 0x80; 0x81; 0x87; 0x86; 0x8d; 0x8c; 0x8f; 0x8e; 0x00; 0xff].

Definition ror (val amount : Z) : Z :=
  let amount := amount &&& 31 in
  if amount =? 0 then val else (val >>> amount) ||| u32 (val <<< (32 - amount)).

Definition arm32_get_cond (op : Z) : Z := (op >>> 28) &&& 0xf.

Definition emit_cond_prologue (cond : Z) : emitter (option nat) :=
  if cond =? ARM32_COND_AL then mret None
  else if cond =? ARM32_COND_NV then emit_byte 0x90 ;; mret None
  else
    let x86_cond := nth (Z.to_nat cond) arm32_to_x86_cond 0 in
    emit_byte 0x0f ;;
    emit_byte x86_cond ;;
    patch_loc ← here;
    emit_imm32 0 ;;
    mret (Some patch_loc).

Definition patch_cond_jump (patch_loc : option nat) (target : nat) : emitter unit :=
  fun b =>
    match patch_loc with
    | None => (tt, b)
    | Some p =>
      let offset := s32 (Z.of_nat target - Z.of_nat p - 4) in
      (tt, write_at p [u8 (offset &&& 0xff); u8 ((offset >>> 8) &&& 0xff);
                       u8 ((offset >>> 16) &&& 0xff); u8 ((offset >>> 24) &&& 0xff)] b)
    end.

(** ** Data processing *)

(** Rd := Rn and not Rm, with Rm saved on the stack around its negation. *)
Definition emit_bic (xrd xrn xrm : Z) : emitter unit :=
  mov_r64_r64 xrd xrn ;;
  emit_byte 0x48 ;; emit_byte 0x83 ;; emit_byte 0xEC ;; emit_byte 0x10 ;;
  emit_byte 0x48 ;; emit_byte 0x89 ;;
  modrm 0 (xrm &&& 7) 4 ;;
  sib 0 4 4 ;;
  not_r64 xrm ;;
  and_r64_r64 xrd xrm ;;
  emit_byte 0x48 ;; emit_byte 0x8b ;;
  modrm 0 (xrm &&& 7) 4 ;;
  sib 0 4 4 ;;
  emit_byte 0x48 ;; emit_byte 0x83 ;; emit_byte 0xC4 ;; emit_byte 0x10.

(** The immediate forms. *)
Definition translate_arm32_dp_imm (opcode_dp xrd xrn xrm imm : Z) : emitter unit :=
  match opcode_dp with
  | 4 | 11 => mov_r64_r64 xrd xrn ;; add_r64_r64 xrd xrm
  | 2 | 10 =>
    if opcode_dp =? 10 then cmp_r64_imm32 xrn (s32 imm)
    else
      mov_r64_r64 xrd xrn ;;
      rex_r xrd xrd ;;
      emit_byte 0x81 ;;
      modrm 3 5 (xrd &&& 7) ;;
      emit_imm32 (s32 imm)
  | 12 | 13 => mov_r64_imm xrd imm
  | 0 => mov_r64_r64 xrd xrn ;; and_r64_r64 xrd xrm
  | 1 => mov_r64_r64 xrd xrn ;; xor_r64_r64 xrd xrm
  | 14 => emit_bic xrd xrn xrm
  | 15 => mov_r64_imm xrd (u32 (Z.lnot imm))
  | _ => emit_byte 0x90
  end.

(** The register forms. *)
Definition translate_arm32_dp_reg (opcode_dp xrd xrn xrm : Z) : emitter unit :=
  match opcode_dp with
  | 0 | 1 => mov_r64_r64 xrd xrn ;; and_r64_r64 xrd xrm
  | 2 | 3 => mov_r64_r64 xrd xrn ;; sub_r64_r64 xrd xrm
  | 4 | 5 => mov_r64_r64 xrd xrn ;; add_r64_r64 xrd xrm
  | 6 => mov_r64_r64 xrd xrn ;; adc_r64_r64 xrd xrm
  | 7 => mov_r64_r64 xrd xrn ;; sbb_r64_r64 xrd xrm
  | 8 | 9 => mov_r64_r64 X86_REG_R11 xrn ;; and_r64_r64 X86_REG_R11 xrm
  | 10 | 11 =>
    if opcode_dp =? 11 then
      mov_r64_r64 X86_REG_R11 xrm ;; neg_r64 X86_REG_R11 ;; cmp_r64_r64 xrn X86_REG_R11
    else cmp_r64_r64 xrn xrm
  | 12 | 13 => mov_r64_r64 xrd xrm
  | 14 => emit_bic xrd xrn xrm
  | 15 => mov_r64_r64 xrd xrm ;; not_r64 xrd
  | _ => mret tt
  end.

Definition translate_arm32_dp (op : Z) : emitter Z :=
  let rd := op &&& 0x0f in
  let rn := (op >>> 16) &&& 0x0f in
  let rm := (op >>> 8) &&& 0x0f in
  let opcode_dp := (op >>> 21) &&& 0xf in
  let is_imm := (op >>> 25) &&& 1 in
  let xrd := arm2x86_map_register_arm32 rd in
  let xrn := arm2x86_map_register_arm32 rn in
  let xrm := arm2x86_map_register_arm32 rm in
  (if c_true is_imm then
     let imm8 := op &&& 0xff in
     let rotate := ((op >>> 8) &&& 0xf) * 2 in
     let imm := ror imm8 rotate in
     translate_arm32_dp_imm opcode_dp xrd xrn xrm imm
   else translate_arm32_dp_reg opcode_dp xrd xrn xrm) ;;
  mret ARM2X86_OK.

(** Called by nothing in the file. *)
Definition translate_arm32_multiply (op : Z) : emitter Z :=
  let rd := (op >>> 16) &&& 0x0f in
  let rn := op &&& 0x0f in
  let rm := (op >>> 8) &&& 0x0f in
  let ra := (op >>> 12) &&& 0x0f in
  if (15 <? rd) || (15 <? rn) || (15 <? rm) || (15 <? ra) then mret ARM2X86_ERR_INVALID_PARAM
  else
    let xrd := arm2x86_map_register_arm32 rd in
    let xrn := arm2x86_map_register_arm32 rn in
    let xrm := arm2x86_map_register_arm32 rm in
    let xra := arm2x86_map_register_arm32 ra in
    let op_mul := (op >>> 21) &&& 0xf in
    let long_multiply (extend : Z -> Z -> Z -> emitter unit) (accumulate : bool) :=
      extend 32 X86_REG_RAX xrn ;;
      extend 32 X86_REG_RCX xrm ;;
      imul_r64_r64 X86_REG_RAX X86_REG_RCX ;;
      (if accumulate then add_r64_r64 X86_REG_RAX xrd ;; adc_r64_r64 X86_REG_RDX xra
       else mret tt) ;;
      mov_r64_r64 xrd X86_REG_RAX ;;
      mov_r64_r64 xra X86_REG_RDX in
    (match op_mul with
     | 0 | 1 =>
       mov_r64_r64 xrd xrn ;;
       imul_r64_r64 xrd xrm ;;
       if (op_mul =? 1) && negb (ra =? 15) then add_r64_r64 xrd xra else mret tt
     | 4 | 5 => long_multiply emit_movzx (op_mul =? 5)
     | 6 | 7 => long_multiply emit_movsx (op_mul =? 7)
     | _ => mret tt
     end) ;;
    mret ARM2X86_OK.

(** ** Loads and stores *)

Definition translate_arm32_ldst (op : Z) : emitter Z :=
  let rt := op &&& 0x0f in
  let rn := (op >>> 16) &&& 0x0f in
  let is_load := (op >>> 20) &&& 1 in
  let is_byte := (op >>> 22) &&& 1 in
  let xrt := arm2x86_map_register_arm32 rt in
  let xrn := arm2x86_map_register_arm32 rn in
  let offset := op &&& 0xfff in
  let add := (op >>> 23) &&& 1 in
  let offset := if c_true add then offset else - offset in
  (if c_true is_byte then
     if c_true is_load then
       rex_r 0 xrn ;; emit_byte 0x0f ;; emit_byte 0xb6 ;; modrm 0 (xrt &&& 7) 5 ;; emit_imm32 offset
     else
       rex_rm xrn xrt ;; emit_byte 0x88 ;; modrm 0 (xrn &&& 7) 5 ;; emit_imm32 offset
   else
     if c_true is_load then
       rex_r xrt xrn ;; emit_byte 0x8b ;; modrm 0 (xrt &&& 7) 5 ;; emit_imm32 offset
     else
       rex_r xrt xrn ;; emit_byte 0x89 ;; modrm 0 (xrt &&& 7) 5 ;; emit_imm32 offset) ;;
  mret ARM2X86_OK.

(** One transfer of a load or store multiple. *)
Definition emit_transfer (opcode xr xrn offset : Z) : emitter unit :=
  rex_r xr xrn ;;
  emit_byte opcode ;;
  modrm 0 (xr &&& 7) 4 ;;
  sib 0 4 (xrn &&& 7) ;;
  emit_imm32 offset.

(** [for (r = from; r <= 15; r++)], returning the final offset. *)
Fixpoint transfer_loop (n : nat) (opcode reg_list xrn r offset : Z) : emitter Z :=
  match n with
  | O => mret offset
  | S n =>
    if c_true (reg_list &&& (1 <<< r)) then
      emit_transfer opcode (arm2x86_map_register_arm32 r) xrn offset ;;
      transfer_loop n opcode reg_list xrn (r + 1) (offset + 4)
    else transfer_loop n opcode reg_list xrn (r + 1) offset
  end.

Definition translate_arm32_ldm_stm (op : Z) : emitter Z :=
  let rn := (op >>> 16) &&& 0x0f in
  let reg_list := op &&& 0xffff in
  let xrn := arm2x86_map_register_arm32 rn in
  let writeback := (op >>> 21) &&& 1 in
  offset ← transfer_loop 16 (if (op &&& 0x00100000) =? 0 then 0x89 else 0x8b) reg_list xrn 0 0;
  (if c_true writeback && negb (rn =? 15) then add_r64_imm8 xrn (s8 offset) else mret tt) ;;
  mret ARM2X86_OK.

(** ** VFP *)

Definition emit_sse (prefix opcode reg rm : Z) : emitter unit :=
  emit_byte prefix ;; emit_byte 0x0f ;; emit_byte opcode ;; modrm 3 reg rm.

Definition translate_arm32_vfp (op : Z) : emitter Z :=
  let vd := ((op >>> 12) &&& 0xf) ||| ((op >>> 22) &&& 0x10) in
  let vn := ((op >>> 16) &&& 0xf) ||| ((op >>> 5) &&& 0x10) in
  let is_double := (op >>> 8) &&& 1 in
  let xvd := vd &&& 0xf in
  let xvn := vn &&& 0xf in
  let scalar := if c_true is_double then 0xf2 else 0xf3 in
  let vfp_op := (op >>> 20) &&& 0xf in
  (match vfp_op with
   | 0x3 => emit_sse scalar 0x58 (xvd &&& 7) (xvn &&& 7)
   | 0x7 => emit_sse scalar 0x5c (xvd &&& 7) (xvn &&& 7)
   | 0x2 => emit_sse scalar 0x59 (xvd &&& 7) (xvn &&& 7)
   | 0x8 => emit_sse scalar 0x5e (xvd &&& 7) (xvn &&& 7)
   | 0x4 => emit_sse 0x66 0x2f (xvd &&& 7) (xvn &&& 7)
   | 0x0 | 0x1 => emit_byte 0x90
   | 0xc =>
     if (op &&& 0x000000f0) =? 0x00000000 then emit_sse 0xf2 0x2a (xvd &&& 7) (xvn &&& 7)
     else emit_sse 0xf2 0x2d (xvd &&& 7) (xvn &&& 7)
   | _ => emit_byte 0x90
   end) ;;
  mret ARM2X86_OK.

Definition translate_arm32_vldr_vstr (op : Z) : emitter Z :=
  let is_load := (op >>> 20) &&& 1 in
  let vd := ((op >>> 12) &&& 0xf) ||| ((op >>> 22) &&& 0x10) in
  let rn := (op >>> 16) &&& 0xf in
  let imm8 := op &&& 0xff in
  let is_double := (op >>> 8) &&& 1 in
  let xvd := vd &&& 0xf in
  let xrn := arm2x86_map_register_arm32 rn in
  let offset := imm8 * 4 in
  emit_byte (if c_true is_double then 0xf2 else 0xf3) ;;
  emit_byte 0x0f ;;
  emit_byte (if c_true is_load then 0x10 else 0x11) ;;
  rex 0 (xvd >>> 3) 0 (xrn >>> 3) ;;
  modrm 1 (xvd &&& 7) (xrn &&& 7) ;;
  emit_byte (u8 offset) ;;
  mret ARM2X86_OK.

(** One register of a VPUSH or VPOP. *)
Definition emit_vpush_one (xvd size : Z) : emitter unit :=
  rex 1 0 0 (X86_REG_RSP >>> 3) ;; emit_byte 0x83 ;; modrm 3 5 (X86_REG_RSP &&& 7) ;;
  emit_byte size ;;
  emit_byte 0x66 ;; emit_byte 0x0f ;; emit_byte 0xd9 ;;
  modrm 0 (xvd &&& 7) 4 ;; sib 0 4 (X86_REG_RSP &&& 7).
Definition emit_vpop_one (xvd size : Z) : emitter unit :=
  emit_byte 0x66 ;; emit_byte 0x0f ;; emit_byte 0x6f ;;
  modrm 0 (xvd &&& 7) 4 ;; sib 0 4 (X86_REG_RSP &&& 7) ;;
  rex 1 0 0 (X86_REG_RSP >>> 3) ;; emit_byte 0x83 ;; modrm 3 0 (X86_REG_RSP &&& 7) ;;
  emit_byte size.

Fixpoint vpush_vpop_loop (n : nat) (is_push : bool) (vd i size : Z) : emitter unit :=
  match n with
  | O => mret tt
  | S n =>
    let xvd := (vd + i) &&& 0xf in
    (if is_push then emit_vpush_one xvd size else emit_vpop_one xvd size) ;;
    vpush_vpop_loop n is_push vd (i + 1) size
  end.

Definition translate_arm32_vpush_vpop (op : Z) : emitter Z :=
  let is_push := (op >>> 20) &&& 1 in
  let vd := ((op >>> 12) &&& 0xf) ||| ((op >>> 22) &&& 0x10) in
  let count := op &&& 0xff in
  let is_double := (op >>> 8) &&& 1 in
  let size := if c_true is_double then 8 else 4 in
  vpush_vpop_loop (Z.to_nat count) (c_true is_push) vd 0 size ;;
  mret ARM2X86_OK.

(** VFMA and VFMS ([arm2x86_syscall.c]): multiply into Vn, then add or subtract. *)
Definition translate_arm32_vfm (second op : Z) : emitter Z :=
  let vd := ((op >>> 12) &&& 0xf) ||| ((op >>> 22) &&& 0x10) in
  let vn := ((op >>> 16) &&& 0xf) ||| ((op >>> 5) &&& 0x10) in
  let vm := (op &&& 0xf) ||| ((op >>> 1) &&& 0x10) in
  let is_double := (op >>> 8) &&& 1 in
  let xvd := vd &&& 0xf in
  let xvn := vn &&& 0xf in
  let xvm := vm &&& 0xf in
  let scalar := if c_true is_double then 0xf2 else 0xf3 in
  emit_sse scalar 0x59 (xvn &&& 7) (xvm &&& 7) ;;
  emit_sse scalar second (xvd &&& 7) (xvn &&& 7) ;;
  mret ARM2X86_OK.
Definition translate_arm32_vfma (op : Z) : emitter Z := translate_arm32_vfm 0x58 op.
Definition translate_arm32_vfms (op : Z) : emitter Z := translate_arm32_vfm 0x5c op.

(** ** Branches and multiplication *)

Definition translate_arm32_branch (op : Z) : emitter Z :=
  let offset := s32 ((op &&& 0x00ffffff) <<< 2) in
  let offset := if c_true (offset &&& 0x02000000) then s32 (offset ||| 0xfc000000) else offset in
  (if c_true (op &&& 0x01000000) then emit_call offset else emit_jmp offset) ;;
  mret ARM2X86_OK.

Definition translate_arm32_bx (op : Z) (is_blx : bool) : emitter Z :=
  let rm := op &&& 0x0f in
  let xrm := arm2x86_map_register_arm32 rm in
  (if is_blx then emit_call_reg xrm else emit_jmp_reg xrm) ;;
  mret ARM2X86_OK.

Definition translate_arm32_mul (op : Z) (is_mla : bool) : emitter Z :=
  let rd := (op >>> 16) &&& 0x0f in
  let rn := (op >>> 12) &&& 0x0f in
  let rm := (op >>> 8) &&& 0x0f in
  let ra := op &&& 0x0f in
  let xrd := arm2x86_map_register_arm32 rd in
  let xrn := arm2x86_map_register_arm32 rn in
  let xrm := arm2x86_map_register_arm32 rm in
  let xra := arm2x86_map_register_arm32 ra in
  mov_r64_r64 xrd xrn ;;
  imul_r64_r64 xrd xrm ;;
  (if is_mla then add_r64_r64 xrd xra else mret tt) ;;
  mret ARM2X86_OK.

(** ** The block *)

(** The cascade of the loop body. *)
Definition translate_instruction (op : Z) : emitter Z :=
  if ((op &&& 0x0c000000) =? 0x00000000) && ((op &&& 0x01000000) =? 0) then
    if ((op &&& 0x0ff00000) =? 0x00000000) && ((op &&& 0x000f0000) =? 0x00090000) then
      translate_arm32_mul op (c_true ((op >>> 21) &&& 1))
    else translate_arm32_dp op
  else if (op &&& 0x0e000000) =? 0x04000000 then translate_arm32_ldst op
  else if (op &&& 0x0e000000) =? 0x08000000 then translate_arm32_ldm_stm op
  else if (op &&& 0x0e000000) =? 0x0a000000 then translate_arm32_branch op
  else if ((op &&& 0x0f000000) =? 0x0e000000) && ((op &&& 0x00000010) =? 0x00000000) then
    if (op &&& 0x0ff00ff0) =? 0x0ea00a00 then translate_arm32_vfma op
    else if (op &&& 0x0ff00ff0) =? 0x0ea00a40 then translate_arm32_vfms op
    else translate_arm32_vfp op
  else if ((op &&& 0x0f000010) =? 0x0d000000) || ((op &&& 0x0f000010) =? 0x0c000010) then
    translate_arm32_vldr_vstr op
  else if ((op &&& 0x0ff00000) =? 0x0d200000) || ((op &&& 0x0ff00000) =? 0x0c900000) then
    translate_arm32_vpush_vpop op
  else if (op &&& 0x0ffffff0) =? 0x012fff10 then
    translate_arm32_bx op (negb ((op &&& 0x00000010) =? 0))
  else if (op &&& 0x0f000000) =? 0x0f000000 then emit_syscall ;; mret ARM2X86_OK
  else emit_byte 0x90 ;; mret ARM2X86_OK.

(** One iteration of the loop, on the word [op]. *)
Definition convert_instruction (op : Z) : emitter unit :=
  jmp_patch ← emit_cond_prologue (arm32_get_cond op);
  translate_instruction op ;;
  target ← here;
  patch_cond_jump jmp_patch target.

(** [while (src < end)]; [false] when the fuel runs out. *)
Fixpoint convert_loop (fuel : nat) (mem : Z -> Z) (src end_ : Z) : emitter bool :=
  match fuel with
  | O => mret false
  | S fuel =>
    if src <? end_ then
      convert_instruction (read_le32 mem src) ;;
      convert_loop fuel mem (src + 4) end_
    else mret true
  end.

(** Returns the code, the bytes written and [*x86_size]; [None] only when the fuel
    runs out. *)
Definition arm2x86_convert_block_arm32 (fuel : nat) (mem : Z -> Z) (arm_code arm_size : Z)
    : option (Z * list Z * Z) :=
  match convert_loop fuel mem arm_code (arm_code + arm_size) [] with
  | (true, buf) => Some (ARM2X86_OK, buf, Z.of_nat (length buf))
  | (false, _) => None
  end.

(** ** The code of one instruction: position independent, of bounded length *)

(** [m] appends at most [n] bytes, the same wherever it runs. *)
Definition Bounded {A} (n : nat) (m : emitter A) : Prop :=
  Appends m /\ (length (code m) <= n)%nat.

Lemma bounded_weaken {A} n n' (m : emitter A) : Bounded n m -> (n <= n')%nat -> Bounded n' m.
Proof. intros [H1 H2] Hn. split; [done|lia]. Qed.

Lemma bounded_ret {A} (a : A) : Bounded 0 (mret a).
Proof. split; [apply _|]. rewrite code_ret. cbn; lia. Qed.

Lemma bounded_byte v : Bounded 1 (emit_byte v).
Proof. split; [apply _|]. rewrite code_byte. cbn; lia. Qed.

Lemma bounded_imm32 v : Bounded 4 (emit_imm32 v).
Proof. split; [apply _|]. by rewrite code_imm32, length_le_bytes. Qed.

Lemma bounded_bind {A B} n k (m : emitter A) (m' : emitter B) :
  Bounded n m -> Bounded k m' -> Bounded (n + k) (m ;; m').
Proof.
  intros [H1 H2] [H3 H4]. split; [by apply appends_bind_const|].
  rewrite code_bind_const by done. rewrite length_app. lia.
Qed.

Lemma bounded_if {A} n (c : bool) (m m' : emitter A) :
  Bounded n m -> Bounded n m' -> Bounded n (if c then m else m').
Proof. by destruct c. Qed.

Lemma bounded_if_max {A} n n' (c : bool) (m m' : emitter A) :
  Bounded n m -> Bounded n' m' -> Bounded (n `max` n') (if c then m else m').
Proof. intros. destruct c; eapply bounded_weaken; eauto; lia. Qed.

(** A bind whose value does not depend on the buffer. *)
Lemma bounded_bind_value {A B} n k (m : emitter A) (f : A -> emitter B) :
  Bounded n m -> (forall b, (m b).1 = (m []).1) -> (forall a, Bounded k (f a)) ->
  Bounded (n + k) (m ≫= f).
Proof.
  intros [Hm Hn] Hv Hf. destruct (Hf (m []).1) as [Ha Hk].
  assert (He : forall b, (m ≫= f) b = f (m []).1 (b ++ code m)).
  { intros b. unfold mbind, emitter_bind. specialize (Hm b). specialize (Hv b).
    destruct (m b) as [a c]. simpl in *. by subst. }
  assert (Hc : code (m ≫= f) = code m ++ code (f (m []).1)).
  { unfold code at 1. rewrite He. apply Ha. }
  split.
  - intros b. rewrite He, Hc, (Ha (b ++ code m)). by rewrite app_assoc.
  - rewrite Hc, length_app. lia.
Qed.

Ltac bounded_step :=
  lazymatch goal with
  | |- Bounded _ (emit_byte _) => simple apply bounded_byte
  | |- Bounded _ (emit_imm32 _) => simple apply bounded_imm32
  | |- Bounded _ (mret _) => simple apply bounded_ret
  | |- Bounded _ (mbind (fun _ => _) _) => simple eapply bounded_bind
  | |- Bounded _ (if ?c then _ else _) => simple eapply bounded_if_max
  | |- Bounded _ ?m => let h := get_head m in unfold h
  end.
Ltac bounded :=
  intros; cbv zeta; eapply bounded_weaken; [repeat bounded_step | cbn; lia].

Lemma bounded_emit_bic d n m : Bounded 29 (emit_bic d n m).
Proof. unfold emit_bic. bounded. Qed.

Lemma bounded_mov_imm r v : Bounded 10 (mov_r64_imm r v).
Proof. bounded. Qed.

(** A match on an integer: every branch is bounded. *)
Ltac bounded_match :=
  intros; cbv zeta; repeat case_match;
  first [bounded | eapply bounded_weaken; [apply bounded_emit_bic | lia]].

Lemma bounded_dp_imm o d n m i : Bounded 29 (translate_arm32_dp_imm o d n m i).
Proof. unfold translate_arm32_dp_imm. bounded_match. Qed.
Lemma bounded_dp_reg o d n m : Bounded 29 (translate_arm32_dp_reg o d n m).
Proof. unfold translate_arm32_dp_reg. bounded_match. Qed.

Lemma bounded_dp op : Bounded 29 (translate_arm32_dp op).
Proof.
  unfold translate_arm32_dp. cbv zeta. eapply (bounded_bind 29 0); [|apply bounded_ret].
  apply bounded_if; [apply bounded_dp_imm | apply bounded_dp_reg].
Qed.
Lemma bounded_mul op b : Bounded 10 (translate_arm32_mul op b).
Proof. unfold translate_arm32_mul. bounded. Qed.
Lemma bounded_ldst op : Bounded 9 (translate_arm32_ldst op).
Proof. unfold translate_arm32_ldst. bounded. Qed.
Lemma bounded_vfp op : Bounded 4 (translate_arm32_vfp op).
Proof.
  unfold translate_arm32_vfp. cbv zeta. eapply (bounded_bind 4 0); [|apply bounded_ret].
  bounded_match.
Qed.
Lemma bounded_vfm s op : Bounded 8 (translate_arm32_vfm s op).
Proof. unfold translate_arm32_vfm. bounded. Qed.
Lemma bounded_vldr_vstr op : Bounded 6 (translate_arm32_vldr_vstr op).
Proof. unfold translate_arm32_vldr_vstr. bounded. Qed.
Lemma bounded_bx op b : Bounded 3 (translate_arm32_bx op b).
Proof. unfold translate_arm32_bx. bounded. Qed.

Lemma bounded_jmp v : Bounded 5 (emit_jmp v).
Proof. split; [exact (appends_jmp v)|]. unfold code. by rewrite emit_jmp_eq. Qed.
Lemma bounded_call v : Bounded 5 (emit_call v).
Proof. split; [exact (appends_call v)|]. unfold code. by rewrite emit_call_eq. Qed.

Lemma bounded_branch op : Bounded 5 (translate_arm32_branch op).
Proof.
  unfold translate_arm32_branch. cbv zeta. generalize (s32 ((op &&& 0x00ffffff) <<< 2)). intros o.
  eapply (bounded_bind 5 0); [|apply bounded_ret].
  apply bounded_if; [apply bounded_call | apply bounded_jmp].
Qed.

Lemma transfer_loop_value n o l x r f b b' : (transfer_loop n o l x r f b).1 = (transfer_loop n o l x r f b').1.
Proof.
  revert r f b b'. induction n as [|n IH]; intros; cbn [transfer_loop]; [done|].
  destruct (c_true _); [|apply IH].
  unfold mbind, emitter_bind. destruct (emit_transfer _ _ _ _ b), (emit_transfer _ _ _ _ b'). apply IH.
Qed.

Lemma bounded_transfer_loop n o l x r f : Bounded (8 * n) (transfer_loop n o l x r f).
Proof.
  revert r f. induction n as [|n IH]; intros; cbn [transfer_loop]; [apply bounded_ret|].
  destruct (c_true _); [|eapply bounded_weaken; [apply IH | lia]].
  eapply bounded_weaken; [eapply (bounded_bind 8); [unfold emit_transfer; bounded | apply IH] | lia].
Qed.

Lemma bounded_ldm_stm op : Bounded 132 (translate_arm32_ldm_stm op).
Proof.
  unfold translate_arm32_ldm_stm. cbv zeta. eapply (bounded_bind_value 128 4).
  - apply (bounded_transfer_loop 16).
  - intros b. apply transfer_loop_value.
  - bounded.
Qed.

Lemma bounded_vpush_loop n p vd i s : Bounded (9 * n) (vpush_vpop_loop n p vd i s).
Proof.
  revert i. induction n as [|n IH]; intros; cbn [vpush_vpop_loop]; cbv zeta; [apply bounded_ret|].
  eapply bounded_weaken; [eapply (bounded_bind 9); [bounded | apply IH] | lia].
Qed.

Lemma bounded_vpush_vpop op : Bounded 2295 (translate_arm32_vpush_vpop op).
Proof.
  unfold translate_arm32_vpush_vpop. cbv zeta.
  pose proof (land_range op 0xff ltac:(lia)).
  eapply bounded_weaken; [eapply bounded_bind; [apply bounded_vpush_loop | apply bounded_ret]|]. lia.
Qed.

Ltac bounded_body :=
  lazymatch goal with
  | |- Bounded _ (translate_arm32_mul _ _) => apply bounded_mul
  | |- Bounded _ (translate_arm32_dp _) => apply bounded_dp
  | |- Bounded _ (translate_arm32_ldst _) => apply bounded_ldst
  | |- Bounded _ (translate_arm32_ldm_stm _) => apply bounded_ldm_stm
  | |- Bounded _ (translate_arm32_branch _) => apply bounded_branch
  | |- Bounded _ (translate_arm32_vfma _) => apply bounded_vfm
  | |- Bounded _ (translate_arm32_vfms _) => apply bounded_vfm
  | |- Bounded _ (translate_arm32_vfp _) => apply bounded_vfp
  | |- Bounded _ (translate_arm32_vldr_vstr _) => apply bounded_vldr_vstr
  | |- Bounded _ (translate_arm32_vpush_vpop _) => apply bounded_vpush_vpop
  | |- Bounded _ (translate_arm32_bx _ _) => apply bounded_bx
  | |- _ => repeat bounded_step
  end.

Lemma bounded_translate_instruction op : Bounded 2295 (translate_instruction op).
Proof.
  unfold translate_instruction. eapply bounded_weaken.
  - repeat match goal with |- Bounded _ (if _ then _ else _) => simple eapply bounded_if_max end;
      bounded_body.
  - cbn; lia.
Qed.

(** ** The loop *)

(** The code of one instruction: the conditional jump over the body, patched with
    the length of the body, then the body. *)
Definition instruction_code (op : Z) : list Z :=
  let body := code (translate_instruction op) in
  let cond := arm32_get_cond op in
  if cond =? ARM32_COND_AL then body
  else if cond =? ARM32_COND_NV then 0x90 :: body
  else [0x0f; nth (Z.to_nat cond) arm32_to_x86_cond 0] ++ le_bytes 4 (Z.of_nat (length body)) ++ body.

Lemma body_length op : (length (code (translate_instruction op)) <= 2295)%nat.
Proof. apply bounded_translate_instruction. Qed.

Lemma patch_cond_jump_eq (pre hole post : list Z) target :
  length hole = 4%nat ->
  patch_cond_jump (Some (length pre)) target (pre ++ hole ++ post)
  = (tt, pre ++ le_bytes 4 (s32 (Z.of_nat target - Z.of_nat (length pre) - 4)) ++ post).
Proof.
  intros Hh. unfold patch_cond_jump. f_equal.
  set (off := s32 _). rewrite !u8_land_255.
  change [u8 off; _; _; _] with [u8 off; u8 (off >>> 8); u8 (off >>> 16); u8 (off >>> 24)].
  replace [u8 off; u8 (off >>> 8); u8 (off >>> 16); u8 (off >>> 24)] with (le_bytes 4 off)
    by (lazy beta iota delta [le_bytes]; by rewrite !Z.shiftr_shiftr by lia).
  by apply write_at_app.
Qed.

Lemma cond_range op : 0 <= arm32_get_cond op < 16.
Proof. apply land_lt. lia. Qed.

Lemma cond_byte c : 0 <= c < 14 -> u8 (nth (Z.to_nat c) arm32_to_x86_cond 0) = nth (Z.to_nat c) arm32_to_x86_cond 0.
Proof.
  intros Hc. apply Z.eqb_eq. revert c Hc.
  apply (all_below_spec 14 (fun c => u8 (nth (Z.to_nat c) arm32_to_x86_cond 0)
    =? nth (Z.to_nat c) arm32_to_x86_cond 0)). reflexivity.
Qed.

Lemma imm32_run v b : emit_imm32 v b = (tt, b ++ le_bytes 4 v).
Proof.
  rewrite <- code_imm32. pose proof (appends_imm32 v b) as H.
  destruct (emit_imm32 v b) as [[] c]. simpl in H. by subst.
Qed.

Lemma convert_instruction_eq op b : convert_instruction op b = (tt, b ++ instruction_code op).
Proof.
  unfold convert_instruction, instruction_code, emit_cond_prologue. cbv zeta.
  destruct (bounded_translate_instruction op) as [Ha _]. specialize (Ha : Appends _).
  pose proof (body_length op) as Hlen. set (body := code (translate_instruction op)) in *.
  assert (Hrun : forall b', exists r, translate_instruction op b' = (r, b' ++ body)).
  { intros b'. specialize (Ha b'). destruct (translate_instruction op b') as [r c].
    simpl in Ha. subst. by exists r. }
  clearbody body. unfold mbind, emitter_bind, mret, emitter_ret, here.
  destruct (_ =? ARM32_COND_AL) eqn:E1; [by destruct (Hrun b) as [r ->]|].
  destruct (_ =? ARM32_COND_NV) eqn:E2.
  { unfold emit_byte. destruct (Hrun (b ++ [u8 0x90])) as [r ->]. cbn. by rewrite <- app_assoc. }
  unfold emit_byte. cbv beta iota. rewrite imm32_run. cbv beta iota.
  destruct (Hrun (((b ++ [u8 0x0f]) ++ [u8 (nth (Z.to_nat (arm32_get_cond op)) arm32_to_x86_cond 0)])
                  ++ le_bytes 4 0)) as [r ->].
  apply Z.eqb_neq in E1, E2. pose proof (cond_range op). unfold ARM32_COND_AL, ARM32_COND_NV in *.
  rewrite cond_byte by lia. change (u8 0x0f) with 0x0f.
  rewrite <- (app_assoc (_ ++ _) (le_bytes 4 0) body). rewrite patch_cond_jump_eq by done.
  rewrite !length_app, length_le_bytes. cbn [length].
  match goal with |- context [s32 ?x] =>
    replace (s32 x) with (Z.of_nat (length body)) by (rewrite s32_small; lia) end.
  by rewrite <- !app_assoc.
Qed.

Lemma convert_loop_S n mem src e :
  convert_loop (S n) mem src e =
    if src <? e then convert_instruction (read_le32 mem src) ;; convert_loop n mem (src + 4) e
    else mret true.
Proof. done. Qed.

Lemma convert_loop_eq n mem src size b :
  (Z.to_nat ((size + 3) / 4) <= n)%nat ->
  convert_loop (S n) mem src (src + size) b =
    (true, b ++ concat (map (fun i => instruction_code (read_le32 mem (src + 4 * Z.of_nat i)))
                          (seq 0 (Z.to_nat ((size + 3) / 4))))).
Proof.
  revert src size b. induction n as [|n IH]; intros src size b E.
  - cbn [convert_loop]. replace (src <? src + size) with false
      by (symmetry; apply Z.ltb_ge; Z.div_mod_to_equations; lia).
    replace (Z.to_nat ((size + 3) / 4)) with O by lia. cbn. by rewrite app_nil_r.
  - rewrite convert_loop_S. destruct (src <? src + size) eqn:E2.
    + apply Z.ltb_lt in E2. unfold mbind, emitter_bind. rewrite convert_instruction_eq.
      replace (src + size) with (src + 4 + (size - 4)) by lia.
      assert (Hn : Z.to_nat ((size + 3) / 4) = S (Z.to_nat ((size - 4 + 3) / 4)))
        by (Z.div_mod_to_equations; lia).
      rewrite IH by lia. rewrite Hn. cbn [seq map concat]. rewrite <- seq_shift, map_map, app_assoc.
      rewrite Z.add_0_r.
      rewrite (map_ext (fun i => instruction_code (read_le32 mem (src + 4 + 4 * Z.of_nat i)))
                 (fun i => instruction_code (read_le32 mem (src + 4 * Z.of_nat (S i)))));
        [done|]. intros i. do 2 f_equal. lia.
    + apply Z.ltb_ge in E2. replace (Z.to_nat ((size + 3) / 4)) with O
        by (Z.div_mod_to_equations; lia). cbn. by rewrite app_nil_r.
Qed.

(** The words of a block, and the code of all of them. *)
Definition block_words (mem : Z -> Z) (src size : Z) : list Z :=
  map (fun i => read_le32 mem (src + 4 * Z.of_nat i)) (seq 0 (Z.to_nat ((size + 3) / 4))).

Lemma convert_block_arm32_eq mem arm_code size fuel :
  (Z.to_nat ((size + 3) / 4) < fuel)%nat ->
  let out := concat (map instruction_code (block_words mem arm_code size)) in
  arm2x86_convert_block_arm32 fuel mem arm_code size = Some (ARM2X86_OK, out, Z.of_nat (length out)).
Proof.
  intros Hf out. unfold arm2x86_convert_block_arm32. destruct fuel as [|n]; [lia|].
  rewrite convert_loop_eq by lia.
  unfold out, block_words. by rewrite map_map.
Qed.

(** C9: translating an ARM32 block terminates after one iteration per word begun
    (a trailing part of a word is read as a whole one), always returns
    [ARM2X86_OK], and the output is the concatenation of the code of the words in
    order, with its length as the reported size. *)
Theorem convert_block_arm32_concat mem arm_code size fuel :
  (Z.to_nat ((size + 3) / 4) < fuel)%nat ->
  let out := concat (map instruction_code (block_words mem arm_code size)) in
  arm2x86_convert_block_arm32 fuel mem arm_code size = Some (ARM2X86_OK, out, Z.of_nat (length out)).
Proof. apply convert_block_arm32_eq. Qed.
Lemma convert_block_arm32_concat_witness :
  arm2x86_convert_block_arm32 3 (fun a => if a =? 3 then 0xea else 0) 0 8
  = Some (ARM2X86_OK, [0xe9; 0xfb; 0xff; 0xff; 0xff; 0x0f; 0x84; 6; 0; 0; 0;
                       0x48; 0x89; 0xc0; 0x48; 0x21; 0xc0], 17).
Proof.
  rewrite (convert_block_arm32_concat (fun a => if a =? 3 then 0xea else 0) 0 8 3) by (vm_compute; lia).
  vm_compute. reflexivity.
Defined.

(** ** What the code means *)

(** ARM conditions on the flags N, Z, C, V and x86 conditions on SF, ZF, CF, OF. *)
Definition arm_condition (cond : Z) (n z c v : bool) : bool :=
  match cond with
  | 0 => z | 1 => negb z | 2 => c | 3 => negb c | 4 => n | 5 => negb n | 6 => v | 7 => negb v
  | 8 => c && negb z | 9 => negb c || z | 10 => eqb n v | 11 => negb (eqb n v)
  | 12 => negb z && eqb n v | 13 => z || negb (eqb n v) | _ => true
  end.
Definition x86_condition (cc : Z) (sf zf cf o : bool) : bool :=
  match cc with
  | 0 => o | 1 => negb o | 2 => cf | 3 => negb cf | 4 => zf | 5 => negb zf
  | 6 => cf || zf | 7 => negb cf && negb zf | 8 => sf | 9 => negb sf
  | 12 => negb (eqb sf o) | 13 => eqb sf o
  | 14 => zf || negb (eqb sf o) | 15 => negb zf && eqb sf o | _ => false
  end.

Lemma cond_table_range cond :
  0 <= cond < 14 -> 0 <= nth (Z.to_nat cond) arm32_to_x86_cond 0 - 0x80 < 16.
Proof.
  intros Hc. enough (H : (0x80 <=? nth (Z.to_nat cond) arm32_to_x86_cond 0)
    && (nth (Z.to_nat cond) arm32_to_x86_cond 0 <? 0x90) = true)
    by (apply andb_true_iff in H; lia).
  revert cond Hc. apply (all_below_spec 14 (fun cond => (0x80 <=? nth (Z.to_nat cond) arm32_to_x86_cond 0)
    && (nth (Z.to_nat cond) arm32_to_x86_cond 0 <? 0x90))). reflexivity.
Qed.

(** An instruction under a condition below AL becomes a conditional jump whose
    target is exactly the end of the instruction's code, followed by the body.  The
    jump's condition is the ARM condition itself (with x86 CF the complement of ARM
    C, as a compare leaves them), not its negation: the body is skipped when the
    condition holds and runs when it fails.  AL has no jump; NV runs its body. *)
Theorem conditional_skips_body op :
  let cond := arm32_get_cond op in
  let body := code (translate_instruction op) in
  if cond =? 14 then instruction_code op = body
  else if cond =? 15 then instruction_code op = 0x90 :: body
  else exists cc,
    decode (instruction_code op) = Some (Jcc cc (Z.of_nat (length body)), body) /\
    forall n z c v, x86_condition cc n z (negb c) v = arm_condition cond n z c v.
Proof.
  cbv zeta. unfold instruction_code, ARM32_COND_AL, ARM32_COND_NV.
  pose proof (cond_range op) as Hc. pose proof (body_length op) as Hl.
  set (body := code (translate_instruction op)) in *. clearbody body.
  destruct (arm32_get_cond op =? 14) eqn:E1; [done|].
  destruct (arm32_get_cond op =? 15) eqn:E2; [done|].
  apply Z.eqb_neq in E1, E2. generalize dependent (arm32_get_cond op). intros cond Hc E1 E2.
  assert (Hb : nth (Z.to_nat cond) arm32_to_x86_cond 0
               = u8 (0x80 + (nth (Z.to_nat cond) arm32_to_x86_cond 0 - 0x80))).
  { rewrite <- (cond_byte cond) at 1 by lia. f_equal. lia. }
  exists (nth (Z.to_nat cond) arm32_to_x86_cond 0 - 0x80). split.
  - rewrite Hb at 1. cbn [app]. rewrite decode_jcc_rel; [rewrite s32_small by lia; done|].
    apply cond_table_range. lia.
  - intros n z c v. clear - Hc E1 E2. apply cases_16 in Hc.
    destruct_or! Hc; subst; try done; destruct n, z, c, v; reflexivity.
Qed.

Lemma instruction_code_length op : (length (instruction_code op) <= 2301)%nat.
Proof.
  pose proof (body_length op). unfold instruction_code.
  destruct (_ =? _); [lia|]. destruct (_ =? _); cbn [length]; [lia|].
  rewrite !length_app, length_le_bytes. cbn [length]. lia.
Qed.

Lemma block_code_length mem arm_code size :
  (length (concat (map instruction_code (block_words mem arm_code size)))
     <= 2301 * Z.to_nat ((size + 3) / 4))%nat.
Proof.
  unfold block_words. rewrite map_map.
  set (n := Z.to_nat ((size + 3) / 4)). rewrite <- (length_seq n 0) at 2.
  generalize (seq 0 n). intros l. induction l as [|i l IH]; cbn [map concat length]; [lia|].
  rewrite length_app. pose proof (instruction_code_length (read_le32 mem (arm_code + 4 * Z.of_nat i))). lia.
Qed.

(** No instruction's code is longer than 2301 bytes, so a block's output is at
    most 2301 bytes per word; a conditional VPUSH-class word with count 255 reaches
    the bound. *)
Theorem convert_block_arm32_size mem arm_code size :
  (length (concat (map instruction_code (block_words mem arm_code size)))
     <= 2301 * Z.to_nat ((size + 3) / 4))%nat /\
  length (instruction_code 0x0d2000ff) = 2301%nat.
Proof. split; [apply block_code_length | vm_compute; reflexivity]. Qed.

(** B and BL of the ARM encoding. *)
Definition enc_arm_b (cond : Z) (link : bool) (imm24 : Z) : Z :=
  ((cond &&& 0xf) <<< 28) ||| (if link then 0x0b000000 else 0x0a000000) ||| (imm24 &&& 0xffffff).

Lemma translate_branch_code op :
  op &&& 0x0e000000 = 0x0a000000 -> translate_instruction op = translate_arm32_branch op.
Proof. intros Hop. unfold translate_instruction. decide_masks Hop. reflexivity. Qed.

Lemma branch_offset imm24 :
  - 2^23 <= imm24 < 2^23 ->
  let offset := s32 ((imm24 &&& 0xffffff) <<< 2) in
  (if c_true (offset &&& 0x02000000) then s32 (offset ||| 0xfc000000) else offset) = 4 * imm24.
Proof.
  intros Hi. cbv zeta. rewrite (land_ones_mod imm24 24) by done.
  rewrite Z.shiftl_mul_pow2 by lia. change (2^2) with 4.
  pose proof (Z.mod_pos_bound imm24 (2^24) ltac:(lia)) as Hm. set (m := imm24 mod 2^24) in *.
  rewrite s32_small by lia.
  assert (Hbit : (m * 4) &&& 0x02000000 = if m <? 2^23 then 0 else 0x02000000).
  { change 0x02000000 with (2^25).
    apply Z.bits_inj'. intros i Hi'. rewrite Z.land_spec, Z.pow2_bits_eqb by lia.
    destruct (25 =? i) eqn:E; [apply Z.eqb_eq in E; subst i|].
    - rewrite andb_true_r. change 4 with (2^2). rewrite Z.mul_pow2_bits by lia.
      change (25 - 2) with 23.
      rewrite Z.testbit_odd, Z.shiftr_div_pow2 by lia.
      destruct (m <? 2^23) eqn:E2; [apply Z.ltb_lt in E2 | apply Z.ltb_ge in E2].
      + rewrite Z.div_small by lia. done.
      + replace (m / 2^23) with 1 by (apply (Z.div_unique _ _ _ (m - 2^23)); lia). done.
    - rewrite andb_false_r. destruct (m <? 2^23); [by rewrite Z.bits_0|].
      rewrite Z.pow2_bits_eqb by lia. by rewrite E. }
  rewrite Hbit. destruct (m <? 2^23) eqn:E2; [apply Z.ltb_lt in E2 | apply Z.ltb_ge in E2]; cbn [c_true].
  - unfold m in *. change (c_true 0) with false. cbn iota.
    assert (imm24 = m) by (unfold m; Z.div_mod_to_equations; lia). unfold m in *; lia.
  - change (c_true 33554432) with true. cbn iota.
    replace (m * 4 ||| 0xfc000000) with (m * 4 + 0xfc000000).
    + assert (imm24 = m - 2^24) by (unfold m in *; Z.div_mod_to_equations; lia).
      unfold s32. Z.div_mod_to_equations; lia.
    + assert (Hd : (m * 4) &&& 0xfc000000 = 0).
      { rewrite <- (land_small (m * 4) 26 0x3ffffff) by (unfold m in *; lia).
        rewrite <- Z.land_assoc. apply Z.land_0_r. }
      by rewrite Z.add_nocarry_lxor, Z.lxor_lor.
Qed.

(** B and BL emit one five-byte jump or call whose target is the ARM byte
    offset [4 * imm24], sign included, counted in x86 bytes from the start of the
    emitted branch; a condition adds the jump of [conditional_skips_body]. *)
Theorem translate_branch_target cond link imm24 :
  - 2^23 <= imm24 < 2^23 ->
  let body := code (translate_instruction (enc_arm_b cond link imm24)) in
  decode body = Some ((if link then CallRel else JmpRel) (4 * imm24 - 5), []) /\
  length body = 5%nat.
Proof.
  intros Hi body.
  assert (Hop : enc_arm_b cond link imm24 &&& 0x0e000000 = 0x0a000000)
    by (unfold enc_arm_b; destruct link; fields; reflexivity).
  assert (Hf : enc_arm_b cond link imm24 &&& 0x00ffffff = imm24 &&& 0xffffff)
    by (unfold enc_arm_b; destruct link; fields; reflexivity).
  assert (Hl : enc_arm_b cond link imm24 &&& 0x01000000 = if link then 0x01000000 else 0)
    by (unfold enc_arm_b; destruct link; fields; reflexivity).
  unfold body. rewrite (translate_branch_code _ Hop). unfold translate_arm32_branch.
  rewrite Hf, Hl. pose proof (branch_offset imm24 Hi) as Ho. cbv zeta in *. rewrite Ho.
  set (o := 4 * imm24). assert (- 2^31 <= o - 5 < 2^31) by lia.
  destruct link; cbn [c_true Z.eqb negb]; unfold code, mbind, emitter_bind;
    rewrite ?emit_call_eq, ?emit_jmp_eq; cbn [snd mret emitter_ret app];
    rewrite <- (app_nil_r (le_bytes 4 _)), ?decode_jmp_rel, ?decode_call_rel, !s32_small;
    rewrite ?s32_small by done; done.
Qed.
Lemma translate_branch_target_witness :
  decode (code (translate_instruction (enc_arm_b 14 true (-2)))) = Some (CallRel (-13), []).
Proof. apply (translate_branch_target 14 true (-2)). lia. Defined.

(** Data processing, register operand without shift. *)
Definition enc_arm_dp (cond opcode S rn rd rm : Z) : Z :=
  ((cond &&& 0xf) <<< 28) ||| ((opcode &&& 0xf) <<< 21) ||| ((S &&& 1) <<< 20)
  ||| ((rn &&& 0xf) <<< 16) ||| ((rd &&& 0xf) <<< 12) ||| (rm &&& 0xf).

(** The operation of opcodes 0 to 5. *)
Definition dp_alu (opcode : Z) : alu_op :=
  match opcode with 0 | 1 => AND | 2 | 3 => SUB | _ => ADD end.

Lemma enc_arm_dp_fields cond opcode S rn rd rm :
  let op := enc_arm_dp cond opcode S rn rd rm in
  op &&& 0x0f = rm &&& 0xf /\ (op >>> 16) &&& 0x0f = rn &&& 0xf /\ (op >>> 8) &&& 0x0f = 0 /\
  (op >>> 21) &&& 0xf = opcode &&& 0xf /\ (op >>> 25) &&& 1 = 0 /\
  op &&& 0x0c000000 = 0 /\ op &&& 0x01000000 = (opcode &&& 8) <<< 21 /\
  op &&& 0x0ff00000 = ((opcode &&& 0xf) <<< 21) ||| ((S &&& 1) <<< 20) /\
  op &&& 0x000f0000 = (rn &&& 0xf) <<< 16.
Proof. cbv zeta. unfold enc_arm_dp. split_and!; fields; reflexivity. Qed.

Lemma alu_appends op f d s : alu_emitter op = Some f -> Appends (f d s).
Proof.
  intros Hop. destruct op; simpl in Hop; try discriminate; injection Hop as <-;
    match goal with |- Appends (?g _ _) => unfold g, rex_r end; solve_appends.
Qed.

Lemma code_two {A B C} (m1 : emitter A) (m2 : emitter B) (c : C) :
  Appends m2 -> code ((m1 ;; m2) ;; mret c) = code m1 ++ code m2.
Proof.
  intros H. rewrite code_bind_const by apply _. rewrite code_bind_const by done.
  by rewrite code_ret, app_nil_r.
Qed.

Lemma run_mov_then_alu op f d1 s1 d2 s2 st st1 :
  alu_emitter op = Some f -> 0 <= d1 < 16 -> 0 <= s1 < 16 -> 0 <= d2 < 16 -> 0 <= s2 < 16 ->
  set_reg st W64 s1 (regs st d1) = Some st1 ->
  run (code (mov_r64_r64 d1 s1) ++ code (f d2 s2)) st
  = (v ← alu_sem op (regs st1 s2) (regs st1 d2); set_reg st1 W64 s2 v).
Proof.
  intros Hop H1 H2 H3 H4 Hst.
  pose proof (decode_alu_r64_r64 op f d2 s2 [] Hop H3 H4) as Ha. rewrite app_nil_r in Ha.
  assert (Hne : code (f d2 s2) <> []) by (intros E; rewrite E in Ha; discriminate).
  rewrite (run_cons _ _ (MovRmR W64 (Reg s1) d1) st st1).
  - by rewrite (run_one _ _ st1 Ha Hne).
  - by apply decode_mov_r64_r64.
  - done.
  - by rewrite (disassemble_one _ _ Ha Hne).
  - done.
Qed.

(** AND, EOR, SUB, RSB, ADD and ADC words with an unshifted register operand.
    The translator takes Rd from bits 3-0 and Rm from bits 11-8, so the destination
    of the instruction has no influence, and the moves go the other way round
    (see the emitter): the code copies the register of Rm into the register of Rn,
    then combines it into RAX. *)
Theorem translate_dp_runs cond opcode S rn rd rm st :
  0 <= opcode < 6 -> 0 <= S < 2 -> 0 <= rn < 16 -> 0 <= rm < 16 ->
  ~ (opcode = 0 /\ S = 0 /\ rn = 9) ->
  let x := arm2x86_map_register_arm32 in
  run (code (translate_instruction (enc_arm_dp cond opcode S rn rd rm))) st
  = (st1 ← set_reg st W64 (x rn) (regs st (x rm));
     v ← alu_sem (dp_alu opcode) (regs st1 X86_REG_RAX) (regs st1 (x rm));
     set_reg st1 W64 X86_REG_RAX v).
Proof.
  intros Hop HS Hrn Hrm Hmul x.
  destruct (enc_arm_dp_fields cond opcode S rn rd rm) as (H1 & H2 & H3 & H4 & H5 & H6 & H7 & H8 & H9).
  rewrite (land_small rm 4) in H1 by done. rewrite (land_small rn 4) in H2, H9 by done.
  rewrite (land_small opcode 4) in H4, H8 by lia. rewrite (land_small S 1) in H8 by lia.
  set (op := enc_arm_dp cond opcode S rn rd rm) in *. clearbody op.
  assert (Hcs : opcode = 0 \/ opcode = 1 \/ opcode = 2 \/ opcode = 3 \/ opcode = 4 \/ opcode = 5) by lia.
  assert (Hd : translate_instruction op = translate_arm32_dp op).
  { unfold translate_instruction. rewrite H6, H7, H8, H9.
    assert (Ho : ((opcode &&& 8) <<< 21 =? 0) = true) by (clear - Hcs; destruct_or! Hcs; subst opcode; reflexivity).
    rewrite Ho. cbn [andb Z.eqb].
    destruct (((opcode <<< 21) ||| (S <<< 20) =? 0) && (rn <<< 16 =? 0x90000)) eqn:E; [|done].
    apply andb_true_iff in E as [E1 E2]. apply Z.eqb_eq in E1, E2.
    apply Z.lor_eq_0_iff in E1 as [E1 E3]. rewrite !Z.shiftl_mul_pow2 in * by lia.
    destruct Hmul. lia. }
  rewrite Hd. unfold translate_arm32_dp. cbv zeta. rewrite H1, H2, H3, H4, H5. change (c_true 0) with false.
  clear H4. cbn iota. change (arm2x86_map_register_arm32 0) with X86_REG_RAX. fold x.
  pose proof (map_arm32_range rm) as Hxm. pose proof (map_arm32_range rn) as Hxn. fold x in Hxm, Hxn.
  destruct (set_reg st W64 (x rn) (regs st (x rm))) as [st1|] eqn:Est; [|done].
  assert (H0 : 0 <= X86_REG_RAX < 16) by (unfold X86_REG_RAX; lia).
  assert (Hc : exists f, alu_emitter (dp_alu opcode) = Some f /\
    code (translate_arm32_dp_reg opcode (x rm) (x rn) X86_REG_RAX ;; mret ARM2X86_OK)
    = code (mov_r64_r64 (x rm) (x rn)) ++ code (f (x rm) X86_REG_RAX)).
{ clear - Hcs. destruct_or! Hcs; subst opcode; (eexists; split; [reflexivity|]);
      apply (code_two (mov_r64_r64 _ _));
      first [ exact (alu_appends AND _ _ _ eq_refl) | exact (alu_appends SUB _ _ _ eq_refl)
            | exact (alu_appends ADD _ _ _ eq_refl) ]. }
  destruct Hc as (f & Hf & ->). apply run_mov_then_alu; try done; apply Hxm || apply Hxn; lia.
Qed.
Lemma translate_dp_runs_witness :
  let st := {| regs := fun r => 100 + r; memory := fun _ => 0 |} in
  exists st', run (code (translate_instruction (enc_arm_dp 14 4 0 1 2 3))) st = Some st' /\
    regs st' 0 = 202 /\ regs st' 2 = 102.
Proof.
  intros st. eexists. split.
  - rewrite (translate_dp_runs 14 4 0 1 2 3 st) by lia. vm_compute. reflexivity.
  - split; reflexivity.
Defined.

Local Ltac reach Hop := unfold translate_instruction; decide_masks Hop.

(** Which body some words of the ARM encoding really get.
    The data-processing opcodes 8 to 15 (TST, TEQ, CMP, CMN, ORR, MOV, BIC, MVN)
    become one NOP, because the cascade wants bit 24 clear; BX becomes a call
    instead of a jump, and BLX a NOP; the multiply body is run on words with 9 in bits
    19-16 and never accumulates, while MUL and MLA proper go to the data-processing
    body; the words the cascade takes for
    VPUSH and VPOP run the body of the other one, and VPUSH with bit 4 of the count
    clear is taken for VLDR/VSTR. *)
Theorem cascade_dispatch op :
  (op &&& 0x0d000000 = 0x01000000 -> op &&& 0x0ffffff0 <> 0x012fff10 ->
     code (translate_instruction op) = [0x90]) /\
  (op &&& 0x0ffffff0 = 0x012fff10 ->
     translate_instruction op = translate_arm32_bx op true /\
     decode (code (translate_instruction op))
       = Some (CallRm (Reg (arm2x86_map_register_arm32 (op &&& 0xf))), [])) /\
  (op &&& 0x0ff00000 = 0 -> op &&& 0x000f0000 = 0x00090000 ->
     translate_instruction op = translate_arm32_mul op false) /\
  (op &&& 0x0fc000f0 = 0x00000090 -> op &&& 0x000f0000 <> 0x00090000 ->
     translate_instruction op = translate_arm32_dp op) /\
  (op &&& 0x0ff00010 = 0x0d200010 -> exists vd size,
     code (translate_instruction op)
       = code (vpush_vpop_loop (Z.to_nat (op &&& 0xff)) false vd 0 size)) /\
  (op &&& 0x0ff00010 = 0x0c900000 -> exists vd size,
     code (translate_instruction op)
       = code (vpush_vpop_loop (Z.to_nat (op &&& 0xff)) true vd 0 size)) /\
  (op &&& 0x0ff00010 = 0x0d200000 -> translate_instruction op = translate_arm32_vldr_vstr op).
Proof.
  split_and!.
  - intros Hop Hbx. reach Hop. rewrite (proj2 (Z.eqb_neq _ _) Hbx). reflexivity.
  - intros Hop. assert (E : translate_instruction op = translate_arm32_bx op true) by (reach Hop; done).
    split; [done|]. rewrite E. unfold translate_arm32_bx. cbv zeta. cbn iota.
    pose proof (map_arm32_range (op &&& 0xf)) as Hr.
    specialize (Hr (proj1 (land_lt op 0xf 16 ltac:(lia)))).
    set (x := arm2x86_map_register_arm32 _) in *. clearbody x. clear - Hr.
    each_of_16 Hr; reflexivity.
  - intros Hop H9. reach Hop. rewrite H9.
    assert (H : (op >>> 21) &&& 1 = 0) by exact (field_known _ _ _ 21 1 Hop ltac:(done) eq_refl).
    by rewrite H.
  - intros Hop H9. reach Hop. rewrite (proj2 (Z.eqb_neq _ _) H9). by rewrite andb_false_r.
  - intros Hop. reach Hop. unfold translate_arm32_vpush_vpop. cbv zeta.
    assert (H : (op >>> 20) &&& 1 = 0) by exact (field_known _ _ _ 20 1 Hop ltac:(done) eq_refl).
    rewrite H. do 2 eexists. destruct (bounded_vpush_loop (Z.to_nat (op &&& 0xff)) false
      (((op >>> 12) &&& 0xf) ||| ((op >>> 22) &&& 0x10)) 0 (if c_true ((op >>> 8) &&& 1) then 8 else 4)) as [Ha _].
    rewrite code_bind_const by apply _. rewrite code_ret. apply app_nil_r.
  - intros Hop. reach Hop. unfold translate_arm32_vpush_vpop. cbv zeta.
    assert (H : (op >>> 20) &&& 1 = 1) by exact (field_known _ _ _ 20 1 Hop ltac:(done) eq_refl).
    rewrite H. do 2 eexists. rewrite code_bind_const by apply _. rewrite code_ret. apply app_nil_r.
  - intros Hop. reach Hop. reflexivity.
Qed.
