(* ===== verification/Frame.v ===== *)
(** * Emitters that look at the cursor

    A translated instruction may read the cursor, remember it and patch bytes it has
    written itself.  This file has the operations the translators use for that, and
    the proof method: [Rel p m1 m2] relates the run of an emitter behind [p] bytes
    with its run in a buffer without them, so that an emitter related to itself for
    every [p] appends the same bytes wherever it starts and leaves the others alone;
    [Grows n m] bounds the number of bytes written.  Both are proved by the structure
    of the emitter ([solve_rel], [solve_grows]). *)
From S2P Require Import Prelude X86 Emit.
From Stdlib Require Import ZArith Lia Bool.
From stdpp Require Import base numbers list.
Open Scope Z_scope.
Open Scope c_scope.

(** ** Operations *)

(** [p[i] = v] *)
Definition poke (p : nat) (i v : Z) : emitter unit := fun b => (tt, write_at (p + Z.to_nat i) [u8 v] b).

(** [*(int32_t * )p = v], little endian. *)
Definition poke32 (p : nat) (v : Z) : emitter unit := fun b => (tt, write_at p (le_bytes 4 v) b).

(** Bytes copied to the cursor, as by [*(uint64_t * )p = v; p += 8]. *)
Definition emit_bytes (l : list Z) : emitter unit := fun b => (tt, b ++ l).

(** A loop over known values. *)
Fixpoint for_each (l : list Z) (f : Z -> emitter unit) : emitter unit :=
  match l with
  | [] => mret tt
  | x :: l => f x ;; for_each l f
  end.

(** ** Independence of the position *)

(** A result that is a position moves with the code. *)
Class Shift (A : Type) := shift : nat -> A -> A.
#[export] Instance shift_nat : Shift nat := Nat.add.
#[export] Instance shift_Z : Shift Z := fun _ x => x.
#[export] Instance shift_unit : Shift unit := fun _ x => x.

Definition Rel {A} `{Shift A} (p : nat) (m1 m2 : emitter A) : Prop :=
  forall pre b, length pre = p -> m1 (pre ++ b) = (shift p (m2 b).1, pre ++ (m2 b).2).

Lemma rel_appends {A} `{Shift A} (m : emitter A) : (forall p, Rel p m m) -> Appends m.
Proof.
  intros Hm b. specialize (Hm (length b) b [] eq_refl). rewrite app_nil_r in Hm.
  by rewrite Hm.
Qed.

Lemma rel_of_appends p (m : emitter unit) : Appends m -> Rel p m m.
Proof.
  intros Hm pre b _. pose proof (Hm (pre ++ b)) as H1. pose proof (Hm b) as H2.
  destruct (m (pre ++ b)) as [[] c1], (m b) as [[] c2]. cbn in *. subst.
  by rewrite app_assoc.
Qed.

Lemma rel_bind {A B} `{Shift A} `{Shift B} p (m1 m2 : emitter A) (f1 f2 : A -> emitter B) :
  Rel p m1 m2 -> (forall a, Rel p (f1 (shift p a)) (f2 a)) -> Rel p (m1 ≫= f1) (m2 ≫= f2).
Proof.
  intros Hm Hf pre b Hp. unfold mbind, emitter_bind. rewrite (Hm pre b Hp).
  destruct (m2 b) as [a c]. cbn. apply (Hf a pre c Hp).
Qed.

Lemma rel_ret {A} `{Shift A} p (a1 a2 : A) : a1 = shift p a2 -> Rel p (mret a1) (mret a2).
Proof. by intros -> pre b Hp. Qed.

Lemma rel_here p : Rel p here here.
Proof. intros pre b <-. unfold here. by rewrite length_app. Qed.

Lemma rel_byte p v1 v2 : v1 = v2 -> Rel p (emit_byte v1) (emit_byte v2).
Proof. intros ->. apply rel_of_appends, _. Qed.

Lemma rel_bytes p l1 l2 : l1 = l2 -> Rel p (emit_bytes l1) (emit_bytes l2).
Proof. intros -> pre b _. unfold emit_bytes. cbn. by rewrite app_assoc. Qed.

Lemma rel_if {A} `{Shift A} p (c1 c2 : bool) (m1 n1 m2 n2 : emitter A) :
  c1 = c2 -> Rel p m1 m2 -> Rel p n1 n2 -> Rel p (if c1 then m1 else n1) (if c2 then m2 else n2).
Proof. intros ->. by destruct c2. Qed.

Lemma write_at_shift pre i l b :
  write_at (length pre + i) l (pre ++ b) = pre ++ write_at i l b.
Proof. apply list_inserts_app_r. Qed.

Lemma rel_poke p q1 q2 i v1 v2 :
  q1 = (p + q2)%nat -> v1 = v2 -> Rel p (poke q1 i v1) (poke q2 i v2).
Proof.
  intros -> -> pre b <-. unfold poke. cbn [fst snd]. by rewrite <- write_at_shift, Nat.add_assoc.
Qed.

Lemma rel_poke32 p q1 q2 v1 v2 :
  q1 = (p + q2)%nat -> v1 = v2 -> Rel p (poke32 q1 v1) (poke32 q2 v2).
Proof. intros -> -> pre b <-. unfold poke32. cbn [fst snd]. by rewrite <- write_at_shift. Qed.

Lemma rel_patch_rel32 p q1 q2 c1 c2 :
  q1 = (p + q2)%nat -> c1 = (p + c2)%nat -> Rel p (patch_rel32 (Some q1) c1) (patch_rel32 (Some q2) c2).
Proof.
  intros -> -> pre b <-. unfold patch_rel32. cbn [fst snd]. rewrite <- write_at_shift.
  by replace (Z.of_nat (length pre + c2) - Z.of_nat (length pre + q2) - 4)
    with (Z.of_nat c2 - Z.of_nat q2 - 4) by lia.
Qed.

Lemma rel_for_each p l f1 f2 : (forall x, Rel p (f1 x) (f2 x)) -> Rel p (for_each l f1) (for_each l f2).
Proof.
  intros Hf. induction l as [|x l IH]; cbn [for_each].
  - by apply rel_ret.
  - apply rel_bind; [apply Hf | done].
Qed.

(** Distances between positions do not change. *)
Ltac same_value :=
  unfold shift, shift_nat, shift_Z, shift_unit;
  first [ reflexivity | lia | f_equal; same_value_args ]
with same_value_args := first [ reflexivity | lia | f_equal; same_value_args ].

(** The emitters known to append; extended by the files that have more of them. *)
Ltac known_appends m :=
  lazymatch m with
  | emit_imm32 ?v => constr:(appends_imm32 v)
  | emit_imm8 ?v => constr:(appends_imm8 v)
  | modrm ?a ?b ?c => constr:(appends_modrm a b c)
  | rex ?a ?b ?c ?d => constr:(appends_rex a b c d)
  | emit_modrm_disp ?a ?b ?c => constr:(appends_modrm_disp a b c)
  end.

Ltac rel_head m := match m with ?f _ => rel_head f | _ => m end.
Ltac rel_step :=
  intros; cbv beta zeta;
  lazymatch goal with
  | |- Rel _ (mbind _ _) (mbind _ _) => simple apply rel_bind
  | |- Rel _ (if _ then _ else _) (if _ then _ else _) => simple apply rel_if; [same_value| |]
  | |- Rel _ (mret _) (mret _) => simple apply rel_ret; same_value
  | |- Rel _ here here => simple apply rel_here
  | |- Rel _ (emit_byte _) (emit_byte _) => simple apply rel_byte; same_value
  | |- Rel _ (emit_bytes _) (emit_bytes _) => simple apply rel_bytes; same_value
  | |- Rel _ (poke _ _ _) (poke _ _ _) => simple apply rel_poke; same_value
  | |- Rel _ (poke32 _ _) (poke32 _ _) => simple apply rel_poke32; same_value
  | |- Rel _ (patch_rel32 _ _) (patch_rel32 _ _) => simple apply rel_patch_rel32; same_value
  | |- Rel _ (for_each _ _) (for_each _ _) => simple apply rel_for_each
  | |- Rel _ ?m _ => 
      first [ let H := known_appends m in exact (rel_of_appends _ m H) | let h := rel_head m in unfold h ]
  end.
Ltac solve_rel := repeat rel_step.

(** ** The number of bytes *)

Definition Grows {A} (n : nat) (m : emitter A) : Prop := forall b, (length (m b).2 <= length b + n)%nat.

Lemma grows_weaken {A} n n' (m : emitter A) : Grows n m -> (n <= n')%nat -> Grows n' m.
Proof. intros Hm Hn b. specialize (Hm b). lia. Qed.

Lemma grows_bind {A B} n k (m : emitter A) (f : A -> emitter B) :
  Grows n m -> (forall a, Grows k (f a)) -> Grows (n + k) (m ≫= f).
Proof.
  intros Hm Hf b. unfold mbind, emitter_bind. specialize (Hm b).
  destruct (m b) as [a c]. specialize (Hf a c). cbn in Hm. lia.
Qed.

Lemma grows_ret {A} (a : A) : Grows 0 (mret a).
Proof. intros b. cbn. lia. Qed.
Lemma grows_here : Grows 0 here.
Proof. intros b. cbn. lia. Qed.
Lemma grows_byte v : Grows 1 (emit_byte v).
Proof. intros b. cbn. rewrite length_app. cbn. lia. Qed.
Lemma grows_bytes l : Grows (length l) (emit_bytes l).
Proof. intros b. cbn. rewrite length_app. lia. Qed.
Lemma grows_poke p i v : Grows 0 (poke p i v).
Proof. intros b. cbn [snd poke]. rewrite length_write_at. lia. Qed.
Lemma grows_poke32 p v : Grows 0 (poke32 p v).
Proof. intros b. cbn [snd poke32]. rewrite length_write_at. lia. Qed.
Lemma grows_patch_rel32 p c : Grows 0 (patch_rel32 (Some p) c).
Proof. intros b. cbn [snd patch_rel32]. rewrite length_write_at. lia. Qed.
Lemma grows_if {A} n k (c : bool) (m1 m2 : emitter A) :
  Grows n m1 -> Grows k m2 -> Grows (n `max` k) (if c then m1 else m2).
Proof. intros. destruct c; eapply grows_weaken; eauto; lia. Qed.
Lemma grows_for_each n l f : (forall x, Grows n (f x)) -> Grows (length l * n) (for_each l f).
Proof.
  intros Hf. induction l as [|x l IH]; cbn [for_each length].
  - apply grows_ret.
  - by apply (grows_bind n (length l * n)).
Qed.
Lemma grows_imm32 v : Grows 4 (emit_imm32 v).
Proof. intros b. rewrite (appends_imm32 v b), code_imm32, length_app, length_le_bytes. lia. Qed.

Ltac grows_step :=
  intros; cbv beta zeta;
  lazymatch goal with
  | |- Grows _ (mbind _ _) => simple eapply grows_bind
  | |- Grows _ (if _ then _ else _) => simple eapply grows_if
  | |- Grows _ (mret _) => simple apply grows_ret
  | |- Grows _ here => simple apply grows_here
  | |- Grows _ (emit_byte _) => simple apply grows_byte
  | |- Grows _ (emit_imm32 _) => simple apply grows_imm32
  | |- Grows _ (emit_bytes _) => simple apply grows_bytes
  | |- Grows _ (poke _ _ _) => simple apply grows_poke
  | |- Grows _ (poke32 _ _) => simple apply grows_poke32
  | |- Grows _ (patch_rel32 _ _) => simple apply grows_patch_rel32
  | |- Grows _ (for_each _ _) => simple eapply grows_for_each
  | |- Grows _ ?m => let h := rel_head m in unfold h
  end.
Ltac solve_grows := intros; eapply grows_weaken; [repeat grows_step | vm_compute; lia].

(** ** The instructions an emitter writes *)

(** [Decodes m il]: behind whatever was there, [m] appends bytes that the processor reads
    as the instructions [il], whatever follows them. *)
Record Decodes (m : emitter unit) (il : list insn) : Prop := {
  dec_appends : Appends m;
  dec_code : forall rest il', disassemble rest = Some il' -> disassemble (code m ++ rest) = Some (il ++ il') }.

Lemma decodes_bind m k il il' : Decodes m il -> Decodes k il' -> Decodes (m ;; k) (il ++ il').
Proof.
  intros [A1 D1] [A2 D2]. split; [by apply appends_bind_const|].
  intros rest l Hl. rewrite code_bind_const by done. rewrite <- !app_assoc. by apply D1, D2.
Qed.

(** An instruction written by three emitters in a row. *)
Lemma decodes_three (a b c k : emitter unit) i il :
  Decodes (a ;; b ;; c) [i] -> Decodes k il -> Decodes (a ;; b ;; c ;; k) (i :: il).
Proof.
  intros H1 H2. destruct (decodes_bind _ _ _ _ H1 H2) as [A D].
  assert (E : forall x, (a ;; b ;; c ;; k) x = ((a ;; b ;; c) ;; k) x).
  { intros x. unfold mbind, emitter_bind. destruct (a x) as [u y]. by destruct (b y). }
  split.
  - intros x. rewrite E. rewrite A. unfold code. by rewrite E.
  - intros rest il' Hr. unfold code. rewrite E. by apply D.
Qed.

Lemma decodes_two (a b k : emitter unit) i il :
  Decodes (a ;; b) [i] -> Decodes k il -> Decodes (a ;; b ;; k) (i :: il).
Proof.
  intros H1 H2. destruct (decodes_bind _ _ _ _ H1 H2) as [A D].
  assert (E : forall x, (a ;; b ;; k) x = ((a ;; b) ;; k) x).
  { intros x. unfold mbind, emitter_bind. by destruct (a x). }
  split.
  - intros x. rewrite E, A. unfold code. by rewrite E.
  - intros rest il' Hr. unfold code. rewrite E. by apply D.
Qed.

Lemma decodes_ret : Decodes (mret tt) [].
Proof. split; [apply appends_ret | done]. Qed.

Lemma decodes_one m i :
  Appends m -> (forall rest, decode (code m ++ rest) = Some (i, rest)) -> Decodes m [i].
Proof.
  intros Ha Hd. split; [done|]. intros rest il' Hr. apply disassemble_cons; [apply Hd | | done].
  intros E. specialize (Hd []). by rewrite E in Hd.
Qed.

Lemma decodes_if (c : bool) m1 m2 il : (c = true -> Decodes m1 il) -> (c = false -> Decodes m2 il) ->
  Decodes (if c then m1 else m2) il.
Proof. destruct c; auto. Qed.

(** What the code of such an emitter does. *)
Lemma decodes_run m il st : Decodes m il -> run (code m) st = exec_all il st.
Proof.
  intros [_ D]. unfold run. specialize (D [] [] eq_refl). rewrite !app_nil_r in D. by rewrite D.
Qed.

Lemma decodes_alu op f d s :
  alu_emitter op = Some f -> Appends (f d s) -> 0 <= d < 16 -> 0 <= s < 16 ->
  Decodes (f d s) [AluRmR op W64 (Reg s) d].
Proof. intros. apply decodes_one; [done|]. intros rest. by apply decode_alu_r64_r64. Qed.

(** Closed code: the bytes are computed. *)
Ltac decodes_closed :=
  apply decodes_one;
  [ apply rel_appends; solve_rel
  | intros rest; match goal with |- ?l = _ => let v := eval vm_compute in l in transitivity v; [vm_compute; reflexivity|] end;
    reflexivity ].
