(* ===== verification/Thumb.v ===== *)
(** * The Thumb translator: [modules/arm2x86_translate_thumb.c]

    The body of each [if] of [translate_thumb16] and [translate_thumb32] is an emitter
    of its own ([t16_add_reg], ..., [t32_usat]); the two functions are the cascades that
    choose among them.  [translate_thumb32] may also set the IT-block state, the
    thread-local [g_it_state] of [modules/arm2x86_regs.c], so it and the block loop are
    computations over that state and the bytes written. *)
From S2P Require Import Prelude X86 Emit Regs Decode64 Translate32 Frame.
From Stdlib Require Import ZArith Lia Bool.
From stdpp Require Import base numbers list.
Open Scope Z_scope.
Open Scope c_scope.

(** ** The IT-block state *)

Record it_state := { condition : Z; it_mask : Z; index : Z; active : Z }.

Definition set_active (v : Z) (s : it_state) : it_state :=
  {| condition := condition s; it_mask := it_mask s; index := index s; active := v |}.
Definition set_index (v : Z) (s : it_state) : it_state :=
  {| condition := condition s; it_mask := it_mask s; index := v; active := active s |}.

Definition init_it_block (firstcond mask : Z) : it_state :=
  {| condition := firstcond &&& 0x0F; it_mask := mask &&& 0x0F; index := 0; active := 1 |}.

Definition g_arm_cond_to_x86_cc : list Z :=
  [0x04; 0x05; 0x02; 0x03; 0x08; 0x09; 0x00; 0x01; 0x07; 0x06; 0x0C; 0x0D; 0x0F; 0x0E; 0x00; 0x00].

Definition get_current_it_condition (s : it_state) : Z :=
  if active s =? 0 then 0x0E
  else
    let cond := condition s in
    let bit_pos := u8 (3 - index s) in
    let mask_bit := (it_mask s >>> bit_pos) &&& 1 in
    if mask_bit =? 0 then
      match cond with
      | 0x00 => 0x01 | 0x01 => 0x00 | 0x02 => 0x03 | 0x03 => 0x02
      | 0x04 => 0x05 | 0x05 => 0x04 | 0x06 => 0x07 | 0x07 => 0x06
      | 0x08 => 0x09 | 0x09 => 0x08 | 0x0A => 0x0B | 0x0B => 0x0A
      | 0x0C => 0x0D | 0x0D => 0x0C | 0x0E => 0x0F | 0x0F => 0x0E
      | _ => cond
      end
    else cond.

Definition advance_it_state (s : it_state) : it_state :=
  if active s =? 0 then s
  else
    let s := set_index (u8 (index s + 1)) s in
    let remaining_mask := it_mask s >>> (4 - index s) in
    if (remaining_mask =? 0) || (4 <=? index s) then set_index 0 (set_active 0 s) else s.

Definition in_it_block (s : it_state) : bool := c_true (active s).

Definition emit_it_cond_jcc (s : it_state) (offset : Z) : emitter nat :=
  let cond := get_current_it_condition s in
  let x86_cc := nth (Z.to_nat cond) g_arm_cond_to_x86_cc 0 in
  emit_byte 0x0f ;;
  emit_byte (0x80 + x86_cc) ;;
  emit_imm32 offset ;;
  cur ← here;
  mret (cur - 4)%nat.

Definition read_le16 (mem : Z -> Z) (p : Z) : Z := u16 (mem p ||| (mem (p + 1) <<< 8)).

Definition is_thumb2_prefix (op16 : Z) : bool :=
  ((op16 &&& 0xe800) =? 0xe800) || ((op16 &&& 0xf800) =? 0xf000).

Definition is_valid_thumb_reg (reg : Z) : bool := reg <? 16.

(** ** The 16-bit instructions *)

Definition t16_add_reg (op16 : Z) : emitter unit :=
  let rd := op16 &&& 0x07 in
  let rn := (op16 >>> 3) &&& 0x07 in
  let rm := (op16 >>> 6) &&& 0x07 in
  let xrd := arm2x86_map_register_arm32 rd in
  let xrn := arm2x86_map_register_arm32 rn in
  let xrm := arm2x86_map_register_arm32 rm in
  mov_r64_r64 xrd xrn ;;
  add_r64_r64 xrd xrm.

Definition t16_sub_reg (op16 : Z) : emitter unit :=
  let rd := op16 &&& 0x07 in
  let rn := (op16 >>> 3) &&& 0x07 in
  let rm := (op16 >>> 6) &&& 0x07 in
  let xrd := arm2x86_map_register_arm32 rd in
  let xrn := arm2x86_map_register_arm32 rn in
  let xrm := arm2x86_map_register_arm32 rm in
  mov_r64_r64 xrd xrn ;;
  sub_r64_r64 xrd xrm.

Definition t16_mov_hi (op16 : Z) : emitter unit :=
  let rd := ((op16 >>> 4) &&& 0x08) ||| (op16 &&& 0x07) in
  let rm := (op16 >>> 3) &&& 0x0f in
  let xrd := arm2x86_map_register_arm32 rd in
  let xrm := arm2x86_map_register_arm32 rm in
  mov_r64_r64 xrd xrm.

Definition t16_add_imm8 (op16 : Z) : emitter unit :=
  let rd := (op16 >>> 8) &&& 0x07 in
  let imm := op16 &&& 0xff in
  let xrd := arm2x86_map_register_arm32 rd in
  rex_r xrd xrd ;;
  emit_byte 0x83 ;;
  modrm 3 0 (xrd &&& 7) ;;
  emit_byte (imm &&& 0xff).

Definition t16_cmp_imm8 (op16 : Z) : emitter unit :=
  let rn := (op16 >>> 8) &&& 0x07 in
  let imm := op16 &&& 0xff in
  let xrn := arm2x86_map_register_arm32 rn in
  rex_r 0 xrn ;;
  emit_byte 0x83 ;;
  modrm 3 7 (xrn &&& 7) ;;
  emit_byte (imm &&& 0xff).

Definition t16_b_cond (op16 : Z) : emitter unit :=
  let cond := (op16 >>> 8) &&& 0x0f in
  let offset := s8 (op16 &&& 0xff) in
  let x86_cond := nth (Z.to_nat cond) arm32_to_x86_cond 0 in
  emit_byte 0x0f ;;
  emit_byte x86_cond ;;
  emit_imm32 (offset - 2).

Definition t16_b (op16 : Z) : emitter unit :=
  let offset := s16 ((op16 &&& 0x7ff) <<< 5) >>> 4 in
  emit_jmp offset ;; mret tt.

Definition t16_bx (op16 : Z) : emitter unit :=
  let rm := (op16 >>> 3) &&& 0x0f in
  let is_blx := (op16 >>> 7) &&& 1 in
  let xrm := arm2x86_map_register_arm32 rm in
  if c_true is_blx then emit_call_reg xrm else emit_jmp_reg xrm.

Definition t16_ldr_literal (op16 : Z) : emitter unit :=
  let rd := (op16 >>> 8) &&& 0x07 in
  let imm := (op16 &&& 0xff) <<< 2 in
  let xrd := arm2x86_map_register_arm32 rd in
  rex_r xrd 0 ;;
  emit_byte 0x8b ;;
  modrm 0 (xrd &&& 7) 5 ;;
  emit_imm32 imm.

Definition t16_ldst_word (op16 : Z) : emitter unit :=
  let rd := op16 &&& 0x07 in
  let rn := (op16 >>> 3) &&& 0x07 in
  let imm := (op16 >>> 6) &&& 0x1f in
  let is_load := (op16 >>> 11) &&& 1 in
  let xrd := arm2x86_map_register_arm32 rd in
  let xrn := arm2x86_map_register_arm32 rn in
  if c_true is_load then
    rex_r xrd xrn ;;
    emit_byte 0x8b ;;
    modrm 1 (xrd &&& 7) (xrn &&& 7) ;;
    emit_byte ((imm <<< 2) &&& 0xff)
  else
    rex_r xrd xrn ;;
    emit_byte 0x89 ;;
    modrm 1 (xrd &&& 7) (xrn &&& 7) ;;
    emit_byte ((imm <<< 2) &&& 0xff).

Definition t16_ldst_byte (op16 : Z) : emitter unit :=
  let rd := op16 &&& 0x07 in
  let rn := (op16 >>> 3) &&& 0x07 in
  let imm := (op16 >>> 6) &&& 0x1f in
  let is_load := (op16 >>> 11) &&& 1 in
  let xrd := arm2x86_map_register_arm32 rd in
  let xrn := arm2x86_map_register_arm32 rn in
  if c_true is_load then
    rex_r 0 xrn ;;
    emit_byte 0x0f ;;
    emit_byte 0xb6 ;;
    modrm 1 (xrd &&& 7) (xrn &&& 7) ;;
    emit_byte (imm &&& 0xff)
  else
    rex_rm xrn xrd ;;
    emit_byte 0x88 ;;
    modrm 1 (xrn &&& 7) (xrd &&& 7) ;;
    emit_byte (imm &&& 0xff).

Definition t16_push (op16 : Z) : emitter unit :=
  let reg_list := op16 &&& 0xff in
  for_each (rev (seqZ 0 16)) (fun r =>
    if c_true (reg_list &&& (1 <<< r)) then
      let xr := arm2x86_map_register_arm32 r in
      rex 1 0 0 (xr >>> 3) ;;
      emit_byte 0xff ;;
      modrm 0 6 4 ;;
      sib 0 4 4
    else mret tt).

Definition t16_pop (op16 : Z) : emitter unit :=
  let reg_list := op16 &&& 0xff in
  for_each (seqZ 0 16) (fun r =>
    if c_true (reg_list &&& (1 <<< r)) then
      let xr := arm2x86_map_register_arm32 r in
      rex 1 0 0 (xr >>> 3) ;;
      emit_byte 0x8f ;;
      modrm 0 0 4 ;;
      sib 0 4 4
    else mret tt).

Definition t16_nop (op16 : Z) : emitter unit := emit_byte 0x90.

Definition t16_svc (op16 : Z) : emitter unit := emit_syscall.

(** [translate_thumb16] returns the number of guest bytes consumed. *)
Definition translate_thumb16 (op16 : Z) : emitter Z :=
  if (op16 &&& 0xff80) =? 0x1800 then t16_add_reg op16 ;; mret 2
  else if (op16 &&& 0xff80) =? 0x1a00 then t16_sub_reg op16 ;; mret 2
  else if (op16 &&& 0xff80) =? 0x4600 then t16_mov_hi op16 ;; mret 2
  else if (op16 &&& 0xff80) =? 0x3000 then t16_add_imm8 op16 ;; mret 2
  else if (op16 &&& 0xf800) =? 0x2800 then t16_cmp_imm8 op16 ;; mret 2
  else if (op16 &&& 0xf000) =? 0xd000 then t16_b_cond op16 ;; mret 2
  else if (op16 &&& 0xf800) =? 0xe000 then t16_b op16 ;; mret 2
  else if (op16 &&& 0xff80) =? 0x4700 then t16_bx op16 ;; mret 2
  else if (op16 &&& 0xf800) =? 0x4800 then t16_ldr_literal op16 ;; mret 2
  else if (op16 &&& 0xf000) =? 0x6000 then t16_ldst_word op16 ;; mret 2
  else if (op16 &&& 0xf000) =? 0x7000 then t16_ldst_byte op16 ;; mret 2
  else if (op16 &&& 0xff00) =? 0xb400 then t16_push op16 ;; mret 2
  else if (op16 &&& 0xff00) =? 0xbc00 then t16_pop op16 ;; mret 2
  else if op16 =? 0x46c0 then t16_nop op16 ;; mret 2
  else if (op16 &&& 0xff00) =? 0xdf00 then t16_svc op16 ;; mret 2
  else emit_byte 0x90 ;; mret 2.

(** ** The 32-bit instructions *)

Definition t32_str_imm (op32 : Z) : emitter unit :=
  let rt := op32 &&& 0x0f in
  let rn := (op32 >>> 16) &&& 0x0f in
  let imm12 := (op32 >>> 12) &&& 0xfff in
  let xrt := arm2x86_map_register_arm32 rt in
  let xrn := arm2x86_map_register_arm32 rn in
  rex_r xrt xrn ;;
  emit_byte 0x89 ;;
  emit_modrm_disp (xrt &&& 7) xrn imm12.

Definition t32_ldr_imm (op32 : Z) : emitter unit :=
  let rt := op32 &&& 0x0f in
  let rn := (op32 >>> 16) &&& 0x0f in
  let imm12 := (op32 >>> 12) &&& 0xfff in
  let xrt := arm2x86_map_register_arm32 rt in
  let xrn := arm2x86_map_register_arm32 rn in
  rex_r xrt xrn ;;
  emit_byte 0x8b ;;
  emit_modrm_disp (xrt &&& 7) xrn imm12.

Definition t32_b (op32 : Z) : emitter unit :=
  let imm11 := op32 &&& 0x7ff in
  let imm10 := (op32 >>> 16) &&& 0x3ff in
  let offset := (imm10 <<< 12) ||| (imm11 <<< 1) in
  let offset := if c_true (offset &&& 0x01000000) then s32 (offset ||| 0xfe000000) else offset in
  let is_bl := b2z (negb ((op32 &&& 0x08000000) =? 0)) in
  if c_true is_bl then emit_call offset ;; mret tt else emit_jmp offset ;; mret tt.

Definition t32_add_reg (op32 : Z) : emitter unit :=
  let rd := (op32 >>> 8) &&& 0xf in
  let rn := (op32 >>> 16) &&& 0xf in
  let rm := op32 &&& 0xf in
  let xrd := arm2x86_map_register_arm32 rd in
  let xrn := arm2x86_map_register_arm32 rn in
  let xrm := arm2x86_map_register_arm32 rm in
  mov_r64_r64 xrd xrn ;;
  add_r64_r64 xrd xrm.

Definition t32_sub_reg (op32 : Z) : emitter unit :=
  let rd := (op32 >>> 8) &&& 0xf in
  let rn := (op32 >>> 16) &&& 0xf in
  let rm := op32 &&& 0xf in
  let xrd := arm2x86_map_register_arm32 rd in
  let xrn := arm2x86_map_register_arm32 rn in
  let xrm := arm2x86_map_register_arm32 rm in
  mov_r64_r64 xrd xrn ;;
  sub_r64_r64 xrd xrm.

Definition t32_mov_reg (op32 : Z) : emitter unit :=
  let rd := (op32 >>> 8) &&& 0xf in
  let rm := op32 &&& 0xf in
  let xrd := arm2x86_map_register_arm32 rd in
  let xrm := arm2x86_map_register_arm32 rm in
  mov_r64_r64 xrd xrm.

Definition t32_cmp_reg (op32 : Z) : emitter unit :=
  let rn := (op32 >>> 16) &&& 0xf in
  let rm := op32 &&& 0xf in
  let xrn := arm2x86_map_register_arm32 rn in
  let xrm := arm2x86_map_register_arm32 rm in
  cmp_r64_r64 xrn xrm.

Definition t32_and_reg (op32 : Z) : emitter unit :=
  let rd := (op32 >>> 8) &&& 0xf in
  let rn := (op32 >>> 16) &&& 0xf in
  let rm := op32 &&& 0xf in
  let xrd := arm2x86_map_register_arm32 rd in
  let xrn := arm2x86_map_register_arm32 rn in
  let xrm := arm2x86_map_register_arm32 rm in
  mov_r64_r64 xrd xrn ;;
  and_r64_r64 xrd xrm.

Definition t32_orr_reg (op32 : Z) : emitter unit :=
  let rd := (op32 >>> 8) &&& 0xf in
  let rn := (op32 >>> 16) &&& 0xf in
  let rm := op32 &&& 0xf in
  let xrd := arm2x86_map_register_arm32 rd in
  let xrn := arm2x86_map_register_arm32 rn in
  let xrm := arm2x86_map_register_arm32 rm in
  mov_r64_r64 xrd xrn ;;
  or_r64_r64 xrd xrm.

Definition t32_eor_reg (op32 : Z) : emitter unit :=
  let rd := (op32 >>> 8) &&& 0xf in
  let rn := (op32 >>> 16) &&& 0xf in
  let rm := op32 &&& 0xf in
  let xrd := arm2x86_map_register_arm32 rd in
  let xrn := arm2x86_map_register_arm32 rn in
  let xrm := arm2x86_map_register_arm32 rm in
  mov_r64_r64 xrd xrn ;;
  xor_r64_r64 xrd xrm.

Definition t32_cbz (op32 : Z) : emitter unit :=
  let rn := (op32 >>> 16) &&& 0xf in
  let is_cbnz := (op32 >>> 24) &&& 1 in
  let imm := ((op32 >>> 4) &&& 0x3e) ||| ((op32 >>> 19) &&& 0x40) in
  let xrn := arm2x86_map_register_arm32 rn in
  test_r64_r64 xrn xrn ;;
  emit_byte 0x0f ;;
  emit_byte (if c_true is_cbnz then 0x85 else 0x84) ;;
  emit_imm32 (u32 (imm - 4)).

Definition t32_adc (op32 : Z) : emitter unit :=
  let rd := (op32 >>> 8) &&& 0xf in
  let rn := (op32 >>> 16) &&& 0xf in
  let rm := op32 &&& 0xf in
  let xrd := arm2x86_map_register_arm32 rd in
  let xrn := arm2x86_map_register_arm32 rn in
  let xrm := arm2x86_map_register_arm32 rm in
  mov_r64_r64 xrd xrn ;;
  rex_r xrd xrm ;;
  emit_byte 0x11 ;;
  modrm 3 (xrd &&& 7) (xrm &&& 7).

Definition t32_sbc (op32 : Z) : emitter unit :=
  let rd := (op32 >>> 8) &&& 0xf in
  let rn := (op32 >>> 16) &&& 0xf in
  let rm := op32 &&& 0xf in
  let xrd := arm2x86_map_register_arm32 rd in
  let xrn := arm2x86_map_register_arm32 rn in
  let xrm := arm2x86_map_register_arm32 rm in
  mov_r64_r64 xrd xrn ;;
  rex_r xrd xrm ;;
  emit_byte 0x19 ;;
  modrm 3 (xrd &&& 7) (xrm &&& 7).

Definition t32_movw (op32 : Z) : emitter unit :=
  let rd := (op32 >>> 8) &&& 0xf in
  let imm4 := (op32 >>> 16) &&& 0xf in
  let imm8 := op32 &&& 0xff in
  let imm := (imm4 <<< 8) ||| imm8 in
  let xrd := arm2x86_map_register_arm32 rd in
  rex_rm 1 xrd ;;
  emit_byte (0xb8 ||| (xrd &&& 7)) ;;
  emit_imm32 imm ;;
  rex_rm 0 xrd ;;
  emit_byte 0x81 ;;
  modrm 3 4 (xrd &&& 7) ;;
  emit_imm32 0xFFFFFFFF.

Definition t32_movt (op32 : Z) : emitter unit :=
  let rd := (op32 >>> 8) &&& 0xf in
  let imm4 := (op32 >>> 16) &&& 0xf in
  let imm8 := op32 &&& 0xff in
  let imm16 := (imm4 <<< 8) ||| imm8 in
  let xrd := arm2x86_map_register_arm32 rd in
  rex_rm 0 xrd ;;
  emit_byte 0x81 ;;
  modrm 3 4 (xrd &&& 7) ;;
  emit_imm32 0x0000FFFF ;;
  rex_rm 0 xrd ;;
  emit_byte 0x81 ;;
  modrm 3 1 (xrd &&& 7) ;;
  emit_imm32 (imm16 <<< 16).

Definition t32_addw (op32 : Z) : emitter unit :=
  let rd := (op32 >>> 8) &&& 0xf in
  let rn := (op32 >>> 16) &&& 0xf in
  let i := (op32 >>> 26) &&& 1 in
  let imm3 := (op32 >>> 12) &&& 7 in
  let imm8 := op32 &&& 0xff in
  let imm := (i <<< 11) ||| (imm3 <<< 8) ||| imm8 in
  let xrd := arm2x86_map_register_arm32 rd in
  let xrn := arm2x86_map_register_arm32 rn in
  mov_r64_r64 xrd xrn ;;
  rex_rm 1 xrd ;;
  emit_byte 0x81 ;;
  modrm 3 0 (xrd &&& 7) ;;
  emit_imm32 imm.

Definition t32_subw (op32 : Z) : emitter unit :=
  let rd := (op32 >>> 8) &&& 0xf in
  let rn := (op32 >>> 16) &&& 0xf in
  let i := (op32 >>> 26) &&& 1 in
  let imm3 := (op32 >>> 12) &&& 7 in
  let imm8 := op32 &&& 0xff in
  let imm := (i <<< 11) ||| (imm3 <<< 8) ||| imm8 in
  let xrd := arm2x86_map_register_arm32 rd in
  let xrn := arm2x86_map_register_arm32 rn in
  mov_r64_r64 xrd xrn ;;
  rex_rm 1 xrd ;;
  emit_byte 0x81 ;;
  modrm 3 5 (xrd &&& 7) ;;
  emit_imm32 imm.

Definition t32_ldrd (op32 : Z) : emitter unit :=
  let rt := op32 &&& 0xf in
  let rt2 := (op32 >>> 12) &&& 0xf in
  let rn := (op32 >>> 16) &&& 0xf in
  let imm8 := (op32 >>> 4) &&& 0xff in
  let xrt := arm2x86_map_register_arm32 rt in
  let xrt2 := arm2x86_map_register_arm32 rt2 in
  let xrn := arm2x86_map_register_arm32 rn in
  rex_r xrt xrn ;;
  emit_byte 0x8b ;;
  emit_modrm_disp (xrt &&& 7) xrn (imm8 * 4) ;;
  rex_r xrt2 xrn ;;
  emit_byte 0x8b ;;
  emit_modrm_disp (xrt2 &&& 7) xrn (imm8 * 4 + 4).

Definition t32_strd (op32 : Z) : emitter unit :=
  let rt := op32 &&& 0xf in
  let rt2 := (op32 >>> 12) &&& 0xf in
  let rn := (op32 >>> 16) &&& 0xf in
  let imm8 := (op32 >>> 4) &&& 0xff in
  let xrt := arm2x86_map_register_arm32 rt in
  let xrt2 := arm2x86_map_register_arm32 rt2 in
  let xrn := arm2x86_map_register_arm32 rn in
  rex_r xrt xrn ;;
  emit_byte 0x89 ;;
  emit_modrm_disp (xrt &&& 7) xrn (imm8 * 4) ;;
  rex_r xrt2 xrn ;;
  emit_byte 0x89 ;;
  emit_modrm_disp (xrt2 &&& 7) xrn (imm8 * 4 + 4).

(** One transfer of a load or store multiple, and the loop over the registers. *)
Fixpoint t32_transfer_loop (n : nat) (opcode reg_list xrn r offset : Z) : emitter Z :=
  match n with
  | O => mret offset
  | S n =>
    if c_true (reg_list &&& (1 <<< r)) then
      let xr := arm2x86_map_register_arm32 r in
      rex_r xr xrn ;;
      emit_byte opcode ;;
      emit_modrm_disp (xr &&& 7) xrn offset ;;
      t32_transfer_loop n opcode reg_list xrn (r + 1) (offset + 8)
    else t32_transfer_loop n opcode reg_list xrn (r + 1) offset
  end.

Definition t32_multiple (opcode op32 : Z) : emitter unit :=
  let rn := (op32 >>> 16) &&& 0xf in
  let wback := (op32 >>> 21) &&& 1 in
  let reg_list := op32 &&& 0xffff in
  let xrn := arm2x86_map_register_arm32 rn in
  offset ← t32_transfer_loop 16 opcode reg_list xrn 0 0;
  if c_true wback then
    rex_rm 1 xrn ;;
    emit_byte 0x81 ;;
    modrm 3 0 (xrn &&& 7) ;;
    emit_imm32 offset
  else mret tt.

Definition t32_ldmia (op32 : Z) : emitter unit := t32_multiple 0x8b op32.
Definition t32_stmia (op32 : Z) : emitter unit := t32_multiple 0x89 op32.

Definition t32_blx (op32 : Z) : emitter unit :=
  let rm := (op32 >>> 3) &&& 0xf in
  let xrm := arm2x86_map_register_arm32 rm in
  let xlr := arm2x86_map_register_arm32 14 in
  emit_call_reg xrm.

Definition t32_bfi (op32 : Z) : emitter unit :=
  let rd := (op32 >>> 8) &&& 0xf in
  let rn := (op32 >>> 16) &&& 0xf in
  let rm := op32 &&& 0xf in
  let msb := (op32 >>> 16) &&& 0x1f in
  let lsb := (op32 >>> 5) &&& 0x1f in
  let xrd := arm2x86_map_register_arm32 rd in
  let xrn := arm2x86_map_register_arm32 rn in
  let xrm := arm2x86_map_register_arm32 rm in
  let width := msb - lsb + 1 in
  if (width <=? 0) || (64 <? width) || (64 <=? lsb) then mret tt
  else
    let mask := if width =? 64 then u64 (Z.lnot 0) else u64 (u64 (1 <<< width - 1) <<< lsb) in
    rex_rm 1 xrd ;;
    emit_byte (0xb8 ||| (xrd &&& 7)) ;;
    emit_imm32 (s32 (u64 (Z.lnot mask))) ;;
    rex_r xrd xrn ;;
    emit_byte 0x21 ;;
    modrm 3 (xrd &&& 7) (xrn &&& 7) ;;
    rex_rm 0 xrm ;;
    emit_byte 0xc1 ;;
    modrm 3 4 (xrm &&& 7) ;;
    emit_byte lsb ;;
    rex_r xrd xrm ;;
    emit_byte 0x09 ;;
    modrm 3 (xrd &&& 7) (xrm &&& 7).

Definition t32_bfc (op32 : Z) : emitter unit :=
  let rd := (op32 >>> 8) &&& 0xf in
  let msb := (op32 >>> 16) &&& 0x1f in
  let lsb := (op32 >>> 5) &&& 0x1f in
  let xrd := arm2x86_map_register_arm32 rd in
  let width := msb - lsb + 1 in
  if (width <=? 0) || (64 <? width) || (64 <=? lsb) then mret tt
  else
    let mask := if width =? 64 then 0 else u64 (Z.lnot (u64 (u64 (1 <<< width - 1) <<< lsb))) in
    rex_rm 0 xrd ;;
    emit_byte 0x81 ;;
    modrm 3 4 (xrd &&& 7) ;;
    emit_imm32 (s32 mask).

Definition t32_sbfx (op32 : Z) : emitter unit :=
  let rd := (op32 >>> 8) &&& 0xf in
  let rn := (op32 >>> 16) &&& 0xf in
  let msb := (op32 >>> 16) &&& 0x1f in
  let lsb := (op32 >>> 5) &&& 0x1f in
  let xrd := arm2x86_map_register_arm32 rd in
  let xrn := arm2x86_map_register_arm32 rn in
  let width := msb - lsb + 1 in
  mov_r64_r64 xrd xrn ;;
  rex_rm 0 xrd ;;
  emit_byte 0xc1 ;;
  modrm 3 7 (xrd &&& 7) ;;
  emit_byte lsb ;;
  if width <? 64 then
    rex_rm 0 xrd ;;
    emit_byte 0xc1 ;;
    modrm 3 4 (xrd &&& 7) ;;
    emit_byte (64 - width) ;;
    rex_rm 0 xrd ;;
    emit_byte 0xc1 ;;
    modrm 3 7 (xrd &&& 7) ;;
    emit_byte (64 - width)
  else mret tt.

(** A negative width is a shift out of range: its result is not defined by C. *)
Definition t32_ubfx (undefined_shift : Z -> Z -> Z) (op32 : Z) : emitter unit :=
  let rd := (op32 >>> 8) &&& 0xf in
  let rn := (op32 >>> 16) &&& 0xf in
  let msb := (op32 >>> 16) &&& 0x1f in
  let lsb := (op32 >>> 5) &&& 0x1f in
  let xrd := arm2x86_map_register_arm32 rd in
  let xrn := arm2x86_map_register_arm32 rn in
  let width := msb - lsb + 1 in
  mov_r64_r64 xrd xrn ;;
  rex_rm 0 xrd ;;
  emit_byte 0xc1 ;;
  modrm 3 5 (xrd &&& 7) ;;
  emit_byte lsb ;;
  if width <? 64 then
    let mask := u64 ((if width <? 0 then undefined_shift 1 width else 1 <<< width) - 1) in
    rex_rm 0 xrd ;;
    emit_byte 0x81 ;;
    modrm 3 4 (xrd &&& 7) ;;
    emit_imm32 (s32 mask)
  else mret tt.

Definition t32_rev (op32 : Z) : emitter unit :=
  let rd := (op32 >>> 8) &&& 0xf in
  let rn := (op32 >>> 16) &&& 0xf in
  let rm := op32 &&& 0xf in
  let xrd := arm2x86_map_register_arm32 rd in
  let xrn := arm2x86_map_register_arm32 rn in
  rex 1 0 0 (xrn >>> 3) ;;
  emit_byte 0x0f ;;
  emit_byte (0xc8 ||| (xrn &&& 7)) ;;
  mov_r64_r64 xrd xrn.

Definition t32_rev16 (op32 : Z) : emitter unit :=
  let rd := (op32 >>> 8) &&& 0xf in
  let rn := (op32 >>> 16) &&& 0xf in
  let rm := op32 &&& 0xf in
  let xrd := arm2x86_map_register_arm32 rd in
  let xrn := arm2x86_map_register_arm32 rn in
  mov_r64_r64 xrd xrn ;;
  emit_byte 0x50 ;;
  rex 1 0 0 (xrd >>> 3) ;;
  emit_byte 0xc1 ;; emit_byte 0xe8 ;; emit_byte 0x08 ;;
  rex 1 0 0 (xrd >>> 3) ;;
  emit_byte 0x48 ;; emit_byte 0x81 ;; emit_byte (0xe0 ||| (xrd &&& 7)) ;;
  emit_byte 0xff ;; emit_byte 0x00 ;; emit_byte 0xff ;; emit_byte 0x00 ;;
  emit_byte 0x58 ;;
  rex 1 0 0 (xrd >>> 3) ;;
  emit_byte 0xc1 ;; emit_byte 0xe0 ;; emit_byte 0x08 ;;
  rex 1 0 0 (xrd >>> 3) ;;
  emit_byte 0x48 ;; emit_byte 0x81 ;; emit_byte (0xe0 ||| (xrd &&& 7)) ;;
  emit_byte 0x00 ;; emit_byte 0xff ;; emit_byte 0x00 ;; emit_byte 0xff.

Definition t32_revsh (op32 : Z) : emitter unit :=
  let rd := (op32 >>> 8) &&& 0xf in
  let rn := (op32 >>> 16) &&& 0xf in
  let rm := op32 &&& 0xf in
  let xrd := arm2x86_map_register_arm32 rd in
  let xrn := arm2x86_map_register_arm32 rn in
  mov_r64_r64 xrd xrn ;;
  rex_r xrd xrn ;;
  emit_byte 0xc1 ;;
  modrm 3 4 (xrd &&& 7) ;;
  emit_byte 8 ;;
  rex 1 0 (xrd >>> 3) (xrd >>> 3) ;;
  emit_byte 0x0f ;;
  emit_byte 0xbf ;;
  modrm 3 (xrd &&& 7) (xrd &&& 7).

Definition t32_ssat (op32 : Z) : emitter unit :=
  let rd := (op32 >>> 8) &&& 0xf in
  let rn := (op32 >>> 16) &&& 0xf in
  let sat_imm := ((op32 >>> 16) &&& 0x1f) + 1 in
  let xrd := arm2x86_map_register_arm32 rd in
  let xrn := arm2x86_map_register_arm32 rn in
  let max_val := 1 <<< (sat_imm - 1) - 1 in
  let min_val := - (1 <<< (sat_imm - 1)) in
  mov_r64_r64 xrd xrn ;;
  rex_rm 1 xrd ;;
  emit_byte 0x81 ;;
  modrm 3 7 (xrd &&& 7) ;;
  emit_imm32 max_val ;;
  rex_rm 1 11 ;;
  emit_byte (0xb8 ||| (11 &&& 7)) ;;
  emit_imm32 max_val ;;
  rex_r 11 xrd ;;
  emit_byte 0x0f ;;
  emit_byte 0x4f ;;
  modrm 3 (11 &&& 7) (xrd &&& 7) ;;
  mov_r64_r64 xrd 11 ;;
  rex_rm 1 xrd ;;
  emit_byte 0x81 ;;
  modrm 3 7 (xrd &&& 7) ;;
  emit_imm32 min_val ;;
  rex_rm 1 11 ;;
  emit_byte (0xb8 ||| (11 &&& 7)) ;;
  emit_imm32 min_val ;;
  rex_r 11 xrd ;;
  emit_byte 0x0f ;;
  emit_byte 0x4c ;;
  modrm 3 (11 &&& 7) (xrd &&& 7) ;;
  mov_r64_r64 xrd 11.

Definition t32_usat (op32 : Z) : emitter unit :=
  let rd := (op32 >>> 8) &&& 0xf in
  let rn := (op32 >>> 16) &&& 0xf in
  let sat_imm := ((op32 >>> 16) &&& 0x1f) + 1 in
  let xrd := arm2x86_map_register_arm32 rd in
  let xrn := arm2x86_map_register_arm32 rn in
  mov_r64_r64 xrd xrn ;;
  rex_rm 0 xrd ;;
  emit_byte 0xf7 ;;
  modrm 3 0 (xrd &&& 7) ;;
  emit_byte 0x00 ;; emit_byte 0x00 ;; emit_byte 0x00 ;; emit_byte 0x00 ;;
  emit_byte 0x80 ;; emit_byte 0x00 ;; emit_byte 0x00 ;; emit_byte 0x00 ;;
  emit_byte (0xb8 ||| (xrd &&& 7)) ;;
  emit_imm32 0 ;;
  let max_val := u64 (1 <<< sat_imm - 1) in
  rex_rm 1 xrd ;;
  emit_byte 0x81 ;;
  modrm 3 7 (xrd &&& 7) ;;
  emit_imm32 (s32 max_val) ;;
  rex_rm 1 11 ;;
  emit_byte (0xb8 ||| (11 &&& 7)) ;;
  emit_imm32 (s32 max_val) ;;
  rex_r 11 xrd ;;
  emit_byte 0x0f ;;
  emit_byte 0x46 ;;
  modrm 3 (11 &&& 7) (xrd &&& 7) ;;
  mov_r64_r64 xrd 11.

(** ** The cascade and the block loop *)

(** Computations over the IT state and the bytes written. *)
Definition thumb (A : Type) : Type := it_state -> list Z -> A * it_state * list Z.

#[export] Instance thumb_ret : MRet thumb := fun A a s b => (a, s, b).
#[export] Instance thumb_bind : MBind thumb :=
  fun A B f m s b => let '(a, s, b) := m s b in f a s b.

Definition lift {A} (m : emitter A) : thumb A := fun s b => let '(a, b) := m b in (a, s, b).
Definition put_it (s : it_state) : thumb unit := fun _ b => (tt, s, b).
Definition modify_it (f : it_state -> it_state) : thumb unit := fun s b => (tt, f s, b).

Definition t32_it_state (op32 : Z) : it_state :=
  let firstcond := (op32 >>> 12) &&& 0x0F in
  let mask := op32 &&& 0x0F in
  init_it_block firstcond mask.

Section Thumb.
Context (undefined_shift : Z -> Z -> Z).

Definition translate_thumb32 (op32 : Z) : thumb Z :=
  if (op32 &&& 0xfe800000) =? 0xf8800000 then lift (t32_str_imm op32) ;; mret 4
  else if (op32 &&& 0xfe800000) =? 0xf8000000 then lift (t32_ldr_imm op32) ;; mret 4
  else if (op32 &&& 0xf800d000) =? 0xf0009000 then lift (t32_b op32) ;; mret 4
  else if (op32 &&& 0xfff00000) =? 0xeb000000 then lift (t32_add_reg op32) ;; mret 4
  else if (op32 &&& 0xfff00000) =? 0xeba00000 then lift (t32_sub_reg op32) ;; mret 4
  else if (op32 &&& 0xfff00000) =? 0xea400000 then lift (t32_mov_reg op32) ;; mret 4
  else if (op32 &&& 0xfff00000) =? 0xebb00000 then lift (t32_cmp_reg op32) ;; mret 4
  else if ((op32 &&& 0xfff00000) =? 0xf0000000) && ((op32 &&& 0x000f0000) =? 0x00000000) then lift (t32_and_reg op32) ;; mret 4
  else if (op32 &&& 0xfff00000) =? 0xf0400000 then lift (t32_orr_reg op32) ;; mret 4
  else if (op32 &&& 0xfff00000) =? 0xf0800000 then lift (t32_eor_reg op32) ;; mret 4
  else if (op32 &&& 0xff100000) =? 0xf1100000 then lift (t32_cbz op32) ;; mret 4
  else if (op32 &&& 0xfff000f0) =? 0xeb400050 then lift (t32_adc op32) ;; mret 4
  else if (op32 &&& 0xfff000f0) =? 0xee400050 then lift (t32_sbc op32) ;; mret 4
  else if (op32 &&& 0xfbf08000) =? 0xf2400000 then lift (t32_movw op32) ;; mret 4
  else if (op32 &&& 0xfbf08000) =? 0xf2c00000 then lift (t32_movt op32) ;; mret 4
  else if (op32 &&& 0xfbf08000) =? 0xf2000000 then lift (t32_addw op32) ;; mret 4
  else if (op32 &&& 0xfbf08000) =? 0xf2a00000 then lift (t32_subw op32) ;; mret 4
  else if (op32 &&& 0xfff00000) =? 0xe8500000 then lift (t32_ldrd op32) ;; mret 4
  else if (op32 &&& 0xfff00000) =? 0xe8000000 then lift (t32_strd op32) ;; mret 4
  else if (op32 &&& 0xfff00000) =? 0xe8900000 then lift (t32_ldmia op32) ;; mret 4
  else if (op32 &&& 0xfff00000) =? 0xe8800000 then lift (t32_stmia op32) ;; mret 4
  else if (op32 &&& 0xff00ff00) =? 0xbf000000 then
    put_it (t32_it_state op32) ;; lift (emit_byte 0x90) ;; mret 4
  else if (op32 &&& 0xfff000ff) =? 0x47800000 then lift (t32_blx op32) ;; mret 4
  else if (op32 &&& 0xffe00010) =? 0xf3400000 then lift (t32_bfi op32) ;; mret 4
  else if (op32 &&& 0xffe0001f) =? 0xf360001f then lift (t32_bfc op32) ;; mret 4
  else if (op32 &&& 0xffff0010) =? 0xf3500000 then lift (t32_sbfx op32) ;; mret 4
  else if (op32 &&& 0xffff0010) =? 0xf3700000 then lift (t32_ubfx undefined_shift op32) ;; mret 4
  else if (op32 &&& 0xfff000ff) =? 0xfa8000f0 then lift (t32_rev op32) ;; mret 4
  else if (op32 &&& 0xfff000ff) =? 0xfa8000b0 then lift (t32_rev16 op32) ;; mret 4
  else if (op32 &&& 0xfff000ff) =? 0xfa800030 then lift (t32_revsh op32) ;; mret 4
  else if (op32 &&& 0xffe00010) =? 0xf3600000 then lift (t32_ssat op32) ;; mret 4
  else if (op32 &&& 0xffe00010) =? 0xf3e00000 then lift (t32_usat op32) ;; mret 4
  else lift (emit_byte 0x90) ;; mret 4.

(** Branches end an IT block before they are translated. *)
Definition ends_it_block (wide : bool) (op16 lookahead_op32 : Z) : bool :=
  if wide then
    ((lookahead_op32 &&& 0xf000d000) =? 0xf0009000) || ((lookahead_op32 &&& 0xfff000ff) =? 0x47800000)
  else (op16 &&& 0xf000) =? 0xd000.

(** One iteration of the loop at [src]; returns the number of bytes consumed. *)
Definition thumb_step (mem : Z -> Z) (src end_ : Z) : thumb Z :=
  let op16 := read_le16 mem src in
  let wide := is_thumb2_prefix op16 && (src + 4 <=? end_) in
  let op32 := (op16 <<< 16) ||| read_le16 mem (src + 2) in
  (if ends_it_block wide op16 op32 then modify_it (set_active 0) else mret tt) ;;
  len ← (if wide then translate_thumb32 op32
         else if is_thumb2_prefix op16 then lift (emit_byte 0x90) ;; mret 2
         else lift (translate_thumb16 op16));
  modify_it advance_it_state ;;
  mret len.

(** [while (src + 2 <= end)]; [false] when the fuel runs out. *)
Fixpoint thumb_loop (fuel : nat) (mem : Z -> Z) (src end_ : Z) : thumb bool :=
  match fuel with
  | O => mret false
  | S fuel =>
    if src + 2 <=? end_ then
      len ← thumb_step mem src end_;
      thumb_loop fuel mem (src + len) end_
    else mret true
  end.

Definition reset_it : it_state := {| condition := 0; it_mask := 0; index := 0; active := 0 |}.

(** Returns the code, the bytes written and [*x86_size], and the IT state left behind;
    [None] only when the fuel runs out.  The context argument is not used. *)
Definition arm2x86_convert_block_thumb (fuel : nat) (mem : Z -> Z) (thumb_code thumb_size : Z)
    : option (Z * list Z * Z * it_state) :=
  match thumb_loop fuel mem thumb_code (thumb_code + thumb_size) reset_it [] with
  | (true, s, buf) => Some (ARM2X86_OK, buf, Z.of_nat (length buf), s)
  | _ => None
  end.

(** ** Every case appends, a bounded number of bytes *)

Lemma rel_transfer p n o l x r f : Rel p (t32_transfer_loop n o l x r f) (t32_transfer_loop n o l x r f).
Proof.
  revert r f. induction n as [|n IH]; intros; cbn [t32_transfer_loop]; [by apply rel_ret|].
  apply rel_if; [done| |apply IH]. cbv zeta.
  repeat (apply rel_bind; [solve_rel | intros _]). apply IH.
Qed.

Lemma grows_transfer n o l x r f : Grows (8 * n) (t32_transfer_loop n o l x r f).
Proof.
  revert r f. induction n as [|n IH]; intros; cbn [t32_transfer_loop]; [apply grows_ret|].
  eapply grows_weaken; [apply grows_if; [|apply (IH (r + 1) f)]|]; cbv zeta.
  - apply (grows_bind 1); [solve_grows|intros _]. apply (grows_bind 1); [solve_grows|intros _].
    apply (grows_bind 6 (8 * n)); [solve_grows|intros _]. apply IH.
  - lia.
Qed.

(** What a case of the cascades does to the output. *)
Record Case (m : emitter unit) : Prop := {
  case_appends : Appends m;
  case_length : (length (code m) <= 135)%nat }.

Lemma case_of m : (forall p, Rel p m m) -> Grows 135 m -> Case m.
Proof.
  intros Hr Hg. split; [by apply rel_appends|]. specialize (Hg []). unfold code. cbn in Hg. lia.
Qed.

Lemma case_multiple o op : Case (t32_multiple o op).
Proof.
  unfold t32_multiple. cbv zeta. apply case_of.
  - intros p. apply rel_bind; [apply rel_transfer | intros; unfold shift, shift_Z; solve_rel].
  - apply (grows_bind 128 7); [apply (grows_transfer 16) | solve_grows].
Qed.

Ltac solve_case :=
  intros; apply case_of; [intros p; solve_rel | eapply grows_weaken; [repeat grows_step | vm_compute; lia]].

(** A case of [translate_thumb16] followed by its result, and the cascade. *)
Record Reads (n : Z) (m : emitter Z) : Prop := {
  reads_run : forall b, m b = (n, b ++ code m);
  reads_length : (length (code m) <= 135)%nat }.

Lemma reads_case n m : Case m -> Reads n (m ;; mret n).
Proof.
  intros [Ha Hl]. assert (E : forall b, (m ;; mret n) b = (n, b ++ code m)).
  { intros b. specialize (Ha b). unfold mbind, emitter_bind. destruct (m b) as [[] c]. by cbn in *; subst. }
  assert (Ec : code (m ;; mret n) = code m) by (unfold code at 1; by rewrite E).
  split; [intros b; by rewrite E, Ec | by rewrite Ec].
Qed.

Lemma reads_if n (c : bool) m1 m2 : Reads n m1 -> Reads n m2 -> Reads n (if c then m1 else m2).
Proof. by destruct c. Qed.

Lemma reads_thumb16 op16 : Reads 2 (translate_thumb16 op16).
Proof.
  unfold translate_thumb16.
  repeat (apply reads_if; [apply reads_case; solve_case|]). apply reads_case. solve_case.
Qed.

(** The same for [translate_thumb32], which leaves the IT state alone. *)
Definition Keeps (n : Z) (m : thumb Z) : Prop :=
  exists c, (length c <= 135)%nat /\ forall s b, m s b = (n, s, b ++ c).

Lemma keeps_case n m : Case m -> Keeps n (lift m ;; mret n).
Proof.
  intros [Ha Hl]. exists (code m). split; [done|]. intros s b. specialize (Ha b).
  unfold mbind, thumb_bind, lift. destruct (m b) as [[] c]. by cbn in *; subst.
Qed.

Lemma keeps_if n (c : bool) m1 m2 : Keeps n m1 -> Keeps n m2 -> Keeps n (if c then m1 else m2).
Proof. by destruct c. Qed.

(** A 32-bit instruction as the loop reads it: a prefix in its upper half. *)
Definition prefix_word (op32 : Z) : Prop := is_thumb2_prefix (op32 >>> 16) = true.

Lemma land_shl x m k : 0 <= k -> x &&& (m <<< k) = ((x >>> k) &&& m) <<< k.
Proof. intros Hk. by rewrite Z.land_comm, shl_land, Z.land_comm by lia. Qed.

(** The three prefixes: 11101, 11110 and 11111 in the upper five bits. *)
Lemma prefix_bits op16 : 0 <= op16 < 2^16 ->
  is_thumb2_prefix op16 = (29 <=? op16 >>> 11).
Proof.
  intros H. unfold is_thumb2_prefix.
  change 0xe800 with (0x1d <<< 11). change 0xf800 with (0x1f <<< 11). change 0xf000 with (0x1e <<< 11).
  rewrite !land_shl by lia.
  assert (Hh : 0 <= op16 >>> 11 < 32).
  { rewrite Z.shiftr_div_pow2 by lia. split; [apply Z.div_pos; lia | apply Z.div_lt_upper_bound; lia]. }
  set (h := op16 >>> 11) in *. clearbody h. apply eqb_true_iff. revert h Hh.
  apply (all_below_spec 32 (fun h => Bool.eqb ((((h &&& 0x1d) <<< 11) =? (0x1d <<< 11))
    || (((h &&& 0x1f) <<< 11) =? (0x1e <<< 11))) (29 <=? h))).
  vm_compute. reflexivity.
Qed.

Lemma prefix_word_mask op32 m c : prefix_word op32 -> (op32 &&& m) = c ->
  (m >>> 16) &&& 0xf800 = 0xf800 -> is_thumb2_prefix (c >>> 16) = true.
Proof.
  unfold prefix_word, is_thumb2_prefix. intros Hp <- Hm. rewrite Z.shiftr_land.
  assert (H1 : forall k, k &&& 0xf800 = k -> ((op32 >>> 16) &&& (m >>> 16)) &&& k = (op32 >>> 16) &&& k).
  { intros k Hk. rewrite <- Z.land_assoc. f_equal. rewrite <- Hk at 1.
    rewrite (Z.land_comm k), Z.land_assoc, Hm. rewrite Z.land_comm. exact Hk. }
  by rewrite !H1.
Qed.

Lemma keeps_thumb32 op32 : prefix_word op32 -> Keeps 4 (translate_thumb32 op32).
Proof.
  intros Hp. unfold translate_thumb32.
  repeat match goal with
  | |- Keeps _ (if (op32 &&& 0xff00ff00) =? _ then _ else _) =>
      destruct (Z.eqb_spec (op32 &&& 0xff00ff00) 0xbf000000) as [E|_];
      [by pose proof (prefix_word_mask op32 _ _ Hp E eq_refl)|]
  | |- Keeps _ (if _ then _ else _) =>
      apply keeps_if; [apply keeps_case; first [apply case_multiple | solve_case]|]
  end.
  apply keeps_case. solve_case.
Qed.

(** ** The block *)

(** The guest instructions of a block, as the loop cuts it. *)
Inductive thumb_unit := T16 (op16 : Z) | T32 (op32 : Z) | Truncated.

Definition unit_size (u : thumb_unit) : Z := match u with T32 _ => 4 | _ => 2 end.

Definition unit_code (u : thumb_unit) : list Z :=
  match u with
  | T16 op16 => code (translate_thumb16 op16)
  | T32 op32 => (translate_thumb32 op32 reset_it []).2
  | Truncated => [0x90]
  end.

Definition next_unit (mem : Z -> Z) (src end_ : Z) : thumb_unit :=
  let op16 := read_le16 mem src in
  if is_thumb2_prefix op16 then
    if src + 4 <=? end_ then T32 ((op16 <<< 16) ||| read_le16 mem (src + 2)) else Truncated
  else T16 op16.

Fixpoint thumb_units (n : nat) (mem : Z -> Z) (src end_ : Z) : list thumb_unit :=
  match n with
  | O => []
  | S n =>
    if src + 2 <=? end_ then
      let u := next_unit mem src end_ in u :: thumb_units n mem (src + unit_size u) end_
    else []
  end.

Lemma read_le16_range mem p : 0 <= read_le16 mem p < 2^16.
Proof. apply Z.mod_pos_bound. lia. Qed.

Lemma prefix_word_of op16 lo : 0 <= lo < 2^16 -> is_thumb2_prefix op16 = true ->
  prefix_word ((op16 <<< 16) ||| lo).
Proof.
  intros Hlo Hp. unfold prefix_word. rewrite Z.shiftr_lor, Z.shiftr_shiftl_l, Z.shiftl_0_r by lia.
  rewrite (Z.shiftr_div_pow2 lo), Z.div_small, Z.lor_0_r by lia. done.
Qed.

Lemma t32_code_run op32 s b : prefix_word op32 ->
  translate_thumb32 op32 s b = (4, s, b ++ unit_code (T32 op32)) /\
  (length (unit_code (T32 op32)) <= 135)%nat.
Proof.
  intros Hp. destruct (keeps_thumb32 op32 Hp) as (c & Hl & Hr). cbn [unit_code].
  rewrite (Hr reset_it []). cbn [snd app]. by rewrite Hr.
Qed.

Lemma thumb_step_eq mem src end_ b :
  let u := next_unit mem src end_ in
  thumb_step mem src end_ reset_it b = (unit_size u, reset_it, b ++ unit_code u) /\
  (length (unit_code u) <= 135)%nat.
Proof.
  unfold thumb_step, next_unit. cbv zeta. pose proof (read_le16_range mem (src + 2)) as Hlo.
  set (op16 := read_le16 mem src). clearbody op16.
  assert (Hskip : forall c : bool, (if c then modify_it (set_active 0) else mret tt) reset_it b = (tt, reset_it, b))
    by (by intros []).
  unfold mbind at 1, thumb_bind at 1. rewrite Hskip. unfold mbind, thumb_bind, modify_it.
  destruct (is_thumb2_prefix op16) eqn:Hp.
  - destruct (src + 4 <=? end_); cbn [andb].
    + pose proof (prefix_word_of op16 _ Hlo Hp) as Hw.
      destruct (t32_code_run _ reset_it b Hw) as [Hr Hl]. rewrite Hr. split; [reflexivity | exact Hl].
    + split; [reflexivity | cbn; lia].
  - cbn [andb]. destruct (reads_thumb16 op16) as [Hr Hl]. unfold lift. rewrite Hr.
    split; [reflexivity | exact Hl].
Qed.

Lemma thumb_loop_S n mem src e :
  thumb_loop (S n) mem src e =
    if src + 2 <=? e then (len ← thumb_step mem src e; thumb_loop n mem (src + len) e) else mret true.
Proof. done. Qed.

Lemma unit_size_pos u : 2 <= unit_size u.
Proof. destruct u; cbn; lia. Qed.

Lemma next_unit_fits mem src e : src + 2 <= e -> src + unit_size (next_unit mem src e) <= e.
Proof.
  intros H. unfold next_unit. destruct (is_thumb2_prefix _); [|cbn; lia].
  destruct (Z.leb_spec (src + 4) e); cbn; lia.
Qed.

Lemma thumb_loop_eq n mem src e b :
  e < src + 2 * Z.of_nat n + 2 ->
  thumb_loop (S n) mem src e reset_it b =
    (true, reset_it, b ++ concat (map unit_code (thumb_units n mem src e))).
Proof.
  revert src b. induction n as [|n IH]; intros src b Hn.
  - rewrite thumb_loop_S. rewrite (proj2 (Z.leb_gt _ _)) by lia. cbn. by rewrite app_nil_r.
  - rewrite thumb_loop_S. cbn [thumb_units].
    destruct (Z.leb_spec (src + 2) e) as [Hs|Hs]; [|cbn; by rewrite app_nil_r].
    pose proof (thumb_step_eq mem src e b) as [Hstep _]. cbv zeta in Hstep.
    unfold mbind at 1, thumb_bind at 1. rewrite Hstep.
    pose proof (unit_size_pos (next_unit mem src e)).
    rewrite IH by lia. cbn [map concat]. by rewrite app_assoc.
Qed.

Lemma thumb_units_length n mem src e :
  (length (concat (map unit_code (thumb_units n mem src e))) <= 135 * n)%nat.
Proof.
  revert src. induction n as [|n IH]; intros src; cbn [thumb_units]; [done|].
  destruct (src + 2 <=? e); [|cbn; lia]. cbn [map concat]. rewrite length_app.
  pose proof (thumb_step_eq mem src e []) as [_ Hl]. cbv zeta in Hl.
  specialize (IH (src + unit_size (next_unit mem src e))). lia.
Qed.

Lemma thumb_units_sizes n mem src e : src <= e -> e < src + 2 * Z.of_nat n + 2 ->
  src + foldr Z.add 0 (map unit_size (thumb_units n mem src e)) = e - (e - src) mod 2.
Proof.
  revert src. induction n as [|n IH]; intros src Hle Hn; cbn [thumb_units].
  - cbn. rewrite Z.mod_small by lia. lia.
  - destruct (Z.leb_spec (src + 2) e) as [Hs|Hs].
    + pose proof (next_unit_fits mem src e Hs). pose proof (unit_size_pos (next_unit mem src e)).
      assert (Hev : unit_size (next_unit mem src e) mod 2 = 0) by (by destruct (next_unit mem src e)).
      set (k := unit_size _) in *. cbn [map foldr]. fold k.
      specialize (IH (src + k) ltac:(lia) ltac:(lia)). rewrite Z.add_assoc, IH.
      f_equal. replace (e - src) with (k + (e - (src + k))) by lia.
      rewrite (Z.add_mod k), Hev, Z.add_0_l, Z.mod_mod by lia. done.
    + cbn. rewrite Z.mod_small by lia. lia.
Qed.

Lemma thumb_units_more n k mem src e :
  e < src + 2 * Z.of_nat n + 2 -> (n <= k)%nat -> thumb_units k mem src e = thumb_units n mem src e.
Proof.
  revert k src. induction n as [|n IH]; intros k src Hn Hk.
  - destruct k; cbn [thumb_units]; [done|]. by rewrite (proj2 (Z.leb_gt _ _)) by lia.
  - destruct k as [|k]; [lia|]. cbn [thumb_units]. destruct (src + 2 <=? e); [|done]. cbv zeta. f_equal.
    pose proof (unit_size_pos (next_unit mem src e)). apply IH; lia.
Qed.

(** The units are made of the bytes of the block and of no others. *)
Lemma thumb_units_local n mem mem' src e :
  (forall a, src <= a < e -> mem a = mem' a) -> thumb_units n mem src e = thumb_units n mem' src e.
Proof.
  revert src. induction n as [|n IH]; intros src Hm; [done|]. cbn [thumb_units].
  destruct (Z.leb_spec (src + 2) e) as [Hs|Hs]; [|done]. cbv zeta.
  assert (E : next_unit mem src e = next_unit mem' src e).
  { unfold next_unit, read_le16. rewrite !Hm by lia. destruct (is_thumb2_prefix _); [|done].
    destruct (Z.leb_spec (src + 4) e) as [H4|H4]; [|done]. by rewrite !Hm by lia. }
  rewrite E. f_equal. apply IH. intros a Ha. apply Hm. pose proof (unit_size_pos (next_unit mem' src e)). lia.
Qed.

Lemma half_count size a : 0 <= size -> a + size < a + 2 * Z.of_nat (Z.to_nat (size / 2)) + 2.
Proof.
  intros Hs. rewrite Z2Nat.id by (apply Z.div_pos; lia).
  pose proof (Z.mod_pos_bound size 2). pose proof (Z.div_mod size 2). lia.
Qed.

Lemma convert_block_thumb_eq mem thumb_code thumb_size fuel :
  0 <= thumb_size -> (Z.to_nat (thumb_size / 2) < fuel)%nat ->
  let units := thumb_units (Z.to_nat (thumb_size / 2)) mem thumb_code (thumb_code + thumb_size) in
  let out := concat (map unit_code units) in
  arm2x86_convert_block_thumb fuel mem thumb_code thumb_size
  = Some (ARM2X86_OK, out, Z.of_nat (length out), reset_it).
Proof.
  intros Hs Hf units out. pose proof (half_count thumb_size thumb_code Hs) as Hb.
  set (n := Z.to_nat (thumb_size / 2)) in *. unfold arm2x86_convert_block_thumb. destruct fuel as [|k]; [lia|].
  rewrite thumb_loop_eq by lia. cbn [app].
  assert (E : thumb_units k mem thumb_code (thumb_code + thumb_size) = units)
    by (apply thumb_units_more; lia).
  by rewrite E.
Qed.

(** C3: a Thumb block always translates, one step per two bytes being enough.  The loop
    cuts the block into 16-bit instructions, 32-bit instructions (a prefix with two more
    bytes in the block) and at most one prefix cut off by the end, together all its bytes
    but an odd last one; the output is the concatenation of the code of these units, each
    translated on its own, and at most 135 bytes per halfword.  No IT block is ever
    entered: the state of conditional execution ends as it began, inactive, and no
    instruction is translated under a condition. *)
Theorem convert_block_thumb_concat mem thumb_code thumb_size fuel :
  0 <= thumb_size -> (Z.to_nat (thumb_size / 2) < fuel)%nat ->
  let units := thumb_units (Z.to_nat (thumb_size / 2)) mem thumb_code (thumb_code + thumb_size) in
  let out := concat (map unit_code units) in
  arm2x86_convert_block_thumb fuel mem thumb_code thumb_size
  = Some (ARM2X86_OK, out, Z.of_nat (length out), reset_it) /\
  foldr Z.add 0 (map unit_size units) = thumb_size - thumb_size mod 2 /\
  Z.of_nat (length out) <= 135 * (thumb_size / 2).
Proof.
  intros Hs Hf units out. pose proof (half_count thumb_size thumb_code Hs) as Hb.
  split; [by apply convert_block_thumb_eq|]. set (n := Z.to_nat (thumb_size / 2)) in *.
  assert (Hn : Z.of_nat n = thumb_size / 2) by (apply Z2Nat.id, Z.div_pos; lia). split.
  - pose proof (thumb_units_sizes n mem thumb_code (thumb_code + thumb_size) ltac:(lia) Hb) as E.
    fold units in E. replace (thumb_code + thumb_size - thumb_code) with thumb_size in E by lia. lia.
  - pose proof (thumb_units_length n mem thumb_code (thumb_code + thumb_size)). fold units out in H. lia.
Qed.

(** ** Which body a word gets *)

Lemma case_code (m : emitter unit) (n : Z) s : ((lift m ;; mret n : thumb Z) s []).2 = code m.
Proof. unfold mbind, thumb_bind, lift, code. by destruct (m []). Qed.

Lemma case_code16 m (n : Z) : Case m -> code (m ;; mret n) = code m.
Proof. intros [Ha _]. rewrite code_bind_const by apply _. by rewrite code_ret, app_nil_r. Qed.

Lemma skip_if {T U} (f : T -> U) (c : bool) a b y : c = false -> f b = y -> f (if c then a else b) = y.
Proof. by intros ->. Qed.
Lemma take_if {T U} (f : T -> U) (c : bool) a b y : c = true -> f a = y -> f (if c then a else b) = y.
Proof. by intros ->. Qed.

(** Walk down a cascade, the bits of the word under one mask being known. *)
Ltac decide_test Hop := decide_masks Hop; reflexivity.
Ltac walk f Hop :=
  repeat first
    [ refine (skip_if f _ _ _ _ _ _); [solve [decide_test Hop]|]
    | refine (take_if f _ _ _ _ _ _); [solve [decide_test Hop]|] ].
Ltac reach32 Hop :=
  cbn [unit_code]; unfold translate_thumb32;
  walk (fun m : thumb Z => (m reset_it []).2) Hop; cbv beta; etransitivity; [apply case_code | try reflexivity].
Ltac reach16 Hop :=
  cbn [unit_code]; unfold translate_thumb16;
  walk (fun m : emitter Z => code m) Hop; cbv beta; etransitivity; [apply case_code16; solve_case | try reflexivity].

(** The displacement of a Thumb-2 branch as the code takes it out of the word: never
    negative, since no field it reads reaches the sign bit it tests. *)
Definition t32_b_offset (op32 : Z) : Z := (((op32 >>> 16) &&& 0x3ff) <<< 12) ||| ((op32 &&& 0x7ff) <<< 1).

Lemma lor_range n a b : 0 <= n -> 0 <= a < 2^n -> 0 <= b < 2^n -> 0 <= a ||| b < 2^n.
Proof.
  intros Hn Ha Hb. rewrite <- (Z.mod_small a (2^n)), <- (Z.mod_small b (2^n)) by done.
  rewrite <- !Z.land_ones, <- Z.land_lor_distr_l, Z.land_ones by done. apply Z.mod_pos_bound. lia.
Qed.

Lemma t32_b_offset_range op32 : 0 <= t32_b_offset op32 < 2^22.
Proof.
  unfold t32_b_offset. pose proof (land_range (op32 >>> 16) 0x3ff ltac:(lia)).
  pose proof (land_range op32 0x7ff ltac:(lia)).
  apply lor_range; rewrite ?Z.shiftl_mul_pow2; lia.
Qed.

Lemma t32_b_decodes op32 rest : op32 &&& 0xf800d000 = 0xf0009000 ->
  decode (code (t32_b op32) ++ rest) = Some (JmpRel (t32_b_offset op32 - 5), rest).
Proof.
  intros Hop. unfold t32_b. cbv zeta. fold (t32_b_offset op32).
  pose proof (t32_b_offset_range op32) as Hr. set (o := t32_b_offset op32) in *. clearbody o.
  assert (H24 : o &&& 0x01000000 = 0).
  { rewrite <- (land_small o 22 0x3fffff) by (done || lia). rewrite <- Z.land_assoc. apply Z.land_0_r. }
  rewrite H24. cbn [c_true Z.eqb negb].
  assert (Hbl : op32 &&& 0x08000000 = 0) by exact (mask_known _ _ _ 0x08000000 Hop eq_refl).
  rewrite Hbl. cbn [Z.eqb negb b2z c_true]. change (c_true 0) with false. cbn iota.
  unfold code, mbind, emitter_bind. rewrite emit_jmp_eq. cbn [snd app mret emitter_ret].
  rewrite decode_jmp_rel. by rewrite !s32_small by (rewrite ?s32_small; lia).
Qed.

(** What the 32-bit cascade makes of words of some families.  LDR with a 12-bit
    offset runs the body of the store; a branch is always a forward jump, by the
    byte offset of the ARM code less five, never a call; BL is translated by the body of AND
    when it goes a short way forward and by a NOP when it goes a short way back; the
    bodies of IT, BLX and SBFX are never run on a word the block loop reads, the last because
    BFI takes its words; AND with an immediate and R0 as first operand is taken for AND of
    registers; LDM and STM with write-back are NOPs. *)
Theorem thumb32_dispatch op32 :
  (op32 &&& 0xfff00000 = 0xf8d00000 -> unit_code (T32 op32) = code (t32_str_imm op32)) /\
  (op32 &&& 0xf800d000 = 0xf0009000 ->
     decode (unit_code (T32 op32)) = Some (JmpRel (t32_b_offset op32 - 5), []) /\
     0 <= t32_b_offset op32 < 2^22) /\
  (op32 &&& 0xfffff800 = 0xf000f800 -> unit_code (T32 op32) = code (t32_and_reg op32)) /\
  (op32 &&& 0xfffff800 = 0xf7fff800 -> unit_code (T32 op32) = [0x90]) /\
  (prefix_word op32 -> op32 &&& 0xff00ff00 <> 0xbf000000 /\ op32 &&& 0xfff000ff <> 0x47800000) /\
  (op32 &&& 0xffff8010 = 0xf3500000 -> unit_code (T32 op32) = code (t32_bfi op32)) /\
  (op32 &&& 0xffff8000 = 0xf0000000 -> unit_code (T32 op32) = code (t32_and_reg op32)) /\
  (op32 &&& 0xfff00000 = 0xe8b00000 \/ op32 &&& 0xfff00000 = 0xe8a00000 -> unit_code (T32 op32) = [0x90]).
Proof.
  split_and!.
  - intros Hop. reach32 Hop.
  - intros Hop. assert (E : unit_code (T32 op32) = code (t32_b op32)) by reach32 Hop.
    rewrite E, <- (app_nil_r (code (t32_b op32))), t32_b_decodes by done. split; [done | apply t32_b_offset_range].
  - intros Hop. reach32 Hop.
  - intros Hop. reach32 Hop.
  - intros Hp. split; intros E; by pose proof (prefix_word_mask op32 _ _ Hp E eq_refl).
  - intros Hop. reach32 Hop.
  - intros Hop. reach32 Hop.
  - intros [Hop|Hop]; reach32 Hop.
Qed.

(** ** The 16-bit words *)

Lemma t16_b_decodes op16 rest :
  decode (code (t16_b op16) ++ rest) = Some (JmpRel ((s16 ((op16 &&& 0x7ff) <<< 5) >>> 4) - 5), rest).
Proof.
  unfold t16_b. cbv zeta. set (o := s16 _ >>> 4).
  assert (Ho : - 2^15 <= o < 2^15).
  { unfold o, s16. pose proof (Z.mod_pos_bound (((op16 &&& 0x7ff) <<< 5) + 2^15) (2^16)).
    rewrite Z.shiftr_div_pow2 by lia. split; [apply Z.div_le_lower_bound | apply Z.div_lt_upper_bound]; lia. }
  clearbody o. unfold code, mbind, emitter_bind. rewrite emit_jmp_eq. cbn [snd app mret emitter_ret].
  rewrite decode_jmp_rel. by rewrite !s32_small by (rewrite ?s32_small; lia).
Qed.

Lemma s8_range v : -128 <= s8 v < 128.
Proof. unfold s8. pose proof (Z.mod_pos_bound (v + 2^7) (2^8)). lia. Qed.

Lemma t16_b_cond_code op16 :
  code (t16_b_cond op16) = [0x0f; u8 (nth (Z.to_nat ((op16 >>> 8) &&& 0xf)) arm32_to_x86_cond 0)]
                           ++ le_bytes 4 (s8 (op16 &&& 0xff) - 2).
Proof.
  unfold t16_b_cond. cbv zeta. set (x := nth _ _ _). set (v := s8 _ - 2). clearbody x v.
  emit_norm. change (u8 0x0f) with 0x0f. reflexivity.
Qed.

Lemma decodes_for_each l f g :
  (forall x, x ∈ l -> Decodes (f x) (g x)) -> Decodes (for_each l f) (concat (map g l)).
Proof.
  induction l as [|x l IH]; intros H; cbn [for_each map concat]; [apply decodes_ret|].
  apply decodes_bind; [apply H; left | apply IH; intros y Hy; apply H; by right].
Qed.

(** The registers of a list, as PUSH and POP go through them. *)
Definition listed (op16 : Z) (f : Z -> insn) (rs : list Z) : list insn :=
  concat (map (fun r => if c_true ((op16 &&& 0xff) &&& (1 <<< r)) then [f r] else []) rs).

(** The stack slot the code of PUSH and POP names for register [r]. *)
Definition slot (r : Z) : operand := Mem (Some (if arm2x86_map_register_arm32 r <? 8 then 4 else 12)) None 0.

Lemma decodes_push op16 : Decodes (t16_push op16) (listed op16 (fun r => PushRm (slot r)) (rev (seqZ 0 16))).
Proof.
  unfold t16_push, listed. cbv zeta. apply decodes_for_each. intros r Hr.
  rewrite list_elem_of_In, <- in_rev, <- list_elem_of_In, elem_of_seqZ in Hr.
  destruct (c_true _); [|apply decodes_ret]. each_of_16 Hr; decodes_closed.
Qed.
Lemma decodes_pop op16 : Decodes (t16_pop op16) (listed op16 (fun r => PopRm (slot r)) (seqZ 0 16)).
Proof.
  unfold t16_pop, listed. cbv zeta. apply decodes_for_each. intros r Hr. rewrite elem_of_seqZ in Hr.
  destruct (c_true _); [|apply decodes_ret]. each_of_16 Hr; decodes_closed.
Qed.

Lemma decodes_disassemble m il : Decodes m il -> disassemble (code m) = Some il.
Proof. intros [_ D]. specialize (D [] [] eq_refl). by rewrite !app_nil_r in D. Qed.

(** What the 16-bit cascade makes of its words.  SVC is taken for a conditional
    branch and gives the bytes 0F FF, an undefined instruction, and no system call; a
    conditional branch becomes a jump on the x86 condition by the number of halfwords
    less two, an unconditional one by the number of bytes less five; PUSH and POP copy
    the top of the stack onto itself, or the memory at R12, and move no register; ADD and
    SUB of registers with a third operand above R1, MOV and ADD and SUB with an
    immediate, shifts, the register-offset, halfword and stack-relative loads and stores,
    LDM, STM and IT are NOPs. *)
Theorem thumb16_dispatch op16 :
  (op16 &&& 0xff00 = 0xdf00 ->
     unit_code (T16 op16) = [0x0f; 0xff] ++ le_bytes 4 (s8 (op16 &&& 0xff) - 2)) /\
  (op16 &&& 0xf000 = 0xd000 -> let cond := (op16 >>> 8) &&& 0xf in cond < 14 ->
     decode (unit_code (T16 op16))
     = Some (Jcc (nth (Z.to_nat cond) arm32_to_x86_cond 0 - 0x80) (s8 (op16 &&& 0xff) - 2), [])) /\
  (op16 &&& 0xf800 = 0xe000 ->
     decode (unit_code (T16 op16)) = Some (JmpRel ((s16 ((op16 &&& 0x7ff) <<< 5) >>> 4) - 5), [])) /\
  (op16 &&& 0xff00 = 0xb400 -> disassemble (unit_code (T16 op16))
     = Some (listed op16 (fun r => PushRm (slot r)) (rev (seqZ 0 16)))) /\
  (op16 &&& 0xff00 = 0xbc00 -> disassemble (unit_code (T16 op16))
     = Some (listed op16 (fun r => PopRm (slot r)) (seqZ 0 16))) /\
  (op16 &&& 0xfc00 = 0x1800 -> op16 &&& 0x0180 <> 0 -> unit_code (T16 op16) = [0x90]) /\
  (op16 &&& 0xf000 = 0 \/ op16 &&& 0xf800 = 0x1000 \/ op16 &&& 0xfc00 = 0x1c00 \/ op16 &&& 0xf800 = 0x2000 \/
   op16 &&& 0xf800 = 0x3800 \/ op16 &&& 0xf000 = 0x5000 \/ op16 &&& 0xf000 = 0x8000 \/ op16 &&& 0xf000 = 0x9000 \/
   op16 &&& 0xf000 = 0xc000 \/ op16 &&& 0xff00 = 0xbf00 -> unit_code (T16 op16) = [0x90]).
Proof.
  split_and!.
  - intros Hop. assert (E : unit_code (T16 op16) = code (t16_b_cond op16)) by reach16 Hop.
    rewrite E, t16_b_cond_code.
    assert (Hc : (op16 >>> 8) &&& 0xf = 15) by exact (field_known _ _ _ 8 0xf Hop ltac:(done) eq_refl).
    by rewrite Hc.
  - intros Hop cond Hc. assert (E : unit_code (T16 op16) = code (t16_b_cond op16)) by reach16 Hop.
    rewrite E, t16_b_cond_code. fold cond.
    assert (H0 : 0 <= cond < 14) by (split; [apply land_range; lia | done]).
    rewrite cond_byte by done. clearbody cond. pose proof (s8_range (op16 &&& 0xff)).
    rewrite <- (app_nil_r (le_bytes 4 _)). rewrite app_assoc.
    assert (Hcc : 0x80 <= nth (Z.to_nat cond) arm32_to_x86_cond 0 < 0x90).
    { pose proof (all_below_spec 14 (fun c => (0x80 <=? nth (Z.to_nat c) arm32_to_x86_cond 0)
        && (nth (Z.to_nat c) arm32_to_x86_cond 0 <? 0x90)) eq_refl cond H0) as Hb.
      apply andb_true_iff in Hb as [Hb1%Z.leb_le Hb2%Z.ltb_lt]. done. }
    set (x := nth _ _ _) in *. clearbody x.
    replace x with (0x80 + (x - 0x80)) at 1 by lia. set (cc := x - 0x80) in *.
    assert (Hcc' : 0 <= cc < 16) by lia. clearbody cc. clear Hcc.
    rewrite <- (s32_small (s8 (op16 &&& 0xff) - 2)) at 2 by lia.
    rewrite <- app_assoc. cbn [app]. rewrite <- (u8_small (0x80 + cc)) by lia. by apply decode_jcc_rel.
  - intros Hop. assert (E : unit_code (T16 op16) = code (t16_b op16)) by reach16 Hop.
    by rewrite E, <- (app_nil_r (code (t16_b op16))), t16_b_decodes.
  - intros Hop. assert (E : unit_code (T16 op16) = code (t16_push op16)) by reach16 Hop.
    rewrite E. apply decodes_disassemble, decodes_push.
  - intros Hop. assert (E : unit_code (T16 op16) = code (t16_pop op16)) by reach16 Hop.
    rewrite E. apply decodes_disassemble, decodes_pop.
  - intros Hop Hm. cbn [unit_code]. unfold translate_thumb16.
    assert (Hne : forall c, c &&& 0x0180 = 0 -> (op16 &&& 0xff80 =? c) = false).
    { intros c Hc. apply Z.eqb_neq. intros E. apply Hm. rewrite <- Hc, <- E, <- Z.land_assoc. done. }
    refine (skip_if (fun m : emitter Z => code m) _ _ _ _ (Hne 0x1800 eq_refl) _).
    refine (skip_if (fun m : emitter Z => code m) _ _ _ _ (Hne 0x1a00 eq_refl) _).
    walk (fun m : emitter Z => code m) Hop; cbv beta; etransitivity; [apply case_code16; solve_case | reflexivity].
  - intros H. destruct_or! H; rename H into Hop; reach16 Hop.
Qed.

(** ** What the code of some instructions does *)

(** The effect of the code for [Rd := Rn op Rm]: the moves and the operation write their
    second register (see the emitter), so Rd goes to Rn and the result to Rm. *)
Definition reversed_alu (aop : alu_op) (rd rn rm : Z) (st : machine) : option machine :=
  let x := arm2x86_map_register_arm32 in
  st1 ← set_reg st W64 (x rn) (regs st (x rd));
  v ← alu_sem aop (regs st1 (x rm)) (regs st1 (x rd));
  set_reg st1 W64 (x rm) v.

Lemma reversed_alu_run aop f rd rn rm st :
  alu_emitter aop = Some f -> 0 <= rd -> 0 <= rn -> 0 <= rm ->
  let x := arm2x86_map_register_arm32 in
  run (code (mov_r64_r64 (x rd) (x rn) ;; f (x rd) (x rm))) st = reversed_alu aop rd rn rm st.
Proof.
  intros Hf Hd Hn Hm x. pose proof (map_arm32_range rd Hd). pose proof (map_arm32_range rn Hn).
  pose proof (map_arm32_range rm Hm). pose proof (alu_appends aop f (x rd) (x rm) Hf) as Ha.
  rewrite code_bind_const by exact Ha. unfold reversed_alu. fold x.
  destruct (set_reg st W64 (x rn) (regs st (x rd))) as [st1|] eqn:E; [|done].
  rewrite (run_mov_then_alu aop f _ _ _ _ st st1) by done. done.
Qed.

(** A 32-bit operation with an immediate. *)
Lemma decodes_alu_imm32 a x k v : 0 <= a < 8 -> 0 <= x < 16 -> 0 <= k < 8 ->
  Decodes (rex_rm a x ;; emit_byte 0x81 ;; modrm 3 k (x &&& 7) ;; emit_imm32 v)
    [AluRmI (alu_of k) W32 (Reg x) (s32 v)].
Proof.
  intros Ha Hx Hk. apply decodes_one; [apply rel_appends; solve_rel|]. intros rest.
  emit_norm. rewrite <- !app_assoc. pose proof (take_s32_bytes v rest) as Ht.
  set (l := le_bytes 4 v ++ rest) in *. clearbody l.
  enough (E : decode ([u8 (0x40 ||| ((x >>> 3) &&& 1)); 0x81; u8 (0xc0 ||| (k <<< 3) ||| (x &&& 7))] ++ l)
     = ('(i, r) ← take_s32 l; Some (AluRmI (alu_of k) W32 (Reg x) i, r))).
  { rewrite Ht in E. etransitivity; [|exact E]. each_of_8 Ha; each_of_16 Hx; each_of_8 Hk; reflexivity. }
  each_of_16 Hx; each_of_8 Hk; reflexivity.
Qed.

Lemma decodes_mov_imm32 x v : 0 <= x < 16 ->
  Decodes (rex_rm 1 x ;; emit_byte (0xb8 ||| (x &&& 7)) ;; emit_imm32 v) [MovRI W32 x (u32 v)].
Proof.
  intros Hx. apply decodes_one; [apply rel_appends; solve_rel|]. intros rest.
  emit_norm. rewrite <- !app_assoc. pose proof (take_le_bytes 4 v rest) as Ht.
  set (l := le_bytes 4 v ++ rest) in *. clearbody l.
  enough (E : decode ([u8 (0x40 ||| ((x >>> 3) &&& 1)); u8 (0xb8 ||| (x &&& 7))] ++ l)
     = ('(i, r) ← take_le 4 l; Some (MovRI W32 x i, r))).
  { rewrite Ht in E. etransitivity; [|exact E]. each_of_16 Hx; reflexivity. }
  each_of_16 Hx; reflexivity.
Qed.

(** The memory forms the 16-bit loads and stores use: a low register as base. *)
Lemma decodes_ldst opcode x base d :
  opcode = 0x8b \/ opcode = 0x89 -> 0 <= x < 16 -> 0 <= base < 16 -> base &&& 7 <> 4 -> 0 <= d < 128 ->
  Decodes (rex_r x base ;; emit_byte opcode ;; modrm 1 (x &&& 7) (base &&& 7) ;; emit_byte d)
    [if opcode =? 0x8b then MovRRm W64 x (Mem (Some base) None d) else MovRmR W64 (Mem (Some base) None d) x].
Proof.
  intros Ho Hx Hb H4 Hd. apply decodes_one; [apply rel_appends; solve_rel|]. intros rest.
  emit_norm. rewrite <- !app_assoc. cbn [app]. pose proof (take_s8_byte d rest) as Ht.
  set (l := u8 d :: rest) in *. clearbody l.
  assert (Hs : s8 d = d) by (unfold s8; rewrite Z.mod_small by lia; lia). rewrite Hs in Ht.
  destruct Ho as [->| ->]; each_of_16 Hx; each_of_16 Hb; try (exfalso; apply H4; reflexivity);
    lazy -[take_s8]; rewrite Ht; reflexivity.
Qed.

Lemma nibble_range v k m n : m = 2^n - 1 -> 0 <= n -> 0 <= (v >>> k) &&& m < 2^n.
Proof. intros -> Hn. assert (0 < 2^n) by (apply Z.pow_pos_nonneg; lia). pose proof (land_range (v >>> k) (2^n - 1)). lia. Qed.

(** The immediate MOVW and MOVT take out of the word: its low eight bits and imm4 above
    them, twelve bits instead of sixteen. *)
Definition t32_imm (op32 : Z) : Z := (((op32 >>> 16) &&& 0xf) <<< 8) ||| (op32 &&& 0xff).

Lemma t32_imm_range op32 : 0 <= t32_imm op32 < 2^12.
Proof.
  unfold t32_imm. pose proof (land_range (op32 >>> 16) 0xf ltac:(lia)). pose proof (land_range op32 0xff ltac:(lia)).
  apply lor_range; rewrite ?Z.shiftl_mul_pow2; lia.
Qed.

Lemma decodes_four (a b c d k : emitter unit) i il :
  Decodes (a ;; b ;; c ;; d) [i] -> Decodes k il -> Decodes (a ;; b ;; c ;; d ;; k) (i :: il).
Proof.
  intros H1 H2. destruct (decodes_bind _ _ _ _ H1 H2) as [A D].
  assert (E : forall x, (a ;; b ;; c ;; d ;; k) x = ((a ;; b ;; c ;; d) ;; k) x).
  { intros x. unfold mbind, emitter_bind. destruct (a x) as [u y]. destruct (b y) as [v z]. by destruct (c z). }
  split.
  - intros x. rewrite E, A. unfold code. by rewrite E.
  - intros rest il' Hr. unfold code. rewrite E. by apply D.
Qed.

Lemma run_movw op32 st : let xrd := arm2x86_map_register_arm32 ((op32 >>> 8) &&& 0xf) in
  exists st', run (code (t32_movw op32)) st = Some st' /\ memory st' = memory st /\
    forall r, regs st' r = upd (regs st) xrd (t32_imm op32) r.
Proof.
  intros xrd. pose proof (map_arm32_range _ (proj1 (nibble_range op32 8 0xf 4 eq_refl ltac:(lia)))) as Hx.
  fold xrd in Hx. pose proof (t32_imm_range op32) as Hi.
  assert (D : Decodes (t32_movw op32) [MovRI W32 xrd (u32 (t32_imm op32)); AluRmI AND W32 (Reg xrd) (s32 0xFFFFFFFF)]).
  { apply (decodes_three _ _ _ (rex_rm 0 xrd ;; emit_byte 0x81 ;; modrm 3 4 (xrd &&& 7) ;; emit_imm32 0xFFFFFFFF));
      [by apply decodes_mov_imm32 | by apply (decodes_alu_imm32 0 _ 4)]. }
  rewrite (decodes_run _ _ st D). eexists. split; [reflexivity|]. cbn [regs memory]. split; [done|].
  intros r. unfold upd, trunc. rewrite Z.eqb_refl. destruct (r =? xrd); [|done].
  change (s32 0xFFFFFFFF) with (-1). rewrite Z.land_m1_r. change (u32 (u32 (u32 (t32_imm op32))) = t32_imm op32). rewrite !(u32_small (t32_imm op32)) by lia. done.
Qed.

Lemma run_movt op32 st : let xrd := arm2x86_map_register_arm32 ((op32 >>> 8) &&& 0xf) in
  exists st', run (code (t32_movt op32)) st = Some st' /\ memory st' = memory st /\
    forall r, regs st' r = upd (regs st) xrd ((regs st xrd &&& 0xffff) ||| (t32_imm op32 <<< 16)) r.
Proof.
  intros xrd. pose proof (map_arm32_range _ (proj1 (nibble_range op32 8 0xf 4 eq_refl ltac:(lia)))) as Hx.
  fold xrd in Hx. pose proof (t32_imm_range op32) as Hi.
  assert (D : Decodes (t32_movt op32)
    ([AluRmI AND W32 (Reg xrd) (s32 0xFFFF)] ++ [AluRmI OR W32 (Reg xrd) (s32 (t32_imm op32 <<< 16))])).
  { apply (decodes_four _ _ _ _ (rex_rm 0 xrd ;; emit_byte 0x81 ;; modrm 3 1 (xrd &&& 7) ;; emit_imm32 (t32_imm op32 <<< 16)));
      [by apply (decodes_alu_imm32 0 _ 4) | by apply (decodes_alu_imm32 0 _ 1)]. }
  rewrite (decodes_run _ _ st D). eexists. split; [reflexivity|]. cbn [regs memory]. split; [done|].
  intros r. unfold upd, trunc. rewrite Z.eqb_refl. destruct (r =? xrd); [|done].
  change (s32 0xFFFF) with 0xffff. pose proof (land_range (regs st xrd) 0xffff ltac:(lia)) as Hl.
  rewrite (u32_small (regs st xrd &&& 0xffff)) by lia.
  rewrite s32_small by (rewrite Z.shiftl_mul_pow2; lia).
  apply u32_small. apply lor_range; rewrite ?Z.shiftl_mul_pow2; lia.
Qed.

Lemma low_base rn : 0 <= rn < 8 -> arm2x86_map_register_arm32 rn &&& 7 <> 4.
Proof. intros H. by each_of_8 H. Qed.

Lemma run_ldst_word op16 st :
  let x := arm2x86_map_register_arm32 in
  let a := eff_addr st (Some (x ((op16 >>> 3) &&& 7))) None (4 * ((op16 >>> 6) &&& 0x1f)) in
  let xrd := x (op16 &&& 7) in
  run (code (t16_ldst_word op16)) st =
    if c_true ((op16 >>> 11) &&& 1) then set_reg st W64 xrd (load64 (memory st) a)
    else Some {| regs := regs st; memory := store64 (memory st) a (regs st xrd) |}.
Proof.
  intros x a xrd. unfold t16_ldst_word. cbv zeta. fold x xrd.
  pose proof (nibble_range op16 3 7 3 eq_refl ltac:(lia) : 0 <= _ < 8) as Hn.
  pose proof (nibble_range op16 6 0x1f 5 eq_refl ltac:(lia) : 0 <= _ < 32) as Hi.
  pose proof (map_arm32_range (op16 &&& 7) ltac:(apply land_range; lia)) as Hx. fold x xrd in Hx.
  pose proof (map_arm32_range _ (proj1 Hn)) as Hb. pose proof (low_base _ Hn) as H4. fold x in Hb, H4.
  assert (Hd : ((((op16 >>> 6) &&& 0x1f) <<< 2) &&& 0xff) = 4 * ((op16 >>> 6) &&& 0x1f)).
  { rewrite land_255, Z.shiftl_mul_pow2, u8_small by lia. lia. }
  rewrite Hd. destruct (c_true _).
  - rewrite (decodes_run _ _ st (decodes_ldst 0x8b _ _ (4 * ((op16 >>> 6) &&& 0x1f)) (or_introl eq_refl) Hx Hb H4 ltac:(lia))).
    cbn [Z.eqb Pos.eqb exec_all exec mbind option_bind]. by destruct (set_reg _ _ _ _).
  - rewrite (decodes_run _ _ st (decodes_ldst 0x89 _ _ (4 * ((op16 >>> 6) &&& 0x1f)) (or_intror eq_refl) Hx Hb H4 ltac:(lia))). done.
Qed.

(** What the code of the Thumb data instructions does to the machine.  Addition,
    subtraction, OR and exclusive OR go the wrong way round: Rd is copied into Rn and the
    result lands in Rm, whatever shift the 32-bit form asks for.  MOVW and MOVT
    use twelve bits of their sixteen-bit immediate, with imm4 at bit 8.  LDR and STR of a word
    move eight bytes, at the right address. *)
Theorem thumb_data_run st :
  let x := arm2x86_map_register_arm32 in
  (forall aop hi op16, (aop, hi) ∈ [(ADD, 0x1800); (SUB, 0x1a00)] -> op16 &&& 0xff80 = hi ->
     run (unit_code (T16 op16)) st = reversed_alu aop (op16 &&& 7) ((op16 >>> 3) &&& 7) ((op16 >>> 6) &&& 7) st) /\
  (forall aop hi op32, (aop, hi) ∈ [(ADD, 0xeb000000); (SUB, 0xeba00000); (OR, 0xf0400000); (XOR, 0xf0800000)] ->
     op32 &&& 0xfff08000 = hi ->
     run (unit_code (T32 op32)) st
     = reversed_alu aop ((op32 >>> 8) &&& 0xf) ((op32 >>> 16) &&& 0xf) (op32 &&& 0xf) st) /\
  (forall op32, op32 &&& 0xfbf08000 = 0xf2400000 -> exists st',
     run (unit_code (T32 op32)) st = Some st' /\ memory st' = memory st /\
     forall r, regs st' r = upd (regs st) (x ((op32 >>> 8) &&& 0xf)) (t32_imm op32) r) /\
  (forall op32, op32 &&& 0xfbf08000 = 0xf2c00000 -> exists st',
     run (unit_code (T32 op32)) st = Some st' /\ memory st' = memory st /\
     forall r, let xrd := x ((op32 >>> 8) &&& 0xf) in
       regs st' r = upd (regs st) xrd ((regs st xrd &&& 0xffff) ||| (t32_imm op32 <<< 16)) r) /\
  (forall op16, op16 &&& 0xf000 = 0x6000 ->
     let a := eff_addr st (Some (x ((op16 >>> 3) &&& 7))) None (4 * ((op16 >>> 6) &&& 0x1f)) in
     let xrd := x (op16 &&& 7) in
     run (unit_code (T16 op16)) st =
       if c_true ((op16 >>> 11) &&& 1) then set_reg st W64 xrd (load64 (memory st) a)
       else Some {| regs := regs st; memory := store64 (memory st) a (regs st xrd) |}).
Proof.
  intros x. split_and!.
  - intros aop hi op16 Hin Hop.
    assert (E : exists f, alu_emitter aop = Some f /\ unit_code (T16 op16)
      = code (mov_r64_r64 (x (op16 &&& 7)) (x ((op16 >>> 3) &&& 7)) ;; f (x (op16 &&& 7)) (x ((op16 >>> 6) &&& 7)))).
    { rewrite !elem_of_cons in Hin. destruct_or! Hin; [..|by apply elem_of_nil in Hin];
        injection Hin as -> ->; (eexists; split; [reflexivity|]); reach16 Hop. }
    destruct E as (f & Hf & ->). apply reversed_alu_run; [done|..]; apply land_range; lia.
  - intros aop hi op32 Hin Hop.
    assert (E : exists f, alu_emitter aop = Some f /\ unit_code (T32 op32)
      = code (mov_r64_r64 (x ((op32 >>> 8) &&& 0xf)) (x ((op32 >>> 16) &&& 0xf)) ;;
              f (x ((op32 >>> 8) &&& 0xf)) (x (op32 &&& 0xf)))).
    { rewrite !elem_of_cons in Hin. destruct_or! Hin; [..|by apply elem_of_nil in Hin];
        injection Hin as -> ->; (eexists; split; [reflexivity|]); reach32 Hop. }
    destruct E as (f & Hf & ->). apply reversed_alu_run; [done|..]; apply land_range; lia.
  - intros op32 Hop. assert (E : unit_code (T32 op32) = code (t32_movw op32)) by reach32 Hop.
    rewrite E. apply run_movw.
  - intros op32 Hop. assert (E : unit_code (T32 op32) = code (t32_movt op32)) by reach32 Hop.
    rewrite E. apply run_movt.
  - intros op16 Hop a xrd. assert (E : unit_code (T16 op16) = code (t16_ldst_word op16)) by reach16 Hop.
    rewrite E. by apply run_ldst_word.
Qed.

End Thumb.

Lemma convert_block_thumb_concat_witness :
  let mem := fun a => nth (Z.to_nat a) [0x08; 0xbf; 0x48; 0x18; 0x00; 0xf0] 0 in
  exists s, arm2x86_convert_block_thumb (fun _ _ => 0) 4 mem 0 6
  = Some (ARM2X86_OK, [0x90; 0x48; 0x89; 0xc7; 0x48; 0x01; 0xc7; 0x90], 8, s) /\ active s = 0.
Proof.
  intros mem. exists reset_it. split; [|reflexivity].
  destruct (convert_block_thumb_concat (fun _ _ => 0) mem 0 6 4 ltac:(lia) ltac:(vm_compute; lia)) as [E _].
  rewrite E. vm_compute. reflexivity.
Defined.
