(* ===== verification/RegAlloc.v ===== *)
(** * The ARM64 translation context: the first part of [modules/arm2x86_translate64.c]

    [TranslateCtx] with its output buffer, the linear-scan register allocator, the map
    from guest addresses to positions in the output, direct jumps and dispatch stubs,
    and the dispatcher table.

    A pointer into the output buffer is its offset.  [free_regs] is the stack of free
    registers, its top first; the array of 32 allocator entries is a list.  Fields that
    are only written ([arm64_base], the live ranges, the exclusive monitor) are left
    out. *)
From S2P Require Import Prelude X86 Emit Regs Frame.
From Stdlib Require Import ZArith Lia Bool.
From stdpp Require Import base numbers list.
Open Scope Z_scope.
Open Scope c_scope.

(** ** The register home *)

Definition ARM_REG_OFFSET (r : Z) : Z := r * 8.

Definition emit_load_arm_reg (arm_reg x86_reg is_64bit : Z) : emitter unit :=
  let offset := ARM_REG_OFFSET arm_reg in
  (if c_true is_64bit then
     let rex_ := 0x48 in
     let rex_ := if 8 <=? x86_reg then rex_ ||| 0x04 else rex_ in
     emit_byte rex_
   else mret tt) ;;
  emit_byte 0x8b ;;
  modrm 2 (x86_reg &&& 7) 5 ;;
  emit_imm32 offset.

Definition emit_store_arm_reg (x86_reg arm_reg is_64bit : Z) : emitter unit :=
  let offset := ARM_REG_OFFSET arm_reg in
  (if c_true is_64bit then
     let rex_ := 0x48 in
     let rex_ := if 8 <=? x86_reg then rex_ ||| 0x01 else rex_ in
     emit_byte rex_
   else mret tt) ;;
  emit_byte 0x89 ;;
  modrm 2 (x86_reg &&& 7) 5 ;;
  emit_imm32 offset.

(** ** The context *)

Definition REG_ALLOC_COUNT : nat := 9.
Definition reg_alloc_map : list Z :=
  [X86_REG_RAX; X86_REG_RCX; X86_REG_RDX; X86_REG_RSI;
   X86_REG_RDI; X86_REG_R8; X86_REG_R9; X86_REG_R10; X86_REG_R11].

Definition arm_reg_priority : list Z :=
  [100; 100; 90; 90; 80; 80; 70; 70;
   60; 50; 50; 50; 50; 50; 50; 50;
   40; 40; 40; 40; 40; 40; 40; 40;
   30; 30; 30; 30; 30; 30; 30; 30].

Record RegAllocEntry := { x86_reg : Z; dirty : bool; is_64bit : bool }.

Record TranslateCtx := {
  arm64_cur : Z;
  x86_out : list Z;
  reg_alloc : list RegAllocEntry;
  free_regs : list Z;
  pc_map : list (Z * nat);
  jump_targets : list (nat * nat * Z) }.

Definition set_arm64_cur (a : Z) (t : TranslateCtx) : TranslateCtx :=
  {| arm64_cur := a; x86_out := x86_out t; reg_alloc := reg_alloc t;
     free_regs := free_regs t; pc_map := pc_map t; jump_targets := jump_targets t |}.
Definition set_out (b : list Z) (t : TranslateCtx) : TranslateCtx :=
  {| arm64_cur := arm64_cur t; x86_out := b; reg_alloc := reg_alloc t;
     free_regs := free_regs t; pc_map := pc_map t; jump_targets := jump_targets t |}.
Definition set_alloc (ra : list RegAllocEntry) (fr : list Z) (t : TranslateCtx) : TranslateCtx :=
  {| arm64_cur := arm64_cur t; x86_out := x86_out t; reg_alloc := ra;
     free_regs := fr; pc_map := pc_map t; jump_targets := jump_targets t |}.
Definition set_pc_map (m : list (Z * nat)) (t : TranslateCtx) : TranslateCtx :=
  {| arm64_cur := arm64_cur t; x86_out := x86_out t; reg_alloc := reg_alloc t;
     free_regs := free_regs t; pc_map := m; jump_targets := jump_targets t |}.
Definition set_jump_targets (j : list (nat * nat * Z)) (t : TranslateCtx) : TranslateCtx :=
  {| arm64_cur := arm64_cur t; x86_out := x86_out t; reg_alloc := reg_alloc t;
     free_regs := free_regs t; pc_map := pc_map t; jump_targets := j |}.

(** ** The translator monad *)

Definition translator (A : Type) : Type := TranslateCtx -> A * TranslateCtx.

#[export] Instance translator_ret : MRet translator := fun A a t => (a, t).
#[export] Instance translator_bind : MBind translator :=
  fun A B f m t => let '(a, t') := m t in f a t'.

Definition gets {A} (f : TranslateCtx -> A) : translator A := fun t => (f t, t).
Definition modify (f : TranslateCtx -> TranslateCtx) : translator unit := fun t => (tt, f t).
Definition emit {A} (m : emitter A) : translator A :=
  fun t => let '(a, b) := m (x86_out t) in (a, set_out b t).

(** A loop over the indices of an array. *)
Fixpoint for_regs (l : list Z) (f : Z -> translator unit) : translator unit :=
  match l with
  | [] => mret tt
  | i :: l => f i ;; for_regs l f
  end.

(** [t->reg_alloc[i]] *)
Definition no_entry : RegAllocEntry := {| x86_reg := 0xff; dirty := false; is_64bit := true |}.
Definition entry (t : TranslateCtx) (i : Z) : RegAllocEntry := nth (Z.to_nat i) (reg_alloc t) no_entry.
Definition set_entry (i : Z) (f : RegAllocEntry -> RegAllocEntry) : translator unit :=
  modify (fun t => set_alloc (alter f (Z.to_nat i) (reg_alloc t)) (free_regs t) t).
Definition set_x86_reg (r : Z) (e : RegAllocEntry) : RegAllocEntry :=
  {| x86_reg := r; dirty := dirty e; is_64bit := is_64bit e |}.
Definition set_dirty (d : bool) (e : RegAllocEntry) : RegAllocEntry :=
  {| x86_reg := x86_reg e; dirty := d; is_64bit := is_64bit e |}.

(** ** The map of translated addresses, jumps and stubs *)

Definition pc_map_add (arm_pc : Z) (x86_pc : nat) : translator unit :=
  modify (fun t => if (length (pc_map t) <? 256)%nat then set_pc_map (pc_map t ++ [(arm_pc, x86_pc)]) t else t).

Definition pc_map_lookup (arm_pc : Z) : translator (option nat) :=
  gets (fun t => snd <$> List.find (fun e => e.1 =? arm_pc) (pc_map t)).

(** [pc_map_add(t, t->arm64_cur, t->x86_cur)], the first statement of the handlers. *)
Definition record_pc : translator unit :=
  pc ← gets arm64_cur; cur ← emit here; pc_map_add pc cur.

Definition patch_jmp_target (patch_loc x86_target : option nat) : emitter unit :=
  match patch_loc, x86_target with
  | Some p, Some target =>
    let rel32 := s32 (Z.of_nat target - (Z.of_nat p + 5)) in
    poke p 1 (rel32 &&& 0xff) ;;
    poke p 2 ((rel32 >>> 8) &&& 0xff) ;;
    poke p 3 ((rel32 >>> 16) &&& 0xff) ;;
    poke p 4 ((rel32 >>> 24) &&& 0xff)
  | _, _ => mret tt
  end.

(** The registration of the jump with the translation cache is kept as a log. *)
Definition emit_direct_jump_or_call (x86_target : nat) (is_call : Z) : translator unit :=
  p ← emit here;
  let rel32 := s32 (Z.of_nat x86_target - (Z.of_nat p + 5)) in
  modify (fun t => set_jump_targets (jump_targets t ++ [(x86_target, p, is_call)]) t) ;;
  emit (emit_byte (if c_true is_call then 0xe8 else 0xe9) ;; emit_imm32 rel32).

Definition emit_dispatch_stub (arm_target is_call : Z) : emitter unit :=
  if arm_target =? 0 then
    emit_byte (if c_true is_call then 0xe8 else 0xe9) ;;
    emit_imm32 0
  else
    emit_byte 0xff ;;
    emit_byte (if c_true is_call then 0x15 else 0x25) ;;
    emit_imm32 0 ;;
    emit_bytes (le_bytes 8 arm_target).

(** ** The register allocator *)

Definition reg_alloc_init : translator unit :=
  modify (set_alloc (replicate 32 no_entry) (rev reg_alloc_map)).

Definition reg_alloc_get_free : translator Z :=
  fun t => match free_regs t with
           | [] => (0xff, t)
           | r :: l => (r, set_alloc (reg_alloc t) l t)
           end.

Definition reg_alloc_free (r : Z) : translator unit :=
  modify (fun t => if (length (free_regs t) <? REG_ALLOC_COUNT)%nat
                   then set_alloc (reg_alloc t) (r :: free_regs t) t else t).

Definition reg_alloc_assign (arm_reg r : Z) (is64 : bool) : translator unit :=
  set_entry arm_reg (fun _ => {| x86_reg := r; dirty := false; is_64bit := is64 |}).

(** The last steps of an allocation. *)
Definition take_reg (arm_reg r : Z) (is64 mark_dirty : bool) : translator unit :=
  reg_alloc_assign arm_reg r is64 ;;
  emit (emit_load_arm_reg arm_reg r (b2z is64)) ;;
  if mark_dirty then set_entry arm_reg (set_dirty true) else mret tt.

(** The allocated register of least priority, the first one among equals; -1 if none. *)
Definition choose_spill (t : TranslateCtx) : Z :=
  fst (fold_left (fun '(spill_idx, min_priority) i =>
         if negb (x86_reg (entry t i) =? 0xff) && (nth (Z.to_nat i) arm_reg_priority 0 <? min_priority)
         then (i, nth (Z.to_nat i) arm_reg_priority 0) else (spill_idx, min_priority))
       (seqZ 0 32) (-1, 255)).

Definition store_if_dirty (r arm_reg : Z) (e : RegAllocEntry) : translator unit :=
  if dirty e then emit (emit_store_arm_reg r arm_reg (b2z (is_64bit e))) else mret tt.

(** Entry [i] loses its register, which goes to the free stack. *)
Definition evict (i : Z) : translator unit :=
  e ← gets (fun t => entry t i);
  store_if_dirty (x86_reg e) i e ;;
  set_entry i (set_x86_reg 0xff) ;;
  reg_alloc_free (x86_reg e).

Definition reg_alloc_get_reg (arm_reg : Z) (is64 mark_dirty : bool) : translator Z :=
  e ← gets (fun t => entry t arm_reg);
  if negb (x86_reg e =? 0xff) then
    (if mark_dirty then set_entry arm_reg (set_dirty true) else mret tt) ;; mret (x86_reg e)
  else
    r ← reg_alloc_get_free;
    if negb (r =? 0xff) then take_reg arm_reg r is64 mark_dirty ;; mret r
    else
      spill_idx ← gets choose_spill;
      if 0 <=? spill_idx then
        evict spill_idx ;;
        r ← reg_alloc_get_free;
        if negb (r =? 0xff) then take_reg arm_reg r is64 mark_dirty ;; mret r
        else mret X86_REG_RAX
      else mret X86_REG_RAX.

Definition reg_alloc_ensure_fixed (arm_reg r : Z) (is64 : bool) : translator unit :=
  current ← gets (fun t => x86_reg (entry t arm_reg));
  if current =? r then mret tt
  else
    holder ← gets (fun t => List.find (fun i => (x86_reg (entry t i) =? r) && negb (i =? arm_reg)) (seqZ 0 32));
    match holder with
    | Some i => evict i
    | None => mret tt
    end ;;
    e ← gets (fun t => entry t arm_reg);
    (if negb (x86_reg e =? 0xff) then
       store_if_dirty (x86_reg e) arm_reg e ;; reg_alloc_free (x86_reg e)
     else mret tt) ;;
    reg_alloc_assign arm_reg r true ;;
    emit (emit_load_arm_reg arm_reg r 1).

Definition reg_alloc_spill (arm_reg : Z) : translator unit :=
  e ← gets (fun t => entry t arm_reg);
  if negb (x86_reg e =? 0xff) && dirty e then
    emit (emit_store_arm_reg (x86_reg e) arm_reg (b2z (is_64bit e))) ;;
    set_entry arm_reg (set_dirty false)
  else mret tt.

Definition reg_alloc_spill_all : translator unit := for_regs (seqZ 0 32) reg_alloc_spill.

Definition reg_alloc_release (arm_reg : Z) : translator unit :=
  e ← gets (fun t => entry t arm_reg);
  if negb (x86_reg e =? 0xff) then
    store_if_dirty (x86_reg e) arm_reg e ;;
    set_entry arm_reg (set_x86_reg 0xff) ;;
    set_entry arm_reg (set_dirty false) ;;
    reg_alloc_free (x86_reg e)
  else mret tt.

(** ** Block boundaries *)

Definition load_if_allocated (i : Z) : translator unit :=
  e ← gets (fun t => entry t i);
  if negb (x86_reg e =? 0xff) then emit (emit_load_arm_reg i (x86_reg e) (b2z (is_64bit e))) else mret tt.

Definition reg_alloc_emit_batch_load (live_regs : list Z) : translator unit :=
  for_regs live_regs load_if_allocated.
Definition reg_alloc_emit_batch_store (live_regs : list Z) : translator unit :=
  for_regs live_regs reg_alloc_spill.

Definition live_regs (n : Z) : translator (list Z) :=
  gets (fun t => List.filter (fun i => negb (x86_reg (entry t i) =? 0xff)) (seqZ 0 n)).
Definition reg_alloc_compute_live_in : translator (list Z) := live_regs 16.
Definition reg_alloc_compute_live_out : translator (list Z) := live_regs 8.

Definition reg_alloc_setup_calling_convention : translator unit :=
  reg_alloc_ensure_fixed 29 X86_REG_RBP true.

Definition reg_alloc_restore_after_call : translator unit :=
  for_regs (seqZ 0 8) load_if_allocated ;;
  e ← gets (fun t => entry t 29);
  if negb (x86_reg e =? X86_REG_RBP) then reg_alloc_ensure_fixed 29 X86_REG_RBP true else mret tt.

Definition get_xreg (arm64_reg : Z) : Z :=
  if arm2x86_needs_spill arm64_reg then X86_REG_R11 else arm2x86_map_register arm64_reg.

(** ** The dispatcher table *)

Record DispatcherEntry := { arm_pc : Z; x86_code : Z; valid : bool }.
Record dispatcher := { table : Z -> DispatcherEntry; initialized : bool }.

Definition dispatcher_init (d : dispatcher) : dispatcher :=
  if initialized d then d
  else {| table := fun _ => {| arm_pc := 0; x86_code := 0; valid := false |}; initialized := true |}.

Definition dispatcher_hash (pc : Z) : Z := u16 (pc ^^^ (pc >>> 16)).

(** The index of the entry for an address; the table is initialised on the way. *)
Definition dispatcher_lookup (d : dispatcher) (pc : Z) : Z * dispatcher :=
  (dispatcher_hash pc, dispatcher_init d).

Definition dispatcher_register (d : dispatcher) (pc code : Z) : dispatcher :=
  let '(idx, d) := dispatcher_lookup d pc in
  {| table := fun i => if i =? idx then {| arm_pc := pc; x86_code := code; valid := true |} else table d i;
     initialized := initialized d |}.

(** ** The allocator's invariant

    The x86 registers held by guest registers and those on the free stack are
    registers of the pool, or RBP, and no register is listed twice. *)

Definition held_reg (e : RegAllocEntry) : list Z := if x86_reg e =? 0xff then [] else [x86_reg e].
Definition held (ra : list RegAllocEntry) : list Z := concat (map held_reg ra).
Definition pool : list Z := X86_REG_RBP :: reg_alloc_map.

Record alloc_ok (t : TranslateCtx) : Prop := {
  ok_length : length (reg_alloc t) = 32%nat;
  ok_nodup : NoDup (held (reg_alloc t) ++ free_regs t);
  ok_pool : Forall (fun r => r ∈ pool) (held (reg_alloc t) ++ free_regs t) }.

Lemma pool_not_none r : r ∈ pool -> (r =? 0xff) = false.
Proof.
  intros H. apply (proj1 (Forall_forall (fun r => (r =? 0xff) = false) pool)); [|done].
  unfold pool. repeat (apply Forall_cons_2; [reflexivity|]). apply Forall_nil_2.
Qed.

(** The invariant by counting, the form its proofs use. *)
Definition occ (r : Z) (l : list Z) : nat := count_occ Z.eq_dec l r.
Definition allowed (r : Z) : nat := if decide (r ∈ pool) then 1 else 0.

Lemma occ_app r l1 l2 : occ r (l1 ++ l2) = (occ r l1 + occ r l2)%nat.
Proof. apply count_occ_app. Qed.
Lemma occ_cons r x l : occ r (x :: l) = ((if decide (x = r) then 1 else 0) + occ r l)%nat.
Proof. unfold occ. cbn. destruct (Z.eq_dec x r), (decide (x = r)); done. Qed.
Lemma occ_nil r : occ r [] = 0%nat.
Proof. done. Qed.
Lemma occ_elem r l : r ∈ l <-> (0 < occ r l)%nat.
Proof. rewrite list_elem_of_In. apply count_occ_In. Qed.
Ltac occ_simpl := rewrite ?occ_app, ?occ_cons, ?occ_nil.

Lemma alloc_ok_occ t :
  alloc_ok t <-> length (reg_alloc t) = 32%nat /\
    forall r, (occ r (held (reg_alloc t)) + occ r (free_regs t) <= allowed r)%nat.
Proof.
  split.
  - intros [H1 H2 H3]. split; [done|]. intros r. rewrite <- occ_app. unfold allowed.
    apply NoDup_ListNoDup in H2. rewrite (NoDup_count_occ Z.eq_dec) in H2. specialize (H2 r). fold (occ r (held (reg_alloc t) ++ free_regs t)) in H2.
    destruct (decide (r ∈ pool)) as [|Hr]; [done|].
    destruct (decide (0 < occ r (held (reg_alloc t) ++ free_regs t))%nat) as [Ho|]; [|lia].
    apply occ_elem in Ho. rewrite Forall_forall in H3. by apply H3 in Ho.
  - intros [H1 H2]. assert (forall r, (occ r (held (reg_alloc t) ++ free_regs t) <= allowed r)%nat) as H.
    { intros r. by rewrite occ_app. }
    unfold allowed in H. split; [done| |].
    + apply NoDup_ListNoDup, (NoDup_count_occ Z.eq_dec). intros r. specialize (H r). unfold occ in H.
      destruct (decide _); lia.
    + apply Forall_forall. intros r Hr%occ_elem. specialize (H r). destruct (decide _); [done|lia].
Qed.

Lemma held_cons e ra : held (e :: ra) = held_reg e ++ held ra.
Proof. done. Qed.

(** The registers held, with one entry singled out. *)
Lemma held_alter ra i f r :
  (Z.to_nat i < length ra)%nat ->
  let e := nth (Z.to_nat i) ra no_entry in
  (occ r (held (alter f (Z.to_nat i) ra)) + occ r (held_reg e) = occ r (held ra) + occ r (held_reg (f e)))%nat.
Proof.
  intros Hi e. unfold e. clear e. revert Hi. generalize (Z.to_nat i). clear i.
  induction ra as [|x ra IH]; intros [|n] Hi; cbn [length] in Hi; [lia|lia| |].
  - change (alter f 0%nat (x :: ra)) with (f x :: ra). rewrite !held_cons. cbn [nth].
    occ_simpl. lia.
  - change (alter f (S n) (x :: ra)) with (x :: alter f n ra). rewrite !held_cons. cbn [nth].
    occ_simpl. specialize (IH n ltac:(lia)). lia.
Qed.

Lemma held_member ra i :
  (Z.to_nat i < length ra)%nat -> forall r, (occ r (held_reg (nth (Z.to_nat i) ra no_entry)) <= occ r (held ra))%nat.
Proof.
  intros Hi r. pose proof (held_alter ra i (fun _ => no_entry) r Hi) as H. cbn in H. lia.
Qed.

(** ** What an operation of the translator may change *)

(** [grown rec n t t']: at most [n] bytes were appended, the current instruction is the
    same, and the address map is the same or, if [rec] is set, has a new last entry that
    maps the current instruction to the place of the first byte appended. *)
Record grown (rec : bool) (n : nat) (t t' : TranslateCtx) : Prop := {
  step_out : exists c, x86_out t' = x86_out t ++ c /\ (length c <= n)%nat;
  step_cur : arm64_cur t' = arm64_cur t;
  step_pc : pc_map t' = pc_map t \/
            rec = true /\ pc_map t' = pc_map t ++ [(arm64_cur t, length (x86_out t))] }.

(** With the allocator's invariant kept, this is what every handler does. *)
Definition step_ok (rec : bool) (n : nat) (t t' : TranslateCtx) : Prop :=
  grown rec n t t' /\ (alloc_ok t -> alloc_ok t').
Definition Safe (rec : bool) {A} (n : nat) (m : translator A) : Prop := forall t, step_ok rec n t (m t).2.

Lemma out_trans n k t1 t2 t3 :
  (exists c, x86_out t2 = x86_out t1 ++ c /\ (length c <= n)%nat) ->
  (exists c, x86_out t3 = x86_out t2 ++ c /\ (length c <= k)%nat) ->
  exists c, x86_out t3 = x86_out t1 ++ c /\ (length c <= n + k)%nat.
Proof.
  intros (c1 & E1 & L1) (c2 & E2 & L2). exists (c1 ++ c2).
  rewrite E2, E1, app_assoc, length_app. split; [done | lia].
Qed.

Lemma step_ok_trans rec n k t1 t2 t3 : step_ok rec n t1 t2 -> step_ok false k t2 t3 -> step_ok rec (n + k) t1 t3.
Proof.
  intros [[O1 C1 P1] A1] [[O2 C2 P2] A2]. split; [|auto].
  split; [by eapply out_trans | congruence |]. destruct P2 as [P2|[? _]]; [by rewrite P2 | done].
Qed.

(** The first operation neither emits nor records. *)
Lemma step_ok_trans_r rec k t1 t2 t3 : step_ok false 0 t1 t2 -> step_ok rec k t2 t3 -> step_ok rec k t1 t3.
Proof.
  intros [[O1 C1 P1] A1] [[O2 C2 P2] A2]. split; [|auto].
  split; [by eapply (out_trans 0) | congruence |].
  destruct O1 as ([|] & E & L); [|cbn in L; lia]. rewrite app_nil_r in E.
  destruct P1 as [P1|[? _]]; [|done]. by rewrite <- P1, <- E, <- C1.
Qed.

Lemma step_ok_weaken rec n n' t t' : step_ok rec n t t' -> (n <= n')%nat -> step_ok rec n' t t'.
Proof.
  intros [[(c & E & L) C P] A] Hn. split; [split|]; [|done..]. exists c. split; [done|lia].
Qed.

Lemma step_ok_any rec n t t' : step_ok false n t t' -> step_ok rec n t t'.
Proof. intros [[O C P] A]. split; [split|]; try done. destruct P as [P|[? _]]; [by left | done]. Qed.

Lemma safe_weaken {A} rec n n' (m : translator A) : Safe rec n m -> (n <= n')%nat -> Safe rec n' m.
Proof. intros Hm Hn t. by eapply step_ok_weaken. Qed.

Lemma safe_any {A} rec n (m : translator A) : Safe false n m -> Safe rec n m.
Proof. intros Hm t. by apply step_ok_any. Qed.

Lemma safe_bind {A B} rec n k (m : translator A) (f : A -> translator B) :
  Safe rec n m -> (forall a, Safe false k (f a)) -> Safe rec (n + k) (m ≫= f).
Proof.
  intros Hm Hf t. unfold mbind, translator_bind. specialize (Hm t).
  destruct (m t) as [a t']. eapply step_ok_trans; [apply Hm | apply Hf].
Qed.

Lemma safe_bind_r {A B} rec k (m : translator A) (f : A -> translator B) :
  Safe false 0 m -> (forall a, Safe rec k (f a)) -> Safe rec k (m ≫= f).
Proof.
  intros Hm Hf t. unfold mbind, translator_bind. specialize (Hm t).
  destruct (m t) as [a t']. eapply step_ok_trans_r; [apply Hm | apply Hf].
Qed.

(** A result read from the context satisfies what held when it was read. *)
Lemma safe_bind_gets {A B} k (g : TranslateCtx -> A) (f : A -> translator B) :
  (forall t, step_ok false k t (f (g t) t).2) -> Safe false k (gets g ≫= f).
Proof. intros Hf t. apply Hf. Qed.

Lemma step_ok_same n t t' :
  x86_out t' = x86_out t -> arm64_cur t' = arm64_cur t -> pc_map t' = pc_map t ->
  (alloc_ok t -> alloc_ok t') -> step_ok false n t t'.
Proof.
  intros E C P. split; [split|]; [| done | by left | done].
  exists []. rewrite app_nil_r. split; [done | cbn; lia].
Qed.

Lemma step_ok_refl t : step_ok false 0 t t.
Proof. by apply step_ok_same. Qed.

Lemma safe_ret {A} (a : A) : Safe false 0 (mret a).
Proof. intros t. apply step_ok_refl. Qed.
Lemma safe_gets {A} (g : TranslateCtx -> A) : Safe false 0 (gets g).
Proof. intros t. apply step_ok_refl. Qed.
Lemma safe_if {A} rec n k (c : bool) (m1 m2 : translator A) :
  Safe rec n m1 -> Safe rec k m2 -> Safe rec (n `max` k) (if c then m1 else m2).
Proof. intros. destruct c; eapply safe_weaken; eauto; lia. Qed.

Lemma alloc_ok_ext t t' :
  reg_alloc t' = reg_alloc t -> free_regs t' = free_regs t -> alloc_ok t -> alloc_ok t'.
Proof. rewrite !alloc_ok_occ. by intros -> ->. Qed.

Lemma safe_emit {A} n (m : emitter A) : Appends m -> Grows n m -> Safe false n (emit m).
Proof.
  intros Ha Hg t. unfold emit. specialize (Ha (x86_out t)). specialize (Hg (x86_out t)).
  destruct (m (x86_out t)) as [a b]. cbn in *. rewrite Ha, length_app in Hg.
  split; [split; cbn; try done; [|by left] | by apply alloc_ok_ext].
  exists (code m). split; [done|lia].
Qed.

Lemma safe_record_pc : Safe true 0 record_pc.
Proof.
  intros t. change (record_pc t) with (pc_map_add (arm64_cur t) (length (x86_out t)) (set_out (x86_out t) t)).
  unfold pc_map_add, modify. cbn [snd]. split; [|by destruct (_ <? _)%nat; apply alloc_ok_ext].
  destruct (_ <? _)%nat; (split; [exists []; by rewrite app_nil_r | done |]); [by right | by left].
Qed.

Lemma safe_pc_map_lookup a : Safe false 0 (pc_map_lookup a).
Proof. apply safe_gets. Qed.

(** ** The operations keep the invariant *)

#[export] Instance appends_load_arm_reg a x w : Appends (emit_load_arm_reg a x w).
Proof. apply rel_appends. solve_rel. Qed.
#[export] Instance appends_store_arm_reg x a w : Appends (emit_store_arm_reg x a w).
Proof. apply rel_appends. solve_rel. Qed.
#[export] Instance appends_dispatch_stub a c : Appends (emit_dispatch_stub a c).
Proof. apply rel_appends. solve_rel. Qed.
Lemma grows_load_arm_reg a x w : Grows 7 (emit_load_arm_reg a x w).
Proof. solve_grows. Qed.
Lemma grows_store_arm_reg x a w : Grows 7 (emit_store_arm_reg x a w).
Proof. solve_grows. Qed.

Lemma safe_load_arm_reg a x w : Safe false 7 (emit (emit_load_arm_reg a x w)).
Proof. apply safe_emit; [apply _ | apply grows_load_arm_reg]. Qed.
Lemma safe_store_arm_reg x a w : Safe false 7 (emit (emit_store_arm_reg x a w)).
Proof. apply safe_emit; [apply _ | apply grows_store_arm_reg]. Qed.
Lemma safe_dispatch_stub a c : Safe false 14 (emit (emit_dispatch_stub a c)).
Proof. apply safe_emit; [apply _ | solve_grows]. Qed.

Lemma alter_beyond (ra : list RegAllocEntry) f n : (length ra <= n)%nat -> alter f n ra = ra.
Proof.
  revert n. induction ra as [|x ra IH]; intros [|n] Hn; cbn in Hn; try done; [lia|].
  change (alter f (S n) (x :: ra)) with (x :: alter f n ra). by rewrite IH by lia.
Qed.

(** Clearing, marking and assigning an entry. *)
Lemma held_clear ra i r :
  (occ r (held (alter (set_x86_reg 0xff) (Z.to_nat i) ra))
   + occ r (held_reg (nth (Z.to_nat i) ra no_entry)) = occ r (held ra))%nat.
Proof.
  destruct (decide (Z.to_nat i < length ra)%nat) as [Hi|Hi].
  - pose proof (held_alter ra i (set_x86_reg 0xff) r Hi) as H. cbn in H. lia.
  - rewrite alter_beyond by lia. rewrite nth_overflow by lia. cbn. lia.
Qed.

Lemma held_dirty ra i d r : occ r (held (alter (set_dirty d) (Z.to_nat i) ra)) = occ r (held ra).
Proof.
  destruct (decide (Z.to_nat i < length ra)%nat) as [Hi|Hi]; [|by rewrite alter_beyond by lia].
  pose proof (held_alter ra i (set_dirty d) r Hi) as H. cbn zeta in H.
  change (held_reg (set_dirty d ?e)) with (held_reg e) in H. lia.
Qed.

Lemma held_assign ra i e r :
  (occ r (held (alter (fun _ => e) (Z.to_nat i) ra)) <= occ r (held ra) + occ r (held_reg e))%nat.
Proof.
  destruct (decide (Z.to_nat i < length ra)%nat) as [Hi|Hi]; [|rewrite alter_beyond; lia].
  pose proof (held_alter ra i (fun _ => e) r Hi) as H. cbn in H. lia.
Qed.

Ltac alloc_simpl :=
  unfold reg_alloc_assign, set_entry, modify; cbn [snd fst reg_alloc free_regs set_alloc].

Lemma safe_set_dirty i d : Safe false 0 (set_entry i (set_dirty d)).
Proof.
  intros t. apply step_ok_same; [done..|]. rewrite !alloc_ok_occ. alloc_simpl. rewrite length_alter.
  intros [H1 H2]. split; [done|]. intros r. rewrite held_dirty. apply H2.
Qed.

Lemma safe_get_free : Safe false 0 reg_alloc_get_free.
Proof.
  intros t. unfold reg_alloc_get_free. destruct (free_regs t) as [|r l] eqn:E; [apply step_ok_refl|].
  apply step_ok_same; [done..|]. rewrite !alloc_ok_occ, E. alloc_simpl. intros [H1 H2]. split; [done|].
  intros r'. specialize (H2 r'). rewrite occ_cons in H2. lia.
Qed.

(** The register on top of the free stack is held by nobody. *)
Lemma free_top_fresh t r l :
  alloc_ok t -> free_regs t = r :: l ->
  r ∈ pool /\ occ r (held (reg_alloc t)) = 0%nat /\ occ r l = 0%nat.
Proof.
  rewrite alloc_ok_occ. intros [_ H] E. specialize (H r). rewrite E, occ_cons in H.
  rewrite decide_True in H by done. unfold allowed in H. destruct (decide (r ∈ pool)); [|lia].
  split; [done|lia].
Qed.

Lemma assign_ok t arm_reg r is64 :
  alloc_ok t -> r ∈ pool -> occ r (held (reg_alloc t)) = 0%nat -> occ r (free_regs t) = 0%nat ->
  alloc_ok (reg_alloc_assign arm_reg r is64 t).2.
Proof.
  rewrite !alloc_ok_occ. alloc_simpl. rewrite length_alter. intros [H1 H2] Hp Hh Hf. split; [done|].
  intros r'. specialize (H2 r').
  pose proof (held_assign (reg_alloc t) arm_reg {| x86_reg := r; dirty := false; is_64bit := is64 |} r') as H.
  unfold held_reg in H. cbn [x86_reg] in H. rewrite pool_not_none in H by done.
  rewrite occ_cons, occ_nil in H. destruct (decide (r = r')) as [->|]; [|lia].
  unfold allowed. rewrite decide_True by done. lia.
Qed.

(** The register on top of the free stack is assigned. *)
Lemma assign_top_ok t r l arm_reg is64 :
  free_regs t = r :: l -> step_ok false 0 t (reg_alloc_assign arm_reg r is64 (set_alloc (reg_alloc t) l t)).2.
Proof.
  intros E. apply step_ok_same; [done..|]. intros H. destruct (free_top_fresh t r l H E) as (Hp & Hh & Hl).
  apply assign_ok; try done. pose proof (safe_get_free t) as [_ K]. unfold reg_alloc_get_free in K.
  rewrite E in K. by apply K.
Qed.

Lemma take_top_ok t r l arm_reg is64 md :
  free_regs t = r :: l ->
  step_ok false 7 t (take_reg arm_reg r is64 md (set_alloc (reg_alloc t) l t)).2.
Proof.
  intros E. unfold take_reg.
  change ((reg_alloc_assign arm_reg r is64 ;; ?m) ?t1) with (m (reg_alloc_assign arm_reg r is64 t1).2).
  eapply (step_ok_trans false 0 7); [by apply assign_top_ok|].
  apply (safe_bind false 7 0); [apply safe_load_arm_reg|].
  intros _. apply (safe_if false 0 0); [apply safe_set_dirty | apply safe_ret].
Qed.

(** Clearing an entry and freeing its register. *)
Lemma clear_free_ok t i :
  step_ok false 0 t (reg_alloc_free (x86_reg (entry t i)) (set_entry i (set_x86_reg 0xff) t).2).2 \/
  x86_reg (entry t i) = 0xff.
Proof.
  destruct (Z.eqb_spec (x86_reg (entry t i)) 0xff) as [E|E]; [by right|]. left.
  unfold reg_alloc_free. alloc_simpl.
  assert (Hh : held_reg (entry t i) = [x86_reg (entry t i)]).
  { unfold held_reg. by rewrite (proj2 (Z.eqb_neq _ _) E). }
  assert (forall r, occ r (held (alter (set_x86_reg 255) (Z.to_nat i) (reg_alloc t)))
            + (if decide (x86_reg (entry t i) = r) then 1 else 0) = occ r (held (reg_alloc t)))%nat as H.
  { intros r. pose proof (held_clear (reg_alloc t) i r) as H. fold (entry t i) in H.
    rewrite Hh, occ_cons, occ_nil in H. lia. }
  destruct (_ <? _)%nat.
  all: apply step_ok_same; [done..|]; rewrite !alloc_ok_occ; alloc_simpl; rewrite length_alter;
    intros [H1 H2]; split; [done|]; intros r; specialize (H2 r); specialize (H r);
    rewrite ?occ_cons; lia.
Qed.

Lemma safe_store_if_dirty r a e : Safe false 7 (store_if_dirty r a e).
Proof. unfold store_if_dirty. apply (safe_if false 7 0); [apply safe_store_arm_reg | apply safe_ret]. Qed.

Lemma emit_same {A} (m : emitter A) t :
  reg_alloc (emit m t).2 = reg_alloc t /\ free_regs (emit m t).2 = free_regs t.
Proof. unfold emit. by destruct (m (x86_out t)). Qed.

Lemma evict_ok t i : x86_reg (entry t i) <> 0xff -> step_ok false 7 t (evict i t).2.
Proof.
  intros Hi. unfold evict. change ((gets ?g ≫= ?f) t) with (f (g t) t). cbv beta.
  unfold mbind at 1, translator_bind at 1.
  pose proof (safe_store_if_dirty (x86_reg (entry t i)) i (entry t i) t) as S1.
  assert (E : entry (store_if_dirty (x86_reg (entry t i)) i (entry t i) t).2 i = entry t i).
  { unfold store_if_dirty. destruct (dirty _); [|done]. unfold entry.
    by rewrite (proj1 (emit_same _ t)). }
  destruct (store_if_dirty _ _ _ t) as [u t1]. cbn [snd] in *.
  eapply (step_ok_trans false 7 0); [apply S1|].
  destruct (clear_free_ok t1 i) as [H|H]; rewrite E in H; [apply H | done].
Qed.

Lemma choose_spill_allocated t : 0 <= choose_spill t -> x86_reg (entry t (choose_spill t)) <> 0xff.
Proof.
  unfold choose_spill. set (f := fun '(spill_idx, min_priority) i => _).
  enough (H : forall l s, (0 <= s.1 -> x86_reg (entry t s.1) <> 0xff) ->
    0 <= (fold_left f l s).1 -> x86_reg (entry t (fold_left f l s).1) <> 0xff).
  { apply H. cbn. lia. }
  induction l as [|i l IH]; intros s Hs; [apply Hs|]. cbn [fold_left]. apply IH.
  destruct s as [k m]. unfold f. destruct (negb (x86_reg (entry t i) =? 0xff)) eqn:E; cbn [andb].
  - destruct (_ <? m); [|apply Hs]. intros _. cbn. apply negb_true_iff, Z.eqb_neq in E. done.
  - apply Hs.
Qed.

Lemma safe_take_free arm_reg is64 md n (k : translator Z) :
  Safe false n k -> (7 <= n)%nat ->
  Safe false n (r ← reg_alloc_get_free;
          if negb (r =? 0xff) then take_reg arm_reg r is64 md ;; mret r else k).
Proof.
  intros Hk Hn t. unfold mbind at 1, translator_bind at 1. unfold reg_alloc_get_free.
  destruct (free_regs t) as [|r l] eqn:E.
  - apply Hk.
  - destruct (Z.eqb_spec r 0xff) as [->|Hr]; cbn [negb].
    + pose proof (safe_get_free t) as H. unfold reg_alloc_get_free in H. rewrite E in H.
      eapply (step_ok_trans false 0 n); [apply H | apply Hk].
    + pose proof (take_top_ok t r l arm_reg is64 md E) as H.
      unfold mbind, translator_bind. destruct (take_reg _ _ _ _ _) as [u t'].
      by eapply step_ok_weaken.
Qed.

Lemma safe_get_reg arm_reg is64 md : Safe false 14 (reg_alloc_get_reg arm_reg is64 md).
Proof.
  unfold reg_alloc_get_reg. apply (safe_bind false 0 14); [apply safe_gets|]. intros e.
  apply (safe_if false 0 14).
  { apply (safe_bind false 0 0); [|intros; apply safe_ret].
    apply (safe_if false 0 0); [apply safe_set_dirty | apply safe_ret]. }
  apply safe_take_free; [|lia]. apply safe_bind_gets. intros t.
  destruct (Z.leb_spec 0 (choose_spill t)) as [H|H]; [|eapply step_ok_weaken; [apply safe_ret | lia]].
  unfold mbind at 1, translator_bind at 1.
  pose proof (evict_ok t _ (choose_spill_allocated t H)) as S1. destruct (evict _ t) as [u t1].
  eapply (step_ok_trans false 7 7); [apply S1|]. apply safe_take_free; [|lia].
  eapply safe_weaken; [apply safe_ret | lia].
Qed.

Lemma safe_spill i : Safe false 7 (reg_alloc_spill i).
Proof.
  unfold reg_alloc_spill. apply (safe_bind false 0 7); [apply safe_gets|]. intros e.
  apply (safe_if false 7 0); [|apply safe_ret].
  apply (safe_bind false 7 0); [apply safe_store_arm_reg | intros _; apply safe_set_dirty].
Qed.

Lemma safe_for_regs n l f : (forall i, Safe false n (f i)) -> Safe false (length l * n) (for_regs l f).
Proof.
  intros Hf. induction l as [|i l IH]; [apply safe_ret|]. by apply (safe_bind false n (length l * n)).
Qed.

Lemma safe_release i : Safe false 7 (reg_alloc_release i).
Proof.
  intros t. unfold reg_alloc_release. change ((gets ?g ≫= ?f) t) with (f (g t) t). cbv beta.
  destruct (Z.eqb_spec (x86_reg (entry t i)) 0xff) as [E|E]; cbn [negb];
    [eapply step_ok_weaken; [apply step_ok_refl | lia]|].
  pose proof (evict_ok t i E) as H. unfold evict in H.
  change ((gets ?g ≫= ?f) t) with (f (g t) t) in H. cbv beta in H.
  unfold mbind, translator_bind in *. destruct (store_if_dirty _ _ _ t) as [u t1].
  set (t2 := (set_entry i (set_x86_reg 0xff) t1).2) in *.
  change (step_ok false 7 t (reg_alloc_free (x86_reg (entry t i)) t2).2) in H.
  set (t3 := (set_entry i (set_dirty false) t2).2).
  change (step_ok false 7 t (reg_alloc_free (x86_reg (entry t i)) t3).2). destruct H as [G K]. split.
  - destruct G as [A B C]. unfold reg_alloc_free in *. revert A B C. unfold t3. alloc_simpl.
    destruct (_ <? _)%nat; intros; by split.
  - intros Ht. specialize (K Ht). revert K. rewrite !alloc_ok_occ. unfold reg_alloc_free, t3. alloc_simpl.
    destruct (_ <? _)%nat; alloc_simpl; rewrite length_alter; intros [H1 H2]; split; try done;
      intros r; rewrite held_dirty; apply H2.
Qed.

Lemma safe_load_if_allocated i : Safe false 7 (load_if_allocated i).
Proof.
  unfold load_if_allocated. apply (safe_bind false 0 7); [apply safe_gets|]. intros e.
  apply (safe_if false 7 0); [apply safe_load_arm_reg | apply safe_ret].
Qed.

(** What the prologue of a block leaves: X29 in RBP, the other registers in memory. *)
Definition home_only : list RegAllocEntry := replicate 32 no_entry.
Definition frame_in_rbp : list RegAllocEntry :=
  alter (fun _ => {| x86_reg := X86_REG_RBP; dirty := false; is_64bit := true |}) 29%nat home_only.

Lemma init_setup t :
  (reg_alloc_init ;; reg_alloc_setup_calling_convention) t
  = (tt, {| arm64_cur := arm64_cur t; x86_out := x86_out t ++ [0x48; 0x8b; 0xad; 0xe8; 0; 0; 0];
            reg_alloc := frame_in_rbp; free_regs := rev reg_alloc_map;
            pc_map := pc_map t; jump_targets := jump_targets t |}).
Proof.
  transitivity ((emit (emit_load_arm_reg 29 X86_REG_RBP 1))
    (set_alloc frame_in_rbp (rev reg_alloc_map) t)); [reflexivity|].
  unfold emit. pose proof (appends_load_arm_reg 29 X86_REG_RBP 1 (x86_out t)) as H.
  cbn [set_alloc x86_out]. destruct (emit_load_arm_reg _ _ _ (x86_out t)) as [[] b]. cbn [snd] in H.
  rewrite H. reflexivity.
Qed.

Lemma setup_alloc_ok t :
  reg_alloc t = frame_in_rbp -> free_regs t = rev reg_alloc_map -> alloc_ok t.
Proof.
  intros E1 E2. split; rewrite ?E1, ?E2; [reflexivity | |].
  - apply (bool_decide_unpack _). vm_compute. exact I.
  - apply (bool_decide_unpack _). vm_compute. exact I.
Qed.

(** ** Loads and stores of guest registers *)

Ltac sequence_appends :=
  repeat first [ simple apply appends_byte | simple apply appends_modrm | simple apply appends_imm32
               | simple apply appends_bind_const ].

Lemma code_load_arm_reg a x :
  code (emit_load_arm_reg a x 1) = code (emit_byte (if 8 <=? x then 0x4c else 0x48)) ++ [0x8b]
    ++ code (modrm 2 (x &&& 7) 5) ++ le_bytes 4 (a * 8).
Proof.
  unfold emit_load_arm_reg. cbv zeta. change (c_true 1) with true. cbv iota.
  rewrite !code_bind_const by sequence_appends. rewrite code_imm32. by destruct (8 <=? x).
Qed.
Lemma code_store_arm_reg x a :
  code (emit_store_arm_reg x a 1) = code (emit_byte (if 8 <=? x then 0x49 else 0x48)) ++ [0x89]
    ++ code (modrm 2 (x &&& 7) 5) ++ le_bytes 4 (a * 8).
Proof.
  unfold emit_store_arm_reg. cbv zeta. change (c_true 1) with true. cbv iota.
  rewrite !code_bind_const by sequence_appends. rewrite code_imm32. by destruct (8 <=? x).
Qed.

(** A 64-bit load is the one meant for all registers; a store of R8 to R15 has the wrong
    REX bit: it stores the register eight below, relative to R13. *)
Lemma decode_load_arm_reg a x rest :
  0 <= a < 32 -> 0 <= x < 16 ->
  decode (code (emit_load_arm_reg a x 1) ++ rest) = Some (MovRRm W64 x (Mem (Some 5) None (8 * a)), rest).
Proof.
  intros Ha Hx. rewrite code_load_arm_reg, <- !app_assoc.
  transitivity ('(reg, rm, r) ← ('(d, r) ← take_s32 (le_bytes 4 (a * 8) ++ rest); Some (x, Mem (Some 5) None d, r));
                Some (MovRRm W64 reg rm, r)).
  - generalize (le_bytes 4 (a * 8) ++ rest). intros l. each_of_16 Hx; reflexivity.
  - rewrite take_s32_bytes. cbn. rewrite s32_small by lia. by rewrite Z.mul_comm.
Qed.
Lemma decode_store_arm_reg a x rest :
  0 <= a < 32 -> 0 <= x < 16 ->
  decode (code (emit_store_arm_reg x a 1) ++ rest)
  = Some (MovRmR W64 (Mem (Some (if x <? 8 then 5 else 13)) None (8 * a)) (x mod 8), rest).
Proof.
  intros Ha Hx. rewrite code_store_arm_reg, <- !app_assoc.
  transitivity ('(reg, rm, r) ← ('(d, r) ← take_s32 (le_bytes 4 (a * 8) ++ rest);
                                 Some (x mod 8, Mem (Some (if x <? 8 then 5 else 13)) None d, r));
                Some (MovRmR W64 rm reg, r)).
  - generalize (le_bytes 4 (a * 8) ++ rest). intros l. each_of_16 Hx; reflexivity.
  - rewrite take_s32_bytes. cbn. rewrite s32_small by lia. by rewrite Z.mul_comm.
Qed.

Lemma entry_set_entry i f t :
  (Z.to_nat i < length (reg_alloc t))%nat -> entry (set_entry i f t).2 i = f (entry t i).
Proof.
  unfold entry. alloc_simpl. generalize (Z.to_nat i), (reg_alloc t). intros n ra. revert n.
  induction ra as [|x ra IH]; intros [|n] Hn; cbn [length] in Hn; [lia|lia|done|]. apply IH. lia.
Qed.

Lemma entry_emit {A} (m : emitter A) t i : entry (emit m t).2 i = entry t i.
Proof. unfold entry. by rewrite (proj1 (emit_same m t)). Qed.

(** ** The operations that break something *)

Lemma choose_spill_x29 t :
  x86_reg (entry t 29) <> 0xff -> (forall i, 24 <= i < 29 -> x86_reg (entry t i) = 0xff) -> choose_spill t = 29.
Proof.
  intros H29 Hrest. unfold choose_spill. set (f := fun '(spill_idx, min_priority) i => _).
  change (seqZ 0 32) with (seqZ 0 24 ++ [24; 25; 26; 27; 28; 29; 30; 31]). rewrite fold_left_app.
  assert (Hmin : 40 <= (fold_left f (seqZ 0 24) (-1, 255)).2).
  { enough (H : forall l s, Forall (fun i => 40 <= nth (Z.to_nat i) arm_reg_priority 0) l -> 40 <= s.2 ->
      40 <= (fold_left f l s).2).
    { apply H; [|cbn; lia]. apply (bool_decide_unpack _). vm_compute. exact I. }
    induction l as [|i l IH]; intros s Hl Hs; [done|]. apply Forall_cons in Hl as [Hi Hl].
    cbn [fold_left]. apply IH; [done|]. destruct s as [k m]. unfold f. by destruct (_ && _). }
  destruct (fold_left f (seqZ 0 24) (-1, 255)) as [k m]. cbn [snd] in Hmin.
  cbn [fold_left].
  assert (Hskip : forall i s, 24 <= i < 29 -> f s i = s).
  { intros i [k' m'] Hi. unfold f. by rewrite Hrest. }
  rewrite (Hskip 24), (Hskip 25), (Hskip 26), (Hskip 27), (Hskip 28) by lia. unfold f at 3. apply Z.eqb_neq in H29. rewrite H29.
  change (nth (Z.to_nat 29) arm_reg_priority 0) with 30.
  replace (30 <? m) with true by lia. cbn [negb andb].
  unfold f. change (nth (Z.to_nat 30) arm_reg_priority 0) with 30.
  change (nth (Z.to_nat 31) arm_reg_priority 0) with 30. change (30 <? 30) with false.
  rewrite !andb_false_r. done.
Qed.

(** An allocation without a free register, when the entry chosen is clean. *)
Lemma get_reg_evicts t arm_reg is64 md :
  free_regs t = [] -> x86_reg (entry t arm_reg) = 0xff -> 0 <= choose_spill t ->
  let e := entry t (choose_spill t) in
  dirty e = false -> x86_reg e <> 0xff ->
  reg_alloc_get_reg arm_reg is64 md t =
  (x86_reg e, (take_reg arm_reg (x86_reg e) is64 md
                 (set_alloc (alter (set_x86_reg 0xff) (Z.to_nat (choose_spill t)) (reg_alloc t)) [] t)).2).
Proof.
  intros Hf Hu Hs e Hd He. unfold reg_alloc_get_reg. unfold mbind at 1, translator_bind at 1, gets at 1.
  rewrite Hu. cbn [Z.eqb Pos.eqb negb].
  unfold mbind at 1, translator_bind at 1, reg_alloc_get_free at 1. rewrite Hf. cbn [Z.eqb Pos.eqb negb].
  unfold mbind at 1, translator_bind at 1, gets at 1. rewrite (proj2 (Z.leb_le _ _) Hs).
  unfold evict. unfold mbind at 1, translator_bind at 1. unfold mbind at 1, translator_bind at 1, gets at 1.
  fold e. unfold store_if_dirty. rewrite Hd.
  unfold reg_alloc_free, set_entry, modify. unfold mbind at 1 2 3, translator_bind at 1 2 3, mret, translator_ret.
  alloc_simpl. rewrite Hf. cbn [length Nat.ltb Nat.leb REG_ALLOC_COUNT].
  unfold reg_alloc_get_free, mbind, translator_bind. alloc_simpl. apply Z.eqb_neq in He. rewrite He. cbn [negb].
  change (set_alloc ?ra [] (set_alloc _ _ (set_alloc _ _ t))) with (set_alloc ra [] t).
  by destruct (take_reg _ _ _ _ _).
Qed.

Lemma take_reg_entry arm_reg r is64 md t :
  (Z.to_nat arm_reg < length (reg_alloc t))%nat ->
  x86_reg (entry (take_reg arm_reg r is64 md t).2 arm_reg) = r.
Proof.
  intros Hl. unfold take_reg. unfold mbind at 1, translator_bind at 1.
  destruct (reg_alloc_assign arm_reg r is64 t) as [u t2] eqn:E2.
  assert (H2 : entry t2 arm_reg = {| x86_reg := r; dirty := false; is_64bit := is64 |}).
  { pose proof (entry_set_entry arm_reg (fun _ => {| x86_reg := r; dirty := false; is_64bit := is64 |}) t Hl) as H.
    unfold reg_alloc_assign in E2. by rewrite E2 in H. }
  assert (L2 : (Z.to_nat arm_reg < length (reg_alloc t2))%nat).
  { injection E2 as _ <-. alloc_simpl. by rewrite length_alter. }
  unfold mbind, translator_bind.
  pose proof (entry_emit (emit_load_arm_reg arm_reg r (b2z is64)) t2 arm_reg) as E3.
  pose proof (emit_same (emit_load_arm_reg arm_reg r (b2z is64)) t2) as [L3 _].
  destruct (emit _ t2) as [u3 t3]. cbn [snd] in *. rewrite <- L3 in L2.
  destruct md.
  - rewrite entry_set_entry by done. by rewrite E3, H2.
  - change ((mret tt : translator unit) t3) with (tt, t3). cbn [snd]. by rewrite E3, H2.
Qed.

Lemma take_reg_out arm_reg r is64 md t :
  x86_out (take_reg arm_reg r is64 md t).2 = (emit_load_arm_reg arm_reg r (b2z is64) (x86_out t)).2.
Proof.
  unfold take_reg, mbind, translator_bind. unfold reg_alloc_assign, set_entry at 1, modify at 1, emit.
  cbn [x86_out set_alloc]. destruct (emit_load_arm_reg _ _ _ _) as [u b]. by destruct md.
Qed.

(** When the free registers have run out, X29 is in RBP and none of X24 to X28 is
    in a register, the next guest register to be allocated gets RBP, the base of all
    accesses to the register home.  The code for it loads RBP with that guest register:
    from there on every access to the home goes through a guest value. *)
Theorem frame_pointer_lost t arm_reg mark_dirty st :
  free_regs t = [] -> 0 <= arm_reg < 32 -> length (reg_alloc t) = 32%nat ->
  entry t 29 = {| x86_reg := X86_REG_RBP; dirty := false; is_64bit := true |} ->
  (forall i, 24 <= i < 29 -> x86_reg (entry t i) = 0xff) -> x86_reg (entry t arm_reg) = 0xff ->
  exists t' c, reg_alloc_get_reg arm_reg true mark_dirty t = (X86_REG_RBP, t') /\
    x86_reg (entry t' arm_reg) = X86_REG_RBP /\ x86_out t' = x86_out t ++ c /\
    run c st = Some {| regs := upd (regs st) X86_REG_RBP
                                 (u64 (load64 (memory st) (u64 (regs st X86_REG_RBP + 8 * arm_reg))));
                       memory := memory st |}.
Proof.
  intros Hf Ha Hlen H29 Hrest Hu.
  assert (Hs : choose_spill t = 29) by (apply choose_spill_x29; [by rewrite H29 | done]).
  rewrite get_reg_evicts by (rewrite ?Hs, ?H29; done). rewrite Hs, H29. cbn [x86_reg].
  set (t1 := set_alloc _ _ t). eexists _, (code (emit_load_arm_reg arm_reg X86_REG_RBP 1)).
  split; [done|]. split; [|split].
  - rewrite take_reg_entry; [done|]. unfold t1. alloc_simpl. rewrite length_alter. lia.
  - rewrite take_reg_out. change (x86_out t1) with (x86_out t). apply appends_load_arm_reg.
  - pose proof (decode_load_arm_reg arm_reg X86_REG_RBP [] Ha ltac:(done)) as Hdec. rewrite app_nil_r in Hdec.
    rewrite (run_one _ _ st Hdec) by (by rewrite code_load_arm_reg).
    unfold exec, set_reg, eff_addr. cbn [trunc]. by rewrite Z.add_0_r.
Qed.
Lemma frame_pointer_lost_witness :
  (reg_alloc_get_reg 7 true false
     (set_alloc frame_in_rbp [] {| arm64_cur := 0; x86_out := []; reg_alloc := []; free_regs := [];
                                   pc_map := []; jump_targets := [] |})).1 = X86_REG_RBP.
Proof.
  destruct (frame_pointer_lost
     (set_alloc frame_in_rbp [] {| arm64_cur := 0; x86_out := []; reg_alloc := []; free_regs := [];
                                   pc_map := []; jump_targets := [] |}) 7 false
     {| regs := fun _ => 0; memory := fun _ => 0 |}) as (t' & c & H & _); [done | lia | done | done | | done |].
  - intros i Hi. assert (i = 24 \/ i = 25 \/ i = 26 \/ i = 27 \/ i = 28) as [-> | [-> | [-> | [-> | ->]]]] by lia; done.
  - rewrite H. reflexivity.
Defined.

Lemma bind_gets {A B} (g : TranslateCtx -> A) (f : A -> translator B) t : (gets g ≫= f) t = f (g t) t.
Proof. done. Qed.

Lemma bind_ret {A B} (a : A) (f : A -> translator B) t : ((mret a : translator A) ≫= f) t = f a t.
Proof. done. Qed.

(** An allocated register is one of the pool. *)
Lemma held_pool t i : alloc_ok t -> x86_reg (entry t i) <> 0xff -> x86_reg (entry t i) ∈ pool.
Proof.
  rewrite alloc_ok_occ. intros [_ H] Hi. specialize (H (x86_reg (entry t i))).
  pose proof (held_clear (reg_alloc t) i (x86_reg (entry t i))) as Hc. fold (entry t i) in Hc.
  unfold held_reg in Hc. apply Z.eqb_neq in Hi. rewrite Hi, occ_cons, decide_True in Hc by done.
  unfold allowed in H. destruct (decide _); [done|lia].
Qed.

Lemma take_free_result arm_reg is64 md t (k : translator Z) :
  alloc_ok t -> (forall t', (k t').1 ∈ pool) ->
  ((r ← reg_alloc_get_free; if negb (r =? 0xff) then take_reg arm_reg r is64 md ;; mret r else k) t).1 ∈ pool.
Proof.
  intros Ht Hk. unfold mbind at 1, translator_bind at 1, reg_alloc_get_free.
  destruct (free_regs t) as [|r l] eqn:E; [apply Hk|].
  destruct (negb (r =? 0xff)); [|apply Hk].
  unfold mbind, translator_bind. destruct (take_reg _ _ _ _ _). apply (free_top_fresh t r l Ht E).
Qed.

Lemma get_reg_result t arm_reg is64 md : alloc_ok t -> (reg_alloc_get_reg arm_reg is64 md t).1 ∈ pool.
Proof.
  intros Ht. assert (Hrax : X86_REG_RAX ∈ pool) by (apply (bool_decide_unpack _); exact I).
  unfold reg_alloc_get_reg. rewrite bind_gets.
  destruct (Z.eqb_spec (x86_reg (entry t arm_reg)) 0xff) as [E|E]; cbn [negb].
  2:{ destruct md; exact (held_pool t arm_reg Ht E). }
  unfold mbind at 1, translator_bind at 1, reg_alloc_get_free at 1.
  destruct (free_regs t) as [|r l] eqn:Ef.
  - cbn [Z.eqb Pos.eqb negb]. rewrite bind_gets.
    destruct (Z.leb_spec 0 (choose_spill t)) as [H|H]; [|done].
    pose proof (evict_ok t _ (choose_spill_allocated t H)) as [_ K].
    unfold mbind at 1, translator_bind at 1. destruct (evict _ t) as [u t1].
    apply take_free_result; [by apply K | done].
  - destruct (free_top_fresh t r l Ht Ef) as [Hp _]. rewrite (pool_not_none r Hp). cbn [negb].
    unfold mbind, translator_bind. by destruct (take_reg _ _ _ _ _).
Qed.

Lemma find_holder t arm_reg r i :
  alloc_ok t -> 0 <= i < 32 -> i <> arm_reg -> x86_reg (entry t i) = r ->
  exists j, List.find (fun i => (x86_reg (entry t i) =? r) && negb (i =? arm_reg)) (seqZ 0 32) = Some j /\
    0 <= j /\ j <> arm_reg /\ x86_reg (entry t j) = r.
Proof.
  intros Ht Hi Hne Hr. destruct (List.find _ _) as [j|] eqn:E.
  - exists j. apply List.find_some in E as [Hin E]. apply list_elem_of_In, elem_of_seqZ in Hin. apply andb_true_iff in E as [E1 E2].
    split; [done|]. split; [lia|]. apply Z.eqb_eq in E1. apply negb_true_iff, Z.eqb_neq in E2. done.
  - assert (Hin : In i (seqZ 0 32)) by (apply list_elem_of_In, elem_of_seqZ; lia).
    pose proof (List.find_none _ _ E i Hin) as H. cbv beta in H.
    rewrite Hr, Z.eqb_refl, (proj2 (Z.eqb_neq i arm_reg) Hne) in H. discriminate H.
Qed.

Lemma entry_set_entry_ne i j f t : 0 <= i -> 0 <= j -> i <> j -> entry (set_entry i f t).2 j = entry t j.
Proof.
  intros Hi Hj Hij. unfold entry. alloc_simpl.
  assert (Hn : Z.to_nat i <> Z.to_nat j) by lia. revert Hn.
  generalize (Z.to_nat i), (Z.to_nat j), (reg_alloc t). intros n m ra. revert n m.
  induction ra as [|x ra IH]; intros [|n] [|m] Hn; try done. apply (IH n m). lia.
Qed.

Lemma evict_regs i t :
  (length (free_regs t) < 9)%nat ->
  reg_alloc (evict i t).2 = reg_alloc (set_entry i (set_x86_reg 0xff) t).2 /\
  free_regs (evict i t).2 = x86_reg (entry t i) :: free_regs t.
Proof.
  intros Hl. unfold evict. rewrite bind_gets. set (e := entry t i).
  assert (H : reg_alloc (store_if_dirty (x86_reg e) i e t).2 = reg_alloc t /\
              free_regs (store_if_dirty (x86_reg e) i e t).2 = free_regs t).
  { unfold store_if_dirty. destruct (dirty e); [apply emit_same | by split]. }
  unfold mbind, translator_bind. destruct (store_if_dirty _ _ _ t) as [u t1]. cbn [snd] in H.
  destruct H as [H1 H2]. unfold reg_alloc_free, set_entry, modify. alloc_simpl.
  rewrite H1, H2. apply Nat.ltb_lt in Hl. unfold REG_ALLOC_COUNT. by rewrite Hl.
Qed.

Lemma evict_entry_ne i j t : 0 <= i -> 0 <= j -> i <> j -> entry (evict i t).2 j = entry t j.
Proof.
  intros Hi Hj Hij. transitivity (entry (set_entry i (set_x86_reg 0xff) t).2 j); [|by apply entry_set_entry_ne].
  unfold evict. rewrite bind_gets. unfold mbind, translator_bind.
  assert (H : reg_alloc (store_if_dirty (x86_reg (entry t i)) i (entry t i) t).2 = reg_alloc t).
  { unfold store_if_dirty. destruct (dirty _); [apply emit_same | done]. }
  destruct (store_if_dirty _ _ _ t) as [u t1]. cbn [snd] in H. unfold entry, reg_alloc_free. alloc_simpl.
  destruct (_ <? _)%nat; alloc_simpl; by rewrite H.
Qed.

Lemma ensure_fixed_takes t arm_reg r is64 j :
  r <> 0xff -> 0 <= arm_reg < 32 -> x86_reg (entry t arm_reg) = 0xff ->
  List.find (fun i => (x86_reg (entry t i) =? r) && negb (i =? arm_reg)) (seqZ 0 32) = Some j ->
  0 <= j -> j <> arm_reg ->
  (reg_alloc_ensure_fixed arm_reg r is64 t).2
  = (emit (emit_load_arm_reg arm_reg r 1) (reg_alloc_assign arm_reg r true (evict j t).2).2).2.
Proof.
  intros Hr Ha Hu Ej Hj0 Hj. unfold reg_alloc_ensure_fixed.
  rewrite bind_gets, Hu, (proj2 (Z.eqb_neq 0xff r)) by done. rewrite bind_gets, Ej.
  unfold mbind at 1, translator_bind at 1.
  assert (Hu1 : x86_reg (entry (evict j t).2 arm_reg) = 0xff) by (rewrite evict_entry_ne; done || lia).
  destruct (evict j t) as [u t1]. cbn [snd] in *. rewrite bind_gets, Hu1. cbn [Z.eqb Pos.eqb negb].
  rewrite bind_ret. done.
Qed.

(** C12: the operations of the register allocator keep its invariant, and an allocation
    returns a register of the pool.  One operation does not: moving a guest register to
    an x86 register that another one holds frees that x86 register before it is
    assigned, so that it is both in use and free. *)
Theorem reg_alloc_operations t arm_reg :
  alloc_ok t ->
  (forall is64 mark_dirty, alloc_ok (reg_alloc_get_reg arm_reg is64 mark_dirty t).2 /\
     (reg_alloc_get_reg arm_reg is64 mark_dirty t).1 ∈ pool) /\
  alloc_ok (reg_alloc_spill arm_reg t).2 /\ alloc_ok (reg_alloc_spill_all t).2 /\
  alloc_ok (reg_alloc_release arm_reg t).2 /\
  (forall live, alloc_ok (reg_alloc_emit_batch_load live t).2 /\ alloc_ok (reg_alloc_emit_batch_store live t).2) /\
  (forall i r is64, 0 <= i < 32 -> i <> arm_reg -> x86_reg (entry t i) = r -> r <> 0xff ->
     0 <= arm_reg < 32 -> x86_reg (entry t arm_reg) = 0xff -> (length (free_regs t) < 9)%nat ->
     let t' := (reg_alloc_ensure_fixed arm_reg r is64 t).2 in
     x86_reg (entry t' arm_reg) = r /\ r ∈ free_regs t').
Proof.
  intros Ht. split; [|split; [|split; [|split; [|split]]]].
  - intros is64 md. split; [by apply safe_get_reg | by apply get_reg_result].
  - by apply safe_spill.
  - unfold reg_alloc_spill_all. by apply (safe_for_regs 7 (seqZ 0 32) _ safe_spill).
  - by apply safe_release.
  - intros live. split; [by apply (safe_for_regs 7 live _ safe_load_if_allocated) | by apply (safe_for_regs 7 live _ safe_spill)].
  - intros i r is64 Hi Hne Hr Hr' Ha Hu Hfree.
    destruct (find_holder t arm_reg r i Ht Hi Hne Hr) as (j & Ej & Hj0 & Hj & Hjr).
    assert (Hl : length (reg_alloc t) = 32%nat) by apply Ht.
    rewrite (ensure_fixed_takes t arm_reg r is64 j Hr' Ha Hu Ej Hj0 Hj).
    destruct (evict_regs j t Hfree) as [Er Ef]. rewrite Hjr in Ef. set (t1 := (evict j t).2) in *.
    destruct (reg_alloc_assign arm_reg r true t1) as [u2 t2] eqn:E2. cbn [snd].
    assert (L1 : (Z.to_nat arm_reg < length (reg_alloc t1))%nat).
    { rewrite Er. alloc_simpl. rewrite length_alter. lia. }
    rewrite entry_emit, (proj2 (emit_same _ t2)).
    pose proof (entry_set_entry arm_reg (fun _ => {| x86_reg := r; dirty := false; is_64bit := true |}) t1 L1) as H.
    unfold reg_alloc_assign in E2. rewrite E2 in H. cbn [snd] in H. rewrite H. split; [done|].
    injection E2 as _ <-. alloc_simpl. rewrite Ef. apply list_elem_of_here.
Qed.
Lemma reg_alloc_operations_witness :
  let t := set_alloc frame_in_rbp (rev reg_alloc_map) {| arm64_cur := 0; x86_out := []; reg_alloc := [];
             free_regs := []; pc_map := []; jump_targets := [] |} in
  alloc_ok (reg_alloc_get_reg 3 true true t).2 /\ (reg_alloc_get_reg 3 true true t).1 = X86_REG_R11.
Proof.
  intros t. split; [|reflexivity].
  apply (proj1 (reg_alloc_operations t 3 (setup_alloc_ok t eq_refl eq_refl))).
Defined.
