(* ===== verification/Neon.v ===== *)
(** * The NEON translator: [modules/arm2x86_neon.c]

    An emitter per operation ([neon_add], ...) and the handler of each ARM64 SIMD
    instruction ([translate_neon_add], ...), which takes the fields out of the word.
    The handlers use nothing of the translation context but its output cursor, so they
    are emitters.  [g_simd_enabled] is the thread's switch; only [neon_add] reads it. *)
From S2P Require Import Prelude X86 Emit Decode64 Frame.
From Stdlib Require Import ZArith Lia Bool.
From stdpp Require Import base numbers list.
Open Scope Z_scope.
Open Scope c_scope.

Definition neon_to_xmm (vn : Z) : Z := if vn <? 16 then vn else vn &&& 0xf.

Definition NEON_SPILL_BASE_OFFSET := -256.

Section Neon.
Context (g_simd_enabled : Z).

(** ** The operations *)

Definition neon_load_spilled (vn xmm_tmp : Z) : emitter unit :=
  if vn <? 16 then mret tt
  else
    let offset := NEON_SPILL_BASE_OFFSET + vn * 16 in
    emit_byte 0x66 ;; emit_byte 0x0f ;; emit_byte 0x28 ;;
    emit_byte 0x84 ;; emit_byte 0x24 ;;
    emit_imm32 offset.

Definition neon_store_spilled (vn xmm_tmp : Z) : emitter unit :=
  if vn <? 16 then mret tt
  else
    let offset := NEON_SPILL_BASE_OFFSET + vn * 16 in
    emit_byte 0x66 ;; emit_byte 0x0f ;; emit_byte 0x29 ;;
    emit_byte 0x84 ;; emit_byte 0x24 ;;
    emit_imm32 offset.

Definition neon_add (vd vn vm is_double : Z) : emitter unit :=
  if negb (c_true g_simd_enabled) then mret tt
  else
    let xvd := neon_to_xmm vd in
    let xvm := neon_to_xmm vm in
    if c_true is_double then
      emit_byte 0x66 ;; emit_byte 0x0f ;; emit_byte 0x58 ;;
      modrm 3 (xvd &&& 7) (xvm &&& 7)
    else
      emit_byte 0x0f ;; emit_byte 0x58 ;;
      modrm 3 (xvd &&& 7) (xvm &&& 7).

Definition neon_sub (vd vn vm is_double : Z) : emitter unit :=
  let xvd := neon_to_xmm vd in
  let xvm := neon_to_xmm vm in
  if c_true is_double then
    emit_byte 0x66 ;; emit_byte 0x0f ;; emit_byte 0x5c ;;
    modrm 3 (xvd &&& 7) (xvm &&& 7)
  else
    emit_byte 0x0f ;; emit_byte 0x5c ;;
    modrm 3 (xvd &&& 7) (xvm &&& 7).

Definition neon_mul_int (vd vn vm size : Z) : emitter unit :=
  let xvd := neon_to_xmm vd in
  let xvn := neon_to_xmm vn in
  let xvm := neon_to_xmm vm in
  emit_byte 0x66 ;;
  if size =? 1 then
    emit_byte 0x0f ;; emit_byte 0xd5 ;;
    modrm 3 (xvd &&& 7) (xvm &&& 7)
  else if size =? 2 then
    emit_byte 0x0f ;; emit_byte 0x40 ;; emit_byte 0xd5 ;;
    modrm 3 (xvd &&& 7) (xvm &&& 7)
  else
    emit_byte 0x0f ;; emit_byte 0xd5 ;;
    modrm 3 (xvd &&& 7) (xvm &&& 7).

Definition neon_fmul (vd vn vm : Z) : emitter unit :=
  let xvd := neon_to_xmm vd in
  let xvn := neon_to_xmm vn in
  let xvm := neon_to_xmm vm in
  emit_byte 0x0f ;; emit_byte 0x28 ;;
  modrm 3 (xvd &&& 7) (xvn &&& 7) ;;
  emit_byte 0x0f ;; emit_byte 0x59 ;;
  modrm 3 (xvd &&& 7) (xvm &&& 7).

Definition neon_and (vd vn vm : Z) : emitter unit :=
  let xvd := neon_to_xmm vd in
  let xvm := neon_to_xmm vm in
  emit_byte 0x66 ;; emit_byte 0x0f ;; emit_byte 0xdb ;;
  modrm 3 (xvd &&& 7) (xvm &&& 7).

Definition neon_orr (vd vn vm : Z) : emitter unit :=
  let xvd := neon_to_xmm vd in
  let xvm := neon_to_xmm vm in
  emit_byte 0x66 ;; emit_byte 0x0f ;; emit_byte 0xeb ;;
  modrm 3 (xvd &&& 7) (xvm &&& 7).

Definition neon_eor (vd vn vm : Z) : emitter unit :=
  let xvd := neon_to_xmm vd in
  let xvm := neon_to_xmm vm in
  emit_byte 0x66 ;; emit_byte 0x0f ;; emit_byte 0xef ;;
  modrm 3 (xvd &&& 7) (xvm &&& 7).

Definition neon_bsl (vd vn vm : Z) : emitter unit :=
  let xvd := neon_to_xmm vd in
  let xvn := neon_to_xmm vn in
  let xvm := neon_to_xmm vm in
  emit_byte 0x48 ;; emit_byte 0x83 ;; emit_byte 0xEC ;; emit_byte 0x30 ;;
  emit_byte 0x0f ;; emit_byte 0x29 ;;
  modrm 0 (xvd &&& 7) 4 ;;
  sib 0 4 5 ;; emit_byte 0x00 ;; emit_byte 0x00 ;; emit_byte 0x00 ;; emit_byte 0x00 ;;
  emit_byte 0x0f ;; emit_byte 0x29 ;;
  modrm 0 (xvm &&& 7) 4 ;;
  sib 0 4 5 ;; emit_byte 0x10 ;; emit_byte 0x00 ;; emit_byte 0x00 ;; emit_byte 0x00 ;;
  neon_and vd vn vd ;;
  emit_byte 0x0f ;; emit_byte 0x29 ;;
  modrm 0 (xvd &&& 7) 4 ;;
  sib 0 4 5 ;; emit_byte 0x20 ;; emit_byte 0x00 ;; emit_byte 0x00 ;; emit_byte 0x00 ;;
  emit_byte 0x66 ;; emit_byte 0x0f ;; emit_byte 0x28 ;;
  modrm 0 (xvd &&& 7) 4 ;;
  sib 0 4 5 ;; emit_byte 0x00 ;; emit_byte 0x00 ;; emit_byte 0x00 ;; emit_byte 0x00 ;;
  emit_byte 0x66 ;; emit_byte 0x0f ;; emit_byte 0xef ;;
  modrm 3 0 0 ;;
  emit_byte 0x66 ;; emit_byte 0x0f ;; emit_byte 0x74 ;;
  modrm 3 0 0 ;;
  emit_byte 0x66 ;; emit_byte 0x0f ;; emit_byte 0xef ;;
  modrm 3 (xvd &&& 7) 0 ;;
  neon_and vd vd vm ;;
  emit_byte 0x66 ;; emit_byte 0x0f ;; emit_byte 0x56 ;;
  modrm 0 (xvd &&& 7) 4 ;;
  sib 0 4 5 ;; emit_byte 0x20 ;; emit_byte 0x00 ;; emit_byte 0x00 ;; emit_byte 0x00 ;;
  emit_byte 0x48 ;; emit_byte 0x83 ;; emit_byte 0xC4 ;; emit_byte 0x30.

Definition neon_ext (vd vn vm imm : Z) : emitter unit :=
  let xvd := neon_to_xmm vd in
  let xvm := neon_to_xmm vm in
  emit_byte 0x66 ;; emit_byte 0x0f ;; emit_byte 0x3a ;; emit_byte 0x0f ;;
  modrm 3 (xvd &&& 7) (xvm &&& 7) ;;
  emit_byte imm.

Definition neon_dup (vd vn size : Z) : emitter unit :=
  let xvd := neon_to_xmm vd in
  let xvn := neon_to_xmm vn in
  if size =? 2 then
    emit_byte 0x66 ;; emit_byte 0x0f ;; emit_byte 0x70 ;;
    modrm 3 (xvd &&& 7) (xvn &&& 7) ;;
    emit_byte 0x00
  else if size =? 3 then
    emit_byte 0xf2 ;; emit_byte 0x0f ;; emit_byte 0x12 ;;
    modrm 3 (xvd &&& 7) (xvn &&& 7)
  else if size =? 1 then
    emit_byte 0xf3 ;; emit_byte 0x0f ;; emit_byte 0x70 ;;
    modrm 3 (xvd &&& 7) (xvn &&& 7) ;;
    emit_byte 0x00
  else
    emit_byte 0x66 ;; emit_byte 0x0f ;; emit_byte 0x6f ;;
    modrm 3 (xvd &&& 7) (xvn &&& 7).

Definition neon_mov (vd vn : Z) : emitter unit :=
  let xvd := neon_to_xmm vd in
  let xvn := neon_to_xmm vn in
  emit_byte 0x66 ;; emit_byte 0x0f ;; emit_byte 0x7e ;;
  modrm 3 (xvd &&& 7) (xvn &&& 7).

Definition neon_movi (vd imm size : Z) : emitter unit :=
  let xvd := neon_to_xmm vd in
  emit_byte 0x48 ;; emit_byte 0xb8 ;;
  emit_byte (imm &&& 0xff) ;;
  emit_byte ((imm >>> 8) &&& 0xff) ;;
  emit_byte ((imm >>> 16) &&& 0xff) ;;
  emit_byte ((imm >>> 24) &&& 0xff) ;;
  emit_byte 0x00 ;; emit_byte 0x00 ;; emit_byte 0x00 ;; emit_byte 0x00 ;;
  emit_byte 0x66 ;; emit_byte 0x48 ;; emit_byte 0x0f ;; emit_byte 0x6e ;;
  modrm 3 (xvd &&& 7) 0 ;;
  if size =? 2 then
    emit_byte 0x66 ;; emit_byte 0x0f ;; emit_byte 0x70 ;;
    modrm 3 (xvd &&& 7) (xvd &&& 7) ;;
    emit_byte 0x00
  else mret tt.

Definition neon_shl (vd vn shift : Z) : emitter unit :=
  let xvd := neon_to_xmm vd in
  let xvn := neon_to_xmm vn in
  emit_byte 0x66 ;; emit_byte 0x0f ;; emit_byte 0x6f ;;
  modrm 3 (xvd &&& 7) (xvn &&& 7) ;;
  emit_byte 0x66 ;; emit_byte 0x0f ;; emit_byte 0x71 ;;
  modrm 3 6 (xvd &&& 7) ;;
  emit_byte (u8 shift).

Definition neon_shr (vd vn shift : Z) : emitter unit :=
  let xvd := neon_to_xmm vd in
  let xvn := neon_to_xmm vn in
  emit_byte 0x66 ;; emit_byte 0x0f ;; emit_byte 0x6f ;;
  modrm 3 (xvd &&& 7) (xvn &&& 7) ;;
  emit_byte 0x66 ;; emit_byte 0x0f ;; emit_byte 0x71 ;;
  modrm 3 2 (xvd &&& 7) ;;
  emit_byte (u8 shift).

Definition neon_fmax (vd vn vm : Z) : emitter unit :=
  let xvd := neon_to_xmm vd in
  let xvm := neon_to_xmm vm in
  emit_byte 0x0f ;; emit_byte 0x5f ;;
  modrm 3 (xvd &&& 7) (xvm &&& 7).

Definition neon_fmin (vd vn vm : Z) : emitter unit :=
  let xvd := neon_to_xmm vd in
  let xvm := neon_to_xmm vm in
  emit_byte 0x0f ;; emit_byte 0x5d ;;
  modrm 3 (xvd &&& 7) (xvm &&& 7).

Definition neon_fcvt (vd vn src_is_int dst_is_int : Z) : emitter unit :=
  let xvd := neon_to_xmm vd in
  let xvn := neon_to_xmm vn in
  if negb (c_true src_is_int) && c_true dst_is_int then
    emit_byte 0x66 ;; emit_byte 0x0f ;; emit_byte 0x5b ;;
    modrm 3 (xvd &&& 7) (xvn &&& 7)
  else if c_true src_is_int && negb (c_true dst_is_int) then
    emit_byte 0x0f ;; emit_byte 0x5b ;;
    modrm 3 (xvd &&& 7) (xvn &&& 7)
  else
    emit_byte 0x66 ;; emit_byte 0x0f ;; emit_byte 0x5a ;;
    modrm 3 (xvd &&& 7) (xvn &&& 7).

Definition neon_fsqrt (vd vn : Z) : emitter unit :=
  let xvd := neon_to_xmm vd in
  let xvn := neon_to_xmm vn in
  emit_byte 0x0f ;; emit_byte 0x51 ;;
  modrm 3 (xvd &&& 7) (xvn &&& 7).

Definition neon_frecpe (vd vn : Z) : emitter unit :=
  let xvd := neon_to_xmm vd in
  let xvn := neon_to_xmm vn in
  emit_byte 0x0f ;; emit_byte 0x53 ;;
  modrm 3 (xvd &&& 7) (xvn &&& 7).

Definition neon_frsqrte (vd vn : Z) : emitter unit :=
  let xvd := neon_to_xmm vd in
  let xvn := neon_to_xmm vn in
  emit_byte 0x0f ;; emit_byte 0x52 ;;
  modrm 3 (xvd &&& 7) (xvn &&& 7).

Definition neon_fmla (vd vn vm is_double : Z) : emitter unit :=
  let xvd := neon_to_xmm vd in
  let xvn := neon_to_xmm vn in
  let xvm := neon_to_xmm vm in
  emit_byte 0x48 ;; emit_byte 0x83 ;; emit_byte 0xEC ;; emit_byte 0x10 ;;
  emit_byte 0x0f ;; emit_byte 0x29 ;;
  modrm 0 (xvd &&& 7) 4 ;;
  sib 0 4 4 ;; emit_byte 0x00 ;; emit_byte 0x00 ;; emit_byte 0x00 ;; emit_byte 0x00 ;;
  (if c_true is_double then emit_byte 0x66 ;; emit_byte 0x0f ;; emit_byte 0x28
   else emit_byte 0x0f ;; emit_byte 0x28) ;;
  modrm 3 (xvd &&& 7) (xvn &&& 7) ;;
  (if c_true is_double then emit_byte 0x66 ;; emit_byte 0x0f ;; emit_byte 0x59
   else emit_byte 0x0f ;; emit_byte 0x59) ;;
  modrm 3 (xvd &&& 7) (xvm &&& 7) ;;
  (if c_true is_double then emit_byte 0x66 ;; emit_byte 0x0f ;; emit_byte 0x58
   else emit_byte 0x0f ;; emit_byte 0x58) ;;
  modrm 0 (xvd &&& 7) 4 ;;
  sib 0 4 4 ;; emit_byte 0x00 ;; emit_byte 0x00 ;; emit_byte 0x00 ;; emit_byte 0x00 ;;
  emit_byte 0x48 ;; emit_byte 0x83 ;; emit_byte 0xC4 ;; emit_byte 0x10.

Definition neon_fabs (vd vn : Z) : emitter unit :=
  let xvd := neon_to_xmm vd in
  let xvn := neon_to_xmm vn in
  emit_byte 0x66 ;; emit_byte 0x0f ;; emit_byte 0x38 ;; emit_byte 0x40 ;;
  modrm 3 (xvd &&& 7) (xvn &&& 7).

Definition neon_fneg (vd vn : Z) : emitter unit :=
  let xvd := neon_to_xmm vd in
  let xvn := neon_to_xmm vn in
  emit_byte 0x0f ;; emit_byte 0x57 ;;
  modrm 3 (xvd &&& 7) (xvn &&& 7).

Definition neon_ldr (vt base offset size : Z) : emitter unit :=
  let xvt := neon_to_xmm vt in
  let xbase := neon_to_xmm base in
  (if 3 <=? size then
     emit_byte 0xf3 ;;
     emit_byte 0x0f ;; emit_byte 0x6f
   else if 2 <=? size then emit_byte 0x66 ;; emit_byte 0x0f ;; emit_byte 0x6f
   else emit_byte 0xf3 ;; emit_byte 0x0f ;; emit_byte 0x6f) ;;
  if base =? 31 then
    modrm 0 (xvt &&& 7) 4 ;;
    sib 0 4 5 ;;
    emit_imm32 offset
  else
    modrm 0 (xvt &&& 7) (xbase &&& 7) ;;
    if negb (offset =? 0) then
      emit_byte (0x80 ||| ((xvt &&& 7) <<< 3) ||| (xbase &&& 7)) ;;
      emit_imm8 (s8 offset)
    else mret tt.

Definition neon_str (vt base offset size : Z) : emitter unit :=
  let xvt := neon_to_xmm vt in
  let xbase := neon_to_xmm base in
  (if 3 <=? size then
     emit_byte 0xf3 ;;
     emit_byte 0x0f ;; emit_byte 0x7f
   else if 2 <=? size then emit_byte 0x66 ;; emit_byte 0x0f ;; emit_byte 0x7f
   else emit_byte 0xf3 ;; emit_byte 0x0f ;; emit_byte 0x7f) ;;
  if base =? 31 then
    modrm 0 (xvt &&& 7) 4 ;;
    sib 0 4 5 ;;
    emit_imm32 offset
  else
    modrm 0 (xvt &&& 7) (xbase &&& 7) ;;
    if negb (offset =? 0) then
      emit_byte (0x80 ||| ((xvt &&& 7) <<< 3) ||| (xbase &&& 7)) ;;
      emit_imm8 (s8 offset)
    else mret tt.

Definition neon_aese (vd vn : Z) : emitter unit :=
  let xvd := neon_to_xmm vd in
  let xvn := neon_to_xmm vn in
  emit_byte 0x66 ;; emit_byte 0x0f ;; emit_byte 0x38 ;; emit_byte 0xdb ;;
  modrm 3 (xvd &&& 7) (xvn &&& 7).

Definition neon_aesd (vd vn : Z) : emitter unit :=
  let xvd := neon_to_xmm vd in
  let xvn := neon_to_xmm vn in
  emit_byte 0x66 ;; emit_byte 0x0f ;; emit_byte 0x38 ;; emit_byte 0xde ;;
  modrm 3 (xvd &&& 7) (xvn &&& 7).

Definition neon_crc32 (rd rn rm is_crc32c size : Z) : emitter unit :=
  emit_byte 0xf2 ;;
  (if c_true is_crc32c then emit_byte 0x0f ;; emit_byte 0x38 ;; emit_byte 0xf1
   else emit_byte 0x0f ;; emit_byte 0x38 ;; emit_byte 0xf0) ;;
  modrm 3 (rd &&& 7) (rm &&& 7).

Definition neon_div (vd vn vm is_double : Z) : emitter unit :=
  let xvd := neon_to_xmm vd in
  let xvm := neon_to_xmm vm in
  if c_true is_double then
    emit_byte 0x66 ;; emit_byte 0x0f ;; emit_byte 0x5e ;;
    modrm 3 (xvd &&& 7) (xvm &&& 7)
  else
    emit_byte 0x0f ;; emit_byte 0x5e ;;
    modrm 3 (xvd &&& 7) (xvm &&& 7).

Definition neon_ins (vd vn index : Z) : emitter unit :=
  let xvd := neon_to_xmm vd in
  let xvn := neon_to_xmm vn in
  emit_byte 0x66 ;; emit_byte 0x0f ;; emit_byte 0x3a ;; emit_byte 0x22 ;;
  modrm 3 (xvd &&& 7) (xvn &&& 7) ;;
  emit_byte (index &&& 0xf).

Definition neon_xtn (vd vn size : Z) : emitter unit :=
  let xvd := neon_to_xmm vd in
  let xvn := neon_to_xmm vn in
  if size =? 0 then
    emit_byte 0x66 ;; emit_byte 0x0f ;; emit_byte 0x67 ;;
    modrm 3 (xvd &&& 7) (xvn &&& 7)
  else if size =? 1 then
    emit_byte 0x66 ;; emit_byte 0x0f ;; emit_byte 0x38 ;;
    emit_byte 0x2b ;;
    modrm 3 (xvd &&& 7) (xvn &&& 7)
  else if size =? 2 then
    emit_byte 0x66 ;; emit_byte 0x0f ;; emit_byte 0x7e ;;
    modrm 3 (xvd &&& 7) (xvn &&& 7)
  else
    emit_byte 0x66 ;; emit_byte 0x0f ;; emit_byte 0x67 ;;
    modrm 3 (xvd &&& 7) (xvn &&& 7).

Definition neon_sqxtn (vd vn size : Z) : emitter unit :=
  let xvd := neon_to_xmm vd in
  let xvn := neon_to_xmm vn in
  if size =? 0 then
    emit_byte 0x66 ;; emit_byte 0x0f ;; emit_byte 0x6b ;;
    modrm 3 (xvd &&& 7) (xvn &&& 7)
  else if size =? 1 then
    emit_byte 0x66 ;; emit_byte 0x0f ;; emit_byte 0x6b ;;
    modrm 3 (xvd &&& 7) (xvn &&& 7)
  else if size =? 2 then
    emit_byte 0x66 ;; emit_byte 0x0f ;; emit_byte 0x7e ;;
    modrm 3 (xvd &&& 7) (xvn &&& 7)
  else
    emit_byte 0x66 ;; emit_byte 0x0f ;; emit_byte 0x6b ;;
    modrm 3 (xvd &&& 7) (xvn &&& 7).

Definition neon_uqxtn (vd vn size : Z) : emitter unit :=
  let xvd := neon_to_xmm vd in
  let xvn := neon_to_xmm vn in
  if size =? 0 then
    emit_byte 0x66 ;; emit_byte 0x0f ;; emit_byte 0x67 ;;
    modrm 3 (xvd &&& 7) (xvn &&& 7)
  else if size =? 1 then
    emit_byte 0x66 ;; emit_byte 0x0f ;; emit_byte 0x38 ;;
    emit_byte 0x2b ;;
    modrm 3 (xvd &&& 7) (xvn &&& 7)
  else if size =? 2 then
    emit_byte 0x66 ;; emit_byte 0x0f ;; emit_byte 0x7e ;;
    modrm 3 (xvd &&& 7) (xvn &&& 7)
  else
    emit_byte 0x66 ;; emit_byte 0x0f ;; emit_byte 0x67 ;;
    modrm 3 (xvd &&& 7) (xvn &&& 7).

Definition neon_sqxtun (vd vn size : Z) : emitter unit :=
  let xvd := neon_to_xmm vd in
  let xvn := neon_to_xmm vn in
  if size =? 0 then
    emit_byte 0x66 ;; emit_byte 0x0f ;; emit_byte 0x6b ;;
    modrm 3 (xvd &&& 7) (xvn &&& 7)
  else if size =? 1 then
    emit_byte 0x66 ;; emit_byte 0x0f ;; emit_byte 0x6b ;;
    modrm 3 (xvd &&& 7) (xvn &&& 7)
  else if size =? 2 then
    emit_byte 0x66 ;; emit_byte 0x0f ;; emit_byte 0x7e ;;
    modrm 3 (xvd &&& 7) (xvn &&& 7)
  else
    emit_byte 0x66 ;; emit_byte 0x0f ;; emit_byte 0x6b ;;
    modrm 3 (xvd &&& 7) (xvn &&& 7).

Definition neon_usra (vd vn shift : Z) : emitter unit :=
  let xvd := neon_to_xmm vd in
  let xvn := neon_to_xmm vn in
  emit_byte 0x48 ;; emit_byte 0x83 ;; emit_byte 0xEC ;; emit_byte 0x10 ;;
  emit_byte 0x0f ;; emit_byte 0x29 ;;
  modrm 0 (xvn &&& 7) 4 ;;
  sib 0 4 5 ;; emit_byte 0x00 ;; emit_byte 0x00 ;; emit_byte 0x00 ;; emit_byte 0x00 ;;
  neon_shr vn vn shift ;;
  emit_byte 0x66 ;; emit_byte 0x0f ;; emit_byte 0xfe ;;
  modrm 3 (xvd &&& 7) (xvn &&& 7) ;;
  emit_byte 0x48 ;; emit_byte 0x83 ;; emit_byte 0xC4 ;; emit_byte 0x10.

Definition neon_ssra (vd vn shift : Z) : emitter unit :=
  let xvd := neon_to_xmm vd in
  let xvn := neon_to_xmm vn in
  emit_byte 0x48 ;; emit_byte 0x83 ;; emit_byte 0xEC ;; emit_byte 0x10 ;;
  emit_byte 0x0f ;; emit_byte 0x29 ;;
  modrm 0 (xvn &&& 7) 4 ;;
  sib 0 4 5 ;; emit_byte 0x00 ;; emit_byte 0x00 ;; emit_byte 0x00 ;; emit_byte 0x00 ;;
  emit_byte 0x66 ;; emit_byte 0x0f ;; emit_byte 0x72 ;;
  modrm 3 4 (xvn &&& 7) ;;
  emit_byte (shift &&& 0xff) ;;
  emit_byte 0x66 ;; emit_byte 0x0f ;; emit_byte 0xfe ;;
  modrm 3 (xvd &&& 7) (xvn &&& 7) ;;
  emit_byte 0x48 ;; emit_byte 0x83 ;; emit_byte 0xC4 ;; emit_byte 0x10.

Definition neon_ushl (vd vn vm : Z) : emitter unit :=
  let xvd := neon_to_xmm vd in
  let xvm := neon_to_xmm vm in
  emit_byte 0x66 ;; emit_byte 0x0f ;; emit_byte 0xf3 ;;
  modrm 3 (xvd &&& 7) (xvm &&& 7).

Definition neon_sshl (vd vn vm : Z) : emitter unit :=
  let xvd := neon_to_xmm vd in
  let xvm := neon_to_xmm vm in
  emit_byte 0x66 ;; emit_byte 0x0f ;; emit_byte 0xe3 ;;
  modrm 3 (xvd &&& 7) (xvm &&& 7).

Definition neon_umull (vd vn vm size : Z) : emitter unit :=
  let xvd := neon_to_xmm vd in
  let xvm := neon_to_xmm vm in
  if size =? 1 then
    emit_byte 0x66 ;; emit_byte 0x0f ;; emit_byte 0xd5 ;;
    modrm 3 (xvd &&& 7) (xvm &&& 7)
  else
    emit_byte 0x66 ;; emit_byte 0x0f ;; emit_byte 0x38 ;; emit_byte 0x40 ;;
    modrm 3 (xvd &&& 7) (xvm &&& 7).

Definition neon_smull (vd vn vm size : Z) : emitter unit :=
  let xvd := neon_to_xmm vd in
  let xvm := neon_to_xmm vm in
  if size =? 1 then
    emit_byte 0x66 ;; emit_byte 0x0f ;; emit_byte 0xd5 ;;
    modrm 3 (xvd &&& 7) (xvm &&& 7)
  else
    emit_byte 0x66 ;; emit_byte 0x0f ;; emit_byte 0x38 ;; emit_byte 0x40 ;;
    modrm 3 (xvd &&& 7) (xvm &&& 7).

Definition neon_pmul (vd vn vm : Z) : emitter unit :=
  let xvd := neon_to_xmm vd in
  let xvn := neon_to_xmm vn in
  let xvm := neon_to_xmm vm in
  emit_byte 0x66 ;; emit_byte 0x0f ;; emit_byte 0x3a ;;
  emit_byte 0x44 ;;
  modrm 3 (xvd &&& 7) (xvm &&& 7) ;;
  emit_byte 0x00.

Definition neon_fmls (vd vn vm is_double : Z) : emitter unit :=
  let xvd := neon_to_xmm vd in
  let xvn := neon_to_xmm vn in
  let xvm := neon_to_xmm vm in
  emit_byte 0x48 ;; emit_byte 0x83 ;; emit_byte 0xEC ;; emit_byte 0x20 ;;
  emit_byte 0x0f ;; emit_byte 0x29 ;;
  modrm 0 (xvd &&& 7) 4 ;;
  sib 0 4 4 ;; emit_byte 0x00 ;; emit_byte 0x00 ;; emit_byte 0x00 ;; emit_byte 0x00 ;;
  emit_byte 0x48 ;; emit_byte 0x83 ;; emit_byte 0xEC ;; emit_byte 0x10 ;;
  (if c_true is_double then emit_byte 0x66 ;; emit_byte 0x0f ;; emit_byte 0x28
   else emit_byte 0x0f ;; emit_byte 0x28) ;;
  modrm 3 0 (xvn &&& 7) ;;
  (if c_true is_double then emit_byte 0x66 ;; emit_byte 0x0f ;; emit_byte 0x59
   else emit_byte 0x0f ;; emit_byte 0x59) ;;
  modrm 3 0 (xvm &&& 7) ;;
  emit_byte 0x0f ;; emit_byte 0x29 ;;
  modrm 0 0 4 ;;
  sib 0 4 4 ;; emit_byte 0x10 ;; emit_byte 0x00 ;; emit_byte 0x00 ;; emit_byte 0x00 ;;
  (if c_true is_double then emit_byte 0x66 ;; emit_byte 0x0f ;; emit_byte 0x28
   else emit_byte 0x0f ;; emit_byte 0x28) ;;
  modrm 0 (xvd &&& 7) 4 ;;
  sib 0 4 4 ;; emit_byte 0x20 ;; emit_byte 0x00 ;; emit_byte 0x00 ;; emit_byte 0x00 ;;
  (if c_true is_double then emit_byte 0x66 ;; emit_byte 0x0f ;; emit_byte 0x5c
   else emit_byte 0x0f ;; emit_byte 0x5c) ;;
  modrm 0 (xvd &&& 7) 4 ;;
  sib 0 4 4 ;; emit_byte 0x10 ;; emit_byte 0x00 ;; emit_byte 0x00 ;; emit_byte 0x00 ;;
  emit_byte 0x48 ;; emit_byte 0x83 ;; emit_byte 0xC4 ;; emit_byte 0x30.

Definition neon_fcmp (vd vn vm : Z) : emitter unit :=
  let xvd := neon_to_xmm vd in
  let xvm := neon_to_xmm vm in
  emit_byte 0x66 ;; emit_byte 0x0f ;; emit_byte 0xc2 ;;
  modrm 3 (xvd &&& 7) (xvm &&& 7) ;;
  emit_byte 0x00.

(** ** The handlers *)

Definition translate_neon_add (op : Z) : emitter Z :=
  let vd := op &&& 0x1f in
  let vn := (op >>> 5) &&& 0x1f in
  let vm := (op >>> 16) &&& 0x1f in
  let is_double := (op >>> 30) &&& 1 in
  neon_add vd vn vm is_double ;; mret ARM2X86_OK.

Definition translate_neon_sub (op : Z) : emitter Z :=
  let vd := op &&& 0x1f in
  let vn := (op >>> 5) &&& 0x1f in
  let vm := (op >>> 16) &&& 0x1f in
  let is_double := (op >>> 30) &&& 1 in
  neon_sub vd vn vm is_double ;; mret ARM2X86_OK.

Definition translate_neon_mul (op : Z) : emitter Z :=
  let vd := op &&& 0x1f in
  let vn := (op >>> 5) &&& 0x1f in
  let vm := (op >>> 16) &&& 0x1f in
  let size := (op >>> 22) &&& 3 in
  neon_mul_int vd vn vm size ;; mret ARM2X86_OK.

Definition translate_neon_div (op : Z) : emitter Z :=
  let is_signed := (op >>> 4) &&& 1 in
  let size := (op >>> 20) &&& 3 in
  let vd := op &&& 0x1f in
  let vn := (op >>> 5) &&& 0x1f in
  let vm := (op >>> 16) &&& 0x1f in
  let xvd := neon_to_xmm vd in
  let xvn := neon_to_xmm vn in
  let xvm := neon_to_xmm vm in
  let num_elements := 0 in
  let element_bits := 0 in
  if (size =? 0) || (size =? 1) || (size =? 2) || (size =? 3) then
    let '(element_bits, num_elements) :=
      if size =? 0 then (8, 16)
      else if size =? 1 then (16, 8)
      else if size =? 2 then (32, 4)
      else (64, 2) in
    emit_byte 0x50 ;;
    emit_byte 0x51 ;;
    emit_byte 0x52 ;;
    emit_byte 0x41 ;; emit_byte 0x50 ;;
    emit_byte 0x41 ;; emit_byte 0x51 ;;
    emit_byte 0x41 ;; emit_byte 0x52 ;;
    for_each (seqZ 0 num_elements) (fun i =>
      (if element_bits =? 8 then
         emit_byte 0x66 ;; emit_byte 0x0f ;; emit_byte 0x3a ;;
         emit_byte 0x14 ;;
         modrm 3 0 (xvn &&& 7) ;;
         emit_byte i ;;
         emit_byte 0x48 ;; emit_byte 0x89 ;; emit_byte 0xc0 ;;
         if c_true is_signed then emit_byte 0x48 ;; emit_byte 0x98 else mret tt
       else if element_bits =? 16 then
         emit_byte 0x66 ;; emit_byte 0x0f ;; emit_byte 0x3a ;;
         emit_byte 0x15 ;;
         modrm 3 0 (xvn &&& 7) ;;
         emit_byte i ;;
         if c_true is_signed then emit_byte 0x66 ;; emit_byte 0x98 else mret tt
       else if element_bits =? 32 then
         emit_byte 0x66 ;; emit_byte 0x0f ;; emit_byte 0x3a ;;
         emit_byte 0x16 ;;
         modrm 3 0 (xvn &&& 7) ;;
         emit_byte i
       else
         emit_byte 0x48 ;; emit_byte 0x0f ;; emit_byte 0x3a ;;
         emit_byte 0x16 ;;
         modrm 3 0 (xvn &&& 7) ;;
         emit_byte i) ;;
      emit_byte 0x49 ;; emit_byte 0x89 ;; emit_byte 0xc2 ;;
      (if element_bits =? 8 then
         emit_byte 0x66 ;; emit_byte 0x0f ;; emit_byte 0x3a ;;
         emit_byte 0x14 ;;
         modrm 3 1 (xvm &&& 7) ;;
         emit_byte i ;;
         if c_true is_signed then emit_byte 0x48 ;; emit_byte 0x98 else mret tt
       else if element_bits =? 16 then
         emit_byte 0x66 ;; emit_byte 0x0f ;; emit_byte 0x3a ;;
         emit_byte 0x15 ;;
         modrm 3 1 (xvm &&& 7) ;;
         emit_byte i ;;
         if c_true is_signed then emit_byte 0x66 ;; emit_byte 0x98 else mret tt
       else if element_bits =? 32 then
         emit_byte 0x66 ;; emit_byte 0x0f ;; emit_byte 0x3a ;;
         emit_byte 0x16 ;;
         modrm 3 1 (xvm &&& 7) ;;
         emit_byte i
       else
         emit_byte 0x48 ;; emit_byte 0x0f ;; emit_byte 0x3a ;;
         emit_byte 0x16 ;;
         modrm 3 1 (xvm &&& 7) ;;
         emit_byte i ;;
         emit_byte 0x48 ;; emit_byte 0x89 ;; emit_byte 0xc1 ;;
         emit_byte 0x49 ;; emit_byte 0x89 ;; emit_byte 0xd0) ;;
      (if element_bits <=? 32 then emit_byte 0x85 ;; emit_byte 0xc9
       else emit_byte 0x48 ;; emit_byte 0x85 ;; emit_byte 0xc9) ;;
      emit_byte 0x74 ;; emit_byte 0x15 ;;
      (if element_bits <=? 32 then
         if c_true is_signed then
           (if element_bits <=? 16 then emit_byte 0x66 ;; emit_byte 0x99
            else emit_byte 0x99) ;;
           emit_byte 0xf7 ;; emit_byte 0xf9
         else
           emit_byte 0x31 ;; emit_byte 0xd2 ;;
           emit_byte 0xf7 ;; emit_byte 0xf1
       else if c_true is_signed then
         emit_byte 0x48 ;; emit_byte 0x99 ;;
         emit_byte 0xf7 ;; emit_byte 0xf9
       else
         emit_byte 0x48 ;; emit_byte 0x31 ;; emit_byte 0xd2 ;;
         emit_byte 0x48 ;; emit_byte 0xf7 ;; emit_byte 0xf1) ;;
      emit_byte 0xEB ;; emit_byte 0x0A ;;
      emit_byte 0x31 ;; emit_byte 0xc0 ;;
      if element_bits =? 8 then
        emit_byte 0x66 ;; emit_byte 0x0f ;; emit_byte 0x3a ;;
        emit_byte 0x20 ;;
        modrm 3 (xvd &&& 7) 0 ;;
        emit_byte i
      else if element_bits =? 16 then
        emit_byte 0x66 ;; emit_byte 0x0f ;; emit_byte 0xc4 ;;
        modrm 3 (xvd &&& 7) 0 ;;
        emit_byte i
      else if element_bits =? 32 then
        emit_byte 0x66 ;; emit_byte 0x0f ;; emit_byte 0x3a ;;
        emit_byte 0x22 ;;
        modrm 3 (xvd &&& 7) 0 ;;
        emit_byte i
      else
        emit_byte 0x66 ;; emit_byte 0x0f ;; emit_byte 0x3a ;;
        emit_byte 0x22 ;;
        emit_byte 0x48 ;;
        modrm 3 (xvd &&& 7) 0 ;;
        emit_byte i) ;;
    emit_byte 0x41 ;; emit_byte 0x5a ;;
    emit_byte 0x41 ;; emit_byte 0x59 ;;
    emit_byte 0x41 ;; emit_byte 0x58 ;;
    emit_byte 0x5a ;;
    emit_byte 0x59 ;;
    emit_byte 0x58 ;;
    mret ARM2X86_OK
  else mret ARM2X86_ERR_INVALID_PARAM.

Definition translate_neon_and (op : Z) : emitter Z :=
  let vd := op &&& 0x1f in
  let vn := (op >>> 5) &&& 0x1f in
  let vm := (op >>> 16) &&& 0x1f in
  neon_and vd vn vm ;; mret ARM2X86_OK.

Definition translate_neon_orr (op : Z) : emitter Z :=
  let vd := op &&& 0x1f in
  let vn := (op >>> 5) &&& 0x1f in
  let vm := (op >>> 16) &&& 0x1f in
  neon_orr vd vn vm ;; mret ARM2X86_OK.

Definition translate_neon_eor (op : Z) : emitter Z :=
  let vd := op &&& 0x1f in
  let vn := (op >>> 5) &&& 0x1f in
  let vm := (op >>> 16) &&& 0x1f in
  neon_eor vd vn vm ;; mret ARM2X86_OK.

Definition translate_neon_bsl (op : Z) : emitter Z :=
  let vd := op &&& 0x1f in
  let vn := (op >>> 5) &&& 0x1f in
  let vm := (op >>> 16) &&& 0x1f in
  neon_bsl vd vn vm ;; mret ARM2X86_OK.

Definition translate_neon_ext (op : Z) : emitter Z :=
  let vd := op &&& 0x1f in
  let vn := (op >>> 5) &&& 0x1f in
  let vm := (op >>> 16) &&& 0x1f in
  let imm := (op >>> 11) &&& 0xf in
  neon_ext vd vn vm imm ;; mret ARM2X86_OK.

Definition translate_neon_dup (op : Z) : emitter Z :=
  let vd := op &&& 0x1f in
  let vn := (op >>> 5) &&& 0x1f in
  let size := (op >>> 22) &&& 3 in
  neon_dup vd vn size ;; mret ARM2X86_OK.

Definition translate_neon_movi (op : Z) : emitter Z :=
  let vd := op &&& 0x1f in
  let imm := (op >>> 5) &&& 0xff in
  let size := (op >>> 22) &&& 3 in
  neon_movi vd imm size ;; mret ARM2X86_OK.

Definition translate_neon_mov (op : Z) : emitter Z :=
  let vd := op &&& 0x1f in
  let vn := (op >>> 5) &&& 0x1f in
  neon_mov vd vn ;; mret ARM2X86_OK.

Definition translate_neon_shl (op : Z) : emitter Z :=
  let vd := op &&& 0x1f in
  let vn := (op >>> 5) &&& 0x1f in
  let shift := (op >>> 16) &&& 0x3f in
  neon_shl vd vn shift ;; mret ARM2X86_OK.

Definition translate_neon_shr (op : Z) : emitter Z :=
  let vd := op &&& 0x1f in
  let vn := (op >>> 5) &&& 0x1f in
  let shift := (op >>> 16) &&& 0x3f in
  neon_shr vd vn shift ;; mret ARM2X86_OK.

Definition translate_neon_fadd (op : Z) : emitter Z :=
  let vd := op &&& 0x1f in
  let vn := (op >>> 5) &&& 0x1f in
  let vm := (op >>> 16) &&& 0x1f in
  neon_add vd vn vm 1 ;; mret ARM2X86_OK.

Definition translate_neon_fsub (op : Z) : emitter Z :=
  let vd := op &&& 0x1f in
  let vn := (op >>> 5) &&& 0x1f in
  let vm := (op >>> 16) &&& 0x1f in
  neon_sub vd vn vm 1 ;; mret ARM2X86_OK.

Definition translate_neon_fmul (op : Z) : emitter Z :=
  let vd := op &&& 0x1f in
  let vn := (op >>> 5) &&& 0x1f in
  let vm := (op >>> 16) &&& 0x1f in
  neon_fmul vd vn vm ;; mret ARM2X86_OK.

Definition translate_neon_fmax (op : Z) : emitter Z :=
  let vd := op &&& 0x1f in
  let vn := (op >>> 5) &&& 0x1f in
  let vm := (op >>> 16) &&& 0x1f in
  neon_fmax vd vn vm ;; mret ARM2X86_OK.

Definition translate_neon_fmin (op : Z) : emitter Z :=
  let vd := op &&& 0x1f in
  let vn := (op >>> 5) &&& 0x1f in
  let vm := (op >>> 16) &&& 0x1f in
  neon_fmin vd vn vm ;; mret ARM2X86_OK.

Definition translate_neon_fcvt (op : Z) : emitter Z :=
  let vd := op &&& 0x1f in
  let vn := (op >>> 5) &&& 0x1f in
  let src_is_int := (op >>> 22) &&& 1 in
  let dst_is_int := (op >>> 30) &&& 1 in
  neon_fcvt vd vn src_is_int dst_is_int ;; mret ARM2X86_OK.

Definition translate_neon_fsqrt (op : Z) : emitter Z :=
  let vd := op &&& 0x1f in
  let vn := (op >>> 5) &&& 0x1f in
  neon_fsqrt vd vn ;; mret ARM2X86_OK.

Definition translate_neon_frecpe (op : Z) : emitter Z :=
  let vd := op &&& 0x1f in
  let vn := (op >>> 5) &&& 0x1f in
  neon_frecpe vd vn ;; mret ARM2X86_OK.

Definition translate_neon_frsqrte (op : Z) : emitter Z :=
  let vd := op &&& 0x1f in
  let vn := (op >>> 5) &&& 0x1f in
  neon_frsqrte vd vn ;; mret ARM2X86_OK.

Definition translate_neon_fmla (op : Z) : emitter Z :=
  let vd := op &&& 0x1f in
  let vn := (op >>> 5) &&& 0x1f in
  let vm := (op >>> 16) &&& 0x1f in
  let is_double := (op >>> 22) &&& 1 in
  neon_fmla vd vn vm is_double ;; mret ARM2X86_OK.

Definition translate_neon_fabs (op : Z) : emitter Z :=
  let vd := op &&& 0x1f in
  let vn := (op >>> 5) &&& 0x1f in
  neon_fabs vd vn ;; mret ARM2X86_OK.

Definition translate_neon_fneg (op : Z) : emitter Z :=
  let vd := op &&& 0x1f in
  let vn := (op >>> 5) &&& 0x1f in
  neon_fneg vd vn ;; mret ARM2X86_OK.

Definition translate_ldr_simd (op : Z) : emitter Z :=
  let vt := op &&& 0x1f in
  let base := (op >>> 5) &&& 0x1f in
  let offset := (op >>> 10) &&& 0xfff in
  let size := (op >>> 30) &&& 3 in
  neon_ldr vt base offset size ;; mret ARM2X86_OK.

Definition translate_str_simd (op : Z) : emitter Z :=
  let vt := op &&& 0x1f in
  let base := (op >>> 5) &&& 0x1f in
  let offset := (op >>> 10) &&& 0xfff in
  let size := (op >>> 30) &&& 3 in
  neon_str vt base offset size ;; mret ARM2X86_OK.

Definition translate_neon_ins (op : Z) : emitter Z :=
  let vd := op &&& 0x1f in
  let vn := (op >>> 5) &&& 0x1f in
  let index := (op >>> 20) &&& 0xf in
  neon_ins vd vn index ;; mret ARM2X86_OK.

Definition translate_neon_xtn (op : Z) : emitter Z :=
  let vd := op &&& 0x1f in
  let vn := (op >>> 5) &&& 0x1f in
  let size := (op >>> 22) &&& 3 in
  neon_xtn vd vn size ;; mret ARM2X86_OK.

Definition translate_neon_sqxtn (op : Z) : emitter Z :=
  let vd := op &&& 0x1f in
  let vn := (op >>> 5) &&& 0x1f in
  let size := (op >>> 22) &&& 3 in
  neon_sqxtn vd vn size ;; mret ARM2X86_OK.

Definition translate_neon_uqxtn (op : Z) : emitter Z :=
  let vd := op &&& 0x1f in
  let vn := (op >>> 5) &&& 0x1f in
  let size := (op >>> 22) &&& 3 in
  neon_uqxtn vd vn size ;; mret ARM2X86_OK.

Definition translate_neon_sqxtun (op : Z) : emitter Z :=
  let vd := op &&& 0x1f in
  let vn := (op >>> 5) &&& 0x1f in
  let size := (op >>> 22) &&& 3 in
  neon_sqxtun vd vn size ;; mret ARM2X86_OK.

Definition translate_neon_usra (op : Z) : emitter Z :=
  let vd := op &&& 0x1f in
  let vn := (op >>> 5) &&& 0x1f in
  let shift := (op >>> 16) &&& 0x3f in
  neon_usra vd vn shift ;; mret ARM2X86_OK.

Definition translate_neon_ssra (op : Z) : emitter Z :=
  let vd := op &&& 0x1f in
  let vn := (op >>> 5) &&& 0x1f in
  let shift := (op >>> 16) &&& 0x3f in
  neon_ssra vd vn shift ;; mret ARM2X86_OK.

Definition translate_neon_ushl (op : Z) : emitter Z :=
  let vd := op &&& 0x1f in
  let vn := (op >>> 5) &&& 0x1f in
  let vm := (op >>> 16) &&& 0x1f in
  neon_ushl vd vn vm ;; mret ARM2X86_OK.

Definition translate_neon_sshl (op : Z) : emitter Z :=
  let vd := op &&& 0x1f in
  let vn := (op >>> 5) &&& 0x1f in
  let vm := (op >>> 16) &&& 0x1f in
  neon_sshl vd vn vm ;; mret ARM2X86_OK.

Definition translate_neon_umull (op : Z) : emitter Z :=
  let vd := op &&& 0x1f in
  let vn := (op >>> 5) &&& 0x1f in
  let vm := (op >>> 16) &&& 0x1f in
  let size := (op >>> 22) &&& 3 in
  neon_umull vd vn vm size ;; mret ARM2X86_OK.

Definition translate_neon_smull (op : Z) : emitter Z :=
  let vd := op &&& 0x1f in
  let vn := (op >>> 5) &&& 0x1f in
  let vm := (op >>> 16) &&& 0x1f in
  let size := (op >>> 22) &&& 3 in
  neon_smull vd vn vm size ;; mret ARM2X86_OK.

Definition translate_neon_pmul (op : Z) : emitter Z :=
  let vd := op &&& 0x1f in
  let vn := (op >>> 5) &&& 0x1f in
  let vm := (op >>> 16) &&& 0x1f in
  neon_pmul vd vn vm ;; mret ARM2X86_OK.

Definition translate_neon_fmls (op : Z) : emitter Z :=
  let vd := op &&& 0x1f in
  let vn := (op >>> 5) &&& 0x1f in
  let vm := (op >>> 16) &&& 0x1f in
  let is_double := (op >>> 22) &&& 1 in
  neon_fmls vd vn vm is_double ;; mret ARM2X86_OK.

Definition translate_neon_fcmp (op : Z) : emitter Z :=
  let vd := op &&& 0x1f in
  let vn := (op >>> 5) &&& 0x1f in
  let vm := (op >>> 16) &&& 0x1f in
  neon_fcmp vd vn vm ;; mret ARM2X86_OK.

(** ** What the two-operand handlers write *)

Lemma neon_to_xmm_low v : 0 <= v < 32 -> neon_to_xmm v &&& 7 = v mod 8.
Proof.
  intros Hv. unfold neon_to_xmm. assert (H7 : forall x, x &&& 7 = x mod 8) by (intros; by apply (Z.land_ones _ 3)).
  destruct (v <? 16); rewrite H7; [done|].
  change 0xf with (Z.ones 4). rewrite Z.land_ones by done. by rewrite Z.mod_mod_divide by (by exists 2).
Qed.

(** The handlers of [Vd = Vn op Vm], with the SSE prefix and opcode they write. *)
Definition binary_handlers : list ((Z -> emitter Z) * Z * Z) :=
  [(translate_neon_and, 0x66, 0xdb); (translate_neon_orr, 0x66, 0xeb); (translate_neon_eor, 0x66, 0xef);
   (translate_neon_fsub, 0x66, 0x5c); (translate_neon_fmax, 0, 0x5f); (translate_neon_fmin, 0, 0x5d);
   (translate_neon_ushl, 0x66, 0xf3); (translate_neon_sshl, 0x66, 0xe3)] ++
  if c_true g_simd_enabled then [(translate_neon_fadd, 0x66, 0x58)] else [].

(** The handlers of the two-operand vector instructions write one SSE instruction
    [xmm(vd mod 8) = xmm(vd mod 8) op xmm(vm mod 8)]: the first source [Vn] is never read,
    and the vector registers 8 to 31 are the SSE registers of their number modulo 8.  With
    SIMD switched off FADD and ADD write nothing. *)
Theorem neon_binary_operands op :
  let vd := op &&& 0x1f in
  let vm := (op >>> 16) &&& 0x1f in
  Forall (fun '(h, p, o) => disassemble (code (h op)) = Some [Sse p o W32 (vd mod 8) (Reg (vm mod 8))])
    binary_handlers /\
  (g_simd_enabled = 0 -> code (translate_neon_add op) = [] /\ code (translate_neon_fadd op) = []).
Proof.
  intros vd vm.
  assert (Hd : neon_to_xmm vd &&& 7 = vd mod 8) by (apply neon_to_xmm_low; pose proof (land_range op 0x1f); unfold vd; lia).
  assert (Hm : neon_to_xmm vm &&& 7 = vm mod 8) by (apply neon_to_xmm_low; pose proof (land_range (op >>> 16) 0x1f); unfold vm; lia).
  pose proof (Z.mod_pos_bound vd 8 ltac:(lia)) as Rd. pose proof (Z.mod_pos_bound vm 8 ltac:(lia)) as Rm.
  assert (Hsse : forall f : Z -> Z -> list Z, forall p o,
    (forall a b, 0 <= a < 8 -> 0 <= b < 8 -> disassemble (f a b) = Some [Sse p o W32 a (Reg b)]) ->
    disassemble (f (neon_to_xmm vd &&& 7) (neon_to_xmm vm &&& 7)) = Some [Sse p o W32 (vd mod 8) (Reg (vm mod 8))]).
  { intros f p o Hf. rewrite Hd, Hm. by apply Hf. }
  split.
  - unfold binary_handlers. apply Forall_app. split.
    + repeat (apply Forall_cons_2; [cbv beta iota|]); [..|apply Forall_nil_2].
      1, 2, 3, 4, 7, 8: apply (Hsse (fun a b => [0x66; 0x0f; _; u8 ((3 <<< 6) ||| ((a &&& 7) <<< 3) ||| (b &&& 7))]));
        intros a b Ra Rb; each_of_8 Ra; each_of_8 Rb; reflexivity.
      all: apply (Hsse (fun a b => [0x0f; _; u8 ((3 <<< 6) ||| ((a &&& 7) <<< 3) ||| (b &&& 7))]));
        intros a b Ra Rb; each_of_8 Ra; each_of_8 Rb; reflexivity.
    + destruct (c_true g_simd_enabled) eqn:Eg; [|apply Forall_nil_2]. apply Forall_cons_2; [cbv beta iota|apply Forall_nil_2].
      unfold translate_neon_fadd, neon_add. rewrite Eg. cbn [negb].
      apply (Hsse (fun a b => [0x66; 0x0f; 0x58; u8 ((3 <<< 6) ||| ((a &&& 7) <<< 3) ||| (b &&& 7))]));
        intros a b Ra Rb; each_of_8 Ra; each_of_8 Rb; reflexivity.
  - intros Hg. unfold translate_neon_add, translate_neon_fadd, neon_add. rewrite Hg. split; reflexivity.
Qed.

End Neon.

Lemma neon_binary_operands_witness :
  code (translate_neon_fadd 0 0x4e22d420) = [] /\
  disassemble (code (translate_neon_and 0x4e221c29)) = Some [Sse 0x66 0xdb W32 1 (Reg 2)].
Proof.
  destruct (neon_binary_operands 0 0x4e22d420) as [_ H1]. destruct (neon_binary_operands 0 0x4e221c29) as [H2 _].
  split; [apply (proj2 (H1 eq_refl)) | exact (Forall_inv H2)].
Defined.
