(* ===== verification/Sve.v ===== *)
(** * The SVE translator: [modules/arm2x86_sve.c]

    The context of a scalable vector unit with its length and mapping strategy, and one
    emitter per SVE instruction.  The emitters take the file's globals, the context (None
    for a null pointer) and whether the buffer pointer is there; the governing predicate,
    which none of them uses, is left out.  What CPUID reports is the argument [cpuid] of
    the operations that ask for it.  A null context that is dereferenced gives [None]. *)
From S2P Require Import Prelude X86 Emit.
From Stdlib Require Import ZArith Lia Bool.
From stdpp Require Import base numbers list.
Open Scope Z_scope.
Open Scope c_scope.

(** ** The context and the globals *)

Definition SVE_VL_MIN_BITS := 128.
Definition SVE_VL_MAX_BITS := 2048.
Definition SVE_ZREG_COUNT : nat := 32.
Definition SVE_PREG_COUNT : nat := 16.

Inductive SVEMapStrategy := SVE_MAP_AUTO | SVE_MAP_ZMM | SVE_MAP_YMM | SVE_MAP_XMM.
#[export] Instance strategy_eq_dec : EqDecision SVEMapStrategy.
Proof. solve_decision. Defined.

Record SVEContext := {
  z : list (list Z); p : list (list Z); ffr : Z; vl : Z; vg : Z;
  map_strategy : SVEMapStrategy; vl_changed : bool; active_zregs : Z }.

(** What [memset] leaves. *)
Definition zero_context : SVEContext :=
  {| z := replicate SVE_ZREG_COUNT (replicate (Z.to_nat (SVE_VL_MAX_BITS / 8)) 0);
     p := replicate SVE_PREG_COUNT (replicate (Z.to_nat (SVE_VL_MAX_BITS / 16)) 0);
     ffr := 0; vl := 0; vg := 0; map_strategy := SVE_MAP_AUTO; vl_changed := false;
     active_zregs := 0 |}.

Definition set_length (n : Z) (active : Z) (changed : bool) (strategy : SVEMapStrategy)
    (c : SVEContext) : SVEContext :=
  {| z := z c; p := p c; ffr := ffr c; vl := n; vg := n / 64; map_strategy := strategy;
     vl_changed := changed; active_zregs := active |}.
Definition set_strategy (s : SVEMapStrategy) (c : SVEContext) : SVEContext :=
  {| z := z c; p := p c; ffr := ffr c; vl := vl c; vg := vg c; map_strategy := s;
     vl_changed := vl_changed c; active_zregs := active_zregs c |}.
Definition set_p (f : list (list Z) -> list (list Z)) (c : SVEContext) : SVEContext :=
  {| z := z c; p := f (p c); ffr := ffr c; vl := vl c; vg := vg c;
     map_strategy := map_strategy c; vl_changed := vl_changed c;
     active_zregs := active_zregs c |}.

(** The static variables of the file. *)
Record sve_globals := {
  g_sve_ctx : SVEContext; g_sve_initialized : Z; g_has_avx512 : Z;
  g_default_strategy : SVEMapStrategy }.
Definition initial_globals : sve_globals :=
  {| g_sve_ctx := zero_context; g_sve_initialized := 0; g_has_avx512 := 0;
     g_default_strategy := SVE_MAP_AUTO |}.
Definition set_globals (c : SVEContext) (initialized avx512 : Z) (g : sve_globals) : sve_globals :=
  {| g_sve_ctx := c; g_sve_initialized := initialized; g_has_avx512 := avx512;
     g_default_strategy := g_default_strategy g |}.

(** ** Detection and the vector length *)

Definition sve_detect_support (cpuid : Z) (g : sve_globals) : Z * sve_globals :=
  (cpuid, set_globals (g_sve_ctx g) (g_sve_initialized g) cpuid g).

(** The two limits at the head of the functions that take a length. *)
Definition clamp_length (n : Z) : Z :=
  let n := if n <? SVE_VL_MIN_BITS then SVE_VL_MIN_BITS else n in
  if n >? SVE_VL_MAX_BITS then SVE_VL_MAX_BITS else n.

Definition sve_init_context (cpuid : Z) (ctx : option SVEContext) (bits : Z) (g : sve_globals)
    : Z * option SVEContext * sve_globals :=
  match ctx with
  | None => (-1, None, g)
  | Some _ =>
      let c := set_length (clamp_length bits) 32 false (g_default_strategy g) zero_context in
      let '(has, g) := sve_detect_support cpuid g in
      (0, Some c, set_globals (g_sve_ctx g) 1 has g)
  end.

Definition sve_destroy_context (ctx : option SVEContext) (g : sve_globals)
    : option SVEContext * sve_globals :=
  ((fun _ => zero_context) <$> ctx, set_globals (g_sve_ctx g) 0 (g_has_avx512 g) g).

Definition sve_set_vector_length (ctx : option SVEContext) (bits : Z) (g : sve_globals)
    : Z * option SVEContext :=
  match ctx with
  | None => (-1, None)
  | Some c =>
      let n := clamp_length bits in
      if vl c =? n then (0, Some c)
      else
        let active := if n <=? 128 then 16 else if n <=? 256 then 32
                      else if n <=? 512 then 32 else 32 in
        let strategy :=
          if c_true (g_has_avx512 g) && (n >=? 512) then SVE_MAP_ZMM
          else if c_true (g_has_avx512 g) && (n >=? 256) then SVE_MAP_YMM
          else SVE_MAP_XMM in
        (0, Some (set_length n active true strategy c))
  end.

Definition sve_set_map_strategy (ctx : option SVEContext) (strategy : SVEMapStrategy)
    (g : sve_globals) : Z * option SVEContext :=
  match ctx with
  | None => (-1, None)
  | Some c =>
      let has := c_true (g_has_avx512 g) in
      let strategy := if decide (strategy = SVE_MAP_ZMM) then
                        if has then SVE_MAP_ZMM else SVE_MAP_YMM else strategy in
      let strategy := if decide (strategy = SVE_MAP_YMM) then
                        if has then SVE_MAP_YMM else SVE_MAP_XMM else strategy in
      (0, Some (set_strategy strategy c))
  end.

Definition sve_get_zreg_mapping (g : sve_globals) (ctx : option SVEContext) (zreg : Z) : Z :=
  match ctx with
  | None => zreg mod 16
  | Some c =>
      match map_strategy c with
      | SVE_MAP_ZMM => zreg mod 16
      | SVE_MAP_YMM => zreg mod 16
      | SVE_MAP_XMM => zreg mod 16
      | SVE_MAP_AUTO =>
          if c_true (g_has_avx512 g) && (vl c >=? 512) then zreg mod 16
          else if c_true (g_has_avx512 g) && (vl c >=? 256) then zreg mod 16
          else zreg mod 16
      end
  end.

(** The two tests the emitters share: code for 256-bit registers at least, and for
    512-bit registers. *)
Definition uses_avx (g : sve_globals) (c : SVEContext) : bool :=
  c_true (g_has_avx512 g) && (vl c >=? 256) && negb (bool_decide (map_strategy c = SVE_MAP_XMM)).
Definition uses_zmm (c : SVEContext) : bool :=
  (vl c >=? 512) && bool_decide (map_strategy c = SVE_MAP_ZMM).

Definition sve_get_vex_prefix (g : sve_globals) (c : SVEContext) : Z * Z * Z :=
  if c_true (g_has_avx512 g) && uses_zmm c then (0x62, 0xf1, 1)
  else if uses_avx g c then (0xc5, 0xfd, 1)
  else (0x66, 0x0f, 0).

Definition sve_z_to_xmm (g : sve_globals) (ctx : option SVEContext) (zreg : Z) : Z :=
  match ctx with
  | Some _ => sve_get_zreg_mapping g ctx zreg
  | None => zreg mod 16
  end.

(** ** Shared parts of the emitters *)

Definition sve_ready (g : sve_globals) : bool := c_true (g_sve_initialized g).
Definition is_ctx (ctx : option SVEContext) : bool := match ctx with Some _ => true | None => false end.

(** The number of 128-bit steps. *)
Definition sve_iterations (c : SVEContext) : Z :=
  let n := vl c / 128 in
  let n := if n =? 0 then 1 else n in
  if n >? 16 then 16 else n.

(** [if (!g_sve_initialized || !buf || !ctx) return -1;] in front of a body. *)
Definition with_ctx (ok : bool) (ctx : option SVEContext) (body : SVEContext -> emitter Z) : emitter Z :=
  match ctx with
  | Some c => if ok then body c else mret (-1)
  | None => mret (-1)
  end.

(** [if (g_has_avx512 && ctx->vl <= 512) avx else sse; return 0;] *)
Definition by_length (g : sve_globals) (ctx : option SVEContext) (avx sse : emitter unit)
    : emitter (option Z) :=
  if c_true (g_has_avx512 g) then
    match ctx with
    | None => mret None
    | Some c => (if vl c <=? 512 then avx else sse) ;; mret (Some 0)
    end
  else sse ;; mret (Some 0).

Fixpoint repeat_emit (n : nat) (m : emitter unit) : emitter unit :=
  match n with
  | O => mret tt
  | S n => m ;; repeat_emit n m
  end.

(** ** The loop over 128-bit steps *)

Definition emit_sve_loop (g : sve_globals) (ctx : option SVEContext) (zd zn zm : Z)
    (sse_opcode avx_opcode : Z) : emitter Z :=
  with_ctx true ctx (fun c =>
    let xzd := sve_z_to_xmm g ctx zd in
    let xzn := sve_z_to_xmm g ctx zn in
    let xzm := sve_z_to_xmm g ctx zm in
    let iterations := sve_iterations c in
    let '(prefix1, prefix2, rex_w) := sve_get_vex_prefix g c in
    if uses_avx g c then
      if uses_zmm c then
        emit_byte 0x62 ;; emit_byte 0xf1 ;; emit_byte 0x75 ;; emit_byte 0x30 ;;
        emit_byte avx_opcode ;;
        emit_byte (0xc0 ||| ((xzd &&& 7) <<< 3) ||| (xzm &&& 7)) ;;
        mret 0
      else
        emit_byte 0xc5 ;; emit_byte 0xfd ;; emit_byte avx_opcode ;;
        emit_byte (0xc0 ||| ((xzd &&& 7) <<< 3) ||| (xzm &&& 7)) ;;
        mret 0
    else
      emit_byte 0x51 ;; emit_byte 0x52 ;;
      emit_byte 0xb9 ;; emit_imm32 iterations ;;
      emit_byte 0x48 ;; emit_byte 0x31 ;; emit_byte 0xd2 ;;
      loop_start ← here;
      emit_byte prefix1 ;;
      (if c_true prefix2 then emit_byte prefix2 else mret tt) ;;
      emit_byte 0x0f ;; emit_byte sse_opcode ;;
      emit_byte (0xc0 ||| (xzd <<< 3) ||| xzm) ;;
      emit_byte 0x48 ;; emit_byte 0xff ;; emit_byte 0xc2 ;;
      emit_byte 0xe2 ;;
      cur ← here;
      let loop_offset := Z.of_nat cur - Z.of_nat loop_start in
      emit_byte (- loop_offset &&& 0xff) ;;
      emit_byte 0x5a ;; emit_byte 0x59 ;;
      mret 0).

(** ** Integer and logical operations, loads and stores, reductions, SVE2 *)

Definition sve_translate_add (g : sve_globals) (ctx : option SVEContext) (zd zn zm : Z) (buf : bool) : emitter Z :=
  if sve_ready g && buf && is_ctx ctx then emit_sve_loop g ctx zd zn zm 0xfc 0xfc else mret (-1).

Definition sve_translate_sub (g : sve_globals) (ctx : option SVEContext) (zd zn zm : Z) (buf : bool) : emitter Z :=
  if sve_ready g && buf && is_ctx ctx then emit_sve_loop g ctx zd zn zm 0xf8 0xf8 else mret (-1).

Definition sve_translate_mul (g : sve_globals) (ctx : option SVEContext) (zd zn zm : Z) (buf : bool) : emitter Z :=
  if sve_ready g && buf && is_ctx ctx then emit_sve_loop g ctx zd zn zm 0x28 0x40 else mret (-1).

Definition sve_translate_and (g : sve_globals) (ctx : option SVEContext) (zd zn zm : Z) (buf : bool) : emitter Z :=
  if sve_ready g && buf && is_ctx ctx then emit_sve_loop g ctx zd zn zm 0xdb 0xdb else mret (-1).

Definition sve_translate_orr (g : sve_globals) (ctx : option SVEContext) (zd zn zm : Z) (buf : bool) : emitter Z :=
  if sve_ready g && buf && is_ctx ctx then emit_sve_loop g ctx zd zn zm 0xeb 0xeb else mret (-1).

Definition sve_translate_eor (g : sve_globals) (ctx : option SVEContext) (zd zn zm : Z) (buf : bool) : emitter Z :=
  if sve_ready g && buf && is_ctx ctx then emit_sve_loop g ctx zd zn zm 0xef 0xef else mret (-1).

Definition sve_translate_ld1 (g : sve_globals) (ctx : option SVEContext) (zt rn : Z) (buf : bool) : emitter Z :=
  with_ctx (sve_ready g && buf) ctx (fun c =>
    let xzt := sve_z_to_xmm g ctx zt in
    let xrn := rn &&& 0xf in
    let iterations := sve_iterations c in
    emit_byte 0x51 ;; emit_byte 0x52 ;; emit_byte 0x50 ;; emit_byte 0xb9 ;;
    emit_imm32 iterations ;;
    emit_byte 0x48 ;; emit_byte 0x31 ;; emit_byte 0xd2 ;;
    loop_start ← here;
    emit_byte 0x66 ;; emit_byte 0x0f ;; emit_byte 0x10 ;;
    emit_byte ((0x0 <<< 6) ||| ((xzt &&& 0x7) <<< 3) ||| 0x04) ;;
    emit_byte ((0x01 <<< 6) ||| ((xrn &&& 0x7) <<< 3) ||| (0x02 &&& 0x7)) ;; emit_byte 0x48 ;;
    emit_byte 0xff ;; emit_byte 0xc2 ;; emit_byte 0xe2 ;;
    cur ← here;
    let offset := Z.of_nat cur - Z.of_nat loop_start in
    emit_byte ((- offset &&& 0xff)) ;; emit_byte 0x58 ;; emit_byte 0x5a ;; emit_byte 0x59 ;;
    mret 0).

Definition sve_translate_st1 (g : sve_globals) (ctx : option SVEContext) (zt rn : Z) (buf : bool) : emitter Z :=
  with_ctx (sve_ready g && buf) ctx (fun c =>
    let xzt := sve_z_to_xmm g ctx zt in
    let xrn := rn &&& 0xf in
    let iterations := sve_iterations c in
    emit_byte 0x51 ;; emit_byte 0x52 ;; emit_byte 0x50 ;; emit_byte 0xb9 ;;
    emit_imm32 iterations ;;
    emit_byte 0x48 ;; emit_byte 0x31 ;; emit_byte 0xd2 ;;
    loop_start ← here;
    emit_byte 0x66 ;; emit_byte 0x0f ;; emit_byte 0x11 ;;
    emit_byte ((0x0 <<< 6) ||| ((xzt &&& 0x7) <<< 3) ||| 0x04) ;;
    emit_byte ((0x01 <<< 6) ||| ((xrn &&& 0x7) <<< 3) ||| (0x02 &&& 0x7)) ;; emit_byte 0x48 ;;
    emit_byte 0xff ;; emit_byte 0xc2 ;; emit_byte 0xe2 ;;
    cur ← here;
    let offset2 := Z.of_nat cur - Z.of_nat loop_start in
    emit_byte ((- offset2 &&& 0xff)) ;; emit_byte 0x58 ;; emit_byte 0x5a ;; emit_byte 0x59 ;;
    mret 0).

Definition sve_translate_addv (g : sve_globals) (ctx : option SVEContext) (rd zn : Z) (buf : bool) : emitter (option Z) :=
  if sve_ready g && buf then
    let xzn := sve_z_to_xmm g ctx zn in
    let xrd := rd &&& 0xf in
    by_length g ctx
      (emit_byte 0x50 ;; emit_byte 0x52 ;; emit_byte 0xc5 ;; emit_byte 0xfd ;; emit_byte 0x6f ;;
      emit_byte (0xc0 ||| xzn) ;; emit_byte 0xc5 ;; emit_byte 0xf9 ;; emit_byte 0x00 ;;
      emit_byte 0xc0 ;; emit_byte 0x66 ;; emit_byte 0x0f ;; emit_byte 0x7e ;; emit_byte 0xc0 ;;
      emit_byte 0x48 ;; emit_byte 0x89 ;; emit_byte (0xc0 ||| (xrd <<< 3) ||| 0) ;; emit_byte 0x5a ;;
      emit_byte 0x58)
      (emit_byte 0x50 ;; emit_byte 0x52 ;; emit_byte 0x66 ;; emit_byte 0x0f ;; emit_byte 0x6f ;;
      emit_byte (0xc8 ||| xzn) ;;
      repeat_emit 4 (
          emit_byte 0x66 ;; emit_byte 0x0f ;; emit_byte 0xd4 ;; emit_byte 0xc9) ;;
      emit_byte 0x66 ;; emit_byte 0x0f ;; emit_byte 0x7e ;; emit_byte 0xc8 ;; emit_byte 0x48 ;;
      emit_byte 0x89 ;; emit_byte (0xc0 ||| (xrd <<< 3) ||| 0) ;; emit_byte 0x5a ;; emit_byte 0x58)
  else mret (Some (-1)).

Definition sve_translate_maxv (g : sve_globals) (ctx : option SVEContext) (rd zn : Z) (buf : bool) : emitter (option Z) :=
  if sve_ready g && buf then
    let xzn := sve_z_to_xmm g ctx zn in
    let xrd := rd &&& 0xf in
    by_length g ctx
      (emit_byte 0x50 ;; emit_byte 0x52 ;; emit_byte 0xc5 ;; emit_byte 0xfd ;; emit_byte 0x6f ;;
      emit_byte (0xc0 ||| xzn) ;; emit_byte 0xc5 ;; emit_byte 0xf5 ;; emit_byte 0xee ;;
      emit_byte 0xc0 ;; emit_byte 0x66 ;; emit_byte 0x0f ;; emit_byte 0x7e ;; emit_byte 0xc0 ;;
      emit_byte 0x48 ;; emit_byte 0x89 ;; emit_byte (0xc0 ||| (xrd <<< 3) ||| 0) ;; emit_byte 0x5a ;;
      emit_byte 0x58)
      (emit_byte 0x50 ;; emit_byte 0x52 ;; emit_byte 0x66 ;; emit_byte 0x0f ;; emit_byte 0x6f ;;
      emit_byte (0xc8 ||| xzn) ;;
      repeat_emit 4 (
          emit_byte 0x66 ;; emit_byte 0x0f ;; emit_byte 0xee ;; emit_byte 0xc9) ;;
      emit_byte 0x66 ;; emit_byte 0x0f ;; emit_byte 0x7e ;; emit_byte 0xc8 ;; emit_byte 0x48 ;;
      emit_byte 0x89 ;; emit_byte (0xc0 ||| (xrd <<< 3) ||| 0) ;; emit_byte 0x5a ;; emit_byte 0x58)
  else mret (Some (-1)).

Definition sve_translate_minv (g : sve_globals) (ctx : option SVEContext) (rd zn : Z) (buf : bool) : emitter (option Z) :=
  if sve_ready g && buf then
    let xzn := sve_z_to_xmm g ctx zn in
    let xrd := rd &&& 0xf in
    by_length g ctx
      (emit_byte 0x50 ;; emit_byte 0x52 ;; emit_byte 0xc5 ;; emit_byte 0xfd ;; emit_byte 0x6f ;;
      emit_byte (0xc0 ||| xzn) ;; emit_byte 0xc5 ;; emit_byte 0xf5 ;; emit_byte 0xea ;;
      emit_byte 0xc0 ;; emit_byte 0x66 ;; emit_byte 0x0f ;; emit_byte 0x7e ;; emit_byte 0xc0 ;;
      emit_byte 0x48 ;; emit_byte 0x89 ;; emit_byte (0xc0 ||| (xrd <<< 3) ||| 0) ;; emit_byte 0x5a ;;
      emit_byte 0x58)
      (emit_byte 0x50 ;; emit_byte 0x52 ;; emit_byte 0x66 ;; emit_byte 0x0f ;; emit_byte 0x6f ;;
      emit_byte (0xc8 ||| xzn) ;;
      repeat_emit 4 (
          emit_byte 0x66 ;; emit_byte 0x0f ;; emit_byte 0xea ;; emit_byte 0xc9) ;;
      emit_byte 0x66 ;; emit_byte 0x0f ;; emit_byte 0x7e ;; emit_byte 0xc8 ;; emit_byte 0x48 ;;
      emit_byte 0x89 ;; emit_byte (0xc0 ||| (xrd <<< 3) ||| 0) ;; emit_byte 0x5a ;; emit_byte 0x58)
  else mret (Some (-1)).

Definition sve_translate_dotp (g : sve_globals) (ctx : option SVEContext) (zd zn zm : Z) (buf : bool) : emitter (option Z) :=
  if sve_ready g && buf then
    let xzd := sve_z_to_xmm g ctx zd in
    let xzn := sve_z_to_xmm g ctx zn in
    let xzm := sve_z_to_xmm g ctx zm in
    by_length g ctx
      (emit_byte 0x62 ;; emit_byte 0xf1 ;; emit_byte 0x75 ;; emit_byte 0x30 ;; emit_byte 0x50 ;;
      emit_byte (0xc0 ||| ((xzd &&& 0x7) <<< 3) ||| (xzm &&& 0x7)))
      (emit_byte 0x50 ;; emit_byte 0x52 ;; emit_byte 0x66 ;; emit_byte 0x0f ;; emit_byte 0x38 ;;
      emit_byte 0xf4 ;; emit_byte (0xc0 ||| (xzd <<< 3) ||| xzn) ;;
      repeat_emit 3 (
          emit_byte 0x66 ;; emit_byte 0x0f ;; emit_byte 0xd4 ;;
          emit_byte (0xc0 ||| (xzd <<< 3) ||| xzd)) ;;
      emit_byte 0x5a ;; emit_byte 0x58)
  else mret (Some (-1)).

Definition sve_translate_usdot (g : sve_globals) (ctx : option SVEContext) (zd zn zm : Z) (buf : bool) : emitter (option Z) :=
  if sve_ready g && buf then
    let xzd := sve_z_to_xmm g ctx zd in
    let xzn := sve_z_to_xmm g ctx zn in
    let xzm := sve_z_to_xmm g ctx zm in
    by_length g ctx
      (emit_byte 0x62 ;; emit_byte 0xf1 ;; emit_byte 0x75 ;; emit_byte 0x30 ;; emit_byte 0x52 ;;
      emit_byte (0xc0 ||| ((xzd &&& 0x7) <<< 3) ||| (xzm &&& 0x7)))
      (emit_byte 0x50 ;; emit_byte 0x52 ;; emit_byte 0x66 ;; emit_byte 0x0f ;; emit_byte 0xf4 ;;
      emit_byte (0xc0 ||| (xzd <<< 3) ||| xzn) ;; emit_byte 0x66 ;; emit_byte 0x0f ;; emit_byte 0xf4 ;;
      emit_byte (0xc0 ||| (xzd <<< 3) ||| xzd) ;; emit_byte 0x5a ;; emit_byte 0x58)
  else mret (Some (-1)).

Definition sve_translate_sum (g : sve_globals) (ctx : option SVEContext) (rd zn : Z) (buf : bool) : emitter (option Z) :=
  if sve_ready g && buf then
    let xzn := sve_z_to_xmm g ctx zn in
    let xrd := rd &&& 0xf in
    by_length g ctx
      (emit_byte 0x50 ;; emit_byte 0x52 ;; emit_byte 0x66 ;; emit_byte 0x0f ;; emit_byte 0xef ;;
      emit_byte 0xc0 ;; emit_byte 0x66 ;; emit_byte 0x0f ;; emit_byte 0xf6 ;;
      emit_byte (0xc0 ||| (0 <<< 3) ||| xzn) ;; emit_byte 0x66 ;; emit_byte 0x0f ;; emit_byte 0x7e ;;
      emit_byte 0xc0 ;; emit_byte 0x48 ;; emit_byte 0x89 ;; emit_byte (0xc0 ||| (xrd <<< 3) ||| 0) ;;
      emit_byte 0x5a ;; emit_byte 0x58)
      (emit_byte 0x50 ;; emit_byte 0x52 ;; emit_byte 0x66 ;; emit_byte 0x0f ;; emit_byte 0xef ;;
      emit_byte 0xc9 ;; emit_byte 0x66 ;; emit_byte 0x0f ;; emit_byte 0xf6 ;;
      emit_byte (0xc9 ||| (xzn <<< 3)) ;; emit_byte 0x66 ;; emit_byte 0x0f ;; emit_byte 0x7e ;;
      emit_byte 0xc8 ;; emit_byte 0x48 ;; emit_byte 0x89 ;; emit_byte (0xc0 ||| (xrd <<< 3) ||| 0) ;;
      emit_byte 0x5a ;; emit_byte 0x58)
  else mret (Some (-1)).

Definition sve_translate_sm4e (g : sve_globals) (ctx : option SVEContext) (zd zn : Z) (buf : bool) : emitter Z :=
  if sve_ready g && buf then
    let xzd := sve_z_to_xmm g ctx zd in
    let xzn := sve_z_to_xmm g ctx zn in
    emit_byte 0x50 ;; emit_byte 0x53 ;; emit_byte 0x51 ;; emit_byte 0x52 ;; emit_byte 0x48 ;;
    emit_byte 0x89 ;; emit_byte (0xf8 ||| (xzn &&& 0x7)) ;; emit_byte 0x48 ;; emit_byte 0x89 ;;
    emit_byte (0xf0 ||| (xzd &&& 0x7)) ;; emit_byte 0xE8 ;;
    emit_imm32 0 ;;
    emit_byte 0x5a ;; emit_byte 0x59 ;; emit_byte 0x5b ;; emit_byte 0x58 ;;
    mret 0
  else mret (-1).

Definition sve_translate_sm4ekey (g : sve_globals) (ctx : option SVEContext) (zd zn zm : Z) (buf : bool) : emitter Z :=
  if sve_ready g && buf then
    let xzd := sve_z_to_xmm g ctx zd in
    let xzn := sve_z_to_xmm g ctx zn in
    let xzm := sve_z_to_xmm g ctx zm in
    emit_byte 0x50 ;; emit_byte 0x53 ;; emit_byte 0x51 ;; emit_byte 0x52 ;; emit_byte 0x48 ;;
    emit_byte 0x89 ;; emit_byte (0xf8 ||| (xzn &&& 0x7)) ;; emit_byte 0x48 ;; emit_byte 0x89 ;;
    emit_byte (0xf0 ||| (xzm &&& 0x7)) ;; emit_byte 0xE8 ;;
    emit_imm32 0 ;;
    emit_byte 0x48 ;; emit_byte 0x89 ;; emit_byte (0xc0 ||| (xzd <<< 3) ||| 0) ;; emit_byte 0x5a ;;
    emit_byte 0x59 ;; emit_byte 0x5b ;; emit_byte 0x58 ;;
    mret 0
  else mret (-1).

Definition sve_translate_sm3ss1 (g : sve_globals) (ctx : option SVEContext) (zd zn zm : Z) (buf : bool) : emitter Z :=
  if sve_ready g && buf then
    emit_byte 0x50 ;; emit_byte 0x53 ;;
    let xzd := sve_z_to_xmm g ctx zd in
    let xzn := sve_z_to_xmm g ctx zn in
    let xzm := sve_z_to_xmm g ctx zm in
    emit_byte 0x48 ;; emit_byte 0x89 ;; emit_byte (0xf8 ||| (xzn &&& 0x7)) ;; emit_byte 0x48 ;;
    emit_byte 0x89 ;; emit_byte (0xf0 ||| (xzm &&& 0x7)) ;; emit_byte 0xE8 ;;
    emit_imm32 0 ;;
    emit_byte 0x48 ;; emit_byte 0x89 ;; emit_byte (0xc0 ||| (xzd <<< 3) ||| 0) ;; emit_byte 0x5b ;;
    emit_byte 0x58 ;;
    mret 0
  else mret (-1).

Definition sve_translate_sm3partw1 (g : sve_globals) (ctx : option SVEContext) (zd zn zm : Z) (buf : bool) : emitter Z :=
  if sve_ready g && buf then
    let xzd := sve_z_to_xmm g ctx zd in
    let xzn := sve_z_to_xmm g ctx zn in
    let xzm := sve_z_to_xmm g ctx zm in
    emit_byte 0x50 ;; emit_byte 0x53 ;; emit_byte 0x48 ;; emit_byte 0x89 ;;
    emit_byte (0xf8 ||| (xzn &&& 0x7)) ;; emit_byte 0x48 ;; emit_byte 0x89 ;;
    emit_byte (0xf0 ||| (xzm &&& 0x7)) ;; emit_byte 0xE8 ;;
    emit_imm32 0 ;;
    emit_byte 0x48 ;; emit_byte 0x89 ;; emit_byte (0xc0 ||| (xzd <<< 3) ||| 0) ;; emit_byte 0x5b ;;
    emit_byte 0x58 ;;
    mret 0
  else mret (-1).

Definition sve_translate_sm3partw2 (g : sve_globals) (ctx : option SVEContext) (zd zn zm : Z) (buf : bool) : emitter Z :=
  if sve_ready g && buf then
    let xzd := sve_z_to_xmm g ctx zd in
    let xzn := sve_z_to_xmm g ctx zn in
    let xzm := sve_z_to_xmm g ctx zm in
    emit_byte 0x50 ;; emit_byte 0x53 ;; emit_byte 0x48 ;; emit_byte 0x89 ;;
    emit_byte (0xf8 ||| (xzn &&& 0x7)) ;; emit_byte 0x48 ;; emit_byte 0x89 ;;
    emit_byte (0xf0 ||| (xzm &&& 0x7)) ;; emit_byte 0xE8 ;;
    emit_imm32 0 ;;
    emit_byte 0x48 ;; emit_byte 0x89 ;; emit_byte (0xc0 ||| (xzd <<< 3) ||| 0) ;; emit_byte 0x5b ;;
    emit_byte 0x58 ;;
    mret 0
  else mret (-1).

Definition sve_translate_fadd (g : sve_globals) (ctx : option SVEContext) (zd zn zm : Z) (buf : bool) : emitter Z :=
  if sve_ready g && buf && is_ctx ctx then emit_sve_loop g ctx zd zn zm 0x58 0x58 else mret (-1).

Definition sve_translate_fsub (g : sve_globals) (ctx : option SVEContext) (zd zn zm : Z) (buf : bool) : emitter Z :=
  if sve_ready g && buf && is_ctx ctx then emit_sve_loop g ctx zd zn zm 0x5c 0x5c else mret (-1).

Definition sve_translate_fmul (g : sve_globals) (ctx : option SVEContext) (zd zn zm : Z) (buf : bool) : emitter Z :=
  if sve_ready g && buf && is_ctx ctx then emit_sve_loop g ctx zd zn zm 0x59 0x59 else mret (-1).

Definition sve_translate_fdiv (g : sve_globals) (ctx : option SVEContext) (zd zn zm : Z) (buf : bool) : emitter Z :=
  if sve_ready g && buf && is_ctx ctx then emit_sve_loop g ctx zd zn zm 0x5e 0x5e else mret (-1).
Definition sve_translate_fsqrt (g : sve_globals) (ctx : option SVEContext) (zd zn : Z) (buf : bool) : emitter Z :=
  with_ctx (sve_ready g && buf) ctx (fun c =>
    let xzd := sve_z_to_xmm g ctx zd in
    let xzn := sve_z_to_xmm g ctx zn in
    if uses_avx g c then
      if uses_zmm c then
        emit_byte 0x62 ;; emit_byte 0xf1 ;; emit_byte 0x75 ;; emit_byte 0x30 ;; emit_byte 0x51 ;;
        emit_byte (0xc0 ||| ((xzd &&& 7) <<< 3) ||| (xzn &&& 7)) ;; mret 0
      else
        emit_byte 0xc5 ;; emit_byte 0xfd ;; emit_byte 0x51 ;;
        emit_byte (0xc0 ||| ((xzd &&& 7) <<< 3) ||| (xzn &&& 7)) ;; mret 0
    else
      emit_byte 0x50 ;; emit_byte 0x52 ;;
      emit_byte 0x66 ;; emit_byte 0x0f ;; emit_byte 0x6f ;; emit_byte (0xc0 ||| (xzd <<< 3) ||| xzn) ;;
      emit_byte 0x66 ;; emit_byte 0x0f ;; emit_byte 0x51 ;; emit_byte (0xc0 ||| (xzd <<< 3) ||| xzd) ;;
      emit_byte 0x5a ;; emit_byte 0x58 ;; mret 0).

Definition sve_fallback_to_sse (buf : bool) : emitter Z :=
  if buf then repeat_emit 4 (emit_byte 0x90) ;; mret (-1) else mret (-1).

(** ** Predicates *)

(** [for (i = 0; i < words; i++) p[pd][i] = f(p, i)], on the file's own context. *)
Fixpoint predicate_loop (n : nat) (f : list (list Z) -> nat -> Z) (pd : nat) (i : nat)
    (ps : list (list Z)) : list (list Z) :=
  match n with
  | O => ps
  | S n => predicate_loop n f pd (S i) (alter (<[i := f ps i]>) pd ps)
  end.

Definition predicate_words (g : sve_globals) : nat :=
  let words := vl (g_sve_ctx g) / 16 in
  Z.to_nat (if words >? SVE_VL_MAX_BITS / 16 then SVE_VL_MAX_BITS / 16 else words).

Definition write_predicate (f : list (list Z) -> nat -> Z) (pd : Z) (g : sve_globals) : sve_globals :=
  set_globals (set_p (predicate_loop (predicate_words g) f (Z.to_nat pd) 0) (g_sve_ctx g))
    (g_sve_initialized g) (g_has_avx512 g) g.

Definition sve_translate_ptrue (ctx : option SVEContext) (pd pat : Z) (g : sve_globals) : Z * sve_globals :=
  if negb (sve_ready g) then (-1, g)
  else (0, write_predicate (fun _ _ => 0xFFFF) pd g).

Definition sve_translate_pnot (ctx : option SVEContext) (pd pg pm : Z) (g : sve_globals) : Z * sve_globals :=
  if negb (sve_ready g) then (-1, g)
  else (0, write_predicate (fun ps i => u16 (Z.lnot (nth i (nth (Z.to_nat pm) ps []) 0))) pd g).

(** ** The context keeps its type *)

Inductive sve_op :=
| Init (bits : Z) | SetLength (bits : Z) | SetStrategy (s : SVEMapStrategy) | Destroy
| Detect | Ptrue (pd pat : Z) | Pnot (pd pg pm : Z).

Definition sve_step (cpuid : Z) (st : option SVEContext * sve_globals) (op : sve_op)
    : option SVEContext * sve_globals :=
  let '(ctx, g) := st in
  match op with
  | Init bits => let '(_, ctx, g) := sve_init_context cpuid ctx bits g in (ctx, g)
  | SetLength bits => ((sve_set_vector_length ctx bits g).2, g)
  | SetStrategy s => ((sve_set_map_strategy ctx s g).2, g)
  | Destroy => sve_destroy_context ctx g
  | Detect => (ctx, (sve_detect_support cpuid g).2)
  | Ptrue pd pat => (ctx, (sve_translate_ptrue ctx pd pat g).2)
  | Pnot pd pg pm => (ctx, (sve_translate_pnot ctx pd pg pm g).2)
  end.
Definition sve_run (cpuid : Z) (ops : list sve_op) (st : option SVEContext * sve_globals)
    : option SVEContext * sve_globals := fold_left (sve_step cpuid) ops st.

(** The lengths of the arrays, the length in its range with the fields computed from it
    (or a context that was cleared), and no strategy the processor lacks. *)
Record context_typed (g : sve_globals) (c : SVEContext) : Prop := {
  typed_z : z c = z zero_context;
  typed_p : p c = p zero_context;
  typed_length : (vl c = 0 /\ vg c = 0 /\ active_zregs c = 0) \/
    (SVE_VL_MIN_BITS <= vl c <= SVE_VL_MAX_BITS /\ vg c = vl c / 64 /\
     (active_zregs c = 16 \/ active_zregs c = 32));
  typed_strategy : map_strategy c = SVE_MAP_ZMM \/ map_strategy c = SVE_MAP_YMM ->
    g_has_avx512 g <> 0 }.

(** The globals on a processor that reports [cpuid]. *)
Record globals_typed (cpuid : Z) (g : sve_globals) : Prop := {
  typed_own : g_sve_ctx g = zero_context;
  typed_default : g_default_strategy g = SVE_MAP_AUTO;
  typed_avx : g_has_avx512 g = 0 \/ g_has_avx512 g = cpuid }.

Lemma clamp_length_range n : SVE_VL_MIN_BITS <= clamp_length n <= SVE_VL_MAX_BITS.
Proof.
  unfold clamp_length, SVE_VL_MIN_BITS, SVE_VL_MAX_BITS.
  destruct (Z.ltb_spec n 128); cbn; [done|]. destruct (Z.gtb_spec n 2048); lia.
Qed.

Lemma clamp_length_id n : SVE_VL_MIN_BITS <= n <= SVE_VL_MAX_BITS -> clamp_length n = n.
Proof.
  unfold clamp_length, SVE_VL_MIN_BITS, SVE_VL_MAX_BITS. intros Hn.
  destruct (Z.ltb_spec n 128); [lia|]. destruct (Z.gtb_spec n 2048); lia.
Qed.

Lemma write_predicate_empty f pd g : vl (g_sve_ctx g) = 0 -> write_predicate f pd g = g.
Proof.
  intros Hv. unfold write_predicate, predicate_words. rewrite Hv. cbn [predicate_loop Z.to_nat].
  destruct g as [c i a d]. unfold set_globals, set_p. cbn. by destruct c.
Qed.

Lemma init_typed cpuid ctx bits g ctx' g' r :
  globals_typed cpuid g -> sve_init_context cpuid ctx bits g = (r, ctx', g') ->
  globals_typed cpuid g' /\ (ctx = None /\ ctx' = None \/ exists c, ctx' = Some c /\ context_typed g' c).
Proof.
  intros [Ho Hd Ha]. unfold sve_init_context. destruct ctx as [c|]; cbn; intros [= <- <- <-].
  - split; [by split; cbn; auto|]. right. eexists. split; [done|].
    split; cbn; [done..| |].
    + right. pose proof (clamp_length_range bits). auto.
    + rewrite Hd. by intros [?|?].
  - split; [by split|]. by left.
Qed.

Lemma set_length_typed ctx bits g c :
  ctx = Some c -> context_typed g c ->
  exists c', (sve_set_vector_length ctx bits g).2 = Some c' /\ context_typed g c'.
Proof.
  intros -> [Hz Hp Hl Hs]. cbn. destruct (vl c =? clamp_length bits); [by exists c|].
  eexists. split; [done|]. split; cbn; [done..| |].
  - right. split; [apply clamp_length_range|]. split; [done|]. repeat case_match; auto.
  - unfold c_true. destruct (Z.eqb_spec (g_has_avx512 g) 0); cbn; [by intros [?|?]|done].
Qed.

Lemma set_strategy_typed ctx s g c :
  ctx = Some c -> context_typed g c ->
  exists c', (sve_set_map_strategy ctx s g).2 = Some c' /\ context_typed g c'.
Proof.
  intros -> [Hz Hp Hl Hs]. cbn. eexists. split; [done|]. split; cbn; [done..|].
  unfold c_true. destruct (Z.eqb_spec (g_has_avx512 g) 0); cbn; [|done].
  destruct s; cbn; by intros [?|?].
Qed.

Lemma typed_avx_change g g' c :
  (g_has_avx512 g <> 0 -> g_has_avx512 g' <> 0) -> context_typed g c -> context_typed g' c.
Proof. intros Hg [? ? ? Hs]. split; auto. Qed.

Lemma zero_typed g : context_typed g zero_context.
Proof. split; [done..|by left|by intros [?|?]]. Qed.

Lemma step_typed cpuid c g op :
  globals_typed cpuid g -> context_typed g c ->
  exists c' g', sve_step cpuid (Some c, g) op = (Some c', g') /\
    globals_typed cpuid g' /\ context_typed g' c'.
Proof.
  intros Hg Hc. pose proof Hg as [Ho Hd Ha].
  assert (Hw : forall f pd, write_predicate f pd g = g).
  { intros. apply write_predicate_empty. by rewrite Ho. }
  destruct op as [bits|bits|s| | |pd pat|pd pg pm]; cbn [sve_step].
  - destruct (sve_init_context cpuid (Some c) bits g) as [[r ctx] g'] eqn:E.
    apply init_typed in E as [Hg' [[? _]|(c' & -> & Hc')]]; eauto; done.
  - destruct (set_length_typed _ bits g c eq_refl Hc) as (c' & -> & Hc'). eauto.
  - destruct (set_strategy_typed _ s g c eq_refl Hc) as (c' & -> & Hc'). eauto.
  - do 2 eexists. split; [done|]. split; [by split|]. apply zero_typed.
  - do 2 eexists. split; [done|]. split; [split; cbn; auto|].
    eapply typed_avx_change; [|done]. cbn. destruct Ha as [Ha|Ha]; rewrite Ha; congruence.
  - unfold sve_translate_ptrue. rewrite Hw. destruct (negb (sve_ready g)); eauto.
  - unfold sve_translate_pnot. rewrite Hw. destruct (negb (sve_ready g)); eauto.
Qed.

Lemma run_typed cpuid ops c g :
  globals_typed cpuid g -> context_typed g c ->
  exists c' g', sve_run cpuid ops (Some c, g) = (Some c', g') /\
    globals_typed cpuid g' /\ context_typed g' c'.
Proof.
  revert c g. induction ops as [|op ops IH]; intros c g Hg Hc; [by exists c, g|].
  change (sve_run cpuid (op :: ops) (Some c, g)) with (sve_run cpuid ops (sve_step cpuid (Some c, g) op)).
  destruct (step_typed cpuid c g op Hg Hc) as (c' & g' & -> & Hg' & Hc'). by apply IH.
Qed.

Lemma initial_typed cpuid : globals_typed cpuid initial_globals.
Proof. split; cbn; auto. Qed.

(** C6: The type of the SVE state.  From the initialisation of a context with whatever was in
    its memory, any sequence of the file's operations leaves a context of its type: arrays
    of their lengths, a vector length of 128 to 2048 bits with the granule computed from it
    and 16 or 32 active registers (or all three zero after it was destroyed), and a
    strategy for 256- or 512-bit registers only on a processor that has AVX-512.  A
    context that is set to a length in the range has just this length, and its loop makes
    one step per 128 bits: the limits of one and sixteen are never what decides. *)
Theorem sve_context_typed cpuid c0 bits ops n :
  let '(ctx, g) := sve_run cpuid (Init bits :: ops) (Some c0, initial_globals) in
  exists c, ctx = Some c /\ context_typed g c /\ globals_typed cpuid g /\
    (vl c <> 0 -> sve_iterations c = vl c / 128) /\
    (SVE_VL_MIN_BITS <= n <= SVE_VL_MAX_BITS ->
     exists c', sve_set_vector_length ctx n g = (0, Some c') /\ vl c' = n /\ context_typed g c').
Proof.
  destruct (run_typed cpuid ops (set_length (clamp_length bits) 32 false SVE_MAP_AUTO zero_context)
    (set_globals zero_context 1 cpuid initial_globals)) as (c & g & Hr & Hg & Hc).
  { split; cbn; auto. }
  { split; cbn; [done..| |by intros [?|?]]. right. pose proof (clamp_length_range bits). auto. }
  change (sve_run cpuid (Init bits :: ops) (Some c0, initial_globals))
    with (sve_run cpuid ops (Some (set_length (clamp_length bits) 32 false SVE_MAP_AUTO zero_context),
            set_globals zero_context 1 cpuid initial_globals)).
  rewrite Hr. exists c. split_and!; [done..| |].
  - intros Hv. destruct (typed_length _ _ Hc) as [[? _]|[Hv' _]]; [done|].
    unfold sve_iterations, SVE_VL_MIN_BITS, SVE_VL_MAX_BITS in *.
    assert (1 <= vl c / 128 <= 16) by (split; [apply Z.div_le_lower_bound; lia|
      apply Z.lt_succ_r, Z.div_lt_upper_bound; lia]).
    destruct (Z.eqb_spec (vl c / 128) 0); [lia|]. destruct (Z.gtb_spec (vl c / 128) 16); lia.
  - intros Hn. destruct (set_length_typed _ n g c eq_refl Hc) as (c' & Hs & Hc').
    exists c'. split_and!; [|idtac|done].
    + revert Hs. cbn. by destruct (vl c =? clamp_length n); intros [= <-].
    + revert Hs. cbn. rewrite clamp_length_id by done.
      destruct (Z.eqb_spec (vl c) n); by intros [= <-].
Qed.

(** Predicates are never written.  PTRUE and PNOT work on a context of the file's own that
    nothing ever initialises: whatever ran before, they change nothing at all, whichever
    context they are given, and report success as soon as any context was initialised. *)
Theorem sve_predicates_inert cpuid c0 bits ops ctx pd pat pg pm :
  let g := (sve_run cpuid (Init bits :: ops) (Some c0, initial_globals)).2 in
  let result := if sve_ready g then 0 else -1 in
  sve_translate_ptrue ctx pd pat g = (result, g) /\ sve_translate_pnot ctx pd pg pm g = (result, g) /\
  (ops = [] -> result = 0).
Proof.
  destruct (run_typed cpuid (Init bits :: ops) zero_context initial_globals
    (initial_typed cpuid) (zero_typed _)) as (c & g & Hr & Hg & Hc).
  change (sve_run cpuid (Init bits :: ops) (Some c0, initial_globals))
    with (sve_run cpuid (Init bits :: ops) (Some zero_context, initial_globals)).
  rewrite Hr. cbn zeta. cbn [snd].
  assert (Hw : forall f pd, write_predicate f pd g = g).
  { intros. apply write_predicate_empty. by rewrite (typed_own _ _ Hg). }
  unfold sve_translate_ptrue, sve_translate_pnot. rewrite !Hw.
  split_and!; [by destruct (sve_ready g)..|]. intros ->.
  revert Hr. cbn. by intros [= <- <-].
Qed.

(** ** The loop *)

(** The instructions translated through [emit_sve_loop], with the two opcodes each hands on. *)
Definition loop_family :
    list ((sve_globals -> option SVEContext -> Z -> Z -> Z -> bool -> emitter Z) * Z * Z) :=
  [ (sve_translate_add, 0xfc, 0xfc); (sve_translate_sub, 0xf8, 0xf8);
    (sve_translate_mul, 0x28, 0x40); (sve_translate_and, 0xdb, 0xdb);
    (sve_translate_orr, 0xeb, 0xeb); (sve_translate_eor, 0xef, 0xef);
    (sve_translate_fadd, 0x58, 0x58); (sve_translate_fsub, 0x5c, 0x5c);
    (sve_translate_fmul, 0x59, 0x59); (sve_translate_fdiv, 0x5e, 0x5e) ].

Lemma z_to_xmm_mod g ctx zr : sve_z_to_xmm g ctx zr = zr mod 16.
Proof.
  destruct ctx as [c|]; [|done]. cbn. destruct (map_strategy c); [|done..].
  by repeat case_match.
Qed.

(** The bytes before the body of a loop of [n] steps, and the ones after it: the body is
    [len] bytes long, counted up to the opcode of LOOP. *)
Definition loop_head (n : Z) : list Z := 0xb9 :: le_bytes 4 n ++ [0x48; 0x31; 0xd2].
Definition loop_tail (len : Z) : list Z := [0x48; 0xff; 0xc2; 0xe2; u8 (- (len + 4))].

Lemma emit_imm32_eq v b : emit_imm32 v b = (tt, b ++ le_bytes 4 v).
Proof.
  pose proof (appends_imm32 v b) as H. rewrite code_imm32 in H.
  destruct (emit_imm32 v b) as [[] c]. cbn in H. by subst.
Qed.

(** An emitter run on a buffer, byte by byte. *)
Ltac run_emitter :=
  unfold emit_byte, mbind, emitter_bind, mret, emitter_ret, here; cbn -[u8 Z.of_nat app length];
  rewrite ?emit_imm32_eq; cbn -[u8 Z.of_nat app length].

(** The displacement of the backward jump, from the lengths of the buffers. *)
Ltac loop_displacement :=
  rewrite ?u8_land_255, ?length_app;
  match goal with
  | |- context [u8 (- (?x - ?y))] => let n := constr:(x - y) in
      first [ replace (- (x - y)) with (-9) by (cbn; lia)
            | replace (- (x - y)) with (-10) by (cbn; lia) ]
  end.

Lemma avx_for_zmm g c : uses_avx g c = false -> c_true (g_has_avx512 g) && uses_zmm c = false.
Proof.
  unfold uses_avx, uses_zmm. destruct (c_true (g_has_avx512 g)); [|done]. cbn.
  destruct (Z.geb_spec (vl c) 256), (Z.geb_spec (vl c) 512); try lia; try done;
    by destruct (map_strategy c).
Qed.

Lemma emit_sve_loop_sse g c zd zn zm sse avx b : uses_avx g c = false ->
  emit_sve_loop g (Some c) zd zn zm sse avx b =
  (0, b ++ [0x51; 0x52] ++ loop_head (sve_iterations c) ++
      [0x66; 0x0f; 0x0f; u8 sse; u8 (0xc0 ||| ((zd mod 16) <<< 3) ||| zm mod 16)] ++
      loop_tail 5 ++ [0x5a; 0x59]).
Proof.
  intros Ha. unfold emit_sve_loop, with_ctx, sve_get_vex_prefix.
  rewrite (avx_for_zmm _ _ Ha), Ha, !z_to_xmm_mod.
  run_emitter. rewrite <- !app_assoc. loop_displacement.
  unfold loop_head. cbn [app]. rewrite <- !app_assoc. done.
Qed.

Lemma emit_sve_loop_avx g c zd zn zm sse avx b : uses_avx g c = true ->
  emit_sve_loop g (Some c) zd zn zm sse avx b =
  (0, b ++ (if uses_zmm c then [0x62; 0xf1; 0x75; 0x30] else [0xc5; 0xfd]) ++
      [u8 avx; u8 (0xc0 ||| ((zd mod 16 &&& 7) <<< 3) ||| (zm mod 16 &&& 7))]).
Proof.
  intros Ha. unfold emit_sve_loop, with_ctx. rewrite Ha, !z_to_xmm_mod.
  destruct (sve_get_vex_prefix g c) as [[p1 p2] w].
  destruct (uses_zmm c); run_emitter; by rewrite <- !app_assoc.
Qed.

(** The register operands the emitters' ModR/M bytes select. *)
Lemma or_modrm zd zm : let m := u8 (0xc0 ||| ((zd mod 16) <<< 3) ||| zm mod 16) in
  m / 64 = 3 /\ (m / 8) mod 8 = (zd mod 8) ||| (zm / 8) mod 2 /\ m mod 8 = zm mod 8.
Proof.
  cbn zeta.
  assert (Hx : forall v, v mod 8 = (v mod 16) mod 8) by (intros; symmetry; apply Z.mod_mod_divide; by exists 2).
  assert (He : (zm / 8) mod 2 = (zm mod 16) / 8).
  { change 16 with (8 * 2). rewrite Z.rem_mul_r by lia. rewrite Z.mul_comm, Z.div_add by lia.
    rewrite (Z.div_small (zm mod 8)) by (apply Z.mod_pos_bound; lia). lia. }
  rewrite He, (Hx zd), (Hx zm). clear He Hx.
  pose proof (Z.mod_pos_bound zd 16 ltac:(lia)) as Hd. pose proof (Z.mod_pos_bound zm 16 ltac:(lia)) as Hm.
  revert Hd Hm. generalize (zd mod 16) as d, (zm mod 16) as m. intros d m Hd Hm.
  each_of_16 Hd; each_of_16 Hm; by vm_compute.
Qed.

Lemma loop_family_spec f sse avx : In (f, sse, avx) loop_family ->
  0 <= sse < 256 /\ 0 <= avx < 256 /\
  forall g c zd zn zm, sve_ready g = true ->
    f g (Some c) zd zn zm true = emit_sve_loop g (Some c) zd zn zm sse avx.
Proof.
  intros H. cbn in H. destruct_or! H; try done; injection H as <- <- <-;
    (split; [lia|]; split; [lia|]; intros * Hr;
     unfold sve_translate_add, sve_translate_sub, sve_translate_mul, sve_translate_and,
       sve_translate_orr, sve_translate_eor, sve_translate_fadd, sve_translate_fsub,
       sve_translate_fmul, sve_translate_fdiv; by rewrite Hr).
Qed.

(** The loop of the vector arithmetic.  Without 256-bit registers, ADD, SUB, MUL, AND, ORR,
    EOR and the floating-point operations emit a counted loop of one step per 128 bits
    around five bytes which are no instruction: prefix, escape and a second escape, where
    the opcode should be.  The jump leads to the second byte of the loop.  The bytes do not
    depend on Zn, the registers are taken modulo 8, and bit 3 of Zm gets into the
    destination.  With 256- and 512-bit registers the code is one instruction, which does
    not depend on Zn either. *)
Theorem sve_loop_code f sse avx g c zd zn zm b :
  In (f, sse, avx) loop_family -> sve_ready g = true ->
  let m := u8 (0xc0 ||| ((zd mod 16) <<< 3) ||| zm mod 16) in
  let m' := u8 (0xc0 ||| ((zd mod 16 &&& 7) <<< 3) ||| (zm mod 16 &&& 7)) in
  (uses_avx g c = false ->
   f g (Some c) zd zn zm true b =
     (0, b ++ [0x51; 0x52] ++ loop_head (sve_iterations c) ++
         [0x66; 0x0f; 0x0f; sse; m] ++ loop_tail 5 ++ [0x5a; 0x59]) /\
   (forall rest, decode ([0x66; 0x0f; 0x0f; sse; m] ++ rest) = None) /\
   Z.of_nat (length ([0x66; 0x0f; 0x0f; sse; m] ++ loop_tail 5)) + s8 (List.last (loop_tail 5) 0) = 1 /\
   (m / 8) mod 8 = (zd mod 8) ||| (zm / 8) mod 2 /\ m mod 8 = zm mod 8) /\
  (uses_avx g c = true ->
   f g (Some c) zd zn zm true b =
     (0, b ++ (if uses_zmm c then [0x62; 0xf1; 0x75; 0x30] else [0xc5; 0xfd]) ++ [avx; m'])).
Proof.
  intros Hf Hr. destruct (loop_family_spec _ _ _ Hf) as (Hs & Ha & He). cbn zeta. split; intros Hu.
  - rewrite He, emit_sve_loop_sse, (u8_small sse) by done.
    destruct (or_modrm zd zm) as (_ & Hm1 & Hm2). split_and!; try done.
  - by rewrite He, emit_sve_loop_avx, (u8_small avx) by done.
Qed.

Definition demo_context : SVEContext := set_length 256 32 false SVE_MAP_XMM zero_context.
Definition demo_globals : sve_globals := set_globals zero_context 1 0 initial_globals.

Lemma sve_loop_code_witness :
  (sve_translate_eor demo_globals (Some demo_context) 9 1 2 true []).2 =
    [0x51; 0x52; 0xb9; 2; 0; 0; 0; 0x48; 0x31; 0xd2; 0x66; 0x0f; 0x0f; 0xef; 0xca;
     0x48; 0xff; 0xc2; 0xe2; 0xf7; 0x5a; 0x59].
Proof.
  assert (Hin : In (sve_translate_eor, 0xef, 0xef) loop_family) by (cbn; tauto).
  destruct (sve_loop_code _ _ _ demo_globals demo_context 9 1 2 [] Hin eq_refl) as [H _].
  destruct (H eq_refl) as [-> _]. vm_compute. reflexivity.
Defined.

(** ** Loads and stores *)

(** LD1 and ST1, with the opcode of their access. *)
Definition access_family : list ((sve_globals -> option SVEContext -> Z -> Z -> bool -> emitter Z) * Z) :=
  [(sve_translate_ld1, 0x10); (sve_translate_st1, 0x11)].

Definition access_bytes (op zt rn : Z) : list Z :=
  [0x66; 0x0f; op; u8 ((zt mod 16 &&& 7) <<< 3 ||| 4); u8 (0x40 ||| ((rn &&& 0xf &&& 7) <<< 3) ||| 2)].

Lemma access_code f op g c zt rn b : In (f, op) access_family -> sve_ready g = true ->
  f g (Some c) zt rn true b =
  (0, b ++ [0x51; 0x52; 0x50] ++ loop_head (sve_iterations c) ++ access_bytes op zt rn ++
      loop_tail 5 ++ [0x58; 0x5a; 0x59]).
Proof.
  intros Hin Hr. cbn in Hin.
  destruct_or! Hin; try done; injection Hin as <- <-;
    unfold sve_translate_ld1, sve_translate_st1, with_ctx; rewrite Hr, z_to_xmm_mod; cbn [andb];
    run_emitter; rewrite <- !app_assoc; loop_displacement;
    unfold loop_head, access_bytes; cbn [app]; rewrite <- !app_assoc; done.
Qed.

Lemma access_decodes op zt rn rest : op = 0x10 \/ op = 0x11 ->
  decode (access_bytes op zt rn ++ rest) =
  Some (Sse 0x66 op W32 (zt mod 8)
          (Mem (Some 2) (if rn mod 8 =? 4 then None else Some (rn mod 8, 2)) 0), rest) /\
  decode (tl (access_bytes op zt rn) ++ rest) =
  Some (Sse 0 op W32 (zt mod 8)
          (Mem (Some 2) (if rn mod 8 =? 4 then None else Some (rn mod 8, 2)) 0), rest).
Proof.
  intros Hop. unfold access_bytes. rewrite !land_7, land_15.
  rewrite !Z.mod_mod_divide by (by exists 2). change (2 ^ 3) with 8.
  pose proof (Z.mod_pos_bound zt 8 ltac:(lia)) as Ht. pose proof (Z.mod_pos_bound rn 8 ltac:(lia)) as Hn.
  revert Ht Hn. generalize (zt mod 8) as t, (rn mod 8) as n. intros t n Ht Hn.
  destruct Hop as [-> | ->]; each_of_8 Ht; each_of_8 Hn; split; reflexivity.
Qed.

(** The addresses of LD1 and ST1.  Their loop repeats a 16-byte access, but the base and the
    index of the address are exchanged: with the step counter i in RDX and the guest's
    base address in its register, step i accesses i + 2 * base instead of base + 16 * i
    (just i where the register is number 4 modulo 8); the base register is taken modulo 8.
    The backward jump skips the prefix of the access, which makes no difference to it. *)
Theorem sve_access_address f op g c zt rn b st :
  In (f, op) access_family -> sve_ready g = true ->
  exists body, f g (Some c) zt rn true b =
    (0, b ++ [0x51; 0x52; 0x50] ++ loop_head (sve_iterations c) ++ body ++ loop_tail 5 ++ [0x58; 0x5a; 0x59]) /\
  exists index, (forall rest,
    decode (body ++ rest) = Some (Sse 0x66 op W32 (zt mod 8) (Mem (Some 2) index 0), rest) /\
    decode (tl body ++ rest) = Some (Sse 0 op W32 (zt mod 8) (Mem (Some 2) index 0), rest)) /\
    Z.of_nat (length (body ++ loop_tail 5)) + s8 (List.last (loop_tail 5) 0) = 1 /\
    eff_addr st (Some 2) index 0 =
      u64 (regs st 2 + (if rn mod 8 =? 4 then 0 else 2 * regs st (rn mod 8))).
Proof.
  intros Hin Hr. exists (access_bytes op zt rn). split; [by apply access_code|].
  exists (if rn mod 8 =? 4 then None else Some (rn mod 8, 2)). split_and!.
  - intros rest. apply access_decodes. cbn in Hin. destruct_or! Hin; try done; injection Hin; auto.
  - done.
  - unfold eff_addr. destruct (rn mod 8 =? 4); f_equal; lia.
Qed.

Lemma sve_access_address_witness :
  (sve_translate_ld1 demo_globals (Some demo_context) 1 6 true []).1 = 0.
Proof.
  assert (Hin : In (sve_translate_ld1, 0x10) access_family) by (cbn; tauto).
  destruct (sve_access_address _ _ demo_globals demo_context 1 6 []
    {| regs := fun _ => 0; memory := fun _ => 0 |} Hin eq_refl) as (body & -> & _).
  reflexivity.
Defined.

(** ** Reductions and calls: general registers, stack and vector registers *)

Record vmachine := { gpr : Z -> Z; stack : list Z; xmm : Z -> Z }.

Section Vector.
(** The effect of a vector instruction on the vector registers, whatever it is: prefix,
    opcode, destination, source. *)
Context (vector_op : Z -> Z -> Z -> Z -> (Z -> Z) -> (Z -> Z)).

(** Moves, pushes and pops of registers other than RSP, the move from a vector register,
    and a call to the instruction behind it. *)
Definition vexec (next : Z) (i : insn) (st : vmachine) : option vmachine :=
  match i with
  | PushR r => Some {| gpr := gpr st; stack := gpr st r :: stack st; xmm := xmm st |}
  | PopR r =>
      if r =? 4 then None else
      match stack st with
      | [] => None
      | v :: s => Some {| gpr := upd (gpr st) r v; stack := s; xmm := xmm st |}
      end
  | MovRmR W64 (Reg d) s =>
      if d =? 4 then None
      else Some {| gpr := upd (gpr st) d (u64 (gpr st s)); stack := stack st; xmm := xmm st |}
  | Sse pre op w x (Reg r) =>
      if op =? 0x7e then
        if r =? 4 then None
        else Some {| gpr := upd (gpr st) r (trunc w (xmm st x)); stack := stack st; xmm := xmm st |}
      else Some {| gpr := gpr st; stack := stack st; xmm := vector_op pre op x r (xmm st) |}
  | CallRel 0 => Some {| gpr := gpr st; stack := next :: stack st; xmm := xmm st |}
  | _ => None
  end.

Fixpoint vexec_all (next : Z) (il : list insn) (st : vmachine) : option vmachine :=
  match il with
  | [] => Some st
  | i :: il => st ← vexec next i st; vexec_all next il st
  end.

Definition vrun (next : Z) (bs : list Z) (st : vmachine) : option vmachine :=
  il ← disassemble bs; vexec_all next il st.

(** The reductions of a vector to a general register. *)
Definition reduction_family :
    list (sve_globals -> option SVEContext -> Z -> Z -> bool -> emitter (option Z)) :=
  [sve_translate_addv; sve_translate_maxv; sve_translate_minv; sve_translate_sum].

(** The instructions of a reduction between its pushes and pops: vector instructions, the
    move of XMM1 to RAX, and a move of register [rd] into RAX. *)
Definition keeps_general (rd : Z) (il : list insn) : Prop :=
  exists vs, il = PushR 0 :: PushR 2 :: vs ++
    [Sse 0x66 0x7e W32 1 (Reg 0); MovRmR W64 (Reg 0) rd; PopR 2; PopR 0] /\
  Forall (fun i => exists pre op w x r, i = Sse pre op w x (Reg r) /\ op <> 0x7e) vs.

Lemma vector_prefix next vs rest st :
  Forall (fun i => exists pre op w x r, i = Sse pre op w x (Reg r) /\ op <> 0x7e) vs ->
  exists x, vexec_all next (vs ++ rest) st =
            vexec_all next rest {| gpr := gpr st; stack := stack st; xmm := x |}.
Proof.
  intros H. revert st. induction H as [|i vs (pre & op & w & x & r & -> & Hop) _ IH]; intros st.
  { exists (xmm st). by destruct st. }
  cbn. rewrite (proj2 (Z.eqb_neq _ _) Hop). cbn.
  destruct (IH {| gpr := gpr st; stack := stack st; xmm := vector_op pre op x r (xmm st) |}) as [y Hy].
  exists y. by rewrite Hy.
Qed.

Lemma keeps_general_run next rd il st : keeps_general rd il ->
  exists st', vexec_all next il st = Some st' /\
    (forall r, gpr st' r = gpr st r) /\ stack st' = stack st.
Proof.
  intros (vs & -> & Hv). cbn.
  destruct (vector_prefix next vs [Sse 0x66 0x7e W32 1 (Reg 0); MovRmR W64 (Reg 0) rd; PopR 2; PopR 0]
    {| gpr := gpr st; stack := gpr st 2 :: gpr st 0 :: stack st; xmm := xmm st |} Hv) as [x ->].
  eexists. split; [reflexivity|]. split; [|done]. intros r. cbn. unfold upd.
  destruct (Z.eqb_spec r 0); [by subst|]. destruct (Z.eqb_spec r 2); by subst.
Qed.

(** The emitters take the SSE path: no AVX-512, or a length above 512 bits. *)
Definition sse_path (g : sve_globals) (ctx : option SVEContext) : Prop :=
  c_true (g_has_avx512 g) = false \/ exists c, ctx = Some c /\ 512 < vl c.

Lemma by_length_sse g ctx avx sse : sse_path g ctx -> by_length g ctx avx sse = (sse ;; mret (Some 0)).
Proof.
  unfold by_length. intros [-> | (c & -> & Hc)]; [done|].
  destruct (c_true (g_has_avx512 g)); [|done]. by destruct (Z.leb_spec (vl c) 512); [lia|].
Qed.

Lemma by_length_null g avx sse b : c_true (g_has_avx512 g) = true -> by_length g None avx sse b = (None, b).
Proof. intros H. unfold by_length. by rewrite H. Qed.

(** Of the four bits of a register number only three matter in these ModR/M bytes. *)
Lemma modrm_mod8 n : 0 <= n < 16 ->
  u8 (0xc8 ||| n) = u8 (0xc8 ||| n mod 8) /\ u8 (0xc9 ||| (n <<< 3)) = u8 (0xc9 ||| ((n mod 8) <<< 3)) /\
  u8 (0xc0 ||| (n <<< 3) ||| 0) = u8 (0xc0 ||| ((n mod 8) <<< 3) ||| 0).
Proof. intros Hn. each_of_16 Hn; by vm_compute. Qed.

(** [keeps_general] of a list with [n] vector instructions. *)
Ltac exists_vector n :=
  lazymatch n with
  | 5%nat => eexists [_; _; _; _; _]
  | _ => eexists [_; _]
  end;
  split; [reflexivity|]; repeat constructor; do 5 eexists; done.

Lemma reduction_disassembles f g ctx rd zn b :
  In f reduction_family -> sve_ready g = true -> sse_path g ctx ->
  exists bs, f g ctx rd zn true b = (Some 0, b ++ bs) /\
    exists il, disassemble bs = Some il /\ keeps_general (rd mod 8) il.
Proof.
  intros Hin Hr Hp. assert (Hd : rd mod 8 = (rd &&& 0xf) mod 8).
  { rewrite land_15. symmetry. apply Z.mod_mod_divide. by exists 2. }
  assert (Hd16 : 0 <= rd &&& 0xf < 16) by (rewrite land_15; apply Z.mod_pos_bound; lia).
  pose proof (Z.mod_pos_bound zn 16 ltac:(lia)) as Hn.
  rewrite Hd. clear Hd. cbn in Hin.
  destruct_or! Hin; try done; subst f;
    unfold sve_translate_addv, sve_translate_maxv, sve_translate_minv, sve_translate_sum;
    rewrite Hr, (by_length_sse _ _ _ _ Hp), z_to_xmm_mod; cbn [andb repeat_emit];
    revert Hd16 Hn; generalize (rd &&& 0xf) as d, (zn mod 16) as n; intros d n Hd Hn.
  all: eexists; split; [run_emitter; rewrite <- !app_assoc; reflexivity|]; cbn [app].
  all: destruct (modrm_mod8 n Hn) as (En & En' & _), (modrm_mod8 d Hd) as (_ & _ & Ed).
  all: rewrite Ed, ?En, ?En'; clear Ed En En'.
  all: pose proof (Z.mod_pos_bound n 8 ltac:(lia)) as Hn8; pose proof (Z.mod_pos_bound d 8 ltac:(lia)) as Hd8.
  all: revert Hn8 Hd8; generalize (n mod 8) as n8, (d mod 8) as d8; intros n8 d8 Hn8 Hd8.
  all: each_of_8 Hd8; each_of_8 Hn8; (eexists; split; [vm_compute; reflexivity|]);
    (first [exists_vector 5%nat | exists_vector 2%nat]).
Qed.

(** Reductions return nothing.  On the path without AVX-512, the code of ADDV, MAXV, MINV and
    SUM leaves every general register and the stack as they were, whatever the vector
    instructions compute: the result is moved to RAX, then the destination register is
    moved to RAX instead of the other way round, and RAX is restored.  On the other path
    a null context is dereferenced. *)
Theorem sve_reductions_no_result f g ctx rd zn b st next :
  In f reduction_family -> sve_ready g = true ->
  (sse_path g ctx -> exists bs st', f g ctx rd zn true b = (Some 0, b ++ bs) /\
     vrun next bs st = Some st' /\ (forall r, gpr st' r = gpr st r) /\ stack st' = stack st) /\
  (c_true (g_has_avx512 g) = true -> f g None rd zn true b = (None, b)).
Proof.
  intros Hin Hr. split; [intros Hp|intros Ha].
  - destruct (reduction_disassembles f g ctx rd zn b Hin Hr Hp) as (bs & Hf & il & Hd & Hk).
    destruct (keeps_general_run next _ il st Hk) as (st' & Hrun & Hg & Hs).
    exists bs, st'. split_and!; [done| |done..]. unfold vrun. by rewrite Hd.
  - cbn in Hin. destruct_or! Hin; try done; subst f;
      unfold sve_translate_addv, sve_translate_maxv, sve_translate_minv, sve_translate_sum;
      rewrite Hr; cbn [andb]; by apply by_length_null.
Qed.

(** A move of register [reg] to register [r], both modulo 8. *)
Definition move_bytes (reg r : Z) : list Z := [0x48; 0x89; u8 (0xc0 ||| (reg <<< 3) ||| r mod 8)].

Lemma decode_move_bytes reg r rest : 0 <= reg < 16 ->
  decode (move_bytes reg r ++ rest) = Some (MovRmR W64 (Reg (r mod 8)) (reg mod 8), rest).
Proof.
  intros Hr. unfold move_bytes. pose proof (Z.mod_pos_bound r 8 ltac:(lia)) as Hm.
  revert Hm. generalize (r mod 8) as m. intros m Hm. each_of_16 Hr; each_of_8 Hm; reflexivity.
Qed.

(** The SM4 and SM3 instructions: emitter, number of saved registers, and the vector register
    whose number is moved to RSI. *)
Definition crypto_family (zd zm : Z) :
    list ((sve_globals -> option SVEContext -> Z -> Z -> Z -> bool -> emitter Z) * bool * Z * bool) :=
  [ (fun g ctx zd zn _ => sve_translate_sm4e g ctx zd zn, true, zd, false);
    (sve_translate_sm4ekey, true, zm, true); (sve_translate_sm3ss1, false, zm, true);
    (sve_translate_sm3partw1, false, zm, true); (sve_translate_sm3partw2, false, zm, true) ].

Definition crypto_bytes (four : bool) (zn second zd : Z) (result : bool) : list Z :=
  (if four then [0x50; 0x53; 0x51; 0x52] else [0x50; 0x53]) ++
  move_bytes 7 zn ++ move_bytes 6 second ++ [0xe8; 0; 0; 0; 0] ++
  (if result then move_bytes (zd mod 16) 0 else []) ++
  (if four then [0x5a; 0x59; 0x5b; 0x58] else [0x5b; 0x58]).

Lemma crypto_code f four second result g ctx zd zn zm b :
  In (f, four, second, result) (crypto_family zd zm) -> sve_ready g = true ->
  f g ctx zd zn zm true b = (0, b ++ crypto_bytes four zn second zd result).
Proof.
  intros Hin Hr. cbn in Hin. unfold crypto_bytes, move_bytes.
  assert (H7 : forall v, v mod 16 &&& 7 = v mod 8).
  { intros v. rewrite land_7. apply Z.mod_mod_divide. by exists 2. }
  destruct_or! Hin; try done; injection Hin as <- <- <- <-;
    unfold sve_translate_sm4e, sve_translate_sm4ekey, sve_translate_sm3ss1,
      sve_translate_sm3partw1, sve_translate_sm3partw2;
    rewrite Hr, !z_to_xmm_mod, !H7; cbn [andb]; run_emitter; rewrite <- !app_assoc; done.
Qed.

Definition crypto_insns (four : bool) (zn second zd : Z) (result : bool) : list insn :=
  (if four then [PushR 0; PushR 3; PushR 1; PushR 2] else [PushR 0; PushR 3]) ++
  [MovRmR W64 (Reg (zn mod 8)) 7; MovRmR W64 (Reg (second mod 8)) 6; CallRel 0] ++
  (if result then [MovRmR W64 (Reg 0) (zd mod 8)] else []) ++
  (if four then [PopR 2; PopR 1; PopR 3; PopR 0] else [PopR 3; PopR 0]).

Lemma crypto_disassembles four zn second zd result :
  disassemble (crypto_bytes four zn second zd result) = Some (crypto_insns four zn second zd result).
Proof.
  unfold crypto_bytes, crypto_insns.
  assert (Htail : disassemble ((if result then move_bytes (zd mod 16) 0 else []) ++
      (if four then [0x5a; 0x59; 0x5b; 0x58] else [0x5b; 0x58])) =
    Some ((if result then [MovRmR W64 (Reg 0) (zd mod 8)] else []) ++
      (if four then [PopR 2; PopR 1; PopR 3; PopR 0] else [PopR 3; PopR 0]))).
  { destruct result; [|by destruct four].
    rewrite <- (Z.mod_mod_divide zd 16 8) by (by exists 2).
    apply disassemble_cons; [|done|by destruct four].
    apply (decode_move_bytes _ 0), Z.mod_pos_bound. lia. }
  assert (Hcall : forall rest il, disassemble rest = Some il ->
    disassemble (move_bytes 7 zn ++ move_bytes 6 second ++ [0xe8; 0; 0; 0; 0] ++ rest) =
    Some ([MovRmR W64 (Reg (zn mod 8)) 7; MovRmR W64 (Reg (second mod 8)) 6; CallRel 0] ++ il)).
  { intros rest il Hr. apply disassemble_cons; [by apply decode_move_bytes|done|].
    apply disassemble_cons; [by apply decode_move_bytes|done|].
    by apply (disassemble_cons [0xe8; 0; 0; 0; 0]). }
  specialize (Hcall _ _ Htail). destruct four; cbn [app].
  - apply (disassemble_cons [0x50]); [done..|]. apply (disassemble_cons [0x53]); [done..|].
    apply (disassemble_cons [0x51]); [done..|]. by apply (disassemble_cons [0x52]).
  - apply (disassemble_cons [0x50]); [done..|]. by apply (disassemble_cons [0x53]).
Qed.

Lemma crypto_run four second result zd zn st next :
  (zn mod 8 =? 4) = false -> (second mod 8 =? 4) = false ->
  exists st', vexec_all next (crypto_insns four zn second zd result) st = Some st' /\
    stack st' = gpr st 0 :: stack st /\ gpr st' 0 = gpr st 3 /\
    (if four then gpr st' 3 = gpr st 1 /\ gpr st' 1 = gpr st 2 /\ gpr st' 2 = next
     else gpr st' 3 = next) /\
    (4 < second mod 8 -> gpr st' (second mod 8) =
       u64 (if zn mod 8 =? 6 then u64 (gpr st 7) else gpr st 6)).
Proof.
  intros Hn Hs. unfold crypto_insns.
  destruct four, result; cbn; rewrite Hn; cbn; rewrite Hs; cbn; eexists; (split; [reflexivity|]);
    (split; [done|]); (split; [done|]); (split; [done|]); intros Hsec; cbn; unfold upd;
    rewrite ?(proj2 (Z.eqb_neq (second mod 8) 0)), ?(proj2 (Z.eqb_neq (second mod 8) 1)),
      ?(proj2 (Z.eqb_neq (second mod 8) 2)), ?(proj2 (Z.eqb_neq (second mod 8) 3)), Z.eqb_refl,
      (Z.eqb_sym 6) by lia; by destruct (zn mod 8 =? 6).
Qed.

(** The calls of SM4 and SM3.  The arguments are moved the wrong way: the x86 registers with
    the numbers of the vector registers are overwritten with RDI and RSI.  The call, with a
    displacement that is never filled in, goes to the next instruction and leaves its
    return address, which is popped as if it were the last saved register: every saved
    register gets the value of its neighbour, and the stack keeps one word. *)
Theorem sve_crypto_stack f four second result g ctx zd zn zm b st next :
  In (f, four, second, result) (crypto_family zd zm) -> sve_ready g = true ->
  zn mod 8 <> 4 -> second mod 8 <> 4 ->
  exists bs st', f g ctx zd zn zm true b = (0, b ++ bs) /\ vrun next bs st = Some st' /\
    stack st' = gpr st 0 :: stack st /\ gpr st' 0 = gpr st 3 /\
    (if four then gpr st' 3 = gpr st 1 /\ gpr st' 1 = gpr st 2 /\ gpr st' 2 = next
     else gpr st' 3 = next) /\
    (4 < second mod 8 -> gpr st' (second mod 8) =
       u64 (if zn mod 8 =? 6 then u64 (gpr st 7) else gpr st 6)).
Proof.
  intros Hin Hr Hn%Z.eqb_neq Hs%Z.eqb_neq. exists (crypto_bytes four zn second zd result).
  destruct (crypto_run four second result zd zn st next Hn Hs) as (st' & Hrun & H).
  exists st'. split; [by apply crypto_code|]. split; [|done].
  unfold vrun. by rewrite crypto_disassembles.
Qed.

End Vector.

Lemma sve_reductions_no_result_witness :
  sse_path demo_globals (Some demo_context) /\
  (exists bs, sve_translate_maxv demo_globals (Some demo_context) 3 1 true [] = (Some 0, bs)) /\
  sve_translate_maxv (set_globals zero_context 1 1 initial_globals) None 3 1 true [] = (None, []).
Proof.
  assert (Hin : In sve_translate_maxv reduction_family) by (cbn; tauto).
  assert (Hp : sse_path demo_globals (Some demo_context)) by (by left).
  split; [done|]. split.
  - destruct (proj1 (sve_reductions_no_result (fun _ _ _ _ f => f) _ demo_globals (Some demo_context)
      3 1 [] {| gpr := fun _ => 0; stack := []; xmm := fun _ => 0 |} 0 Hin eq_refl) Hp)
      as (bs & _ & H & _). eexists. exact H.
  - apply (proj2 (sve_reductions_no_result (fun _ _ _ _ f => f) _
      (set_globals zero_context 1 1 initial_globals) None 3 1 []
      {| gpr := fun _ => 0; stack := []; xmm := fun _ => 0 |} 0 Hin eq_refl)). reflexivity.
Defined.

Lemma sve_crypto_stack_witness :
  1 mod 8 <> 4 /\ exists bs, sve_translate_sm3ss1 demo_globals (Some demo_context) 2 1 3 true [] = (0, bs).
Proof.
  split; [done|].
  assert (Hin : In (sve_translate_sm3ss1, false, 3, true) (crypto_family 2 3)) by (cbn; tauto).
  destruct (sve_crypto_stack (fun _ _ _ _ f => f) _ _ _ _ demo_globals (Some demo_context) 2 1 3 []
    {| gpr := fun _ => 0; stack := []; xmm := fun _ => 0 |} 0 Hin eq_refl ltac:(done) ltac:(done))
    as (bs & st' & H & _). eexists. exact H.
Defined.
