(* ===== verification/Translate64.v ===== *)
(** * The ARM64 handlers: [modules/arm2x86_translate64.c]

    One definition per [translate_*] function, with its name.  Most load guest
    registers from their home into RAX, R11 and others, compute, and store the result;
    [translate_add_sub] and [translate_logical] use the register allocator.

    The addresses of the run-time helpers whose calls are emitted and the memory
    ordering flag of the context are parameters, as is what the processor and the
    compiler make of a shift whose count is out of range. *)
From S2P Require Import Prelude X86 Emit Regs Decode64 Frame RegAlloc.
From Stdlib Require Import ZArith Lia Bool.
From stdpp Require Import base numbers list.
Open Scope Z_scope.
Open Scope c_scope.

Definition arm64_to_x86_cond : list Z :=
  [0x84; 0x85; 0x83; 0x82; 0x88; 0x89; 0x80; 0x81;
   0x87; 0x86; 0x8d; 0x8c; 0x8f; 0x8e; 0x00; 0x00].

Definition arm2x86_sign_extend (val bits : Z) : Z := sign_extend64 val bits.

Definition X86_REG_XMM0 := 0.
Definition X86_REG_XMM1 := 1.
Definition X86_REG_XMM2 := 2.

(** What the translator takes from its environment. *)
Class Host := {
  strict_memory_ordering : bool;
  arm2x86_mrs_tpidr_el0 : Z;
  arm2x86_mrs_tpidrro_el0 : Z;
  arm2x86_msr_tpidr_el0 : Z;
  undefined_shift : Z -> Z -> Z;
  undefined_fp : Z -> Z;
  undefined_fp32 : Z -> Z }.

Section Translate64.
Context `{host : Host}.

Definition emit_load_arm_reg_fp (arm_reg xmm_reg is_double : Z) : emitter unit :=
  let offset := ARM_REG_OFFSET arm_reg in
  if c_true is_double then
    rex_r X86_REG_R11 X86_REG_RBP ;;
    emit_byte 0x8b ;;
    modrm 2 (X86_REG_R11 &&& 7) 5 ;;
    emit_imm32 offset ;;
    emit_byte 0x66 ;;
    emit_byte 0x48 ;;
    emit_byte 0x0f ;;
    emit_byte 0x6e ;;
    modrm 3 (xmm_reg &&& 7) (X86_REG_R11 &&& 7)
  else
    rex_r X86_REG_R11 X86_REG_RBP ;;
    emit_byte 0x8b ;;
    modrm 2 (X86_REG_R11 &&& 7) 5 ;;
    emit_imm32 offset ;;
    emit_byte 0x66 ;;
    emit_byte 0x0f ;;
    emit_byte 0x6e ;;
    modrm 3 (xmm_reg &&& 7) (X86_REG_R11 &&& 7).

Definition emit_store_arm_reg_fp (xmm_reg arm_reg is_double : Z) : emitter unit :=
  let offset := ARM_REG_OFFSET arm_reg in
  if c_true is_double then
    emit_byte 0x66 ;;
    emit_byte 0x48 ;;
    emit_byte 0x0f ;;
    emit_byte 0x7e ;;
    modrm 3 (X86_REG_R11 &&& 7) (xmm_reg &&& 7) ;;
    rex_rm (X86_REG_R11 >>> 3) 0 ;;
    emit_byte 0x89 ;;
    modrm 2 (X86_REG_R11 &&& 7) 5 ;;
    emit_imm32 offset
  else
    emit_byte 0x66 ;;
    emit_byte 0x0f ;;
    emit_byte 0x7e ;;
    modrm 3 (X86_REG_R11 &&& 7) (xmm_reg &&& 7) ;;
    rex_rm (X86_REG_R11 >>> 3) 0 ;;
    emit_byte 0x89 ;;
    modrm 2 (X86_REG_R11 &&& 7) 5 ;;
    emit_imm32 offset.

(** ** Branches and system instructions *)

(** The jump or call every direct branch ends with: to the code of the target if the
    block has it, otherwise a stub. *)
Definition jump_to (arm_target is_call : Z) : translator unit :=
  x86_target ← pc_map_lookup arm_target;
  match x86_target with
  | Some x86_target => emit_direct_jump_or_call x86_target is_call
  | None => emit (emit_dispatch_stub arm_target is_call)
  end.

Definition translate_b (op : Z) : translator Z :=
  arm_src ← gets arm64_cur;
  let imm := arm2x86_sign_extend ((op &&& 0x03ffffff) <<< 2) 28 in
  let arm_target := u64 (arm_src + imm) in
  record_pc ;;
  jump_to arm_target 0 ;;
  mret ARM2X86_OK.

(** The return address is stored to the home of X30. *)
Definition emit_save_lr (arm_ret : Z) : emitter unit :=
  rex_rm 0 0 ;;
  emit_byte 0xc7 ;;
  modrm 2 0 5 ;;
  emit_imm32 (ARM_REG_OFFSET 30) ;;
  emit_imm32 (arm_ret &&& 0xFFFFFFFF) ;;
  if c_true (arm_ret >>> 32) then
    rex_rm 0 0 ;;
    emit_byte 0xc7 ;;
    modrm 2 0 5 ;;
    emit_imm32 (ARM_REG_OFFSET 30 + 4) ;;
    emit_imm32 (arm_ret >>> 32)
  else mret tt.

Definition translate_bl (op : Z) : translator Z :=
  arm_src ← gets arm64_cur;
  let imm := arm2x86_sign_extend ((op &&& 0x03ffffff) <<< 2) 28 in
  let arm_target := u64 (arm_src + imm) in
  let arm_ret := u64 (arm_src + 4) in
  record_pc ;;
  emit (emit_save_lr arm_ret) ;;
  jump_to arm_target 1 ;;
  mret ARM2X86_OK.

Definition translate_br (op : Z) : translator Z :=
  let rn := (op >>> 5) &&& 0x1f in
  record_pc ;;
  emit (
    emit_load_arm_reg rn X86_REG_RAX 1 ;;
    emit_dispatch_stub 0 0) ;;
  mret ARM2X86_OK.

Definition translate_blr (op : Z) : translator Z :=
  arm_src ← gets arm64_cur;
  let rn := (op >>> 5) &&& 0x1f in
  let arm_ret := u64 (arm_src + 4) in
  record_pc ;;
  emit (
    emit_save_lr arm_ret ;;
    emit_load_arm_reg rn X86_REG_RAX 1 ;;
    emit_dispatch_stub 0 1) ;;
  mret ARM2X86_OK.

Definition translate_ret (op : Z) : translator Z :=
  let rn := (op >>> 5) &&& 0x1f in
  record_pc ;;
  emit (
    if rn =? 30 then mret tt
    else
      emit_load_arm_reg rn X86_REG_RAX 1 ;;
      emit_dispatch_stub 0 0) ;;
  mret ARM2X86_OK.

(** The end of the conditional branches: a jump over the jump to the target, whose
    displacement is then written to the address of the jump itself. *)
Definition conditional_jump_to (jcc arm_target : Z) : translator unit :=
  patch_loc ← emit here;
  emit (
    emit_byte 0x0f ;;
    emit_byte jcc ;;
    emit_imm32 0) ;;
  x86_fallthrough ← emit here;
  jump_to arm_target 0 ;;
  let offset := s32 (Z.of_nat x86_fallthrough - (Z.of_nat patch_loc + 4)) in
  emit (poke32 patch_loc offset).

Definition translate_b_cond (op : Z) : translator Z :=
  arm_src ← gets arm64_cur;
  let imm := arm2x86_sign_extend (((op >>> 5) &&& 0xffffe) <<< 1) 19 in
  let cond := op &&& 0xf in
  let arm_target := u64 (arm_src + imm) in
  record_pc ;;
  let x86_cond := nth (Z.to_nat cond) arm64_to_x86_cond 0 in
  (if x86_cond =? 0 then jump_to arm_target 0
   else if x86_cond =? 0xff then emit (emit_byte 0x90)
   else conditional_jump_to (x86_cond ^^^ 1) arm_target) ;;
  mret ARM2X86_OK.

Definition translate_cbz_cbnz (op is_cbnz : Z) : translator Z :=
  arm_src ← gets arm64_cur;
  let rn := (op >>> 5) &&& 0x1f in
  let imm := arm2x86_sign_extend (((op >>> 5) &&& 0x7ffff) <<< 2) 21 in
  let arm_target := u64 (arm_src + imm) in
  record_pc ;;
  emit (
    emit_load_arm_reg rn X86_REG_RAX 1 ;;
    test_r64_r64 X86_REG_RAX X86_REG_RAX) ;;
  conditional_jump_to (if c_true is_cbnz then 0x84 else 0x85) arm_target ;;
  mret ARM2X86_OK.

Definition translate_tbz_tbnz (op is_tbnz : Z) : translator Z :=
  arm_src ← gets arm64_cur;
  let rt := (op >>> 5) &&& 0x1f in
  let bit_pos := (((op >>> 31) &&& 1) <<< 5) ||| ((op >>> 19) &&& 0x1f) in
  let imm := arm2x86_sign_extend (((op >>> 5) &&& 0x3fff) <<< 2) 16 in
  let arm_target := u64 (arm_src + imm) in
  record_pc ;;
  emit (
    emit_load_arm_reg rt X86_REG_RAX 1 ;;
    rex_r X86_REG_RAX X86_REG_RAX ;;
    emit_byte 0x0f ;;
    emit_byte 0xba ;;
    modrm 3 4 (X86_REG_RAX &&& 7) ;;
    emit_imm8 bit_pos) ;;
  conditional_jump_to (if c_true is_tbnz then 0x84 else 0x85) arm_target ;;
  mret ARM2X86_OK.

(** The value MOVZ and MOVN write; [imm16 << shift] of the last case is an [int]. *)
Definition mov_imm_value (opc is64 imm16 shift : Z) : Z :=
  if opc =? 0 then
    let val := u64 (u64 (Z.lnot imm16) <<< shift) in
    if negb (c_true is64) then val ||| 0xffffffff00000000 else val
  else if opc =? 2 then u64 (imm16 <<< shift)
  else if (shift <? 32) && (imm16 <<< shift <? 2^31) then imm16 <<< shift
  else u64 (undefined_shift imm16 shift).

Definition translate_movk (rd imm16 shift is64 : Z) : emitter unit :=
  emit_load_arm_reg rd X86_REG_RAX is64 ;;
  let mask := u64 (Z.lnot (0xffff <<< shift)) in
  rex_rm 0 (X86_REG_RAX >>> 3) ;;
  emit_byte 0x48 ;;
  emit_byte 0x81 ;;
  modrm 3 4 (X86_REG_RAX &&& 7) ;;
  emit_imm32 (mask &&& 0xFFFFFFFF) ;;
  (if c_true (mask >>> 32) then
     rex_rm 0 (X86_REG_RAX >>> 3) ;;
     emit_byte 0x48 ;;
     emit_byte 0x81 ;;
     modrm 3 4 (X86_REG_RAX &&& 7) ;;
     emit_imm32 (mask >>> 32)
   else mret tt) ;;
  rex_rm 0 (X86_REG_RAX >>> 3) ;;
  emit_byte 0x48 ;;
  emit_byte 0x81 ;;
  modrm 3 1 (X86_REG_RAX &&& 7) ;;
  emit_imm32 ((imm16 <<< shift) &&& 0xFFFFFFFF) ;;
  (if c_true ((imm16 <<< shift) >>> 32) then
     rex_rm 0 (X86_REG_RAX >>> 3) ;;
     emit_byte 0x48 ;;
     emit_byte 0x81 ;;
     modrm 3 1 (X86_REG_RAX &&& 7) ;;
     emit_imm32 ((imm16 <<< shift) >>> 32)
   else mret tt) ;;
  emit_store_arm_reg X86_REG_RAX rd is64.

(** The two ways to write the value: through a free x86 register, which becomes the
    register of [rd], or to the home of [rd]. *)
Definition mov_imm_to_reg (rd x86_reg val is64 : Z) : translator unit :=
  reg_alloc_assign rd x86_reg (c_true is64) ;;
  emit (
    let rex_ := 0x48 in
    let rex_ := if 8 <=? x86_reg then rex_ ||| 0x01 else rex_ in
    emit_byte rex_ ;;
    emit_byte (0xb8 + (x86_reg &&& 7)) ;;
    emit_byte ((val >>> 0) &&& 0xff) ;;
    emit_byte ((val >>> 8) &&& 0xff) ;;
    emit_byte ((val >>> 16) &&& 0xff) ;;
    emit_byte ((val >>> 24) &&& 0xff) ;;
    emit_byte ((val >>> 32) &&& 0xff) ;;
    emit_byte ((val >>> 40) &&& 0xff) ;;
    emit_byte ((val >>> 48) &&& 0xff) ;;
    emit_byte ((val >>> 56) &&& 0xff) ;;
    emit_store_arm_reg x86_reg rd is64) ;;
  set_entry rd (set_dirty true).

Definition mov_imm_to_home (rd val : Z) : emitter unit :=
  rex_rm 0 0 ;;
  emit_byte 0x48 ;;
  emit_byte 0xc7 ;;
  modrm 2 0 5 ;;
  emit_imm32 (ARM_REG_OFFSET rd) ;;
  emit_imm32 (val &&& 0xFFFFFFFF) ;;
  if c_true (val >>> 32) then
    rex_rm 0 0 ;;
    emit_byte 0x48 ;;
    emit_byte 0xc7 ;;
    modrm 2 0 5 ;;
    emit_imm32 (ARM_REG_OFFSET rd + 4) ;;
    emit_imm32 (val >>> 32)
  else mret tt.

Definition translate_mov_imm (op : Z) : translator Z :=
  let rd := op &&& 0x1f in
  let imm16 := (op >>> 5) &&& 0xffff in
  let shift := ((op >>> 21) &&& 3) * 16 in
  let is64 := (op >>> 31) &&& 1 in
  let opc := (op >>> 29) &&& 3 in
  record_pc ;;
  if opc =? 3 then emit (translate_movk rd imm16 shift is64) ;; mret ARM2X86_OK
  else
    let val := mov_imm_value opc is64 imm16 shift in
    x86_reg ← reg_alloc_get_free;
    (if negb (x86_reg =? 0xff) then mov_imm_to_reg rd x86_reg val is64
     else emit (mov_imm_to_home rd val)) ;;
    mret ARM2X86_OK.

(** [lock addl $0, 0(%rsp)] *)
Definition emit_locked_add : emitter unit :=
  emit_lock ;;
  emit_byte 0x83 ;;
  emit_byte 0x04 ;;
  emit_byte 0x24 ;;
  emit_byte 0x00.

Definition translate_dmb_dsb_isb (op : Z) : translator Z :=
  emit (
    if op =? ARM64_DMB then if strict_memory_ordering then emit_mfence else emit_locked_add
    else if op =? ARM64_DSB then if strict_memory_ordering then emit_mfence else emit_locked_add
    else if strict_memory_ordering then emit_lfence else emit_locked_add) ;;
  mret ARM2X86_OK.

Definition sysreg_of (op : Z) : Z :=
  let op0 := (op >>> 19) &&& 0x7 in
  let op1 := (op >>> 16) &&& 0x7 in
  let crn := (op >>> 12) &&& 0xf in
  let crm := (op >>> 8) &&& 0xf in
  let op2 := (op >>> 5) &&& 0x7 in
  (op0 <<< 14) ||| (op1 <<< 11) ||| (crn <<< 7) ||| (crm <<< 3) ||| op2.

Definition emit_func_addr (func_addr : Z) : emitter unit :=
  for_each (seqZ 0 8) (fun i => emit_byte ((func_addr >>> (i * 8)) &&& 0xff)).

Definition translate_mrs (op : Z) : translator Z :=
  let rt := op &&& 0x1f in
  record_pc ;;
  let sysreg := sysreg_of op in
  emit (
    if sysreg =? 0xD530001F then
      emit_byte (0x50 + 0) ;;
      emit_byte (0x50 + 1) ;;
      emit_byte (0x50 + 2) ;;
      emit_byte (0x50 + 8) ;;
      emit_byte (0x50 + 9) ;;
      emit_byte 0x48 ;; emit_byte 0xb8 ;;
      emit_func_addr arm2x86_mrs_tpidr_el0 ;;
      emit_byte 0xff ;; emit_byte 0xd0 ;;
      emit_store_arm_reg X86_REG_RAX rt 1 ;;
      emit_byte (0x58 + 9) ;;
      emit_byte (0x58 + 8) ;;
      emit_byte (0x58 + 2) ;;
      emit_byte (0x58 + 1) ;;
      emit_byte (0x58 + 0)
    else if sysreg =? 0xD530002F then
      emit_byte 0x50 ;;
      emit_byte 0x48 ;; emit_byte 0xb8 ;;
      emit_func_addr arm2x86_mrs_tpidrro_el0 ;;
      emit_byte 0xff ;; emit_byte 0xd0 ;;
      emit_store_arm_reg X86_REG_RAX rt 1 ;;
      emit_byte 0x58
    else if sysreg =? 0xD5304000 then
      emit_byte 0x9c ;;
      emit_byte 0x58 ;;
      emit_store_arm_reg X86_REG_RAX rt 1
    else if sysreg =? 0xD5304001 then
      mov_r64_imm X86_REG_RAX 0x00001F80 ;;
      emit_store_arm_reg X86_REG_RAX rt 1
    else if sysreg =? 0xD5304002 then
      xor_r64_r64 X86_REG_RAX X86_REG_RAX ;;
      emit_store_arm_reg X86_REG_RAX rt 1
    else if sysreg =? 0xD5300000 then
      emit_byte 0x0f ;;
      emit_byte 0x31 ;;
      shl_r64_imm8 X86_REG_RDX 32 ;;
      or_r64_r64 X86_REG_RDX X86_REG_RAX ;;
      emit_store_arm_reg X86_REG_RDX rt 1
    else
      xor_r64_r64 X86_REG_RAX X86_REG_RAX ;;
      emit_store_arm_reg X86_REG_RAX rt 1) ;;
  mret ARM2X86_OK.

Definition translate_msr (op : Z) : translator Z :=
  let rt := op &&& 0x1f in
  record_pc ;;
  let sysreg := sysreg_of op in
  emit (
    if sysreg =? 0xD510001F then
      emit_byte 0x50 ;;
      emit_byte 0x51 ;;
      emit_byte 0x52 ;;
      emit_byte 0x57 ;;
      emit_byte 0x56 ;;
      emit_byte 0x53 ;;
      emit_load_arm_reg rt X86_REG_RDI 1 ;;
      emit_byte 0xff ;;
      emit_byte 0x15 ;;
      emit_byte 0x00 ;;
      emit_byte 0x00 ;;
      emit_byte 0x00 ;;
      emit_byte 0x00 ;;
      emit_func_addr arm2x86_msr_tpidr_el0 ;;
      emit_byte 0x5b ;;
      emit_byte 0x5e ;;
      emit_byte 0x5f ;;
      emit_byte 0x5a ;;
      emit_byte 0x59 ;;
      emit_byte 0x58
    else if sysreg =? 0xD5104000 then
      emit_load_arm_reg rt X86_REG_RAX 1 ;;
      emit_byte 0x50 ;;
      emit_byte 0x9d
    else if sysreg =? 0xD5104001 then
      emit_load_arm_reg rt X86_REG_RAX 1 ;;
      emit_byte 0x0f ;;
      emit_byte 0xae ;;
      modrm 3 3 (X86_REG_RAX &&& 7)
    else mret tt) ;;
  mret ARM2X86_OK.

(** The bits of the [double] and of the [float] [fp_val]: (1 + mantissa / 8) times
    2 to the power exp - 3, which the code computes by a shift. *)
Definition fmov_bits (imm8 : Z) : Z :=
  let exp := (imm8 >>> 3) &&& 0x7 in
  let mantissa := imm8 &&& 0x7 in
  if imm8 =? 0 then 0
  else if exp <? 3 then undefined_fp imm8
  else ((1023 + (exp - 3)) <<< 52) ||| (mantissa <<< 49).
Definition fmov_bits32 (imm8 : Z) : Z :=
  let exp := (imm8 >>> 3) &&& 0x7 in
  let mantissa := imm8 &&& 0x7 in
  if imm8 =? 0 then 0
  else if exp <? 3 then undefined_fp32 imm8
  else ((127 + (exp - 3)) <<< 23) ||| (mantissa <<< 20).

Definition translate_fmov_imm (op : Z) : translator Z :=
  let rd := op &&& 0x1f in
  let is_double := (op >>> 22) &&& 1 in
  record_pc ;;
  let imm8 := ((op >>> 13) &&& 0x40) ||| ((op >>> 5) &&& 0x3f) in
  emit (
    if c_true is_double then
      mov_r64_imm X86_REG_R11 (fmov_bits imm8) ;;
      emit_byte 0x66 ;;
      emit_byte 0x48 ;;
      emit_byte 0x0f ;;
      emit_byte 0x6e ;;
      modrm 3 (X86_REG_XMM0 &&& 7) (X86_REG_R11 &&& 7) ;;
      emit_store_arm_reg_fp X86_REG_XMM0 rd 1
    else
      mov_r64_imm X86_REG_R11 (fmov_bits32 imm8) ;;
      emit_byte 0x66 ;;
      emit_byte 0x0f ;;
      emit_byte 0x6e ;;
      modrm 3 (X86_REG_XMM0 &&& 7) (X86_REG_R11 &&& 7) ;;
      emit_store_arm_reg_fp X86_REG_XMM0 rd 0) ;;
  mret ARM2X86_OK.

(** ** The other instructions *)

Definition translate_add_sub (op is_sub : Z) : translator Z :=
  let rd := op &&& 0x1f in
  let rn := (op >>> 5) &&& 0x1f in
  let rm := (op >>> 16) &&& 0x1f in
  let is_64bit := (op >>> 31) &&& 1 in
  record_pc ;;
  reg_rn ← reg_alloc_get_reg rn (c_true is_64bit) false;
  reg_rm ← reg_alloc_get_reg rm (c_true is_64bit) false;
  reg_rd ← reg_alloc_get_reg rd (c_true is_64bit) true;
  emit (
    if reg_rd =? reg_rn then
      if c_true is_sub then sub_r64_r64 reg_rd reg_rm else add_r64_r64 reg_rd reg_rm
    else if reg_rd =? reg_rm then
      mov_r64_r64 reg_rd reg_rn ;;
      if c_true is_sub then sub_r64_r64 reg_rd reg_rm else add_r64_r64 reg_rd reg_rm
    else
      mov_r64_r64 reg_rd reg_rn ;;
      if c_true is_sub then sub_r64_r64 reg_rd reg_rm else add_r64_r64 reg_rd reg_rm) ;;
  mret ARM2X86_OK.

Definition translate_logical (op : Z) : translator Z :=
  let rd := op &&& 0x1f in
  let rn := (op >>> 5) &&& 0x1f in
  let rm := (op >>> 16) &&& 0x1f in
  let opcode := (op >>> 29) &&& 3 in
  let is_64bit := (op >>> 31) &&& 1 in
  record_pc ;;
  reg_rn ← reg_alloc_get_reg rn (c_true is_64bit) false;
  reg_rm ← reg_alloc_get_reg rm (c_true is_64bit) false;
  reg_rd ← reg_alloc_get_reg rd (c_true is_64bit) true;
  emit (
    if opcode =? 0 then
      (if negb (reg_rd =? reg_rn) then mov_r64_r64 reg_rd reg_rn else mret tt) ;;
      and_r64_r64 reg_rd reg_rm
    else if opcode =? 1 then
      (if negb (reg_rd =? reg_rn) then mov_r64_r64 reg_rd reg_rn else mret tt) ;;
      not_r64 reg_rm ;;
      and_r64_r64 reg_rd reg_rm
    else if opcode =? 2 then
      (if negb (reg_rd =? reg_rn) then mov_r64_r64 reg_rd reg_rn else mret tt) ;;
      or_r64_r64 reg_rd reg_rm
    else if opcode =? 3 then
      (if negb (reg_rd =? reg_rn) then mov_r64_r64 reg_rd reg_rn else mret tt) ;;
      not_r64 reg_rm ;;
      or_r64_r64 reg_rd reg_rm
    else mret tt) ;;
  mret ARM2X86_OK.

Definition translate_cmp (op : Z) : translator Z :=
  let rn := (op >>> 5) &&& 0x1f in
  let rm := (op >>> 16) &&& 0x1f in
  let is_64bit := (op >>> 31) &&& 1 in
  record_pc ;;
  emit (
    emit_load_arm_reg rn X86_REG_RAX is_64bit ;;
    emit_load_arm_reg rm X86_REG_R11 is_64bit ;;
    cmp_r64_r64 X86_REG_RAX X86_REG_R11) ;;
  mret ARM2X86_OK.

Definition translate_csel (op : Z) : translator Z :=
  let rd := op &&& 0x1f in
  let rn := (op >>> 5) &&& 0x1f in
  let rm := (op >>> 16) &&& 0x1f in
  let cond := (op >>> 12) &&& 0xf in
  let x86_cond := nth (Z.to_nat cond) arm64_to_x86_cond 0 in
  let is_64bit := (op >>> 31) &&& 1 in
  record_pc ;;
  emit (
    if x86_cond =? 0x00 then
      emit_load_arm_reg rn X86_REG_RAX is_64bit ;;
      emit_store_arm_reg X86_REG_RAX rd is_64bit
    else if x86_cond =? 0xff then
      emit_load_arm_reg rm X86_REG_RAX is_64bit ;;
      emit_store_arm_reg X86_REG_RAX rd is_64bit
    else
      emit_load_arm_reg rm X86_REG_RAX is_64bit ;;
      emit_store_arm_reg X86_REG_RAX rd is_64bit ;;
      emit_byte 0x0f ;;
      emit_byte (x86_cond ^^^ 1) ;;
      skip ← here;
      emit_imm32 0 ;;
      emit_load_arm_reg rn X86_REG_RAX is_64bit ;;
      emit_store_arm_reg X86_REG_RAX rd is_64bit ;;
      cur ← here;
      let off := s32 (Z.of_nat cur - Z.of_nat skip - 4) in
      poke32 skip off) ;;
  mret ARM2X86_OK.

Definition translate_ldr_str (op decoded_imm : Z) : translator Z :=
  let rt := op &&& 0x1f in
  let rn := (op >>> 5) &&& 0x1f in
  let imm := decoded_imm in
  let is_load := (op >>> 22) &&& 1 in
  let size := (op >>> 30) &&& 3 in
  let is_64bit := b2z (size =? 3) in
  record_pc ;;
  emit (
    emit_load_arm_reg rn X86_REG_RAX 1 ;;
    if c_true is_load then
      rex_r X86_REG_RAX X86_REG_RAX ;;
      emit_byte 0x8b ;;
      emit_modrm_disp (X86_REG_RAX &&& 7) X86_REG_RAX imm ;;
      emit_store_arm_reg X86_REG_RAX rt is_64bit
    else
      emit_load_arm_reg rt X86_REG_R11 is_64bit ;;
      rex_r X86_REG_R11 X86_REG_RAX ;;
      emit_byte 0x89 ;;
      emit_modrm_disp (X86_REG_R11 &&& 7) X86_REG_RAX imm) ;;
  mret ARM2X86_OK.

Definition translate_adr_adrp (op : Z) : translator Z :=
  arm_cur ← gets arm64_cur;
  let rd := op &&& 0x1f in
  let imm := ((op >>> 5) &&& 0x3) ||| ((op >>> 29) &&& 0x1c) ||| ((op >>> 3) &&& 0x1ffffe0) in
  let is_adrp := b2z ((op &&& 0x9f000000) =? 0x90000000) in
  let imm := if c_true is_adrp then imm <<< 12 else imm in
  let simm := arm2x86_sign_extend imm (if c_true is_adrp then 33 else 21) in
  record_pc ;;
  let addr := u64 (arm_cur + u64 simm) in
  let addr := if c_true is_adrp then addr &&& u64 (Z.lnot 0xFFF) else addr in
  emit (
    rex_rm 0 0 ;;
    emit_byte 0x48 ;;
    emit_byte 0xc7 ;;
    modrm 2 0 5 ;;
    emit_imm32 (ARM_REG_OFFSET rd) ;;
    emit_imm32 (addr &&& 0xFFFFFFFF) ;;
    if c_true (addr >>> 32) then
      rex_rm 0 0 ;;
      emit_byte 0x48 ;;
      emit_byte 0xc7 ;;
      modrm 2 0 5 ;;
      emit_imm32 (u32 (ARM_REG_OFFSET rd + 4)) ;;
      emit_imm32 (addr >>> 32)
    else mret tt) ;;
  mret ARM2X86_OK.

Definition translate_ldp_stp (op decoded_imm : Z) : translator Z :=
  let rt := op &&& 0x1f in
  let rt2 := (op >>> 10) &&& 0x1f in
  let rn := (op >>> 5) &&& 0x1f in
  let is_load := (op >>> 31) &&& 1 in
  let is_64bit := (op >>> 30) &&& 1 in
  let imm := decoded_imm in
  record_pc ;;
  emit (
    emit_load_arm_reg rn X86_REG_RAX 1 ;;
    if c_true is_load then
      rex_r X86_REG_R11 X86_REG_RAX ;;
      emit_byte 0x8b ;;
      emit_modrm_disp (X86_REG_R11 &&& 7) X86_REG_RAX imm ;;
      emit_store_arm_reg X86_REG_R11 rt is_64bit ;;
      rex_r X86_REG_R11 X86_REG_RAX ;;
      emit_byte 0x8b ;;
      emit_modrm_disp (X86_REG_R11 &&& 7) X86_REG_RAX (s32 (imm + 8)) ;;
      emit_store_arm_reg X86_REG_R11 rt2 is_64bit
    else
      emit_load_arm_reg rt X86_REG_R11 is_64bit ;;
      rex_r X86_REG_R11 X86_REG_RAX ;;
      emit_byte 0x89 ;;
      emit_modrm_disp (X86_REG_R11 &&& 7) X86_REG_RAX imm ;;
      emit_load_arm_reg rt2 X86_REG_R11 is_64bit ;;
      rex_r X86_REG_R11 X86_REG_RAX ;;
      emit_byte 0x89 ;;
      emit_modrm_disp (X86_REG_R11 &&& 7) X86_REG_RAX (s32 (imm + 8))) ;;
  mret ARM2X86_OK.

Definition translate_mul (op : Z) : translator Z :=
  let rd := op &&& 0x1f in
  let rn := (op >>> 5) &&& 0x1f in
  let rm := (op >>> 16) &&& 0x1f in
  let is_64bit := (op >>> 31) &&& 1 in
  record_pc ;;
  emit (
    emit_load_arm_reg rn X86_REG_RAX is_64bit ;;
    emit_load_arm_reg rm X86_REG_R11 is_64bit ;;
    imul_r64_r64 X86_REG_RAX X86_REG_R11 ;;
    emit_store_arm_reg X86_REG_RAX rd is_64bit) ;;
  mret ARM2X86_OK.

Definition translate_div (op : Z) : translator Z :=
  let rd := op &&& 0x1f in
  let rn := (op >>> 5) &&& 0x1f in
  let rm := (op >>> 16) &&& 0x1f in
  let is_64bit := (op >>> 31) &&& 1 in
  let is_signed := b2z (((op >>> 11) &&& 1) =? 0) in
  record_pc ;;
  emit (
    emit_load_arm_reg rn X86_REG_RAX is_64bit ;;
    emit_load_arm_reg rm X86_REG_R11 is_64bit ;;
    test_r64_r64 X86_REG_R11 X86_REG_R11 ;;
    jz_patch ← emit_jcc 0x84 0;
    (if c_true is_signed then emit_cqo else xor_r64_r64 X86_REG_RDX X86_REG_RDX) ;;
    (if c_true is_signed then idiv_r64 X86_REG_R11 else div_r64 X86_REG_R11) ;;
    emit_store_arm_reg X86_REG_RAX rd is_64bit ;;
    jmp_end ← emit_jmp 0;
    jz_target ← here;
    cur ← here;
    patch_rel32 (Some jz_patch) cur ;;
    xor_r64_r64 X86_REG_RAX X86_REG_RAX ;;
    emit_store_arm_reg X86_REG_RAX rd is_64bit ;;
    cur ← here;
    patch_rel32 (Some jmp_end) cur) ;;
  mret ARM2X86_OK.

Definition translate_shift (op : Z) : translator Z :=
  let rd := op &&& 0x1f in
  let rn := (op >>> 5) &&& 0x1f in
  let immr := (op >>> 16) &&& 0x3f in
  let n := (op >>> 22) &&& 1 in
  let opc := (op >>> 29) &&& 3 in
  let is_64bit := n in
  record_pc ;;
  emit (
    emit_load_arm_reg rn X86_REG_RAX is_64bit ;;
    (if (opc =? 0) && (n =? 1) then sar_r64_imm8 X86_REG_RAX (immr &&& 0x3f)
     else if opc =? 2 then shr_r64_imm8 X86_REG_RAX (immr &&& 0x3f)
     else if (opc =? 0) && (n =? 0) then shl_r64_imm8 X86_REG_RAX (immr &&& 0x3f)
     else mret tt) ;;
    emit_store_arm_reg X86_REG_RAX rd is_64bit) ;;
  mret ARM2X86_OK.

Definition translate_svc (op : Z) : translator Z :=
  record_pc ;;
  emit (
    emit_byte 0x48 ;; emit_byte 0x81 ;; emit_byte 0xEC ;;
    emit_byte 64 ;; emit_byte 0 ;; emit_byte 0 ;; emit_byte 0 ;;
    emit_load_arm_reg 8 X86_REG_R11 1 ;;
    emit_byte 0x4c ;; emit_byte 0x89 ;; emit_byte 0x04 ;; emit_byte 0x24 ;;
    emit_load_arm_reg 0 X86_REG_RAX 1 ;;
    emit_byte 0x48 ;; emit_byte 0x89 ;; emit_byte 0x44 ;; emit_byte 0x24 ;; emit_byte 0x08 ;;
    emit_load_arm_reg 1 X86_REG_RDI 1 ;;
    emit_byte 0x48 ;; emit_byte 0x89 ;; emit_byte 0x7c ;; emit_byte 0x24 ;; emit_byte 0x10 ;;
    emit_load_arm_reg 2 X86_REG_RSI 1 ;;
    emit_byte 0x48 ;; emit_byte 0x89 ;; emit_byte 0x74 ;; emit_byte 0x24 ;; emit_byte 0x18 ;;
    emit_load_arm_reg 3 X86_REG_RDX 1 ;;
    emit_byte 0x48 ;; emit_byte 0x89 ;; emit_byte 0x54 ;; emit_byte 0x24 ;; emit_byte 0x20 ;;
    emit_load_arm_reg 4 X86_REG_R8 1 ;;
    emit_byte 0x4c ;; emit_byte 0x89 ;; emit_byte 0x44 ;; emit_byte 0x24 ;; emit_byte 0x28 ;;
    emit_load_arm_reg 5 X86_REG_R9 1 ;;
    emit_byte 0x4c ;; emit_byte 0x89 ;; emit_byte 0x4c ;; emit_byte 0x24 ;; emit_byte 0x30 ;;
    emit_byte 0x4c ;; emit_byte 0x8b ;; emit_byte 0x04 ;; emit_byte 0x24 ;;
    emit_byte 0x49 ;; emit_byte 0x89 ;; emit_byte 0xc0 ;;
    emit_byte 0x48 ;; emit_byte 0x8b ;; emit_byte 0x44 ;; emit_byte 0x24 ;; emit_byte 0x08 ;;
    emit_byte 0x48 ;; emit_byte 0x89 ;; emit_byte 0xc7 ;;
    emit_byte 0x48 ;; emit_byte 0x8b ;; emit_byte 0x74 ;; emit_byte 0x24 ;; emit_byte 0x10 ;;
    emit_byte 0x48 ;; emit_byte 0x8b ;; emit_byte 0x74 ;; emit_byte 0x24 ;; emit_byte 0x18 ;;
    emit_byte 0x48 ;; emit_byte 0x8b ;; emit_byte 0x54 ;; emit_byte 0x24 ;; emit_byte 0x20 ;;
    emit_byte 0x4c ;; emit_byte 0x89 ;; emit_byte 0xd2 ;;
    emit_byte 0x4c ;; emit_byte 0x8b ;; emit_byte 0x44 ;; emit_byte 0x24 ;; emit_byte 0x28 ;;
    emit_byte 0x4c ;; emit_byte 0x8b ;; emit_byte 0x4c ;; emit_byte 0x24 ;; emit_byte 0x30 ;;
    emit_syscall ;;
    emit_byte 0x48 ;; emit_byte 0x81 ;; emit_byte 0xC4 ;;
    emit_byte 64 ;; emit_byte 0 ;; emit_byte 0 ;; emit_byte 0 ;;
    emit_store_arm_reg X86_REG_RAX 0 1) ;;
  mret ARM2X86_OK.

Definition translate_adc (op : Z) : translator Z :=
  let rd := op &&& 0x1f in
  let rn := (op >>> 5) &&& 0x1f in
  let rm := (op >>> 16) &&& 0x1f in
  let is_64bit := (op >>> 31) &&& 1 in
  record_pc ;;
  emit (
    emit_load_arm_reg rn X86_REG_RAX is_64bit ;;
    emit_load_arm_reg rm X86_REG_R11 is_64bit ;;
    rex_r X86_REG_RAX X86_REG_R11 ;;
    emit_byte 0x11 ;;
    modrm 3 (X86_REG_RAX &&& 7) (X86_REG_R11 &&& 7) ;;
    emit_store_arm_reg X86_REG_RAX rd is_64bit) ;;
  mret ARM2X86_OK.

Definition translate_sbc (op : Z) : translator Z :=
  let rd := op &&& 0x1f in
  let rn := (op >>> 5) &&& 0x1f in
  let rm := (op >>> 16) &&& 0x1f in
  let is_64bit := (op >>> 31) &&& 1 in
  record_pc ;;
  emit (
    emit_load_arm_reg rn X86_REG_RAX is_64bit ;;
    emit_load_arm_reg rm X86_REG_R11 is_64bit ;;
    rex_r X86_REG_RAX X86_REG_R11 ;;
    emit_byte 0x19 ;;
    modrm 3 (X86_REG_RAX &&& 7) (X86_REG_R11 &&& 7) ;;
    emit_store_arm_reg X86_REG_RAX rd is_64bit) ;;
  mret ARM2X86_OK.

Definition translate_neg (op : Z) : translator Z :=
  let rd := op &&& 0x1f in
  let rn := (op >>> 5) &&& 0x1f in
  let is_64bit := (op >>> 31) &&& 1 in
  record_pc ;;
  emit (
    emit_load_arm_reg rn X86_REG_RAX is_64bit ;;
    (if c_true is_64bit then rex_rm 0 (X86_REG_RAX >>> 3) else mret tt) ;;
    emit_byte 0xf7 ;;
    modrm 3 3 (X86_REG_RAX &&& 7) ;;
    emit_store_arm_reg X86_REG_RAX rd is_64bit) ;;
  mret ARM2X86_OK.

Definition translate_rsb (op : Z) : translator Z :=
  let rd := op &&& 0x1f in
  let rn := (op >>> 5) &&& 0x1f in
  let rm := (op >>> 16) &&& 0x1f in
  let is_64bit := (op >>> 31) &&& 1 in
  record_pc ;;
  emit (
    emit_load_arm_reg rm X86_REG_RAX is_64bit ;;
    emit_load_arm_reg rn X86_REG_R11 is_64bit ;;
    sub_r64_r64 X86_REG_RAX X86_REG_R11 ;;
    emit_store_arm_reg X86_REG_RAX rd is_64bit) ;;
  mret ARM2X86_OK.

Definition translate_mvn (op : Z) : translator Z :=
  let rd := op &&& 0x1f in
  let rm := (op >>> 16) &&& 0x1f in
  let is_64bit := (op >>> 31) &&& 1 in
  record_pc ;;
  emit (
    emit_load_arm_reg rm X86_REG_RAX is_64bit ;;
    (if c_true is_64bit then rex_rm 0 (X86_REG_RAX >>> 3) else mret tt) ;;
    emit_byte 0xf7 ;;
    modrm 3 2 (X86_REG_RAX &&& 7) ;;
    emit_store_arm_reg X86_REG_RAX rd is_64bit) ;;
  mret ARM2X86_OK.

Definition translate_tst (op : Z) : translator Z :=
  let rn := (op >>> 5) &&& 0x1f in
  let rm := (op >>> 16) &&& 0x1f in
  let is_64bit := (op >>> 31) &&& 1 in
  record_pc ;;
  emit (
    emit_load_arm_reg rn X86_REG_RAX is_64bit ;;
    emit_load_arm_reg rm X86_REG_R11 is_64bit ;;
    test_r64_r64 X86_REG_RAX X86_REG_R11) ;;
  mret ARM2X86_OK.

Definition translate_cmn (op : Z) : translator Z :=
  let rn := (op >>> 5) &&& 0x1f in
  let rm := (op >>> 16) &&& 0x1f in
  let is_64bit := (op >>> 31) &&& 1 in
  record_pc ;;
  emit (
    emit_load_arm_reg rn X86_REG_RAX is_64bit ;;
    emit_load_arm_reg rm X86_REG_R11 is_64bit ;;
    add_r64_r64 X86_REG_RAX X86_REG_R11) ;;
  mret ARM2X86_OK.

Definition translate_ror_imm (op : Z) : translator Z :=
  let rd := op &&& 0x1f in
  let rn := (op >>> 5) &&& 0x1f in
  let immr := (op >>> 16) &&& 0x3f in
  let is_64bit := (op >>> 31) &&& 1 in
  record_pc ;;
  emit (
    emit_load_arm_reg rn X86_REG_RAX is_64bit ;;
    rex_rm 0 (X86_REG_RAX >>> 3) ;;
    emit_byte 0xc1 ;;
    modrm 3 1 (X86_REG_RAX &&& 7) ;;
    emit_byte (immr &&& 0x3f) ;;
    emit_store_arm_reg X86_REG_RAX rd is_64bit) ;;
  mret ARM2X86_OK.

Definition translate_extr (op : Z) : translator Z :=
  let rd := op &&& 0x1f in
  let rn := (op >>> 5) &&& 0x1f in
  let rm := (op >>> 16) &&& 0x1f in
  let immr := (op >>> 10) &&& 0x3f in
  let is_64bit := (op >>> 31) &&& 1 in
  record_pc ;;
  emit (
    if rn =? rm then
      emit_load_arm_reg rn X86_REG_RAX is_64bit ;;
      rex_rm 0 (X86_REG_RAX >>> 3) ;;
      emit_byte 0xc1 ;;
      modrm 3 1 (X86_REG_RAX &&& 7) ;;
      emit_byte (immr &&& 0x3f) ;;
      emit_store_arm_reg X86_REG_RAX rd is_64bit
    else
      emit_load_arm_reg rn X86_REG_RAX is_64bit ;;
      shr_r64_imm8 X86_REG_RAX (immr &&& 0x3f) ;;
      emit_load_arm_reg rm X86_REG_R11 is_64bit ;;
      shl_r64_imm8 X86_REG_R11 (64 - (immr &&& 0x3f)) ;;
      or_r64_r64 X86_REG_RAX X86_REG_R11 ;;
      emit_store_arm_reg X86_REG_RAX rd is_64bit) ;;
  mret ARM2X86_OK.

Definition translate_madd (op : Z) : translator Z :=
  let rd := op &&& 0x1f in
  let rn := (op >>> 5) &&& 0x1f in
  let rm := (op >>> 16) &&& 0x1f in
  let ra := (op >>> 10) &&& 0x1f in
  let is_64bit := (op >>> 31) &&& 1 in
  record_pc ;;
  emit (
    emit_load_arm_reg rn X86_REG_RAX is_64bit ;;
    emit_load_arm_reg rm X86_REG_R11 is_64bit ;;
    imul_r64_r64 X86_REG_RAX X86_REG_R11 ;;
    emit_load_arm_reg ra X86_REG_R11 is_64bit ;;
    add_r64_r64 X86_REG_RAX X86_REG_R11 ;;
    emit_store_arm_reg X86_REG_RAX rd is_64bit) ;;
  mret ARM2X86_OK.

Definition translate_msub (op : Z) : translator Z :=
  let rd := op &&& 0x1f in
  let rn := (op >>> 5) &&& 0x1f in
  let rm := (op >>> 16) &&& 0x1f in
  let ra := (op >>> 10) &&& 0x1f in
  let is_64bit := (op >>> 31) &&& 1 in
  record_pc ;;
  emit (
    emit_load_arm_reg ra X86_REG_RAX is_64bit ;;
    emit_load_arm_reg rn X86_REG_R11 is_64bit ;;
    emit_load_arm_reg rm X86_REG_RCX is_64bit ;;
    imul_r64_r64 X86_REG_R11 X86_REG_RCX ;;
    sub_r64_r64 X86_REG_RAX X86_REG_R11 ;;
    emit_store_arm_reg X86_REG_RAX rd is_64bit) ;;
  mret ARM2X86_OK.

Definition translate_smulh (op : Z) : translator Z :=
  let rd := op &&& 0x1f in
  let rn := (op >>> 5) &&& 0x1f in
  let rm := (op >>> 16) &&& 0x1f in
  record_pc ;;
  emit (
    emit_load_arm_reg rn X86_REG_RAX 1 ;;
    emit_load_arm_reg rm X86_REG_R11 1 ;;
    rex_rm 0 (X86_REG_R11 >>> 3) ;;
    emit_byte 0xf7 ;;
    modrm 3 5 (X86_REG_R11 &&& 7) ;;
    emit_store_arm_reg X86_REG_RDX rd 1) ;;
  mret ARM2X86_OK.

Definition translate_umulh (op : Z) : translator Z :=
  let rd := op &&& 0x1f in
  let rn := (op >>> 5) &&& 0x1f in
  let rm := (op >>> 16) &&& 0x1f in
  record_pc ;;
  emit (
    emit_load_arm_reg rn X86_REG_RAX 1 ;;
    emit_load_arm_reg rm X86_REG_R11 1 ;;
    rex_rm 0 (X86_REG_R11 >>> 3) ;;
    emit_byte 0xf7 ;;
    modrm 3 4 (X86_REG_R11 &&& 7) ;;
    emit_store_arm_reg X86_REG_RDX rd 1) ;;
  mret ARM2X86_OK.

Definition translate_sbfm (op : Z) : translator Z :=
  let rd := op &&& 0x1f in
  let rn := (op >>> 5) &&& 0x1f in
  let imms := (op >>> 10) &&& 0x3f in
  let immr := (op >>> 16) &&& 0x3f in
  let n := (op >>> 22) &&& 1 in
  let is_64bit := n in
  record_pc ;;
  emit (
    emit_load_arm_reg rn X86_REG_RAX is_64bit ;;
    (if (imms <? immr) && (n =? 0) then emit_movsx 8 X86_REG_RAX X86_REG_RAX
     else if (imms <? immr) && (n =? 1) then emit_movsx 16 X86_REG_RAX X86_REG_RAX
     else
       sar_r64_imm8 X86_REG_RAX (immr &&& 0x3f) ;;
       let mask := u64 (u64 (1 <<< (imms + 1)) - 1) in
       mov_r64_imm X86_REG_R11 mask ;;
       and_r64_r64 X86_REG_RAX X86_REG_R11) ;;
    emit_store_arm_reg X86_REG_RAX rd is_64bit) ;;
  mret ARM2X86_OK.

Definition translate_ubfm (op : Z) : translator Z :=
  let rd := op &&& 0x1f in
  let rn := (op >>> 5) &&& 0x1f in
  let imms := (op >>> 10) &&& 0x3f in
  let immr := (op >>> 16) &&& 0x3f in
  let n := (op >>> 22) &&& 1 in
  let is_64bit := n in
  record_pc ;;
  emit (
    emit_load_arm_reg rn X86_REG_RAX is_64bit ;;
    (if (imms <? immr) && (n =? 0) then emit_movzx 8 X86_REG_RAX X86_REG_RAX
     else if (imms <? immr) && (n =? 1) then emit_movzx 16 X86_REG_RAX X86_REG_RAX
     else
       shr_r64_imm8 X86_REG_RAX (immr &&& 0x3f) ;;
       let mask := u64 (u64 (1 <<< (imms + 1)) - 1) in
       mov_r64_imm X86_REG_R11 mask ;;
       and_r64_r64 X86_REG_RAX X86_REG_R11) ;;
    emit_store_arm_reg X86_REG_RAX rd is_64bit) ;;
  mret ARM2X86_OK.

Definition translate_bfi (op : Z) : translator Z :=
  let rd := op &&& 0x1f in
  let rn := (op >>> 5) &&& 0x1f in
  let imms := (op >>> 10) &&& 0x3f in
  let immr := (op >>> 16) &&& 0x3f in
  let is_64bit := (op >>> 31) &&& 1 in
  if imms <? immr then mret ARM2X86_ERR_INVALID_PARAM
  else
    let width := s32 (u32 (u32 (imms - immr) + 1)) in
    if (width <=? 0) || (64 <? width) then mret ARM2X86_ERR_INVALID_PARAM
    else
      record_pc ;;
      let mask := u64 (u64 (u64 (1 <<< width) - 1) <<< immr) in
      emit (
        emit_load_arm_reg rd X86_REG_RAX is_64bit ;;
        mov_r64_imm X86_REG_R11 (u64 (Z.lnot mask)) ;;
        and_r64_r64 X86_REG_RAX X86_REG_R11 ;;
        emit_load_arm_reg rn X86_REG_R11 is_64bit ;;
        shl_r64_imm8 X86_REG_R11 (immr &&& 0x3f) ;;
        mov_r64_imm X86_REG_RCX mask ;;
        and_r64_r64 X86_REG_R11 X86_REG_RCX ;;
        or_r64_r64 X86_REG_RAX X86_REG_R11 ;;
        emit_store_arm_reg X86_REG_RAX rd is_64bit) ;;
      mret ARM2X86_OK.

Definition translate_bfxil (op : Z) : translator Z :=
  let rd := op &&& 0x1f in
  let rn := (op >>> 5) &&& 0x1f in
  let imms := (op >>> 10) &&& 0x3f in
  let immr := (op >>> 16) &&& 0x3f in
  let is_64bit := (op >>> 31) &&& 1 in
  if imms <? immr then mret ARM2X86_ERR_INVALID_PARAM
  else
    let width := s32 (u32 (u32 (imms - immr) + 1)) in
    if (width <=? 0) || (64 <? width) then mret ARM2X86_ERR_INVALID_PARAM
    else
      record_pc ;;
      let mask := u64 (u64 (1 <<< width) - 1) in
      emit (
        emit_load_arm_reg rd X86_REG_RAX is_64bit ;;
        mov_r64_imm X86_REG_R11 (u64 (Z.lnot mask)) ;;
        and_r64_r64 X86_REG_RAX X86_REG_R11 ;;
        emit_load_arm_reg rn X86_REG_R11 is_64bit ;;
        shr_r64_imm8 X86_REG_R11 (immr &&& 0x3f) ;;
        mov_r64_imm X86_REG_RCX mask ;;
        and_r64_r64 X86_REG_R11 X86_REG_RCX ;;
        or_r64_r64 X86_REG_RAX X86_REG_R11 ;;
        emit_store_arm_reg X86_REG_RAX rd is_64bit) ;;
      mret ARM2X86_OK.

Definition translate_bfc (op : Z) : translator Z :=
  let rd := op &&& 0x1f in
  let imms := (op >>> 10) &&& 0x3f in
  let immr := (op >>> 16) &&& 0x3f in
  let is_64bit := (op >>> 31) &&& 1 in
  let width := s32 (u32 (u32 (imms - immr) + 1)) in
  record_pc ;;
  let mask := u64 (u64 (u64 (1 <<< width) - 1) <<< immr) in
  emit (
    emit_load_arm_reg rd X86_REG_RAX is_64bit ;;
    mov_r64_imm X86_REG_R11 (u64 (Z.lnot mask)) ;;
    and_r64_r64 X86_REG_RAX X86_REG_R11 ;;
    emit_store_arm_reg X86_REG_RAX rd is_64bit) ;;
  mret ARM2X86_OK.

Definition translate_ccmn (op : Z) : translator Z :=
  let rn := (op >>> 5) &&& 0x1f in
  let cond := (op >>> 12) &&& 0xf in
  let nzcv := (op >>> 0) &&& 0xf in
  let is_64bit := (op >>> 31) &&& 1 in
  let x86_cond := nth (Z.to_nat cond) arm64_to_x86_cond 0 in
  record_pc ;;
  emit (
    emit_byte 0x0f ;;
    emit_byte (0x80 ||| x86_cond) ;;
    skip ← here;
    emit_imm32 0 ;;
    emit_load_arm_reg rn X86_REG_RAX is_64bit ;;
    (if c_true is_64bit then rex_rm 0 (X86_REG_RAX >>> 3) else mret tt) ;;
    emit_byte 0xf7 ;;
    modrm 3 3 (X86_REG_RAX &&& 7) ;;
    test_r64_r64 X86_REG_RAX X86_REG_RAX ;;
    emit_byte 0xe9 ;;
    end_ ← here;
    emit_imm32 0 ;;
    cur ← here;
    let skip_off := s32 (Z.of_nat cur - Z.of_nat skip - 4) in
    poke skip 0 (skip_off &&& 0xff) ;;
    poke skip 1 ((skip_off >>> 8) &&& 0xff) ;;
    poke skip 2 ((skip_off >>> 16) &&& 0xff) ;;
    poke skip 3 ((skip_off >>> 24) &&& 0xff) ;;
    emit_byte 0x9c ;;
    emit_byte 0x58 ;;
    emit_byte 0x48 ;;
    emit_byte 0x81 ;;
    emit_byte 0xe0 ;;
    emit_imm32 (Z.lnot ((1 <<< 0) ||| (1 <<< 6) ||| (1 <<< 7) ||| (1 <<< 11))) ;;
    let rflags_bits := 0 in
    let rflags_bits := if c_true (nzcv &&& 0x8) then rflags_bits ||| (1 <<< 7) else rflags_bits in
    let rflags_bits := if c_true (nzcv &&& 0x4) then rflags_bits ||| (1 <<< 6) else rflags_bits in
    let rflags_bits := if c_true (nzcv &&& 0x2) then rflags_bits ||| (1 <<< 0) else rflags_bits in
    let rflags_bits := if c_true (nzcv &&& 0x1) then rflags_bits ||| (1 <<< 11) else rflags_bits in
    (if c_true rflags_bits then
       emit_byte 0x48 ;;
       emit_byte 0x81 ;;
       emit_byte 0xc8 ;;
       emit_imm32 rflags_bits
     else mret tt) ;;
    emit_byte 0x50 ;;
    emit_byte 0x9d ;;
    cur ← here;
    let end_off := s32 (Z.of_nat cur - Z.of_nat end_ - 4) in
    poke end_ 0 (end_off &&& 0xff) ;;
    poke end_ 1 ((end_off >>> 8) &&& 0xff) ;;
    poke end_ 2 ((end_off >>> 16) &&& 0xff) ;;
    poke end_ 3 ((end_off >>> 24) &&& 0xff)) ;;
  mret ARM2X86_OK.

Definition translate_ccmp (op : Z) : translator Z :=
  let rn := (op >>> 5) &&& 0x1f in
  let cond := (op >>> 12) &&& 0xf in
  let nzcv := (op >>> 0) &&& 0xf in
  let is_64bit := (op >>> 31) &&& 1 in
  let x86_cond := nth (Z.to_nat cond) arm64_to_x86_cond 0 in
  record_pc ;;
  emit (
    emit_byte 0x0f ;;
    emit_byte (0x80 ||| x86_cond) ;;
    skip ← here;
    emit_imm32 0 ;;
    emit_load_arm_reg rn X86_REG_RAX is_64bit ;;
    test_r64_r64 X86_REG_RAX X86_REG_RAX ;;
    emit_byte 0xe9 ;;
    end_ ← here;
    emit_imm32 0 ;;
    cur ← here;
    let skip_off := s32 (Z.of_nat cur - Z.of_nat skip - 4) in
    poke skip 0 (skip_off &&& 0xff) ;;
    poke skip 1 ((skip_off >>> 8) &&& 0xff) ;;
    poke skip 2 ((skip_off >>> 16) &&& 0xff) ;;
    poke skip 3 ((skip_off >>> 24) &&& 0xff) ;;
    emit_byte 0x9c ;;
    emit_byte 0x58 ;;
    emit_byte 0x48 ;;
    emit_byte 0x81 ;;
    emit_byte 0xe0 ;;
    emit_imm32 (Z.lnot ((1 <<< 0) ||| (1 <<< 6) ||| (1 <<< 7) ||| (1 <<< 11))) ;;
    let rflags_bits := 0 in
    let rflags_bits := if c_true (nzcv &&& 0x8) then rflags_bits ||| (1 <<< 7) else rflags_bits in
    let rflags_bits := if c_true (nzcv &&& 0x4) then rflags_bits ||| (1 <<< 6) else rflags_bits in
    let rflags_bits := if c_true (nzcv &&& 0x2) then rflags_bits ||| (1 <<< 0) else rflags_bits in
    let rflags_bits := if c_true (nzcv &&& 0x1) then rflags_bits ||| (1 <<< 11) else rflags_bits in
    (if c_true rflags_bits then
       emit_byte 0x48 ;;
       emit_byte 0x81 ;;
       emit_byte 0xc8 ;;
       emit_imm32 rflags_bits
     else mret tt) ;;
    emit_byte 0x50 ;;
    emit_byte 0x9d ;;
    cur ← here;
    let end_off := s32 (Z.of_nat cur - Z.of_nat end_ - 4) in
    poke end_ 0 (end_off &&& 0xff) ;;
    poke end_ 1 ((end_off >>> 8) &&& 0xff) ;;
    poke end_ 2 ((end_off >>> 16) &&& 0xff) ;;
    poke end_ 3 ((end_off >>> 24) &&& 0xff)) ;;
  mret ARM2X86_OK.

Definition translate_cset (op : Z) : translator Z :=
  let rd := op &&& 0x1f in
  let cond := (op >>> 12) &&& 0xf in
  let is_64bit := (op >>> 31) &&& 1 in
  let x86_cond := nth (Z.to_nat cond) arm64_to_x86_cond 0 in
  record_pc ;;
  emit (
    xor_r64_r64 X86_REG_RAX X86_REG_RAX ;;
    emit_byte 0x0f ;;
    emit_byte (0x90 ||| x86_cond) ;;
    modrm 3 0 (X86_REG_RAX &&& 7) ;;
    movzx_r64_r8 X86_REG_RAX X86_REG_RAX ;;
    emit_store_arm_reg X86_REG_RAX rd is_64bit) ;;
  mret ARM2X86_OK.

Definition translate_cinc (op : Z) : translator Z :=
  let rd := op &&& 0x1f in
  let rn := (op >>> 5) &&& 0x1f in
  let cond := (op >>> 12) &&& 0xf in
  let is_64bit := (op >>> 31) &&& 1 in
  let x86_cond := nth (Z.to_nat cond) arm64_to_x86_cond 0 in
  record_pc ;;
  emit (
    emit_load_arm_reg rn X86_REG_RAX is_64bit ;;
    emit_byte 0x0f ;;
    emit_byte (0x80 ||| x86_cond) ;;
    skip ← here;
    emit_imm32 0 ;;
    add_r64_imm8 X86_REG_RAX 1 ;;
    cur ← here;
    let off := s32 (Z.of_nat cur - Z.of_nat skip - 4) in
    poke skip 0 (off &&& 0xff) ;;
    poke skip 1 ((off >>> 8) &&& 0xff) ;;
    poke skip 2 ((off >>> 16) &&& 0xff) ;;
    poke skip 3 ((off >>> 24) &&& 0xff) ;;
    emit_store_arm_reg X86_REG_RAX rd is_64bit) ;;
  mret ARM2X86_OK.

Definition translate_cinv (op : Z) : translator Z :=
  let rd := op &&& 0x1f in
  let rn := (op >>> 5) &&& 0x1f in
  let cond := (op >>> 12) &&& 0xf in
  let is_64bit := (op >>> 31) &&& 1 in
  let x86_cond := nth (Z.to_nat cond) arm64_to_x86_cond 0 in
  record_pc ;;
  emit (
    emit_load_arm_reg rn X86_REG_RAX is_64bit ;;
    emit_byte 0x0f ;;
    emit_byte (0x80 ||| x86_cond) ;;
    skip ← here;
    emit_imm32 0 ;;
    (if c_true is_64bit then rex_rm 0 (X86_REG_RAX >>> 3) else mret tt) ;;
    emit_byte 0xf7 ;;
    modrm 3 2 (X86_REG_RAX &&& 7) ;;
    cur ← here;
    let off := s32 (Z.of_nat cur - Z.of_nat skip - 4) in
    poke skip 0 (off &&& 0xff) ;;
    poke skip 1 ((off >>> 8) &&& 0xff) ;;
    poke skip 2 ((off >>> 16) &&& 0xff) ;;
    poke skip 3 ((off >>> 24) &&& 0xff) ;;
    emit_store_arm_reg X86_REG_RAX rd is_64bit) ;;
  mret ARM2X86_OK.

Definition translate_cneg (op : Z) : translator Z :=
  let rd := op &&& 0x1f in
  let rn := (op >>> 5) &&& 0x1f in
  let cond := (op >>> 12) &&& 0xf in
  let is_64bit := (op >>> 31) &&& 1 in
  let x86_cond := nth (Z.to_nat cond) arm64_to_x86_cond 0 in
  record_pc ;;
  emit (
    emit_load_arm_reg rn X86_REG_RAX is_64bit ;;
    emit_byte 0x0f ;;
    emit_byte (0x80 ||| x86_cond) ;;
    skip ← here;
    emit_imm32 0 ;;
    (if c_true is_64bit then rex_rm 0 (X86_REG_RAX >>> 3) else mret tt) ;;
    emit_byte 0xf7 ;;
    modrm 3 3 (X86_REG_RAX &&& 7) ;;
    cur ← here;
    let off := s32 (Z.of_nat cur - Z.of_nat skip - 4) in
    poke skip 0 (off &&& 0xff) ;;
    poke skip 1 ((off >>> 8) &&& 0xff) ;;
    poke skip 2 ((off >>> 16) &&& 0xff) ;;
    poke skip 3 ((off >>> 24) &&& 0xff) ;;
    emit_store_arm_reg X86_REG_RAX rd is_64bit) ;;
  mret ARM2X86_OK.

Definition translate_sxtb (op : Z) : translator Z :=
  let rd := op &&& 0x1f in
  let rn := (op >>> 5) &&& 0x1f in
  let is_64bit := (op >>> 31) &&& 1 in
  record_pc ;;
  emit (
    emit_load_arm_reg rn X86_REG_RAX is_64bit ;;
    emit_movsx 8 X86_REG_RAX X86_REG_RAX ;;
    emit_store_arm_reg X86_REG_RAX rd is_64bit) ;;
  mret ARM2X86_OK.

Definition translate_sxth (op : Z) : translator Z :=
  let rd := op &&& 0x1f in
  let rn := (op >>> 5) &&& 0x1f in
  let is_64bit := (op >>> 31) &&& 1 in
  record_pc ;;
  emit (
    emit_load_arm_reg rn X86_REG_RAX is_64bit ;;
    emit_movsx 16 X86_REG_RAX X86_REG_RAX ;;
    emit_store_arm_reg X86_REG_RAX rd is_64bit) ;;
  mret ARM2X86_OK.

Definition translate_uxtb (op : Z) : translator Z :=
  let rd := op &&& 0x1f in
  let rn := (op >>> 5) &&& 0x1f in
  let is_64bit := (op >>> 31) &&& 1 in
  record_pc ;;
  emit (
    emit_load_arm_reg rn X86_REG_RAX is_64bit ;;
    emit_movzx 8 X86_REG_RAX X86_REG_RAX ;;
    emit_store_arm_reg X86_REG_RAX rd is_64bit) ;;
  mret ARM2X86_OK.

Definition translate_uxth (op : Z) : translator Z :=
  let rd := op &&& 0x1f in
  let rn := (op >>> 5) &&& 0x1f in
  let is_64bit := (op >>> 31) &&& 1 in
  record_pc ;;
  emit (
    emit_load_arm_reg rn X86_REG_RAX is_64bit ;;
    emit_movzx 16 X86_REG_RAX X86_REG_RAX ;;
    emit_store_arm_reg X86_REG_RAX rd is_64bit) ;;
  mret ARM2X86_OK.

Definition translate_sxtw (op : Z) : translator Z :=
  let rd := op &&& 0x1f in
  let rn := (op >>> 5) &&& 0x1f in
  record_pc ;;
  emit (
    emit_load_arm_reg rn X86_REG_RAX 0 ;;
    emit_movsxd X86_REG_RAX X86_REG_RAX ;;
    emit_store_arm_reg X86_REG_RAX rd 1) ;;
  mret ARM2X86_OK.

Definition translate_uxtw (op : Z) : translator Z :=
  let rd := op &&& 0x1f in
  let rn := (op >>> 5) &&& 0x1f in
  record_pc ;;
  emit (
    emit_load_arm_reg rn X86_REG_RAX 0 ;;
    emit_store_arm_reg X86_REG_RAX rd 1) ;;
  mret ARM2X86_OK.

Definition translate_clz (op : Z) : translator Z :=
  let rd := op &&& 0x1f in
  let rn := (op >>> 5) &&& 0x1f in
  let is_64bit := (op >>> 31) &&& 1 in
  record_pc ;;
  emit (
    emit_load_arm_reg rn X86_REG_RAX is_64bit ;;
    test_r64_r64 X86_REG_RAX X86_REG_RAX ;;
    emit_byte 0x0f ;;
    emit_byte 0x84 ;;
    zero_case ← here;
    emit_imm32 0 ;;
    rex_r X86_REG_RAX X86_REG_RAX ;;
    emit_byte 0xf3 ;;
    emit_byte 0x0f ;;
    emit_byte 0xbd ;;
    modrm 3 (X86_REG_RAX &&& 7) (X86_REG_RAX &&& 7) ;;
    end_ ← here;
    emit_byte 0xe9 ;;
    emit_imm32 0 ;;
    cur ← here;
    let zero_off := s32 (Z.of_nat cur - Z.of_nat zero_case - 4) in
    poke zero_case 0 (zero_off &&& 0xff) ;;
    poke zero_case 1 ((zero_off >>> 8) &&& 0xff) ;;
    poke zero_case 2 ((zero_off >>> 16) &&& 0xff) ;;
    poke zero_case 3 ((zero_off >>> 24) &&& 0xff) ;;
    mov_r64_imm X86_REG_RAX (if c_true is_64bit then 64 else 32) ;;
    cur ← here;
    let end_off := s32 (Z.of_nat cur - Z.of_nat end_ - 4) in
    poke end_ 0 (end_off &&& 0xff) ;;
    poke end_ 1 ((end_off >>> 8) &&& 0xff) ;;
    poke end_ 2 ((end_off >>> 16) &&& 0xff) ;;
    poke end_ 3 ((end_off >>> 24) &&& 0xff) ;;
    emit_store_arm_reg X86_REG_RAX rd is_64bit) ;;
  mret ARM2X86_OK.

Definition translate_rbit (op : Z) : translator Z :=
  let rd := op &&& 0x1f in
  let rn := (op >>> 5) &&& 0x1f in
  let is64 := (op >>> 31) &&& 1 in
  record_pc ;;
  emit (
    emit_load_arm_reg rn X86_REG_RAX is64 ;;
    mov_r64_imm X86_REG_R11 (if c_true is64 then 0x5555555555555555 else 0x55555555) ;;
    emit_byte 0x48 ;;
    emit_byte 0x89 ;;
    modrm 3 (X86_REG_RDX &&& 7) (X86_REG_RAX &&& 7) ;;
    and_r64_r64 X86_REG_RAX X86_REG_R11 ;;
    shl_r64_imm8 X86_REG_RAX 1 ;;
    shr_r64_imm8 X86_REG_RDX 1 ;;
    and_r64_r64 X86_REG_RDX X86_REG_R11 ;;
    or_r64_r64 X86_REG_RAX X86_REG_RDX ;;
    mov_r64_imm X86_REG_R11 (if c_true is64 then 0x3333333333333333 else 0x33333333) ;;
    emit_byte 0x48 ;;
    emit_byte 0x89 ;;
    modrm 3 (X86_REG_RDX &&& 7) (X86_REG_RAX &&& 7) ;;
    and_r64_r64 X86_REG_RAX X86_REG_R11 ;;
    shl_r64_imm8 X86_REG_RAX 2 ;;
    shr_r64_imm8 X86_REG_RDX 2 ;;
    and_r64_r64 X86_REG_RDX X86_REG_R11 ;;
    or_r64_r64 X86_REG_RAX X86_REG_RDX ;;
    mov_r64_imm X86_REG_R11 (if c_true is64 then 0x0F0F0F0F0F0F0F0F else 0x0F0F0F0F) ;;
    emit_byte 0x48 ;;
    emit_byte 0x89 ;;
    modrm 3 (X86_REG_RDX &&& 7) (X86_REG_RAX &&& 7) ;;
    and_r64_r64 X86_REG_RAX X86_REG_R11 ;;
    shl_r64_imm8 X86_REG_RAX 4 ;;
    shr_r64_imm8 X86_REG_RDX 4 ;;
    and_r64_r64 X86_REG_RDX X86_REG_R11 ;;
    or_r64_r64 X86_REG_RAX X86_REG_RDX ;;
    emit_bswap X86_REG_RAX ;;
    (if negb (c_true is64) then
       rex_rm 0 (X86_REG_RAX >>> 3) ;;
       emit_byte 0x89 ;;
       modrm 3 (X86_REG_RAX &&& 7) (X86_REG_RAX &&& 7)
     else mret tt) ;;
    emit_store_arm_reg X86_REG_RAX rd is64) ;;
  mret ARM2X86_OK.

Definition translate_rev (op : Z) : translator Z :=
  let rd := op &&& 0x1f in
  let rn := (op >>> 5) &&& 0x1f in
  let is_64bit := (op >>> 31) &&& 1 in
  record_pc ;;
  emit (
    emit_load_arm_reg rn X86_REG_RAX is_64bit ;;
    emit_bswap X86_REG_RAX ;;
    emit_store_arm_reg X86_REG_RAX rd is_64bit) ;;
  mret ARM2X86_OK.

Definition translate_ldr_literal (op : Z) : translator Z :=
  arm_cur ← gets arm64_cur;
  let rt := op &&& 0x1f in
  let imm := arm2x86_sign_extend (((op >>> 5) &&& 0xfffff) <<< 2) 21 in
  let arm_addr := u64 (arm_cur + u64 imm) in
  let is64 := (op >>> 30) &&& 1 in
  record_pc ;;
  emit (
    mov_r64_imm X86_REG_RAX arm_addr ;;
    (if c_true is64 then
       rex_r 1 (X86_REG_R11 >>> 3) ;;
       emit_byte 0x8b ;;
       modrm 0 (X86_REG_R11 &&& 7) (X86_REG_RAX &&& 7)
     else
       emit_byte 0x8b ;;
       modrm 0 (X86_REG_R11 &&& 7) (X86_REG_RAX &&& 7)) ;;
    emit_store_arm_reg X86_REG_R11 rt is64) ;;
  mret ARM2X86_OK.

Definition translate_ldrb_strb (op is_load : Z) : translator Z :=
  let rt := op &&& 0x1f in
  let rn := (op >>> 5) &&& 0x1f in
  let imm := op &&& 0xfff in
  let is_64bit := (op >>> 31) &&& 1 in
  record_pc ;;
  emit (
    emit_load_arm_reg rn X86_REG_RAX 1 ;;
    if c_true is_load then
      rex_r 0 X86_REG_RAX ;;
      emit_byte 0x0f ;;
      emit_byte 0xb6 ;;
      emit_modrm_disp (X86_REG_R11 &&& 7) X86_REG_RAX imm ;;
      emit_store_arm_reg X86_REG_R11 rt is_64bit
    else
      emit_load_arm_reg rt X86_REG_R11 0 ;;
      rex_r 0 X86_REG_RAX ;;
      emit_byte 0x88 ;;
      emit_modrm_disp (X86_REG_R11 &&& 7) X86_REG_RAX imm) ;;
  mret ARM2X86_OK.

Definition translate_ldrh_strh (op is_load : Z) : translator Z :=
  let rt := op &&& 0x1f in
  let rn := (op >>> 5) &&& 0x1f in
  let imm := op &&& 0xfff in
  let is_64bit := (op >>> 31) &&& 1 in
  record_pc ;;
  emit (
    emit_load_arm_reg rn X86_REG_RAX 1 ;;
    if c_true is_load then
      rex_r 0 X86_REG_RAX ;;
      emit_byte 0x0f ;;
      emit_byte 0xb7 ;;
      emit_modrm_disp (X86_REG_R11 &&& 7) X86_REG_RAX imm ;;
      emit_store_arm_reg X86_REG_R11 rt is_64bit
    else
      emit_load_arm_reg rt X86_REG_R11 0 ;;
      rex_r 0 X86_REG_RAX ;;
      emit_byte 0x66 ;;
      emit_byte 0x89 ;;
      emit_modrm_disp (X86_REG_R11 &&& 7) X86_REG_RAX imm) ;;
  mret ARM2X86_OK.

Definition translate_ldrsb (op : Z) : translator Z :=
  let rt := op &&& 0x1f in
  let rn := (op >>> 5) &&& 0x1f in
  let imm := op &&& 0xfff in
  let is_64bit := (op >>> 31) &&& 1 in
  record_pc ;;
  emit (
    emit_load_arm_reg rn X86_REG_RAX 1 ;;
    rex_r 1 X86_REG_RAX ;;
    emit_byte 0x0f ;;
    emit_byte 0xbe ;;
    emit_modrm_disp (X86_REG_R11 &&& 7) X86_REG_RAX imm ;;
    emit_store_arm_reg X86_REG_R11 rt is_64bit) ;;
  mret ARM2X86_OK.

Definition translate_ldrsh (op : Z) : translator Z :=
  let rt := op &&& 0x1f in
  let rn := (op >>> 5) &&& 0x1f in
  let imm := op &&& 0xfff in
  let is_64bit := (op >>> 31) &&& 1 in
  record_pc ;;
  emit (
    emit_load_arm_reg rn X86_REG_RAX 1 ;;
    rex_r 1 X86_REG_RAX ;;
    emit_byte 0x0f ;;
    emit_byte 0xbf ;;
    emit_modrm_disp (X86_REG_R11 &&& 7) X86_REG_RAX imm ;;
    emit_store_arm_reg X86_REG_R11 rt is_64bit) ;;
  mret ARM2X86_OK.

Definition translate_ldrsw (op : Z) : translator Z :=
  let rt := op &&& 0x1f in
  let rn := (op >>> 5) &&& 0x1f in
  let imm := op &&& 0xfff in
  record_pc ;;
  emit (
    emit_load_arm_reg rn X86_REG_RAX 1 ;;
    rex_r 1 X86_REG_RAX ;;
    emit_byte 0x63 ;;
    emit_modrm_disp (X86_REG_R11 &&& 7) X86_REG_RAX imm ;;
    emit_store_arm_reg X86_REG_R11 rt 1) ;;
  mret ARM2X86_OK.

Definition translate_prfm (op : Z) : translator Z :=
  let rt := op &&& 0x1f in
  let rn := (op >>> 5) &&& 0x1f in
  let option := (op >>> 13) &&& 0x7 in
  let imm := 0 in
  let imm9 := (op >>> 10) &&& 0x1ff in
  let imm := if c_true (imm9 &&& 0x100) then imm9 - 0x200 else imm9 in
  let prefetch_type := (rt >>> 3) &&& 0x3 in
  let prefetch_target := rt &&& 0x7 in
  record_pc ;;
  emit (
    emit_load_arm_reg rn X86_REG_RAX 1 ;;
    (if negb (imm =? 0) then
       rex 1 0 0 (X86_REG_R11 >>> 3) ;;
       emit_byte 0x8d ;;
       emit_modrm_disp (X86_REG_R11 &&& 7) X86_REG_RAX imm
     else mret tt) ;;
    let base_reg := if negb (imm =? 0) then X86_REG_R11 else X86_REG_RAX in
    if (prefetch_type =? 0) || (prefetch_type =? 2) then
      if prefetch_target <=? 1 then
        emit_byte 0x0f ;;
        emit_byte 0x18 ;;
        modrm 0 0 (base_reg &&& 7)
      else if prefetch_target <=? 3 then
        emit_byte 0x0f ;;
        emit_byte 0x18 ;;
        modrm 0 1 (base_reg &&& 7)
      else if prefetch_target <=? 5 then
        emit_byte 0x0f ;;
        emit_byte 0x18 ;;
        modrm 0 2 (base_reg &&& 7)
      else
        emit_byte 0x0f ;;
        emit_byte 0x18 ;;
        modrm 0 3 (base_reg &&& 7)
    else if prefetch_type =? 1 then
      emit_byte 0x0f ;;
      emit_byte 0x18 ;;
      modrm 0 0 (base_reg &&& 7)
    else emit_byte 0x90) ;;
  mret ARM2X86_OK.

Definition translate_fadd (op : Z) : translator Z :=
  let rd := op &&& 0x1f in
  let rn := (op >>> 5) &&& 0x1f in
  let rm := (op >>> 16) &&& 0x1f in
  let is_double := (op >>> 22) &&& 1 in
  record_pc ;;
  emit (
    emit_load_arm_reg_fp rn X86_REG_XMM0 is_double ;;
    emit_load_arm_reg_fp rm X86_REG_XMM1 is_double ;;
    (if c_true is_double then emit_addsd_xmm_xmm X86_REG_XMM0 X86_REG_XMM1
     else
       emit_byte 0xf3 ;;
       emit_byte 0x0f ;;
       emit_byte 0x58 ;;
       modrm 3 (X86_REG_XMM0 &&& 7) (X86_REG_XMM1 &&& 7)) ;;
    emit_store_arm_reg_fp X86_REG_XMM0 rd is_double) ;;
  mret ARM2X86_OK.

Definition translate_fsub (op : Z) : translator Z :=
  let rd := op &&& 0x1f in
  let rn := (op >>> 5) &&& 0x1f in
  let rm := (op >>> 16) &&& 0x1f in
  let is_double := (op >>> 22) &&& 1 in
  record_pc ;;
  emit (
    emit_load_arm_reg_fp rn X86_REG_XMM0 is_double ;;
    emit_load_arm_reg_fp rm X86_REG_XMM1 is_double ;;
    (if c_true is_double then emit_subsd_xmm_xmm X86_REG_XMM0 X86_REG_XMM1
     else
       emit_byte 0xf3 ;;
       emit_byte 0x0f ;;
       emit_byte 0x5c ;;
       modrm 3 (X86_REG_XMM0 &&& 7) (X86_REG_XMM1 &&& 7)) ;;
    emit_store_arm_reg_fp X86_REG_XMM0 rd is_double) ;;
  mret ARM2X86_OK.

Definition translate_fmul (op : Z) : translator Z :=
  let rd := op &&& 0x1f in
  let rn := (op >>> 5) &&& 0x1f in
  let rm := (op >>> 16) &&& 0x1f in
  let is_double := (op >>> 22) &&& 1 in
  record_pc ;;
  emit (
    emit_load_arm_reg_fp rn X86_REG_XMM0 is_double ;;
    emit_load_arm_reg_fp rm X86_REG_XMM1 is_double ;;
    (if c_true is_double then emit_mulsd_xmm_xmm X86_REG_XMM0 X86_REG_XMM1
     else
       emit_byte 0xf3 ;;
       emit_byte 0x0f ;;
       emit_byte 0x59 ;;
       modrm 3 (X86_REG_XMM0 &&& 7) (X86_REG_XMM1 &&& 7)) ;;
    emit_store_arm_reg_fp X86_REG_XMM0 rd is_double) ;;
  mret ARM2X86_OK.

Definition translate_fdiv (op : Z) : translator Z :=
  let rd := op &&& 0x1f in
  let rn := (op >>> 5) &&& 0x1f in
  let rm := (op >>> 16) &&& 0x1f in
  let is_double := (op >>> 22) &&& 1 in
  record_pc ;;
  emit (
    emit_load_arm_reg_fp rn X86_REG_XMM0 is_double ;;
    emit_load_arm_reg_fp rm X86_REG_XMM1 is_double ;;
    (if c_true is_double then emit_divsd_xmm_xmm X86_REG_XMM0 X86_REG_XMM1
     else
       emit_byte 0xf3 ;;
       emit_byte 0x0f ;;
       emit_byte 0x5e ;;
       modrm 3 (X86_REG_XMM0 &&& 7) (X86_REG_XMM1 &&& 7)) ;;
    emit_store_arm_reg_fp X86_REG_XMM0 rd is_double) ;;
  mret ARM2X86_OK.

Definition translate_fcmp (op : Z) : translator Z :=
  let rn := (op >>> 5) &&& 0x1f in
  let rm := (op >>> 16) &&& 0x1f in
  let is_double := (op >>> 22) &&& 1 in
  record_pc ;;
  emit (
    emit_load_arm_reg_fp rn X86_REG_XMM0 is_double ;;
    emit_load_arm_reg_fp rm X86_REG_XMM1 is_double ;;
    comisd_xmm_xmm X86_REG_XMM0 X86_REG_XMM1) ;;
  mret ARM2X86_OK.

Definition translate_fcvt (op : Z) : translator Z :=
  let rd := op &&& 0x1f in
  let rn := (op >>> 5) &&& 0x1f in
  let src_is_double := b2z (((op >>> 22) &&& 3) =? 1) in
  let dst_is_double := b2z (((op >>> 29) &&& 3) =? 1) in
  record_pc ;;
  emit (
    emit_load_arm_reg_fp rn X86_REG_XMM0 src_is_double ;;
    if negb (c_true src_is_double) && c_true dst_is_double then
      emit_cvtss2sd X86_REG_XMM0 X86_REG_XMM0 ;;
      emit_store_arm_reg_fp X86_REG_XMM0 rd 1
    else if c_true src_is_double && negb (c_true dst_is_double) then
      emit_cvtsd2ss X86_REG_XMM0 X86_REG_XMM0 ;;
      emit_store_arm_reg_fp X86_REG_XMM0 rd 0
    else mret tt) ;;
  mret ARM2X86_OK.

Definition translate_fsqrt (op : Z) : translator Z :=
  let rd := op &&& 0x1f in
  let rn := (op >>> 5) &&& 0x1f in
  let is_double := (op >>> 22) &&& 1 in
  record_pc ;;
  emit (
    emit_load_arm_reg_fp rn X86_REG_XMM0 is_double ;;
    (if c_true is_double then emit_sqrtsd_xmm_xmm X86_REG_XMM0 X86_REG_XMM0
     else
       emit_byte 0xf3 ;;
       emit_byte 0x0f ;;
       emit_byte 0x51 ;;
       modrm 3 (X86_REG_XMM0 &&& 7) (X86_REG_XMM0 &&& 7)) ;;
    emit_store_arm_reg_fp X86_REG_XMM0 rd is_double) ;;
  mret ARM2X86_OK.

Definition translate_fabs (op : Z) : translator Z :=
  let rd := op &&& 0x1f in
  let rn := (op >>> 5) &&& 0x1f in
  let is_double := (op >>> 22) &&& 1 in
  record_pc ;;
  emit (
    emit_load_arm_reg_fp rn X86_REG_XMM0 is_double ;;
    (if c_true is_double then
       emit_byte 0x66 ;;
       emit_byte 0x48 ;;
       emit_byte 0x0f ;;
       emit_byte 0x7e ;;
       modrm 3 (X86_REG_R11 &&& 7) (X86_REG_XMM0 &&& 7) ;;
       mov_r64_imm X86_REG_RCX 0x7fffffffffffffff ;;
       and_r64_r64 X86_REG_R11 X86_REG_RCX ;;
       emit_byte 0x66 ;;
       emit_byte 0x48 ;;
       emit_byte 0x0f ;;
       emit_byte 0x6e ;;
       modrm 3 (X86_REG_XMM0 &&& 7) (X86_REG_R11 &&& 7)
     else
       emit_byte 0x66 ;;
       emit_byte 0x0f ;;
       emit_byte 0x7e ;;
       modrm 3 (X86_REG_R11 &&& 7) (X86_REG_XMM0 &&& 7) ;;
       mov_r64_imm X86_REG_RCX 0x7fffffff ;;
       and_r64_r64 X86_REG_R11 X86_REG_RCX ;;
       emit_byte 0x66 ;;
       emit_byte 0x0f ;;
       emit_byte 0x6e ;;
       modrm 3 (X86_REG_XMM0 &&& 7) (X86_REG_R11 &&& 7)) ;;
    emit_store_arm_reg_fp X86_REG_XMM0 rd is_double) ;;
  mret ARM2X86_OK.

Definition translate_fneg (op : Z) : translator Z :=
  let rd := op &&& 0x1f in
  let rn := (op >>> 5) &&& 0x1f in
  let is_double := (op >>> 22) &&& 1 in
  record_pc ;;
  emit (
    emit_load_arm_reg_fp rn X86_REG_XMM0 is_double ;;
    (if c_true is_double then
       emit_byte 0x66 ;;
       emit_byte 0x48 ;;
       emit_byte 0x0f ;;
       emit_byte 0x7e ;;
       modrm 3 (X86_REG_R11 &&& 7) (X86_REG_XMM0 &&& 7) ;;
       mov_r64_imm X86_REG_RCX 0x8000000000000000 ;;
       xor_r64_r64 X86_REG_R11 X86_REG_RCX ;;
       emit_byte 0x66 ;;
       emit_byte 0x48 ;;
       emit_byte 0x0f ;;
       emit_byte 0x6e ;;
       modrm 3 (X86_REG_XMM0 &&& 7) (X86_REG_R11 &&& 7)
     else
       emit_byte 0x66 ;;
       emit_byte 0x0f ;;
       emit_byte 0x7e ;;
       modrm 3 (X86_REG_R11 &&& 7) (X86_REG_XMM0 &&& 7) ;;
       mov_r64_imm X86_REG_RCX 0x80000000 ;;
       xor_r64_r64 X86_REG_R11 X86_REG_RCX ;;
       emit_byte 0x66 ;;
       emit_byte 0x0f ;;
       emit_byte 0x6e ;;
       modrm 3 (X86_REG_XMM0 &&& 7) (X86_REG_R11 &&& 7)) ;;
    emit_store_arm_reg_fp X86_REG_XMM0 rd is_double) ;;
  mret ARM2X86_OK.

Definition translate_fmadd (op : Z) : translator Z :=
  let rd := op &&& 0x1f in
  let rn := (op >>> 5) &&& 0x1f in
  let rm := (op >>> 16) &&& 0x1f in
  let ra := (op >>> 10) &&& 0x1f in
  let is_double := (op >>> 22) &&& 1 in
  record_pc ;;
  emit (
    emit_load_arm_reg_fp ra X86_REG_XMM0 is_double ;;
    emit_load_arm_reg_fp rn X86_REG_XMM1 is_double ;;
    emit_load_arm_reg_fp rm X86_REG_XMM2 is_double ;;
    (if c_true is_double then
       emit_mulsd_xmm_xmm X86_REG_XMM1 X86_REG_XMM2 ;;
       emit_addsd_xmm_xmm X86_REG_XMM0 X86_REG_XMM1
     else
       emit_byte 0xf3 ;;
       emit_byte 0x0f ;;
       emit_byte 0x59 ;;
       modrm 3 (X86_REG_XMM1 &&& 7) (X86_REG_XMM2 &&& 7) ;;
       emit_byte 0xf3 ;;
       emit_byte 0x0f ;;
       emit_byte 0x58 ;;
       modrm 3 (X86_REG_XMM0 &&& 7) (X86_REG_XMM1 &&& 7)) ;;
    emit_store_arm_reg_fp X86_REG_XMM0 rd is_double) ;;
  mret ARM2X86_OK.

Definition translate_fmsub (op : Z) : translator Z :=
  let rd := op &&& 0x1f in
  let rn := (op >>> 5) &&& 0x1f in
  let rm := (op >>> 16) &&& 0x1f in
  let ra := (op >>> 10) &&& 0x1f in
  let is_double := (op >>> 22) &&& 1 in
  record_pc ;;
  emit (
    emit_load_arm_reg_fp ra X86_REG_XMM0 is_double ;;
    emit_load_arm_reg_fp rn X86_REG_XMM1 is_double ;;
    emit_load_arm_reg_fp rm X86_REG_XMM2 is_double ;;
    (if c_true is_double then
       emit_mulsd_xmm_xmm X86_REG_XMM1 X86_REG_XMM2 ;;
       emit_subsd_xmm_xmm X86_REG_XMM0 X86_REG_XMM1
     else
       emit_byte 0xf3 ;;
       emit_byte 0x0f ;;
       emit_byte 0x59 ;;
       modrm 3 (X86_REG_XMM1 &&& 7) (X86_REG_XMM2 &&& 7) ;;
       emit_byte 0xf3 ;;
       emit_byte 0x0f ;;
       emit_byte 0x5c ;;
       modrm 3 (X86_REG_XMM0 &&& 7) (X86_REG_XMM1 &&& 7)) ;;
    emit_store_arm_reg_fp X86_REG_XMM0 rd is_double) ;;
  mret ARM2X86_OK.

Definition translate_ldaxr (op : Z) : translator Z :=
  let rt := op &&& 0x1f in
  let rn := (op >>> 5) &&& 0x1f in
  let is64 := (op >>> 30) &&& 1 in
  record_pc ;;
  emit (
    emit_load_arm_reg rn X86_REG_RAX 1 ;;
    emit_lock ;;
    rex_r 0 X86_REG_RAX ;;
    emit_byte 0x8b ;;
    modrm 0 (X86_REG_R11 &&& 7) (X86_REG_RAX &&& 7) ;;
    emit_store_arm_reg X86_REG_R11 rt is64) ;;
  mret ARM2X86_OK.

Definition translate_stlxr (op : Z) : translator Z :=
  let rt := op &&& 0x1f in
  let rn := (op >>> 5) &&& 0x1f in
  let rs := (op >>> 16) &&& 0x1f in
  let is64 := (op >>> 30) &&& 1 in
  record_pc ;;
  emit (
    emit_load_arm_reg rn X86_REG_RAX 1 ;;
    emit_load_arm_reg rs X86_REG_R11 is64 ;;
    emit_byte 0xf0 ;;
    (if c_true is64 then rex 1 (X86_REG_R11 >>> 3) 0 (X86_REG_RAX >>> 3)
     else rex 0 (X86_REG_R11 >>> 3) 0 (X86_REG_RAX >>> 3)) ;;
    emit_byte 0x0f ;;
    emit_byte 0xb1 ;;
    modrm 0 (X86_REG_R11 &&& 7) (X86_REG_RAX &&& 7) ;;
    emit_byte 0x0f ;;
    emit_byte 0x95 ;;
    modrm 3 0 (X86_REG_RAX &&& 7) ;;
    (if negb (c_true is64) then movzx_r64_r8 X86_REG_RAX X86_REG_RAX else mret tt) ;;
    emit_store_arm_reg X86_REG_RAX rt 1) ;;
  mret ARM2X86_OK.

Definition translate_cas (op : Z) : translator Z :=
  let rt := op &&& 0x1f in
  let rn := (op >>> 5) &&& 0x1f in
  let rm := (op >>> 16) &&& 0x1f in
  let is_64bit := (op >>> 31) &&& 1 in
  record_pc ;;
  emit (
    emit_load_arm_reg rn X86_REG_RAX 1 ;;
    emit_load_arm_reg rt X86_REG_R11 is_64bit ;;
    emit_byte 0x50 ;;
    mov_r64_r64 X86_REG_RAX X86_REG_R11 ;;
    emit_lock ;;
    emit_load_arm_reg rm X86_REG_R11 is_64bit ;;
    rex 1 (X86_REG_R11 >>> 3) 0 (X86_REG_RAX >>> 3) ;;
    emit_byte 0x0f ;;
    emit_byte 0xb1 ;;
    modrm 0 (X86_REG_R11 &&& 7) (X86_REG_RAX &&& 7) ;;
    emit_byte 0x58 ;;
    emit_byte 0x58 ;;
    emit_store_arm_reg X86_REG_RAX rt is_64bit) ;;
  mret ARM2X86_OK.

Definition translate_ldadd (op : Z) : translator Z :=
  let rt := op &&& 0x1f in
  let rn := (op >>> 5) &&& 0x1f in
  let rm := (op >>> 16) &&& 0x1f in
  let is_64bit := (op >>> 31) &&& 1 in
  record_pc ;;
  emit (
    emit_load_arm_reg rn X86_REG_RAX 1 ;;
    emit_load_arm_reg rm X86_REG_R11 is_64bit ;;
    emit_byte 0xf0 ;;
    rex 1 0 (X86_REG_R11 >>> 3) (X86_REG_RAX >>> 3) ;;
    emit_byte 0x0f ;;
    emit_byte 0xc1 ;;
    modrm 0 (X86_REG_R11 &&& 7) (X86_REG_RAX &&& 7) ;;
    emit_store_arm_reg X86_REG_R11 rt is_64bit) ;;
  mret ARM2X86_OK.

Definition translate_ldclr (op : Z) : translator Z :=
  let rt := op &&& 0x1f in
  let rn := (op >>> 5) &&& 0x1f in
  let rm := (op >>> 16) &&& 0x1f in
  let is_64bit := (op >>> 31) &&& 1 in
  record_pc ;;
  let tmp := X86_REG_R11 in
  let old := X86_REG_RCX in
  emit (
    emit_load_arm_reg rn X86_REG_RAX 1 ;;
    emit_load_arm_reg rm X86_REG_RDX is_64bit ;;
    emit_byte 0x50 ;;
    emit_byte 0x51 ;;
    loop_start ← here;
    rex 1 0 (old >>> 3) (X86_REG_RAX >>> 3) ;;
    emit_byte 0x8b ;;
    modrm 0 (old &&& 7) (X86_REG_RAX &&& 7) ;;
    mov_r64_r64 tmp old ;;
    and_r64_r64 tmp X86_REG_RDX ;;
    mov_r64_r64 X86_REG_RAX old ;;
    emit_byte 0xf0 ;;
    rex 1 0 (tmp >>> 3) (X86_REG_RAX >>> 3) ;;
    emit_byte 0x0f ;;
    emit_byte 0xb1 ;;
    modrm 0 (tmp &&& 7) (X86_REG_RAX &&& 7) ;;
    cur ← here;
    let loop_offset := s32 (Z.of_nat cur - Z.of_nat loop_start) in
    emit_byte 0x75 ;;
    emit_byte (s32 (- loop_offset) &&& 0xff) ;;
    emit_store_arm_reg old rt is_64bit ;;
    emit_byte 0x59 ;;
    emit_byte 0x58) ;;
  mret ARM2X86_OK.

Definition translate_ldeor (op : Z) : translator Z :=
  let rt := op &&& 0x1f in
  let rn := (op >>> 5) &&& 0x1f in
  let rm := (op >>> 16) &&& 0x1f in
  let is_64bit := (op >>> 31) &&& 1 in
  record_pc ;;
  let tmp := X86_REG_R11 in
  let old := X86_REG_RCX in
  emit (
    emit_load_arm_reg rn X86_REG_RAX 1 ;;
    emit_load_arm_reg rm X86_REG_RDX is_64bit ;;
    emit_byte 0x50 ;;
    emit_byte 0x51 ;;
    loop_start ← here;
    rex 1 0 (old >>> 3) (X86_REG_RAX >>> 3) ;;
    emit_byte 0x8b ;;
    modrm 0 (old &&& 7) (X86_REG_RAX &&& 7) ;;
    mov_r64_r64 tmp old ;;
    xor_r64_r64 tmp X86_REG_RDX ;;
    mov_r64_r64 X86_REG_RAX old ;;
    emit_byte 0xf0 ;;
    rex 1 0 (tmp >>> 3) (X86_REG_RAX >>> 3) ;;
    emit_byte 0x0f ;;
    emit_byte 0xb1 ;;
    modrm 0 (tmp &&& 7) (X86_REG_RAX &&& 7) ;;
    cur ← here;
    let loop_offset := s32 (Z.of_nat cur - Z.of_nat loop_start) in
    emit_byte 0x75 ;;
    emit_byte (s32 (- loop_offset) &&& 0xff) ;;
    emit_store_arm_reg old rt is_64bit ;;
    emit_byte 0x59 ;;
    emit_byte 0x58) ;;
  mret ARM2X86_OK.

Definition translate_ldset (op : Z) : translator Z :=
  let rt := op &&& 0x1f in
  let rn := (op >>> 5) &&& 0x1f in
  let rm := (op >>> 16) &&& 0x1f in
  let is_64bit := (op >>> 31) &&& 1 in
  record_pc ;;
  let tmp := X86_REG_R11 in
  let old := X86_REG_RCX in
  emit (
    emit_load_arm_reg rn X86_REG_RAX 1 ;;
    emit_load_arm_reg rm X86_REG_RDX is_64bit ;;
    emit_byte 0x50 ;;
    emit_byte 0x51 ;;
    loop_start ← here;
    rex 1 0 (old >>> 3) (X86_REG_RAX >>> 3) ;;
    emit_byte 0x8b ;;
    modrm 0 (old &&& 7) (X86_REG_RAX &&& 7) ;;
    mov_r64_r64 tmp old ;;
    or_r64_r64 tmp X86_REG_RDX ;;
    mov_r64_r64 X86_REG_RAX old ;;
    emit_byte 0xf0 ;;
    rex 1 0 (tmp >>> 3) (X86_REG_RAX >>> 3) ;;
    emit_byte 0x0f ;;
    emit_byte 0xb1 ;;
    modrm 0 (tmp &&& 7) (X86_REG_RAX &&& 7) ;;
    cur ← here;
    let loop_offset := s32 (Z.of_nat cur - Z.of_nat loop_start) in
    emit_byte 0x75 ;;
    emit_byte (s32 (- loop_offset) &&& 0xff) ;;
    emit_store_arm_reg old rt is_64bit ;;
    emit_byte 0x59 ;;
    emit_byte 0x58) ;;
  mret ARM2X86_OK.

Definition translate_swp (op : Z) : translator Z :=
  let rt := op &&& 0x1f in
  let rn := (op >>> 5) &&& 0x1f in
  let rm := (op >>> 16) &&& 0x1f in
  let is_64bit := (op >>> 31) &&& 1 in
  record_pc ;;
  emit (
    emit_load_arm_reg rn X86_REG_RAX 1 ;;
    emit_load_arm_reg rm X86_REG_R11 is_64bit ;;
    rex 1 0 (X86_REG_R11 >>> 3) (X86_REG_RAX >>> 3) ;;
    emit_byte 0x87 ;;
    modrm 0 (X86_REG_R11 &&& 7) (X86_REG_RAX &&& 7) ;;
    emit_store_arm_reg X86_REG_R11 rt is_64bit) ;;
  mret ARM2X86_OK.

Definition translate_orn (op : Z) : translator Z :=
  let rd := op &&& 0x1f in
  let rn := (op >>> 5) &&& 0x1f in
  let rm := (op >>> 16) &&& 0x1f in
  let is_64bit := (op >>> 31) &&& 1 in
  record_pc ;;
  emit (
    emit_load_arm_reg rn X86_REG_RAX is_64bit ;;
    emit_load_arm_reg rm X86_REG_R11 is_64bit ;;
    (if c_true is_64bit then rex_rm 0 (X86_REG_R11 >>> 3) else mret tt) ;;
    emit_byte 0xf7 ;;
    modrm 3 2 (X86_REG_R11 &&& 7) ;;
    or_r64_r64 X86_REG_RAX X86_REG_R11 ;;
    emit_store_arm_reg X86_REG_RAX rd is_64bit) ;;
  mret ARM2X86_OK.

Definition translate_hint (op : Z) : translator Z :=
  let crm := (op >>> 8) &&& 0xf in
  let op2 := (op >>> 5) &&& 0x7 in
  emit (
    if crm =? 0 then
      if op2 =? 0 then emit_byte 0x90
      else if op2 =? 1 then
        emit_byte 0xf3 ;;
        emit_byte 0x90
      else if op2 =? 2 then
        emit_byte 0xf3 ;;
        emit_byte 0x90
      else if op2 =? 3 then
        emit_byte 0xf3 ;;
        emit_byte 0x90
      else if op2 =? 4 then emit_byte 0x90 else emit_byte 0x90
    else if crm =? 1 then if op2 =? 0 then emit_byte 0xcc else emit_byte 0x90
    else if crm =? 2 then
      emit_byte 0x0f ;;
      emit_byte 0xae ;;
      emit_byte 0xe8
    else emit_byte 0x90) ;;
  mret ARM2X86_OK.

Definition translate_crc32 (op : Z) : translator Z :=
  let rd := op &&& 0x1f in
  let rn := (op >>> 5) &&& 0x1f in
  let rm := (op >>> 16) &&& 0x1f in
  let is_64bit := (op >>> 31) &&& 1 in
  let is_crc32c := b2z (4 <=? ((op >>> 10) &&& 0x7)) in
  record_pc ;;
  emit (
    if c_true is_crc32c then
      emit_load_arm_reg rn X86_REG_RAX is_64bit ;;
      emit_load_arm_reg rm X86_REG_R11 is_64bit ;;
      rex_r X86_REG_RAX X86_REG_RAX ;;
      emit_byte 0xf2 ;;
      emit_byte 0x0f ;;
      emit_byte 0x38 ;;
      emit_byte 0xf0 ;;
      modrm 3 (X86_REG_RAX &&& 7) (X86_REG_R11 &&& 7) ;;
      emit_store_arm_reg X86_REG_RAX rd is_64bit
    else
      emit_load_arm_reg rn X86_REG_RAX is_64bit ;;
      emit_store_arm_reg X86_REG_RAX rd is_64bit) ;;
  mret ARM2X86_OK.

Definition translate_aese (op : Z) : translator Z :=
  let rd := op &&& 0x1f in
  let rn := (op >>> 5) &&& 0x1f in
  record_pc ;;
  emit (
    emit_load_arm_reg_fp rn X86_REG_XMM0 1 ;;
    emit_byte 0x66 ;; emit_byte 0x0f ;;
    emit_byte 0x38 ;; emit_byte 0xdb ;;
    modrm 3 (X86_REG_XMM0 &&& 7) (X86_REG_XMM0 &&& 7) ;;
    emit_store_arm_reg_fp X86_REG_XMM0 rd 1) ;;
  mret ARM2X86_OK.

Definition translate_aesd (op : Z) : translator Z :=
  let rd := op &&& 0x1f in
  let rn := (op >>> 5) &&& 0x1f in
  record_pc ;;
  emit (
    emit_load_arm_reg_fp rn X86_REG_XMM0 1 ;;
    emit_byte 0x66 ;; emit_byte 0x0f ;;
    emit_byte 0x38 ;; emit_byte 0xde ;;
    modrm 3 (X86_REG_XMM0 &&& 7) (X86_REG_XMM0 &&& 7) ;;
    emit_store_arm_reg_fp X86_REG_XMM0 rd 1) ;;
  mret ARM2X86_OK.

Definition translate_aesmc (op : Z) : translator Z :=
  let rd := op &&& 0x1f in
  let rn := (op >>> 5) &&& 0x1f in
  record_pc ;;
  emit (
    emit_load_arm_reg_fp rn X86_REG_XMM0 1 ;;
    emit_byte 0x66 ;; emit_byte 0x0f ;;
    emit_byte 0x38 ;; emit_byte 0xdc ;;
    modrm 3 (X86_REG_XMM0 &&& 7) (X86_REG_XMM0 &&& 7) ;;
    emit_store_arm_reg_fp X86_REG_XMM0 rd 1) ;;
  mret ARM2X86_OK.

Definition translate_aesimc (op : Z) : translator Z :=
  let rd := op &&& 0x1f in
  let rn := (op >>> 5) &&& 0x1f in
  record_pc ;;
  emit (
    emit_load_arm_reg_fp rn X86_REG_XMM0 1 ;;
    emit_byte 0x66 ;; emit_byte 0x0f ;;
    emit_byte 0x38 ;; emit_byte 0xdc ;;
    modrm 3 (X86_REG_XMM0 &&& 7) (X86_REG_XMM0 &&& 7) ;;
    emit_store_arm_reg_fp X86_REG_XMM0 rd 1) ;;
  mret ARM2X86_OK.

Definition translate_sha256 (op : Z) : translator Z :=
  let rd := op &&& 0x1f in
  let rn := (op >>> 5) &&& 0x1f in
  let rm := (op >>> 16) &&& 0x1f in
  record_pc ;;
  let opcode := (op >>> 10) &&& 0x7 in
  emit (
    if opcode =? 0 then
      emit_load_arm_reg_fp rm X86_REG_XMM0 0 ;;
      emit_byte 0x0f ;; emit_byte 0x38 ;;
      emit_byte 0xc9 ;;
      modrm 3 (X86_REG_XMM0 &&& 7) (X86_REG_XMM0 &&& 7)
    else if opcode =? 1 then
      emit_load_arm_reg_fp rm X86_REG_XMM0 0 ;;
      emit_byte 0x0f ;; emit_byte 0x38 ;;
      emit_byte 0xc9 ;;
      modrm 3 (X86_REG_XMM0 &&& 7) (X86_REG_XMM0 &&& 7)
    else if opcode =? 2 then
      emit_load_arm_reg_fp rn X86_REG_XMM0 0 ;;
      emit_byte 0x0f ;; emit_byte 0x38 ;;
      emit_byte 0xc8 ;;
      modrm 3 (X86_REG_XMM0 &&& 7) (X86_REG_XMM0 &&& 7)
    else
      emit_load_arm_reg_fp rn X86_REG_XMM0 0 ;;
      emit_byte 0x0f ;; emit_byte 0x38 ;;
      emit_byte 0xc8 ;;
      modrm 3 (X86_REG_XMM0 &&& 7) (X86_REG_XMM0 &&& 7)) ;;
  mret ARM2X86_OK.

Definition translate_brk (op : Z) : translator Z :=
  let imm16 := (op >>> 5) &&& 0xffff in
  emit (emit_byte 0xcc) ;;
  mret ARM2X86_OK.

Definition translate_hlt (op : Z) : translator Z :=
  emit (emit_byte 0xf4) ;;
  mret ARM2X86_OK.

Definition translate_eret (op : Z) : translator Z :=
  record_pc ;;
  emit (
    emit_load_arm_reg 30 X86_REG_RAX 1 ;;
    emit_byte 0xff ;;
    modrm 3 4 (X86_REG_RAX &&& 7)) ;;
  mret ARM2X86_OK.

Definition translate_csinc (op : Z) : translator Z :=
  let rd := op &&& 0x1f in
  let rn := (op >>> 5) &&& 0x1f in
  let rm := (op >>> 16) &&& 0x1f in
  let cond := (op >>> 12) &&& 0xf in
  let is_64bit := (op >>> 31) &&& 1 in
  let x86_cond := nth (Z.to_nat cond) arm64_to_x86_cond 0 in
  record_pc ;;
  emit (
    emit_load_arm_reg rn X86_REG_RAX is_64bit ;;
    emit_load_arm_reg rm X86_REG_R11 is_64bit ;;
    emit_byte 0x0f ;;
    emit_byte (0x80 ||| x86_cond) ;;
    skip ← here;
    emit_imm32 0 ;;
    add_r64_imm8 X86_REG_R11 1 ;;
    mov_r64_r64 X86_REG_RAX X86_REG_R11 ;;
    cur ← here;
    let off := s32 (Z.of_nat cur - Z.of_nat skip - 4) in
    poke skip 0 (off &&& 0xff) ;;
    poke skip 1 ((off >>> 8) &&& 0xff) ;;
    poke skip 2 ((off >>> 16) &&& 0xff) ;;
    poke skip 3 ((off >>> 24) &&& 0xff) ;;
    emit_store_arm_reg X86_REG_RAX rd is_64bit) ;;
  mret ARM2X86_OK.

Definition translate_csinv (op : Z) : translator Z :=
  let rd := op &&& 0x1f in
  let rn := (op >>> 5) &&& 0x1f in
  let rm := (op >>> 16) &&& 0x1f in
  let cond := (op >>> 12) &&& 0xf in
  let is_64bit := (op >>> 31) &&& 1 in
  let x86_cond := nth (Z.to_nat cond) arm64_to_x86_cond 0 in
  record_pc ;;
  emit (
    emit_load_arm_reg rn X86_REG_RAX is_64bit ;;
    emit_byte 0x0f ;;
    emit_byte (0x80 ||| x86_cond) ;;
    skip ← here;
    emit_imm32 0 ;;
    emit_load_arm_reg rm X86_REG_RAX is_64bit ;;
    (if c_true is_64bit then rex_rm 0 (X86_REG_RAX >>> 3) else mret tt) ;;
    emit_byte 0xf7 ;;
    modrm 3 2 (X86_REG_RAX &&& 7) ;;
    cur ← here;
    let off := s32 (Z.of_nat cur - Z.of_nat skip - 4) in
    poke skip 0 (off &&& 0xff) ;;
    poke skip 1 ((off >>> 8) &&& 0xff) ;;
    poke skip 2 ((off >>> 16) &&& 0xff) ;;
    poke skip 3 ((off >>> 24) &&& 0xff) ;;
    emit_store_arm_reg X86_REG_RAX rd is_64bit) ;;
  mret ARM2X86_OK.

Definition translate_csneg (op : Z) : translator Z :=
  let rd := op &&& 0x1f in
  let rn := (op >>> 5) &&& 0x1f in
  let rm := (op >>> 16) &&& 0x1f in
  let cond := (op >>> 12) &&& 0xf in
  let is_64bit := (op >>> 31) &&& 1 in
  let x86_cond := nth (Z.to_nat cond) arm64_to_x86_cond 0 in
  record_pc ;;
  emit (
    emit_load_arm_reg rn X86_REG_RAX is_64bit ;;
    emit_byte 0x0f ;;
    emit_byte (0x80 ||| x86_cond) ;;
    skip ← here;
    emit_imm32 0 ;;
    emit_load_arm_reg rm X86_REG_RAX is_64bit ;;
    (if c_true is_64bit then rex_rm 0 (X86_REG_RAX >>> 3) else mret tt) ;;
    emit_byte 0xf7 ;;
    modrm 3 3 (X86_REG_RAX &&& 7) ;;
    cur ← here;
    let off := s32 (Z.of_nat cur - Z.of_nat skip - 4) in
    poke skip 0 (off &&& 0xff) ;;
    poke skip 1 ((off >>> 8) &&& 0xff) ;;
    poke skip 2 ((off >>> 16) &&& 0xff) ;;
    poke skip 3 ((off >>> 24) &&& 0xff) ;;
    emit_store_arm_reg X86_REG_RAX rd is_64bit) ;;
  mret ARM2X86_OK.

Definition translate_fcsel (op : Z) : translator Z :=
  let rd := op &&& 0x1f in
  let rn := (op >>> 5) &&& 0x1f in
  let rm := (op >>> 16) &&& 0x1f in
  let cond := (op >>> 12) &&& 0xf in
  let is_double := (op >>> 22) &&& 1 in
  let x86_cond := nth (Z.to_nat cond) arm64_to_x86_cond 0 in
  record_pc ;;
  emit (
    if x86_cond =? 0x00 then
      emit_load_arm_reg_fp rn X86_REG_XMM0 is_double ;;
      emit_store_arm_reg_fp X86_REG_XMM0 rd is_double
    else if x86_cond =? 0xff then
      emit_load_arm_reg_fp rm X86_REG_XMM0 is_double ;;
      emit_store_arm_reg_fp X86_REG_XMM0 rd is_double
    else
      emit_load_arm_reg_fp rn X86_REG_XMM0 is_double ;;
      emit_byte 0x0f ;;
      emit_byte (x86_cond ^^^ 1) ;;
      skip ← here;
      emit_imm32 0 ;;
      emit_load_arm_reg_fp rm X86_REG_XMM0 is_double ;;
      cur ← here;
      let off := s32 (Z.of_nat cur - Z.of_nat skip - 4) in
      poke skip 0 (off &&& 0xff) ;;
      poke skip 1 ((off >>> 8) &&& 0xff) ;;
      poke skip 2 ((off >>> 16) &&& 0xff) ;;
      poke skip 3 ((off >>> 24) &&& 0xff) ;;
      emit_store_arm_reg_fp X86_REG_XMM0 rd is_double) ;;
  mret ARM2X86_OK.

Definition translate_fnmadd (op : Z) : translator Z :=
  let rd := op &&& 0x1f in
  let rn := (op >>> 5) &&& 0x1f in
  let rm := (op >>> 16) &&& 0x1f in
  let ra := (op >>> 10) &&& 0x1f in
  let is_double := (op >>> 22) &&& 1 in
  record_pc ;;
  emit (
    emit_load_arm_reg_fp rn X86_REG_XMM0 is_double ;;
    emit_load_arm_reg_fp rm X86_REG_XMM1 is_double ;;
    emit_load_arm_reg_fp ra X86_REG_XMM2 is_double ;;
    (if c_true is_double then
       emit_mulsd_xmm_xmm X86_REG_XMM0 X86_REG_XMM1 ;;
       emit_negsd_xmm_xmm X86_REG_XMM0 X86_REG_XMM0 ;;
       emit_subsd_xmm_xmm X86_REG_XMM0 X86_REG_XMM2
     else mret tt) ;;
    emit_store_arm_reg_fp X86_REG_XMM0 rd is_double) ;;
  mret ARM2X86_OK.

Definition translate_fnmsub (op : Z) : translator Z :=
  let rd := op &&& 0x1f in
  let rn := (op >>> 5) &&& 0x1f in
  let rm := (op >>> 16) &&& 0x1f in
  let ra := (op >>> 10) &&& 0x1f in
  let is_double := (op >>> 22) &&& 1 in
  record_pc ;;
  emit (
    emit_load_arm_reg_fp rn X86_REG_XMM0 is_double ;;
    emit_load_arm_reg_fp rm X86_REG_XMM1 is_double ;;
    emit_load_arm_reg_fp ra X86_REG_XMM2 is_double ;;
    (if c_true is_double then
       emit_mulsd_xmm_xmm X86_REG_XMM0 X86_REG_XMM1 ;;
       emit_negsd_xmm_xmm X86_REG_XMM0 X86_REG_XMM0 ;;
       emit_addsd_xmm_xmm X86_REG_XMM0 X86_REG_XMM2
     else mret tt) ;;
    emit_store_arm_reg_fp X86_REG_XMM0 rd is_double) ;;
  mret ARM2X86_OK.

Definition translate_mov_reg (op : Z) : translator Z :=
  let rd := op &&& 0x1f in
  let rn := (op >>> 5) &&& 0x1f in
  let is_64bit := (op >>> 31) &&& 1 in
  record_pc ;;
  emit (
    emit_load_arm_reg rn X86_REG_RAX is_64bit ;;
    emit_store_arm_reg X86_REG_RAX rd is_64bit) ;;
  mret ARM2X86_OK.

End Translate64.

