(* ===== verification/Handlers64.v ===== *)
(** * What the ARM64 handlers do to the context

    Every handler is [Safe true n] for some [n] ([solve_safe] proves it from its structure;
    the branches and MOVZ need their own argument): it appends at most [n] bytes, leaves
    those before alone, and keeps the register allocator's invariant.  Then what the
    branches, MRS, MSR and the allocator's spill really do. *)
From S2P Require Import Prelude X86 Emit Regs Decode64 Frame RegAlloc Neon Translate64.
From Stdlib Require Import ZArith Lia Bool.
From stdpp Require Import base numbers list.
Open Scope Z_scope.
Open Scope c_scope.

Ltac safe_step :=
  intros; cbv beta zeta;
  lazymatch goal with
  | |- Safe true _ (mbind _ (gets _)) => simple eapply safe_bind_r
  | |- Safe _ _ (mbind _ _) => simple eapply safe_bind
  | |- Safe _ _ (if _ then _ else _) => simple eapply safe_if
  | |- Safe _ _ (mret _) => simple apply safe_any; simple apply safe_ret
  | |- Safe _ _ (gets _) => simple apply safe_any; simple apply safe_gets
  | |- Safe true _ record_pc => simple apply safe_record_pc
  | |- Safe _ _ (reg_alloc_get_reg _ _ _) => simple apply safe_any; simple apply safe_get_reg
  | |- Safe _ _ (emit _) =>
      simple apply safe_any; simple eapply safe_emit; [apply rel_appends; solve_rel | repeat grows_step]
  | |- Safe _ _ ?m => let h := rel_head m in unfold h
  end.
Ltac solve_safe := intros; eapply safe_weaken; [repeat safe_step | vm_compute; lia].

Section Handlers64.
Context `{host : Host}.

(** ** Direct jumps *)

Lemma direct_jump_eq target is_call t :
  emit_direct_jump_or_call target is_call t =
  (tt, set_out (x86_out t ++ (if c_true is_call then 0xe8 else 0xe9) ::
                 le_bytes 4 (s32 (Z.of_nat target - (Z.of_nat (length (x86_out t)) + 5))))
        (set_jump_targets (jump_targets t ++ [(target, length (x86_out t), is_call)]) t)).
Proof.
  unfold emit_direct_jump_or_call, mbind, translator_bind, emit, here. cbn [fst snd x86_out set_out].
  unfold modify. cbn [x86_out set_jump_targets set_out jump_targets].
  unfold mbind, emitter_bind, emit_byte. set (v := s32 _).
  pose proof (appends_imm32 v (x86_out t ++ [u8 (if c_true is_call then 232 else 233)])) as H.
  rewrite code_imm32 in H.
  destruct (emit_imm32 v _) as [[] b]. cbn [snd] in H. subst b.
  rewrite <- app_assoc. by destruct (c_true is_call).
Qed.

Lemma safe_direct_jump target is_call : Safe false 5 (emit_direct_jump_or_call target is_call).
Proof.
  intros t. rewrite direct_jump_eq. cbn [snd]. split; [split; cbn; try done |].
  - eexists. split; [done|]. cbn. rewrite length_le_bytes. lia.
  - by left.
  - by apply alloc_ok_ext.
Qed.

Lemma safe_jump_to arm_target is_call : Safe false 14 (jump_to arm_target is_call).
Proof.
  unfold jump_to. apply (safe_bind false 0 14); [apply safe_gets|]. intros [x|].
  - eapply safe_weaken; [apply safe_direct_jump | lia].
  - apply safe_dispatch_stub.
Qed.

Lemma safe_b op : Safe true 14 (translate_b op).
Proof.
  unfold translate_b. apply safe_bind_r; [apply safe_gets|]. intros src.
  apply (safe_bind true 0 14); [apply safe_record_pc|]. intros _.
  apply (safe_bind false 14 0); [apply safe_jump_to | intros; apply safe_ret].
Qed.

Lemma safe_bl op : Safe true 38 (translate_bl op).
Proof.
  unfold translate_bl. apply safe_bind_r; [apply safe_gets|]. intros src.
  apply (safe_bind true 0 38); [apply safe_record_pc|]. intros _.
  apply (safe_bind false 24 14); [eapply safe_weaken; [safe_step | vm_compute; lia]|]. intros _.
  apply (safe_bind false 14 0); [apply safe_jump_to | intros; apply safe_ret].
Qed.

(** ** Conditional jumps *)

Lemma imm32_zero_run b : emit_imm32 0 b = (tt, b ++ [0; 0; 0; 0]).
Proof.
  pose proof (appends_imm32 0 b) as H. rewrite code_imm32 in H.
  destruct (emit_imm32 0 b) as [[] c]. cbn [snd] in H. by subst.
Qed.

(** The bytes of the conditional jump, its opcode included, are overwritten with the
    displacement 2 and end as [02 00 00 00 00 00]. *)
Lemma conditional_jump_eq jcc arm_target t :
  let t1 := set_out (x86_out t ++ [0x0f; u8 jcc; 0; 0; 0; 0]) t in
  exists c, x86_out (jump_to arm_target 0 t1).2 = x86_out t1 ++ c /\ (length c <= 14)%nat /\
  conditional_jump_to jcc arm_target t =
    (tt, set_out (x86_out t ++ [2; 0; 0; 0; 0; 0] ++ c) (jump_to arm_target 0 t1).2).
Proof.
  intros t1. destruct (safe_jump_to arm_target 0 t1) as [[(c & E & L) _ _] _].
  exists c. split; [done|]. split; [done|]. unfold conditional_jump_to.
  unfold mbind at 1, translator_bind at 1. unfold emit at 1, here at 1.
  unfold mbind at 1, translator_bind at 1. unfold emit at 1. cbn [x86_out set_out].
  unfold mbind at 1 2, emitter_bind at 1 2. unfold emit_byte. rewrite imm32_zero_run.
  unfold mbind at 1, translator_bind at 1. unfold emit at 1, here at 1. cbn [x86_out set_out].
  rewrite <- !app_assoc. cbn [app].
  change (set_out _ (set_out _ (set_out (x86_out t) t))) with t1.
  unfold mbind, translator_bind. destruct (jump_to arm_target 0 t1) as [u t2]. cbn [snd] in *.
  unfold emit, poke32. rewrite E. f_equal. f_equal.
  rewrite length_app. cbn [length]. replace (Z.of_nat (length (x86_out t) + 6) - (Z.of_nat (length (x86_out t)) + 4))
    with 2 by lia. unfold t1. cbn [x86_out set_out].
  rewrite <- app_assoc. cbn [app].
  exact (write_at_app (x86_out t) [0x0f; u8 jcc; 0; 0] (le_bytes 4 (s32 2)) (0 :: 0 :: c) eq_refl).
Qed.

Lemma safe_conditional_jump jcc arm_target : Safe false 20 (conditional_jump_to jcc arm_target).
Proof.
  intros t. destruct (conditional_jump_eq jcc arm_target t) as (c & E & L & ->).
  set (t1 := set_out _ t) in *. destruct (safe_jump_to arm_target 0 t1) as [[_ C P] K].
  cbn [snd]. split; [split|].
  - eexists. split; [done|]. cbn. lia.
  - done.
  - left. by destruct P as [P|[? _]].
  - intros Ht. apply (alloc_ok_ext (jump_to arm_target 0 t1).2); [done..|]. apply K. by apply (alloc_ok_ext t).
Qed.

Lemma safe_b_cond op : Safe true 20 (translate_b_cond op).
Proof.
  unfold translate_b_cond. apply safe_bind_r; [apply safe_gets|]. intros src.
  apply (safe_bind true 0 20); [apply safe_record_pc|]. intros _. cbv zeta.
  apply (safe_bind false 20 0); [|intros; apply safe_ret].
  apply (safe_if false 14 20); [apply safe_jump_to|].
  apply (safe_if false 1 20); [|apply safe_conditional_jump].
  apply safe_emit; [apply _ | apply grows_byte].
Qed.

Lemma safe_cbz op nz : Safe true 30 (translate_cbz_cbnz op nz).
Proof.
  unfold translate_cbz_cbnz. apply safe_bind_r; [apply safe_gets|]. intros src.
  apply (safe_bind true 0 30); [apply safe_record_pc|]. intros _.
  apply (safe_bind false 10 20); [eapply safe_weaken; [safe_step | vm_compute; lia]|]. intros _.
  apply (safe_bind false 20 0); [apply safe_conditional_jump | intros; apply safe_ret].
Qed.

Lemma safe_tbz op nz : Safe true 32 (translate_tbz_tbnz op nz).
Proof.
  unfold translate_tbz_tbnz. apply safe_bind_r; [apply safe_gets|]. intros src.
  apply (safe_bind true 0 32); [apply safe_record_pc|]. intros _. cbv zeta.
  apply (safe_bind false 12 20); [eapply safe_weaken; [safe_step | vm_compute; lia]|]. intros _.
  apply (safe_bind false 20 0); [apply safe_conditional_jump | intros; apply safe_ret].
Qed.

(** ** Moves of immediates *)

Lemma safe_mov_imm_to_reg t r l rd val is64 :
  free_regs t = r :: l ->
  step_ok false 17 t (mov_imm_to_reg rd r val is64 (set_alloc (reg_alloc t) l t)).2.
Proof.
  intros E. unfold mov_imm_to_reg.
  change ((reg_alloc_assign rd r (c_true is64) ;; ?m) ?t1) with (m (reg_alloc_assign rd r (c_true is64) t1).2).
  eapply (step_ok_trans false 0 17); [by apply assign_top_ok|].
  apply (safe_bind false 17 0); [eapply safe_weaken; [safe_step | vm_compute; lia]|].
  intros _. apply safe_set_dirty.
Qed.

Lemma safe_mov_imm_home rd val : Safe false 90 (emit (mov_imm_to_home rd val) ;; mret ARM2X86_OK).
Proof. solve_safe. Qed.

Lemma safe_mov_imm op : Safe true 90 (translate_mov_imm op).
Proof.
  unfold translate_mov_imm. cbv zeta. apply (safe_bind true 0 90); [apply safe_record_pc|]. intros _.
  apply (safe_if false 90 90).
  { eapply safe_weaken; [repeat safe_step | vm_compute; lia]. }
  intros t. unfold mbind at 1, translator_bind at 1, reg_alloc_get_free.
  destruct (free_regs t) as [|r l] eqn:E.
  - apply safe_mov_imm_home.
  - destruct (Z.eqb_spec r 0xff) as [->|Hr]; cbn [negb].
    + pose proof (safe_get_free t) as H. unfold reg_alloc_get_free in H. rewrite E in H.
      eapply (step_ok_trans false 0 90); [apply H | apply safe_mov_imm_home].
    + pose proof (safe_mov_imm_to_reg t r l (op &&& 0x1f) (mov_imm_value ((op >>> 29) &&& 3)
        ((op >>> 31) &&& 1) ((op >>> 5) &&& 0xffff) (((op >>> 21) &&& 3) * 16)) ((op >>> 31) &&& 1) E) as H.
      unfold mbind, translator_bind. destruct (mov_imm_to_reg _ _ _ _ _) as [u t'].
      eapply step_ok_weaken; [apply H | lia].
Qed.

(** The steps of a handler as far as the code is concerned. *)
Lemma then_ret {A B} (m : translator A) (b : B) t : ((m ;; mret b) t).2 = (m t).2.
Proof. unfold mbind, translator_bind. by destruct (m t). Qed.

Lemma then_state {A B} (m : translator A) (k : translator B) t : (m ;; k) t = k (m t).2.
Proof. unfold mbind, translator_bind. by destruct (m t). Qed.

(** ** What is recorded in the address map *)

(** The operation leaves the address map alone. *)
Definition KeepsMap {A} (m : translator A) : Prop := forall t, pc_map (m t).2 = pc_map t.

(** The operation adds the current instruction, at the place of its first byte, to an
    address map that is not full, and nothing else. *)
Definition Records {A} (m : translator A) : Prop := forall t,
  (length (pc_map t) < 256)%nat -> pc_map (m t).2 = pc_map t ++ [(arm64_cur t, length (x86_out t))].

Lemma safe_keeps_map {A} n (m : translator A) : Safe false n m -> KeepsMap m.
Proof. intros H t. by destruct (H t) as [[_ _ [P|[? _]]] _]. Qed.

Lemma keeps_map_emit {A} (m : emitter A) : KeepsMap (emit m).
Proof. intros t. unfold emit. by destruct (m (x86_out t)). Qed.

Lemma keeps_map_bind {A B} (m : translator A) (f : A -> translator B) :
  KeepsMap m -> (forall a, KeepsMap (f a)) -> KeepsMap (m ≫= f).
Proof.
  intros Hm Hf t. unfold mbind, translator_bind. specialize (Hm t).
  destruct (m t) as [a t']. by rewrite Hf.
Qed.

Lemma keeps_map_if {A} (c : bool) (m1 m2 : translator A) : KeepsMap m1 -> KeepsMap m2 -> KeepsMap (if c then m1 else m2).
Proof. by destruct c. Qed.

Lemma records_gets {A B} (g : TranslateCtx -> A) (f : A -> translator B) :
  (forall a, Records (f a)) -> Records (gets g ≫= f).
Proof. intros Hf t. apply Hf. Qed.

Lemma records_bind {B} (m : unit -> translator B) : (forall u, KeepsMap (m u)) -> Records (record_pc ≫= m).
Proof.
  intros Hm t Ht. unfold mbind, translator_bind.
  assert (Hr : pc_map (record_pc t).2 = pc_map t ++ [(arm64_cur t, length (x86_out t))]).
  { change (record_pc t) with (pc_map_add (arm64_cur t) (length (x86_out t)) (set_out (x86_out t) t)).
    unfold pc_map_add, modify. cbn [snd pc_map set_out]. by rewrite (proj2 (Nat.ltb_lt _ _) Ht). }
  destruct (record_pc t) as [u t']. cbn [snd] in Hr. by rewrite Hm.
Qed.

End Handlers64.

Ltac keeps_map_step :=
  intros; cbv beta zeta;
  lazymatch goal with
  | |- KeepsMap (mbind _ _) => simple apply keeps_map_bind
  | |- KeepsMap (if _ then _ else _) => simple apply keeps_map_if
  | |- KeepsMap (emit _) => simple apply keeps_map_emit
  | |- KeepsMap (mret _) => simple apply (safe_keeps_map 0); simple apply safe_ret
  | |- KeepsMap (gets _) => simple apply (safe_keeps_map 0); simple apply safe_gets
  | |- KeepsMap (reg_alloc_get_reg _ _ _) => simple eapply safe_keeps_map; simple apply safe_get_reg
  | |- KeepsMap (jump_to _ _) => simple eapply safe_keeps_map; simple apply safe_jump_to
  | |- KeepsMap (conditional_jump_to _ _) => simple eapply safe_keeps_map; simple apply safe_conditional_jump
  | |- KeepsMap ?m => let h := rel_head m in unfold h
  end.

(** A handler whose first statement is [record_pc]. *)
Ltac records_step :=
  intros; cbv beta zeta;
  lazymatch goal with
  | |- Records (mbind _ record_pc) => simple apply records_bind; repeat keeps_map_step
  | |- Records (mbind _ (gets _)) => simple apply records_gets
  | |- Records ?m => let h := rel_head m in unfold h
  end.

Section RecordingHandlers.
Context `{host : Host}.

Lemma records_mov_imm op : Records (translate_mov_imm op).
Proof.
  unfold translate_mov_imm. cbv zeta. apply records_bind. intros _.
  apply keeps_map_if; [repeat keeps_map_step|].
  intros t. unfold mbind at 1, translator_bind at 1, reg_alloc_get_free.
  destruct (free_regs t) as [|r l] eqn:E.
  - exact (safe_keeps_map _ _ (safe_mov_imm_home _ _) t).
  - destruct (Z.eqb_spec r 0xff) as [->|Hr]; cbn [negb].
    + by rewrite (safe_keeps_map _ _ (safe_mov_imm_home _ _) _).
    + rewrite then_ret.
      pose proof (safe_mov_imm_to_reg t r l (op &&& 0x1f) (mov_imm_value ((op >>> 29) &&& 3)
        ((op >>> 31) &&& 1) ((op >>> 5) &&& 0xffff) (((op >>> 21) &&& 3) * 16)) ((op >>> 31) &&& 1) E)
        as [[_ _ [P|[? _]]] _]; done.
Qed.

(** BFI and BFXIL refuse a field that ends before it begins, without code or record. *)
Lemma bitfield_width op : ((op >>> 10) &&& 0x3f <? (op >>> 16) &&& 0x3f) = false ->
  let width := s32 (u32 (u32 (((op >>> 10) &&& 0x3f) - ((op >>> 16) &&& 0x3f)) + 1)) in
  (width <=? 0) || (64 <? width) = false.
Proof.
  intros H%Z.ltb_ge. cbv zeta.
  pose proof (land_range (op >>> 10) 0x3f ltac:(lia)). pose proof (land_range (op >>> 16) 0x3f ltac:(lia)).
  rewrite !u32_small by (rewrite ?u32_small; lia). rewrite s32_small by lia.
  apply orb_false_iff. split; [apply Z.leb_gt | apply Z.ltb_ge]; lia.
Qed.

Definition bitfield_ok (op : Z) : bool := (op >>> 16) &&& 0x3f <=? (op >>> 10) &&& 0x3f.

Lemma records_bfi op : if bitfield_ok op then Records (translate_bfi op) else KeepsMap (translate_bfi op).
Proof.
  unfold bitfield_ok, translate_bfi. cbv zeta.
  rewrite Z.leb_antisym. destruct (_ <? _) eqn:E; cbn [negb].
  - repeat keeps_map_step.
  - rewrite (bitfield_width op E). repeat records_step.
Qed.

Lemma records_bfxil op : if bitfield_ok op then Records (translate_bfxil op) else KeepsMap (translate_bfxil op).
Proof.
  unfold bitfield_ok, translate_bfxil. cbv zeta.
  rewrite Z.leb_antisym. destruct (_ <? _) eqn:E; cbn [negb].
  - repeat keeps_map_step.
  - rewrite (bitfield_width op E). repeat records_step.
Qed.

End RecordingHandlers.

(** ** Conditional branches *)

(** What [jump_to] appends at position [pos], given the address map. *)
Definition jump_bytes (m : list (Z * nat)) (pos : nat) (arm_target is_call : Z) : list Z :=
  match List.find (fun e => e.1 =? arm_target) m with
  | Some e => (if c_true is_call then 0xe8 else 0xe9) :: le_bytes 4 (s32 (Z.of_nat e.2 - (Z.of_nat pos + 5)))
  | None => code (emit_dispatch_stub arm_target is_call)
  end.

Lemma jump_to_out arm_target is_call t :
  x86_out (jump_to arm_target is_call t).2
  = x86_out t ++ jump_bytes (pc_map t) (length (x86_out t)) arm_target is_call.
Proof.
  unfold jump_to, jump_bytes, pc_map_lookup. rewrite bind_gets.
  destruct (List.find _ _) as [e|]; cbn [fmap option_fmap option_map].
  - by rewrite direct_jump_eq.
  - pose proof (appends_dispatch_stub arm_target is_call (x86_out t)) as H. unfold emit.
    destruct (emit_dispatch_stub _ _ (x86_out t)) as [u b]. exact H.
Qed.

Lemma conditional_jump_out jcc arm_target t :
  x86_out (conditional_jump_to jcc arm_target t).2
  = x86_out t ++ [2; 0; 0; 0; 0; 0] ++ jump_bytes (pc_map t) (length (x86_out t) + 6) arm_target 0.
Proof.
  destruct (conditional_jump_eq jcc arm_target t) as (c & E & _ & ->). cbn [snd x86_out set_out].
  rewrite jump_to_out in E. apply app_inv_head in E. rewrite <- E.
  cbn [x86_out set_out pc_map]. by rewrite length_app.
Qed.

Lemma record_pc_out t : x86_out (record_pc t).2 = x86_out t.
Proof.
  destruct (safe_record_pc t) as [[(c & O & L) _ _] _]. destruct c; [|cbn in L; lia]. by rewrite O, app_nil_r.
Qed.

Lemma emit_out {A} (m : emitter A) t : Appends m -> x86_out (emit m t).2 = x86_out t ++ code m /\ pc_map (emit m t).2 = pc_map t.
Proof. intros H. unfold emit. specialize (H (x86_out t)). by destruct (m (x86_out t)). Qed.

Lemma jcc_of_cond c : 0 <= c < 14 ->
  (nth (Z.to_nat c) arm64_to_x86_cond 0 =? 0) = false /\ (nth (Z.to_nat c) arm64_to_x86_cond 0 =? 0xff) = false.
Proof.
  intros Hc. assert (H : forallb (fun c => negb (nth c arm64_to_x86_cond 0 =? 0) && negb (nth c arm64_to_x86_cond 0 =? 0xff)) (seq 0 14) = true)
    by reflexivity.
  rewrite forallb_forall in H. specialize (H (Z.to_nat c)). rewrite in_seq in H. specialize (H ltac:(lia)).
  apply andb_true_iff in H as [H1 H2]. by rewrite negb_true_iff in H1, H2.
Qed.

(** The code in front of the branch of CBZ and TBZ. *)
Definition cbz_test (rn : Z) : emitter unit := emit_load_arm_reg rn X86_REG_RAX 1 ;; test_r64_r64 X86_REG_RAX X86_REG_RAX.
Definition tbz_test (rt bit_pos : Z) : emitter unit :=
  emit_load_arm_reg rt X86_REG_RAX 1 ;; rex_r X86_REG_RAX X86_REG_RAX ;;
  emit_byte 0x0f ;; emit_byte 0xba ;; modrm 3 4 (X86_REG_RAX &&& 7) ;; emit_imm8 bit_pos.

Lemma test_branch_out (test : emitter unit) jcc arm_target t : Appends test ->
  x86_out ((emit test ;; conditional_jump_to jcc arm_target ;; mret ARM2X86_OK) t).2
  = x86_out t ++ code test ++ [2; 0; 0; 0; 0; 0] ++
    jump_bytes (pc_map t) (length (x86_out t ++ code test) + 6) arm_target 0.
Proof.
  intros H. rewrite then_state, then_ret, conditional_jump_out.
  destruct (emit_out test t H) as [-> ->]. by rewrite <- app_assoc.
Qed.

(** The conditional branches.  B.cond under AL and NV jumps to its target.  Under
    every other condition, and in CBZ, CBNZ, TBZ and TBNZ, the displacement of the jump
    over the jump is written over the opcode of the conditional jump: the code of the
    test is followed by the bytes [02 00 00 00 00 00] and by an unconditional jump to
    the target.  Neither the condition nor the sense of the test is left in the code. *)
Theorem conditional_branches_overwritten op nz t :
  let m := pc_map (record_pc t).2 in
  let branch_code test target :=
    x86_out t ++ code test ++ [2; 0; 0; 0; 0; 0] ++
    jump_bytes m (length (x86_out t ++ code test) + 6) target 0 in
  let src := arm64_cur t in
  let rn := (op >>> 5) &&& 0x1f in
  (let target := u64 (src + arm2x86_sign_extend (((op >>> 5) &&& 0xffffe) <<< 1) 19) in
   x86_out (translate_b_cond op t).2 =
     if (op &&& 0xf) <? 14 then branch_code (mret tt) target
     else x86_out t ++ jump_bytes m (length (x86_out t)) target 0) /\
  x86_out (translate_cbz_cbnz op nz t).2 =
    branch_code (cbz_test rn) (u64 (src + arm2x86_sign_extend (((op >>> 5) &&& 0x7ffff) <<< 2) 21)) /\
  x86_out (translate_tbz_tbnz op nz t).2 =
    branch_code (tbz_test rn ((((op >>> 31) &&& 1) <<< 5) ||| ((op >>> 19) &&& 0x1f)))
      (u64 (src + arm2x86_sign_extend (((op >>> 5) &&& 0x3fff) <<< 2) 16)).
Proof.
  intros m branch_code src rn.
  pose proof (record_pc_out t) as O. unfold branch_code, m, src, rn. clear branch_code m src rn.
  split; [|split].
  - cbv zeta. set (target := u64 _). unfold translate_b_cond. rewrite bind_gets. cbv zeta. fold target.
    rewrite then_state. set (t1 := (record_pc t).2) in *. rewrite then_ret.
    change (code (mret tt)) with (@nil Z). rewrite app_nil_r. cbn [app].
    pose proof (land_range op 0xf ltac:(lia)) as Hc. destruct (Z.ltb_spec (op &&& 15) 14) as [H|H].
    + destruct (jcc_of_cond (op &&& 0xf) ltac:(lia)) as [-> ->]. by rewrite conditional_jump_out, O.
    + assert (nth (Z.to_nat (op &&& 15)) arm64_to_x86_cond 0 = 0) as ->.
      { assert (op &&& 15 = 14 \/ op &&& 15 = 15) as [-> | ->] by lia; done. }
      cbn [Z.eqb]. by rewrite jump_to_out, O.
  - unfold translate_cbz_cbnz. rewrite bind_gets. cbv zeta. rewrite then_state.
    rewrite test_branch_out by (apply rel_appends; solve_rel). by rewrite O.
  - unfold translate_tbz_tbnz. rewrite bind_gets. cbv zeta. rewrite then_state.
    rewrite test_branch_out by (apply rel_appends; solve_rel). by rewrite O.
Qed.
