(* ===== verification/Block64.v ===== *)
(** * The ARM64 block translator: [arm2x86_convert_block] of [modules/arm2x86_translate64.c]

    The switch over the decoded type is the table [handlers]; [convert64_instruction]
    is one iteration of the loop, [arm2x86_convert_block] the function with its prologue
    and epilogue. *)
From S2P Require Import Prelude X86 Emit Regs Decode64 Frame RegAlloc Neon Translate64 Handlers64.
From Stdlib Require Import ZArith Lia Bool.
From stdpp Require Import base numbers list sets.
Open Scope Z_scope.
Open Scope c_scope.

(** The instruction types the decoder never sets. *)
Definition INSTR_EOR := 21.
Definition INSTR_CMP := 26.
Definition INSTR_NEG := 122.
Definition INSTR_RSB := 41.
Definition INSTR_MVN := 49.
Definition INSTR_TST := 43.
Definition INSTR_CMN := 45.
Definition INSTR_CINC := 145.
Definition INSTR_CINV := 146.
Definition INSTR_CNEG := 147.
Definition INSTR_MSUB := 127.
Definition INSTR_ROR := 25.
Definition INSTR_BFI := 132.
Definition INSTR_BFXIL := 133.
Definition INSTR_BFC := 138.
Definition INSTR_CLZ := 55.
Definition INSTR_RBIT := 162.
Definition INSTR_REV := 163.
Definition INSTR_SXTW := 159.
Definition INSTR_UXTW := 160.
Definition INSTR_LDRB := 33.
Definition INSTR_STRB := 32.
Definition INSTR_LDRH := 35.
Definition INSTR_STRH := 34.
Definition INSTR_LDRSB := 164.
Definition INSTR_LDRSH := 165.
Definition INSTR_LDRSW := 166.
Definition INSTR_ADR := 2.
Definition INSTR_ADRP := 3.
Definition INSTR_MOV := 16.
Definition INSTR_LDAXR := 260.
Definition INSTR_STLXR := 261.
Definition INSTR_FADD := 62.
Definition INSTR_FSUB := 63.
Definition INSTR_FMUL := 64.
Definition INSTR_FDIV := 65.
Definition INSTR_FCMP := 69.
Definition INSTR_FCVT := 71.
Definition INSTR_FMOV_IMM := 61.
Definition INSTR_FSQRT := 68.
Definition INSTR_FABS := 66.
Definition INSTR_FNEG := 67.
Definition INSTR_FMADD := 72.
Definition INSTR_FMSUB := 73.
Definition INSTR_CSINC := 59.
Definition INSTR_CSINV := 150.
Definition INSTR_CSNEG := 151.
Definition INSTR_FCSEL := 152.
Definition INSTR_FNMADD := 74.
Definition INSTR_FNMSUB := 75.
Definition INSTR_FCMPE := 70.
Definition INSTR_NEON_DIV := 203.
Definition INSTR_NEON_DUP := 210.
Definition INSTR_NEON_MOVI := 211.
Definition INSTR_NEON_SHR := 221.
Definition INSTR_NEON_XTN := 216.
Definition INSTR_NEON_SQXTN := 217.
Definition INSTR_NEON_UQXTN := 218.
Definition INSTR_NEON_SQXTUN := 219.
Definition INSTR_NEON_USRA := 222.
Definition INSTR_NEON_SSRA := 223.
Definition INSTR_NEON_USHL := 224.
Definition INSTR_NEON_SSHL := 225.
Definition INSTR_NEON_UMULL := 226.
Definition INSTR_NEON_SMULL := 227.
Definition INSTR_NEON_PMUL := 232.
Definition INSTR_NEON_FRECPE := 250.
Definition INSTR_NEON_FRSQRTE := 251.
Definition INSTR_NEON_FCMP := 249.

Section Block64.
Context `{host : Host} (g_simd_enabled : Z).

(** ** The switch *)

Definition handlers : list (Z * (Z -> Z -> translator Z)) :=
  [(INSTR_B, fun op _ => translate_b op);
   (INSTR_BR, fun op _ => translate_br op);
   (INSTR_BLR, fun op _ => translate_blr op);
   (INSTR_RET, fun op _ => translate_ret op);
   (INSTR_BL, fun op _ => translate_bl op);
   (INSTR_B_COND, fun op _ => translate_b_cond op);
   (INSTR_CBZ, fun op _ => translate_cbz_cbnz op 0);
   (INSTR_CBNZ, fun op _ => translate_cbz_cbnz op 1);
   (INSTR_TBZ, fun op _ => translate_tbz_tbnz op 0);
   (INSTR_TBNZ, fun op _ => translate_tbz_tbnz op 1);
   (INSTR_ADD, fun op _ => translate_add_sub op ((op >>> 29) &&& 1));
   (INSTR_SUB, fun op _ => translate_add_sub op ((op >>> 29) &&& 1));
   (INSTR_AND, fun op _ => translate_logical op);
   (INSTR_ORR, fun op _ => translate_logical op);
   (INSTR_EOR, fun op _ => translate_logical op);
   (INSTR_BIC, fun op _ => translate_logical op);
   (INSTR_CMP, fun op _ => translate_cmp op);
   (INSTR_ADC, fun op _ => translate_adc op);
   (INSTR_SBC, fun op _ => translate_sbc op);
   (INSTR_NEG, fun op _ => translate_neg op);
   (INSTR_RSB, fun op _ => translate_rsb op);
   (INSTR_MVN, fun op _ => translate_mvn op);
   (INSTR_TST, fun op _ => translate_tst op);
   (INSTR_CMN, fun op _ => translate_cmn op);
   (INSTR_ORN, fun op _ => translate_orn op);
   (INSTR_CSEL, fun op _ => translate_csel op);
   (INSTR_CSET, fun op _ => translate_cset op);
   (INSTR_CINC, fun op _ => translate_cinc op);
   (INSTR_CINV, fun op _ => translate_cinv op);
   (INSTR_CNEG, fun op _ => translate_cneg op);
   (INSTR_CCMN, fun op _ => translate_ccmn op);
   (INSTR_CCMP, fun op _ => translate_ccmp op);
   (INSTR_MUL, fun op _ => translate_mul op);
   (INSTR_SDIV, fun op _ => translate_div op);
   (INSTR_UDIV, fun op _ => translate_div op);
   (INSTR_MADD, fun op _ => translate_madd op);
   (INSTR_MSUB, fun op _ => translate_msub op);
   (INSTR_SMULH, fun op _ => translate_smulh op);
   (INSTR_UMULH, fun op _ => translate_umulh op);
   (INSTR_LSL, fun op _ => translate_shift op);
   (INSTR_LSR, fun op _ => translate_shift op);
   (INSTR_ASR, fun op _ => translate_shift op);
   (INSTR_ROR, fun op _ => translate_ror_imm op);
   (INSTR_EXTR, fun op _ => translate_extr op);
   (INSTR_SBFM, fun op _ => translate_sbfm op);
   (INSTR_UBFM, fun op _ => translate_ubfm op);
   (INSTR_BFI, fun op _ => translate_bfi op);
   (INSTR_BFXIL, fun op _ => translate_bfxil op);
   (INSTR_BFC, fun op _ => translate_bfc op);
   (INSTR_CLZ, fun op _ => translate_clz op);
   (INSTR_RBIT, fun op _ => translate_rbit op);
   (INSTR_REV, fun op _ => translate_rev op);
   (INSTR_SXTB, fun op _ => translate_sxtb op);
   (INSTR_SXTH, fun op _ => translate_sxth op);
   (INSTR_UXTB, fun op _ => translate_uxtb op);
   (INSTR_UXTH, fun op _ => translate_uxth op);
   (INSTR_SXTW, fun op _ => translate_sxtw op);
   (INSTR_UXTW, fun op _ => translate_uxtw op);
   (INSTR_LDR, fun op imm => translate_ldr_str op imm);
   (INSTR_STR, fun op imm => translate_ldr_str op imm);
   (INSTR_LDP, fun op imm => translate_ldp_stp op imm);
   (INSTR_STP, fun op imm => translate_ldp_stp op imm);
   (INSTR_LDR_LITERAL, fun op _ => translate_ldr_literal op);
   (INSTR_LDRB, fun op _ => translate_ldrb_strb op 1);
   (INSTR_STRB, fun op _ => translate_ldrb_strb op 0);
   (INSTR_LDRH, fun op _ => translate_ldrh_strh op 1);
   (INSTR_STRH, fun op _ => translate_ldrh_strh op 0);
   (INSTR_LDRSB, fun op _ => translate_ldrsb op);
   (INSTR_LDRSH, fun op _ => translate_ldrsh op);
   (INSTR_LDRSW, fun op _ => translate_ldrsw op);
   (INSTR_ADR, fun op _ => translate_adr_adrp op);
   (INSTR_ADRP, fun op _ => translate_adr_adrp op);
   (INSTR_MOVZ, fun op _ => translate_mov_imm op);
   (INSTR_MOVN, fun op _ => translate_mov_imm op);
   (INSTR_MOVK, fun op _ => translate_mov_imm op);
   (INSTR_MOV, fun op _ => translate_mov_reg op);
   (INSTR_LDAXR, fun op _ => translate_ldaxr op);
   (INSTR_STLXR, fun op _ => translate_stlxr op);
   (INSTR_CAS, fun op _ => translate_cas op);
   (INSTR_LDADD, fun op _ => translate_ldadd op);
   (INSTR_FADD, fun op _ => translate_fadd op);
   (INSTR_FSUB, fun op _ => translate_fsub op);
   (INSTR_FMUL, fun op _ => translate_fmul op);
   (INSTR_FDIV, fun op _ => translate_fdiv op);
   (INSTR_FCMP, fun op _ => translate_fcmp op);
   (INSTR_FCVT, fun op _ => translate_fcvt op);
   (INSTR_FMOV_REG, fun op _ => translate_fmov_imm op);
   (INSTR_FMOV_IMM, fun op _ => translate_fmov_imm op);
   (INSTR_FSQRT, fun op _ => translate_fsqrt op);
   (INSTR_FABS, fun op _ => translate_fabs op);
   (INSTR_FNEG, fun op _ => translate_fneg op);
   (INSTR_FMADD, fun op _ => translate_fmadd op);
   (INSTR_FMSUB, fun op _ => translate_fmsub op);
   (INSTR_DMB, fun op _ => translate_dmb_dsb_isb op);
   (INSTR_DSB, fun op _ => translate_dmb_dsb_isb op);
   (INSTR_ISB, fun op _ => translate_dmb_dsb_isb op);
   (INSTR_SVC, fun op _ => translate_svc op);
   (INSTR_MRS, fun op _ => translate_mrs op);
   (INSTR_MSR, fun op _ => translate_msr op);
   (INSTR_HINT, fun op _ => translate_hint op);
   (INSTR_BRK, fun op _ => translate_brk op);
   (INSTR_HLT, fun op _ => translate_hlt op);
   (INSTR_ERET, fun op _ => translate_eret op);
   (INSTR_CSINC, fun op _ => translate_csinc op);
   (INSTR_CSINV, fun op _ => translate_csinv op);
   (INSTR_CSNEG, fun op _ => translate_csneg op);
   (INSTR_FCSEL, fun op _ => translate_fcsel op);
   (INSTR_FNMADD, fun op _ => translate_fnmadd op);
   (INSTR_FNMSUB, fun op _ => translate_fnmsub op);
   (INSTR_FCMPE, fun op _ => translate_fcmp op);
   (INSTR_PRFM, fun op _ => translate_prfm op);
   (INSTR_CRC32, fun op _ => translate_crc32 op);
   (INSTR_CRC32C, fun op _ => translate_crc32 op);
   (INSTR_AESE, fun op _ => translate_aese op);
   (INSTR_AESD, fun op _ => translate_aesd op);
   (INSTR_AESMC, fun op _ => translate_aesmc op);
   (INSTR_AESIMC, fun op _ => translate_aesimc op);
   (INSTR_SHA256, fun op _ => translate_sha256 op);
   (INSTR_NEON_ADD, fun op _ => emit (translate_neon_add g_simd_enabled op));
   (INSTR_NEON_SUB, fun op _ => emit (translate_neon_sub op));
   (INSTR_NEON_MUL, fun op _ => emit (translate_neon_mul op));
   (INSTR_NEON_DIV, fun op _ => emit (translate_neon_div op));
   (INSTR_NEON_AND, fun op _ => emit (translate_neon_and op));
   (INSTR_NEON_ORR, fun op _ => emit (translate_neon_orr op));
   (INSTR_NEON_EOR, fun op _ => emit (translate_neon_eor op));
   (INSTR_NEON_BSL, fun op _ => emit (translate_neon_bsl op));
   (INSTR_NEON_EXT, fun op _ => emit (translate_neon_ext op));
   (INSTR_NEON_DUP, fun op _ => emit (translate_neon_dup op));
   (INSTR_NEON_MOVI, fun op _ => emit (translate_neon_movi op));
   (INSTR_NEON_SHL, fun op _ => emit (translate_neon_shl op));
   (INSTR_NEON_SHR, fun op _ => emit (translate_neon_shr op));
   (INSTR_NEON_INS, fun op _ => emit (translate_neon_ins op));
   (INSTR_NEON_XTN, fun op _ => emit (translate_neon_xtn op));
   (INSTR_NEON_SQXTN, fun op _ => emit (translate_neon_sqxtn op));
   (INSTR_NEON_UQXTN, fun op _ => emit (translate_neon_uqxtn op));
   (INSTR_NEON_SQXTUN, fun op _ => emit (translate_neon_sqxtun op));
   (INSTR_NEON_USRA, fun op _ => emit (translate_neon_usra op));
   (INSTR_NEON_SSRA, fun op _ => emit (translate_neon_ssra op));
   (INSTR_NEON_USHL, fun op _ => emit (translate_neon_ushl op));
   (INSTR_NEON_SSHL, fun op _ => emit (translate_neon_sshl op));
   (INSTR_NEON_UMULL, fun op _ => emit (translate_neon_umull op));
   (INSTR_NEON_SMULL, fun op _ => emit (translate_neon_smull op));
   (INSTR_NEON_PMUL, fun op _ => emit (translate_neon_pmul op));
   (INSTR_NEON_FADD, fun op _ => emit (translate_neon_fadd g_simd_enabled op));
   (INSTR_NEON_FSUB, fun op _ => emit (translate_neon_fsub op));
   (INSTR_NEON_FMUL, fun op _ => emit (translate_neon_fmul op));
   (INSTR_NEON_FDIV, fun op _ => emit (translate_neon_div op));
   (INSTR_NEON_FMAX, fun op _ => emit (translate_neon_fmax op));
   (INSTR_NEON_FMIN, fun op _ => emit (translate_neon_fmin op));
   (INSTR_NEON_FCVT, fun op _ => emit (translate_neon_fcvt op));
   (INSTR_NEON_FSQRT, fun op _ => emit (translate_neon_fsqrt op));
   (INSTR_NEON_FABS, fun op _ => emit (translate_neon_fabs op));
   (INSTR_NEON_FNEG, fun op _ => emit (translate_neon_fneg op));
   (INSTR_NEON_FMLA, fun op _ => emit (translate_neon_fmla op));
   (INSTR_NEON_FMLS, fun op _ => emit (translate_neon_fmls op));
   (INSTR_NEON_FRECPE, fun op _ => emit (translate_neon_frecpe op));
   (INSTR_NEON_FRSQRTE, fun op _ => emit (translate_neon_frsqrte op));
   (INSTR_NEON_FCMP, fun op _ => emit (translate_neon_fcmp op));
   (INSTR_LDR_SIMD, fun op _ => emit (translate_ldr_simd op));
   (INSTR_STR_SIMD, fun op _ => emit (translate_str_simd op))].

Definition block_terminators : list Z :=
  [INSTR_B; INSTR_BR; INSTR_BLR; INSTR_RET; INSTR_BL;
   INSTR_B_COND; INSTR_CBZ; INSTR_CBNZ; INSTR_TBZ; INSTR_TBNZ].

Definition is_block_terminator (instr_type : Z) : bool := existsb (Z.eqb instr_type) block_terminators.

(** The result of the handler is ignored; without a handler a NOP is emitted. *)
Definition translate_decoded (instr_type op imm : Z) : translator unit :=
  match List.find (fun h => h.1 =? instr_type) handlers with
  | Some h => _ ← h.2 op imm; mret tt
  | None => emit (emit_byte 0x90)
  end.

(** ** The loop *)

(** The local [decoded] is not initialised: what it holds when the decoder refuses the
    address of an instruction. *)
Context (uninitialized : Z -> DecodedInstruction).

Definition store_live_out : translator unit :=
  live_out ← reg_alloc_compute_live_out; reg_alloc_emit_batch_store live_out.

(** One iteration; the result tells whether the block ends. *)
Definition convert64_instruction (mem : Z -> Z) (src : Z) : translator bool :=
  let op := read_le32 mem src in
  let decoded := default (uninitialized src)
                   (arm2x86_decode (Some tt) mem src (Some (uninitialized src))).2 in
  translate_decoded (d_instr_type decoded) op (d_imm decoded) ;;
  modify (set_arm64_cur (src + 4)) ;;
  if is_block_terminator (d_instr_type decoded) then store_live_out ;; mret true else mret false.

(** [n] = [max_instructions - instruction_count] iterations are left. *)
Fixpoint convert64_loop (n : nat) (mem : Z -> Z) (src end_ : Z) : translator unit :=
  match n with
  | O => mret tt
  | S n =>
    if src <? end_ then
      stop ← convert64_instruction mem src;
      if (stop : bool) then mret tt else convert64_loop n mem (src + 4) end_
    else mret tt
  end.

Definition max_instructions : nat := 64.

(** ** The block *)

(** [mov [rbp + ARM_REG_OFFSET(arm_reg)], x86_reg] with the given REX byte. *)
Definition prologue_store (rex_byte x86_reg arm_reg : Z) : emitter unit :=
  emit_byte rex_byte ;;
  emit_byte 0x89 ;;
  modrm 2 (x86_reg &&& 7) 5 ;;
  emit_imm32 (ARM_REG_OFFSET arm_reg).

Definition block_prologue : emitter unit :=
  prologue_store 0x48 X86_REG_RSP 31 ;;
  prologue_store 0x48 X86_REG_RDI 0 ;;
  prologue_store 0x48 X86_REG_RSI 1 ;;
  prologue_store 0x48 X86_REG_RDX 2 ;;
  prologue_store 0x48 X86_REG_RCX 3 ;;
  prologue_store 0x48 X86_REG_R8 4 ;;
  prologue_store 0x49 X86_REG_R9 5 ;;
  prologue_store 0x49 X86_REG_R10 6 ;;
  prologue_store 0x49 X86_REG_R11 7 ;;
  prologue_store 0x48 X86_REG_RBP 29.

Definition block_epilogue : emitter unit :=
  emit_byte 0x48 ;;
  emit_byte 0x8b ;;
  modrm 2 (X86_REG_RAX &&& 7) 5 ;;
  emit_imm32 (ARM_REG_OFFSET 0) ;;
  emit_byte 0xc3.

Definition convert_block_body (mem : Z -> Z) (arm64_code arm64_size : Z) : translator unit :=
  emit block_prologue ;;
  reg_alloc_init ;;
  reg_alloc_setup_calling_convention ;;
  convert64_loop max_instructions mem arm64_code (arm64_code + arm64_size) ;;
  store_live_out ;;
  emit block_epilogue.

(** The context before the first store; the allocator's state is not initialised. *)
Definition initial_ctx (arm64_code : Z) : TranslateCtx :=
  {| arm64_cur := arm64_code; x86_out := []; reg_alloc := []; free_regs := [];
     pc_map := []; jump_targets := [] |}.

(** The result code, and the output with [*x86_size] when they are written.  The
    booleans say whether the output pointers are valid and [malloc] succeeds. *)
Definition arm2x86_convert_block (ctx : option unit) (mem : Z -> Z) (arm64_code arm64_size : Z)
    (x86_buffer x86_size : bool) (reg_home : option Z) (malloc_ok : bool) : Z * option (list Z * Z) :=
  if match ctx with Some _ => false | None => true end
     || (arm64_code =? 0) || negb x86_buffer || negb x86_size
  then (ARM2X86_ERR_INVALID_PARAM, None)
  else if match reg_home with Some _ => false | None => true end && negb malloc_ok
  then (ARM2X86_ERR_MEMORY, None)
  else
    let out := x86_out (convert_block_body mem arm64_code arm64_size (initial_ctx arm64_code)).2 in
    (ARM2X86_OK, Some (out, Z.of_nat (length out))).

Definition arm2x86_convert_block_ex (ctx : option unit) (mem : Z -> Z) (arm64_code arm64_size : Z)
    (x86_buffer x86_size : bool) (reg_home : option Z) (malloc_ok : bool) : Z * option (list Z * Z) :=
  match reg_home with
  | None => (ARM2X86_ERR_INVALID_PARAM, None)
  | Some _ => arm2x86_convert_block ctx mem arm64_code arm64_size x86_buffer x86_size reg_home malloc_ok
  end.


(** ** One instruction *)

Ltac known_size :=
  cbv beta iota zeta; cbn [Z.eqb Pos.eqb Z.leb Z.compare Pos.compare Pos.compare_cont].

Lemma safe_neon_div op : Safe false 658 (emit (translate_neon_div op)).
Proof.
  unfold translate_neon_div. cbv zeta. set (size := _ &&& 3). clearbody size.
  destruct (_ || _); [|solve_safe].
  destruct (size =? 0); [known_size; solve_safe|].
  destruct (size =? 1); [known_size; solve_safe|].
  destruct (size =? 2); known_size; solve_safe.
Qed.

Ltac safe_handler :=
  lazymatch goal with
  | |- Safe _ _ (translate_b _) => apply safe_b
  | |- Safe _ _ (translate_bl _) => apply safe_bl
  | |- Safe _ _ (translate_b_cond _) => apply safe_b_cond
  | |- Safe _ _ (translate_cbz_cbnz _ _) => apply safe_cbz
  | |- Safe _ _ (translate_tbz_tbnz _ _) => apply safe_tbz
  | |- Safe _ _ (translate_mov_imm _) => apply safe_mov_imm
  | |- Safe _ _ (emit (translate_neon_div _)) => apply safe_any, safe_neon_div
  | |- Safe _ _ _ => repeat safe_step
  end.

(** The most bytes one instruction becomes: a division of sixteen signed bytes. *)
Definition max_handler_bytes : nat := 658.

Lemma handlers_safe :
  Forall (fun h => forall op imm, Safe true max_handler_bytes (h.2 op imm)) handlers.
Proof.
  unfold handlers.
  repeat (apply Forall_cons_2;
          [intros op imm; cbn [snd]; eapply safe_weaken; [safe_handler | vm_compute; lia]|]).
  apply Forall_nil_2.
Qed.

Lemma safe_translate_decoded ty op imm :
  Safe true max_handler_bytes (translate_decoded ty op imm).
Proof.
  unfold translate_decoded. destruct (List.find _ _) as [h|] eqn:E.
  - apply List.find_some in E as [Hin _]. apply list_elem_of_In in Hin.
    pose proof handlers_safe as H. rewrite Forall_forall in H.
    rewrite <- (Nat.add_0_r max_handler_bytes). apply safe_bind; [by apply H | intros; apply safe_ret].
  - apply safe_any. eapply safe_weaken; [apply safe_emit; [apply _ | apply grows_byte]|]. vm_compute. lia.
Qed.

(** ** Which instructions enter the address map *)

(** The handlers without a [pc_map_add]. *)
Definition unrecorded_types : list Z :=
  [INSTR_DMB; INSTR_DSB; INSTR_ISB; INSTR_HINT; INSTR_BRK; INSTR_HLT;
   INSTR_NEON_ADD; INSTR_NEON_SUB; INSTR_NEON_MUL; INSTR_NEON_DIV; INSTR_NEON_AND; INSTR_NEON_ORR;
   INSTR_NEON_EOR; INSTR_NEON_BSL; INSTR_NEON_EXT; INSTR_NEON_DUP; INSTR_NEON_MOVI; INSTR_NEON_SHL;
   INSTR_NEON_SHR; INSTR_NEON_INS; INSTR_NEON_XTN; INSTR_NEON_SQXTN; INSTR_NEON_UQXTN;
   INSTR_NEON_SQXTUN; INSTR_NEON_USRA; INSTR_NEON_SSRA; INSTR_NEON_USHL; INSTR_NEON_SSHL;
   INSTR_NEON_UMULL; INSTR_NEON_SMULL; INSTR_NEON_PMUL; INSTR_NEON_FADD; INSTR_NEON_FSUB;
   INSTR_NEON_FMUL; INSTR_NEON_FDIV; INSTR_NEON_FMAX; INSTR_NEON_FMIN; INSTR_NEON_FCVT;
   INSTR_NEON_FSQRT; INSTR_NEON_FABS; INSTR_NEON_FNEG; INSTR_NEON_FMLA; INSTR_NEON_FMLS;
   INSTR_NEON_FRECPE; INSTR_NEON_FRSQRTE; INSTR_NEON_FCMP; INSTR_LDR_SIMD; INSTR_STR_SIMD].

(** Whether the translation of a word of this type enters the address map.  A type without
    a handler becomes a NOP that does not; BFI and BFXIL may refuse the word. *)
Definition records (instr_type op : Z) : bool :=
  existsb (fun h => h.1 =? instr_type) handlers && negb (existsb (Z.eqb instr_type) unrecorded_types) &&
  (if (instr_type =? INSTR_BFI) || (instr_type =? INSTR_BFXIL) then bitfield_ok op else true).

(** The entry of the table, as [records] describes it. *)
Definition entry_records (h : Z * (Z -> Z -> translator Z)) : Prop := forall op imm,
  if negb (existsb (Z.eqb h.1) unrecorded_types) &&
     (if (h.1 =? INSTR_BFI) || (h.1 =? INSTR_BFXIL) then bitfield_ok op else true)
  then Records (h.2 op imm) else KeepsMap (h.2 op imm).

Ltac recording_handler :=
  intros op imm; cbn [fst snd];
  lazymatch goal with
  | |- context [translate_bfi] => exact (records_bfi op)
  | |- context [translate_bfxil] => exact (records_bfxil op)
  | |- context [translate_mov_imm] => exact (records_mov_imm op)
  | |- if ?b then _ else _ =>
      let v := eval vm_compute in b in change b with v; cbv iota; repeat (records_step || keeps_map_step)
  end.

Lemma handlers_record : Forall entry_records handlers.
Proof.
  unfold handlers, entry_records. repeat (apply Forall_cons_2; [recording_handler|]). apply Forall_nil_2.
Qed.

Lemma decoded_records ty op imm :
  if records ty op then Records (translate_decoded ty op imm) else KeepsMap (translate_decoded ty op imm).
Proof.
  unfold records, translate_decoded. destruct (List.find _ handlers) as [h|] eqn:E.
  - apply List.find_some in E as [Hin Hty].
    assert (existsb (fun h => h.1 =? ty) handlers = true) as -> by (apply existsb_exists; by exists h).
    apply Z.eqb_eq in Hty. apply list_elem_of_In in Hin.
    pose proof handlers_record as H. rewrite Forall_forall in H. specialize (H h Hin op imm).
    rewrite Hty in H. cbn [andb]. destruct (negb _ && _); intros t.
    + intros Ht. rewrite then_ret. by apply H.
    + rewrite then_ret. apply H.
  - assert (existsb (fun h => h.1 =? ty) handlers = false) as ->.
    { apply not_true_iff_false. intros (h & Hh & Hk)%existsb_exists.
      pose proof (List.find_none _ _ E h Hh) as Hn. cbv beta in Hn. congruence. }
    apply keeps_map_emit.
Qed.

Lemma safe_store_live_out : Safe false 56 store_live_out.
Proof.
  unfold store_live_out, reg_alloc_compute_live_out, live_regs. apply safe_bind_gets. intros t.
  eapply step_ok_weaken; [apply (safe_for_regs 7); apply safe_spill|].
  pose proof (List.filter_length_le (fun i => negb (x86_reg (entry t i) =? 0xff)) (seqZ 0 8)) as H.
  rewrite length_seqZ in H. lia.
Qed.

(** The type the loop dispatches on, whether it ends the block, and whether the word
    enters the address map. *)
Definition type_at (mem : Z -> Z) (a : Z) : Z :=
  d_instr_type (default (uninitialized a) (arm2x86_decode (Some tt) mem a (Some (uninitialized a))).2).
Definition ends_block (mem : Z -> Z) (a : Z) : bool := is_block_terminator (type_at mem a).
Definition recorded_at (mem : Z -> Z) (a : Z) : bool := records (type_at mem a) (read_le32 mem a).

Record instruction_ok (n : nat) (src : Z) (t t' : TranslateCtx) : Prop := {
  io_out : exists c, x86_out t' = x86_out t ++ c /\ (length c <= n)%nat;
  io_cur : arm64_cur t' = src + 4;
  io_alloc : alloc_ok t -> alloc_ok t' }.

Lemma convert64_instruction_ok mem src t :
  exists t', convert64_instruction mem src t = (ends_block mem src, t') /\
  instruction_ok (max_handler_bytes + if ends_block mem src then 56 else 0) src t t'.
Proof.
  unfold convert64_instruction, ends_block, type_at. set (d := default _ _). cbv zeta.
  unfold mbind at 1, translator_bind at 1.
  pose proof (safe_translate_decoded (d_instr_type d) (read_le32 mem src) (d_imm d) t) as [[(c & E & L) C _] K].
  destruct (translate_decoded _ _ _ t) as [u t1]. cbn [snd] in *.
  unfold mbind at 1, translator_bind at 1, modify. cbv beta iota.
  destruct (is_block_terminator _).
  - pose proof (safe_store_live_out (set_arm64_cur (src + 4) t1)) as [[(c2 & E2 & L2) C2 _] K2].
    unfold mbind, translator_bind. destruct (store_live_out _) as [u2 t2]. cbn [snd] in *.
    exists t2. split; [done|]. split.
    + exists (c ++ c2). rewrite E2. cbn [x86_out set_arm64_cur]. rewrite E, app_assoc, length_app. split; [done|lia].
    + done.
    + intros H%K. apply K2. by apply (alloc_ok_ext t1).
  - eexists. split; [done|]. split; cbn [x86_out set_arm64_cur arm64_cur].
    + exists c. split; [done|lia].
    + done.
    + intros H%K. by apply (alloc_ok_ext t1).
Qed.

(** An iteration adds its instruction to the address map if the word is one of those that
    enter it. *)
Lemma convert64_instruction_records mem src t : (length (pc_map t) < 256)%nat ->
  pc_map (convert64_instruction mem src t).2 =
  pc_map t ++ (if recorded_at mem src then [(arm64_cur t, length (x86_out t))] else []).
Proof.
  intros Ht. unfold convert64_instruction, recorded_at, type_at. set (d := default _ _). cbv zeta.
  rewrite !then_state. unfold modify. cbn [snd]. set (t1 := (translate_decoded _ _ _ t).2).
  assert (H1 : pc_map t1 = pc_map t ++
    if records (d_instr_type d) (read_le32 mem src) then [(arm64_cur t, length (x86_out t))] else []).
  { pose proof (decoded_records (d_instr_type d) (read_le32 mem src) (d_imm d)) as H. unfold t1.
    destruct (records _ _); [by apply H | rewrite app_nil_r; apply H]. }
  rewrite <- H1. destruct (is_block_terminator _); [|done].
  rewrite then_ret. exact (safe_keeps_map _ _ safe_store_live_out (set_arm64_cur (src + 4) t1)).
Qed.

(** ** The states the translator passes through *)

Definition prologue_bytes : list Z := code block_prologue ++ [0x48; 0x8b; 0xad; 0xe8; 0; 0; 0].

Definition start_ctx (arm64_code : Z) : TranslateCtx :=
  ((emit block_prologue ;; reg_alloc_init ;; reg_alloc_setup_calling_convention) (initial_ctx arm64_code)).2.

(** [translating mem code i t]: [t] is the context before the instruction [i] of the code
    at [code], all those before it having been translated. *)
Inductive translating (mem : Z -> Z) (arm64_code : Z) : nat -> TranslateCtx -> Prop :=
| translating_start : translating mem arm64_code 0 (start_ctx arm64_code)
| translating_step i t :
    translating mem arm64_code i t ->
    translating mem arm64_code (S i) (convert64_instruction mem (arm64_code + 4 * Z.of_nat i) t).2.

Lemma start_ctx_eq arm64_code :
  start_ctx arm64_code =
  {| arm64_cur := arm64_code; x86_out := prologue_bytes; reg_alloc := frame_in_rbp;
     free_regs := rev reg_alloc_map; pc_map := []; jump_targets := [] |}.
Proof.
  unfold start_ctx. unfold mbind at 1, translator_bind at 1.
  destruct (emit block_prologue (initial_ctx arm64_code)) as [u t1] eqn:E.
  rewrite init_setup. cbn [snd]. unfold emit in E.
  pose proof (eq_refl : code block_prologue = code block_prologue) as Hc. unfold code at 1 in Hc.
  change (x86_out (initial_ctx arm64_code)) with (@nil Z) in E.
  destruct (block_prologue []) as [u' b]. cbn [snd] in Hc. injection E as <- <-.
  unfold prologue_bytes. rewrite <- Hc. done.
Qed.

(** The states are related in order. *)
Lemma translating_fun mem a i t1 t2 : translating mem a i t1 -> translating mem a i t2 -> t1 = t2.
Proof.
  intros H. revert t2. induction H as [|i t H IH]; intros t2 H2; inversion H2; subst; [done|].
  by rewrite (IH t0).
Qed.

(** What holds of every state on the way. *)
Record state_ok (mem : Z -> Z) (arm64_code : Z) (i : nat) (t : TranslateCtx) : Prop := {
  so_alloc : alloc_ok t;
  so_cur : arm64_cur t = arm64_code + 4 * Z.of_nat i;
  so_out : exists c, x86_out t = prologue_bytes ++ c /\ (length c <= (max_handler_bytes + 56) * i)%nat }.

Lemma translating_ok mem a i t : translating mem a i t -> state_ok mem a i t.
Proof.
  induction 1 as [|i t Ht IH].
  - rewrite start_ctx_eq. split; cbn [arm64_cur x86_out].
    + by apply setup_alloc_ok.
    + lia.
    + exists []. rewrite app_nil_r. split; [done | cbn; lia].
  - destruct (convert64_instruction_ok mem (a + 4 * Z.of_nat i) t) as (t' & E & H). rewrite E. cbn [snd].
    destruct H as [(c & O & L) C K]. destruct IH as [A1 C1 (c1 & O1 & L1)]. split.
    + by apply K.
    + rewrite C. lia.
    + exists (c1 ++ c). rewrite O, O1, app_assoc, length_app. split; [done|].
      destruct (ends_block _ _); lia.
Qed.

(** The states before [t] exist, and their code is a prefix of its. *)
Lemma translating_before mem a i t j : translating mem a i t -> (j <= i)%nat ->
  exists s, translating mem a j s /\ exists c, x86_out t = x86_out s ++ c.
Proof.
  induction 1 as [|i t Ht IH]; intros Hj.
  - exists (start_ctx a). replace j with 0%nat by lia. split; [apply translating_start|].
    exists []. by rewrite app_nil_r.
  - destruct (decide (j = S i)) as [->|].
    + eexists. split; [by apply translating_step|]. exists []. by rewrite app_nil_r.
    + destruct (IH ltac:(lia)) as (s & Hs & c & Hc). exists s. split; [done|].
      destruct (convert64_instruction_ok mem (a + 4 * Z.of_nat i) t) as (t' & E & [(c' & O & _) _ _]).
      rewrite E. cbn [snd]. exists (c ++ c'). by rewrite O, Hc, app_assoc.
Qed.

(** The address map: the recorded ones of the first [i] instructions, in order, each with
    the place of the first byte of its code. *)
Definition map_entry (mem : Z -> Z) (arm64_code : Z) (j : nat) (e : Z * nat) : Prop :=
  exists s, translating mem arm64_code j s /\ e = (arm64_code + 4 * Z.of_nat j, length (x86_out s)).
Definition recorded_before (mem : Z -> Z) (arm64_code : Z) (i : nat) : list nat :=
  List.filter (fun j => recorded_at mem (arm64_code + 4 * Z.of_nat j)) (seq 0 i).

Lemma pc_map_recorded mem a i t : translating mem a i t -> (i <= 256)%nat ->
  Forall2 (map_entry mem a) (recorded_before mem a i) (pc_map t).
Proof.
  induction 1 as [|i t Ht IH]; intros Hi.
  { rewrite start_ctx_eq. constructor. }
  specialize (IH ltac:(lia)).
  assert (Hl : (length (pc_map t) < 256)%nat).
  { rewrite <- (Forall2_length _ _ _ IH). unfold recorded_before.
    pose proof (List.filter_length_le (fun j => recorded_at mem (a + 4 * Z.of_nat j)) (seq 0 i)) as H.
    rewrite length_seq in H. lia. }
  rewrite convert64_instruction_records by done. unfold recorded_before.
  rewrite seq_S, List.filter_app. apply Forall2_app; [exact IH|]. cbn [List.filter Nat.add].
  destruct (recorded_at mem (a + 4 * Z.of_nat i)); [|constructor].
  constructor; [|constructor]. exists t. split; [done|].
  by rewrite (so_cur _ _ _ _ (translating_ok _ _ _ _ Ht)).
Qed.

(** ** The loop *)

Lemma loop_ok n mem a e i t :
  translating mem a i t ->
  exists k t', convert64_loop n mem (a + 4 * Z.of_nat i) e t = (tt, t') /\ (k <= n)%nat /\
    translating mem a (i + k) t' /\
    (forall j, (i <= j < i + k)%nat -> a + 4 * Z.of_nat j < e) /\
    (forall j, (i <= j)%nat -> (S j < i + k)%nat -> ends_block mem (a + 4 * Z.of_nat j) = false) /\
    (k = n \/ e <= a + 4 * Z.of_nat (i + k) \/
     (0 < k)%nat /\ ends_block mem (a + 4 * Z.of_nat (i + k - 1)) = true) /\
    exists c, x86_out t' = x86_out t ++ c /\ (length c <= max_handler_bytes * k + 56)%nat.
Proof.
  revert i t. induction n as [|n IH]; intros i t Ht.
  { exists 0%nat, t. rewrite Nat.add_0_r. split; [done|]. split; [lia|]. split; [done|].
    split; [lia|]. split; [lia|]. split; [by left|]. exists []. rewrite app_nil_r. split; [done|cbn; lia]. }
  cbn [convert64_loop]. destruct (Z.ltb_spec (a + 4 * Z.of_nat i) e) as [He|He].
  2:{ exists 0%nat, t. rewrite Nat.add_0_r. split; [done|]. split; [lia|]. split; [done|].
    split; [lia|]. split; [lia|]. split; [by right; left|]. exists []. rewrite app_nil_r. split; [done|cbn; lia]. }
  destruct (convert64_instruction_ok mem (a + 4 * Z.of_nat i) t) as (t1 & E & [(c & O & L) _ _]).
  pose proof (translating_step _ _ _ _ Ht) as Ht1. rewrite E in Ht1. cbn [snd] in Ht1.
  unfold mbind, translator_bind. rewrite E.
  destruct (ends_block mem (a + 4 * Z.of_nat i)) eqn:Eb.
  - exists 1%nat, t1. rewrite Nat.add_1_r. split; [done|]. split; [lia|]. split; [done|].
    split; [intros j Hj; by replace j with i by lia|]. split; [lia|]. split.
    + right; right. split; [lia|]. by replace (S i - 1)%nat with i by lia.
    + exists c. split; [done|lia].
  - destruct (IH (S i) t1 Ht1) as (k & t' & E' & Hk & Htr & Hlt & Hnb & Hend & c' & O' & L').
    replace (a + 4 * Z.of_nat i + 4) with (a + 4 * Z.of_nat (S i)) by lia.
    exists (S k), t'. rewrite <- (Nat.add_succ_comm i k). split; [done|]. split; [lia|]. split; [done|]. split_and!.
    + intros j Hj. destruct (decide (j = i)) as [->|]; [done|]. apply Hlt. lia.
    + intros j Hj Hj'. destruct (decide (j = i)) as [->|]; [done|]. apply Hnb; lia.
    + destruct Hend as [-> | [H | [H1 H2]]]; [by left | by right; left | right; right]. split; [lia | done].
    + exists (c ++ c'). rewrite O', O, app_assoc, length_app. split; [done|lia].
Qed.

(** ** The block *)

Lemma convert_block_body_eq mem a size :
  convert_block_body mem a size (initial_ctx a) =
  (convert64_loop max_instructions mem a (a + size) ;; store_live_out ;; emit block_epilogue) (start_ctx a).
Proof.
  unfold convert_block_body, start_ctx. unfold mbind, translator_bind.
  destruct (emit block_prologue (initial_ctx a)) as [u1 t1]. cbv beta iota.
  destruct (reg_alloc_init t1) as [u2 t2]. cbv beta iota.
  destruct (reg_alloc_setup_calling_convention t2) as [u3 t3]. done.
Qed.

(** With valid pointers and a register home the block is the body run on the context. *)
Lemma convert_block64_run m a s reg_home malloc_ok : a <> 0 -> (reg_home <> None \/ malloc_ok = true) ->
  arm2x86_convert_block (Some tt) m a s true true reg_home malloc_ok =
  let out := x86_out (convert_block_body m a s (initial_ctx a)).2 in (ARM2X86_OK, Some (out, Z.of_nat (length out))).
Proof.
  intros H Hm. unfold arm2x86_convert_block. rewrite (proj2 (Z.eqb_neq a 0) H). cbn [orb negb].
  destruct reg_home, malloc_ok, Hm; done.
Qed.

(** The translation of the first [n] words, which [block_extent] determines. *)
Definition block_extent (mem : Z -> Z) (arm64_code arm64_size : Z) (n : nat) : Prop :=
  (n <= 64)%nat /\
  (forall j, (j < n)%nat -> 4 * Z.of_nat j < arm64_size) /\
  (forall j, (S j < n)%nat -> ends_block mem (arm64_code + 4 * Z.of_nat j) = false) /\
  (n = 64%nat \/ arm64_size <= 4 * Z.of_nat n \/
   (0 < n)%nat /\ ends_block mem (arm64_code + 4 * Z.of_nat (n - 1)) = true).

Lemma convert_block64_eq mem arm64_code arm64_size reg_home malloc_ok :
  arm64_code <> 0 -> (reg_home <> None \/ malloc_ok = true) ->
  exists n t body,
    let out := prologue_bytes ++ body ++ [0x48; 0x8b; 0x85; 0; 0; 0; 0; 0xc3] in
    arm2x86_convert_block (Some tt) mem arm64_code arm64_size true true reg_home malloc_ok
      = (ARM2X86_OK, Some (out, Z.of_nat (length out))) /\
    block_extent mem arm64_code arm64_size n /\ translating mem arm64_code n t /\
    x86_out (store_live_out t).2 = prologue_bytes ++ body /\
    (length body <= 658 * n + 112)%nat.
Proof.
  intros Ha Hm. rewrite convert_block64_run by done. rewrite convert_block_body_eq.
  destruct (loop_ok max_instructions mem arm64_code (arm64_code + arm64_size) 0 _ (translating_start mem arm64_code))
    as (n & t' & E & Hn & Htr & Hlt & Hnb & Hend & c & O & L).
  cbn [Nat.add] in *. change (4 * Z.of_nat 0) with 0 in E. rewrite Z.add_0_r in E.
  unfold mbind, translator_bind. rewrite E.
  pose proof (safe_store_live_out t') as [[(c2 & O2 & L2) _ _] _].
  exists n, t', (c ++ c2). cbv zeta. rewrite start_ctx_eq in O. cbn [x86_out] in O.
  destruct (store_live_out t') as [u2 t2]. cbn [snd] in *.
  assert (Hout : x86_out (emit block_epilogue t2).2 = prologue_bytes ++ (c ++ c2) ++ [72; 139; 133; 0; 0; 0; 0; 195]).
  { assert (He : Appends block_epilogue) by (apply rel_appends; solve_rel).
    specialize (He (x86_out t2)). unfold emit. destruct (block_epilogue _) as [u b]. cbn [snd x86_out set_out] in *.
    rewrite He, O2, O, <- !app_assoc. done. }
  rewrite Hout. split; [done|]. split; [|split; [done|split]].
  - split; [done|]. split; [intros j Hj; specialize (Hlt j ltac:(lia)); lia|].
    split; [intros j Hj; apply Hnb; lia|].
    destruct Hend as [-> | [H | H]]; [by left | right; left; lia | by right; right].
  - by rewrite O2, O, <- app_assoc.
  - rewrite length_app. unfold max_handler_bytes in L. lia.
Qed.

Lemma block_extent_unique mem a size n k :
  block_extent mem a size n -> block_extent mem a size k -> n = k.
Proof.
  assert (H : forall n k, block_extent mem a size n -> block_extent mem a size k -> ~ (n < k)%nat).
  { intros n1 k1 (_ & _ & _ & He) (L2 & H2 & Hb & _) Hlt. destruct He as [-> | [He | [Hp He]]].
    - lia.
    - specialize (H2 n1 Hlt). lia.
    - specialize (Hb (n1 - 1)%nat ltac:(lia)). congruence. }
  intros Hn Hk. pose proof (H n k Hn Hk). pose proof (H k n Hk Hn). lia.
Qed.

(** A division of sixteen signed bytes, in every word. *)
Definition neon_div_code (a : Z) : Z := nth (Z.to_nat (a mod 4)) [0x10; 0xd0; 0x00; 0x1e] 0.


(** ** Branches within the block *)

Lemma translate_b_eq op t :
  let target := u64 (arm64_cur t + arm2x86_sign_extend ((op &&& 0x03ffffff) <<< 2) 28) in
  let t1 := (record_pc t).2 in
  translate_b op t = (ARM2X86_OK, (jump_to target 0 t1).2).
Proof.
  intros target t1. unfold translate_b. unfold mbind at 1, translator_bind at 1, gets. cbv zeta beta iota.
  fold target. unfold mbind, translator_bind, t1. destruct (record_pc t) as [u t2]. cbn [snd].
  by destruct (jump_to target 0 t2).
Qed.

Lemma decode_jmp_rel_s32 v rest : decode (0xe9 :: le_bytes 4 v ++ rest) = Some (JmpRel (s32 v), rest).
Proof.
  change (decode (0xe9 :: ?l)) with ('(d, r) ← take_s32 l; Some (JmpRel d, r)).
  by rewrite take_s32_bytes.
Qed.

(** A direct jump to the place [pos]. *)
Lemma jump_to_recorded target t pos :
  List.find (fun e => e.1 =? target) (pc_map t) = Some (target, pos) ->
  Z.of_nat (length (x86_out t)) <= 100000 -> (pos <= length (x86_out t))%nat ->
  exists jmp rel, x86_out (jump_to target 0 t).2 = x86_out t ++ jmp /\
    decode jmp = Some (JmpRel rel, []) /\
    Z.of_nat (length (x86_out t)) + 5 + rel = Z.of_nat pos.
Proof.
  intros Hf Hl Hp. rewrite jump_to_out. unfold jump_bytes. rewrite Hf. cbn [snd].
  eexists. eexists. split; [done|]. split.
  - change (if c_true 0 then 0xe8 else 0xe9) with 0xe9. set (v := s32 _).
    rewrite <- (app_nil_r (le_bytes 4 v)). apply decode_jmp_rel_s32.
  - rewrite (s32_small (Z.of_nat pos - _)) by lia. rewrite s32_small by lia. lia.
Qed.

(** A jump to an address the map does not have. *)
Lemma jump_to_unrecorded target t :
  List.find (fun e => e.1 =? target) (pc_map t) = None ->
  exists jmp, x86_out (jump_to target 0 t).2 = x86_out t ++ jmp /\
    decode jmp = if target =? 0 then Some (JmpRel 0, []) else Some (JmpRm (RipRel 0), le_bytes 8 target).
Proof.
  intros Hf. rewrite jump_to_out. unfold jump_bytes. rewrite Hf. eexists. split; [done|].
  unfold emit_dispatch_stub. destruct (target =? 0); [reflexivity|].
  unfold code, mbind, emitter_bind, emit_byte. rewrite imm32_zero_run. unfold emit_bytes. reflexivity.
Qed.

(** The map at a branch that has been recorded itself. *)
Definition branch_map (mem : Z -> Z) (arm64_code : Z) (i : nat) : list nat := recorded_before mem arm64_code i ++ [i].

Lemma branch_map_entries mem a i t : translating mem a i t -> (i < 256)%nat ->
  Forall2 (map_entry mem a) (branch_map mem a i) (pc_map (record_pc t).2).
Proof.
  intros Ht Hi. pose proof (pc_map_recorded _ _ _ _ Ht ltac:(lia)) as H.
  assert (Hl : (length (pc_map t) < 256)%nat).
  { rewrite <- (Forall2_length _ _ _ H). unfold recorded_before.
    pose proof (List.filter_length_le (fun j => recorded_at mem (a + 4 * Z.of_nat j)) (seq 0 i)) as Hf.
    rewrite length_seq in Hf. lia. }
  assert (Hr : Records (record_pc ≫= mret)) by (apply records_bind; intros u; apply (safe_keeps_map 0), safe_ret).
  specialize (Hr t Hl). unfold mbind, translator_bind in Hr.
  destruct (record_pc t) as [u t1]. cbn [snd] in *. change ((mret u : translator unit) t1) with (u, t1) in Hr.
  cbn [snd] in Hr. rewrite Hr. apply Forall2_app; [done|]. constructor; [|constructor].
  exists t. split; [done|]. by rewrite (so_cur _ _ _ _ (translating_ok _ _ _ _ Ht)).
Qed.

Lemma find_map_entry mem a l m j s : Forall2 (map_entry mem a) l m -> j ∈ l -> translating mem a j s ->
  let target := a + 4 * Z.of_nat j in
  List.find (fun e => e.1 =? target) m = Some (target, length (x86_out s)).
Proof.
  intros H Hj Hs target. induction H as [|k e l m (s' & Hs' & ->) H IH]; [by apply elem_of_nil in Hj|].
  cbn [List.find fst]. destruct (Z.eqb_spec (a + 4 * Z.of_nat k) target) as [E|E].
  - assert (k = j) as -> by (unfold target in E; lia). by rewrite (translating_fun _ _ _ _ _ Hs' Hs).
  - apply IH. apply elem_of_cons in Hj as [->|]; [unfold target in E; lia | done].
Qed.

Lemma find_no_entry mem a l m target : Forall2 (map_entry mem a) l m ->
  (forall j, j ∈ l -> target <> a + 4 * Z.of_nat j) -> List.find (fun e => e.1 =? target) m = None.
Proof.
  intros H. induction H as [|k e l m (s' & _ & ->) H IH]; intros Hn; [done|].
  cbn [List.find fst]. destruct (Z.eqb_spec (a + 4 * Z.of_nat k) target) as [E|E].
  - destruct (Hn k); [apply elem_of_cons; by left | done].
  - apply IH. intros j Hj. apply Hn. apply elem_of_cons. by right.
Qed.

Lemma elem_of_branch_map mem a i j :
  j ∈ branch_map mem a i <-> j = i \/ (j < i)%nat /\ recorded_at mem (a + 4 * Z.of_nat j) = true.
Proof.
  unfold branch_map, recorded_before. rewrite elem_of_app, list_elem_of_singleton, list_elem_of_In.
  rewrite List.filter_In, in_seq. intuition lia.
Qed.

(** The iteration for a word decoded as B: the branch, then the stores of the live registers. *)
Lemma convert64_instruction_b mem src t : type_at mem src = INSTR_B ->
  exists c, x86_out (convert64_instruction mem src t).2 = x86_out (translate_b (read_le32 mem src) t).2 ++ c /\
    (length c <= 56)%nat.
Proof.
  unfold type_at, convert64_instruction. set (d := default _ _). intros Hd. cbv zeta. rewrite !then_state, Hd.
  change (is_block_terminator INSTR_B) with true. cbv iota. rewrite then_ret. unfold modify. cbn [snd].
  assert (E : (translate_decoded INSTR_B (read_le32 mem src) (d_imm d) t).2 = (translate_b (read_le32 mem src) t).2).
  { change (translate_decoded INSTR_B ?op ?imm) with (_ ← translate_b op; mret tt : translator unit). apply then_ret. }
  rewrite E. set (t1 := (translate_b _ t).2).
  pose proof (safe_store_live_out (set_arm64_cur (src + 4) t1)) as [[(c & O & L) _ _] _].
  exists c. split; [exact O | exact L].
Qed.


End Block64.

(** ** The stores at the end of a block *)

Definition is_dirty (t : TranslateCtx) (i : Z) : bool := negb (x86_reg (entry t i) =? 0xff) && dirty (entry t i).

(** The bytes that store a guest register from its register to its home. *)
Definition store_bytes (t : TranslateCtx) (i : Z) : list Z :=
  let e := entry t i in code (emit_store_arm_reg (x86_reg e) i (b2z (is_64bit e))).

Definition cleaned (e : RegAllocEntry) : RegAllocEntry := if x86_reg e =? 0xff then e else set_dirty false e.

Lemma spill_effect i t : (Z.to_nat i < length (reg_alloc t))%nat -> 0 <= i ->
  let t' := (reg_alloc_spill i t).2 in
  x86_out t' = x86_out t ++ (if is_dirty t i then store_bytes t i else []) /\
  length (reg_alloc t') = length (reg_alloc t) /\
  forall j, 0 <= j -> entry t' j = if j =? i then cleaned (entry t i) else entry t j.
Proof.
  intros Hi H0. cbv zeta. unfold reg_alloc_spill, is_dirty, store_bytes, cleaned. rewrite bind_gets. set (e := entry t i).
  destruct (x86_reg e =? 0xff) eqn:E1; cbn [negb andb].
  { cbn [snd]. change ((mret tt : translator unit) t) with (tt, t). cbn [snd]. rewrite app_nil_r.
    split_and!; try done. intros j Hj. by destruct (Z.eqb_spec j i) as [->|]. }
  destruct (dirty e) eqn:E2.
  2:{ change ((mret tt : translator unit) t) with (tt, t). cbn [snd]. rewrite app_nil_r.
      split_and!; try done. intros j Hj. destruct (Z.eqb_spec j i) as [->|]; [|done].
      fold e. destruct e as [? d ?]. cbn in E2. by subst d. }
  set (m := emit_store_arm_reg _ _ _). rewrite then_state.
  destruct (emit_out m t) as [Ho _]; [apply _|]. destruct (emit_same m t) as [Ha Hf].
  split; [exact Ho|]. split; [alloc_simpl; by rewrite length_alter, Ha|].
  intros j Hj. destruct (Z.eqb_spec j i) as [->|Hne].
  - rewrite entry_set_entry by (by rewrite Ha). by rewrite entry_emit.
  - rewrite entry_set_entry_ne by done. by rewrite entry_emit.
Qed.

Lemma batch_store_effect l t :
  NoDup l -> Forall (fun i => 0 <= i /\ (Z.to_nat i < length (reg_alloc t))%nat) l ->
  let t' := (reg_alloc_emit_batch_store l t).2 in
  x86_out t' = x86_out t ++ concat (map (store_bytes t) (List.filter (is_dirty t) l)) /\
  forall j, 0 <= j -> entry t' j = if bool_decide (j ∈ l) then cleaned (entry t j) else entry t j.
Proof.
  unfold reg_alloc_emit_batch_store. revert t. induction l as [|i l IH]; intros t Hnd Hl.
  - cbn. rewrite app_nil_r. split; [done|]. intros j Hj. by rewrite bool_decide_eq_false_2 by set_solver.
  - apply NoDup_cons in Hnd as [Hni Hnd]. apply Forall_cons in Hl as [[H0 Hi] Hl].
    destruct (spill_effect i t Hi H0) as (Ho & Hn & He). cbv zeta. cbn [for_regs]. rewrite then_state.
    set (t1 := (reg_alloc_spill i t).2) in *.
    destruct (IH t1 Hnd) as [Ho' He'].
    { eapply Forall_impl; [exact Hl|]. cbv beta. by rewrite Hn. }
    assert (Hsame : forall j, j ∈ l -> entry t1 j = entry t j).
    { intros j Hj. assert (0 <= j) by (rewrite Forall_forall in Hl; by apply Hl in Hj as [? _]).
      rewrite He by done. destruct (Z.eqb_spec j i) as [->|]; done. }
    split.
    + rewrite Ho', Ho, <- app_assoc. f_equal. cbn [List.filter].
      assert (Hf : List.filter (is_dirty t1) l = List.filter (is_dirty t) l).
      { apply filter_ext_in. intros j Hj%list_elem_of_In. unfold is_dirty. by rewrite Hsame. }
      assert (Hm : map (store_bytes t1) (List.filter (is_dirty t) l) = map (store_bytes t) (List.filter (is_dirty t) l)).
      { apply map_ext_in. intros j [Hj _]%List.filter_In. unfold store_bytes. rewrite Hsame by (by apply list_elem_of_In). done. }
      rewrite Hf, Hm. by destruct (is_dirty t i).
    + intros j Hj. rewrite He' by done. rewrite He by done.
      destruct (Z.eqb_spec j i) as [->|Hne].
      * rewrite bool_decide_eq_false_2 by done. by rewrite bool_decide_eq_true_2 by set_solver.
      * rewrite (bool_decide_ext (j ∈ l) (j ∈ i :: l)) by set_solver. done.
Qed.

Lemma dirty_of_allocated t k :
  List.filter (is_dirty t) (List.filter (fun i => negb (x86_reg (entry t i) =? 0xff)) k) = List.filter (is_dirty t) k.
Proof.
  induction k as [|i k IH]; [done|]. cbn [List.filter].
  destruct (x86_reg (entry t i) =? 0xff) eqn:E; cbn [negb].
  - replace (is_dirty t i) with false by (unfold is_dirty; by rewrite E). exact IH.
  - cbn [List.filter]. by rewrite IH.
Qed.

(** The stores at the end of a block, for every state of the allocator: those of
    the dirty registers among X0 to X7, in order, which are clean afterwards.  A value
    that X8 to X30 have in a register only is not stored: it is lost when the block
    returns. *)
Theorem block_exit_stores t :
  length (reg_alloc t) = 32%nat ->
  let t' := (store_live_out t).2 in
  x86_out t' = x86_out t ++ concat (map (store_bytes t) (List.filter (is_dirty t) (seqZ 0 8))) /\
  forall i, 0 <= i -> entry t' i = if i <? 8 then cleaned (entry t i) else entry t i.
Proof.
  intros Hl. unfold store_live_out, reg_alloc_compute_live_out, live_regs. rewrite bind_gets.
  set (l := List.filter _ (seqZ 0 8)). cbv zeta.
  assert (Hin : forall j, j ∈ l <-> 0 <= j < 8 /\ x86_reg (entry t j) <> 0xff).
  { intros j. unfold l. rewrite list_elem_of_In, List.filter_In, <- list_elem_of_In, elem_of_seqZ.
    rewrite negb_true_iff, Z.eqb_neq. split; intros [? ?]; split; done || lia. }
  destruct (batch_store_effect l t) as [Ho He].
  { apply NoDup_ListNoDup, List.NoDup_filter, NoDup_ListNoDup. apply NoDup_seqZ. }
  { apply Forall_forall. intros j [Hj _]%Hin. rewrite Hl. lia. }
  split.
  - rewrite Ho. do 3 f_equal. apply dirty_of_allocated.
  - intros i Hi. rewrite He by done. destruct (Z.ltb_spec i 8) as [H8|H8].
    + destruct (decide (x86_reg (entry t i) = 0xff)) as [E|E].
      * rewrite bool_decide_eq_false_2 by (intros [_ ?]%Hin; done). unfold cleaned. by rewrite E.
      * by rewrite bool_decide_eq_true_2 by (apply Hin; done || lia).
    + rewrite bool_decide_eq_false_2 by (intros [? _]%Hin; lia). done.
Qed.
Lemma block_exit_stores_witness :
  let t := {| arm64_cur := 0; x86_out := []; free_regs := []; pc_map := []; jump_targets := [];
              reg_alloc := replicate 8 no_entry ++ [{| x86_reg := X86_REG_RAX; dirty := true; is_64bit := true |}] ++ replicate 23 no_entry |} in
  entry (store_live_out t).2 8 = {| x86_reg := X86_REG_RAX; dirty := true; is_64bit := true |}.
Proof. intros t. destruct (block_exit_stores t eq_refl) as [_ H]. apply (H 8). lia. Defined.

(** ** Instances *)

(** An environment: no run-time helpers, relaxed memory ordering. *)
Definition bare_host : Host :=
  {| strict_memory_ordering := false; arm2x86_mrs_tpidr_el0 := 0; arm2x86_mrs_tpidrro_el0 := 0;
     arm2x86_msr_tpidr_el0 := 0; undefined_shift := fun _ _ => 0; undefined_fp := fun _ => 0;
     undefined_fp32 := fun _ => 0 |}.
Definition nothing_decoded (a : Z) : DecodedInstruction := zero_instruction.


(** [ADD X0, X0, X1; B .-4]: the branch goes back to the code of the addition. *)
Definition add_loop (a : Z) : Z := nth (Z.to_nat (a - 0x1000)) [0; 0; 0x01; 0x8b; 0xff; 0xff; 0xff; 0x17] 0.

