(* ===== verification/Run64.v ===== *)
(** * What the code of the ARM64 handlers does

    The code appended by a handler, run on the x86 machine of [X86.v] with the address of
    the register home in RBP: [x_value st i] is the guest register [i] as the home has it
    in the machine state [st].  One theorem each for the system registers, the arithmetic
    through the home in its 64-bit and its 32-bit forms, loads and stores, the arithmetic
    through the register allocator, and the moves of immediates. *)
From S2P Require Import Prelude X86 Emit Regs Decode64 Frame RegAlloc Translate64 Handlers64.
From Stdlib Require Import ZArith Lia Bool.
From stdpp Require Import base numbers list.
Open Scope Z_scope.
Open Scope c_scope.

(** ** The guest registers in memory, and instructions that use them *)

Definition x_addr (st : machine) (i : Z) : Z := eff_addr st (Some X86_REG_RBP) None (8 * i).
Definition x_value (st : machine) (i : Z) : Z := load64 (memory st) (x_addr st i).
Definition w_value (st : machine) (i : Z) : Z := load32 (memory st) (x_addr st i).

(** The homes of two guest registers are eight bytes apart or more. *)
Lemma x_addr_apart st i j : 0 <= i < 32 -> 0 <= j < 32 -> i <> j ->
  8 <= (x_addr st i - x_addr st j) mod 2^64 <= 2^64 - 8.
Proof.
  intros Hi Hj Hij. unfold x_addr, eff_addr, u64. rewrite <- Zminus_mod.
  replace (_ - _) with (8 * (i - j)) by lia.
  destruct (decide (i < j)).
  - rewrite <- (Z_mod_plus_full _ 1), Z.mod_small; lia.
  - rewrite Z.mod_small; lia.
Qed.

Lemma decodes_load a x : 0 <= a < 32 -> 0 <= x < 16 ->
  Decodes (emit_load_arm_reg a x 1) [MovRRm W64 x (Mem (Some 5) None (8 * a))].
Proof. intros. apply decodes_one; [apply _|]. intros. by apply decode_load_arm_reg. Qed.
Lemma decodes_store x a : 0 <= x < 8 -> 0 <= a < 32 ->
  Decodes (emit_store_arm_reg x a 1) [MovRmR W64 (Mem (Some 5) None (8 * a)) x].
Proof.
  intros Hx Ha. apply decodes_one; [apply _|]. intros. rewrite decode_store_arm_reg by lia.
  rewrite (proj2 (Z.ltb_lt x 8)) by lia. by rewrite Z.mod_small by lia.
Qed.

Lemma code_load32 a x :
  code (emit_load_arm_reg a x 0) = [0x8b] ++ code (modrm 2 (x &&& 7) 5) ++ le_bytes 4 (a * 8).
Proof.
  unfold emit_load_arm_reg. cbv zeta. change (c_true 0) with false. cbv iota.
  rewrite !code_bind_const by (apply rel_appends; solve_rel). by rewrite code_imm32.
Qed.
Lemma code_store32 x a :
  code (emit_store_arm_reg x a 0) = [0x89] ++ code (modrm 2 (x &&& 7) 5) ++ le_bytes 4 (a * 8).
Proof.
  unfold emit_store_arm_reg. cbv zeta. change (c_true 0) with false. cbv iota.
  rewrite !code_bind_const by (apply rel_appends; solve_rel). by rewrite code_imm32.
Qed.

(** The 32-bit forms have no REX prefix: R8 to R15 become EAX to EDI. *)
Lemma decodes_load32 a x k : 0 <= a < 32 -> 0 <= x < 16 -> x mod 8 = k ->
  Decodes (emit_load_arm_reg a x 0) [MovRRm W32 k (Mem (Some 5) None (8 * a))].
Proof.
  intros Ha Hx <-. apply decodes_one; [apply _|]. intros rest. rewrite code_load32, <- !app_assoc.
  transitivity ('(reg, rm, r) ← ('(d, r) ← take_s32 (le_bytes 4 (a * 8) ++ rest); Some (x mod 8, Mem (Some 5) None d, r));
                Some (MovRRm W32 reg rm, r)).
  - generalize (le_bytes 4 (a * 8) ++ rest). intros l. each_of_16 Hx; reflexivity.
  - rewrite take_s32_bytes. cbn. rewrite s32_small by lia. by rewrite Z.mul_comm.
Qed.
Lemma decodes_store32 x a k : 0 <= x < 16 -> 0 <= a < 32 -> x mod 8 = k ->
  Decodes (emit_store_arm_reg x a 0) [MovRmR W32 (Mem (Some 5) None (8 * a)) k].
Proof.
  intros Hx Ha <-. apply decodes_one; [apply _|]. intros rest. rewrite code_store32, <- !app_assoc.
  transitivity ('(reg, rm, r) ← ('(d, r) ← take_s32 (le_bytes 4 (a * 8) ++ rest); Some (x mod 8, Mem (Some 5) None d, r));
                Some (MovRmR W32 rm reg, r)).
  - generalize (le_bytes 4 (a * 8) ++ rest). intros l. each_of_16 Hx; reflexivity.
  - rewrite take_s32_bytes. cbn. rewrite s32_small by lia. by rewrite Z.mul_comm.
Qed.

Lemma reg_field v : 0 <= v &&& 0x1f < 32.
Proof. pose proof (land_range v 0x1f ltac:(lia)). lia. Qed.

Ltac decodes_step :=
  cbv beta zeta;
  lazymatch goal with
  | |- Decodes (mbind _ (rex_rm _ _)) _ => simple eapply decodes_three; [decodes_closed|]
  | |- Decodes (mbind _ (emit_byte 0xf7)) _ => simple eapply decodes_two; [decodes_closed|]
  | |- Decodes (mbind _ _) _ => simple eapply decodes_bind
  | |- Decodes (emit_load_arm_reg _ _ 1) _ => simple apply decodes_load; [apply reg_field | split; [discriminate | reflexivity]]
  | |- Decodes (emit_store_arm_reg _ _ 1) _ => simple apply decodes_store; [split; [discriminate | reflexivity] | apply reg_field]
  | |- Decodes (emit_load_arm_reg ?a ?x 0) _ =>
      let k := eval vm_compute in (x mod 8) in
      simple apply (decodes_load32 a x k); [apply reg_field | split; [discriminate | reflexivity] | reflexivity]
  | |- Decodes (emit_store_arm_reg ?x ?a 0) _ =>
      let k := eval vm_compute in (x mod 8) in
      simple apply (decodes_store32 x a k); [split; [discriminate | reflexivity] | apply reg_field | reflexivity]
  | |- Decodes (mret tt) _ => simple apply decodes_ret
  | |- Decodes _ _ => decodes_closed
  end.
Ltac solve_decodes := repeat decodes_step.


Lemma sysreg_bound op : 0 <= sysreg_of op < 2^17.
Proof.
  unfold sysreg_of.
  assert (H : forall v m k, 0 <= m -> 0 <= k -> 0 <= (v &&& m) <<< k <= m * 2^k).
  { intros v m k Hm Hk. pose proof (land_range v m Hm). rewrite Z.shiftl_mul_pow2 by lia. nia. }
  assert (Hor : forall a b n, 0 <= n -> 0 <= a < 2^n -> 0 <= b < 2^n -> 0 <= a ||| b < 2^n).
  { intros a b n Hn Ha Hb. split; [apply Z.lor_nonneg; lia|].
    destruct (decide (a ||| b = 0)) as [->|Hne]; [lia|].
    apply Z.log2_lt_pow2; [pose proof (Z.lor_nonneg a b); lia|]. rewrite Z.log2_lor by lia.
    apply Z.max_lub_lt; (destruct (decide (0 < n)) as [|]; [|exfalso; assert (n = 0) as -> by lia; assert (a = 0) as -> by lia; assert (b = 0) as -> by lia; by apply Hne]).
    - destruct (decide (a = 0)) as [->|]; [cbn; lia | apply Z.log2_lt_pow2; lia].
    - destruct (decide (b = 0)) as [->|]; [cbn; lia | apply Z.log2_lt_pow2; lia]. }
  pose proof (H (op >>> 19) 7 14). pose proof (H (op >>> 16) 7 11). pose proof (H (op >>> 12) 15 7).
  pose proof (H (op >>> 8) 15 3). pose proof (land_range (op >>> 5) 7).
  repeat apply Hor; lia.
Qed.

(** MRS and MSR compare a 17-bit register number with constants that are whole
    instruction words, so no case ever matches: MRS of any register stores 0 to its
    destination, and MSR has no code. *)
Theorem system_registers_ignored `{host : Host} op t st :
  let rt := op &&& 0x1f in
  (exists c, x86_out (translate_mrs op t).2 = x86_out t ++ c /\
     run c st = Some {| regs := upd (regs st) X86_REG_RAX 0; memory := store64 (memory st) (x_addr st rt) 0 |}) /\
  x86_out (translate_msr op t).2 = x86_out t.
Proof.
  intros rt. pose proof (sysreg_bound op) as Hs.
  assert (Hne : forall k, 2^17 <= k -> (sysreg_of op =? k) = false) by (intros; apply Z.eqb_neq; lia).
  unfold translate_mrs, translate_msr. cbv zeta. rewrite !(then_state record_pc), !then_ret. rewrite !Hne by done. split.
  - set (m := _ ;; _). assert (D : Decodes m [AluRmR XOR W64 (Reg 0) 0; MovRmR W64 (Mem (Some 5) None (8 * rt)) 0]).
    { unfold m. eapply decodes_bind with (il := [_]) (il' := [_]); solve_decodes. }
    exists (code m). destruct (emit_out m (record_pc t).2 (dec_appends _ _ D)) as [-> _].
    rewrite record_pc_out. split; [done|]. rewrite (decodes_run _ _ _ D). cbn -[store64].
    rewrite Z.lxor_nilpotent. reflexivity.
  - destruct (emit_out (mret tt) (record_pc t).2 ltac:(apply appends_ret)) as [-> _].
    rewrite record_pc_out. apply app_nil_r.
Qed.

(** ** Arithmetic through the home *)

(** The code a handler without control flow of its own appends. *)
Lemma handler_code h m il t st :
  h t = (record_pc ;; emit m ;; mret ARM2X86_OK) t -> Decodes m il ->
  exists c, x86_out (h t).2 = x86_out t ++ c /\ run c st = exec_all il st.
Proof.
  intros -> D. exists (code m). rewrite then_state, then_ret.
  destruct (emit_out m (record_pc t).2 (dec_appends _ _ D)) as [-> _]. rewrite record_pc_out.
  split; [done | by apply decodes_run].
Qed.

(** The registers the handlers use. *)
Definition scratch : list Z := [X86_REG_RAX; X86_REG_RCX; X86_REG_RBX; X86_REG_R11].

(** [h] appends code that stores [v] to the home of [rd] and touches nothing else but
    the scratch registers. *)
Definition sets_home (store : (Z -> Z) -> Z -> Z -> (Z -> Z)) (h : translator Z) (t : TranslateCtx)
    (st : machine) (rd v : Z) : Prop :=
  exists c st', x86_out (h t).2 = x86_out t ++ c /\ run c st = Some st' /\
    memory st' = store (memory st) (x_addr st rd) v /\
    forall r, r ∉ scratch -> regs st' r = regs st r.

Ltac scratch_only :=
  let r := fresh "r" in let Hr := fresh "Hr" in
  intros r Hr; cbn [regs]; unfold upd;
  repeat match goal with
         | |- context [r =? ?k] =>
             destruct (Z.eqb_spec r k) as [->|]; [exfalso; apply Hr; apply (bool_decide_unpack _); exact I|]
         end; reflexivity.

Lemma exec_all_cons i il st st1 : exec i st = Some st1 -> exec_all (i :: il) st = exec_all il st1.
Proof. intros H. cbn [exec_all]. by rewrite H. Qed.

(** Execution instruction by instruction, the states kept apart. *)
Ltac exec_steps :=
  repeat (erewrite exec_all_cons by (cbn [exec set_reg alu_sem mbind option_bind trunc]; reflexivity);
          lazymatch goal with |- context [exec_all _ {| regs := ?r; memory := ?m |}] =>
            let s := fresh "s" in let E := fresh "E" in remember {| regs := r; memory := m |} as s eqn:E end).
(** The states back in their place, the last one first. *)
Ltac use_states :=
  repeat (match goal with
          | E : ?s = {| regs := _; memory := _ |} |- context [?s] => rewrite E
          | |- context [eff_addr ?s (Some 5) None ?d] =>
              change (eff_addr s (Some 5) None d) with (u64 (regs s 5 + 0 + d))
          | |- context [eff_addr ?s (Some 0) None ?d] =>
              change (eff_addr s (Some 0) None d) with (u64 (regs s 0 + 0 + d))
          end; cbn [regs memory]; unfold upd, X86_REG_RAX, X86_REG_RCX, X86_REG_RBX, X86_REG_RBP, X86_REG_R11; cbn [Z.eqb Pos.eqb]).

Lemma sets_home_intro store h m il t st rd v :
  h t = (record_pc ;; emit m ;; mret ARM2X86_OK) t -> Decodes m il ->
  (exists st', exec_all il st = Some st' /\ memory st' = store (memory st) (x_addr st rd) v /\
     forall r, r ∉ scratch -> regs st' r = regs st r) ->
  sets_home store h t st rd v.
Proof.
  intros Hh D (st' & He & Hm & Hs). destruct (handler_code h m il t st Hh D) as (c & Hc & Hr).
  exists c, st'. by rewrite Hr.
Qed.

Ltac handler_runs Hw :=
  eapply sets_home_intro;
  [reflexivity | rewrite Hw; cbn [c_true Z.eqb negb]; solve_decodes | ];
  cbn [app]; exec_steps; eexists; split; [reflexivity|]; split; [unfold x_value, w_value, x_addr, X86_REG_RBP; use_states; reflexivity | use_states; scratch_only].

(** In terms of the guest registers. *)
Definition sets_xreg (h : translator Z) (t : TranslateCtx) (st : machine) (rd v : Z) : Prop :=
  exists c st', x86_out (h t).2 = x86_out t ++ c /\ run c st = Some st' /\
    (forall i, 0 <= i < 32 -> x_value st' i = if i =? rd then v else x_value st i) /\
    forall r, r ∉ scratch -> regs st' r = regs st r.

Lemma x_addr_same st st' i : regs st' X86_REG_RBP = regs st X86_REG_RBP -> x_addr st' i = x_addr st i.
Proof. unfold x_addr, eff_addr. by intros ->. Qed.

Lemma rbp_not_scratch : X86_REG_RBP ∉ scratch.
Proof. apply (bool_decide_unpack _). exact I. Qed.

Lemma sets_home_xreg h t st rd v :
  sets_home store64 h t st rd v -> 0 <= rd < 32 -> 0 <= v < 2^64 -> sets_xreg h t st rd v.
Proof.
  intros (c & st' & Hc & Hr & Hm & Hs) Hd Hv. exists c, st'. split; [done|]. split; [done|]. split; [|done].
  intros i Hi. unfold x_value. rewrite (x_addr_same st st') by (apply Hs, rbp_not_scratch). rewrite Hm.
  destruct (Z.eqb_spec i rd) as [->|Hne]; [by apply load64_store64|].
  apply load64_store64_other. by apply x_addr_apart.
Qed.

Lemma sets_home_wreg h t st rd v :
  sets_home store32 h t st rd v -> 0 <= rd < 32 ->
  sets_xreg h t st rd (u32 v + 2^32 * load_high (memory st) (x_addr st rd)).
Proof.
  intros (c & st' & Hc & Hr & Hm & Hs) Hd. exists c, st'. split; [done|]. split; [done|]. split; [|done].
  intros i Hi. unfold x_value. rewrite (x_addr_same st st') by (apply Hs, rbp_not_scratch). rewrite Hm.
  destruct (Z.eqb_spec i rd) as [->|Hne]; [by apply load64_store32|].
  apply load64_store32_other. by apply x_addr_apart.
Qed.

Lemma u32_in_64 v : 0 <= u32 v < 2^64.
Proof. unfold u32. pose proof (Z.mod_pos_bound v (2^32)). lia. Qed.

(** C13: the 64-bit forms of the handlers that compute through the register home, run on
    the x86 machine: which guest register changes, and to what.  MOV copies the register
    of bits 9-5, MUL and MADD both store the product (MADD adds into R11, not RAX), MSUB
    stores its addend, RSB its second operand and ORN its first one; NEG and MVN compute
    32 bits and clear the upper half. *)
Theorem handlers_64bit_run op t st :
  (op >>> 31) &&& 1 = 1 ->
  let rd := op &&& 0x1f in
  let rn := (op >>> 5) &&& 0x1f in
  let rm := (op >>> 16) &&& 0x1f in
  let ra := (op >>> 10) &&& 0x1f in
  let x i := u64 (x_value st i) in
  Forall (fun '(h, v) => sets_xreg h t st rd v)
    [(translate_mov_reg op, x rn);
     (translate_mul op, u64 (x rn * x rm));
     (translate_madd op, u64 (x rn * x rm));
     (translate_msub op, x ra);
     (translate_rsb op, x rm);
     (translate_orn op, x rn);
     (translate_neg op, u32 (- x rn));
     (translate_mvn op, u32 (Z.lnot (x rm)))].
Proof.
  intros H64 rd rn rm ra x. unfold x, rd, rn, rm, ra. clear x rd rn rm ra.
  repeat (apply Forall_cons_2;
    [ cbv beta iota; apply sets_home_xreg; [handler_runs H64 | apply reg_field | apply u64_range || apply u32_in_64] |]).
  apply Forall_nil_2.
Qed.
Lemma handlers_64bit_run_witness :
  let t := {| arm64_cur := 0; x86_out := []; reg_alloc := []; free_regs := []; pc_map := []; jump_targets := [] |} in
  let st := {| regs := fun r => if r =? 5 then 4096 else 0; memory := fun a => if a =? 4096 + 8 then 6 else if a =? 4096 + 16 then 7 else 0 |} in
  sets_xreg (translate_madd 0x9b020c20) t st 0 42.
Proof.
  intros t st.
  pose proof (handlers_64bit_run 0x9b020c20 t st eq_refl) as H. cbv zeta in H.
  rewrite !Forall_cons in H. apply H.
Defined.

(** The 32-bit forms.  The upper half of the destination is left as it was, where
    the architecture clears it.  The second operand is loaded into EBX instead of R11, so
    the products are those of the first operand with whatever R11 holds. *)
Theorem handlers_32bit_run op t st :
  (op >>> 31) &&& 1 = 0 ->
  let rd := op &&& 0x1f in
  let rn := (op >>> 5) &&& 0x1f in
  let rm := (op >>> 16) &&& 0x1f in
  let ra := (op >>> 10) &&& 0x1f in
  let w i := u32 (w_value st i) in
  let r11 := regs st X86_REG_R11 in
  Forall (fun '(h, v) => sets_xreg h t st rd (u32 v + 2^32 * load_high (memory st) (x_addr st rd)))
    [(translate_mov_reg op, w rn);
     (translate_mul op, u64 (w rn * r11));
     (translate_madd op, u64 (w rn * r11));
     (translate_msub op, w ra);
     (translate_rsb op, w rm);
     (translate_orn op, w rn);
     (translate_neg op, u32 (- w rn));
     (translate_mvn op, u32 (Z.lnot (w rm)))].
Proof.
  intros H64 rd rn rm ra w r11. unfold w, r11, rd, rn, rm, ra. clear w r11 rd rn rm ra.
  repeat (apply Forall_cons_2; [cbv beta iota; apply sets_home_wreg; [handler_runs H64 | apply reg_field] |]).
  apply Forall_nil_2.
Qed.

Lemma handlers_32bit_run_witness :
  let t := {| arm64_cur := 0; x86_out := []; reg_alloc := []; free_regs := []; pc_map := []; jump_targets := [] |} in
  let st := {| regs := fun r => if r =? 5 then 4096 else if r =? 11 then 100 else 0;
               memory := fun a => if a =? 4096 + 8 then 6 else if a =? 4096 + 16 then 7 else 0 |} in
  sets_xreg (translate_mul 0x1b027c20) t st 0 600.
Proof.
  intros t st. pose proof (handlers_32bit_run 0x1b027c20 t st eq_refl) as H. cbv zeta in H.
  rewrite !Forall_cons in H. apply H.
Defined.

(** ** Loads and stores *)

(** REX.R extends the reg field and nothing else. *)
Lemma decode_modrm_rex_r p k bs reg rm r :
  p_r p = 0 -> decode_modrm p bs = Some (reg, rm, r) ->
  decode_modrm {| p_mand := p_mand p; p_lock := p_lock p; p_seg := p_seg p; p_rex := p_rex p;
                  p_w := p_w p; p_r := k; p_x := p_x p; p_b := p_b p |} bs = Some (reg + k, rm, r).
Proof.
  intros Hp. unfold decode_modrm. rewrite Hp. cbn [p_r p_x p_b].
  destruct bs as [|b bs]; [done|]. rewrite Z.add_0_r.
  repeat case_match; intros E; simplify_option_eq; repeat case_match; simplify_option_eq; done.
Qed.

Lemma decode_rax_mem reg imm rest : reg = X86_REG_RAX \/ reg = X86_REG_R11 -> - 2^31 <= imm < 2^31 ->
  decode_modrm {| p_mand := 0; p_lock := false; p_seg := 0; p_rex := true; p_w := true;
                  p_r := 8 * (reg / 8); p_x := 0; p_b := 0 |}
    (code (emit_modrm_disp (reg &&& 7) X86_REG_RAX imm) ++ rest) = Some (reg, Mem (Some 0) None imm, rest).
Proof.
  intros Hr Hi.
  assert (Hd : decode_modrm (rex_b_of 0) (code (emit_modrm_disp (reg &&& 7) X86_REG_RAX imm) ++ rest)
               = Some (reg &&& 7, Mem (Some 0) None imm, rest)).
  { apply (decode_modrm_disp (reg &&& 7) 0); [by destruct Hr as [-> | ->] | done | done | done | by left]. }
  apply (decode_modrm_rex_r _ (8 * (reg / 8))) in Hd; [|done].
  etransitivity; [exact Hd|]. by destruct Hr as [-> | ->].
Qed.

(** [mov reg, [rax + imm]] and [mov [rax + imm], reg]. *)
Lemma decodes_rax_mem reg b imm : reg = X86_REG_RAX \/ reg = X86_REG_R11 -> - 2^31 <= imm < 2^31 ->
  b = 0x8b \/ b = 0x89 ->
  Decodes (rex_r reg X86_REG_RAX ;; emit_byte b ;; emit_modrm_disp (reg &&& 7) X86_REG_RAX imm)
    [if b =? 0x8b then MovRRm W64 reg (Mem (Some 0) None imm) else MovRmR W64 (Mem (Some 0) None imm) reg].
Proof.
  intros Hr Hi Hb. assert (Ha : Appends (emit_modrm_disp (reg &&& 7) X86_REG_RAX imm)) by apply _.
  assert (Hb2 : Appends (emit_byte b ;; emit_modrm_disp (reg &&& 7) X86_REG_RAX imm))
    by (apply appends_bind_const; [apply appends_byte | exact Ha]).
  apply decodes_one; [apply appends_bind_const; [apply appends_rex | exact Hb2]|]. intros rest.
  rewrite (code_bind_const (rex_r _ _)) by first [exact Hb2 | apply appends_rex].
  rewrite code_bind_const by first [exact Ha | apply appends_byte].
  rewrite <- !app_assoc. pose proof (decode_rax_mem reg imm rest Hr Hi) as Hd. revert Hd.
  generalize (code (emit_modrm_disp (reg &&& 7) X86_REG_RAX imm) ++ rest). intros l Hd.
  transitivity ('(rg, rm, r) ← decode_modrm {| p_mand := 0; p_lock := false; p_seg := 0; p_rex := true; p_w := true;
                  p_r := 8 * (reg / 8); p_x := 0; p_b := 0 |} l;
                Some (if b =? 0x8b then MovRRm W64 rg rm else MovRmR W64 rm rg, r)).
  - destruct Hr as [-> | ->], Hb as [-> | ->]; clear; lazy -[decode_modrm]; reflexivity.
  - by rewrite Hd.
Qed.

(** [h] appends code that leaves the memory [m] and touches only scratch registers. *)
Definition leaves_memory (h : translator Z) (t : TranslateCtx) (st : machine) (m : Z -> Z) : Prop :=
  exists c st', x86_out (h t).2 = x86_out t ++ c /\ run c st = Some st' /\ memory st' = m /\
    forall r, r ∉ scratch -> regs st' r = regs st r.

Lemma leaves_memory_intro h m il t st mem :
  h t = (record_pc ;; emit m ;; mret ARM2X86_OK) t -> Decodes m il ->
  (exists st', exec_all il st = Some st' /\ memory st' = mem /\ forall r, r ∉ scratch -> regs st' r = regs st r) ->
  leaves_memory h t st mem.
Proof.
  intros Hh D (st' & He & Hm & Hs). destruct (handler_code h m il t st Hh D) as (c & Hc & Hr).
  exists c, st'. by rewrite Hr.
Qed.

Ltac final_state :=
  cbn [app]; exec_steps; eexists; split; [reflexivity|];
  split; [unfold x_value, w_value, x_addr, X86_REG_RBP; use_states; rewrite ?Z.add_0_r; reflexivity | use_states; scratch_only].

Section LoadsStores.
Context (op imm : Z) (t : TranslateCtx) (st : machine) (Himm : - 2^31 <= imm < 2^31 - 8).
Let rt := op &&& 0x1f.
Let rt2 := (op >>> 10) &&& 0x1f.
Let rn := (op >>> 5) &&& 0x1f.
Let addr := u64 (u64 (x_value st rn) + imm).

Lemma ldr_code (w : Z) : (op >>> 22) &&& 1 = 1 -> w = b2z (((op >>> 30) &&& 3) =? 3) ->
  translate_ldr_str op imm t =
  (record_pc ;;
   emit (emit_load_arm_reg rn X86_REG_RAX 1 ;;
         rex_r X86_REG_RAX X86_REG_RAX ;; emit_byte 0x8b ;; emit_modrm_disp (X86_REG_RAX &&& 7) X86_REG_RAX imm ;;
         emit_store_arm_reg X86_REG_RAX rt w) ;; mret ARM2X86_OK) t.
Proof. intros H1 ->. unfold translate_ldr_str. rewrite H1. reflexivity. Qed.

Lemma str_code (w : Z) : (op >>> 22) &&& 1 = 0 -> w = b2z (((op >>> 30) &&& 3) =? 3) ->
  translate_ldr_str op imm t =
  (record_pc ;;
   emit (emit_load_arm_reg rn X86_REG_RAX 1 ;;
         emit_load_arm_reg rt X86_REG_R11 w ;;
         rex_r X86_REG_R11 X86_REG_RAX ;; emit_byte 0x89 ;; emit_modrm_disp (X86_REG_R11 &&& 7) X86_REG_RAX imm) ;;
   mret ARM2X86_OK) t.
Proof. intros H1 ->. unfold translate_ldr_str. rewrite H1. reflexivity. Qed.

Lemma str_memory w v :
  (op >>> 22) &&& 1 = 0 -> w = b2z (((op >>> 30) &&& 3) =? 3) -> w = 0 \/ w = 1 ->
  v = (if w =? 1 then u64 (x_value st rt) else regs st X86_REG_R11) ->
  leaves_memory (translate_ldr_str op imm) t st (store64 (memory st) addr v).
Proof.
  intros H0 Hw Hcase ->. destruct Hcase as [-> | ->]; cbn [Z.eqb Pos.eqb];
    (eapply leaves_memory_intro; [exact (str_code _ H0 Hw) | |]).
  1, 3: eapply decodes_bind; [by decodes_step|]; eapply decodes_bind; [decodes_step|];
    apply (decodes_rax_mem _ 0x89); [by right | lia | by right].
  all: unfold addr, rn, rt; final_state.
Qed.

Lemma ldr_memory w : (op >>> 22) &&& 1 = 1 -> w = b2z (((op >>> 30) &&& 3) =? 3) -> w = 0 \/ w = 1 ->
  sets_home (if w =? 1 then store64 else store32) (translate_ldr_str op imm) t st rt (u64 (load64 (memory st) addr)).
Proof.
  intros H1 Hw Hcase. destruct Hcase as [-> | ->]; cbn [Z.eqb Pos.eqb];
    (eapply sets_home_intro; [exact (ldr_code _ H1 Hw) | |]).
  1, 3: eapply decodes_bind; [by decodes_step|];
    eapply decodes_three; [apply (decodes_rax_mem _ 0x8b); [by left | lia | by left]|]; decodes_step.
  all: unfold addr, rn, rt; final_state.
Qed.

Lemma ldp_memory : (op >>> 30) &&& 3 = 2 ->
  leaves_memory (translate_ldp_stp op imm) t st
    (store32 (store32 (memory st) (x_addr st rt) (regs st X86_REG_RBX)) (x_addr st rt2) (regs st X86_REG_RBX)).
Proof.
  intros H. rewrite (land_ones_mod _ 2 3) in H by done.
  assert (H1 : (op >>> 31) &&& 1 = 1).
  { replace (op >>> 31) with ((op >>> 30) >>> 1) by (by rewrite Z.shiftr_shiftr).
    rewrite (land_ones_mod _ 1 1), (Z.shiftr_div_pow2 _ 1) by done. Z.div_mod_to_equations; lia. }
  assert (H0 : (op >>> 30) &&& 1 = 0).
  { rewrite (land_ones_mod _ 1 1) by done. Z.div_mod_to_equations; lia. }
  eapply leaves_memory_intro.
  { unfold translate_ldp_stp. rewrite H1, H0. cbv zeta. reflexivity. }
  - cbn [c_true Z.eqb negb]. eapply decodes_bind; [by decodes_step|].
    eapply decodes_three; [apply (decodes_rax_mem _ 0x8b); [by right | lia | by left]|].
    eapply decodes_bind; [by decodes_step|].
    eapply decodes_three; [apply (decodes_rax_mem _ 0x8b); [by right | rewrite s32_small; lia | by left]|].
    decodes_step.
  - unfold rn, rt, rt2. final_state.
Qed.

(** Loads and stores.  LDR of a 64-bit register loads it from base plus offset; of a
    smaller size it reads eight bytes and writes the low half of the register.  STR of a
    64-bit register stores it; of any smaller size it stores eight bytes, and of whatever
    R11 holds.  LDP and STP of 64-bit registers have the same code, which stores the low
    half of RBX to the homes of both registers. *)
Theorem loads_stores_run :
  let size64 := ((op >>> 30) &&& 3) =? 3 in
  ((op >>> 22) &&& 1 = 1 ->
   sets_xreg (translate_ldr_str op imm) t st rt
     (let v := load64 (memory st) addr in
      if size64 then u64 v else u32 v + 2^32 * load_high (memory st) (x_addr st rt))) /\
  ((op >>> 22) &&& 1 = 0 ->
   leaves_memory (translate_ldr_str op imm) t st
     (store64 (memory st) addr (if size64 then u64 (x_value st rt) else regs st X86_REG_R11))) /\
  ((op >>> 30) &&& 3 = 2 ->
   leaves_memory (translate_ldp_stp op imm) t st
     (store32 (store32 (memory st) (x_addr st rt) (regs st X86_REG_RBX)) (x_addr st rt2) (regs st X86_REG_RBX))).
Proof.
  intros size64. split; [|split; [|apply ldp_memory]].
  - intros H1. pose proof (ldr_memory _ H1 eq_refl) as Hm. fold size64 in Hm.
    cbv zeta. destruct size64; cbn [b2z Z.eqb Pos.eqb] in Hm.
    + apply sets_home_xreg; [apply Hm; by right | apply reg_field | apply u64_range].
    + replace (u32 (load64 (memory st) addr)) with (u32 (u64 (load64 (memory st) addr))).
      { apply sets_home_wreg; [apply Hm; by left | apply reg_field]. }
      unfold u32, u64. by rewrite Z.mod_mod_divide by (by exists (2^32)).
  - intros H0. apply (str_memory _ _ H0 eq_refl); fold size64; destruct size64; cbn; tauto || done.
Qed.
End LoadsStores.
Lemma loads_stores_run_witness :
  let t := {| arm64_cur := 0; x86_out := []; reg_alloc := []; free_regs := []; pc_map := []; jump_targets := [] |} in
  let st := {| regs := fun r => if r =? 5 then 4096 else 77; memory := fun _ => 0 |} in
  leaves_memory (translate_ldr_str 0xb9000820 8) t st (store64 (memory st) 8 77).
Proof.
  intros t st. destruct (loads_stores_run 0xb9000820 8 t st ltac:(lia)) as (_ & H & _). exact (H eq_refl).
Defined.

(** ** Arithmetic through the register allocator *)

(** A guest register that is in an x86 register. *)
Definition in_reg (t : TranslateCtx) (i : Z) : Prop := x86_reg (entry t i) <> 0xff.

Lemma get_reg_allocated t i is64 md : in_reg t i ->
  reg_alloc_get_reg i is64 md t =
  (x86_reg (entry t i), if md then (set_entry i (set_dirty true) t).2 else t).
Proof.
  intros H. unfold reg_alloc_get_reg. rewrite bind_gets. apply Z.eqb_neq in H. rewrite H. cbn [negb].
  by destruct md.
Qed.

Lemma record_pc_alloc t : reg_alloc (record_pc t).2 = reg_alloc t.
Proof.
  change (record_pc t) with (pc_map_add (arm64_cur t) (length (x86_out t)) (set_out (x86_out t) t)).
  unfold pc_map_add, modify. cbn [snd]. by destruct (_ <? _)%nat.
Qed.

(** Three operands that are all in registers: only the code of the operation is added. *)
Lemma allocated_three rn rm rd is64 (k : Z -> Z -> Z -> emitter unit) t :
  in_reg t rn -> in_reg t rm -> in_reg t rd ->
  let r i := x86_reg (entry t i) in
  Appends (k (r rn) (r rm) (r rd)) ->
  x86_out ((record_pc ;;
            reg_rn ← reg_alloc_get_reg rn is64 false;
            reg_rm ← reg_alloc_get_reg rm is64 false;
            reg_rd ← reg_alloc_get_reg rd is64 true;
            emit (k reg_rn reg_rm reg_rd) ;;
            mret ARM2X86_OK) t).2 = x86_out t ++ code (k (r rn) (r rm) (r rd)).
Proof.
  intros Hn Hm Hd r Hk. rewrite then_state.
  assert (He : forall i, entry (record_pc t).2 i = entry t i) by (intros i; unfold entry; by rewrite record_pc_alloc).
  pose proof (record_pc_out t) as Ho. set (t1 := (record_pc t).2) in *. unfold r in *.
  rewrite <- !He in Hk |- *. unfold in_reg in *. rewrite <- He in Hn, Hm, Hd. clear He.
  unfold mbind at 1, translator_bind at 1. rewrite get_reg_allocated by done.
  unfold mbind at 1, translator_bind at 1. rewrite get_reg_allocated by done.
  unfold mbind at 1, translator_bind at 1. rewrite get_reg_allocated by done.
  rewrite then_ret. destruct (emit_out _ (set_entry rd (set_dirty true) t1).2 Hk) as [-> _].
  by rewrite <- Ho.
Qed.

(** The code of ADD, SUB, AND and ORR. *)
Definition alu_code (f : Z -> Z -> emitter unit) (a b d : Z) : emitter unit :=
  (if negb (d =? a) then mov_r64_r64 d a else mret tt) ;; f d b.

Lemma appends_alu f op d s : alu_emitter op = Some f -> Appends (f d s).
Proof. destruct op; intros [= <-]; apply rel_appends; solve_rel. Qed.

Lemma decodes_alu_code op f a b d :
  alu_emitter op = Some f -> 0 <= a < 16 -> 0 <= b < 16 -> 0 <= d < 16 ->
  Decodes (alu_code f a b d) ((if negb (d =? a) then [MovRmR W64 (Reg a) d] else []) ++ [AluRmR op W64 (Reg b) d]).
Proof.
  intros Hop Ha Hb Hd. unfold alu_code. apply decodes_bind.
  - destruct (negb (d =? a)); [|apply decodes_ret].
    apply decodes_one; [apply rel_appends; solve_rel|]. intros. by apply decode_mov_r64_r64.
  - apply (decodes_alu op); [done | by eapply appends_alu | done | done].
Qed.

Lemma pool_range r : r ∈ pool -> 0 <= r < 16.
Proof.
  intros H. apply (proj1 (Forall_forall (fun r => 0 <= r < 16) pool)); [|done].
  unfold pool. repeat (apply Forall_cons_2; [by split|]). apply Forall_nil_2.
Qed.

(** Different guest registers are in different x86 registers. *)
Lemma in_reg_apart t i j :
  alloc_ok t -> 0 <= i < 32 -> 0 <= j < 32 -> i <> j -> in_reg t i -> in_reg t j ->
  x86_reg (entry t i) <> x86_reg (entry t j).
Proof.
  intros [Hl H]%alloc_ok_occ Hi Hj Hij Hri Hrj E. specialize (H (x86_reg (entry t i))).
  pose proof (held_clear (reg_alloc t) i (x86_reg (entry t i))) as Hc.
  fold (entry t i) in Hc. unfold held_reg in Hc. unfold in_reg in *.
  rewrite (proj2 (Z.eqb_neq _ 0xff) Hri), occ_cons, decide_True in Hc by done.
  pose proof (held_member (alter (set_x86_reg 0xff) (Z.to_nat i) (reg_alloc t)) j) as Hm.
  rewrite length_alter, Hl in Hm. specialize (Hm ltac:(lia) (x86_reg (entry t i))).
  change (nth (Z.to_nat j) _ no_entry) with (entry (set_entry i (set_x86_reg 0xff) t).2 j) in Hm.
  rewrite entry_set_entry_ne in Hm by lia. unfold held_reg in Hm.
  rewrite (proj2 (Z.eqb_neq _ 0xff) Hrj), occ_cons, decide_True in Hm by done.
  unfold allowed in H. destruct (decide _); lia.
Qed.

(** The handlers that use the allocator, with their operation. *)
Definition allocated_handlers (op : Z) : list (translator Z * alu_op) :=
  [(translate_add_sub op 0, ADD); (translate_add_sub op 1, SUB)] ++
  (if (op >>> 29) &&& 3 =? 0 then [(translate_logical op, AND)] else []) ++
  (if (op >>> 29) &&& 3 =? 2 then [(translate_logical op, OR)] else []).

Lemma allocated_code op t h aop f :
  let rd := op &&& 0x1f in
  let rn := (op >>> 5) &&& 0x1f in
  let rm := (op >>> 16) &&& 0x1f in
  let r i := x86_reg (entry t i) in
  In (h, aop) (allocated_handlers op) -> alu_emitter aop = Some f ->
  in_reg t rn -> in_reg t rm -> in_reg t rd ->
  x86_out (h t).2 = x86_out t ++ code (alu_code f (r rn) (r rm) (r rd)).
Proof.
  intros rd rn rm r Hin Hf Hn Hm Hd.
  assert (Ha : forall a b d, Appends (alu_code f a b d)).
  { intros a b d. unfold alu_code. apply appends_bind_const; [|by eapply appends_alu].
    apply appends_if; [apply rel_appends; solve_rel | apply appends_ret]. }
  assert (Hadd : forall s, alu_emitter (if c_true s then SUB else ADD) = Some f ->
    x86_out (translate_add_sub op s t).2 = x86_out t ++ code (alu_code f (r rn) (r rm) (r rd))).
  { intros s Hs. assert (Hc : forall a b d,
      (if d =? a then if c_true s then sub_r64_r64 d b else add_r64_r64 d b
       else if d =? b then mov_r64_r64 d a ;; (if c_true s then sub_r64_r64 d b else add_r64_r64 d b)
       else mov_r64_r64 d a ;; (if c_true s then sub_r64_r64 d b else add_r64_r64 d b)) = 
      (if d =? a then f d b else mov_r64_r64 d a ;; f d b)).
    { intros a b d. destruct (c_true s); injection Hs as <-; by destruct (d =? a), (d =? b). }
    unfold translate_add_sub. cbv zeta. fold rd rn rm.
    etransitivity; [apply allocated_three; [done..|] | cbv beta; rewrite Hc].
    - cbv beta zeta. rewrite Hc. specialize (Ha (r rn) (r rm) (r rd)).
      unfold alu_code, r in Ha.
      destruct (x86_reg (entry t rd) =? x86_reg (entry t rn)); exact Ha.
    - unfold alu_code, r. destruct (x86_reg (entry t rd) =? x86_reg (entry t rn)); reflexivity. }
  assert (Hlog : forall k, (op >>> 29) &&& 3 = k -> (k = 0 /\ f = and_r64_r64 \/ k = 2 /\ f = or_r64_r64) ->
    x86_out (translate_logical op t).2 = x86_out t ++ code (alu_code f (r rn) (r rm) (r rd))).
  { intros k Hk Hkf. unfold translate_logical. cbv zeta. fold rd rn rm. rewrite Hk.
    destruct Hkf as [[-> ->] | [-> ->]]; cbn [Z.eqb Pos.eqb]; apply allocated_three; done || apply Ha. }
  unfold allocated_handlers in Hin. rewrite !in_app_iff in Hin.
  destruct Hin as [[[= <- <-] | [[= <- <-] | []]] | Hin]; [by apply (Hadd 0) | by apply (Hadd 1)|].
  destruct Hin as [Hin|Hin].
  - destruct (Z.eqb_spec ((op >>> 29) &&& 3) 0) as [E|E]; [|destruct Hin].
    destruct Hin as [[= <- <-] | []]. injection Hf as <-. apply (Hlog 0 E). by left.
  - destruct (Z.eqb_spec ((op >>> 29) &&& 3) 2) as [E|E]; [|destruct Hin].
    destruct Hin as [[= <- <-] | []]. injection Hf as <-. apply (Hlog 2 E). by right.
Qed.

Lemma upd_eq f k v : upd f k v k = v.
Proof. unfold upd. by rewrite Z.eqb_refl. Qed.
Lemma upd_ne f k v x : x <> k -> upd f k v x = f x.
Proof. intros H. unfold upd. by rewrite (proj2 (Z.eqb_neq x k) H). Qed.

(** ADD, SUB, AND and ORR through the register allocator, with the operands in
    registers and the destination different from both.  Because the two-operand emitters
    write their second argument, the destination register keeps its old value, the first
    source is overwritten with it and the second source receives the result of combining
    itself with it.  With the destination equal to the first source the second source
    receives the result. *)
Theorem allocated_arith_run op t st h aop :
  let rd := op &&& 0x1f in
  let rn := (op >>> 5) &&& 0x1f in
  let rm := (op >>> 16) &&& 0x1f in
  let r i := x86_reg (entry t i) in
  alloc_ok t -> in_reg t rn -> in_reg t rm -> in_reg t rd -> rm <> rd -> rm <> rn ->
  In (h, aop) (allocated_handlers op) ->
  exists c st' v, x86_out ((h : translator Z) t).2 = x86_out t ++ c /\ run c st = Some st' /\
    memory st' = memory st /\
    regs st' (r rd) = regs st (r rd) /\
    (rn <> rd -> regs st' (r rn) = u64 (regs st (r rd))) /\
    alu_sem aop (regs st (r rm)) (regs st (r rd)) = Some v /\ regs st' (r rm) = u64 v.
Proof.
  intros rd rn rm r Ht Hn Hm Hd Hmd Hmn Hin.
  assert (Hf : exists f, alu_emitter aop = Some f).
  { unfold allocated_handlers in Hin. rewrite !in_app_iff in Hin.
    destruct (_ =? 0), (_ =? 2); cbn in Hin; destruct_or! Hin; try done; injection Hin as _ <-; by eexists. }
  destruct Hf as [f Hf].
  assert (Hv : exists v, alu_sem aop (regs st (r rm)) (regs st (r rd)) = Some v).
  { destruct aop; try done; by eexists. }
  destruct Hv as [v Hv].
  assert (Hrange : forall i, in_reg t i -> 0 <= r i < 16) by (intros; by apply pool_range, held_pool).
  pose proof (reg_field op) as Rd. pose proof (reg_field (op >>> 5)) as Rn. pose proof (reg_field (op >>> 16)) as Rm.
  fold rd in Rd. fold rn in Rn. fold rm in Rm.
  assert (Nmd : r rm <> r rd) by by apply in_reg_apart.
  assert (Nmn : r rm <> r rn) by by apply in_reg_apart.
  pose proof (decodes_alu_code aop f (r rn) (r rm) (r rd) Hf (Hrange _ Hn) (Hrange _ Hm) (Hrange _ Hd)) as D.
  pose proof (allocated_code op t h aop f Hin Hf Hn Hm Hd : x86_out (h t).2 = x86_out t ++ code (alu_code f (r rn) (r rm) (r rd))) as Hc.
  pose proof (decodes_run _ _ st D) as Hr. set (c := code _) in *. clearbody c.
  exists c. rewrite Hr. clear Hr D.
  destruct (decide (rn = rd)) as [E|Hnd].
  - rewrite E, Z.eqb_refl. cbn [negb app exec_all exec]. rewrite Hv. cbn [mbind option_bind set_reg].
    eexists _, v. split; [exact Hc|]. split; [done|]. cbn [memory regs].
    rewrite upd_eq, upd_ne by (by apply not_eq_sym). done.
  - assert (Nnd : r rd <> r rn) by (apply in_reg_apart; done || by apply not_eq_sym).
    rewrite (proj2 (Z.eqb_neq (r rd) (r rn)) Nnd).
    cbn [negb app exec_all exec set_reg mbind option_bind trunc regs memory].
    rewrite (upd_ne _ _ _ (r rm)), (upd_ne _ _ _ (r rd)) by done. rewrite Hv. cbn [mbind option_bind].
    eexists _, v. split; [exact Hc|]. split; [done|]. cbn [memory regs].
    rewrite upd_eq, !(upd_ne _ _ _ (r rd)), (upd_ne _ _ _ (r rn)) by (done || by apply not_eq_sym).
    by rewrite upd_eq.
Qed.
Lemma allocated_arith_run_witness :
  let empty := {| arm64_cur := 0; x86_out := []; reg_alloc := []; free_regs := []; pc_map := []; jump_targets := [] |} in
  let get i t := (reg_alloc_get_reg i true false t).2 in
  let t := get 2 (get 1 (get 0 (set_alloc frame_in_rbp (rev reg_alloc_map) empty))) in
  let st := {| regs := fun r => r; memory := fun _ => 0 |} in
  exists c st' v, x86_out (translate_add_sub 0x8b010002 0 t).2 = x86_out t ++ c /\ run c st = Some st' /\
    memory st' = memory st /\ regs st' X86_REG_R9 = X86_REG_R9 /\ regs st' X86_REG_R10 = u64 v.
Proof.
  intros empty get t st.
  destruct (allocated_arith_run 0x8b010002 t st (translate_add_sub 0x8b010002 0) ADD)
    as (c & st' & v & H1 & H2 & H3 & H4 & _ & _ & H5).
  - repeat apply safe_get_reg. by apply setup_alloc_ok.
  - discriminate.
  - discriminate.
  - discriminate.
  - discriminate.
  - discriminate.
  - left. reflexivity.
  - exists c, st', v. exact (conj H1 (conj H2 (conj H3 (conj H4 H5)))).
Defined.

(** ** Moves of immediates *)

Lemma mov_imm_bytes r val b k : 0 <= r < 16 ->
  (emit_byte (if 8 <=? r then 0x48 ||| 0x01 else 0x48) ;;
   emit_byte (0xb8 + (r &&& 7)) ;;
   emit_byte ((val >>> 0) &&& 0xff) ;;
   emit_byte ((val >>> 8) &&& 0xff) ;;
   emit_byte ((val >>> 16) &&& 0xff) ;;
   emit_byte ((val >>> 24) &&& 0xff) ;;
   emit_byte ((val >>> 32) &&& 0xff) ;;
   emit_byte ((val >>> 40) &&& 0xff) ;;
   emit_byte ((val >>> 48) &&& 0xff) ;;
   emit_byte ((val >>> 56) &&& 0xff) ;; k) b = ((mov_r64_imm r val ;; k) b : unit * list Z).
Proof.
  intros Hr. rewrite Z.shiftr_0_r. unfold mov_r64_imm, rex.
  assert (0x40 ||| (if c_true 1 then 0x08 else 0) ||| ((0 &&& 1) <<< 2) ||| ((0 &&& 1) <<< 1) ||| ((r >>> 3) &&& 1)
          = if 8 <=? r then 0x48 ||| 0x01 else 0x48) as -> by (each_of_16 Hr; reflexivity).
  assert (0xb8 ||| (r &&& 7) = 0xb8 + (r &&& 7)) as -> by (each_of_16 Hr; reflexivity).
  unfold mbind, emitter_bind, emit_byte. cbn [fst snd]. reflexivity.
Qed.

(** The store of R8 to R15 is one of the register eight below, relative to R13. *)
Lemma decodes_store_any x a : 0 <= x < 16 -> 0 <= a < 32 ->
  Decodes (emit_store_arm_reg x a 1)
    [MovRmR W64 (Mem (Some (if x <? 8 then X86_REG_RBP else X86_REG_R13)) None (8 * a)) (x mod 8)].
Proof. intros Hx Ha. apply decodes_one; [apply _|]. intros. by apply decode_store_arm_reg. Qed.

Lemma decodes_mov_imm r val rd : 0 <= r < 16 -> 0 <= rd < 32 ->
  Decodes (mov_r64_imm r val ;; emit_store_arm_reg r rd 1)
    [MovRI W64 r (u64 val);
     MovRmR W64 (Mem (Some (if r <? 8 then X86_REG_RBP else X86_REG_R13)) None (8 * rd)) (r mod 8)].
Proof.
  intros Hr Hd. eapply (decodes_bind _ _ [_] [_]); [|by apply decodes_store_any].
  apply decodes_one; [apply rel_appends; solve_rel|]. intros. by apply mov_r64_imm_decodes.
Qed.

Lemma record_pc_free t : free_regs (record_pc t).2 = free_regs t.
Proof.
  change (record_pc t) with (pc_map_add (arm64_cur t) (length (x86_out t)) (set_out (x86_out t) t)).
  unfold pc_map_add, modify. cbn [snd]. by destruct (_ <? _)%nat.
Qed.

Lemma nth_alter_entry (ra : list RegAllocEntry) f n : (n < length ra)%nat -> nth n (alter f n ra) no_entry = f (nth n ra no_entry).
Proof. revert n. induction ra as [|x ra IH]; intros [|n] Hn; cbn in Hn; try lia; [done|]. apply (IH n). lia. Qed.

Lemma alter_compose (ra : list RegAllocEntry) f g n : alter f n (alter g n ra) = alter (fun x => f (g x)) n ra.
Proof. revert n. induction ra as [|x ra IH]; intros [|n]; try done. cbn. f_equal. apply IH. Qed.

Lemma mov_imm_to_reg_eq rd r val t : 0 <= r < 16 ->
  exists t', mov_imm_to_reg rd r val 1 t = (tt, t') /\
    x86_out t' = x86_out t ++ code (mov_r64_imm r val ;; emit_store_arm_reg r rd 1) /\
    reg_alloc t' = alter (fun _ => {| x86_reg := r; dirty := true; is_64bit := true |}) (Z.to_nat rd) (reg_alloc t) /\
    free_regs t' = free_regs t.
Proof.
  intros Hr. set (m := mov_r64_imm r val ;; emit_store_arm_reg r rd 1).
  set (t1 := (reg_alloc_assign rd r true t).2).
  exists (set_entry rd (set_dirty true) (emit m t1).2).2.
  assert (Hm : mov_imm_to_reg rd r val 1 t = (emit m ;; set_entry rd (set_dirty true)) t1).
  { unfold mov_imm_to_reg. cbv zeta. rewrite then_state. change (reg_alloc_assign rd r (c_true 1) t).2 with t1.
    unfold mbind at 1, translator_bind at 1. unfold emit at 1.
    rewrite (mov_imm_bytes r val (x86_out t1) (emit_store_arm_reg r rd 1) Hr). reflexivity. }
  rewrite Hm. split; [|split; [|split]].
  - unfold mbind, translator_bind. by destruct (emit m t1).
  - change (x86_out (set_entry rd (set_dirty true) ?x).2) with (x86_out x).
    apply (emit_out m t1). apply rel_appends. solve_rel.
  - alloc_simpl. destruct (emit_same m t1) as [-> _]. unfold t1. alloc_simpl. by rewrite alter_compose.
  - alloc_simpl. by destruct (emit_same m t1) as [_ ->].
Qed.

(** MOVZ and MOVN of a 64-bit register, with a free x86 register [r] on top of the
    stack.  The code loads the value into [r], which becomes the dirty register of the
    destination, and stores it to the home; for R8 to R15 the store has the wrong REX bit
    and writes the register eight below relative to R13.  A register the destination had
    before is lost to the allocator: it is neither held by anybody nor free. *)
Theorem mov_imm_run `{host : Host} op t st r l :
  let rd := op &&& 0x1f in
  let opc := (op >>> 29) &&& 3 in
  let val := mov_imm_value opc 1 ((op >>> 5) &&& 0xffff) (((op >>> 21) &&& 3) * 16) in
  alloc_ok t -> opc <> 3 -> (op >>> 31) &&& 1 = 1 -> free_regs t = r :: l ->
  exists t' c st',
    translate_mov_imm op t = (ARM2X86_OK, t') /\ x86_out t' = x86_out t ++ c /\
    entry t' rd = {| x86_reg := r; dirty := true; is_64bit := true |} /\
    (in_reg t rd -> let r0 := x86_reg (entry t rd) in (r0 ∉ held (reg_alloc t')) /\ (r0 ∉ free_regs t')) /\
    run c st = Some st' /\ regs st' = upd (regs st) r (u64 val) /\
    memory st' = store64 (memory st)
      (eff_addr st' (Some (if r <? 8 then X86_REG_RBP else X86_REG_R13)) None (8 * rd)) (regs st' (r mod 8)).
Proof.
  intros rd opc val Ht Hopc H64 Hf. destruct (free_top_fresh t r l Ht Hf) as (Hp & Hh & Hl).
  pose proof (pool_range r Hp) as Hr. pose proof (reg_field op) as Hrd. fold rd in Hrd.
  pose proof (decodes_mov_imm r val rd Hr Hrd) as D.
  destruct (mov_imm_to_reg_eq rd r val (set_alloc (reg_alloc (record_pc t).2) l (record_pc t).2) Hr)
    as (t' & E & Eo & Ea & Ef).
  set (m := mov_r64_imm r val ;; emit_store_arm_reg r rd 1) in *.
  cbn [x86_out reg_alloc free_regs set_alloc] in Eo, Ea, Ef. rewrite record_pc_out in Eo. rewrite record_pc_alloc in Ea.
  pose proof (proj1 (alloc_ok_occ t) Ht) as [Hlen Hocc].
  set (st1 := {| regs := upd (regs st) r (u64 val); memory := memory st |}).
  exists t', (code m), {| regs := regs st1; memory := store64 (memory st)
    (eff_addr st1 (Some (if r <? 8 then X86_REG_RBP else X86_REG_R13)) None (8 * rd)) (regs st1 (r mod 8)) |}.
  split; [|split; [done|split; [|split]]].
  - unfold translate_mov_imm. cbv zeta. rewrite then_state. fold opc rd.
    rewrite (proj2 (Z.eqb_neq opc 3) Hopc), H64. fold val.
    unfold mbind at 1, translator_bind at 1, reg_alloc_get_free. rewrite record_pc_free, Hf.
    rewrite (pool_not_none r Hp). cbn [negb]. unfold mbind, translator_bind. by rewrite E.
  - unfold entry. rewrite Ea. by rewrite nth_alter_entry by lia.
  - intros Hin. cbv zeta. set (r0 := x86_reg (entry t rd)) in *.
    assert (Hheld : forall x, occ x (held_reg (entry t rd)) = if decide (r0 = x) then 1%nat else 0%nat).
    { intros x. unfold held_reg. apply Z.eqb_neq in Hin. rewrite Hin. fold r0. rewrite occ_cons, occ_nil. lia. }
    pose proof (held_member (reg_alloc t) rd ltac:(lia)) as Hm. fold (entry t rd) in Hm.
    pose proof (held_alter (reg_alloc t) rd (fun _ => {| x86_reg := r; dirty := true; is_64bit := true |}) r0 ltac:(lia)) as Ha.
    cbv zeta in Ha. fold (entry t rd) in Ha. rewrite Hheld, decide_True in Ha by done.
    pose proof (Hm r0) as Hm0. rewrite Hheld, decide_True in Hm0 by done.
    assert (Hne : r <> r0) by (intros <-; lia).
    unfold held_reg in Ha. cbn [x86_reg] in Ha. rewrite (pool_not_none r Hp), occ_cons, decide_False in Ha by done.
    specialize (Hocc r0). rewrite Hf, occ_cons, decide_False in Hocc by done. unfold allowed in Hocc. rewrite occ_nil in Ha.
    rewrite !occ_elem, Ea, Ef. destruct (decide (r0 ∈ pool)); lia.
  - assert (Hu : u64 (u64 val) = u64 val) by (unfold u64; apply Zmod_mod).
    split; [|split]; [|reflexivity..]. rewrite (decodes_run _ _ st D).
    cbn [exec_all exec set_reg mbind option_bind trunc]. rewrite Hu. cbn [regs memory]. reflexivity.
Qed.
Lemma mov_imm_run_witness :
  let host := {| strict_memory_ordering := false; arm2x86_mrs_tpidr_el0 := 0; arm2x86_mrs_tpidrro_el0 := 0;
     arm2x86_msr_tpidr_el0 := 0; undefined_shift := fun _ _ => 0; undefined_fp := fun _ => 0; undefined_fp32 := fun _ => 0 |} in
  let empty := {| arm64_cur := 0; x86_out := []; reg_alloc := []; free_regs := []; pc_map := []; jump_targets := [] |} in
  let t := set_alloc frame_in_rbp (rev reg_alloc_map) empty in
  let st := {| regs := fun r => r; memory := fun _ => 0 |} in
  exists t' c st', translate_mov_imm 0xd2800540 t = (ARM2X86_OK, t') /\ run c st = Some st' /\
    entry t' 0 = {| x86_reg := X86_REG_R11; dirty := true; is_64bit := true |} /\
    regs st' = upd (regs st) X86_REG_R11 (u64 42).
Proof.
  intros host empty t st.
  destruct (mov_imm_run 0xd2800540 t st X86_REG_R11 (tl (rev reg_alloc_map))) as (t' & c & st' & H1 & _ & H2 & _ & H3 & H4 & _).
  - by apply setup_alloc_ok.
  - discriminate.
  - reflexivity.
  - reflexivity.
  - exists t', c, st'. exact (conj H1 (conj H3 (conj H2 H4))).
Defined.
