(* ===== verification/Dbt.v ===== *)
(** * The translation loop: [modules/arm2x86_dbt.c]

    The blocks translated so far are kept in a table of 1024 entries next to the code
    cache, a region that is filled from its start.  An entry has a copy of the guest
    code it was made from, and a lookup compares it with the guest code of the moment.
    The three block translators are those of [Translate32], [Thumb] and [Block64].

    The mutex is part of the state: it is not recursive, and a computation that locks it
    while it is held has no result, since it waits for itself.  The code cache is a
    function from addresses to bytes, of which the memory the translators read is
    independent. *)
From S2P Require Import Prelude X86 Emit Regs Decode64 Translate32 Frame Thumb RegAlloc Neon Translate64 Handlers64 Block64.
From Stdlib Require Import ZArith Lia Bool.
From stdpp Require Import base numbers list.
Open Scope Z_scope.
Open Scope c_scope.

(** ** The state *)

Definition DBT_CACHE_SIZE : nat := 1024.
Definition DBT_CODE_CACHE_SIZE : Z := 64 * 1024 * 1024.

(** The fields [flags] and [hash] are never used.  A null pointer is 0; the copy of the
    guest code belongs to its entry alone, so it is the list of its bytes. *)
Record DBTBlockInternal := {
  arm_pc : Z; x86_entry : Z; block_size : Z; hit_count : Z;
  original_code : option (list Z); original_size : Z }.

Definition zero_block : DBTBlockInternal :=
  {| arm_pc := 0; x86_entry := 0; block_size := 0; hit_count := 0; original_code := None; original_size := 0 |}.

Record dbt_state := {
  g_dbt_cache : list DBTBlockInternal;
  g_dbt_count : nat;
  g_dbt_code_cache : Z;
  g_dbt_cache_used : Z;
  mutex_held : bool;
  code_memory : Z -> Z }.

Definition set_cache (l : list DBTBlockInternal) (n : nat) (s : dbt_state) : dbt_state :=
  {| g_dbt_cache := l; g_dbt_count := n; g_dbt_code_cache := g_dbt_code_cache s;
     g_dbt_cache_used := g_dbt_cache_used s; mutex_held := mutex_held s; code_memory := code_memory s |}.
Definition set_used (u : Z) (s : dbt_state) : dbt_state :=
  {| g_dbt_cache := g_dbt_cache s; g_dbt_count := g_dbt_count s; g_dbt_code_cache := g_dbt_code_cache s;
     g_dbt_cache_used := u; mutex_held := mutex_held s; code_memory := code_memory s |}.
Definition set_region (p : Z) (s : dbt_state) : dbt_state :=
  {| g_dbt_cache := g_dbt_cache s; g_dbt_count := g_dbt_count s; g_dbt_code_cache := p;
     g_dbt_cache_used := g_dbt_cache_used s; mutex_held := mutex_held s; code_memory := code_memory s |}.
Definition set_mutex (b : bool) (s : dbt_state) : dbt_state :=
  {| g_dbt_cache := g_dbt_cache s; g_dbt_count := g_dbt_count s; g_dbt_code_cache := g_dbt_code_cache s;
     g_dbt_cache_used := g_dbt_cache_used s; mutex_held := b; code_memory := code_memory s |}.
Definition set_code (m : Z -> Z) (s : dbt_state) : dbt_state :=
  {| g_dbt_cache := g_dbt_cache s; g_dbt_count := g_dbt_count s; g_dbt_code_cache := g_dbt_code_cache s;
     g_dbt_cache_used := g_dbt_cache_used s; mutex_held := mutex_held s; code_memory := m |}.

(** ** Computations that may block *)

Definition dbt (A : Type) : Type := dbt_state -> option (A * dbt_state).

#[export] Instance dbt_ret : MRet dbt := fun A a s => Some (a, s).
#[export] Instance dbt_bind : MBind dbt := fun A B f m s => '(a, s) ← m s; f a s.

Definition get_dbt {A} (f : dbt_state -> A) : dbt A := fun s => Some (f s, s).
Definition update_dbt (f : dbt_state -> dbt_state) : dbt unit := fun s => Some (tt, f s).

Definition pthread_mutex_lock : dbt unit :=
  fun s => if mutex_held s then None else Some (tt, set_mutex true s).
Definition pthread_mutex_unlock : dbt unit := fun s => Some (tt, set_mutex false s).

(** ** The table *)

Definition read_copy (l : list Z) (i : Z) : Z := nth (Z.to_nat i) l 0.

(** The loop [for (i = 0; i < original_size; i += 4)]. *)
Definition word_offsets (size : Z) : list Z := map (fun k => 4 * k) (seqZ 0 ((size + 3) / 4)).

Definition dbt_check_smc (mem : Z -> Z) (block : DBTBlockInternal) : bool :=
  match original_code block with
  | None => false
  | Some original =>
    if (x86_entry block =? 0) || (original_size block =? 0) then false
    else existsb (fun i => negb (read_le32 mem (arm_pc block + i) =? read_le32 (read_copy original) i))
           (word_offsets (original_size block))
  end.

(** The first of the entries in use with that address. *)
Definition find_pc (pc : Z) (s : dbt_state) : option nat :=
  find_first (fun b => arm_pc b = pc) (g_dbt_count s) (g_dbt_cache s).

Definition block_at (s : dbt_state) (i : nat) : DBTBlockInternal := nth i (g_dbt_cache s) zero_block.

Definition alter_block (f : DBTBlockInternal -> DBTBlockInternal) (i : nat) : dbt unit :=
  update_dbt (fun s => set_cache (alter f i (g_dbt_cache s)) (g_dbt_count s) s).

Definition clear_block (b : DBTBlockInternal) : DBTBlockInternal :=
  {| arm_pc := 0; x86_entry := 0; block_size := block_size b; hit_count := hit_count b;
     original_code := None; original_size := original_size b |}.

Definition dbt_invalidate_block (pc : Z) : dbt unit :=
  let pc := u32 pc in
  pthread_mutex_lock ;;
  found ← get_dbt (find_pc pc);
  (match found with
   | Some i => alter_block clear_block i
   | None => mret tt
   end) ;;
  pthread_mutex_unlock.

Definition flush_block (b : DBTBlockInternal) : DBTBlockInternal :=
  {| arm_pc := 0; x86_entry := 0; block_size := block_size b; hit_count := 0;
     original_code := None; original_size := original_size b |}.

Definition dbt_flush_cache : dbt unit :=
  pthread_mutex_lock ;;
  update_dbt (fun s =>
    let n := g_dbt_count s in
    set_used 0 (set_cache (map flush_block (take n (g_dbt_cache s)) ++ drop n (g_dbt_cache s)) 0 s)) ;;
  pthread_mutex_unlock.

Definition count_hit (b : DBTBlockInternal) : DBTBlockInternal :=
  {| arm_pc := arm_pc b; x86_entry := x86_entry b; block_size := block_size b; hit_count := s32 (hit_count b + 1);
     original_code := original_code b; original_size := original_size b |}.

(** The performance counters it also updates have no influence on the result. *)
Definition dbt_lookup (mem : Z -> Z) (pc : Z) : dbt (option nat) :=
  pthread_mutex_lock ;;
  found ← get_dbt (find_pc pc);
  match found with
  | None => pthread_mutex_unlock ;; mret None
  | Some i =>
    block ← get_dbt (fun s => block_at s i);
    if dbt_check_smc mem block then
      dbt_invalidate_block pc ;; pthread_mutex_unlock ;; mret None
    else alter_block count_hit i ;; pthread_mutex_unlock ;; mret (Some i)
  end.

(** [for (i = 1; i < g_dbt_count; i++) if (hit_count[i] < hit_count[lru]) lru = i]. *)
Definition least_hits (s : dbt_state) : nat :=
  first_least (fun i => hit_count (block_at s i)) (g_dbt_count s - 1) 1 0.

Definition fill_block (pc entry size : Z) (original : list Z) (osize : Z) (b : DBTBlockInternal) : DBTBlockInternal :=
  {| arm_pc := pc; x86_entry := entry; block_size := u32 size; hit_count := 0;
     original_code := Some original; original_size := osize |}.

Definition dbt_insert (pc entry size : Z) (original : list Z) (osize : Z) : dbt nat :=
  pthread_mutex_lock ;;
  count ← get_dbt g_dbt_count;
  if (DBT_CACHE_SIZE <=? count)%nat then
    lru ← get_dbt least_hits;
    alter_block (fill_block pc entry size original osize) lru ;;
    pthread_mutex_unlock ;;
    mret lru
  else
    alter_block (fill_block pc entry size original osize) count ;;
    update_dbt (fun s => set_cache (g_dbt_cache s) (S count) s) ;;
    pthread_mutex_unlock ;;
    mret count.

Definition dbt_get_code_cache : dbt Z := get_dbt g_dbt_code_cache.
Definition dbt_get_code_cache_size : Z := DBT_CODE_CACHE_SIZE.
Definition dbt_get_cache_used : dbt Z := get_dbt g_dbt_cache_used.

(** [mapped]: the region [mmap] gives, if it succeeds. *)
Definition dbt_init (mapped : option Z) : dbt Z :=
  match mapped with
  | None => update_dbt (set_region 0) ;; mret ARM2X86_ERR_MEMORY
  | Some p =>
    update_dbt (fun s => set_cache (replicate DBT_CACHE_SIZE zero_block) 0 (set_used 0 (set_region p s))) ;;
    mret ARM2X86_OK
  end.

Definition dbt_destroy : dbt unit :=
  update_dbt (fun s => set_cache (g_dbt_cache s) 0 (set_region 0 s)).

(** ** Translating a block *)

Definition arm2x86_get_mode (ctx : option Arm2x86Mode) : Arm2x86Mode := default ARM2X86_MODE_ARM64 ctx.

Definition arm_size : Z := 64 * 4.

Definition guest_bytes (mem : Z -> Z) (pc size : Z) : list Z := map (fun i => mem (pc + i)) (seqZ 0 size).

Definition write_code (m : Z -> Z) (p : Z) (bs : list Z) : Z -> Z :=
  fun a => if (p <=? a) && (a <? p + Z.of_nat (length bs)) then nth (Z.to_nat (a - p)) bs 0 else m a.

Section Dbt.
Context `{host : Host} (g_simd_enabled : Z) (uninitialized : Z -> DecodedInstruction).

(** The translation of the code at [pc] in a mode: the result code and the bytes. *)
Definition translate_code (mode : Arm2x86Mode) (mem : Z -> Z) (pc : Z) (home_allocated : bool) : Z * list Z :=
  match mode with
  | ARM2X86_MODE_ARM32 =>
    match arm2x86_convert_block_arm32 65 mem pc arm_size with
    | Some (rc, out, _) => (rc, out)
    | None => (ARM2X86_ERR_CONVERT_FAIL, [])
    end
  | ARM2X86_MODE_THUMB =>
    match arm2x86_convert_block_thumb undefined_shift 257 mem pc (arm_size * 2) with
    | Some (rc, out, _, _) => (rc, out)
    | None => (ARM2X86_ERR_CONVERT_FAIL, [])
    end
  | _ =>
    let '(rc, r) := arm2x86_convert_block g_simd_enabled uninitialized (Some tt) mem pc arm_size
                      true true None home_allocated in
    (rc, match r with Some (out, _) => out | None => [] end)
  end.

(** Returns the code pointer, 0 for [NULL], and what [*x86_size] is set to.  The booleans
    say whether the pointers are valid and whether the two allocations succeed. *)
Definition dbt_translate_block (ctx : option Arm2x86Mode) (mem : Z -> Z) (pc : Z)
    (x86_buffer x86_size copy_allocated home_allocated : bool) : dbt (Z * option Z) :=
  match ctx with
  | None => mret (0, None)
  | Some _ =>
    if negb x86_buffer || negb x86_size then mret (0, None)
    else
      cached ← dbt_lookup mem pc;
      match cached with
      | Some i => get_dbt (fun s => (x86_entry (block_at s i), Some (block_size (block_at s i))))
      | None =>
        region ← get_dbt g_dbt_code_cache;
        used ← get_dbt g_dbt_cache_used;
        if (region =? 0) || (DBT_CODE_CACHE_SIZE <? u64 (used + 4096)) then mret (0, None)
        else
          let block_mem := region + used in
          if negb copy_allocated then mret (0, None)
          else
            let original_copy := guest_bytes mem pc arm_size in
            let '(rc, out) := translate_code (arm2x86_get_mode ctx) mem pc home_allocated in
            update_dbt (fun s => set_code (write_code (code_memory s) block_mem out) s) ;;
            if negb (rc =? ARM2X86_OK) then mret (0, None)
            else
              let size := Z.of_nat (length out) in
              dbt_insert pc block_mem size original_copy arm_size ;;
              update_dbt (fun s => set_used (u64 (g_dbt_cache_used s + u64 (Z.land (size + 15) (Z.lnot 15)))) s) ;;
              mret (block_mem, Some size)
      end
  end.

(** [call]: what the code at an address leaves in RAX.  The assembler statement gives it
    none of the four registers it reads from the context: the operands of its moves
    are in the other order. *)
Definition dbt_execute (ctx : option Arm2x86Mode) (mem : Z -> Z) (pc : Z) (arm_ctx : option Z)
    (copy_allocated home_allocated : bool) (call : Z -> Z) : dbt (Z * option Z) :=
  match ctx, arm_ctx with
  | Some _, Some r0 =>
    r ← dbt_translate_block ctx mem pc true true copy_allocated home_allocated;
    if r.1 =? 0 then mret (ARM2X86_ERR_CONVERT_FAIL, Some r0)
    else mret (ARM2X86_OK, Some (u32 (call r.1)))
  | _, _ => mret (ARM2X86_ERR_INVALID_PARAM, arm_ctx)
  end.

(** ** The translators read only the code of the block *)

(** The 64 words at [pc] are the same. *)
Definition same_words (pc : Z) (mem mem' : Z -> Z) : Prop :=
  forall k, 0 <= k < 64 -> read_le32 mem (pc + 4 * k) = read_le32 mem' (pc + 4 * k).

Lemma decode_local mem mem' pc d :
  read_le32 mem pc = read_le32 mem' pc ->
  arm2x86_decode (Some tt) mem pc d = arm2x86_decode (Some tt) mem' pc d.
Proof. intros E. unfold arm2x86_decode. destruct d; [|done]. by rewrite E. Qed.

Lemma convert64_loop_local n mem mem' pc e i t :
  same_words pc mem mem' -> 0 <= i -> i + Z.of_nat n <= 64 ->
  convert64_loop g_simd_enabled uninitialized n mem (pc + 4 * i) e t
  = convert64_loop g_simd_enabled uninitialized n mem' (pc + 4 * i) e t.
Proof.
  intros Hs. revert i t. induction n as [|n IH]; intros i t Hi Hn; [done|]. cbn [convert64_loop].
  destruct (pc + 4 * i <? e); [|done].
  assert (E : convert64_instruction g_simd_enabled uninitialized mem (pc + 4 * i)
            = convert64_instruction g_simd_enabled uninitialized mem' (pc + 4 * i)).
  { unfold convert64_instruction. by rewrite (decode_local mem mem'), (Hs i) by (apply Hs || lia; lia). }
  rewrite E. unfold mbind, translator_bind. destruct (convert64_instruction _ _ _ _ t) as [[] t1]; [done|].
  replace (pc + 4 * i + 4) with (pc + 4 * (i + 1)) by lia. apply IH; lia.
Qed.

Lemma translate_code_local mode mem mem' pc home :
  same_words pc mem mem' -> mode <> ARM2X86_MODE_THUMB ->
  translate_code mode mem pc home = translate_code mode mem' pc home.
Proof.
  intros Hs Hm.
  assert (H64 : arm2x86_convert_block g_simd_enabled uninitialized (Some tt) mem pc arm_size true true None home
    = arm2x86_convert_block g_simd_enabled uninitialized (Some tt) mem' pc arm_size true true None home).
  { unfold arm2x86_convert_block. destruct (_ || _ || _ || _); [done|]. destruct (_ && _); [done|].
    rewrite !convert_block_body_eq. unfold mbind, translator_bind.
    pose proof (convert64_loop_local max_instructions mem mem' pc (pc + arm_size) 0 (start_ctx pc) Hs
      ltac:(lia) ltac:(vm_compute; discriminate)) as E.
    rewrite Z.mul_0_r, Z.add_0_r in E. by rewrite E. }
  destruct mode; cbn [translate_code]; [by rewrite H64 | | destruct (Hm eq_refl) | by rewrite H64].
  assert (E : block_words mem pc arm_size = block_words mem' pc arm_size).
  { unfold block_words. apply map_ext_in. intros k Hk%in_seq. apply Hs.
    change (Z.to_nat ((arm_size + 3) / 4)) with 64%nat in Hk. lia. }
  pose proof (convert_block_arm32_eq mem pc arm_size 65 ltac:(vm_compute; lia)) as E1.
  pose proof (convert_block_arm32_eq mem' pc arm_size 65 ltac:(vm_compute; lia)) as E2.
  cbv zeta in E1, E2. by rewrite E1, E2, E.
Qed.

(** The most bytes a translation has: 64 ARM32 words of 2301 bytes. *)
Definition max_translation : Z := 64 * 2301.

Lemma translate_code_size mode mem pc home rc out :
  translate_code mode mem pc home = (rc, out) -> Z.of_nat (length out) <= max_translation.
Proof.
  unfold max_translation. assert (H64 : forall rc' r, arm2x86_convert_block g_simd_enabled uninitialized (Some tt) mem pc arm_size true true None home
    = (rc', r) -> Z.of_nat (length (match r with Some (out, _) => out | None => [] end)) <= max_translation).
  { intros rc' r. destruct (decide (pc = 0)) as [->|Hpc]; [by intros [= <- <-]|].
    destruct home; [|unfold arm2x86_convert_block; rewrite (proj2 (Z.eqb_neq pc 0) Hpc); by intros [= <- <-]].
    destruct (convert_block64_eq g_simd_enabled uninitialized mem pc arm_size None true Hpc (or_intror eq_refl))
      as (n & t & body & E & [Hn _] & _ & _ & Hb). cbv zeta in E.
    assert (Ho : Z.of_nat (length (prologue_bytes ++ body ++ [0x48; 0x8b; 0x85; 0; 0; 0; 0; 0xc3])) <= max_translation).
    { unfold max_translation. rewrite !length_app. change (length prologue_bytes) with 77%nat. cbn [length]. lia. }
    rewrite E. set (o := prologue_bytes ++ _) in *. clearbody o. by intros [= <- <-]. }
  destruct mode; cbn [translate_code];
    try (destruct (arm2x86_convert_block _ _ _ _ _ _ _ _ _ _) as [rc' r] eqn:E; intros [= <- <-]; by apply (H64 rc')).
  - pose proof (convert_block_arm32_eq mem pc arm_size 65 ltac:(vm_compute; lia)) as E.
    pose proof (block_code_length mem pc arm_size) as Hl.
    change (Z.to_nat ((arm_size + 3) / 4)) with 64%nat in Hl. cbv zeta in E.
    set (o := concat _) in *. clearbody o. rewrite E. intros [= <- <-]. lia.
  - pose proof (convert_block_thumb_eq undefined_shift mem pc (arm_size * 2) 257
      ltac:(vm_compute; discriminate) ltac:(vm_compute; lia)) as E. cbv zeta in E.
    pose proof (thumb_units_length undefined_shift (Z.to_nat (arm_size * 2 / 2)) mem pc (pc + arm_size * 2)) as Hl.
    change (Z.to_nat (arm_size * 2 / 2)) with 256%nat in *.
    set (o := concat _) in *. clearbody o. rewrite E. intros [= <- <-]. lia.
Qed.
Local Opaque translate_code.

(** ** The operations on the table *)

Lemma run_get {A B} (f : dbt_state -> A) (k : A -> dbt B) s : (get_dbt f ≫= k) s = k (f s) s.
Proof. done. Qed.
Lemma run_update {B} f (k : dbt B) s : (update_dbt f ;; k) s = k (f s).
Proof. done. Qed.
Lemma run_lock {B} (k : dbt B) s : mutex_held s = false -> (pthread_mutex_lock ;; k) s = k (set_mutex true s).
Proof. intros H. unfold mbind, dbt_bind, pthread_mutex_lock. by rewrite H. Qed.
Lemma run_unlock {B} (k : dbt B) s : (pthread_mutex_unlock ;; k) s = k (set_mutex false s).
Proof. done. Qed.

(** The same state, but for the mutex, which is free again. *)
Ltac same_state := destruct_dbt_state; reflexivity
with destruct_dbt_state := match goal with H : mutex_held ?s = false |- _ => destruct s; cbn in H; subst end.

Lemma find_pc_some pc s i : find_pc pc s = Some i ->
  (i < g_dbt_count s)%nat /\ arm_pc (block_at s i) = pc /\ (i < length (g_dbt_cache s))%nat.
Proof. intros E. by apply (find_first_some zero_block) in E as (? & ? & ? & _). Qed.

Lemma find_pc_none pc s i : find_pc pc s = None -> (i < g_dbt_count s)%nat -> (i < length (g_dbt_cache s))%nat ->
  arm_pc (block_at s i) <> pc.
Proof. intros E Hi Hl. exact (proj1 (find_first_none zero_block _ _ _) E i Hi Hl). Qed.

Lemma dbt_lookup_eq mem pc s : mutex_held s = false ->
  dbt_lookup mem pc s =
    match find_pc pc s with
    | None => Some (None, s)
    | Some i => if dbt_check_smc mem (block_at s i) then None
                else Some (Some i, set_cache (alter count_hit i (g_dbt_cache s)) (g_dbt_count s) s)
    end.
Proof.
  intros Hm. unfold dbt_lookup. rewrite run_lock, run_get by done.
  change (find_pc pc (set_mutex true s)) with (find_pc pc s).
  destruct (find_pc pc s) as [i|]; [|rewrite run_unlock; same_state].
  rewrite run_get. change (block_at (set_mutex true s) i) with (block_at s i).
  destruct (dbt_check_smc mem (block_at s i)); [done|].
  unfold alter_block. rewrite run_update, run_unlock. same_state.
Qed.

(** The state [dbt_insert] leaves: the entry [i] is new. *)
Definition filled (i : nat) (b : DBTBlockInternal) (n : nat) (s : dbt_state) : dbt_state :=
  set_cache (<[i := b]> (g_dbt_cache s)) n s.

(** The entry it writes. *)
Definition victim (s : dbt_state) : nat :=
  if (DBT_CACHE_SIZE <=? g_dbt_count s)%nat then least_hits s else g_dbt_count s.

Lemma alter_insert_const {A} (f : A -> A) (b : A) i (l : list A) : (forall a, f a = b) -> alter f i l = <[i := b]> l.
Proof.
  intros Hf. revert i. induction l as [|a l IH]; intros [|i]; cbn; [done..| |]; [by rewrite Hf|].
  f_equal. apply IH.
Qed.

Lemma dbt_insert_eq pc entry size original osize s : mutex_held s = false ->
  dbt_insert pc entry size original osize s =
    let b := fill_block pc entry size original osize zero_block in
    Some (victim s, filled (victim s) b (if (DBT_CACHE_SIZE <=? g_dbt_count s)%nat then g_dbt_count s else S (g_dbt_count s)) s).
Proof.
  intros Hm. unfold dbt_insert, victim. rewrite run_lock, run_get by done. cbv zeta.
  change (g_dbt_count (set_mutex true s)) with (g_dbt_count s).
  set (fb := fill_block pc entry size original osize).
  assert (Hf : forall i, alter fb i (g_dbt_cache s) = <[i := fb zero_block]> (g_dbt_cache s))
    by (intros i; by apply alter_insert_const).
  destruct (DBT_CACHE_SIZE <=? g_dbt_count s)%nat; unfold alter_block, filled; rewrite <- Hf.
  - rewrite run_get, run_update, run_unlock. same_state.
  - rewrite !run_update, run_unlock. same_state.
Qed.

Lemma block_at_alter f i j s n : (i < length (g_dbt_cache s))%nat ->
  block_at (set_cache (alter f i (g_dbt_cache s)) n s) j = if decide (j = i) then f (block_at s i) else block_at s j.
Proof. apply nth_alter. Qed.

Lemma block_at_filled i b n s j : (i < length (g_dbt_cache s))%nat ->
  block_at (filled i b n s) j = if decide (j = i) then b else block_at s j.
Proof. apply nth_insert. Qed.

(** ** What an entry promises *)

Definition code_at (m : Z -> Z) (p : Z) (bs : list Z) : Prop :=
  forall i, 0 <= i < Z.of_nat (length bs) -> m (p + i) = nth (Z.to_nat i) bs 0.

Lemma write_code_at m p bs : code_at (write_code m p bs) p bs.
Proof.
  intros i Hi. unfold write_code. rewrite (proj2 (Z.leb_le _ _)), (proj2 (Z.ltb_lt _ _)) by lia.
  cbn [andb]. do 2 f_equal. lia.
Qed.

Lemma write_code_below m p bs q cs :
  q + Z.of_nat (length cs) <= p -> code_at m q cs -> code_at (write_code m p bs) q cs.
Proof.
  intros Hq Hc i Hi. unfold write_code. rewrite (proj2 (Z.leb_gt _ _)) by lia. by apply Hc.
Qed.

(** An entry that was invalidated, or never used. *)
Definition cleared (b : DBTBlockInternal) : Prop := arm_pc b = 0 /\ x86_entry b = 0 /\ original_code b = None.

(** An entry in use has the translation, in some mode, of some code whose bytes it keeps, and its
    code lies below the part of the region that is free. *)
Definition live (s : dbt_state) (b : DBTBlockInternal) : Prop :=
  exists mode mem home out,
    original_code b = Some (guest_bytes mem (arm_pc b) arm_size) /\ original_size b = arm_size /\
    translate_code mode mem (arm_pc b) home = (ARM2X86_OK, out) /\
    block_size b = Z.of_nat (length out) /\ 0 < x86_entry b /\
    code_at (code_memory s) (x86_entry b) out /\
    (g_dbt_code_cache s <> 0 -> x86_entry b + Z.of_nat (length out) <= g_dbt_code_cache s + g_dbt_cache_used s).

Record coherent (s : dbt_state) : Prop := {
  co_length : length (g_dbt_cache s) = DBT_CACHE_SIZE;
  co_count : (g_dbt_count s <= DBT_CACHE_SIZE)%nat;
  co_region : 0 <= g_dbt_code_cache s;
  co_used : 0 <= g_dbt_cache_used s <= DBT_CODE_CACHE_SIZE + 2^19;
  co_mutex : mutex_held s = false;
  co_entries : forall i, (i < g_dbt_count s)%nat -> cleared (block_at s i) \/ live s (block_at s i) }.

Lemma live_ext s s' b :
  code_memory s' = code_memory s -> g_dbt_code_cache s' = g_dbt_code_cache s ->
  g_dbt_cache_used s' = g_dbt_cache_used s -> live s b -> live s' b.
Proof. unfold live. by intros -> -> ->. Qed.

Lemma live_hit s b : live s b -> live s (count_hit b).
Proof. done. Qed.

(** The comparison looks at the words of the block. *)
Lemma read_copy_guest mem pc i : 0 <= i -> i + 3 < arm_size ->
  read_le32 (read_copy (guest_bytes mem pc arm_size)) i = read_le32 mem (pc + i).
Proof.
  intros H0 Hi. assert (E : forall j, 0 <= j < arm_size -> read_copy (guest_bytes mem pc arm_size) j = mem (pc + j)).
  { intros j Hj. unfold read_copy, guest_bytes. rewrite nth_lookup, list_lookup_fmap, lookup_seqZ_lt by lia.
    cbn. f_equal. lia. }
  unfold read_le32. rewrite !E by lia. by rewrite !Z.add_assoc.
Qed.

Lemma check_smc_words mem mem0 b :
  original_code b = Some (guest_bytes mem0 (arm_pc b) arm_size) -> original_size b = arm_size -> x86_entry b <> 0 ->
  dbt_check_smc mem b = false <-> same_words (arm_pc b) mem mem0.
Proof.
  intros Ho Hs Hx. unfold dbt_check_smc. rewrite Ho, Hs, (proj2 (Z.eqb_neq _ _) Hx).
  change (arm_size =? 0) with false. cbn [orb].
  assert (Hw : forall i, In i (word_offsets arm_size) <-> exists k, 0 <= k < 64 /\ i = 4 * k).
  { intros i. unfold word_offsets. rewrite in_map_iff. change ((arm_size + 3) / 4) with 64.
    split; intros (k & H1 & H2); exists k.
    - rewrite <- list_elem_of_In, elem_of_seqZ in H2. split; [lia|done].
    - rewrite <- list_elem_of_In, elem_of_seqZ. split; [done|lia]. }
  rewrite <- not_true_iff_false, existsb_exists. split.
  - intros Hn k Hk. destruct (Z.eqb_spec (read_le32 mem (arm_pc b + 4 * k)) (read_le32 mem0 (arm_pc b + 4 * k)))
      as [E|E]; [done|]. destruct Hn. exists (4 * k). split; [apply Hw; eauto|].
    rewrite read_copy_guest by (unfold arm_size; lia). by rewrite (proj2 (Z.eqb_neq _ _) E).
  - intros Hw' (i & (k & Hk & ->)%Hw & Hi). rewrite read_copy_guest in Hi by (unfold arm_size; lia).
    by rewrite (Hw' k Hk), Z.eqb_refl in Hi.
Qed.

(** ** Every operation keeps the table coherent *)

Definition hit_state (i : nat) (s : dbt_state) : dbt_state :=
  set_cache (alter count_hit i (g_dbt_cache s)) (g_dbt_count s) s.

(** [dbt_translate_block] when the table has nothing for the address. *)
Definition translate_miss (m : Arm2x86Mode) (mem : Z -> Z) (pc : Z) (copy_allocated home_allocated : bool)
    (s : dbt_state) : (Z * option Z) * dbt_state :=
  if (g_dbt_code_cache s =? 0) || (DBT_CODE_CACHE_SIZE <? u64 (g_dbt_cache_used s + 4096)) then ((0, None), s)
  else if negb copy_allocated then ((0, None), s)
  else
    let p := g_dbt_code_cache s + g_dbt_cache_used s in
    let '(rc, out) := translate_code m mem pc home_allocated in
    let s1 := set_code (write_code (code_memory s) p out) s in
    if negb (rc =? ARM2X86_OK) then ((0, None), s1)
    else
      let size := Z.of_nat (length out) in
      let b := fill_block pc p size (guest_bytes mem pc arm_size) arm_size zero_block in
      let n := if (DBT_CACHE_SIZE <=? g_dbt_count s)%nat then g_dbt_count s else S (g_dbt_count s) in
      ((p, Some size),
       set_used (u64 (g_dbt_cache_used s + u64 (Z.land (size + 15) (Z.lnot 15)))) (filled (victim s) b n s1)).

Lemma dbt_translate_block_eq m mem pc c h s : mutex_held s = false ->
  dbt_translate_block (Some m) mem pc true true c h s =
    match find_pc pc s with
    | None => Some (translate_miss m mem pc c h s)
    | Some i => if dbt_check_smc mem (block_at s i) then None
                else let b := block_at (hit_state i s) i in Some ((x86_entry b, Some (block_size b)), hit_state i s)
    end.
Proof.
  intros Hm. unfold dbt_translate_block. cbn [negb orb]. unfold mbind at 1, dbt_bind at 1.
  rewrite dbt_lookup_eq by done. destruct (find_pc pc s) as [i|] eqn:Ef.
  - destruct (dbt_check_smc mem (block_at s i)); [done|]. reflexivity.
  - cbn [mbind option_bind]. rewrite !run_get. unfold translate_miss.
    destruct (_ || _); [done|]. destruct (negb c); [done|]. cbv zeta.
    change (arm2x86_get_mode (Some m)) with m. destruct (translate_code m mem pc h) as [rc out].
    rewrite run_update. destruct (negb (rc =? ARM2X86_OK)); [done|].
    unfold mbind at 1, dbt_bind at 1. rewrite dbt_insert_eq by done. cbn [mbind option_bind].
    rewrite run_update. reflexivity.
Qed.

Lemma coherent_hit i s : (i < length (g_dbt_cache s))%nat -> coherent s -> coherent (hit_state i s).
Proof.
  intros Hi [Hl Hc Hr Hu Hm He]. split; try done; cbn [g_dbt_cache set_cache hit_state].
  - by rewrite length_alter.
  - intros j Hj. unfold hit_state at 1 3. rewrite block_at_alter by done. specialize (He j Hj).
    destruct (decide (j = i)) as [->|]; [|by destruct He as [?|?]; [left|right; by apply (live_ext s)]].
    destruct He as [(H1 & H2 & H3)|H]; [by left | right; apply (live_ext s); try done].
Qed.

Lemma coherent_code s p out : 0 <= g_dbt_cache_used s ->
  p = g_dbt_code_cache s + g_dbt_cache_used s -> g_dbt_code_cache s <> 0 ->
  coherent s -> coherent (set_code (write_code (code_memory s) p out) s).
Proof.
  intros H0 -> Hp [Hl Hc Hr Hu Hm He]. split; try done. intros j Hj.
  destruct (He j Hj) as [H|(mode & mem & home & o & H1 & H2 & H3 & H4 & H5 & H6 & H7)]; [by left|right].
  exists mode, mem, home, o. split_and!; try done. cbn [code_memory set_code].
  apply write_code_below; [by apply H7 | done].
Qed.

Lemma round16 n : 0 <= n -> n <= Z.land (n + 15) (Z.lnot 15) <= n + 15.
Proof.
  intros Hn. change (Z.land (n + 15) (Z.lnot 15)) with (Z.ldiff (n + 15) (Z.ones 4)).
  rewrite Z.ldiff_ones_r, Z.shiftr_div_pow2, Z.shiftl_mul_pow2 by lia.
  change (2^4) with 16. Z.div_mod_to_equations. lia.
Qed.

Lemma victim_lt s : (g_dbt_count s <= DBT_CACHE_SIZE)%nat -> (victim s < DBT_CACHE_SIZE)%nat.
Proof.
  intros H. unfold victim. destruct (Nat.leb_spec DBT_CACHE_SIZE (g_dbt_count s)) as [Hn|Hn]; [|done].
  assert (E : g_dbt_count s = DBT_CACHE_SIZE) by lia. rewrite <- E. apply (first_least_all (fun i => hit_count (block_at s i))).
  rewrite E. unfold DBT_CACHE_SIZE. lia.
Qed.

Lemma coherent_miss m mem pc c h s : coherent s -> coherent (translate_miss m mem pc c h s).2.
Proof.
  intros Hs. unfold translate_miss. destruct (_ || _) eqn:Ef; [done|]. destruct (negb c); [done|]. cbv zeta.
  apply orb_false_iff in Ef as [Hr0%Z.eqb_neq Hu%Z.ltb_ge].
  destruct (translate_code m mem pc h) as [rc out] eqn:Et.
  pose proof (co_used s Hs) as Hus. pose proof (co_region s Hs) as Hrg.
  pose proof (coherent_code s _ out (proj1 Hus) eq_refl Hr0 Hs) as Hs1. set (s1 := set_code _ s) in *.
  destruct (Z.eqb_spec rc ARM2X86_OK) as [->|]; cbn [negb snd]; [|done].
  pose proof (translate_code_size _ _ _ _ _ _ Et) as Hsz. unfold max_translation in Hsz. pose proof (victim_lt s (co_count s Hs)) as Hv.
  unfold DBT_CODE_CACHE_SIZE in *. rewrite u64_small in Hu by lia.
  set (size := Z.of_nat (length out)) in *. pose proof (round16 size ltac:(lia)) as Hrd.
  assert (Hnew : u64 (g_dbt_cache_used s + u64 (Z.land (size + 15) (Z.lnot 15)))
    = g_dbt_cache_used s + Z.land (size + 15) (Z.lnot 15)) by (rewrite (u64_small (Z.land _ _)), u64_small by lia; done).
  rewrite Hnew. clear Hnew. remember (g_dbt_cache_used s + Z.land (size + 15) (Z.lnot 15)) as u eqn:Eu.
  set (b := fill_block _ _ _ _ _ _). set (n := if (DBT_CACHE_SIZE <=? g_dbt_count s)%nat then _ else _).
  assert (Hn : (n <= DBT_CACHE_SIZE)%nat).
  { unfold n. pose proof (co_count s Hs). destruct (Nat.leb_spec DBT_CACHE_SIZE (g_dbt_count s)); lia. }
  assert (Hat : forall j, block_at (set_used u (filled (victim s) b n s1)) j
    = if decide (j = victim s) then b else block_at s1 j).
  { intros j. apply (block_at_filled (victim s) b n s1 j). cbn. rewrite (co_length s Hs). lia. }
  split; try done.
  - cbn. rewrite length_insert. apply (co_length s Hs).
  - cbn. unfold DBT_CODE_CACHE_SIZE. lia.
  - apply (co_mutex s Hs).
  - intros j Hj. rewrite Hat.
    destruct (decide (j = victim s)) as [->|Hne].
    + right. exists m, mem, h, out. split_and!; try done.
      * cbn. apply u32_small. lia.
      * cbn. lia.
      * apply write_code_at.
      * intros _. cbn. lia.
    + change (j < n)%nat in Hj. assert (Hj' : (j < g_dbt_count s)%nat).
      { unfold n, victim in *. destruct (DBT_CACHE_SIZE <=? g_dbt_count s)%nat; lia. }
      destruct (co_entries s1 Hs1 j Hj') as [H|H]; [by left|right].
      destruct H as (m' & mem' & h' & o' & H1 & H2 & H3 & H4 & H5 & H6 & H7).
      exists m', mem', h', o'. split_and!; try done. intros Hr. specialize (H7 Hr). cbn in H7 |- *. lia.
Qed.

(** ** Runs of the program *)

(** One call of an operation that returns.  The guest may change its code between calls:
    every call sees a memory of its own.  [mmap] gives an address above 0 or fails. *)
Inductive dbt_step (s s' : dbt_state) : Prop :=
| step_init mapped r : (forall p, mapped = Some p -> 0 < p) -> dbt_init mapped s = Some (r, s') -> dbt_step s s'
| step_destroy r : dbt_destroy s = Some (r, s') -> dbt_step s s'
| step_invalidate pc r : dbt_invalidate_block pc s = Some (r, s') -> dbt_step s s'
| step_flush r : dbt_flush_cache s = Some (r, s') -> dbt_step s s'
| step_translate ctx mem pc b1 b2 c h r :
    dbt_translate_block ctx mem pc b1 b2 c h s = Some (r, s') -> dbt_step s s'
| step_execute ctx mem pc arm_ctx c h call r :
    dbt_execute ctx mem pc arm_ctx c h call s = Some (r, s') -> dbt_step s s'.

(** The variables of the file when the program starts. *)
Definition dbt_start (code : Z -> Z) : dbt_state :=
  {| g_dbt_cache := replicate DBT_CACHE_SIZE zero_block; g_dbt_count := 0; g_dbt_code_cache := 0;
     g_dbt_cache_used := 0; mutex_held := false; code_memory := code |}.

Inductive dbt_reachable : dbt_state -> Prop :=
| reach_start code : dbt_reachable (dbt_start code)
| reach_step s s' : dbt_reachable s -> dbt_step s s' -> dbt_reachable s'.

Lemma coherent_empty s : length (g_dbt_cache s) = DBT_CACHE_SIZE -> g_dbt_count s = 0%nat ->
  0 <= g_dbt_code_cache s -> 0 <= g_dbt_cache_used s <= DBT_CODE_CACHE_SIZE + 2^19 -> mutex_held s = false ->
  coherent s.
Proof. intros ? Hc ???. split; try done; rewrite Hc; lia. Qed.

Lemma used_zero : 0 <= 0 <= DBT_CODE_CACHE_SIZE + 2^19.
Proof. unfold DBT_CODE_CACHE_SIZE. lia. Qed.

Lemma coherent_translate ctx mem pc b1 b2 c h s r s' :
  coherent s -> dbt_translate_block ctx mem pc b1 b2 c h s = Some (r, s') -> coherent s'.
Proof.
  intros Hs. destruct ctx as [m|]; [|by intros [= _ <-]].
  destruct b1, b2; try (by intros [= _ <-]).
  rewrite dbt_translate_block_eq by apply Hs. destruct (find_pc pc s) as [i|] eqn:Ef.
  - destruct (dbt_check_smc mem (block_at s i)); [done|]. intros [= _ <-].
    apply coherent_hit; [apply (find_pc_some _ _ _ Ef) | done].
  - intros [= E]. pose proof (coherent_miss m mem pc c h s Hs) as H. by rewrite E in H.
Qed.

Lemma coherent_invalidate pc s r s' : coherent s -> dbt_invalidate_block pc s = Some (r, s') -> coherent s'.
Proof.
  intros Hs. pose proof (co_mutex s Hs) as Hm. unfold dbt_invalidate_block. rewrite run_lock, run_get by done.
  change (find_pc (u32 pc) (set_mutex true s)) with (find_pc (u32 pc) s).
  destruct (find_pc (u32 pc) s) as [i|] eqn:Ef.
  - destruct (find_pc_some _ _ _ Ef) as (_ & _ & Hi).
    unfold alter_block. rewrite run_update. intros [= _ <-].
    destruct Hs as [Hl Hc Hr Hu _ He]. split; try done; cbn [g_dbt_cache set_cache set_mutex].
    + by rewrite length_alter.
    + intros j Hj. change (block_at _ j) with (block_at (set_cache (alter clear_block i (g_dbt_cache s)) (g_dbt_count s) s) j).
      rewrite block_at_alter by done. destruct (decide (j = i)) as [->|]; [by left|].
      destruct (He j Hj) as [H|H]; [by left | right; by apply (live_ext s)].
  - intros [= _ <-]. destruct s. cbn in *. by subst.
Qed.

Lemma dbt_reachable_coherent s : dbt_reachable s -> coherent s.
Proof.
  induction 1 as [code|s s' _ Hs Hstep].
  - apply coherent_empty; [apply length_replicate | done | cbn; lia | apply used_zero | done].
  - destruct Hstep as [mapped r Hp E|r E|pc r E|r E|ctx mem pc b1 b2 c h r E|ctx mem pc arm_ctx c h call r E].
    + destruct mapped as [p|].
      * unfold dbt_init in E. rewrite run_update in E. unfold mret, dbt_ret in E.
        apply (inj Some), (f_equal snd) in E. cbn [snd] in E. subst s'.
        apply coherent_empty; [apply length_replicate | done | | apply used_zero | apply (co_mutex s Hs)].
        specialize (Hp p eq_refl). cbn. lia.
      * injection E as _ <-. destruct Hs as [Hl Hc Hr Hu Hm He]. split; try done.
        intros i Hi. destruct (He i Hi) as [H|(m & mem & h & o & H1 & H2 & H3 & H4 & H5 & H6 & H7)]; [by left|right].
        exists m, mem, h, o. split_and!; done.
    + injection E as _ <-. destruct Hs as [Hl Hc Hr Hu Hm He]. by apply coherent_empty.
    + by apply (coherent_invalidate pc s r).
    + unfold dbt_flush_cache in E. rewrite run_lock, run_update in E by apply Hs. injection E as _ <-.
      destruct Hs as [Hl Hc Hr Hu Hm He]. apply coherent_empty; [|done|done|apply used_zero|done].
      cbn. rewrite length_app, length_map, length_take, length_drop. lia.
    + by apply (coherent_translate ctx mem pc b1 b2 c h s r).
    + unfold dbt_execute in E. destruct ctx as [m|]; [|by injection E as _ <-].
      destruct arm_ctx as [r0|]; [|by injection E as _ <-].
      unfold mbind, dbt_bind in E. destruct (dbt_translate_block _ _ _ _ _ _ _ s) as [[r1 s1]|] eqn:E1; [|done].
      cbn [mbind option_bind] in E. pose proof (coherent_translate _ _ _ _ _ _ _ _ _ _ Hs E1) as H.
      destruct (r1.1 =? 0); by injection E as _ <-.
Qed.

(** ** What a call returns *)

Lemma block_at_hit i s : (i < length (g_dbt_cache s))%nat -> block_at (hit_state i s) i = count_hit (block_at s i).
Proof. intros Hi. unfold hit_state. rewrite block_at_alter by done. by rewrite decide_True. Qed.

Lemma entry_zero_not_live s b : live s b -> x86_entry b <> 0.
Proof. intros (m & mem & h & o & _ & _ & _ & _ & H & _). lia. Qed.

(** What the pointer [p] and the size [sz] stand for in the state [s]: the translation of
    the code at [pc] in the memory [mem0]. *)
Definition translation_of (mode : Arm2x86Mode) (mem0 : Z -> Z) (pc : Z) (home : bool) (s : dbt_state)
    (p : Z) (sz : option Z) : Prop :=
  exists out, translate_code mode mem0 pc home = (ARM2X86_OK, out) /\ sz = Some (Z.of_nat (length out)) /\
    code_at (code_memory s) p out.


(** ** A second call for the same address *)

Lemma find_pc_first pc s i : (g_dbt_count s <= length (g_dbt_cache s))%nat ->
  find_pc pc s = Some i <->
  (i < g_dbt_count s)%nat /\ arm_pc (block_at s i) = pc /\ (forall j, (j < i)%nat -> arm_pc (block_at s j) <> pc).
Proof.
  intros Hl. unfold find_pc. rewrite (find_first_some zero_block). split; [by intros (H1 & _ & H2)|].
  intros (H1 & H2). split; [done|]. split; [lia | done].
Qed.

(** The entry [i] of [s] is the first for [pc], and has the pointer, the size and a copy
    of the code in [mem]. *)
Definition holds (s : dbt_state) (i : nat) (pc : Z) (mem : Z -> Z) (p : Z) (sz : option Z) : Prop :=
  find_pc pc s = Some i /\ x86_entry (block_at s i) = p /\ Some (block_size (block_at s i)) = sz /\
  forall mem', dbt_check_smc mem' (block_at s i) = false <-> same_words pc mem' mem.

Lemma same_words_trans pc m1 m2 m3 : same_words pc m1 m2 -> same_words pc m2 m3 -> same_words pc m1 m3.
Proof. intros H1 H2 k Hk. by rewrite (H1 k Hk), (H2 k Hk). Qed.
Lemma same_words_sym pc m1 m2 : same_words pc m1 m2 -> same_words pc m2 m1.
Proof. intros H k Hk. by rewrite (H k Hk). Qed.

Lemma hit_holds s mem pc i : coherent s -> find_pc pc s = Some i -> dbt_check_smc mem (block_at s i) = false ->
  x86_entry (block_at s i) <> 0 ->
  holds (hit_state i s) i pc mem (x86_entry (block_at s i)) (Some (block_size (block_at s i))).
Proof.
  intros Hs Ef Ec Hp. destruct (find_pc_some _ _ _ Ef) as (Hi & Hpc & Hl).
  assert (Hc : (g_dbt_count s <= length (g_dbt_cache s))%nat) by (rewrite (co_length s Hs); apply (co_count s Hs)).
  unfold holds. rewrite block_at_hit by done. split; [|split; [done|split; [done|]]].
  - apply find_pc_first; [cbn; by rewrite length_alter|].
    apply (find_pc_first pc s i Hc) in Ef as (_ & _ & Hu).
    split; [done|]. split; [by rewrite block_at_hit|]. intros j Hj.
    unfold hit_state. rewrite block_at_alter by done. destruct (decide (j = i)); [lia|]. by apply Hu.
  - intros mem'. change (dbt_check_smc mem' (count_hit ?b)) with (dbt_check_smc mem' b).
    destruct (co_entries s Hs i Hi) as [(_ & H0 & _)|Hlive]; [done|].
    destruct Hlive as (mode & mem0 & home & out & H1 & H2 & _).
    pose proof (check_smc_words mem mem0 _ H1 H2 Hp) as W. pose proof (check_smc_words mem' mem0 _ H1 H2 Hp) as W'.
    rewrite Hpc in *. apply W in Ec. rewrite W'. split; intros H.
    + by apply (same_words_trans _ _ mem0); [|apply same_words_sym].
    + by apply (same_words_trans _ _ mem).
Qed.

Lemma miss_holds s m mem pc c h p sz s' : coherent s -> find_pc pc s = None ->
  translate_miss m mem pc c h s = ((p, sz), s') -> p <> 0 -> holds s' (victim s) pc mem p sz.
Proof.
  intros Hs Ef E Hp. pose proof (coherent_miss m mem pc c h s Hs) as Hs'. rewrite E in Hs'. cbn [snd] in Hs'.
  unfold translate_miss in E. destruct (_ || _); [injection E as <- _ _; done|].
  destruct (negb c); [injection E as <- _ _; done|]. cbv zeta in E.
  destruct (translate_code m mem pc h) as [rc out] eqn:Et.
  destruct (negb (rc =? ARM2X86_OK)); [injection E as <- _ _; done|].
  pose proof (translate_code_size _ _ _ _ _ _ Et) as Hsz. unfold max_translation in Hsz.
  assert (Ep : g_dbt_code_cache s + g_dbt_cache_used s = p) by (apply (f_equal (fun x => x.1.1)) in E; exact E).
  assert (Ez : Some (Z.of_nat (length out)) = sz) by (apply (f_equal (fun x => x.1.2)) in E; exact E).
  apply (f_equal snd) in E. cbn [snd] in E. rewrite Ep in E.
  set (b := fill_block pc p _ _ _ _) in E. set (n := if (DBT_CACHE_SIZE <=? g_dbt_count s)%nat then _ else _) in E.
  assert (Hv : (victim s < n)%nat).
  { pose proof (victim_lt s (co_count s Hs)). unfold n, victim in *.
    destruct (Nat.leb_spec DBT_CACHE_SIZE (g_dbt_count s)); lia. }
  assert (Hat : forall j, block_at s' j = if decide (j = victim s) then b else block_at s j).
  { intros j. rewrite <- E. apply (block_at_filled (victim s) b n s j). rewrite (co_length s Hs).
    apply victim_lt, (co_count s Hs). }
  assert (Hn : g_dbt_count s' = n) by (by rewrite <- E).
  assert (Hb : block_at s' (victim s) = b) by (rewrite Hat; by rewrite decide_True).
  unfold holds. rewrite Hb. split; [|split; [done|split]].
  - apply find_pc_first; [rewrite (co_length s' Hs'); apply (co_count s' Hs')|].
    rewrite Hn. split; [done|]. split; [by rewrite Hb|]. intros j Hj. rewrite Hat.
    destruct (decide (j = victim s)); [lia|]. apply (find_pc_none pc s j Ef).
    + unfold n, victim in *. destruct (Nat.leb_spec DBT_CACHE_SIZE (g_dbt_count s)); lia.
    + rewrite (co_length s Hs). pose proof (victim_lt s (co_count s Hs)). lia.
  - rewrite <- Ez. cbn. by rewrite u32_small by lia.
  - intros mem'. by apply check_smc_words.
Qed.

Lemma second_call s m mem pc copy_allocated home_allocated p sz s' :
  dbt_reachable s ->
  dbt_translate_block (Some m) mem pc true true copy_allocated home_allocated s = Some ((p, sz), s') ->
  p <> 0 ->
  forall m' mem' copy' home',
  (same_words pc mem' mem -> exists s'',
     dbt_translate_block (Some m') mem' pc true true copy' home' s' = Some ((p, sz), s'')) /\
  (~ same_words pc mem' mem -> dbt_translate_block (Some m') mem' pc true true copy' home' s' = None).
Proof.
  intros Hr E Hp m' mem' c' h'. pose proof (dbt_reachable_coherent s Hr) as Hs.
  pose proof (coherent_translate _ _ _ _ _ _ _ _ _ _ Hs E) as Hs'.
  assert (H : exists i, holds s' i pc mem p sz).
  { rewrite dbt_translate_block_eq in E by apply Hs. destruct (find_pc pc s) as [i|] eqn:Ef.
    - destruct (find_pc_some _ _ _ Ef) as (_ & _ & Hl).
      destruct (dbt_check_smc mem (block_at s i)) eqn:Ec; [done|]. cbv zeta in E. rewrite block_at_hit in E by done.
      apply (inj Some) in E. injection E as E1 E2 <-. exists i. rewrite <- E1, <- E2 in *. by apply hit_holds.
    - apply (inj Some) in E. exists (victim s). by apply (miss_holds s m mem pc copy_allocated home_allocated). }
  destruct H as (i & Ef & Hx & Hz & Hc). rewrite dbt_translate_block_eq by apply Hs'. rewrite Ef.
  destruct (find_pc_some _ _ _ Ef) as (_ & _ & Hl). destruct (dbt_check_smc mem' (block_at s' i)) eqn:Ec.
  - split; [|done]. intros H%Hc. congruence.
  - split; [|intros H; by apply Hc in Ec]. intros _. cbv zeta. rewrite block_at_hit by done.
    exists (hit_state i s'). rewrite <- Hx, <- Hz. done.
Qed.

(** C2: the second call for an address.  Once a call has returned a pointer, the next call for
    the same address, in whatever mode, returns the same pointer and size if the first
    256 bytes of guest code, as words, have not changed.  If they have, it never
    returns: the lookup holds the mutex while it calls [dbt_invalidate_block], which
    waits for it. *)
Theorem dbt_second_call s m mem pc copy_allocated home_allocated p sz s' :
  dbt_reachable s ->
  dbt_translate_block (Some m) mem pc true true copy_allocated home_allocated s = Some ((p, sz), s') ->
  p <> 0 ->
  forall m' mem' copy' home',
  (same_words pc mem' mem -> exists s'',
     dbt_translate_block (Some m') mem' pc true true copy' home' s' = Some ((p, sz), s'')) /\
  (~ same_words pc mem' mem -> dbt_translate_block (Some m') mem' pc true true copy' home' s' = None).
Proof. apply second_call. Qed.

(** ** Insertion, invalidation, flushing *)

(** An insertion always returns.  It takes the next entry while there is one, then the first
    of the entries with the fewest hits; the entry is the new block with no hits, and
    the others stay as they are. *)
Theorem dbt_insert_spec s pc entry size original osize :
  coherent s ->
  exists i s', dbt_insert pc entry size original osize s = Some (i, s') /\
  block_at s' i = {| arm_pc := pc; x86_entry := entry; block_size := u32 size; hit_count := 0;
                     original_code := Some original; original_size := osize |} /\
  (forall j, j <> i -> block_at s' j = block_at s j) /\
  ((g_dbt_count s < DBT_CACHE_SIZE)%nat -> i = g_dbt_count s /\ g_dbt_count s' = S (g_dbt_count s)) /\
  (g_dbt_count s = DBT_CACHE_SIZE -> (i < DBT_CACHE_SIZE)%nat /\ g_dbt_count s' = DBT_CACHE_SIZE /\
     (forall j, (j < DBT_CACHE_SIZE)%nat -> hit_count (block_at s i) <= hit_count (block_at s j)) /\
     (forall j, (j < i)%nat -> hit_count (block_at s i) < hit_count (block_at s j))).
Proof.
  intros Hs. rewrite dbt_insert_eq by apply Hs. cbv zeta. eexists _, _. split; [done|].
  pose proof (victim_lt s (co_count s Hs)) as Hv. rewrite <- (co_length s Hs) in Hv.
  split; [rewrite block_at_filled by done; by rewrite decide_True|].
  split; [intros j Hj; rewrite block_at_filled by done; by rewrite decide_False|].
  cbn [g_dbt_count filled set_cache]. unfold victim. split.
  - intros Hc. by rewrite (proj2 (Nat.leb_gt _ _)).
  - intros Hc. rewrite Hc. rewrite (proj2 (Nat.leb_le _ _)) by done.
    destruct (first_least_all (fun i => hit_count (block_at s i)) (g_dbt_count s)) as (H1 & H2 & H3);
      [rewrite Hc; unfold DBT_CACHE_SIZE; lia|].
    change (first_least _ _ _ _) with (least_hits s) in H1, H2, H3. rewrite Hc in H1, H2.
    split; [exact H1|]. split; [done|]. split; [exact H2 | exact H3].
Qed.

(** Invalidation and flushing.  Both always return.  An invalidation takes the low 32 bits
    of the address, so the block of an address above them is found as before; the block
    found for an address below is dropped.  After a flush the table is empty and the
    region is filled from its start again: the next block that is translated is
    written over the first. *)
Theorem dbt_invalidate_flush s pc :
  dbt_reachable s ->
  (exists s', dbt_invalidate_block pc s = Some (tt, s') /\ coherent s' /\
     (forall pc', 2^32 <= pc' -> find_pc pc' s' = find_pc pc' s) /\
     (forall i, 0 < pc < 2^32 -> find_pc pc s = Some i -> cleared (block_at s' i))) /\
  (exists s', dbt_flush_cache s = Some (tt, s') /\ coherent s' /\ (forall pc', find_pc pc' s' = None) /\
     forall m mem c h p sz s2, dbt_translate_block (Some m) mem pc true true c h s' = Some ((p, sz), s2) ->
       p <> 0 -> p = g_dbt_code_cache s).
Proof.
  intros Hr. pose proof (dbt_reachable_coherent s Hr) as Hs.
  assert (Hc : (g_dbt_count s <= length (g_dbt_cache s))%nat) by (rewrite (co_length s Hs); apply (co_count s Hs)).
  split.
  - pose proof (co_mutex s Hs) as Hm. destruct (dbt_invalidate_block pc s) as [[[] s']|] eqn:E.
    2:{ unfold dbt_invalidate_block in E. rewrite run_lock, run_get in E by done. by destruct (find_pc _ _). }
    exists s'. split; [done|]. split; [by apply (coherent_invalidate pc s tt)|].
    unfold dbt_invalidate_block in E. rewrite run_lock, run_get in E by done.
    change (find_pc (u32 pc) (set_mutex true s)) with (find_pc (u32 pc) s) in E.
    destruct (find_pc (u32 pc) s) as [i|] eqn:Ef.
    + destruct (find_pc_some _ _ _ Ef) as (Hi & Hpc & Hl).
      unfold alter_block in E. rewrite run_update in E. injection E as <-.
      set (s' := set_mutex false _).
      assert (Hat : forall j, block_at s' j = if decide (j = i) then clear_block (block_at s i) else block_at s j)
        by (intros j; by apply (block_at_alter clear_block i j s (g_dbt_count s))).
      assert (Hl' : length (g_dbt_cache s') = length (g_dbt_cache s)) by apply length_alter.
      split.
      * intros pc' Hpc'. pose proof (u32_range pc).
        assert (Heq : forall j, arm_pc (block_at s' j) = pc' <-> arm_pc (block_at s j) = pc').
        { intros j. rewrite Hat. destruct (decide (j = i)) as [->|]; [|done]. cbn. lia. }
        apply option_eq. intros k. rewrite !find_pc_first by (rewrite ?Hl'; done).
        rewrite Heq. split; intros (H1 & H2 & H3); (split; [done|split; [done|]]);
          intros j Hj Hx; apply (H3 j Hj), Heq, Hx.
      * intros k Hpc32 Hk. rewrite u32_small in Ef by lia. assert (k = i) as -> by congruence.
        rewrite Hat, decide_True by done. done.
    + injection E as <-. split; [done|]. intros k Hpc32 Hk. rewrite u32_small in Ef by lia. congruence.
  - unfold dbt_flush_cache. rewrite run_lock, run_update by apply Hs. eexists. split; [reflexivity|].
    assert (Hf : coherent (set_mutex false (set_used 0 (set_cache (map flush_block (take (g_dbt_count s) (g_dbt_cache s))
      ++ drop (g_dbt_count s) (g_dbt_cache s)) 0 s)))).
    { destruct Hs as [Hl Hcn Hrg Hu Hm He]. apply coherent_empty; [|done|done|apply used_zero|done].
      cbn. rewrite length_app, length_map, length_take, length_drop. lia. }
    split; [exact Hf|]. split; [done|]. intros m mem c h p sz s2 E Hp.
    rewrite dbt_translate_block_eq in E by apply Hf. change (find_pc pc _) with (@None nat) in E.
    apply (inj Some) in E. unfold translate_miss in E. destruct (_ || _); [injection E as <- _ _; done|].
    destruct (negb c); [injection E as <- _ _; done|]. cbv zeta in E.
    destruct (translate_code m mem pc h) as [rc out].
    destruct (negb (rc =? ARM2X86_OK)); [injection E as <- _ _; done|].
    apply (f_equal (fun x => x.1.1)) in E. cbn in E. lia.
Qed.

(** ** The end of the region *)

Local Transparent translate_code.

(** Guest code of 64 words that become one NOP each, and one of 64 words of 2301 bytes. *)
Definition nop_memory : Z -> Z := fun _ => 0xe1.
Definition vpush_memory : Z -> Z := fun a => nth (Z.to_nat (a mod 4)) [0xff; 0x00; 0x20; 0x0d] 0.

Lemma translate_nops pc home :
  translate_code ARM2X86_MODE_ARM32 nop_memory pc home = (ARM2X86_OK, replicate 64 0x90).
Proof.
  cbn [translate_code].
  pose proof (convert_block_arm32_eq nop_memory pc arm_size 65 ltac:(vm_compute; lia)) as E. cbv zeta in E.
  rewrite E. f_equal.
Qed.

Lemma length_code_replicate w k n : length (instruction_code w) = k ->
  length (concat (map instruction_code (replicate n w))) = (n * k)%nat.
Proof.
  intros Hk. induction n as [|n IH]; [done|].
  cbn [replicate map concat]. rewrite length_app. by rewrite IH, Hk.
Qed.

Lemma translate_vpush home : exists out,
  translate_code ARM2X86_MODE_ARM32 vpush_memory 0x10000000 home = (ARM2X86_OK, out) /\
  Z.of_nat (length out) = max_translation.
Proof.
  cbn [translate_code].
  pose proof (convert_block_arm32_eq vpush_memory 0x10000000 arm_size 65 ltac:(vm_compute; lia)) as E. cbv zeta in E.
  assert (Hw : block_words vpush_memory 0x10000000 arm_size = replicate 64 0x0d2000ff) by (vm_compute; reflexivity).
  rewrite Hw in E. set (o := concat _) in *. exists o.
  assert (Ho : Z.of_nat (length o) = max_translation).
  { assert (Hc : length (instruction_code 0x0d2000ff) = 2301%nat) by (vm_compute; reflexivity).
    unfold o. rewrite (length_code_replicate _ _ 64 Hc). unfold max_translation. lia. }
  clearbody o. rewrite E. exact (conj eq_refl Ho).
Qed.

(** [n] short blocks, one after the other. *)
Lemma fill_region base n : 0 < base -> 64 * Z.of_nat n <= DBT_CODE_CACHE_SIZE - 4096 ->
  exists s, dbt_reachable s /\ g_dbt_code_cache s = base /\ g_dbt_cache_used s = 64 * Z.of_nat n /\
    forall i, (i < g_dbt_count s)%nat -> arm_pc (block_at s i) <= Z.of_nat n.
Proof.
  intros Hb. induction n as [|n IH]; intros Hn.
  - eexists. split; [|split; [|split]].
    + eapply (reach_step (dbt_start (fun _ => 0))); [apply reach_start|].
      apply (step_init _ _ (Some base) ARM2X86_OK); [by intros p [= <-] | reflexivity].
    + reflexivity.
    + reflexivity.
    + cbn. lia.
  - destruct (IH ltac:(lia)) as (s & Hr & Hbase & Hu & Hp). pose proof (dbt_reachable_coherent s Hr) as Hs.
    set (pc := Z.of_nat n + 1).
    assert (Ef : find_pc pc s = None).
    { destruct (find_pc pc s) as [i|] eqn:E; [|done]. destruct (find_pc_some _ _ _ E) as (Hi & Hpc & _).
      specialize (Hp i Hi). lia. }
    destruct (translate_miss ARM2X86_MODE_ARM32 nop_memory pc true false s) as [r s'] eqn:E.
    exists s'. split.
    { apply (reach_step s); [done|]. apply (step_translate _ _ (Some ARM2X86_MODE_ARM32) nop_memory pc true true true false r).
      rewrite dbt_translate_block_eq by apply Hs. by rewrite Ef, E. }
    unfold translate_miss in E. rewrite (translate_nops pc false), Hbase, Hu in E.
    rewrite (proj2 (Z.eqb_neq base 0)) in E by lia. unfold DBT_CODE_CACHE_SIZE in *.
    rewrite (u64_small (64 * Z.of_nat n + 4096)) in E by lia. rewrite (proj2 (Z.ltb_ge _ _)) in E by lia.
    cbn [orb negb Z.eqb ARM2X86_OK] in E. cbv zeta in E.
    change (u64 (Z.land (Z.of_nat (length (replicate 64 0x90)) + 15) (Z.lnot 15))) with 64 in E.
    apply (f_equal snd) in E. cbn [snd] in E. subst s'. split; [done|]. split.
    + cbn [g_dbt_cache_used set_used]. rewrite u64_small; lia.
    + intros i Hi. change (block_at _ i) with (block_at (filled (victim s) (fill_block pc (base + 64 * Z.of_nat n) 64
        (guest_bytes nop_memory pc arm_size) arm_size zero_block) 0 s) i).
      pose proof (victim_lt s (co_count s Hs)) as Hv. rewrite block_at_filled by (by rewrite (co_length s Hs)).
      destruct (decide (i = victim s)); [cbn; lia|].
      assert (Hi' : (i < g_dbt_count s)%nat).
      { change (i < if (DBT_CACHE_SIZE <=? g_dbt_count s)%nat then g_dbt_count s else S (g_dbt_count s))%nat in Hi.
        unfold victim in *. destruct (DBT_CACHE_SIZE <=? g_dbt_count s)%nat; lia. }
      specialize (Hp i Hi'). lia.
Qed.

(** The code cache is left at its end.  A call asks for 4096 free bytes and writes up to 147264:
    what it writes ends at most 143168 bytes behind the region, and for every place of the
    region there is a run of the program in which a block ends just there. *)
Theorem dbt_region_overrun :
  (forall s m mem pc copy_allocated home_allocated p sz s',
     dbt_reachable s -> find_pc pc s = None ->
     dbt_translate_block (Some m) mem pc true true copy_allocated home_allocated s = Some ((p, Some sz), s') ->
     g_dbt_code_cache s <= p /\ p + sz <= g_dbt_code_cache s + DBT_CODE_CACHE_SIZE + 143168) /\
  (forall base, 0 < base -> exists s p sz s',
     dbt_reachable s /\ g_dbt_code_cache s = base /\
     dbt_translate_block (Some ARM2X86_MODE_ARM32) vpush_memory 0x10000000 true true true true s
       = Some ((p, Some sz), s') /\
     translation_of ARM2X86_MODE_ARM32 vpush_memory 0x10000000 true s' p (Some sz) /\
     p + sz = base + DBT_CODE_CACHE_SIZE + 143168).
Proof.
  split.
  - intros s m mem pc c h p sz s' Hr Ef E. pose proof (dbt_reachable_coherent s Hr) as Hs.
    pose proof (co_used s Hs) as Hu. rewrite dbt_translate_block_eq, Ef in E by apply Hs. apply (inj Some) in E.
    unfold translate_miss in E. destruct (_ || _) eqn:Eg; [done|]. destruct (negb c); [done|]. cbv zeta in E.
    apply orb_false_iff in Eg as [_ Hg%Z.ltb_ge]. unfold DBT_CODE_CACHE_SIZE in *. rewrite u64_small in Hg by lia.
    destruct (translate_code m mem pc h) as [rc out] eqn:Et.
    destruct (negb (rc =? ARM2X86_OK)); [done|].
    pose proof (translate_code_size _ _ _ _ _ _ Et) as Hsz. unfold max_translation in Hsz.
    assert (Ep : g_dbt_code_cache s + g_dbt_cache_used s = p) by (apply (f_equal (fun x => x.1.1)) in E; exact E).
    assert (Ez : Some (Z.of_nat (length out)) = Some sz) by (apply (f_equal (fun x => x.1.2)) in E; exact E).
    injection Ez as <-. lia.
  - intros base Hb.
    destruct (fill_region base (Z.to_nat 1048512) Hb) as (s & Hr & Hbase & Hu & Hp).
    { rewrite Z2Nat.id by lia. unfold DBT_CODE_CACHE_SIZE. lia. }
    rewrite Z2Nat.id in Hu, Hp by lia. pose proof (dbt_reachable_coherent s Hr) as Hs.
    assert (Ef : find_pc 0x10000000 s = None).
    { destruct (find_pc 0x10000000 s) as [i|] eqn:E; [|done]. destruct (find_pc_some _ _ _ E) as (Hi & Hpc & _).
      specialize (Hp i Hi). lia. }
    destruct (translate_vpush true) as (out & Et & Hout).
    destruct (translate_miss ARM2X86_MODE_ARM32 vpush_memory 0x10000000 true true s) as [[p sz] s'] eqn:E.
    exists s, p, max_translation, s'.
    assert (Em : dbt_translate_block (Some ARM2X86_MODE_ARM32) vpush_memory 0x10000000 true true true true s
      = Some ((p, sz), s')) by (rewrite dbt_translate_block_eq, Ef by apply Hs; by rewrite E).
    unfold translate_miss in E. rewrite Et, Hbase, Hu in E. rewrite (proj2 (Z.eqb_neq base 0)) in E by lia.
    change (DBT_CODE_CACHE_SIZE <? u64 (64 * 1048512 + 4096)) with false in E.
    cbn [orb negb Z.eqb ARM2X86_OK] in E. cbv zeta in E. rewrite Hout in E.
    injection E as <- <- E. split; [done|]. split; [done|]. split; [done|]. split.
    + exists out. split; [done|]. split; [by rewrite Hout|]. rewrite <- E. apply write_code_at.
    + unfold max_translation, DBT_CODE_CACHE_SIZE. lia.
Qed.

(** A region at 4096, and the first block in it. *)
Definition first_state : dbt_state :=
  {| g_dbt_cache := replicate DBT_CACHE_SIZE zero_block; g_dbt_count := 0; g_dbt_code_cache := 4096;
     g_dbt_cache_used := 0; mutex_held := false; code_memory := fun _ => 0 |}.

Lemma first_reachable : dbt_reachable first_state.
Proof.
  eapply (reach_step (dbt_start (fun _ => 0))); [apply reach_start|].
  apply (step_init _ _ (Some 4096) ARM2X86_OK); [by intros p [= <-] | reflexivity].
Qed.

Lemma first_call m mem pc n :
  translate_code m mem pc true = (ARM2X86_OK, n) ->
  exists s', dbt_translate_block (Some m) mem pc true true true true first_state
    = Some ((4096, Some (Z.of_nat (length n))), s').
Proof.
  intros Et. destruct (translate_miss m mem pc true true first_state) as [[p sz] s'] eqn:E. exists s'.
  rewrite dbt_translate_block_eq by done. change (find_pc pc first_state) with (@None nat). rewrite E.
  unfold translate_miss in E. rewrite Et in E. change (_ || _) with false in E.
  cbn [negb Z.eqb ARM2X86_OK] in E. cbv zeta in E.
  assert (Ep : 4096 = p) by (apply (f_equal (fun x => x.1.1)) in E; exact E).
  assert (Ez : Some (Z.of_nat (length n)) = sz) by (apply (f_equal (fun x => x.1.2)) in E; exact E).
  by rewrite Ep, Ez.
Qed.

(** ** Thumb code behind the part that is compared *)

(** Guest memory of zeros, and with a halfword 1800 behind the first 256 bytes. *)
Definition zero_memory : Z -> Z := fun _ => 0.
Definition patched_memory : Z -> Z := fun a => if a =? 0x8101 then 0x18 else 0.

Lemma patched_same_words : same_words 0x8000 patched_memory zero_memory.
Proof.
  intros k Hk. unfold read_le32, patched_memory, zero_memory.
  rewrite !(proj2 (Z.eqb_neq _ 0x8101)) by lia. reflexivity.
Qed.

Lemma code_of_size mode mem pc home n :
  (fun x : Z * list Z => (x.1, length x.2)) (translate_code mode mem pc home) = (ARM2X86_OK, n) ->
  exists out, translate_code mode mem pc home = (ARM2X86_OK, out) /\ length out = n.
Proof. destruct (translate_code _ _ _ _) as [rc out]. intros [= -> <-]. by exists out. Qed.

(** For Thumb the comparison is not enough.  Of the 512 bytes of guest code that are
    translated only 256 are compared: there is a run of the program in which a call
    returns a translation that is not the one of the guest code of the moment. *)
Theorem dbt_thumb_stale : exists s s' s'' p sz out,
  dbt_reachable s /\
  dbt_translate_block (Some ARM2X86_MODE_THUMB) zero_memory 0x8000 true true true true s = Some ((p, sz), s') /\
  dbt_translate_block (Some ARM2X86_MODE_THUMB) patched_memory 0x8000 true true true true s' = Some ((p, sz), s'') /\
  p <> 0 /\
  translate_code ARM2X86_MODE_THUMB patched_memory 0x8000 true = (ARM2X86_OK, out) /\
  sz <> Some (Z.of_nat (length out)).
Proof.
  destruct (code_of_size ARM2X86_MODE_THUMB zero_memory 0x8000 true 256) as (o & Eo & Ho); [vm_compute; done|].
  destruct (code_of_size ARM2X86_MODE_THUMB patched_memory 0x8000 true 261) as (o' & Eo' & Ho'); [vm_compute; done|].
  pose proof first_reachable as Hr. destruct (first_call _ _ _ _ Eo) as (s' & Em). rewrite Ho in Em.
  destruct (second_call first_state _ _ _ _ _ _ _ s' Hr Em ltac:(done) ARM2X86_MODE_THUMB patched_memory true true) as [H _].
  destruct (H patched_same_words) as (s'' & Es).
  exists first_state, s', s'', 4096, (Some 256), o'. rewrite Ho'.
  split; [exact Hr|]. split; [exact Em|]. split; [exact Es|]. split; [lia|]. split; [exact Eo' | intros [= Hs]; lia].
Qed.
End Dbt.

(** ** Concrete runs *)

Lemma first_block_witness_call :
  exists s', dbt_translate_block (host := bare_host) 0 nothing_decoded (Some ARM2X86_MODE_ARM32) nop_memory 0x8000
    true true true true first_state = Some ((4096, Some 64), s').
Proof. apply (first_call _ _ _ _ _ _ (translate_nops _ _ 0x8000 true)). Qed.


Lemma dbt_second_call_witness : exists s' s'',
  dbt_translate_block (host := bare_host) 0 nothing_decoded (Some ARM2X86_MODE_ARM64) nop_memory 0x8000
    true true true true s' = Some ((4096, Some 64), s'') /\
  dbt_translate_block (host := bare_host) 0 nothing_decoded (Some ARM2X86_MODE_ARM32) vpush_memory 0x8000
    true true true true s' = None.
Proof.
  destruct first_block_witness_call as (s' & E). exists s'.
  pose proof (dbt_second_call (host := bare_host) 0 nothing_decoded first_state _ _ _ _ _ _ _ s'
    (first_reachable _ _) E ltac:(discriminate)) as H.
  destruct (proj1 (H ARM2X86_MODE_ARM64 nop_memory true true) (fun k _ => eq_refl)) as (s'' & E2).
  exists s''. split; [exact E2|].
  apply (proj2 (H ARM2X86_MODE_ARM32 vpush_memory true true)).
  intros Hw. specialize (Hw 0 ltac:(lia)). vm_compute in Hw. discriminate Hw.
Defined.

Lemma dbt_insert_spec_witness : exists s',
  dbt_insert 0x8000 4096 64 [0xe1] 1 first_state = Some (0%nat, s') /\ g_dbt_count s' = 1%nat.
Proof.
  destruct (dbt_insert_spec (host := bare_host) 0 nothing_decoded first_state 0x8000 4096 64 [0xe1] 1
    (dbt_reachable_coherent _ _ _ (first_reachable _ _))) as (i & s' & E & _ & _ & H & _).
  destruct H as [-> H]; [vm_compute; lia|]. exists s'. exact (conj E H).
Defined.

Lemma dbt_invalidate_flush_witness : exists s',
  dbt_flush_cache first_state = Some (tt, s') /\ find_pc 0x8000 s' = None.
Proof.
  destruct (dbt_invalidate_flush (host := bare_host) 0 nothing_decoded first_state 0x8000 (first_reachable _ _))
    as [_ (s' & E & _ & H & _)].
  exists s'. exact (conj E (H 0x8000)).
Defined.
