(* ===== verification/Core.v ===== *)
(** * The core library: [arm2x86.c] and [modules/arm2x86_error.c]

    The context, the translation of a piece of code into memory of its own, the code cache
    with its 4096 entries, and the tables of messages.  The last error, which [set_error]
    records, is not modelled, nor are the paths of a context. *)
From S2P Require Import Prelude X86 Emit Regs Decode64 RegAlloc Neon Translate64 Handlers64 Block64 Dbt.
From Stdlib Require Import ZArith Lia Bool String.
From stdpp Require Import base numbers list.
Open Scope Z_scope.
Open Scope c_scope.

(** ** Messages *)

Definition ARM2X86_ERR_INVALID_ARGUMENT := 1001.
Definition ARM2X86_ERR_OUT_OF_MEMORY := 1002.
Definition ARM2X86_ERR_NOT_INITIALIZED := 1003.
Definition ARM2X86_ERR_ALREADY_INITIALIZED := 1004.
Definition ARM2X86_ERR_PERMISSION_DENIED := 1005.
Definition ARM2X86_ERR_UNSUPPORTED_ARCH := 2001.
Definition ARM2X86_ERR_ARCH_MISMATCH := 2002.
Definition ARM2X86_ERR_INVALID_ALIGNMENT := 3001.
Definition ARM2X86_ERR_INVALID_OPCODE := 3002.
Definition ARM2X86_ERR_UNSUPPORTED_INSTRUCTION := 3003.
Definition ARM2X86_ERR_DECODE_BUFFER_OVERFLOW := 3004.
Definition ARM2X86_ERR_INVALID_REGISTER := 3005.
Definition ARM2X86_ERR_TRANSLATION_FAILED := 4001.
Definition ARM2X86_ERR_CODE_GENERATION_FAILED := 4002.
Definition ARM2X86_ERR_REGISTER_ALLOC_FAILED := 4003.
Definition ARM2X86_ERR_BRANCH_TARGET_INVALID := 4004.
Definition ARM2X86_ERR_CACHE_FULL := 5001.
Definition ARM2X86_ERR_CACHE_MISS := 5002.
Definition ARM2X86_ERR_CACHE_CORRUPTED := 5003.
Definition ARM2X86_ERR_CACHE_CONFIG_INVALID := 5004.
Definition ARM2X86_ERR_MEMORY_MAP_FAILED := 6001.
Definition ARM2X86_ERR_MEMORY_PROTECT_FAILED := 6002.
Definition ARM2X86_ERR_MEMORY_NOT_REGISTERED := 6003.
Definition ARM2X86_ERR_MEMORY_BOUNDARY_EXCEEDED := 6004.
Definition ARM2X86_ERR_EXECUTION_FAILED := 7001.
Definition ARM2X86_ERR_INVALID_CODE_ADDRESS := 7002.
Definition ARM2X86_ERR_SIGNAL_HANDLING_FAILED := 7003.
Definition ARM2X86_ERR_INTERNAL := 9001.
Definition ARM2X86_ERR_NOT_IMPLEMENTED := 9002.
Definition ARM2X86_ERR_UNKNOWN := 9999.

(** The first entry of a code. *)
Definition message_of (l : list (Z * string)) (code : Z) : option string :=
  snd <$> List.find (fun e => fst e =? code) l.

Definition g_error_messages : list (Z * string) :=
  [ (ARM2X86_OK, "Success"%string);
    (ARM2X86_ERR_INVALID_ARGUMENT, "Invalid argument"%string);
    (ARM2X86_ERR_OUT_OF_MEMORY, "Out of memory"%string);
    (ARM2X86_ERR_NOT_INITIALIZED, "Not initialized"%string);
    (ARM2X86_ERR_ALREADY_INITIALIZED, "Already initialized"%string);
    (ARM2X86_ERR_PERMISSION_DENIED, "Permission denied"%string);
    (ARM2X86_ERR_UNSUPPORTED_ARCH, "Unsupported architecture"%string);
    (ARM2X86_ERR_ARCH_MISMATCH, "Architecture mismatch"%string);
    (ARM2X86_ERR_INVALID_ALIGNMENT, "Invalid memory alignment"%string);
    (ARM2X86_ERR_INVALID_OPCODE, "Invalid opcode"%string);
    (ARM2X86_ERR_UNSUPPORTED_INSTRUCTION, "Unsupported instruction"%string);
    (ARM2X86_ERR_DECODE_BUFFER_OVERFLOW, "Decode buffer overflow"%string);
    (ARM2X86_ERR_INVALID_REGISTER, "Invalid register"%string);
    (ARM2X86_ERR_TRANSLATION_FAILED, "Translation failed"%string);
    (ARM2X86_ERR_CODE_GENERATION_FAILED, "Code generation failed"%string);
    (ARM2X86_ERR_REGISTER_ALLOC_FAILED, "Register allocation failed"%string);
    (ARM2X86_ERR_BRANCH_TARGET_INVALID, "Invalid branch target"%string);
    (ARM2X86_ERR_CACHE_FULL, "Cache full"%string);
    (ARM2X86_ERR_CACHE_MISS, "Cache miss"%string);
    (ARM2X86_ERR_CACHE_CORRUPTED, "Cache corrupted"%string);
    (ARM2X86_ERR_CACHE_CONFIG_INVALID, "Invalid cache configuration"%string);
    (ARM2X86_ERR_MEMORY_MAP_FAILED, "Memory map failed"%string);
    (ARM2X86_ERR_MEMORY_PROTECT_FAILED, "Memory protect failed"%string);
    (ARM2X86_ERR_MEMORY_NOT_REGISTERED, "Memory not registered"%string);
    (ARM2X86_ERR_MEMORY_BOUNDARY_EXCEEDED, "Memory boundary exceeded"%string);
    (ARM2X86_ERR_EXECUTION_FAILED, "Execution failed"%string);
    (ARM2X86_ERR_INVALID_CODE_ADDRESS, "Invalid code address"%string);
    (ARM2X86_ERR_SIGNAL_HANDLING_FAILED, "Signal handling failed"%string);
    (ARM2X86_ERR_INTERNAL, "Internal error"%string);
    (ARM2X86_ERR_NOT_IMPLEMENTED, "Not implemented"%string);
    (ARM2X86_ERR_UNKNOWN, "Unknown error"%string) ].

Definition arm2x86_strerror (error : Z) : string := default "Unknown error"%string (message_of g_error_messages error).

(** A code that is not known has a message made from it, which is left out. *)
Definition arm2x86_get_error (error_code : Z) : option string :=
  message_of [(ARM2X86_OK, "No error"%string); (ARM2X86_ERR_INVALID_PARAM, "Invalid parameter"%string);
    (ARM2X86_ERR_LOAD_FAIL, "Failed to load library"%string); (ARM2X86_ERR_CONVERT_FAIL, "Failed to convert code"%string);
    (ARM2X86_ERR_MEMORY, "Memory allocation failed"%string)] error_code.

Definition arm2x86_get_instruction_name (instr_type : Z) : string :=
  default "INVALID"%string (message_of
    [ (INSTR_UNKNOWN, "UNKNOWN"%string);
      (INSTR_BL, "BL"%string);
      (INSTR_ADR, "ADR"%string);
      (INSTR_ADRP, "ADRP"%string);
      (INSTR_B, "B"%string);
      (INSTR_B_COND, "B.cond"%string);
      (INSTR_LDR_LITERAL, "LDR_literal"%string);
      (INSTR_CBZ, "CBZ"%string);
      (INSTR_CBNZ, "CBNZ"%string);
      (INSTR_TBZ, "TBZ"%string);
      (INSTR_TBNZ, "TBNZ"%string);
      (INSTR_RET, "RET"%string);
      (INSTR_BR, "BR"%string);
      (INSTR_BLR, "BLR"%string);
      (INSTR_DATAPROC, "DATAPROC"%string);
      (INSTR_LDST, "LDST"%string);
      (INSTR_ADD, "ADD"%string);
      (INSTR_SUB, "SUB"%string);
      (INSTR_AND, "AND"%string);
      (INSTR_ORR, "ORR"%string);
      (INSTR_EOR, "EOR"%string);
      (INSTR_CMP, "CMP"%string);
      (INSTR_CSEL, "CSEL"%string);
      (INSTR_LDP, "LDP"%string);
      (INSTR_STP, "STP"%string);
      (INSTR_LDR, "LDR"%string);
      (INSTR_STR, "STR"%string);
      (INSTR_MUL, "MUL"%string);
      (INSTR_SDIV, "SDIV"%string);
      (INSTR_UDIV, "UDIV"%string);
      (INSTR_LSL, "LSL"%string);
      (INSTR_LSR, "LSR"%string);
      (INSTR_ASR, "ASR"%string);
      (INSTR_DMB, "DMB"%string);
      (INSTR_DSB, "DSB"%string);
      (INSTR_ISB, "ISB"%string);
      (INSTR_MRS, "MRS"%string);
      (INSTR_MSR, "MSR"%string);
      (INSTR_SVC, "SVC"%string);
      (INSTR_MOVZ, "MOVZ"%string);
      (INSTR_MOVN, "MOVN"%string);
      (INSTR_MOVK, "MOVK"%string);
      (INSTR_FMOV_REG, "FMOV"%string) ] instr_type).

(** The error of the thread. *)
Record arm2x86_error_info := {
  code : Z; message : option string; file : option string; line : Z; function : option string; address : Z }.
Definition no_error : arm2x86_error_info :=
  {| code := 0; message := None; file := None; line := 0; function := None; address := 0 |}.
Definition arm2x86_set_error (code : Z) (message file : option string) (line : Z) (function : option string)
    (g_last_error : arm2x86_error_info) : arm2x86_error_info :=
  {| code := code; message := message; file := file; line := line; function := function; address := 0 |}.
Definition arm2x86_clear_error (g_last_error : arm2x86_error_info) : arm2x86_error_info := no_error.

(** ** The context *)

(** The fields that are not used, and the paths, are left out. *)
Record arm2x86_Context := { mode : Arm2x86Mode; strict_memory_ordering : bool }.

Definition arm2x86_set_mode (m : Arm2x86Mode) (ctx : option arm2x86_Context) : option arm2x86_Context :=
  (fun c => {| mode := m; strict_memory_ordering := strict_memory_ordering c |}) <$> ctx.
Definition arm2x86_set_strict_memory_ordering (enable : bool) (ctx : option arm2x86_Context) : option arm2x86_Context :=
  (fun c => {| mode := mode c; strict_memory_ordering := enable |}) <$> ctx.
Definition arm2x86_get_strict_memory_ordering (ctx : option arm2x86_Context) : bool :=
  match ctx with None => false | Some c => strict_memory_ordering c end.

(** The cache of several levels is a stub. *)
Definition translate_cache_init : Z := 0.
Definition translate_cache_destroy : unit := tt.

(** ** Statistics *)

Record Arm2x86Stats := {
  total_translations : Z; cache_hits : Z; cache_misses : Z; total_instructions : Z; unknown_instructions : Z }.
Definition zero_stats : Arm2x86Stats := {| total_translations := 0; cache_hits := 0; cache_misses := 0;
  total_instructions := 0; unknown_instructions := 0 |}.
Definition arm2x86_get_stats (out_stats : bool) (g_stats : Arm2x86Stats) : option Arm2x86Stats :=
  if out_stats then Some g_stats else None.
Definition arm2x86_reset_stats (g_stats : Arm2x86Stats) : Arm2x86Stats := zero_stats.

(** ** Translating into new memory *)

(** Rounding up to whole pages. *)
Definition page_round (page_size n : Z) : Z := u64 (n + page_size - 1) &&& Z.lnot (page_size - 1).
Definition est_size (arm64_size : Z) : Z := u64 (arm64_size / 4 * 16 + 4096).

Section Convert.
Context `{host : Host} (g_simd_enabled : Z) (uninitialized : Z -> DecodedInstruction).

(** What the system does: [mmap] of a size, the page size, and [mprotect] of an address and
    a size; [home_allocated]: whether the translator can allocate its register home. *)
Record convert_system := {
  mmap : Z -> option Z; page_size : Z; mprotect : Z -> Z -> bool; home_allocated : bool }.

(** The result, the code and its size, and what is written: at which address and which
    bytes.  The translator does not know the size of the memory. *)
Definition arm2x86_convert (sys : convert_system) (ctx : option unit) (mem : Z -> Z) (arm64_code arm64_size : Z)
    (x86_out x86_out_size : bool) : Z * option (Z * Z) * option (Z * list Z) :=
  if match ctx with Some _ => false | None => true end || (arm64_code =? 0) || negb x86_out || negb x86_out_size
  then (ARM2X86_ERR_INVALID_PARAM, None, None)
  else
    let est := est_size arm64_size in
    match mmap sys est with
    | None => (ARM2X86_ERR_MEMORY, None, None)
    | Some p =>
      let '(rc, r) := arm2x86_convert_block g_simd_enabled uninitialized ctx mem arm64_code arm64_size
                        true true None (home_allocated sys) in
      let out := match r with Some (out, _) => out | None => [] end in
      let written := Some (p, out) in
      if negb (rc =? ARM2X86_OK) then (rc, None, written)
      else
        let out_size := match r with Some (_, n) => n | None => est end in
        if (out_size =? 0) || (out_size >? est) then (ARM2X86_ERR_CONVERT_FAIL, None, written)
        else
          let prot_size := page_round (page_size sys) out_size in
          let prot_size := if prot_size >? est then est else prot_size in
          if negb (mprotect sys p prot_size) then (ARM2X86_ERR_CONVERT_FAIL, None, written)
          else (ARM2X86_OK, Some (p, out_size), written)
    end.
End Convert.

(** ** The code cache *)

Definition CODE_CACHE_SIZE := 64 * 1024 * 1024.
Definition MAX_CACHED_BLOCKS : nat := 4096.

Record CodeCacheBlock := {
  arm64_addr : Z; x86_code : Z; x86_size : Z; arm64_size : Z; hash : Z; hit_count : Z }.
Definition zero_code_block : CodeCacheBlock :=
  {| arm64_addr := 0; x86_code := 0; x86_size := 0; arm64_size := 0; hash := 0; hit_count := 0 |}.

(** [unmapped]: the blocks given back to the system. *)
Record code_cache := {
  g_code_cache : list CodeCacheBlock; g_cache_count : nat; g_code_cache_mem : Z; g_cache_used : Z;
  unmapped : list (Z * Z) }.

Definition code_hash (addr : Z) (code : list Z) : Z :=
  let word i := le_combine (take 4 (drop (Z.to_nat i) code)) in
  let limit := Z.min (Z.of_nat (length code)) 64 in
  fold_left (fun h i => u32 ((h ^^^ word i) * 31)) (map (fun k => 4 * k) (seqZ 0 (limit / 4)))
    (u32 (addr ^^^ (addr >>> 32))).

Definition find_addr (addr : Z) (c : code_cache) : option nat :=
  find_first (fun b => arm64_addr b = addr) (g_cache_count c) (g_code_cache c).
Definition code_block (c : code_cache) (i : nat) : CodeCacheBlock := nth i (g_code_cache c) zero_code_block.
Definition set_blocks (l : list CodeCacheBlock) (n : nat) (c : code_cache) : code_cache :=
  {| g_code_cache := l; g_cache_count := n; g_code_cache_mem := g_code_cache_mem c;
     g_cache_used := g_cache_used c; unmapped := unmapped c |}.

Definition hit (b : CodeCacheBlock) : CodeCacheBlock :=
  {| arm64_addr := arm64_addr b; x86_code := x86_code b; x86_size := x86_size b; arm64_size := arm64_size b;
     hash := hash b; hit_count := s32 (hit_count b + 1) |}.

Definition arm2x86_cache_lookup (addr : Z) (c : code_cache) : option nat * code_cache :=
  match find_addr addr c with
  | Some i => (Some i, set_blocks (alter hit i (g_code_cache c)) (g_cache_count c) c)
  | None => (None, c)
  end.

Definition least_used (c : code_cache) : nat :=
  first_least (fun i => hit_count (code_block c i)) (g_cache_count c - 1) 1 0.

Definition new_code_block (addr : Z) (code : list Z) (x86 size : Z) : CodeCacheBlock :=
  {| arm64_addr := addr; x86_code := x86; x86_size := size; arm64_size := Z.of_nat (length code);
     hash := code_hash addr code; hit_count := 0 |}.

Definition give_back (b : CodeCacheBlock) (c : code_cache) : code_cache :=
  if c_true (x86_code b) && negb (x86_code b =? g_code_cache_mem c) then
    {| g_code_cache := g_code_cache c; g_cache_count := g_cache_count c; g_code_cache_mem := g_code_cache_mem c;
       g_cache_used := g_cache_used c; unmapped := (x86_code b, x86_size b) :: unmapped c |}
  else c.

Definition arm2x86_cache_insert (addr : Z) (code : list Z) (x86 size : Z) (c : code_cache) : nat * code_cache :=
  let b := new_code_block addr code x86 size in
  if (MAX_CACHED_BLOCKS <=? g_cache_count c)%nat then
    let lru := least_used c in
    let c := give_back (code_block c lru) c in
    (lru, set_blocks (<[lru := b]> (g_code_cache c)) (g_cache_count c) c)
  else
    let idx := g_cache_count c in
    (idx, set_blocks (<[idx := b]> (g_code_cache c)) (S idx) c).

Definition arm2x86_cache_init (mapped : option Z) (c : code_cache) : code_cache :=
  {| g_code_cache := g_code_cache c; g_cache_count := 0; g_code_cache_mem := default 0 mapped;
     g_cache_used := 0; unmapped := unmapped c |}.
Definition arm2x86_cache_destroy (c : code_cache) : code_cache :=
  {| g_code_cache := g_code_cache c; g_cache_count := 0; g_code_cache_mem := 0; g_cache_used := g_cache_used c;
     unmapped := if c_true (g_code_cache_mem c) then (g_code_cache_mem c, CODE_CACHE_SIZE) :: unmapped c
                 else unmapped c |}.

(** ** Setting up and tearing down a context *)

(** [mapped]: the region for the code cache. *)
Definition arm2x86_init_with_mode (mapped : option Z) (ctx guest_lib_path guest_cmd : bool) (m : Arm2x86Mode)
    (c : code_cache) : Z * option arm2x86_Context * code_cache :=
  if negb ctx || negb guest_lib_path || negb guest_cmd then (ARM2X86_ERR_INVALID_PARAM, None, c)
  else (ARM2X86_OK, Some {| mode := m; strict_memory_ordering := false |}, arm2x86_cache_init mapped c).
Definition arm2x86_init (mapped : option Z) (ctx guest_lib_path guest_cmd : bool)
    (c : code_cache) : Z * option arm2x86_Context * code_cache :=
  if negb ctx || negb guest_lib_path || negb guest_cmd then (ARM2X86_ERR_INVALID_PARAM, None, c)
  else (ARM2X86_OK, Some {| mode := ARM2X86_MODE_AUTO; strict_memory_ordering := false |}, arm2x86_cache_init mapped c).
Definition arm2x86_destroy (ctx : option arm2x86_Context) (c : code_cache) : option arm2x86_Context * code_cache :=
  match ctx with
  | Some _ => (Some {| mode := ARM2X86_MODE_ARM64; strict_memory_ordering := false |}, arm2x86_cache_destroy c)
  | None => (None, c)
  end.

(** ** Translating: what comes back and what is written *)

Section ConvertFacts.
Context `{host : Host} (g_simd_enabled : Z) (uninitialized : Z -> DecodedInstruction).
Local Abbreviation block := (arm2x86_convert_block g_simd_enabled uninitialized).

(** Only the first 64 words are read. *)
Lemma convert_block_local mem mem' a s home : same_words a mem mem' ->
  block (Some tt) mem a s true true None home = block (Some tt) mem' a s true true None home.
Proof.
  intros Hs. unfold arm2x86_convert_block. destruct (_ || _ || _ || _); [done|]. destruct (_ && _); [done|].
  rewrite !convert_block_body_eq. unfold mbind, translator_bind.
  pose proof (convert64_loop_local g_simd_enabled uninitialized max_instructions mem mem' a (a + s) 0 (start_ctx a) Hs
    ltac:(lia) ltac:(vm_compute; discriminate)) as E.
  rewrite Z.mul_0_r, Z.add_0_r in E. by rewrite E.
Qed.

Lemma convert_run sys mem a s p out :
  a <> 0 -> mmap sys (est_size s) = Some p -> (forall q n, mprotect sys q n = true) ->
  block (Some tt) mem a s true true None (home_allocated sys) = (ARM2X86_OK, Some (out, Z.of_nat (length out))) ->
  out <> [] ->
  arm2x86_convert g_simd_enabled uninitialized sys (Some tt) mem a s true true =
    (if Z.of_nat (length out) <=? est_size s then (ARM2X86_OK, Some (p, Z.of_nat (length out)), Some (p, out))
     else (ARM2X86_ERR_CONVERT_FAIL, None, Some (p, out))).
Proof.
  intros Ha Hm Hp Hb Hne. unfold arm2x86_convert. rewrite (proj2 (Z.eqb_neq a 0) Ha). cbn [orb negb]. cbv zeta.
  rewrite Hm, Hb, Hp. change (ARM2X86_OK =? ARM2X86_OK) with true. cbn [negb].
  destruct (Z.eqb_spec (Z.of_nat (length out)) 0); [destruct out; done|]. cbn [orb].
  rewrite Z.gtb_ltb, Z.leb_antisym. by destruct (est_size s <? Z.of_nat (length out)).
Qed.
End ConvertFacts.

(** Seven vector divisions. *)
Definition seven_divisions : Z -> Z := fun a => nth (Z.to_nat (a mod 4)) [0x10; 0xd0; 0x00; 0x1e] 0.

Lemma seven_divisions_length `{host : Host} simd uninit :
  Z.of_nat (length (x86_out (convert_block_body simd uninit seven_divisions 0x1000 28 (initial_ctx 0x1000)).2)) = 4691.
Proof. vm_compute. reflexivity. Qed.


(** ** The code cache *)

Record code_cache_ok (c : code_cache) : Prop := {
  cc_length : length (g_code_cache c) = MAX_CACHED_BLOCKS;
  cc_count : (g_cache_count c <= MAX_CACHED_BLOCKS)%nat }.

Lemma least_used_below c : (0 < g_cache_count c)%nat -> (least_used c < g_cache_count c)%nat.
Proof. intros H. by apply (first_least_all (fun i => hit_count (code_block c i))). Qed.

(** What an insertion at place [i] leaves of the search for an address. *)
Lemma find_first_insert (P : CodeCacheBlock -> Prop) `{forall x, Decision (P x)} n i b l :
  (i < length l)%nat -> (i <= n)%nat -> P b ->
  find_first P (Nat.max n (S i)) (<[i := b]> l) = Some (match find_first P n l with Some k => Nat.min k i | None => i end).
Proof.
  intros Hi Hn Hb. apply (find_first_some zero_code_block). rewrite length_insert.
  destruct (find_first P n l) as [k|] eqn:E.
  - apply (find_first_some zero_code_block) in E as (Hkn & Hkl & Hk & Hno). split_and!; [lia|lia| |].
    + rewrite nth_insert by done. destruct (decide (Nat.min k i = i)); [done|]. by replace (Nat.min k i) with k by lia.
    + intros j Hj. rewrite nth_insert by done. destruct (decide (j = i)); [lia|]. apply Hno. lia.
  - split_and!; [lia|lia| |].
    + rewrite nth_insert by done. by rewrite decide_True.
    + intros j Hj. rewrite nth_insert by done. destruct (decide (j = i)); [lia|].
      rewrite (find_first_none zero_code_block) in E. apply E; lia.
Qed.

Lemma find_first_insert_other (P : CodeCacheBlock -> Prop) `{forall x, Decision (P x)} n i b l k :
  (i < length l)%nat -> ~ P b -> find_first P n l = Some k -> k <> i ->
  find_first P (Nat.max n (S i)) (<[i := b]> l) = Some k.
Proof.
  intros Hi Hb E Hne. apply (find_first_some zero_code_block) in E as (Hkn & Hkl & Hk & Hno).
  apply (find_first_some zero_code_block). rewrite length_insert. split_and!; [lia|lia| |].
  - rewrite nth_insert by done. by rewrite decide_False.
  - intros j Hj. rewrite nth_insert by done. destruct (decide (j = i)); [done|]. by apply Hno.
Qed.

(** The code cache.  An insertion takes the next entry, or in a full cache the first of those
    with the fewest hits, whose code it gives back; it changes no other entry, and
    addresses whose entry is not replaced are still found where they were.  The new
    address is found at the new entry, unless an entry before it has the address: then
    the old translation goes on being returned. *)
Theorem code_cache_insert_lookup c addr code x86 size i c' :
  code_cache_ok c -> arm2x86_cache_insert addr code x86 size c = (i, c') ->
  code_cache_ok c' /\ i = (if (MAX_CACHED_BLOCKS <=? g_cache_count c)%nat then least_used c else g_cache_count c) /\
  (forall j, code_block c' j = if decide (j = i) then new_code_block addr code x86 size else code_block c j) /\
  unmapped c' = (if (MAX_CACHED_BLOCKS <=? g_cache_count c)%nat then unmapped (give_back (code_block c i) c) else unmapped c) /\
  fst (arm2x86_cache_lookup addr c') =
    Some (match find_addr addr c with Some k => Nat.min k i | None => i end) /\
  (forall b k, b <> addr -> k <> i -> fst (arm2x86_cache_lookup b c) = Some k -> fst (arm2x86_cache_lookup b c') = Some k).
Proof.
  intros [Hl Hc] E.
  assert (H : (i < MAX_CACHED_BLOCKS)%nat /\ (i <= g_cache_count c)%nat /\
    g_code_cache c' = <[i := new_code_block addr code x86 size]> (g_code_cache c) /\
    g_cache_count c' = Nat.max (g_cache_count c) (S i) /\
    i = (if (MAX_CACHED_BLOCKS <=? g_cache_count c)%nat then least_used c else g_cache_count c) /\
    unmapped c' = (if (MAX_CACHED_BLOCKS <=? g_cache_count c)%nat then unmapped (give_back (code_block c i) c) else unmapped c)).
  { unfold arm2x86_cache_insert in E. cbv zeta in E. destruct (Nat.leb_spec MAX_CACHED_BLOCKS (g_cache_count c)) as [H|H].
    - injection E as <- <-. assert (0 < g_cache_count c)%nat by (unfold MAX_CACHED_BLOCKS in *; lia).
      pose proof (least_used_below c ltac:(done)). unfold give_back.
      destruct (_ && _); cbn [g_code_cache g_cache_count set_blocks unmapped]; split_and!; done || lia.
    - injection E as <- <-. cbn [g_code_cache g_cache_count set_blocks unmapped]. split_and!; done || lia. }
  destruct H as (Hi & Hin & Hg & Hn & Hii & Hu).
  assert (Hfst : forall b c, fst (arm2x86_cache_lookup b c) = find_addr b c).
  { intros b c0. unfold arm2x86_cache_lookup. by destruct (find_addr b c0). }
  split_and!; try done.
  - split; [by rewrite Hg, length_insert|]. rewrite Hn. unfold MAX_CACHED_BLOCKS in *. lia.
  - intros j. unfold code_block. rewrite Hg. rewrite nth_insert by lia. done.
  - rewrite Hfst. unfold find_addr. rewrite Hg, Hn. apply find_first_insert; [lia|done|done].
  - intros b k Hb Hk. rewrite !Hfst. unfold find_addr. rewrite Hg, Hn. intros Ef.
    apply find_first_insert_other; [lia| |done|done]. cbn. congruence.
Qed.

Lemma code_cache_insert_lookup_witness :
  let c := {| g_code_cache := replicate MAX_CACHED_BLOCKS zero_code_block; g_cache_count := 0; g_code_cache_mem := 0;
              g_cache_used := 0; unmapped := [] |} in
  let c1 := snd (arm2x86_cache_insert 0x8000 [1; 2; 3; 4] 0x7000 16 c) in
  let c2 := snd (arm2x86_cache_insert 0x8000 [5; 6; 7; 8] 0x7100 16 c1) in
  fst (arm2x86_cache_lookup 0x8000 c2) = Some 0%nat /\ x86_code (code_block c2 0) = 0x7000.
Proof.
  intros c c1 c2.
  assert (H0 : code_cache_ok c) by (split; [apply length_replicate|unfold MAX_CACHED_BLOCKS; cbn; lia]).
  destruct (code_cache_insert_lookup c 0x8000 [1; 2; 3; 4] 0x7000 16 0%nat c1 H0 eq_refl) as (H1 & _ & B1 & _ & L1 & _).
  destruct (code_cache_insert_lookup c1 0x8000 [5; 6; 7; 8] 0x7100 16 1%nat c2 H1 eq_refl) as (_ & _ & B2 & _ & L2 & _).
  split; [exact L2|]. by rewrite B2, B1.
Defined.

