(* ===== verification/Pool.v ===== *)
(** * The memory pool: [modules/arm2x86_easy.c], first part

    Executable memory is handed out in pieces of six size classes.  A chunk is a mapping
    that is filled from its start; nothing is taken back before the pool is destroyed.
    What [malloc] and [mmap] give is a parameter of every operation that asks for memory.
    The mutex is taken and released within each function. *)
From S2P Require Import Prelude Decode64 Core.
From Stdlib Require Import ZArith Lia Bool.
From stdpp Require Import base numbers list.
Open Scope Z_scope.
Open Scope c_scope.

Definition MEMPOOL_NUM_CLASSES : nat := 6.
Definition mempool_class_sizes : list Z := [64; 256; 1024; 4096; 16384; 65536].

Definition mempool_get_class (size : Z) : nat :=
  if size <=? 64 then 0 else if size <=? 256 then 1 else if size <=? 1024 then 2
  else if size <=? 4096 then 3 else if size <=? 16384 then 4 else 5.
Definition class_size (c : nat) : Z := nth c mempool_class_sizes 0.

Record mempool_chunk := { base : Z; size : Z; offset : Z; class_id : nat }.

(** [chunks]: the list of every class, the newest chunk first. *)
Record mempool := {
  chunks : list (list mempool_chunk); total_size : Z; used_size : Z;
  default_chunk_size : Z; max_size : Z; enable_growth : bool }.

(** Rounded up to 16 bytes. *)
Definition align16 (n : Z) : Z := u64 (n + 15) &&& Z.lnot 15.

Record memory_system := { malloc_ok : bool; mmap_chunk : Z -> option Z }.

Definition arm2x86_mempool_alloc_chunk (sys : memory_system) (n : Z) : option mempool_chunk :=
  let c := mempool_get_class n in
  let actual_size := class_size c in
  let actual_size := if n >? actual_size then align16 n else actual_size in
  if negb (malloc_ok sys) then None
  else
    mem ← mmap_chunk sys actual_size;
    Some {| base := mem; size := actual_size; offset := 0; class_id := c |}.

Record arm2x86_mempool_config := {
  initial_size : Z; cfg_max_size : Z; chunk_size : Z; cfg_enable_growth : bool; precommit : bool }.

Definition arm2x86_mempool_config_default : arm2x86_mempool_config :=
  {| initial_size := 64 * 1024; cfg_max_size := 64 * 1024 * 1024; chunk_size := 64 * 1024;
     cfg_enable_growth := true; precommit := false |}.

Definition or_else (n d : Z) : Z := if c_true n then n else d.

(** [calloc_ok]: whether the pool itself is allocated; growth is enabled either way. *)
Definition arm2x86_mempool_init (calloc_ok : bool) (sys : memory_system) (config : option arm2x86_mempool_config)
    : option mempool :=
  if negb calloc_ok then None
  else
    let default_chunk := match config with Some c => or_else (chunk_size c) (64 * 1024) | None => 64 * 1024 end in
    let max := match config with Some c => or_else (cfg_max_size c) (64 * 1024 * 1024) | None => 64 * 1024 * 1024 end in
    let initial := match config with Some c => or_else (initial_size c) default_chunk | None => default_chunk end in
    let initial := if initial >? max then max else initial in
    let none := replicate MEMPOOL_NUM_CLASSES [] in
    Some
      match arm2x86_mempool_alloc_chunk sys initial with
      | Some chunk =>
        {| chunks := <[class_id chunk := [chunk]]> none; total_size := initial; used_size := 0;
           default_chunk_size := default_chunk; max_size := max; enable_growth := true |}
      | None =>
        {| chunks := none; total_size := 0; used_size := 0;
           default_chunk_size := default_chunk; max_size := max; enable_growth := true |}
      end.

(** The mappings that are given back. *)
Definition arm2x86_mempool_free_chunk (c : mempool_chunk) : list (Z * Z) :=
  if c_true (base c) then [(base c, size c)] else [].
Definition arm2x86_mempool_destroy (pool : option mempool) : list (Z * Z) * option mempool :=
  match pool with
  | None => ([], None)
  | Some p => (flat_map arm2x86_mempool_free_chunk (concat (chunks p)), None)
  end.

Definition set_offset (o : Z) (c : mempool_chunk) : mempool_chunk :=
  {| base := base c; size := size c; offset := o; class_id := class_id c |}.
Definition set_chunks (l : list (list mempool_chunk)) (total used : Z) (p : mempool) : mempool :=
  {| chunks := l; total_size := total; used_size := used; default_chunk_size := default_chunk_size p;
     max_size := max_size p; enable_growth := enable_growth p |}.
Definition class_chunks (p : mempool) (c : nat) : list mempool_chunk := nth c (chunks p) [].

(** The first chunk with room, and the address in it. *)
Fixpoint take_room (n : Z) (l : list mempool_chunk) : option (Z * list mempool_chunk) :=
  match l with
  | [] => None
  | c :: l =>
      if u64 (offset c + n) <=? size c then Some (base c + offset c, set_offset (u64 (offset c + n)) c :: l)
      else '(p, l) ← take_room n l; Some (p, c :: l)
  end.

Definition arm2x86_mempool_alloc (sys : memory_system) (pool : option mempool) (n : Z) : option Z * option mempool :=
  match pool with
  | None => (None, None)
  | Some p =>
    let n := align16 n in
    let c := mempool_get_class n in
    match take_room n (class_chunks p c) with
    | Some (ptr, l) =>
        (Some ptr, Some (set_chunks (<[c := l]> (chunks p)) (total_size p) (u64 (used_size p + n)) p))
    | None =>
      let new_size := if n >? class_size c then align16 n else class_size c in
      if (u64 (total_size p + new_size) >? max_size p) && negb (enable_growth p) then (None, Some p)
      else
        match arm2x86_mempool_alloc_chunk sys new_size with
        | None => (None, Some p)
        | Some chunk =>
            (Some (base chunk),
             Some (set_chunks (<[c := set_offset n chunk :: class_chunks p c]> (chunks p))
                     (u64 (total_size p + size chunk)) (u64 (used_size p + n)) p))
        end
    end
  end.

(** The code is [None] when there is no pool. *)
Definition arm2x86_mempool_get_stats (pool : option mempool) : Z * option (Z * Z * Z) :=
  match pool with
  | None => (ARM2X86_ERR_NOT_INITIALIZED, None)
  | Some p =>
    (ARM2X86_OK, Some (total_size p, used_size p,
       Z.of_nat (length (List.filter (fun c => offset c <? size c) (concat (chunks p))))))
  end.

Definition arm2x86_enable_mempool (calloc_ok : bool) (sys : memory_system) (initialized : bool)
    (config : option arm2x86_mempool_config) (pool : option mempool) : Z * option mempool :=
  if negb initialized then (ARM2X86_ERR_NOT_INITIALIZED, pool)
  else
    match pool with
    | Some p => (ARM2X86_ERR_ALREADY_INITIALIZED, Some p)
    | None =>
      (ARM2X86_OK, arm2x86_mempool_init calloc_ok sys (Some (default arm2x86_mempool_config_default config)))
    end.

(** ** Blocks that do not overlap *)

(** Address and size. *)
Definition apart2 (a b : Z * Z) : Prop := fst a + snd a <= fst b \/ fst b + snd b <= fst a.
Definition inside (a b : Z * Z) : Prop := fst b <= fst a /\ fst a + snd a <= fst b + snd b.

Lemma apart2_sym a b : apart2 a b -> apart2 b a.
Proof. unfold apart2. lia. Qed.

Lemma apart2_inside a b c d : inside a b -> inside c d -> apart2 b d -> apart2 a c.
Proof. unfold apart2, inside. lia. Qed.

Abbreviation all_apart := (ForallOrdPairs apart2).

Lemma all_apart_insert A x B : all_apart (A ++ B) -> Forall (apart2 x) (A ++ B) -> all_apart (A ++ x :: B).
Proof.
  induction A as [|a A IH]; cbn; intros H Hx; [by constructor|].
  inversion H as [|? ? Ha HAB]; subst. apply Forall_cons in Hx as [Hxa Hx]. constructor; [|by apply IH].
  rewrite Forall_app in *. destruct Ha as [Ha1 Ha2]. split; [done|]. constructor; [by apply apart2_sym|done].
Qed.

Lemma all_apart_middle A x B : all_apart (A ++ x :: B) -> Forall (apart2 x) (A ++ B).
Proof.
  induction A as [|a A IH]; cbn; intros H; inversion H as [|? ? Ha HAB]; subst; [done|].
  apply Forall_app in Ha as [_ Hax]. apply Forall_cons in Hax as [Hax _].
  constructor; [by apply apart2_sym|by apply IH].
Qed.

(** ** Sizes *)

Lemma align16_spec n : 0 <= n <= 2 ^ 62 -> n <= align16 n < n + 16 /\ align16 n mod 16 = 0.
Proof.
  intros Hn. unfold align16. rewrite u64_small by lia.
  replace ((n + 15) &&& Z.lnot 15) with ((n + 15) / 16 * 16).
  - pose proof (Z.div_mod (n + 15) 16 ltac:(lia)). pose proof (Z.mod_pos_bound (n + 15) 16 ltac:(lia)).
    rewrite Z.mod_mul by lia. lia.
  - rewrite <- Z.ldiff_land. change 15 with (Z.ones 4). rewrite Z.ldiff_ones_r by lia.
    by rewrite Z.shiftl_mul_pow2, Z.shiftr_div_pow2 by lia.
Qed.

Lemma class_below n : (mempool_get_class n < 6)%nat.
Proof. unfold mempool_get_class. repeat destruct (_ <=? _); lia. Qed.

Lemma class_size_cases c : (c < 6)%nat ->
  (class_size c = 64 \/ class_size c = 256 \/ class_size c = 1024 \/ class_size c = 4096 \/ class_size c = 16384 \/ class_size c = 65536) /\
  mempool_get_class (class_size c) = c.
Proof. intros Hc. do 6 (destruct c as [|c]; [vm_compute; tauto|]). lia. Qed.

(** ** The invariant *)

Definition region (c : mempool_chunk) : Z * Z := (base c, size c).
Definition taken (c : mempool_chunk) : Z * Z := (base c, offset c).
Definition all_chunks (p : mempool) : list mempool_chunk := concat (chunks p).
Definition sum (l : list Z) : Z := fold_right Z.add 0 l.

Definition chunk_ok (c : mempool_chunk) : Prop :=
  0 <= offset c <= size c /\ size c <= 2 ^ 62 + 16 /\ offset c mod 16 = 0 /\ base c mod 16 = 0.

(** The pool, with the blocks that were handed out. *)
Record pool_ok (p : mempool) (live : list (Z * Z)) : Prop := {
  pool_classes : length (chunks p) = MEMPOOL_NUM_CLASSES;
  pool_chunks : Forall chunk_ok (all_chunks p);
  pool_apart : all_apart (map region (all_chunks p));
  pool_inside : Forall (fun b => exists c, In c (all_chunks p) /\ inside b (taken c)) live;
  pool_live : all_apart live;
  pool_aligned : Forall (fun b => fst b mod 16 = 0 /\ 0 <= snd b) live;
  pool_used : used_size p = u64 (sum (map snd live));
  pool_grows : enable_growth p = true }.

(** [mmap] gives whole new pages, of a size there is address space for. *)
Definition fresh_chunks (sys : memory_system) (l : list mempool_chunk) : Prop :=
  forall n b, mmap_chunk sys n = Some b ->
    n <= 2 ^ 62 + 16 /\ b mod 16 = 0 /\ Forall (fun c => apart2 (b, n) (region c)) l.

Lemma concat_update {A} (L : list (list A)) c l : L !! c = Some l ->
  exists B D, concat L = B ++ l ++ D /\ forall l', concat (<[c := l']> L) = B ++ l' ++ D.
Proof.
  revert c. induction L as [|x L IH]; intros [|c] H; cbn in H; try done.
  - injection H as ->. exists [], (concat L). split; [done|]. by intros l'.
  - destruct (IH c H) as (B & D & E & Hu). exists (x ++ B), D. cbn. split; [by rewrite E, app_assoc|].
    intros l'. by rewrite Hu, app_assoc.
Qed.

Lemma take_room_spec n l p l' : take_room n l = Some (p, l') ->
  exists l1 c l2, l = l1 ++ c :: l2 /\ l' = l1 ++ set_offset (u64 (offset c + n)) c :: l2 /\
    p = base c + offset c /\ u64 (offset c + n) <= size c.
Proof.
  revert p l'. induction l as [|c l IH]; intros p l'; cbn [take_room]; [done|].
  destruct (Z.leb_spec (u64 (offset c + n)) (size c)).
  - intros [= <- <-]. by exists [], c, l.
  - destruct (take_room n l) as [[q l'']|]; cbn [mbind option_bind]; [|done]. intros [= <- <-].
    destruct (IH q l'' eq_refl) as (l1 & d & l2 & -> & -> & -> & Hd). by exists (c :: l1), d, l2.
Qed.

(** ** Allocating *)

Lemma sum_cons x l : sum (x :: l) = x + sum l.
Proof. done. Qed.

Lemma u64_add_l a b : u64 (u64 a + b) = u64 (a + b).
Proof. unfold u64. by rewrite Zplus_mod_idemp_l. Qed.

Lemma inside_grow b c m : 0 <= m -> inside b (taken c) -> inside b (base c, offset c + m).
Proof. unfold inside, taken. cbn. lia. Qed.

(** A block from the room of a chunk. *)
Lemma pool_take p live m cl ptr l' :
  pool_ok p live -> 0 <= m <= 2 ^ 62 + 16 -> m mod 16 = 0 -> (cl < 6)%nat ->
  take_room m (class_chunks p cl) = Some (ptr, l') ->
  pool_ok (set_chunks (<[cl := l']> (chunks p)) (total_size p) (u64 (used_size p + m)) p) ((ptr, m) :: live).
Proof.
  intros Hok Hm Hm16 Hcl Ht. destruct (take_room_spec _ _ _ _ Ht) as (l1 & c & l2 & El & -> & -> & Hfit).
  assert (HL : chunks p !! cl = Some (l1 ++ c :: l2)).
  { rewrite <- El. unfold class_chunks. 
    destruct (lookup_lt_is_Some_2 (chunks p) cl) as [x Hx]; [rewrite (pool_classes _ _ Hok); done|].
    by rewrite (nth_lookup_Some _ _ [] _ Hx). }
  destruct (concat_update _ _ _ HL) as (B & D & EB & Hu).
  assert (Eall : all_chunks p = (B ++ l1) ++ c :: (l2 ++ D)) by (unfold all_chunks; rewrite EB; by rewrite <- !app_assoc).
  set (p' := set_chunks _ _ _ _).
  assert (Eall' : all_chunks p' = (B ++ l1) ++ set_offset (u64 (offset c + m)) c :: (l2 ++ D))
    by (unfold all_chunks, p'; cbn [chunks set_chunks]; rewrite Hu; by rewrite <- !app_assoc).
  pose proof (pool_chunks _ _ Hok) as Hch. rewrite Eall in Hch.
  apply Forall_app in Hch as [HA Hch]. apply Forall_cons in Hch as [Hc HD]. pose proof Hc as (Ho & Hs & Ho16 & Hb16).
  rewrite u64_small in Hfit, Eall' by lia.
  pose proof (pool_apart _ _ Hok) as Hap. rewrite Eall, map_app in Hap. cbn [map] in Hap.
  split; try apply Hok.
  - cbn. by rewrite length_insert, (pool_classes _ _ Hok).
  - rewrite Eall'. apply Forall_app. split; [done|]. constructor; [|done]. unfold chunk_ok. cbn.
    split_and!; [lia|lia|done| |done]. rewrite Z.add_mod, Ho16, Hm16 by lia. done.
  - rewrite Eall', map_app. cbn [map]. exact Hap.
  - constructor.
    + exists (set_offset (offset c + m) c). split; [rewrite Eall'; apply in_or_app; right; by left|].
      unfold inside, taken. cbn. lia.
    + eapply Forall_impl; [apply (pool_inside _ _ Hok)|]. cbv beta. intros b (d & Hd & Hbd).
      rewrite Eall in Hd. rewrite Eall'. apply in_app_or in Hd as [Hd|[->|Hd]].
      * exists d. split; [apply in_or_app; by left|done].
      * exists (set_offset (offset d + m) d). split; [apply in_or_app; right; by left|]. exact (inside_grow b d m ltac:(lia) Hbd).
      * exists d. split; [apply in_or_app; right; by right|done].
  - constructor; [|apply Hok]. apply List.Forall_forall. intros b Hb.
    pose proof (pool_inside _ _ Hok) as Hin. rewrite List.Forall_forall in Hin. destruct (Hin b Hb) as (d & Hd & Hbd).
    pose proof (pool_aligned _ _ Hok) as Hal. rewrite List.Forall_forall in Hal. destruct (Hal b Hb) as [_ Hb0].
    rewrite Eall in Hd. destruct (in_app_or _ _ _ Hd) as [Hd'|[->|Hd']].
    3,1: (apply all_apart_middle in Hap; rewrite <- map_app in Hap; rewrite List.Forall_forall in Hap;
      assert (Hr : apart2 (region c) (region d)) by (apply Hap, in_map, in_or_app; tauto);
      assert (Hd0 : chunk_ok d) by (rewrite List.Forall_forall in HA, HD; auto);
      destruct Hd0 as (? & _); unfold apart2, region, inside, taken in *; cbn [fst snd] in *; lia).
    unfold apart2, inside, taken in *. cbn [fst snd] in *. lia.
  - constructor; [|apply Hok]. cbn. split; [|lia]. rewrite Z.add_mod, Hb16, Ho16 by lia. done.
  - cbn [used_size set_chunks p' map snd]. rewrite sum_cons, (pool_used _ _ Hok), u64_add_l. f_equal. lia.
Qed.

(** A block from a new chunk. *)
Lemma pool_push p live m cl chunk total :
  pool_ok p live -> 0 <= m <= size chunk -> m mod 16 = 0 -> (cl < 6)%nat ->
  size chunk <= 2 ^ 62 + 16 -> base chunk mod 16 = 0 -> Forall (fun c => apart2 (region chunk) (region c)) (all_chunks p) ->
  pool_ok (set_chunks (<[cl := set_offset m chunk :: class_chunks p cl]> (chunks p)) total (u64 (used_size p + m)) p)
    ((base chunk, m) :: live).
Proof.
  intros Hok Hm Hm16 Hcl Hs Hb16 Hfresh.
  assert (HL : chunks p !! cl = Some (class_chunks p cl)).
  { unfold class_chunks. destruct (lookup_lt_is_Some_2 (chunks p) cl) as [x Hx]; [rewrite (pool_classes _ _ Hok); done|].
    by rewrite (nth_lookup_Some _ _ [] _ Hx). }
  destruct (concat_update _ _ _ HL) as (B & D & EB & Hu). set (p' := set_chunks _ _ _ _).
  assert (Eall : all_chunks p = B ++ (class_chunks p cl ++ D)) by exact EB.
  assert (Eall' : all_chunks p' = B ++ set_offset m chunk :: (class_chunks p cl ++ D))
    by (unfold all_chunks, p'; cbn [chunks set_chunks]; by rewrite Hu).
  assert (Hin : forall c, In c (all_chunks p) -> In c (all_chunks p')).
  { intros c. rewrite Eall, Eall'. rewrite !in_app_iff. cbn. rewrite in_app_iff. tauto. }
  split; try apply Hok.
  - cbn. by rewrite length_insert, (pool_classes _ _ Hok).
  - pose proof (pool_chunks _ _ Hok) as Hch. rewrite Eall in Hch. rewrite Eall'.
    apply Forall_app in Hch as [? ?]. apply Forall_app. split; [done|]. constructor; [|done].
    unfold chunk_ok. cbn. split_and!; done || lia.
  - pose proof (pool_apart _ _ Hok) as Hap. rewrite Eall, map_app in Hap. rewrite Eall', map_app. cbn [map].
    apply all_apart_insert; [done|]. rewrite <- map_app, <- Eall. by apply Forall_fmap.
  - constructor.
    + exists (set_offset m chunk). split; [rewrite Eall'; apply in_or_app; right; by left|]. unfold inside, taken. cbn. lia.
    + eapply Forall_impl; [apply (pool_inside _ _ Hok)|]. cbv beta. intros b (d & Hd & Hbd). exists d. split; [by apply Hin|done].
  - constructor; [|apply Hok]. apply List.Forall_forall. intros b Hb.
    pose proof (pool_inside _ _ Hok) as Hil. rewrite List.Forall_forall in Hil. destruct (Hil b Hb) as (d & Hd & Hbd).
    pose proof (pool_chunks _ _ Hok) as Hch. rewrite List.Forall_forall in Hch. destruct (Hch d Hd) as (Hod & _).
    rewrite List.Forall_forall in Hfresh. specialize (Hfresh d Hd).
    eapply apart2_inside; [| |exact Hfresh].
    + unfold inside, region. cbn. lia.
    + unfold inside, taken, region in *. cbn [fst snd] in *. lia.
  - constructor; [|apply Hok]. cbn. split; [done|lia].
  - cbn [used_size set_chunks p' map snd]. rewrite sum_cons, (pool_used _ _ Hok), u64_add_l. f_equal. lia.
Qed.

(** A chunk that is allocated is big enough, and new. *)
Lemma alloc_chunk_spec sys n chunk l : 0 <= n <= 2 ^ 62 -> fresh_chunks sys l ->
  arm2x86_mempool_alloc_chunk sys n = Some chunk ->
  offset chunk = 0 /\ n <= size chunk /\ size chunk <= 2 ^ 62 + 16 /\ base chunk mod 16 = 0 /\
  class_id chunk = mempool_get_class n /\ Forall (fun c => apart2 (region chunk) (region c)) l /\
  mmap_chunk sys (size chunk) = Some (base chunk).
Proof.
  intros Hn Hf. unfold arm2x86_mempool_alloc_chunk. cbv zeta. destruct (malloc_ok sys); [|done]. cbn [negb].
  set (sz := if n >? _ then _ else _). destruct (mmap_chunk sys sz) as [b|] eqn:E; cbn [mbind option_bind]; [|done].
  intros [= <-]. cbn. destruct (Hf _ _ E) as (H1 & H2 & H3). split_and!; try done.
  subst sz. rewrite Z.gtb_ltb. destruct (Z.ltb_spec (class_size (mempool_get_class n)) n); [|lia].
  pose proof (align16_spec n Hn). lia.
Qed.

Lemma align16_fixed m : 0 <= m <= 2 ^ 62 -> m mod 16 = 0 -> align16 m = m.
Proof.
  intros Hm H16. pose proof (align16_spec m Hm) as [H1 H2].
  pose proof (Z.div_mod m 16 ltac:(lia)). pose proof (Z.div_mod (align16 m) 16 ltac:(lia)). lia.
Qed.

(** An allocation hands out a new block, or leaves the pool as it is. *)
Lemma mempool_alloc_ok sys p live n r p' :
  pool_ok p live -> fresh_chunks sys (all_chunks p) -> 0 <= n <= 2 ^ 61 ->
  arm2x86_mempool_alloc sys (Some p) n = (r, p') ->
  match r with
  | Some ptr => exists q, p' = Some q /\ pool_ok q ((ptr, align16 n) :: live) /\ n <= align16 n < n + 16
  | None => p' = Some p /\ (malloc_ok sys = false \/ exists k, mmap_chunk sys k = None)
  end.
Proof.
  intros Hok Hf Hn. unfold arm2x86_mempool_alloc. cbv zeta.
  pose proof (align16_spec n ltac:(lia)) as [Ha Ha16]. set (m := align16 n) in *.
  pose proof (class_below m) as Hcl. set (cl := mempool_get_class m) in *.
  destruct (take_room m (class_chunks p cl)) as [[ptr l']|] eqn:Et.
  { intros [= <- <-]. eexists. split; [done|]. split; [|lia]. apply (pool_take p live m cl ptr l'); try done. lia. }
  rewrite (pool_grows _ _ Hok), andb_false_r.
  destruct (class_size_cases cl Hcl) as [Hcs Hcc].
  set (new_size := if m >? class_size cl then align16 m else class_size cl).
  assert (Hnew : m <= new_size <= 2 ^ 62).
  { subst new_size. rewrite Z.gtb_ltb. destruct (Z.ltb_spec (class_size cl) m); [|lia]. rewrite align16_fixed by (lia || done). lia. }
  destruct (arm2x86_mempool_alloc_chunk sys new_size) as [chunk|] eqn:Ec.
  - intros [= <- <-]. eexists. split; [done|]. split; [|lia].
    destruct (alloc_chunk_spec sys new_size chunk (all_chunks p) ltac:(lia) Hf Ec) as (_ & H1 & H2 & H3 & _ & H4 & _).
    apply pool_push; try done. lia.
  - intros [= <- <-]. split; [done|]. unfold arm2x86_mempool_alloc_chunk in Ec. cbv zeta in Ec.
    destruct (malloc_ok sys); [|by left]. right. cbn [negb] in Ec.
    destruct (mmap_chunk sys _) eqn:Em in Ec; [done|]. by eexists.
Qed.

(** ** Runs *)

(** A pool after its initialisation and allocations, with the blocks they returned. *)
Inductive pool_reached : mempool -> list (Z * Z) -> Prop :=
| reached_init sys config p :
    fresh_chunks sys [] ->
    match config with Some c => 0 <= initial_size c <= 2 ^ 62 /\ 0 <= chunk_size c <= 2 ^ 62 /\ 0 <= cfg_max_size c <= 2 ^ 62 | None => True end ->
    arm2x86_mempool_init true sys config = Some p -> pool_reached p []
| reached_alloc sys p live n r p' :
    pool_reached p live -> fresh_chunks sys (all_chunks p) -> 0 <= n <= 2 ^ 61 ->
    arm2x86_mempool_alloc sys (Some p) n = (r, Some p') ->
    pool_reached p' (match r with Some ptr => (ptr, align16 n) :: live | None => live end).

Lemma or_else_range n d : 0 <= n <= 2 ^ 62 -> 0 <= d <= 2 ^ 62 -> 0 <= or_else n d <= 2 ^ 62.
Proof. unfold or_else. by destruct (c_true n). Qed.

Lemma concat_single {A} (x : A) cl : (cl < 6)%nat -> concat (<[cl := [x]]> (replicate MEMPOOL_NUM_CLASSES [])) = [x].
Proof. intros H. do 6 (destruct cl as [|cl]; [done|]). lia. Qed.

Lemma mempool_init_ok sys config p :
  fresh_chunks sys [] ->
  match config with Some c => 0 <= initial_size c <= 2 ^ 62 /\ 0 <= chunk_size c <= 2 ^ 62 /\ 0 <= cfg_max_size c <= 2 ^ 62 | None => True end ->
  arm2x86_mempool_init true sys config = Some p -> pool_ok p [].
Proof.
  intros Hf Hc. unfold arm2x86_mempool_init. cbn [negb]. cbv zeta.
  set (dc := match config with Some c => or_else (chunk_size c) _ | None => _ end).
  set (mx := match config with Some c => or_else (cfg_max_size c) _ | None => _ end).
  set (i0 := match config with Some c => or_else (initial_size c) dc | None => dc end).
  assert (H0 : 0 <= dc <= 2 ^ 62 /\ 0 <= mx <= 2 ^ 62 /\ 0 <= i0 <= 2 ^ 62).
  { subst dc mx i0. destruct config as [c|]; [|lia]. destruct Hc as (? & ? & ?).
    split_and!; repeat (apply or_else_range; [lia|]); lia || (apply or_else_range; lia). }
  clearbody dc mx i0. set (ini := if i0 >? mx then mx else i0).
  assert (Hi : 0 <= ini <= 2 ^ 62) by (subst ini; destruct (i0 >? mx); lia).
  destruct (arm2x86_mempool_alloc_chunk sys ini) as [chunk|] eqn:E; intros [= <-].
  - destruct (alloc_chunk_spec sys ini chunk [] Hi Hf E) as (H1 & H2 & H3 & H4 & H5 & _).
    assert (Hcl := class_below ini). rewrite <- H5 in Hcl.
    pose proof (concat_single chunk _ Hcl) as Hall.
    match goal with |- pool_ok ?p _ => assert (Ha : all_chunks p = [chunk]) by exact Hall end.
    split; rewrite ?Ha; try done; cbn [chunks].
    + apply (length_insert (replicate MEMPOOL_NUM_CLASSES [])).
    + constructor; [|done]. unfold chunk_ok. rewrite H1. split_and!; done || lia.
    + repeat constructor.
    + constructor.
  - split; cbn; try done; constructor.
Qed.

Lemma pool_reached_ok p live : pool_reached p live -> pool_ok p live.
Proof.
  induction 1 as [sys config p Hf Hc Hi|sys p live n r p' _ IH Hf Hn Ha]; [by eapply mempool_init_ok|].
  pose proof (mempool_alloc_ok sys p live n r (Some p') IH Hf Hn Ha) as H. destruct r as [ptr|].
  - destruct H as (q & [= ->] & H & _). exact H.
  - destruct H as [[= ->] _]. exact IH.
Qed.

(** A system whose first chunk is at 64 KiB. *)
Definition first_mapping : memory_system := {| malloc_ok := true; mmap_chunk := fun n => if n <=? 65536 then Some 0x10000 else None |}.
Definition small_config : arm2x86_mempool_config :=
  {| initial_size := 100; cfg_max_size := 128; chunk_size := 0; cfg_enable_growth := false; precommit := false |}.
Definition small_pool : mempool :=
  {| chunks := [[]; [{| base := 0x10000; size := 256; offset := 0; class_id := 1 |}]; []; []; []; []];
     total_size := 100; used_size := 0; default_chunk_size := 65536; max_size := 128; enable_growth := true |}.

(** C26: The memory pool never hands out a byte twice.  In every run of initialisation and
    allocations (of at most 2^61 bytes), if [mmap] gives new pages, the blocks returned do
    not overlap, start at multiples of 16 and lie in the used part of a chunk, and the
    recorded use is the sum of their sizes.  An allocation only fails when the system
    gives no memory: the limit of the configuration never stops the pool from growing.
    A request within 16 bytes of 2^64 is rounded to nothing, and one that makes a chunk's
    offset wrap around hands out memory again. *)
Theorem mempool_correct p live :
  pool_reached p live ->
  (all_apart live /\ Forall (fun b => fst b mod 16 = 0 /\ exists c, In c (all_chunks p) /\ inside b (taken c)) live /\
   used_size p = u64 (sum (map snd live)) /\
   (forall sys n p', 0 <= n <= 2 ^ 61 -> fresh_chunks sys (all_chunks p) ->
      arm2x86_mempool_alloc sys (Some p) n = (None, p') ->
      p' = Some p /\ (malloc_ok sys = false \/ exists k, mmap_chunk sys k = None))) /\
  arm2x86_mempool_init true first_mapping (Some small_config) = Some small_pool /\
  fst (arm2x86_mempool_alloc {| malloc_ok := true; mmap_chunk := fun _ => Some 0x20000 |} (Some small_pool) 1000) = Some 0x20000 /\
  (let alloc := arm2x86_mempool_alloc first_mapping in
   let p0 := arm2x86_mempool_init true first_mapping None in
   let p1 := snd (alloc p0 20000) in
   let p2 := snd (alloc p1 (2 ^ 64 - 20000)) in
   fst (alloc p0 20000) = Some 0x10000 /\ fst (alloc p2 20000) = Some 0x10000 /\ align16 (2 ^ 64 - 1) = 0).
Proof.
  intros H. pose proof (pool_reached_ok p live H) as Hok. split; [split_and!; try apply Hok|cbv zeta; split_and!; vm_compute; reflexivity].
  - pose proof (pool_inside _ _ Hok) as Hi. pose proof (pool_aligned _ _ Hok) as Ha.
    rewrite List.Forall_forall in *. intros b Hb. split; [by apply Ha|by apply Hi].
  - intros sys n p' Hn Hf E. by apply (mempool_alloc_ok sys p live n None p' Hok Hf Hn E).
Qed.

Definition used_pool : mempool :=
  {| chunks := [[]; [{| base := 0x10000; size := 256; offset := 240; class_id := 1 |}]; []; []; []; []];
     total_size := 100; used_size := 240; default_chunk_size := 65536; max_size := 128; enable_growth := true |}.

Lemma mempool_correct_witness :
  pool_reached used_pool [(0x10000, 240)] /\ used_size used_pool = u64 (sum [240]).
Proof.
  assert (Hf : fresh_chunks {| malloc_ok := true; mmap_chunk := fun n => if n <=? 65536 then Some 0x10000 else None |} []).
  { intros n b. cbn [mmap_chunk]. destruct (Z.leb_spec n 65536); [|done]. intros [= <-]. split_and!; [lia|done|by apply List.Forall_nil]. }
  assert (H0 : pool_reached small_pool []).
  { apply (reached_init _ (Some small_config) _ Hf); [cbn; lia|vm_compute; reflexivity]. }
  assert (H : pool_reached used_pool [(0x10000, 240)]).
  { apply (reached_alloc {| malloc_ok := true; mmap_chunk := fun _ => None |} small_pool [] 239 (Some 0x10000)); [done|done|lia|].
    vm_compute. reflexivity. }
  split; [exact H|]. apply (mempool_correct used_pool _ H).
Defined.
