(* ===== verification/TCache.v ===== *)
(** * The translation cache: [modules/arm2x86_tcache.c]

    Entries live in a heap of allocated blocks and hold three pointers: the next
    entry of their hash chain and their two neighbours in the LRU list.  Every
    operation is a computation in a state monad over that heap, the cache header,
    the list of registered jump targets and the bytes of generated code; it has no
    result when the C would follow a pointer to a freed or never allocated entry.
    The mutexes are taken and released within each function and are not part of the
    state.  The memory allocator is a parameter. *)
From S2P Require Import Prelude X86.
From Stdlib Require Import ZArith Lia Bool.
From Stdlib Require Import Floats.SpecFloat.
From stdpp Require Import base numbers list gmap.
Open Scope Z_scope.
Open Scope c_scope.

(** ** Data *)

Definition TC_OK := 0.
Definition TC_ERR_INVALID_PARAM := -4.
Definition TC_ERR_MEMORY := -3.

Definition TCACHE_DEFAULT_SIZE := 1024 * 1024.
Definition TCACHE_HASH_BUCKETS := 4096.
Definition TCACHE_HOT_THRESHOLD := 3.
Definition TCACHE_MIN_SIZE := 512 * 1024.
Definition TCACHE_MAX_SIZE := 64 * 1024 * 1024.
Definition TCACHE_FLAG_HOT := 0x01.
Definition TCACHE_FLAG_LOCKED := 0x02.
Definition TCACHE_FLAG_OWNED := 0x04.
Definition TCACHE_FLAG_MMAP := 0x08.

(** A pointer to an entry; [None] is NULL. *)
Definition ptr := option positive.

Record tcache_entry := {
  e_next : ptr; e_lru_prev : ptr; e_lru_next : ptr;
  e_arm_addr : Z; e_x86_code : Z; e_x86_size : Z;
  e_exec_count : Z; e_flags : Z; e_hash : Z }.

Definition set_next (p : ptr) (e : tcache_entry) :=
  Build_tcache_entry p (e_lru_prev e) (e_lru_next e) (e_arm_addr e) (e_x86_code e) (e_x86_size e)
    (e_exec_count e) (e_flags e) (e_hash e).
Definition set_lru_prev (p : ptr) (e : tcache_entry) :=
  Build_tcache_entry (e_next e) p (e_lru_next e) (e_arm_addr e) (e_x86_code e) (e_x86_size e)
    (e_exec_count e) (e_flags e) (e_hash e).
Definition set_lru_next (p : ptr) (e : tcache_entry) :=
  Build_tcache_entry (e_next e) (e_lru_prev e) p (e_arm_addr e) (e_x86_code e) (e_x86_size e)
    (e_exec_count e) (e_flags e) (e_hash e).
Definition set_exec_count (v : Z) (e : tcache_entry) :=
  Build_tcache_entry (e_next e) (e_lru_prev e) (e_lru_next e) (e_arm_addr e) (e_x86_code e)
    (e_x86_size e) v (e_flags e) (e_hash e).
Definition set_flags (v : Z) (e : tcache_entry) :=
  Build_tcache_entry (e_next e) (e_lru_prev e) (e_lru_next e) (e_arm_addr e) (e_x86_code e)
    (e_x86_size e) (e_exec_count e) v (e_hash e).

Record translation_cache := {
  hash_table : list ptr; lru_head : ptr; lru_tail : ptr;
  total_size : Z; used_size : Z; entry_count : Z;
  lookup_count : Z; miss_count : Z; bucket_count : Z }.

Definition set_table (t : list ptr) (c : translation_cache) :=
  Build_translation_cache t (lru_head c) (lru_tail c) (total_size c) (used_size c) (entry_count c)
    (lookup_count c) (miss_count c) (bucket_count c).
Definition set_head (p : ptr) (c : translation_cache) :=
  Build_translation_cache (hash_table c) p (lru_tail c) (total_size c) (used_size c) (entry_count c)
    (lookup_count c) (miss_count c) (bucket_count c).
Definition set_tail (p : ptr) (c : translation_cache) :=
  Build_translation_cache (hash_table c) (lru_head c) p (total_size c) (used_size c) (entry_count c)
    (lookup_count c) (miss_count c) (bucket_count c).
Definition set_sizes (used count : Z) (c : translation_cache) :=
  Build_translation_cache (hash_table c) (lru_head c) (lru_tail c) (total_size c) used count
    (lookup_count c) (miss_count c) (bucket_count c).
Definition set_counts (lookups misses : Z) (c : translation_cache) :=
  Build_translation_cache (hash_table c) (lru_head c) (lru_tail c) (total_size c) (used_size c)
    (entry_count c) lookups misses (bucket_count c).

Record jump_target := { target_arm_addr : Z; jmp_instruction : Z; is_call : bool }.

Record world := {
  heap : gmap positive tcache_entry;
  cache : translation_cache;
  jump_targets : list jump_target;
  code_mem : Z -> Z;
  released : list (Z * Z * bool)  (* code blocks given back: address, size, by munmap *) }.

Definition set_heap (h : gmap positive tcache_entry) (w : world) :=
  Build_world h (cache w) (jump_targets w) (code_mem w) (released w).
Definition set_cache (c : translation_cache) (w : world) :=
  Build_world (heap w) c (jump_targets w) (code_mem w) (released w).
Definition set_jumps (l : list jump_target) (m : Z -> Z) (w : world) :=
  Build_world (heap w) (cache w) l m (released w).
Definition set_released (l : list (Z * Z * bool)) (w : world) :=
  Build_world (heap w) (cache w) (jump_targets w) (code_mem w) l.

(** ** The monad *)

Definition M (A : Type) : Type := world -> option (A * world).
#[export] Instance M_ret : MRet M := fun A a w => Some (a, w).
#[export] Instance M_bind : MBind M :=
  fun A B f m w => match m w with Some (a, w') => f a w' | None => None end.

(** [*l], for an allocated entry. *)
Definition deref (l : positive) : M tcache_entry :=
  fun w => match heap w !! l with Some e => Some (e, w) | None => None end.
(** Assignments to fields of [*l]. *)
Definition update (l : positive) (f : tcache_entry -> tcache_entry) : M unit :=
  fun w => match heap w !! l with
           | Some e => Some (tt, set_heap (<[l := f e]> (heap w)) w) | None => None end.
Definition free_entry (l : positive) : M unit :=
  fun w => match heap w !! l with
           | Some _ => Some (tt, set_heap (delete l (heap w)) w) | None => None end.
Definition get : M translation_cache := fun w => Some (cache w, w).
Definition put (f : translation_cache -> translation_cache) : M unit :=
  fun w => Some (tt, set_cache (f (cache w)) w).
Definition update_ptr (p : ptr) (f : tcache_entry -> tcache_entry) : M unit :=
  match p with Some l => update l f | None => mret tt end.

(** ** Hashing *)

Definition tcache_hash_buckets (hash buckets : Z) : Z := u16 (hash mod buckets).

Definition tcache_hash (addr : Z) : Z :=
  let hash := 14695981039346656037 in
  let hash := hash ^^^ (addr &&& 0xFFFFFFFF) in
  let hash := u64 (hash * 1099511628211) in
  let hash := hash ^^^ ((addr >>> 32) &&& 0xFFFFFFFF) in
  let hash := u64 (hash * 1099511628211) in
  u16 hash.

(** [hash_table[i]]: no result outside the table. *)
Definition read_slot (i : Z) : M ptr :=
  fun w => match hash_table (cache w) !! Z.to_nat i with Some p => Some (p, w) | None => None end.
Definition write_slot (i : Z) (p : ptr) : M unit :=
  fun w => match hash_table (cache w) !! Z.to_nat i with
           | Some _ => Some (tt, set_cache (set_table (<[Z.to_nat i := p]> (hash_table (cache w)))
                                              (cache w)) w)
           | None => None end.

(** ** Lookup *)

(** The entry of the chain with this address. *)
Fixpoint find_in_chain (fuel : nat) (entry : ptr) (arm_addr : Z) : M ptr :=
  match fuel, entry with
  | O, _ => fun _ => None
  | S _, None => mret None
  | S fuel, Some l =>
    e ← deref l;
    if e_arm_addr e =? arm_addr then mret (Some l) else find_in_chain fuel (e_next e) arm_addr
  end.

(** Take [l], which is not the head, out of the LRU list. *)
Definition unlink_lru (l : positive) : M unit :=
  e ← deref l;
  update_ptr (e_lru_prev e) (set_lru_next (e_lru_next e)) ;;
  e ← deref l;
  update_ptr (e_lru_next e) (set_lru_prev (e_lru_prev e)) ;;
  e ← deref l;
  c ← get;
  if decide (lru_tail c = Some l) then put (set_tail (e_lru_prev e)) else mret tt.

(** Make [l] the head of the LRU list. *)
Definition link_front (l : positive) : M unit :=
  c ← get;
  update l (set_lru_prev None) ;;
  update l (set_lru_next (lru_head c)) ;;
  update_ptr (lru_head c) (set_lru_prev (Some l)) ;;
  put (set_head (Some l)).

Definition move_to_front (l : positive) : M unit :=
  c ← get;
  if decide (lru_head c = Some l) then mret tt else unlink_lru l ;; link_front l.

Definition count_use (e : tcache_entry) : tcache_entry :=
  let e := set_exec_count (u32 (e_exec_count e + 1)) e in
  if TCACHE_HOT_THRESHOLD <=? e_exec_count e then set_flags (e_flags e ||| TCACHE_FLAG_HOT) e else e.

(** As much fuel as the heap has entries is enough for any chain. *)
Definition heap_fuel : M nat := fun w => Some (S (size (heap w)), w).

Definition tcache_lookup_internal (arm_addr : Z) : M ptr :=
  let hash := tcache_hash arm_addr in
  c ← get;
  let bucket_idx := tcache_hash_buckets hash (bucket_count c) in
  entry ← read_slot bucket_idx;
  put (fun c => set_counts (u64 (lookup_count c + 1)) (miss_count c) c) ;;
  fuel ← heap_fuel;
  r ← find_in_chain fuel entry arm_addr;
  match r with
  | Some l => update l count_use ;; move_to_front l ;; mret (Some l)
  | None => put (fun c => set_counts (lookup_count c) (u64 (miss_count c + 1)) c) ;; mret None
  end.

(** The public functions take a cache pointer that may be null. *)
Definition arm2x86_tcache_lookup (cache_ptr : option unit) (arm_addr : Z) : M ptr :=
  match cache_ptr with None => mret None | Some _ => tcache_lookup_internal arm_addr end.

Definition arm2x86_tcache_get_code (entry : ptr) : M Z :=
  match entry with None => mret 0 | Some l => e ← deref l; mret (e_x86_code e) end.
Definition arm2x86_tcache_get_size (entry : ptr) : M Z :=
  match entry with None => mret 0 | Some l => e ← deref l; mret (e_x86_size e) end.
Definition arm2x86_tcache_is_hot (entry : ptr) : M bool :=
  match entry with
  | None => mret false
  | Some l =>
    e ← deref l;
    mret (c_true (e_flags e &&& TCACHE_FLAG_HOT) || (TCACHE_HOT_THRESHOLD <=? e_exec_count e))
  end.

Definition tcache_lookup_block (arm_addr : Z) : M Z :=
  entry ← arm2x86_tcache_lookup None arm_addr;
  match entry with Some _ => arm2x86_tcache_get_code entry | None => mret 0 end.

(** ** Jump targets *)

Definition store_bytes (m : Z -> Z) (p : Z) (bs : list Z) : Z -> Z :=
  fun a => nth (Z.to_nat (a - p)) (if p <=? a then bs else []) (m a).

Section JumpTargets.
(** The address of [dispatcher_lookup], fixed by the linker. *)
Context (dispatcher_address : Z).

Definition redirect_bytes (call : bool) : list Z :=
  [0xff; if call then 0x15 else 0x25] ++ le_bytes 4 0 ++ le_bytes 8 dispatcher_address.

(** The walk over the list: matching targets are patched and unlinked. *)
Fixpoint patch_loop (bytes_of : jump_target -> list Z) (evicted : Z) (l : list jump_target)
    (m : Z -> Z) : list jump_target * (Z -> Z) :=
  match l with
  | [] => ([], m)
  | jt :: l =>
    if target_arm_addr jt =? evicted then
      patch_loop bytes_of evicted l (store_bytes m (jmp_instruction jt) (bytes_of jt))
    else let '(l', m') := patch_loop bytes_of evicted l m in (jt :: l', m')
  end.

Definition tcache_patch_evicted_block (evicted_arm_addr : Z) : M unit :=
  fun w =>
    let '(l, m) := patch_loop (fun jt => redirect_bytes (is_call jt)) evicted_arm_addr
                     (jump_targets w) (code_mem w) in
    Some (tt, set_jumps l m w).
End JumpTargets.

Definition tcache_invalidate_jumps_to (evicted_arm_addr : Z) : M unit :=
  fun w =>
    let '(l, m) := patch_loop (fun _ => [0x0f; 0x0b]) evicted_arm_addr (jump_targets w) (code_mem w) in
    Some (tt, set_jumps l m w).

(** [ok]: whether the allocation succeeds. *)
Definition tcache_register_jump_target (ok : bool) (target_addr jmp : Z) (call : bool) : M unit :=
  fun w => if ok then
      Some (tt, set_jumps ({| target_arm_addr := target_addr; jmp_instruction := jmp;
                              is_call := call |} :: jump_targets w) (code_mem w) w)
    else Some (tt, w).

(** ** Insertion *)

(** Give the code of an owned entry back. *)
Definition release_code (e : tcache_entry) : M unit :=
  if c_true (e_flags e &&& TCACHE_FLAG_OWNED) then
    fun w => Some (tt, set_released ((e_x86_code e, e_x86_size e,
                                      c_true (e_flags e &&& TCACHE_FLAG_MMAP)) :: released w) w)
  else mret tt.

(** A place that holds a chain pointer: a slot of the table or a [next] field. *)
Inductive link := Slot (i : Z) | NextOf (l : positive).
Definition read_link (k : link) : M ptr :=
  match k with Slot i => read_slot i | NextOf l => e ← deref l; mret (e_next e) end.
Definition write_link (k : link) (p : ptr) : M unit :=
  match k with Slot i => write_slot i p | NextOf l => update l (set_next p) end.

(** [while ( *bucket && *bucket != evict) bucket = &( *bucket)->next]. *)
Fixpoint find_link (fuel : nat) (bucket : link) (evict : positive) : M link :=
  match fuel with
  | O => fun _ => None
  | S fuel =>
    p ← read_link bucket;
    match p with
    | None => mret bucket
    | Some l => if decide (l = evict) then mret bucket else find_link fuel (NextOf l) evict
    end
  end.

(** Taking the last entry, whose predecessor is [prev], out of the LRU list. *)
Definition unlink_tail (prev : ptr) : M unit :=
  update_ptr prev (set_lru_next None) ;;
  put (set_tail prev) ;;
  (if decide (prev = None) then put (set_head None) else mret tt).

Section Insert.
Context (dispatcher_address : Z).

(** The body of the eviction loop. *)
Definition evict_one (evict : positive) : M unit :=
  e ← deref evict;
  tcache_patch_evicted_block dispatcher_address (e_arm_addr e) ;;
  unlink_tail (e_lru_prev e) ;;
  c ← get;
  let bucket_idx := tcache_hash_buckets (e_hash e) (bucket_count c) in
  fuel ← heap_fuel;
  k ← find_link fuel (Slot bucket_idx) evict;
  p ← read_link k;
  match p with Some _ => e ← deref evict; write_link k (e_next e) | None => mret tt end ;;
  put (fun c => set_sizes (u64 (used_size c - e_x86_size e)) (u64 (entry_count c - 1)) c) ;;
  release_code e ;;
  free_entry evict.

(** The eviction loop: [while (used + x86_size > total && lru_tail)]. *)
Fixpoint evict_loop (fuel : nat) (x86_size : Z) : M unit :=
  match fuel with
  | O => fun _ => None
  | S fuel =>
    c ← get;
    if total_size c <? u64 (used_size c + x86_size) then
      match lru_tail c with
      | None => mret tt
      | Some evict =>
        e ← deref evict;
        if c_true (e_flags e &&& TCACHE_FLAG_LOCKED) then mret tt
        else evict_one evict ;; evict_loop fuel x86_size
      end
    else mret tt
  end.

(** [calloc]: the address of a new entry, or NULL. *)
Context (calloc : world -> ptr).

Definition link_new_entry (l : positive) (arm_addr x86_code x86_size : Z) (owned mmap : bool) : M unit :=
  let hash := tcache_hash arm_addr in
  c ← get;
  let bucket_idx := tcache_hash_buckets hash (bucket_count c) in
  next ← read_slot bucket_idx;
  let flags := (if owned then TCACHE_FLAG_OWNED else 0) ||| (if mmap then TCACHE_FLAG_MMAP else 0) in
  (fun w => Some (tt, set_heap (<[l := {| e_next := next; e_lru_prev := None; e_lru_next := lru_head c;
      e_arm_addr := arm_addr; e_x86_code := x86_code; e_x86_size := x86_size; e_exec_count := 1;
      e_flags := flags; e_hash := hash |}]> (heap w)) w)) ;;
  write_slot bucket_idx (Some l) ;;
  update_ptr (lru_head c) (set_lru_prev (Some l)) ;;
  put (set_head (Some l)) ;;
  (if decide (lru_tail c = None) then put (set_tail (Some l)) else mret tt) ;;
  put (fun c => set_sizes (u64 (used_size c + x86_size)) (u64 (entry_count c + 1)) c).

Definition arm2x86_tcache_insert_ex (cache_ptr : option unit) (arm_addr x86_code x86_size : Z)
    (owned mmap : bool) : M Z :=
  match cache_ptr with
  | None => mret TC_ERR_INVALID_PARAM
  | Some _ =>
    if x86_code =? 0 then mret TC_ERR_INVALID_PARAM
    else
      fuel ← heap_fuel;
      evict_loop fuel x86_size ;;
      p ← (fun w => Some (calloc w, w));
      match p with
      | None => mret TC_ERR_MEMORY
      | Some l => link_new_entry l arm_addr x86_code x86_size owned mmap ;; mret TC_OK
      end
  end.

Definition arm2x86_tcache_insert (cache_ptr : option unit) (arm_addr x86_code x86_size : Z) : M Z :=
  arm2x86_tcache_insert_ex cache_ptr arm_addr x86_code x86_size false false.
End Insert.

(** ** Clearing and resizing *)

Fixpoint free_chain (fuel : nat) (entry : ptr) : M unit :=
  match fuel, entry with
  | O, _ => fun _ => None
  | S _, None => mret tt
  | S fuel, Some l =>
    e ← deref l;
    let next := e_next e in
    release_code e ;;
    free_entry l ;;
    free_chain fuel next
  end.

(** [for (i = from; i < bucket_count; i++)], [n] slots. *)
Fixpoint clear_slots (n : nat) (i : Z) : M unit :=
  match n with
  | O => mret tt
  | S n =>
    entry ← read_slot i;
    fuel ← heap_fuel;
    free_chain fuel entry ;;
    write_slot i None ;;
    clear_slots n (i + 1)
  end.

Definition arm2x86_tcache_clear (cache_ptr : option unit) : M unit :=
  match cache_ptr with
  | None => mret tt
  | Some _ =>
    c ← get;
    clear_slots (Z.to_nat (bucket_count c)) 0 ;;
    put (fun c => set_counts 0 0 (set_sizes 0 0 (set_tail None (set_head None c))))
  end.

(** Move one chain into the new table, each entry to the front of its new chain. *)
Fixpoint rehash_chain (fuel : nat) (entry : ptr) (new_buckets : Z) (new_table : list ptr)
    : M (list ptr) :=
  match fuel, entry with
  | O, _ => fun _ => None
  | S _, None => mret new_table
  | S fuel, Some l =>
    e ← deref l;
    let next := e_next e in
    let new_bucket := Z.to_nat (tcache_hash_buckets (e_hash e) new_buckets) in
    match new_table !! new_bucket with
    | None => fun _ => None
    | Some first =>
      update l (set_next first) ;;
      rehash_chain fuel next new_buckets (<[new_bucket := Some l]> new_table)
    end
  end.

Fixpoint rehash_slots (n : nat) (i new_buckets : Z) (new_table : list ptr) : M (list ptr) :=
  match n with
  | O => mret new_table
  | S n =>
    entry ← read_slot i;
    fuel ← heap_fuel;
    new_table ← rehash_chain fuel entry new_buckets new_table;
    rehash_slots n (i + 1) new_buckets new_table
  end.

(** [ok]: whether the allocation of the new table succeeds. *)
Definition arm2x86_tcache_resize (ok : bool) (cache_ptr : option unit) (new_size : Z) : M Z :=
  match cache_ptr with
  | None => mret TC_ERR_INVALID_PARAM
  | Some _ =>
    let new_size := if new_size <? TCACHE_MIN_SIZE then TCACHE_MIN_SIZE else new_size in
    let new_size := if TCACHE_MAX_SIZE <? new_size then TCACHE_MAX_SIZE else new_size in
    c ← get;
    if new_size =? total_size c then mret TC_OK
    else
      let old_buckets := bucket_count c in
      let new_buckets := new_size / 8 in
      let old_buckets := if old_buckets =? 0 then TCACHE_HASH_BUCKETS else old_buckets in
      let new_buckets := if new_buckets =? 0 then TCACHE_HASH_BUCKETS else new_buckets in
      if negb ok then mret TC_ERR_MEMORY
      else
        new_table ← rehash_slots (Z.to_nat old_buckets) 0 new_buckets
                      (replicate (Z.to_nat new_buckets) None);
        put (fun c => Build_translation_cache new_table (lru_head c) (lru_tail c) new_size
               (used_size c) (entry_count c) (lookup_count c) (miss_count c) new_buckets) ;;
        mret TC_OK
  end.

Definition arm2x86_tcache_get_usage (cache_ptr : option unit) : M Z :=
  match cache_ptr with None => mret 0 | Some _ => c ← get; mret (used_size c) end.

(** Clearing frees the entries; the header and the table are freed with the cache. *)
Definition arm2x86_tcache_destroy (cache_ptr : option unit) : M unit := arm2x86_tcache_clear cache_ptr.

(** Doubles: the nearest to an integer, and the one a decimal constant denotes. *)
Definition double (n : Z) : spec_float := binary_normalize 53 1024 n 0 false.
Definition double_const (n d : Z) : spec_float := SFdiv 53 1024 (double n) (double d).
(** The conversion of a double to [size_t]. *)
Definition to_size (f : spec_float) : Z :=
  match f with S754_finite false m e => Z.pos m <<< e | _ => 0 end.

Definition TCACHE_GROW_FACTOR := double_const 3 2.
Definition TCACHE_SHRINK_FACTOR := double_const 3 4.
Definition TCACHE_HIGH_MISS_RATE := double_const 3 10.
Definition TCACHE_LOW_MISS_RATE := double_const 1 10.

Definition arm2x86_tcache_get_miss_rate (cache_ptr : option unit) : M spec_float :=
  match cache_ptr with
  | None => mret (S754_zero false)
  | Some _ =>
    c ← get;
    mret (if lookup_count c =? 0 then S754_zero false
          else SFdiv 53 1024 (double (miss_count c)) (double (lookup_count c)))
  end.

(** The size the cache should have. *)
Definition adjusted_size (miss_rate : spec_float) (c : translation_cache) : Z :=
  let total := double (total_size c) in
  if SFltb TCACHE_HIGH_MISS_RATE miss_rate && SFleb (SFmul 53 1024 total (double_const 9 10)) (double (used_size c)) then
    to_size (SFmul 53 1024 total TCACHE_GROW_FACTOR)
  else if SFltb miss_rate TCACHE_LOW_MISS_RATE && SFltb (double (used_size c)) (SFmul 53 1024 total (double_const 3 10)) then
    to_size (SFmul 53 1024 total TCACHE_SHRINK_FACTOR)
  else total_size c.

Definition arm2x86_tcache_adjust_auto (ok : bool) (cache_ptr : option unit) (miss_rate : spec_float) : M Z :=
  match cache_ptr with
  | None => mret TC_ERR_INVALID_PARAM
  | Some _ =>
    c ← get;
    let new_size := adjusted_size miss_rate c in
    if negb (new_size =? total_size c) then arm2x86_tcache_resize ok cache_ptr new_size else mret TC_OK
  end.

(** A new cache: the header [calloc] returns, with the fields the code sets. *)
Definition arm2x86_tcache_create (size hash_buckets : Z) : translation_cache :=
  let buckets := if 0 <? hash_buckets then hash_buckets else TCACHE_HASH_BUCKETS in
  Build_translation_cache (replicate (Z.to_nat buckets) None) None None
    (if 0 <? size then size else TCACHE_DEFAULT_SIZE) 0 0 0 0 buckets.

(** ** Fields of the heap *)

Definition fld {A} (f : tcache_entry -> A) (h : gmap positive tcache_entry) (l : positive) : option A :=
  f <$> h !! l.

Section fields.
Context {A : Type} (f : tcache_entry -> A).
Implicit Types (h : gmap positive tcache_entry) (l x : positive).

Lemma fld_insert_eq h l e : fld f (<[l := e]> h) l = Some (f e).
Proof. unfold fld. by rewrite lookup_insert_eq. Qed.
Lemma fld_insert_ne h l x e : x <> l -> fld f (<[l := e]> h) x = fld f h x.
Proof. intros. unfold fld. by rewrite lookup_insert_ne. Qed.
(** An assignment to another field. *)
Lemma fld_insert_same h l x e e' :
  h !! l = Some e -> f e' = f e -> fld f (<[l := e']> h) x = fld f h x.
Proof.
  intros Hl He. destruct (decide (x = l)) as [->|]; [|by apply fld_insert_ne].
  rewrite fld_insert_eq. unfold fld. by rewrite Hl, He.
Qed.
Lemma fld_delete_ne h l x : x <> l -> fld f (delete l h) x = fld f h x.
Proof. intros. unfold fld. by rewrite lookup_delete_ne. Qed.
Lemma fld_lookup h l e : h !! l = Some e -> fld f h l = Some (f e).
Proof. unfold fld. by intros ->. Qed.
Lemma fld_inv h l v : fld f h l = Some v -> exists e, h !! l = Some e /\ f e = v.
Proof. unfold fld. destruct (h !! l) eqn:E; simpl; intros; simplify_eq; eauto. Qed.
End fields.

(** [hd_or nx l]: the first element, or [nx]; [last_or p l]: the last, or [p]. *)
Definition hd_or (nx : ptr) (l : list positive) : ptr := match l with [] => nx | x :: _ => Some x end.
Definition last_or (p : ptr) (l : list positive) : ptr := match last l with Some x => Some x | None => p end.

Lemma hd_or_app nx l1 l2 : hd_or nx (l1 ++ l2) = hd_or (hd_or nx l2) l1.
Proof. by destruct l1. Qed.
Lemma last_or_snoc p l x : last_or p (l ++ [x]) = Some x.
Proof. unfold last_or. by rewrite last_snoc. Qed.
Lemma last_or_cons p x l : last_or p (x :: l) = last_or (Some x) l.
Proof. unfold last_or. rewrite last_cons. by destruct (last l). Qed.

(** ** Singly linked chains *)

Fixpoint chain (h : gmap positive tcache_entry) (l : list positive) (nx : ptr) : Prop :=
  match l with
  | [] => True
  | x :: l => fld e_next h x = Some (hd_or nx l) /\ chain h l nx
  end.

Lemma chain_frame h h' l nx :
  (forall x, x ∈ l -> fld e_next h' x = fld e_next h x) -> chain h l nx -> chain h' l nx.
Proof.
  intros Hf. induction l as [|x l IH]; cbn [chain]; [done|]. intros [Hx Hl].
  rewrite Hf by set_solver. split; [done|]. apply IH; [|done]. intros y Hy. apply Hf. set_solver.
Qed.

Lemma chain_app h l1 l2 nx : chain h (l1 ++ l2) nx <-> chain h l1 (hd_or nx l2) /\ chain h l2 nx.
Proof.
  induction l1 as [|x l1 IH]; cbn [chain app]; [tauto|].
  rewrite IH, hd_or_app. tauto.
Qed.

(** ** Doubly linked segments *)

Fixpoint dseg (h : gmap positive tcache_entry) (p : ptr) (l : list positive) (nx : ptr) : Prop :=
  match l with
  | [] => True
  | x :: l => fld e_lru_prev h x = Some p /\ fld e_lru_next h x = Some (hd_or nx l) /\
              dseg h (Some x) l nx
  end.

Lemma dseg_frame h h' p l nx :
  (forall x, x ∈ l -> fld e_lru_prev h' x = fld e_lru_prev h x /\
                      fld e_lru_next h' x = fld e_lru_next h x) ->
  dseg h p l nx -> dseg h' p l nx.
Proof.
  revert p. induction l as [|x l IH]; intros p Hf; cbn [dseg]; [done|]. intros (H1 & H2 & H3).
  destruct (Hf x) as [-> ->]; [set_solver|]. split_and!; [done..|].
  apply IH; [|done]. intros y Hy. apply Hf. set_solver.
Qed.

Lemma dseg_app h p l1 l2 nx :
  dseg h p (l1 ++ l2) nx <-> dseg h p l1 (hd_or nx l2) /\ dseg h (last_or p l1) l2 nx.
Proof.
  revert p. induction l1 as [|x l1 IH]; intros p; cbn [dseg app]; [unfold last_or; tauto|].
  rewrite IH, hd_or_app, last_or_cons. tauto.
Qed.

(** Changing what the first entry points back to, or the last one forward to. *)
Lemma dseg_set_prev h p p' x l nx e :
  h !! x = Some e -> x ∉ l -> dseg h p (x :: l) nx ->
  dseg (<[x := set_lru_prev p' e]> h) p' (x :: l) nx.
Proof.
  intros Hx Hnin (H1 & H2 & H3). cbn [dseg]. rewrite fld_insert_eq. split_and!; [done|..].
  - by rewrite (fld_insert_same _ _ _ _ e).
  - eapply dseg_frame; [|done]. intros y Hy. assert (y <> x) by (intros ->; done).
    by rewrite !fld_insert_ne.
Qed.

Lemma dseg_set_next h p l x nx nx' e :
  h !! x = Some e -> x ∉ l -> dseg h p (l ++ [x]) nx ->
  dseg (<[x := set_lru_next nx' e]> h) p (l ++ [x]) nx'.
Proof.
  intros Hx Hnin. rewrite !dseg_app. cbn [dseg hd_or]. intros (H1 & H2 & _). split_and!.
  - eapply dseg_frame; [|exact H1]. intros y Hy. assert (y <> x) by (intros ->; done).
    by rewrite !fld_insert_ne.
  - by rewrite (fld_insert_same _ _ _ _ e).
  - by rewrite fld_insert_eq.
  - done.
Qed.

(** ** The invariant *)

Definition has_addr (h : gmap positive tcache_entry) (a : Z) (l : positive) : bool :=
  match h !! l with Some e => e_arm_addr e =? a | None => false end.
Definition in_bucket (h : gmap positive tcache_entry) (n : Z) (i : nat) (l : positive) : bool :=
  match h !! l with
  | Some e => Z.to_nat (tcache_hash_buckets (tcache_hash (e_arm_addr e)) n) =? i | None => false
  end%nat.
Definition size_of (h : gmap positive tcache_entry) (l : positive) : Z :=
  match h !! l with Some e => e_x86_size e | None => 0 end.
Definition total_of (h : gmap positive tcache_entry) (l : list positive) : Z :=
  foldr Z.add 0 (map (size_of h) l).

(** The entries of bucket [i], among [ins]. *)
Definition bucket (h : gmap positive tcache_entry) (n : Z) (ins : list positive) (i : nat) : list positive :=
  List.filter (in_bucket h n i) ins.

(** A cache whose LRU list is [lru], most recent first, and whose chains hold the
    entries of [ins] in that order. *)
Record wf (w : world) (lru ins : list positive) : Prop := {
  wf_nodup : NoDup lru;
  wf_perm : ins ≡ₚ lru;
  wf_dom : forall l, is_Some (heap w !! l) <-> l ∈ lru;
  wf_hash : forall l e, heap w !! l = Some e ->
    e_hash e = tcache_hash (e_arm_addr e) /\ e_flags e &&& TCACHE_FLAG_LOCKED = 0;
  wf_dll : dseg (heap w) None lru None;
  wf_head : lru_head (cache w) = hd_or None lru;
  wf_tail : lru_tail (cache w) = last_or None lru;
  wf_buckets : 0 < bucket_count (cache w) < 2^64 /\
    length (hash_table (cache w)) = Z.to_nat (bucket_count (cache w));
  wf_chains : forall i, (i < length (hash_table (cache w)))%nat ->
    let c := bucket (heap w) (bucket_count (cache w)) ins i in
    hash_table (cache w) !! i = Some (hd_or None c) /\ chain (heap w) c None;
  wf_used : used_size (cache w) = u64 (total_of (heap w) lru);
  wf_count : entry_count (cache w) = u64 (Z.of_nat (length lru)) }.

(** ** Running the monad *)

Lemma bind_run {A B} (m : M A) (f : A -> M B) w a w' : m w = Some (a, w') -> (m ≫= f) w = f a w'.
Proof. unfold mbind, M_bind. by intros ->. Qed.
Lemma M_bind_ret {A B} (a : A) (f : A -> M B) : (mret a ≫= f) = f a.
Proof. done. Qed.

Lemma deref_run l e w : heap w !! l = Some e -> deref l w = Some (e, w).
Proof. unfold deref. by intros ->. Qed.
Lemma update_run l e f w :
  heap w !! l = Some e -> update l f w = Some (tt, set_heap (<[l := f e]> (heap w)) w).
Proof. unfold update. by intros ->. Qed.
Lemma read_slot_run i p w : hash_table (cache w) !! Z.to_nat i = Some p -> read_slot i w = Some (p, w).
Proof. unfold read_slot. by intros ->. Qed.

(** ** Consequences of the invariant *)

Section wf_facts.
Context (w : world) (lru ins : list positive) (Hwf : wf w lru ins).

Lemma wf_alloc l : l ∈ lru -> exists e, heap w !! l = Some e.
Proof. intros H. by apply (wf_dom _ _ _ Hwf) in H as [e He]; exists e. Qed.
Lemma wf_in l e : heap w !! l = Some e -> l ∈ lru.
Proof. intros H. apply (wf_dom _ _ _ Hwf). by exists e. Qed.
Lemma wf_ins_in l : l ∈ ins <-> l ∈ lru.
Proof. by rewrite (wf_perm _ _ _ Hwf). Qed.
Lemma wf_ins_nodup : NoDup ins.
Proof. rewrite (wf_perm _ _ _ Hwf). apply (wf_nodup _ _ _ Hwf). Qed.
Lemma wf_size : size (heap w) = length lru.
Proof.
  rewrite <- size_dom. replace (dom (heap w)) with (list_to_set lru : gset positive).
  - apply size_list_to_set, (wf_nodup _ _ _ Hwf).
  - apply leibniz_equiv. intros x. rewrite elem_of_list_to_set, elem_of_dom.
    symmetry. apply (wf_dom _ _ _ Hwf).
Qed.
Lemma wf_ins_length : length ins = length lru.
Proof. by rewrite (wf_perm _ _ _ Hwf). Qed.
End wf_facts.

Lemma bucket_index_range h n : 0 < n -> (Z.to_nat (tcache_hash_buckets h n) < Z.to_nat n)%nat.
Proof.
  intros Hn. unfold tcache_hash_buckets, u16.
  pose proof (Z.mod_pos_bound h n Hn). pose proof (Z.mod_le (h mod n) (2^16) ltac:(lia) ltac:(lia)).
  pose proof (Z.mod_pos_bound (h mod n) (2^16)). lia.
Qed.

Lemma filter_length_le {A} (f : A -> bool) l : (length (List.filter f l) <= length l)%nat.
Proof. induction l as [|x l IH]; cbn; [lia|]. destruct (f x); cbn; lia. Qed.

Lemma filter_filter_sub {A} (f g : A -> bool) l :
  (forall x, x ∈ l -> f x = true -> g x = true) -> List.filter f (List.filter g l) = List.filter f l.
Proof.
  intros H. induction l as [|x l IH]; cbn; [done|].
  assert (Hx := H x ltac:(set_solver)).
  destruct (g x) eqn:Eg; cbn; rewrite IH by set_solver; [done|].
  destruct (f x); [|done]. specialize (Hx eq_refl). congruence.
Qed.

(** ** Searching a chain *)

Lemma find_in_chain_run h l a w fuel :
  heap w = h -> chain h l None -> (forall x, x ∈ l -> is_Some (h !! x)) -> (length l < fuel)%nat ->
  find_in_chain fuel (hd_or None l) a w = Some (hd_or None (List.filter (has_addr h a) l), w).
Proof.
  intros Hh. revert fuel. induction l as [|x l IH]; intros [|fuel] Hc Ha Hf; cbn in Hf; try lia.
  - done.
  - cbn [hd_or find_in_chain chain] in *. destruct Hc as [Hx Hc].
    apply fld_inv in Hx as (e & He & Hnx).
    rewrite (bind_run _ _ _ e w) by (apply deref_run; by rewrite Hh).
    cbn [List.filter]. unfold has_addr at 1. rewrite He.
    destruct (e_arm_addr e =? a); [done|]. rewrite Hnx. apply IH; [done| |lia].
    intros y Hy. apply Ha. set_solver.
Qed.

(** The entry a lookup of [a] finds: the first of [ins] with that address. *)
Definition found (w : world) (ins : list positive) (a : Z) : ptr :=
  hd_or None (List.filter (has_addr (heap w) a) ins).

Lemma bucket_has_addr h n ins a :
  List.filter (has_addr h a) (bucket h n ins (Z.to_nat (tcache_hash_buckets (tcache_hash a) n)))
  = List.filter (has_addr h a) ins.
Proof.
  apply filter_filter_sub. intros x _. unfold has_addr, in_bucket.
  destruct (h !! x); [|done]. intros E. apply Z.eqb_eq in E. rewrite E. apply Nat.eqb_refl.
Qed.

(** The invariant only looks at some fields. *)
Definition same_fields (h h' : gmap positive tcache_entry) : Prop :=
  forall l, fld e_next h' l = fld e_next h l /\ fld e_lru_prev h' l = fld e_lru_prev h l /\
    fld e_lru_next h' l = fld e_lru_next h l /\ fld e_arm_addr h' l = fld e_arm_addr h l /\
    fld e_x86_size h' l = fld e_x86_size h l /\ fld e_hash h' l = fld e_hash h l /\
    fld (fun e => e_flags e &&& TCACHE_FLAG_LOCKED) h' l = fld (fun e => e_flags e &&& TCACHE_FLAG_LOCKED) h l.

Lemma same_addr_bucket h h' n ins i :
  (forall l, l ∈ ins -> fld e_arm_addr h' l = fld e_arm_addr h l) -> bucket h' n ins i = bucket h n ins i.
Proof.
  intros H. unfold bucket. induction ins as [|x l IH]; cbn; [done|].
  rewrite IH by set_solver. specialize (H x ltac:(set_solver)).
  unfold in_bucket, fld in *. destruct (h' !! x), (h !! x); try done.
  injection H as H. by rewrite H.
Qed.

Lemma same_size_total h h' l :
  (forall x, x ∈ l -> fld e_x86_size h' x = fld e_x86_size h x) -> total_of h' l = total_of h l.
Proof.
  intros H. induction l as [|x l IH]; [done|]. unfold total_of in *. cbn [map foldr].
  rewrite IH by set_solver. f_equal. specialize (H x ltac:(set_solver)).
  unfold size_of, fld in *. destruct (h' !! x), (h !! x); cbn in H; congruence.
Qed.

Lemma same_is_some {A} (f : tcache_entry -> A) (h h' : gmap positive tcache_entry) l :
  fld f h' l = fld f h l -> is_Some (h' !! l) <-> is_Some (h !! l).
Proof.
  unfold fld. destruct (h !! l), (h' !! l); cbn; try done; intros _; split; eauto.
Qed.

Lemma wf_same_fields w w' lru ins :
  wf w lru ins -> same_fields (heap w) (heap w') ->
  hash_table (cache w') = hash_table (cache w) -> lru_head (cache w') = lru_head (cache w) ->
  lru_tail (cache w') = lru_tail (cache w) -> bucket_count (cache w') = bucket_count (cache w) ->
  used_size (cache w') = used_size (cache w) -> entry_count (cache w') = entry_count (cache w) ->
  wf w' lru ins.
Proof.
  intros Hwf Hs Ht Hh Htl Hb Hu Hc. split; rewrite ?Ht, ?Hh, ?Htl, ?Hb, ?Hu, ?Hc; try apply Hwf.
  - intros l. rewrite <- (wf_dom _ _ _ Hwf l). apply (same_is_some e_next). apply Hs.
  - intros l e' He'. destruct (Hs l) as (_ & _ & _ & Ha & _ & Hh' & Hf).
    unfold fld in *. rewrite He' in *. cbn in *.
    destruct (heap w !! l) as [e|] eqn:He; [|done]. cbn in *. simplify_eq.
    destruct (wf_hash _ _ _ Hwf l e He). split; congruence.
  - eapply dseg_frame; [|apply Hwf]. intros x _. split; apply Hs.
  - intros i Hi. rewrite (same_addr_bucket (heap w)) by (intros; apply Hs).
    destruct (wf_chains _ _ _ Hwf i Hi) as [H1 H2]. split; [done|].
    eapply chain_frame; [|done]. intros x _. apply Hs.
  - rewrite (wf_used _ _ _ Hwf). f_equal. symmetry. apply same_size_total. intros x _. apply Hs.
Qed.

(** ** Relinking the LRU list *)

(** Everything an entry holds besides its LRU neighbours. *)
Definition data (e : tcache_entry) : ptr * Z * Z * Z * Z * Z * Z :=
  (e_next e, e_arm_addr e, e_x86_code e, e_x86_size e, e_exec_count e, e_flags e, e_hash e).
Definition same_data (h h' : gmap positive tcache_entry) : Prop := forall l, fld data h' l = fld data h l.

Lemma same_data_refl h : same_data h h.
Proof. done. Qed.
Lemma same_data_trans h1 h2 h3 : same_data h1 h2 -> same_data h2 h3 -> same_data h1 h3.
Proof. intros H1 H2 l. by rewrite H2. Qed.
Lemma same_data_update h l e e' :
  h !! l = Some e -> data e' = data e -> same_data h (<[l := e']> h).
Proof. intros Hl He x. by apply (fld_insert_same data _ _ _ e). Qed.

Lemma same_data_field_at {A} (g : ptr * Z * Z * Z * Z * Z * Z -> A) h h' l :
  fld data h' l = fld data h l -> fld (fun e => g (data e)) h' l = fld (fun e => g (data e)) h l.
Proof. unfold fld. destruct (h' !! l), (h !! l); cbn in *; congruence. Qed.
Lemma same_data_field {A} (g : ptr * Z * Z * Z * Z * Z * Z -> A) h h' l :
  same_data h h' -> fld (fun e => g (data e)) h' l = fld (fun e => g (data e)) h l.
Proof.
  intros H. apply same_data_field_at, H.
Qed.
Lemma same_data_next h h' l : same_data h h' -> fld e_next h' l = fld e_next h l.
Proof. intros H. exact (same_data_field (fun d => d.1.1.1.1.1.1) h h' l H). Qed.
Lemma same_data_addr h h' l : same_data h h' -> fld e_arm_addr h' l = fld e_arm_addr h l.
Proof. intros H. exact (same_data_field (fun d => d.1.1.1.1.1.2) h h' l H). Qed.
Lemma same_data_size h h' l : same_data h h' -> fld e_x86_size h' l = fld e_x86_size h l.
Proof. intros H. exact (same_data_field (fun d => d.1.1.1.2) h h' l H). Qed.

#[export] Instance total_of_proper h : Proper ((≡ₚ) ==> (=)) (total_of h).
Proof. intros l1 l2 H. induction H; unfold total_of in *; cbn in *; lia. Qed.

Lemma wf_relink w lru ins h' lru' hd tl :
  wf w lru ins -> same_data (heap w) h' -> lru' ≡ₚ lru -> dseg h' None lru' None ->
  hd = hd_or None lru' -> tl = last_or None lru' ->
  wf (set_heap h' (set_cache (set_head hd (set_tail tl (cache w))) w)) lru' ins.
Proof.
  intros Hwf Hs Hp Hd -> ->. split; cbn [heap cache set_heap set_cache set_head set_tail
    lru_head lru_tail hash_table bucket_count used_size entry_count]; try done.
  - rewrite Hp. apply Hwf.
  - rewrite Hp. apply Hwf.
  - intros l. rewrite Hp, <- (wf_dom _ _ _ Hwf l). apply (same_is_some data), Hs.
  - intros l e' He'. specialize (Hs l). unfold fld in Hs. rewrite He' in Hs.
    destruct (heap w !! l) as [e|] eqn:He; [|done]. unfold data in Hs. cbn in Hs. simplify_eq.
    destruct (wf_hash _ _ _ Hwf l e He). split; congruence.
  - apply Hwf.
  - intros i Hi. rewrite (same_addr_bucket (heap w)) by (intros; by apply same_data_addr).
    destruct (wf_chains _ _ _ Hwf i Hi) as [H1 H2]. split; [done|].
    eapply chain_frame; [|done]. intros x _. by apply same_data_next.
  - rewrite (wf_used _ _ _ Hwf). f_equal.
    rewrite (same_size_total (heap w) h') by (intros; by apply same_data_size).
    by rewrite Hp.
  - rewrite (wf_count _ _ _ Hwf). by rewrite Hp.
Qed.

Lemma last_cases (l : list positive) : l = [] \/ exists l' x, l = l' ++ [x].
Proof. destruct l as [|x l] using rev_ind; [by left | right; eauto]. Qed.

(** The world with another heap and other list ends. *)
Definition relinked (w : world) h hd tl : world :=
  set_heap h (set_cache (set_head hd (set_tail tl (cache w))) w).
Lemma relinked_twice w h hd tl h' hd' tl' :
  relinked (relinked w h hd tl) h' hd' tl' = relinked w h' hd' tl'.
Proof. done. Qed.
Lemma relinked_same w : relinked w (heap w) (lru_head (cache w)) (lru_tail (cache w)) = w.
Proof. by destruct w as [? [] ? ? ?]. Qed.

Lemma update_relinked x e f w h hd tl :
  h !! x = Some e ->
  update x f (relinked w h hd tl) = Some (tt, relinked w (<[x := f e]> h) hd tl).
Proof. intros H. unfold update. cbn. by rewrite H. Qed.
Lemma deref_relinked x e w h hd tl :
  h !! x = Some e -> deref x (relinked w h hd tl) = Some (e, relinked w h hd tl).
Proof. apply (deref_run x e (relinked w h hd tl)). Qed.

(** An update of the first entry's back pointer, or nothing for an empty list. *)
Lemma update_hd_run w h hd tl p p' L :
  dseg h p L None -> NoDup L -> (forall x, x ∈ L -> is_Some (h !! x)) ->
  exists h', update_ptr (hd_or None L) (set_lru_prev p') (relinked w h hd tl)
               = Some (tt, relinked w h' hd tl) /\
    same_data h h' /\ dseg h' p' L None /\ (forall x, x ∉ L -> h' !! x = h !! x).
Proof.
  intros Hd Hnd Ha. destruct L as [|x L]; [by exists h|].
  apply NoDup_cons in Hnd as [Hx Hnd]. destruct (Ha x) as [e He]; [set_solver|].
  exists (<[x := set_lru_prev p' e]> h). cbn [hd_or update_ptr]. split_and!.
  - by apply update_relinked.
  - by eapply same_data_update.
  - by eapply dseg_set_prev.
  - intros y Hy. rewrite lookup_insert_ne; [done|]. set_solver.
Qed.

Lemma link_front_run w h tl L l e :
  dseg h None L None -> NoDup L -> l ∉ L -> (forall x, x ∈ L -> is_Some (h !! x)) ->
  h !! l = Some e ->
  exists h', link_front l (relinked w h (hd_or None L) tl) = Some (tt, relinked w h' (Some l) tl) /\
    same_data h h' /\ dseg h' None (l :: L) None.
Proof.
  intros Hd Hnd Hl Ha He. unfold link_front.
  rewrite (bind_run get _ _ (cache (relinked w h (hd_or None L) tl)) (relinked w h (hd_or None L) tl))
    by done. cbn [cache relinked lru_head set_heap set_cache set_head].
  set (e1 := set_lru_prev None e). set (e2 := set_lru_next (hd_or None L) e1).
  rewrite (bind_run _ _ _ tt _ (update_relinked _ _ _ _ _ _ _ He)). fold e1.
  rewrite (bind_run _ _ _ tt _ (update_relinked l e1 _ _ _ _ _ (lookup_insert_eq _ _ _))). fold e2.
  rewrite insert_insert_eq.
  assert (Hd2 : dseg (<[l := e2]> h) None L None).
  { eapply dseg_frame; [|exact Hd]. intros x Hx. rewrite !fld_insert_ne by set_solver. done. }
  destruct (update_hd_run w (<[l := e2]> h) (hd_or None L) tl None (Some l) L) as (h' & Hr & Hs & Hd' & Hf);
    [done | done | intros x Hx; rewrite lookup_insert_ne by set_solver; by apply Ha|].
  rewrite (bind_run _ _ _ tt _ Hr). exists h'. split_and!; [done| |].
  - eapply same_data_trans; [by apply (same_data_update h l e e2)|done].
  - cbn [dseg]. assert (El : h' !! l = Some e2) by (rewrite Hf by done; apply lookup_insert_eq).
    split_and!; [by rewrite (fld_lookup _ _ _ _ El) .. |done].
Qed.

Lemma unlink_lru_run w h hd L b l l2 :
  let L1 := L ++ [b] in
  NoDup (L1 ++ l :: l2) -> dseg h None (L1 ++ l :: l2) None ->
  (forall x, x ∈ L1 ++ l :: l2 -> is_Some (h !! x)) ->
  exists h', unlink_lru l (relinked w h hd (last_or None (L1 ++ l :: l2)))
      = Some (tt, relinked w h' hd (last_or None (L1 ++ l2))) /\
    same_data h h' /\ dseg h' None (L1 ++ l2) None.
Proof.
  intros L1 Hnd Hd Ha.
  assert (Hdj : b <> l /\ b ∉ L /\ b ∉ l2 /\ l ∉ L1 /\ l ∉ l2 /\ NoDup l2 /\ (forall x, x ∈ L1 -> x ∉ l2)).
  { unfold L1 in *. change (l :: l2) with ([l] ++ l2) in Hnd. rewrite !NoDup_app in Hnd. set_solver. }
  destruct Hdj as (Hbl & HbL & Hb2 & HlL & Hl2 & Hnd2 & Hdj).
  destruct (Ha l) as [e He]; [set_solver|]. destruct (Ha b) as [eb Heb]; [unfold L1; set_solver|].
  apply dseg_app in Hd as [Hd1 Hd2]. cbn [hd_or dseg] in Hd1, Hd2. destruct Hd2 as (Hp & Hn & Hd2).
  rewrite (fld_lookup _ _ _ _ He) in Hp. rewrite (fld_lookup _ _ _ _ He) in Hn. injection Hp as Hp. injection Hn as Hn.
  unfold L1 in Hp. rewrite last_or_snoc in Hp. unfold unlink_lru.
  set (tl := last_or None (L1 ++ l :: l2)).
  rewrite (bind_run _ _ _ e _ (deref_relinked l e w h hd tl He)). rewrite Hp, Hn. cbn [update_ptr].
  rewrite (bind_run _ _ _ tt _ (update_relinked b eb _ w h hd tl Heb)).
  set (h1 := <[b := set_lru_next (hd_or None l2) eb]> h).
  assert (He1 : h1 !! l = Some e) by (unfold h1; by rewrite lookup_insert_ne).
  rewrite (bind_run _ _ _ e _ (deref_relinked l e w h1 hd tl He1)). rewrite Hp, Hn.
  assert (Hd3 : dseg h1 (Some l) l2 None).
  { eapply dseg_frame; [|exact Hd2]. intros x Hx. unfold h1. rewrite !fld_insert_ne by set_solver. done. }
  destruct (update_hd_run w h1 hd tl (Some l) (Some b) l2) as (h2 & Hr & Hs & Hd4 & Hf); [done..| |].
  { intros x Hx. unfold h1. rewrite lookup_insert_ne by set_solver. apply Ha. set_solver. }
  rewrite (bind_run _ _ _ tt _ Hr).
  assert (He2 : h2 !! l = Some e) by (by rewrite Hf).
  rewrite (bind_run _ _ _ e _ (deref_relinked l e w h2 hd tl He2)). rewrite Hp.
  rewrite (bind_run get _ _ (cache (relinked w h2 hd tl)) (relinked w h2 hd tl)) by done.
  exists h2. split_and!.
  - cbn [cache relinked lru_tail set_heap set_cache set_head set_tail]. unfold tl.
    destruct (last_cases l2) as [->|(l2' & z & ->)].
    + unfold L1. rewrite last_or_snoc, decide_True by done. rewrite app_nil_r, last_or_snoc. done.
    + rewrite app_comm_cons, !app_assoc, !last_or_snoc. rewrite decide_False; [done|].
      intros [= ->]. set_solver.
  - eapply same_data_trans; [|exact Hs]. by eapply same_data_update.
  - apply dseg_app. unfold L1. rewrite last_or_snoc. split; [|done].
    eapply (dseg_frame h1).
    + intros x Hx. unfold fld. rewrite Hf; [done|]. by apply Hdj.
    + apply dseg_set_next with (nx := Some l); [done|done|]. by unfold L1 in Hd1.
Qed.

Lemma move_to_front_run w l1 l l2 ins :
  wf w (l1 ++ l :: l2) ins ->
  exists w', move_to_front l w = Some (tt, w') /\ wf w' (l :: l1 ++ l2) ins /\
    exists h' hd tl, w' = relinked w h' hd tl /\ same_data (heap w) h'.
Proof.
  intros Hwf. unfold move_to_front.
  rewrite (bind_run get _ _ (cache w) w) by done. rewrite (wf_head _ _ _ Hwf).
  destruct l1 as [|a l1].
  { cbn [app hd_or]. rewrite decide_True by done.
    exists w. split_and!; [done..|]. do 3 eexists. by rewrite relinked_same. }
  pose proof (wf_nodup _ _ _ Hwf) as Hnd.
  assert (Ha : forall x, x ∈ (a :: l1) ++ l :: l2 -> is_Some (heap w !! x))
    by (intros x Hx; by apply (wf_dom _ _ _ Hwf)).
  destruct (last_cases (a :: l1)) as [E|(L & b & E)]; [done|].
  assert (Hhd : hd_or None ((a :: l1) ++ l :: l2) = hd_or None ((a :: l1) ++ l2)) by done.
  assert (Hal : a <> l).
  { intros ->. cbn [app] in Hnd. apply NoDup_cons in Hnd as [Hn _]. set_solver. }
  rewrite decide_False by (cbn; congruence).
  pose proof (wf_dll _ _ _ Hwf) as Hd.
  pose proof (relinked_same w) as Hw. rewrite (wf_head _ _ _ Hwf), (wf_tail _ _ _ Hwf) in Hw.
  match goal with |- exists w', ?f w = _ /\ _ => enough (exists w',
    f (relinked w (heap w) (hd_or None ((a :: l1) ++ l :: l2)) (last_or None ((a :: l1) ++ l :: l2)))
    = Some (tt, w') /\ wf w' (l :: (a :: l1) ++ l2) ins /\
    exists h' hd tl, w' = relinked w h' hd tl /\ same_data (heap w) h') by (by rewrite Hw in *) end.
  rewrite Hhd. clear Hhd Hw. rewrite E in *.
  destruct (unlink_lru_run w (heap w) (hd_or None ((L ++ [b]) ++ l2)) L b l l2 Hnd Hd Ha)
    as (h1 & Hr1 & Hs1 & Hd1).
  rewrite (bind_run _ _ _ tt _ Hr1).
  destruct (Ha l) as [e He]; [set_solver|].
  assert (Hsl : forall x, is_Some (heap w !! x) -> is_Some (h1 !! x))
    by (intros x; apply (same_is_some data), Hs1).
  destruct (Hsl l) as [e1 He1]; [rewrite He; eauto|].
  assert (Hnd' : l ∉ (L ++ [b]) ++ l2 /\ NoDup ((L ++ [b]) ++ l2)).
  { apply NoDup_cons. by rewrite Permutation_middle. }
  destruct (link_front_run w h1 (last_or None ((L ++ [b]) ++ l2)) ((L ++ [b]) ++ l2) l e1)
    as (h2 & Hr2 & Hs2 & Hd2); [done|apply Hnd'|apply Hnd'| |done|].
  { intros x Hx. apply Hsl, Ha. set_solver. }
  rewrite Hr2. eexists. split; [done|].
  assert (Hs : same_data (heap w) h2) by (by eapply same_data_trans).
  split; [|by do 3 eexists].
  apply (wf_relink w ((L ++ [b]) ++ l :: l2)); [done|done| |done|done|].
  - by rewrite Permutation_middle.
  - rewrite last_or_cons. destruct (last_cases ((L ++ [b]) ++ l2)) as [E2|(? & ? & ->)].
    + by destruct L.
    + by rewrite !last_or_snoc.
Qed.

(** ** Lookup *)

Lemma found_in w lru ins a l :
  wf w lru ins -> found w ins a = Some l ->
  l ∈ lru /\ exists e, heap w !! l = Some e /\ e_arm_addr e = a.
Proof.
  intros Hwf. unfold found. destruct (List.filter _ ins) as [|x fl] eqn:E; [done|].
  cbn. intros [= ->].
  assert (Hin : In l (List.filter (has_addr (heap w) a) ins)) by (rewrite E; by left).
  apply filter_In in Hin as [Hin Hf]. unfold has_addr in Hf. split.
  - apply (wf_ins_in _ _ _ Hwf). by apply list_elem_of_In.
  - destruct (heap w !! l) as [e|]; [|done]. exists e. split; [done|]. by apply Z.eqb_eq.
Qed.

(** The chain of an address holds the entries of its bucket. *)
Lemma wf_chain_of w lru ins a :
  wf w lru ins ->
  let i := tcache_hash_buckets (tcache_hash a) (bucket_count (cache w)) in
  let c := bucket (heap w) (bucket_count (cache w)) ins (Z.to_nat i) in
  hash_table (cache w) !! Z.to_nat i = Some (hd_or None c) /\ chain (heap w) c None.
Proof.
  intros Hwf i c. apply (wf_chains _ _ _ Hwf). destruct (wf_buckets _ _ _ Hwf) as [H1 H2].
  rewrite H2. apply bucket_index_range. lia.
Qed.

Lemma bucket_in h n ins i x : x ∈ bucket h n ins i -> x ∈ ins.
Proof. unfold bucket. rewrite !list_elem_of_In, filter_In. tauto. Qed.

Lemma wf_fuel w lru ins n i :
  wf w lru ins -> (length (bucket (heap w) n ins i) < S (size (heap w)))%nat.
Proof.
  intros Hwf. rewrite (wf_size _ _ _ Hwf), <- (wf_ins_length _ _ _ Hwf).
  pose proof (filter_length_le (in_bucket (heap w) n i) ins). unfold bucket. lia.
Qed.

Lemma count_use_fields e :
  e_next (count_use e) = e_next e /\ e_lru_prev (count_use e) = e_lru_prev e /\
  e_lru_next (count_use e) = e_lru_next e /\ e_arm_addr (count_use e) = e_arm_addr e /\
  e_x86_code (count_use e) = e_x86_code e /\
  e_x86_size (count_use e) = e_x86_size e /\ e_hash (count_use e) = e_hash e /\
  e_flags (count_use e) &&& TCACHE_FLAG_LOCKED = e_flags e &&& TCACHE_FLAG_LOCKED.
Proof.
  unfold count_use. destruct (_ <=? _); cbn; split_and!; try done.
  rewrite Z.land_lor_distr_l. change (TCACHE_FLAG_HOT &&& TCACHE_FLAG_LOCKED) with 0. apply Z.lor_0_r.
Qed.

Lemma count_use_same h l e : h !! l = Some e -> same_fields h (<[l := count_use e]> h).
Proof.
  intros He x. destruct (count_use_fields e) as (?&?&?&?&?&?&?&?).
  split_and!; eapply fld_insert_same; done.
Qed.

Lemma lookup_spec w lru ins a :
  wf w lru ins ->
  exists w', arm2x86_tcache_lookup (Some tt) a w = Some (found w ins a, w') /\
    lookup_count (cache w') = u64 (lookup_count (cache w) + 1) /\
    match found w ins a with
    | None => wf w' lru ins /\ heap w' = heap w /\
        miss_count (cache w') = u64 (miss_count (cache w) + 1)
    | Some l => exists l1 l2 e, lru = l1 ++ l :: l2 /\ wf w' (l :: l1 ++ l2) ins /\
        miss_count (cache w') = miss_count (cache w) /\
        heap w !! l = Some e /\ e_arm_addr e = a /\
        fld data (heap w') l = Some (data (count_use e)) /\
        (forall x, x <> l -> fld data (heap w') x = fld data (heap w) x)
    end.
Proof.
  intros Hwf. unfold arm2x86_tcache_lookup, tcache_lookup_internal. cbv zeta.
  rewrite (bind_run get _ _ (cache w) w) by done.
  destruct (wf_chain_of w lru ins a Hwf) as [Hslot Hchain]. cbv zeta in *.
  set (i := tcache_hash_buckets _ _) in *.
  rewrite (bind_run _ _ _ _ _ (read_slot_run _ _ _ Hslot)).
  set (c1 := set_counts (u64 (lookup_count (cache w) + 1)) (miss_count (cache w)) (cache w)).
  set (w1 := set_cache c1 w).
  rewrite (bind_run (put _) _ _ tt w1) by done.
  rewrite (bind_run heap_fuel _ _ (S (size (heap w))) w1) by done.
  assert (Hfind : find_in_chain (S (size (heap w))) (hd_or None (bucket (heap w) (bucket_count (cache w)) ins (Z.to_nat i))) a w1
    = Some (found w ins a, w1)).
  { rewrite (find_in_chain_run (heap w)); [|done|done| |by eapply wf_fuel].
    - unfold i. by rewrite bucket_has_addr.
    - intros x Hx%bucket_in. apply (wf_dom _ _ _ Hwf). by apply (wf_ins_in _ _ _ Hwf). }
  rewrite (bind_run _ _ _ _ _ Hfind).
  assert (Hwf1 : wf w1 lru ins) by (eapply wf_same_fields; [exact Hwf|by intros ?|done..]).
  destruct (found w ins a) as [l|] eqn:Ef.
  - destruct (found_in w lru ins a l Hwf Ef) as (Hl & e & He & Hea).
    rewrite (bind_run _ _ _ tt _ (update_run l e count_use w1 He)).
    set (w2 := set_heap _ w1).
    assert (Hwf2 : wf w2 lru ins).
    { eapply wf_same_fields; [exact Hwf1|by apply count_use_same|done..]. }
    apply list_elem_of_split in Hl as (l1 & l2 & ->).
    destruct (move_to_front_run w2 l1 l l2 ins Hwf2) as (w' & Hr & Hwf' & h' & hd & tl & -> & Hs).
    rewrite (bind_run _ _ _ _ _ Hr). eexists. split; [done|]. split; [done|].
    exists l1, l2, e. split_and!; try done.
    + cbn [heap relinked set_heap set_cache]. rewrite Hs. cbn. apply fld_insert_eq.
    + intros x Hx. cbn [heap relinked set_heap set_cache]. rewrite Hs. cbn. by apply fld_insert_ne.
  - eexists. split; [done|]. split; [done|]. split_and!; [|done..].
    eapply wf_same_fields; [exact Hwf1|by intros ?|done..].
Qed.

(** C8: looking up an address follows no dangling pointer and terminates on every
    well-formed cache.  It returns the first entry of the insertion order with that
    address, or NULL when there is none; a hit becomes the head of the LRU list with
    the others in their old order, its use count grows by one and it is marked hot
    from the third use on, and no other entry's data changes; hits and misses are
    counted.  The cache stays well formed. *)
Theorem tcache_lookup_correct w lru ins a :
  wf w lru ins ->
  exists w', arm2x86_tcache_lookup (Some tt) a w = Some (found w ins a, w') /\
    lookup_count (cache w') = u64 (lookup_count (cache w) + 1) /\
    match found w ins a with
    | None => wf w' lru ins /\ heap w' = heap w /\
        miss_count (cache w') = u64 (miss_count (cache w) + 1)
    | Some l => exists l1 l2 e, lru = l1 ++ l :: l2 /\ wf w' (l :: l1 ++ l2) ins /\
        miss_count (cache w') = miss_count (cache w) /\
        heap w !! l = Some e /\ e_arm_addr e = a /\
        fld data (heap w') l = Some (data (count_use e)) /\
        (forall x, x <> l -> fld data (heap w') x = fld data (heap w) x)
    end.
Proof. exact (lookup_spec w lru ins a). Qed.

(** The empty cache [arm2x86_tcache_create] returns. *)
Definition fresh_world (size hash_buckets : Z) : world :=
  Build_world ∅ (arm2x86_tcache_create size hash_buckets) [] (fun _ => 0) [].

Lemma bucket_nil h n i : bucket h n [] i = [].
Proof. done. Qed.

Lemma create_wf size hash_buckets :
  hash_buckets < 2^64 -> wf (fresh_world size hash_buckets) [] [].
Proof.
  intros Hb. split; cbn; try done.
  - constructor.
  - intros l. split; [by intros [? ?] | by intros ?%elem_of_nil].
  - unfold TCACHE_HASH_BUCKETS. destruct (0 <? hash_buckets) eqn:E.
    + apply Z.ltb_lt in E. rewrite length_replicate. split; [lia|done].
    + rewrite length_replicate. split; [lia|done].
  - intros i Hi. rewrite length_replicate in Hi. split; [|done]. by apply lookup_replicate_2.
Qed.


(** ** Taking an entry out of its chain *)

Definition last_link (k : link) (c : list positive) : link :=
  match last c with Some x => NextOf x | None => k end.

Lemma last_link_cons k x c : last_link k (x :: c) = last_link (NextOf x) c.
Proof. unfold last_link. rewrite last_cons. by destruct (last c). Qed.

Lemma read_next_run x e w : heap w !! x = Some e -> read_link (NextOf x) w = Some (e_next e, w).
Proof. intros H. cbn [read_link]. by rewrite (bind_run _ _ _ e w (deref_run _ _ _ H)). Qed.

Lemma find_link_run w l c2 fuel c1 k :
  read_link k w = Some (hd_or None (c1 ++ l :: c2), w) ->
  chain (heap w) (c1 ++ l :: c2) None -> l ∉ c1 -> (length c1 < fuel)%nat ->
  find_link fuel k l w = Some (last_link k c1, w) /\
  read_link (last_link k c1) w = Some (Some l, w).
Proof.
  revert fuel k. induction c1 as [|x c1 IH]; intros [|fuel] k Hk Hc Hl Hf; cbn in Hf; try lia.
  - cbn [find_link]. rewrite (bind_run _ _ _ _ _ Hk). cbn [app hd_or]. by rewrite decide_True.
  - cbn [find_link]. rewrite (bind_run _ _ _ _ _ Hk). cbn [app hd_or]. cbn [app chain] in Hc.
    destruct Hc as [Hx Hc]. apply fld_inv in Hx as (ex & Hex & Hnx).
    rewrite decide_False by set_solver. rewrite last_link_cons. apply IH; [|done|set_solver|lia].
    by rewrite (read_next_run _ _ _ Hex), Hnx.
Qed.

Lemma chain_remove h c1 x l c2 e ex :
  NoDup ((c1 ++ [x]) ++ l :: c2) -> chain h ((c1 ++ [x]) ++ l :: c2) None ->
  h !! l = Some e -> h !! x = Some ex ->
  chain (<[x := set_next (e_next e) ex]> h) ((c1 ++ [x]) ++ c2) None.
Proof.
  intros Hnd Hc He Hx. rewrite <- app_assoc in *. cbn [app] in *.
  apply NoDup_app in Hnd as (Hnd1 & Hdj & Hnd2).
  apply chain_app in Hc as [Hc1 Hc2]. cbn [chain hd_or] in *.
  destruct Hc2 as (Hx1 & Hl & Hc2). apply chain_app. cbn [chain hd_or].
  rewrite (fld_lookup _ _ _ _ He) in Hl. injection Hl as Hl.
  split_and!.
  - eapply chain_frame; [|exact Hc1]. intros y Hy. apply fld_insert_ne. set_solver.
  - rewrite fld_insert_eq. cbn. by rewrite Hl.
  - eapply chain_frame; [|exact Hc2]. intros y Hy. apply fld_insert_ne.
    apply NoDup_cons in Hnd2 as [Hn _]. set_solver.
Qed.

(** The data of an entry that evictions of others leave alone. *)
Definition payload (e : tcache_entry) : Z * Z * Z * Z * Z * Z :=
  (e_arm_addr e, e_x86_code e, e_x86_size e, e_exec_count e, e_flags e, e_hash e).

Lemma same_payload_field {A} (g : Z * Z * Z * Z * Z * Z -> A) h h' l :
  fld payload h' l = fld payload h l -> fld (fun e => g (payload e)) h' l = fld (fun e => g (payload e)) h l.
Proof. unfold fld. destruct (h' !! l), (h !! l); cbn in *; congruence. Qed.

(** [ins] without [l]. *)
Definition without (l : positive) (ins : list positive) : list positive :=
  List.filter (fun x => negb (bool_decide (x = l))) ins.

Lemma without_notin l ins : l ∉ ins -> without l ins = ins.
Proof.
  intros H. induction ins as [|x ins IH]; [done|]. unfold without in *. cbn.
  rewrite bool_decide_false by set_solver. cbn. rewrite IH by set_solver. done.
Qed.
Lemma without_middle l c1 c2 : l ∉ c1 -> l ∉ c2 -> without l (c1 ++ l :: c2) = c1 ++ c2.
Proof.
  intros H1 H2. unfold without. rewrite List.filter_app. cbn. rewrite bool_decide_true by done. cbn.
  fold (without l c1) (without l c2). by rewrite !without_notin.
Qed.
Lemma elem_of_without l ins x : x ∈ without l ins <-> x ∈ ins /\ x <> l.
Proof.
  unfold without. rewrite !list_elem_of_In, filter_In, negb_true_iff, bool_decide_eq_false. done.
Qed.
Lemma without_perm l ins L : NoDup (L ++ [l]) -> ins ≡ₚ L ++ [l] -> without l ins ≡ₚ L.
Proof.
  intros Hnd Hp. assert (Hl : l ∈ ins) by (rewrite Hp; set_solver).
  assert (Hnd' : NoDup ins) by (by rewrite Hp).
  apply list_elem_of_split in Hl as (c1 & c2 & ->).
  assert (Hd : l ∉ c1 ++ c2) by (apply NoDup_cons; by rewrite Permutation_middle).
  rewrite without_middle by set_solver.
  apply (Permutation_cons_inv (a := l)). rewrite Permutation_middle, Hp. by rewrite Permutation_app_comm.
Qed.

Lemma bucket_without h n l ins i : bucket h n (without l ins) i = without l (bucket h n ins i).
Proof.
  unfold bucket, without. induction ins as [|x ins IH]; [done|]. cbn.
  destruct (bool_decide _) eqn:E1, (in_bucket h n i x) eqn:E2; cbn; rewrite ?E1, ?E2, IH; done.
Qed.

Lemma in_own_bucket h n e l ins :
  h !! l = Some e -> l ∈ ins ->
  l ∈ bucket h n ins (Z.to_nat (tcache_hash_buckets (tcache_hash (e_arm_addr e)) n)).
Proof.
  intros He Hl. unfold bucket. apply list_elem_of_In, filter_In. split; [by apply list_elem_of_In|].
  unfold in_bucket. rewrite He. apply Nat.eqb_refl.
Qed.
Lemma bucket_unique h n ins i j x : x ∈ bucket h n ins i -> x ∈ bucket h n ins j -> i = j.
Proof.
  unfold bucket. rewrite !list_elem_of_In, !filter_In. unfold in_bucket.
  destruct (h !! x); [|naive_solver]. intros [_ H1] [_ H2].
  apply Nat.eqb_eq in H1, H2. congruence.
Qed.
Lemma NoDup_lfilter {A} (f : A -> bool) l : NoDup l -> NoDup (List.filter f l).
Proof. rewrite !NoDup_ListNoDup. apply List.NoDup_filter. Qed.



Lemma chain_split w lru ins l e :
  wf w lru ins -> heap w !! l = Some e ->
  let n := bucket_count (cache w) in
  let i := tcache_hash_buckets (e_hash e) n in
  exists c1 c2, bucket (heap w) n ins (Z.to_nat i) = c1 ++ l :: c2 /\
    NoDup (c1 ++ l :: c2) /\ l ∉ c1 /\ l ∉ c2 /\ e_next e = hd_or None c2 /\
    chain (heap w) (c1 ++ l :: c2) None /\ (length c1 < S (size (heap w)))%nat /\
    hash_table (cache w) !! Z.to_nat i = Some (hd_or None (c1 ++ l :: c2)).
Proof.
  intros Hwf He n i.
  destruct (wf_hash _ _ _ Hwf l e He) as [Hh _].
  destruct (wf_chain_of w lru ins (e_arm_addr e) Hwf) as [Hslot Hchain]. cbv zeta in *.
  rewrite <- Hh in Hslot, Hchain. fold n i in Hslot, Hchain.
  assert (Hl : l ∈ bucket (heap w) n ins (Z.to_nat i)).
  { unfold i. rewrite Hh. apply in_own_bucket; [done|].
    apply (wf_ins_in _ _ _ Hwf). by eapply wf_in. }
  pose proof (wf_fuel w lru ins n (Z.to_nat i) Hwf) as Hfuel.
  assert (Hnd : NoDup (bucket (heap w) n ins (Z.to_nat i)))
    by (apply NoDup_lfilter; by eapply wf_ins_nodup).
  apply list_elem_of_split in Hl as (c1 & c2 & E). rewrite E in *. exists c1, c2.
  assert (Hd : l ∉ c1 ++ c2) by (apply NoDup_cons; by rewrite Permutation_middle).
  rewrite length_app in Hfuel. split_and!; try done; [set_solver|set_solver| |lia].
  apply chain_app in Hchain as [_ Hc]. cbn [chain] in Hc. destruct Hc as [Hc _].
  rewrite (fld_lookup _ _ _ _ He) in Hc. by injection Hc.
Qed.

(** ** Eviction *)

Lemma unlink_tail_run w h L l e tl :
  NoDup (L ++ [l]) -> dseg h None (L ++ [l]) None ->
  (forall x, x ∈ L ++ [l] -> is_Some (h !! x)) -> h !! l = Some e ->
  e_lru_prev e = last_or None L /\
  exists h1, unlink_tail (last_or None L) (relinked w h (hd_or None (L ++ [l])) tl)
      = Some (tt, relinked w h1 (hd_or None L) (last_or None L)) /\
    same_data h h1 /\ dseg h1 None L None /\ h1 !! l = Some e.
Proof.
  intros Hnd Hd Ha He. apply dseg_app in Hd as [Hd1 Hd2]. cbn [hd_or dseg] in Hd1, Hd2.
  destruct Hd2 as (Hp & _ & _). rewrite (fld_lookup _ _ _ _ He) in Hp. injection Hp as Hp.
  split; [done|]. unfold unlink_tail.
  destruct (last_cases L) as [->|(L0 & b & ->)].
  - exists h. split_and!; done.
  - rewrite last_or_snoc. destruct (Ha b) as [eb Heb]; [set_solver|].
    apply NoDup_app in Hnd as (Hnd & Hdj & _). apply NoDup_app in Hnd as (_ & Hdj0 & _).
    assert (Hbl : l <> b) by (intros ->; apply (Hdj b); set_solver).
    cbn [update_ptr]. rewrite (bind_run _ _ _ tt _ (update_relinked b eb _ w h _ tl Heb)).
    exists (<[b := set_lru_next None eb]> h). split_and!.
    + rewrite <- app_assoc. by destruct L0.
    + by eapply same_data_update.
    + eapply dseg_set_next; [done| |exact Hd1]. intros Hb. apply (Hdj0 b Hb). set_solver.
    + by rewrite lookup_insert_ne.
Qed.

Lemma patch_loop_targets f a l m :
  (patch_loop f a l m).1 = List.filter (fun jt => negb (target_arm_addr jt =? a)) l.
Proof.
  revert m. induction l as [|jt l IH]; intros m; cbn; [done|].
  destruct (_ =? a); cbn; [apply IH|]. specialize (IH m). destruct (patch_loop f a l m). cbn in *. by subst.
Qed.

Lemma patch_evicted_run D a w :
  exists m, tcache_patch_evicted_block D a w
    = Some (tt, set_jumps (List.filter (fun jt => negb (target_arm_addr jt =? a)) (jump_targets w)) m w).
Proof.
  unfold tcache_patch_evicted_block.
  pose proof (patch_loop_targets (fun jt => redirect_bytes D (is_call jt)) a (jump_targets w) (code_mem w)) as H.
  destruct (patch_loop _ _ _ _) as [jt m]. cbn in H. subst. by exists m.
Qed.

Lemma release_code_run e w : exists r, release_code e w = Some (tt, set_released r w).
Proof.
  unfold release_code. destruct (c_true _); [by eexists|].
  exists (released w). by destruct w.
Qed.

(** The chain cut at [l]: the table and heap afterwards, for the chain it was in and
    for the others. *)
Definition cut_table (i : nat) (c1 : list positive) (nx : ptr) (t : list ptr) : list ptr :=
  match last c1 with None => <[i := nx]> t | Some _ => t end.
Definition cut_heap (c1 : list positive) (nx : ptr) (h : gmap positive tcache_entry) :=
  match last c1 with None => h | Some x => alter (set_next nx) x h end.

Lemma write_link_run w i c1 nx p :
  hash_table (cache w) !! Z.to_nat i = Some p -> (forall x, x ∈ c1 -> is_Some (heap w !! x)) ->
  write_link (last_link (Slot i) c1) nx w
  = Some (tt, set_heap (cut_heap c1 nx (heap w))
               (set_cache (set_table (cut_table (Z.to_nat i) c1 nx (hash_table (cache w))) (cache w)) w)).
Proof.
  intros Hi Ha. unfold last_link, cut_table, cut_heap.
  destruct (last_cases c1) as [->|(c & x & ->)].
  - cbn. unfold write_slot. rewrite Hi. by destruct w.
  - rewrite last_snoc. cbn [write_link]. destruct (Ha x) as [ex Hx]; [set_solver|].
    rewrite (update_run _ _ _ _ Hx). unfold set_heap, set_cache, set_table. cbn.
    replace (alter _ x (heap w)) with (<[x := set_next nx ex]> (heap w)).
    + by destruct w as [? [] ? ? ?].
    + apply map_eq. intros y. destruct (decide (y = x)) as [->|].
      * by rewrite lookup_insert_eq, lookup_alter_eq, Hx.
      * by rewrite lookup_insert_ne, lookup_alter_ne.
Qed.

Lemma fld_alter_ne {A} (f : tcache_entry -> A) g h x l : l <> x -> fld f (alter g x h) l = fld f h l.
Proof. intros. unfold fld. by rewrite lookup_alter_ne. Qed.
Lemma fld_alter_same {A} (f : tcache_entry -> A) g h x l :
  (forall e, f (g e) = f e) -> fld f (alter g x h) l = fld f h l.
Proof.
  intros Hg. unfold fld. destruct (decide (l = x)) as [->|]; [|by rewrite lookup_alter_ne].
  rewrite lookup_alter_eq. destruct (h !! x); cbn; [by rewrite Hg|done].
Qed.
Lemma cut_heap_same {A} (f : tcache_entry -> A) h c1 nx l :
  (forall e, f (set_next nx e) = f e) -> fld f (cut_heap c1 nx h) l = fld f h l.
Proof. intros. unfold cut_heap. destruct (last c1); [by apply fld_alter_same|done]. Qed.
Lemma cut_heap_notin {A} (f : tcache_entry -> A) h c1 nx l : l ∉ c1 -> fld f (cut_heap c1 nx h) l = fld f h l.
Proof.
  intros. unfold cut_heap. destruct (last c1) eqn:E; [|done]. apply fld_alter_ne.
  intros ->. apply last_Some in E as [? ->]. set_solver.
Qed.

Lemma chain_cut h c1 l c2 e :
  NoDup (c1 ++ l :: c2) -> chain h (c1 ++ l :: c2) None -> h !! l = Some e ->
  (forall x, x ∈ c1 -> is_Some (h !! x)) ->
  chain (cut_heap c1 (e_next e) h) (c1 ++ c2) None.
Proof.
  intros Hnd Hc He Ha. unfold cut_heap. destruct (last_cases c1) as [->|(c & x & ->)].
  - cbn in *. apply Hc.
  - rewrite last_snoc. destruct (Ha x) as [ex Hx]; [set_solver|].
    pose proof (chain_remove h c x l c2 e ex Hnd Hc He Hx) as H.
    eapply chain_frame; [|exact H]. intros y _. unfold fld.
    destruct (decide (y = x)) as [->|]; [by rewrite lookup_alter_eq, lookup_insert_eq, Hx|].
    by rewrite lookup_alter_ne, lookup_insert_ne.
Qed.

Lemma payload_evicted h h1 c1 nx l x :
  same_data h h1 -> x <> l -> fld payload (delete l (cut_heap c1 nx h1)) x = fld payload h x.
Proof.
  intros Hs Hx. rewrite fld_delete_ne by done. rewrite cut_heap_same by done.
  exact (same_data_field (fun d => (d.1.1.1.1.1.2, d.1.1.1.1.2, d.1.1.1.2, d.1.1.2, d.1.2, d.2)) h h1 x Hs).
Qed.

Lemma u64_sub_cancel a s : u64 (u64 (a + s) - s) = u64 a.
Proof. unfold u64. rewrite Zminus_mod_idemp_l. f_equal. lia. Qed.

Lemma total_of_app h l1 l2 : total_of h (l1 ++ l2) = total_of h l1 + total_of h l2.
Proof. unfold total_of. induction l1 as [|x l1 IH]; cbn in *; lia. Qed.

(** The chains after [l] is cut out of bucket [i]. *)
Lemma chains_evicted w ins l e h1 c1 c2 n i t :
  heap w !! l = Some e -> same_data (heap w) h1 ->
  bucket (heap w) n ins i = c1 ++ l :: c2 -> NoDup (c1 ++ l :: c2) ->
  chain (heap w) (c1 ++ l :: c2) None -> (forall x, x ∈ ins -> is_Some (heap w !! x)) ->
  e_next e = hd_or None c2 ->
  (forall j, (j < length t)%nat -> let c := bucket (heap w) n ins j in
     t !! j = Some (hd_or None c) /\ chain (heap w) c None) ->
  forall j, (j < length t)%nat ->
    let c := bucket (heap w) n (without l ins) j in
    cut_table i c1 (e_next e) t !! j = Some (hd_or None c) /\
    chain (delete l (cut_heap c1 (e_next e) h1)) c None.
Proof.
  intros He Hs Hb Hnd Hc Ha Hnx Hch j Hj. cbv zeta. rewrite bucket_without.
  assert (Hl : l ∉ c1 /\ l ∉ c2) by (idtac;
    assert (l ∉ c1 ++ c2) by (apply NoDup_cons; by rewrite Permutation_middle); set_solver).
  assert (Ha1 : forall x, x ∈ c1 -> is_Some (h1 !! x)).
  { intros x Hx. apply (same_is_some data (heap w)); [apply Hs|]. apply Ha, (bucket_in (heap w) n ins i).
    rewrite Hb. set_solver. }
  assert (Hl1 : exists e1, h1 !! l = Some e1 /\ e_next e1 = e_next e).
  { apply fld_inv. rewrite (same_data_next (heap w)) by done. by apply fld_lookup. }
  destruct Hl1 as (e1 & He1 & Hn1).
  destruct (decide (j = i)) as [->|Hji].
  - rewrite Hb, without_middle by tauto. split.
    + unfold cut_table. destruct (last c1) eqn:E.
      * destruct (Hch i Hj) as [-> _]. rewrite Hb. by destruct c1.
      * apply last_None in E. subst. cbn. rewrite list_lookup_insert_eq by done. by rewrite Hnx.
    + eapply chain_frame; [intros x Hx; apply fld_delete_ne; set_solver|].
      rewrite <- Hn1. apply chain_cut with (l := l); [done| |done|done].
      eapply chain_frame; [|exact Hc]. intros x _. by apply same_data_next.
  - assert (Hlj : l ∉ bucket (heap w) n ins j).
    { intros H. apply Hji. eapply bucket_unique; [exact H|]. rewrite Hb. set_solver. }
    rewrite without_notin by done. destruct (Hch j Hj) as [H1 H2]. split.
    + unfold cut_table. destruct (last c1); [done|]. by rewrite list_lookup_insert_ne.
    + eapply chain_frame; [|exact H2]. intros x Hx. rewrite fld_delete_ne by set_solver.
      rewrite cut_heap_notin; [by apply same_data_next|].
      intros Hx1. apply Hji. eapply bucket_unique; [exact Hx|]. rewrite Hb. set_solver.
Qed.

Lemma wf_evicted w L l ins e h1 w' c1 c2 :
  wf w (L ++ [l]) ins -> heap w !! l = Some e ->
  same_data (heap w) h1 -> dseg h1 None L None ->
  let n := bucket_count (cache w) in
  let i := Z.to_nat (tcache_hash_buckets (e_hash e) n) in
  bucket (heap w) n ins i = c1 ++ l :: c2 -> NoDup (c1 ++ l :: c2) ->
  chain (heap w) (c1 ++ l :: c2) None -> e_next e = hd_or None c2 ->
  heap w' = delete l (cut_heap c1 (e_next e) h1) ->
  hash_table (cache w') = cut_table i c1 (e_next e) (hash_table (cache w)) ->
  lru_head (cache w') = hd_or None L -> lru_tail (cache w') = last_or None L ->
  bucket_count (cache w') = n ->
  used_size (cache w') = u64 (used_size (cache w) - e_x86_size e) ->
  entry_count (cache w') = u64 (entry_count (cache w) - 1) ->
  wf w' L (without l ins).
Proof.
  intros Hwf He Hs Hd n i Hb Hnd Hc Hnx Hheap Htab Hhd Htl Hbc Hu Hcnt.
  pose proof (wf_nodup _ _ _ Hwf) as HndL.
  assert (HlL : l ∉ L) by (apply NoDup_app in HndL; set_solver).
  assert (Hpay : forall x, x <> l -> fld payload (heap w') x = fld payload (heap w) x)
    by (intros x Hx; rewrite Hheap; by apply payload_evicted).
  assert (Hin : forall x, x ∈ without l ins <-> x ∈ L).
  { intros x. by rewrite (without_perm l ins L HndL (wf_perm _ _ _ Hwf)). }
  assert (Hadd : forall x, x ∈ without l ins -> fld e_arm_addr (heap w') x = fld e_arm_addr (heap w) x).
  { intros x [_ Hx]%elem_of_without.
    exact (same_payload_field (fun d => d.1.1.1.1.1) _ _ x (Hpay x Hx)). }
  assert (Htl' : length (hash_table (cache w')) = length (hash_table (cache w))).
  { rewrite Htab. unfold cut_table. destruct (last c1); [done|apply length_insert]. }
  split; rewrite ?Hhd, ?Htl, ?Hbc, ?Htl'; try done.
  - by apply NoDup_app in HndL as (? & _ & _).
  - by apply without_perm; [|apply Hwf].
  - intros x. destruct (decide (x = l)) as [->|Hx].
    + rewrite Hheap, lookup_delete_eq. split; [by intros [? ?]|by intros ?].
    + rewrite (same_is_some payload _ _ x (Hpay x Hx)), (wf_dom _ _ _ Hwf). set_solver.
  - intros x e' He'. assert (Hx : x <> l) by (intros ->; by rewrite Hheap, lookup_delete_eq in He').
    specialize (Hpay x Hx). unfold fld in Hpay. rewrite He' in Hpay.
    destruct (heap w !! x) as [ex|] eqn:Hex; [|done]. unfold payload in Hpay. cbn in Hpay. simplify_eq.
    destruct (wf_hash _ _ _ Hwf x ex Hex). split; congruence.
  - rewrite Hheap. eapply dseg_frame; [|exact Hd]. intros x Hx.
    rewrite !fld_delete_ne by set_solver. by rewrite !cut_heap_same.
  - apply (wf_buckets _ _ _ Hwf).
  - intros j Hj. cbv zeta. rewrite (same_addr_bucket (heap w)) by done. rewrite Htab, Hheap.
    eapply chains_evicted; try done.
    + intros x Hx. apply (wf_dom _ _ _ Hwf). by apply (wf_ins_in _ _ _ Hwf).
    + apply (wf_chains _ _ _ Hwf).
  - rewrite Hu, (wf_used _ _ _ Hwf), total_of_app.
    replace (total_of (heap w) [l]) with (e_x86_size e) by (unfold total_of, size_of; cbn; rewrite He; lia).
    rewrite u64_sub_cancel. f_equal. symmetry. apply same_size_total.
    intros x Hx. exact (same_payload_field (fun d => d.1.1.1.2) _ _ x (Hpay x ltac:(intros ->; done))).
  - rewrite Hcnt, (wf_count _ _ _ Hwf), length_app. cbn.
    rewrite Nat2Z.inj_add. apply u64_sub_cancel.
Qed.

Lemma evict_one_run D w L l ins :
  wf w (L ++ [l]) ins ->
  exists w' e, evict_one D l w = Some (tt, w') /\ wf w' L (without l ins) /\
    heap w !! l = Some e /\
    (forall x, x <> l -> fld payload (heap w') x = fld payload (heap w) x) /\
    total_size (cache w') = total_size (cache w) /\ bucket_count (cache w') = bucket_count (cache w) /\
    jump_targets w' = List.filter (fun jt => negb (target_arm_addr jt =? e_arm_addr e)) (jump_targets w).
Proof.
  intros Hwf. destruct (wf_alloc _ _ _ Hwf l) as [e He]; [set_solver|].
  unfold evict_one. rewrite (bind_run _ _ _ _ _ (deref_run _ _ _ He)).
  destruct (patch_evicted_run D (e_arm_addr e) w) as [m Hp]. rewrite (bind_run _ _ _ _ _ Hp).
  set (wp := set_jumps _ m w).
  assert (Ha : forall x, x ∈ L ++ [l] -> is_Some (heap w !! x)) by (intros x Hx; by apply (wf_dom _ _ _ Hwf)).
  destruct (unlink_tail_run wp (heap w) L l e (lru_tail (cache w)) (wf_nodup _ _ _ Hwf)
    (wf_dll _ _ _ Hwf) Ha He) as (Hprev & h1 & Hr1 & Hs1 & Hd1 & He1).
  rewrite Hprev. assert (Ew : relinked wp (heap w) (hd_or None (L ++ [l])) (lru_tail (cache w)) = wp).
  { rewrite <- (wf_head _ _ _ Hwf). exact (relinked_same wp). }
  rewrite Ew in Hr1. rewrite (bind_run _ _ _ _ _ Hr1).
  set (w1 := relinked wp h1 _ _). rewrite (bind_run get _ _ (cache w1) w1) by done. cbv zeta.
  destruct (chain_split w (L ++ [l]) ins l e Hwf He) as (c1 & c2 & Hb & Hnd & Hl1 & Hl2 & Hnx & Hc & Hf & Hslot).
  change (bucket_count (cache w1)) with (bucket_count (cache w)).
  set (i := tcache_hash_buckets (e_hash e) (bucket_count (cache w))) in *.
  rewrite (bind_run heap_fuel _ _ (S (size h1)) w1) by done.
  assert (Hsz : size h1 = size (heap w)).
  { rewrite <- !size_dom. f_equal. apply leibniz_equiv. intros x. rewrite !elem_of_dom.
    apply (same_is_some data), Hs1. }
  assert (Hc1 : chain (heap w1) (c1 ++ l :: c2) None).
  { eapply chain_frame; [|exact Hc]. intros x _. by apply same_data_next. }
  destruct (find_link_run w1 l c2 (S (size h1)) c1 (Slot i)) as [Hfl Hrl];
    [by apply read_slot_run | done | done | by rewrite Hsz |].
  rewrite (bind_run _ _ _ _ _ Hfl). rewrite (bind_run _ _ _ _ _ Hrl).
  assert (Hac : forall x, x ∈ c1 -> is_Some (h1 !! x)).
  { intros x Hx. apply (same_is_some data (heap w)); [apply Hs1|]. apply (wf_dom _ _ _ Hwf), (wf_ins_in _ _ _ Hwf).
    eapply bucket_in. rewrite Hb. set_solver. }
  assert (Hwl : (e' ← deref l; write_link (last_link (Slot i) c1) (e_next e')) w1
    = Some (tt, set_heap (cut_heap c1 (e_next e) h1)
        (set_cache (set_table (cut_table (Z.to_nat i) c1 (e_next e) (hash_table (cache w))) (cache w1)) w1))).
  { rewrite (bind_run _ _ _ _ _ (deref_run l e w1 He1)).
    exact (write_link_run w1 i c1 (e_next e) _ Hslot Hac). }
  rewrite (bind_run _ _ _ _ _ Hwl). set (w2 := set_heap _ _).
  set (c3 := set_sizes (u64 (used_size (cache w) - e_x86_size e)) (u64 (entry_count (cache w) - 1)) (cache w2)).
  rewrite (bind_run (put _) _ _ tt (set_cache c3 w2)) by done.
  destruct (release_code_run e (set_cache c3 w2)) as [r Hrel]. rewrite (bind_run _ _ _ _ _ Hrel).
  assert (He2 : exists e2, cut_heap c1 (e_next e) h1 !! l = Some e2).
  { pose proof (cut_heap_notin payload h1 c1 (e_next e) l Hl1) as H.
    rewrite (fld_lookup payload h1 l e He1) in H. apply fld_inv in H as (e2 & H & _). by exists e2. }
  destruct He2 as [e2 He2]. unfold free_entry. cbn [heap set_released set_cache w2 set_heap]. rewrite He2.
  eexists _, e. split; [reflexivity|]. split_and!; try done.
  - eapply (wf_evicted w L l ins e h1 _ c1 c2); done.
  - intros x Hx. by apply payload_evicted.
Qed.

(** ** The eviction loop *)

(** [ins] restricted to the entries of [L]. *)
Definition keep (L ins : list positive) : list positive :=
  List.filter (fun x => bool_decide (x ∈ L)) ins.

Lemma keep_all L ins : (forall x, x ∈ ins -> x ∈ L) -> keep L ins = ins.
Proof.
  intros H. unfold keep. induction ins as [|x ins IH]; [done|]. cbn.
  rewrite bool_decide_true by set_solver. by rewrite IH by set_solver.
Qed.
Lemma keep_without L l ins : l ∉ L -> keep L (without l ins) = keep L ins.
Proof.
  intros Hl. apply filter_filter_sub. intros x _ Hx. apply bool_decide_eq_true in Hx.
  apply negb_true_iff, bool_decide_eq_false. by intros ->.
Qed.

Lemma wf_unlocked w lru ins l e : wf w lru ins -> heap w !! l = Some e ->
  c_true (e_flags e &&& TCACHE_FLAG_LOCKED) = false.
Proof. intros Hwf He. destruct (wf_hash _ _ _ Hwf l e He) as [_ ->]. done. Qed.

Lemma evict_loop_run D size fuel w lru ins :
  wf w lru ins -> (length lru < fuel)%nat ->
  exists w' kept ev, lru = kept ++ ev /\ evict_loop D fuel size w = Some (tt, w') /\
    wf w' kept (keep kept ins) /\
    (forall x, x ∈ kept -> fld payload (heap w') x = fld payload (heap w) x) /\
    total_size (cache w') = total_size (cache w) /\ bucket_count (cache w') = bucket_count (cache w) /\
    (u64 (used_size (cache w') + size) <= total_size (cache w) \/ kept = []) /\
    (forall e1 e2, ev = e1 ++ e2 -> e1 <> [] ->
       total_size (cache w) < u64 (u64 (total_of (heap w) (kept ++ e1)) + size)).
Proof.
  revert w lru ins. induction fuel as [|fuel IH]; intros w lru ins Hwf Hf; [lia|].
  cbn [evict_loop]. rewrite (bind_run get _ _ (cache w) w) by done.
  assert (Hstop : u64 (used_size (cache w) + size) <= total_size (cache w) \/ lru = [] ->
    exists w' kept ev, lru = kept ++ ev /\ (mret tt : M unit) w = Some (tt, w') /\
    wf w' kept (keep kept ins) /\
    (forall x, x ∈ kept -> fld payload (heap w') x = fld payload (heap w) x) /\
    total_size (cache w') = total_size (cache w) /\ bucket_count (cache w') = bucket_count (cache w) /\
    (u64 (used_size (cache w') + size) <= total_size (cache w) \/ kept = []) /\
    (forall e1 e2, ev = e1 ++ e2 -> e1 <> [] ->
       total_size (cache w) < u64 (u64 (total_of (heap w) (kept ++ e1)) + size))).
  { intros H. exists w, lru, []. rewrite app_nil_r. rewrite keep_all by (intros; by apply (wf_ins_in _ _ _ Hwf)).
    split_and!; try done. intros e1 e2 Ee ?. symmetry in Ee. by apply app_eq_nil in Ee as [-> _]. }
  destruct (total_size (cache w) <? _) eqn:E; [|apply Z.ltb_ge in E; apply Hstop; by left].
  apply Z.ltb_lt in E. rewrite (wf_tail _ _ _ Hwf).
  destruct (last_cases lru) as [->|(L & l & ->)]; [apply Hstop; by right|]. clear Hstop.
  rewrite last_or_snoc. destruct (wf_alloc _ _ _ Hwf l) as [e He]; [set_solver|].
  rewrite (bind_run _ _ _ _ _ (deref_run _ _ _ He)), (wf_unlocked w _ _ l e Hwf He).
  destruct (evict_one_run D w L l ins Hwf) as (w1 & e' & Hr & Hwf1 & He' & Hpay & Htot & Hbc & _).
  rewrite (bind_run _ _ _ _ _ Hr). rewrite length_app in Hf. cbn in Hf.
  destruct (IH w1 L (without l ins) Hwf1) as (w' & kept & ev & -> & Hr' & Hwf' & Hp' & Ht' & Hb' & Hend & Hmin); [lia|].
  assert (Hl : l ∉ kept ++ ev) by (pose proof (wf_nodup _ _ _ Hwf) as H; apply NoDup_app in H; set_solver).
  exists w', kept, (ev ++ [l]). rewrite app_assoc, Hr'. rewrite keep_without in Hwf' by set_solver.
  rewrite Htot in Ht', Hend, Hmin.
  split_and!; try done; try congruence.
  - intros x Hx. rewrite Hp' by done. apply Hpay. set_solver.
  - intros e1 e2 Hev Hne.
    destruct (last_cases e2) as [->|(e2' & z & ->)].
    + rewrite app_nil_r in Hev. subst e1. rewrite app_assoc, <- (wf_used _ _ _ Hwf). done.
    + rewrite app_assoc in Hev. apply app_inj_tail in Hev as [-> ->].
      rewrite <- (same_size_total (heap w) (heap w1)); [by eapply Hmin|].
      intros x Hx. exact (same_payload_field (fun d => d.1.1.1.2) _ _ x (Hpay x ltac:(set_solver))).
Qed.

(** ** Insertion *)

Lemma bucket_cons h n x ins i : bucket h n (x :: ins) i = if in_bucket h n i x then x :: bucket h n ins i else bucket h n ins i.
Proof. done. Qed.

Lemma wf_inserted w lru ins l e h2 w' :
  wf w lru ins -> heap w !! l = None ->
  e_hash e = tcache_hash (e_arm_addr e) -> e_flags e &&& TCACHE_FLAG_LOCKED = 0 ->
  let n := bucket_count (cache w) in
  let i := Z.to_nat (tcache_hash_buckets (e_hash e) n) in
  hash_table (cache w) !! i = Some (e_next e) -> e_lru_prev e = None -> e_lru_next e = hd_or None lru ->
  same_data (<[l := e]> (heap w)) h2 -> dseg h2 (Some l) lru None -> h2 !! l = Some e ->
  heap w' = h2 -> hash_table (cache w') = <[i := Some l]> (hash_table (cache w)) ->
  lru_head (cache w') = Some l -> lru_tail (cache w') = last_or (Some l) lru ->
  bucket_count (cache w') = n ->
  used_size (cache w') = u64 (used_size (cache w) + e_x86_size e) ->
  entry_count (cache w') = u64 (entry_count (cache w) + 1) ->
  wf w' (l :: lru) (l :: ins).
Proof.
  intros Hwf Hl Hh Hf n i Hslot Hp Hn Hs Hd He Hheap Htab Hhd Htl Hbc Hu Hc.
  assert (Hll : l ∉ lru) by (rewrite <- (wf_dom _ _ _ Hwf), Hl; by intros [? ?]).
  assert (Hli : l ∉ ins) by (by rewrite (wf_ins_in _ _ _ Hwf)).
  assert (Hdat : forall x, x <> l -> fld data h2 x = fld data (heap w) x).
  { intros x Hx. rewrite (Hs x). by apply fld_insert_ne. }
  assert (Hi : (i < length (hash_table (cache w)))%nat) by (by eapply lookup_lt_Some).
  split; rewrite ?Hheap, ?Hhd, ?Htl, ?Hbc, ?Htab, ?length_insert.
  - apply NoDup_cons. split; [done|apply Hwf].
  - f_equiv. apply Hwf.
  - intros x. rewrite (same_is_some data _ _ x (Hs x)). destruct (decide (x = l)) as [->|].
    + rewrite lookup_insert_eq. set_solver.
    + rewrite lookup_insert_ne, (wf_dom _ _ _ Hwf) by done. set_solver.
  - intros x e' He'. destruct (decide (x = l)) as [->|Hx]; [by simplify_eq|].
    specialize (Hdat x Hx). unfold fld in Hdat. rewrite He' in Hdat.
    destruct (heap w !! x) as [ex|] eqn:Hex; [|done]. unfold data in Hdat. cbn in Hdat. simplify_eq.
    destruct (wf_hash _ _ _ Hwf x ex Hex). split; congruence.
  - cbn [dseg]. rewrite (fld_lookup e_lru_prev _ _ _ He), (fld_lookup e_lru_next _ _ _ He).
    by rewrite Hp, Hn.
  - done.
  - by rewrite last_or_cons.
  - apply (wf_buckets _ _ _ Hwf).
  - intros j Hj. cbv zeta. rewrite bucket_cons.
    rewrite (same_addr_bucket (heap w) h2) by (intros x Hx;
      exact (same_data_field_at (fun d => d.1.1.1.1.1.2) _ _ x (Hdat x ltac:(intros ->; done)))).
    assert (Hib : in_bucket h2 n j l = (i =? j)%nat).
    { unfold in_bucket. rewrite He. unfold i. by rewrite Hh. }
    rewrite Hib. destruct (wf_chains _ _ _ Hwf j Hj) as [H1 H2]. cbv zeta in *. fold n in H1, H2.
    assert (Hch : chain h2 (bucket (heap w) n ins j) None).
    { eapply chain_frame; [|exact H2]. intros x Hx%bucket_in.
      exact (same_data_field_at (fun d => d.1.1.1.1.1.1) _ _ x (Hdat x ltac:(intros ->; done))). }
    destruct (i =? j)%nat eqn:Eij; [apply Nat.eqb_eq in Eij; subst j | apply Nat.eqb_neq in Eij].
    + rewrite list_lookup_insert_eq by done. split; [done|]. cbn [chain]. split; [|done].
      rewrite (fld_lookup _ _ _ _ He). congruence.
    + by rewrite list_lookup_insert_ne.
  - rewrite Hu, (wf_used _ _ _ Hwf). unfold total_of at 2. cbn [map foldr]. fold (total_of h2 lru).
    unfold size_of at 1. rewrite He.
    rewrite (same_size_total (heap w) h2) by (intros x Hx;
      exact (same_data_field_at (fun d => d.1.1.1.2) _ _ x (Hdat x ltac:(intros ->; done)))).
    unfold u64. rewrite Zplus_mod_idemp_l. f_equal. lia.
  - rewrite Hc, (wf_count _ _ _ Hwf). unfold u64. rewrite Zplus_mod_idemp_l. f_equal. cbn. lia.
Qed.

Lemma link_new_entry_run w lru ins l a code size owned mmap :
  wf w lru ins -> heap w !! l = None ->
  exists w' e, link_new_entry l a code size owned mmap w = Some (tt, w') /\
    wf w' (l :: lru) (l :: ins) /\ heap w' !! l = Some e /\
    payload e = (a, code, size, 1, (if owned then TCACHE_FLAG_OWNED else 0) |||
                                   (if mmap then TCACHE_FLAG_MMAP else 0), tcache_hash a) /\
    (forall x, x ∈ lru -> fld payload (heap w') x = fld payload (heap w) x) /\
    total_size (cache w') = total_size (cache w) /\
    used_size (cache w') = u64 (used_size (cache w) + size).
Proof.
  intros Hwf Hl. unfold link_new_entry. cbv zeta.
  rewrite (bind_run get _ _ (cache w) w) by done.
  destruct (wf_chain_of w lru ins a Hwf) as [Hslot _]. cbv zeta in Hslot.
  set (i := tcache_hash_buckets (tcache_hash a) (bucket_count (cache w))) in *.
  rewrite (bind_run _ _ _ _ _ (read_slot_run _ _ _ Hslot)).
  set (e := {| e_next := _ |}). set (w1 := set_heap (<[l := e]> (heap w)) w).
  set (rest := write_slot i (Some l) ;; _).
  assert (Ebind : forall (k : M unit), ((fun w0 => Some (tt, set_heap (<[l := e]> (heap w0)) w0)) ;; k) w = k w1) by done.
  rewrite Ebind. unfold rest. clear rest Ebind.
  set (c2 := set_table (<[Z.to_nat i := Some l]> (hash_table (cache w))) (cache w)).
  set (w2 := set_cache c2 w1).
  assert (Hws : write_slot i (Some l) w1 = Some (tt, w2)).
  { unfold write_slot. cbn [w1 cache set_heap]. by rewrite Hslot. }
  rewrite (bind_run _ _ _ _ _ Hws).
  assert (Hll : l ∉ lru) by (rewrite <- (wf_dom _ _ _ Hwf), Hl; by intros [? ?]).
  assert (Hd1 : dseg (<[l := e]> (heap w)) None lru None).
  { eapply dseg_frame; [|apply Hwf]. intros x Hx. rewrite !fld_insert_ne by (by intros ->). done. }
  destruct (update_hd_run w2 (<[l := e]> (heap w)) (lru_head (cache w)) (lru_tail (cache w)) None (Some l) lru)
    as (h2 & Hr & Hs & Hd2 & Hfr); [done|apply Hwf| |].
  { intros x Hx. rewrite lookup_insert_ne by (by intros ->). by apply (wf_dom _ _ _ Hwf). }
  rewrite <- (wf_head _ _ _ Hwf) in Hr.
  assert (Ew2 : relinked w2 (<[l := e]> (heap w)) (lru_head (cache w)) (lru_tail (cache w)) = w2)
    by exact (relinked_same w2).
  rewrite Ew2 in Hr. rewrite (bind_run _ _ _ _ _ Hr).
  set (w3 := relinked w2 h2 (Some l) (last_or (Some l) lru)).
  set (w4 := set_cache (set_sizes (u64 (used_size (cache w) + size)) (u64 (entry_count (cache w) + 1)) (cache w3)) w3).
  assert (He2 : h2 !! l = Some e) by (rewrite Hfr by done; apply lookup_insert_eq).
  exists w4, e. split_and!; try done.
  - rewrite (bind_run (put _) _ _ tt (relinked w2 h2 (Some l) (lru_tail (cache w)))) by done.
    rewrite (wf_tail _ _ _ Hwf). destruct (last_cases lru) as [E|(L & z & E)].
    + unfold w4, w3. rewrite E. by rewrite decide_True.
    + unfold w4, w3. rewrite E, !last_or_snoc. by rewrite decide_False.
  - apply (wf_inserted w lru ins l e h2); try done.
    + cbn. destruct owned, mmap; reflexivity.
    + cbn. by rewrite (wf_head _ _ _ Hwf).
  - intros x Hx. cbn.
    rewrite (same_data_field (fun d => (d.1.1.1.1.1.2, d.1.1.1.1.2, d.1.1.1.2, d.1.1.2, d.1.2, d.2)) _ _ x Hs
      : fld payload h2 x = _). apply fld_insert_ne. by intros ->.
Qed.

Lemma insert_spec D calloc w lru ins a code size owned mmap :
  wf w lru ins -> code <> 0 ->
  (forall w', exists l, calloc w' = Some l /\ heap w' !! l = None) ->
  exists w' l kept ev e,
    arm2x86_tcache_insert_ex D calloc (Some tt) a code size owned mmap w = Some (TC_OK, w') /\
    lru = kept ++ ev /\ wf w' (l :: kept) (l :: keep kept ins) /\
    heap w' !! l = Some e /\ e_arm_addr e = a /\ e_x86_code e = code /\ e_x86_size e = size /\
    found w' (l :: keep kept ins) a = Some l /\
    (forall x, x ∈ kept -> fld payload (heap w') x = fld payload (heap w) x) /\
    (forall e1 e2, ev = e1 ++ e2 -> e1 <> [] ->
       total_size (cache w) < u64 (u64 (total_of (heap w) (kept ++ e1)) + size)) /\
    (0 <= size <= total_size (cache w) -> total_size (cache w) < 2^64 ->
       used_size (cache w') <= total_size (cache w)).
Proof.
  intros Hwf Hcode Hcalloc. unfold arm2x86_tcache_insert_ex.
  rewrite (proj2 (Z.eqb_neq _ _) Hcode).
  rewrite (bind_run heap_fuel _ _ (S (Datatypes.length lru)) w) by (unfold heap_fuel; by rewrite (wf_size _ _ _ Hwf)).
  destruct (evict_loop_run D size (S (Datatypes.length lru)) w lru ins Hwf) as
    (w1 & kept & ev & -> & Hr & Hwf1 & Hpay & Htot & _ & Hend & Hmin); [lia|].
  rewrite (bind_run _ _ _ _ _ Hr). destruct (Hcalloc w1) as (l & Hl & Hfresh).
  rewrite (bind_run _ _ _ (Some l) w1) by (by rewrite Hl).
  destruct (link_new_entry_run w1 kept (keep kept ins) l a code size owned mmap Hwf1 Hfresh) as
    (w2 & e & Hr2 & Hwf2 & He & Hep & Hpay2 & Htot2 & Hu).
  rewrite (bind_run _ _ _ _ _ Hr2). unfold payload in Hep. injection Hep as Ea Ec Es _ _ _.
  assert (Hl1 : l ∉ kept) by (rewrite <- (wf_dom _ _ _ Hwf1), Hfresh; by intros [? ?]).
  exists w2, l, kept, ev, e. split_and!; try done.
  - unfold found. cbn [List.filter]. unfold has_addr at 1. by rewrite He, Ea, Z.eqb_refl.
  - intros x Hx. rewrite Hpay2 by done. by apply Hpay.
  - intros Hs Ht. rewrite Hu. destruct Hend as [H | ->]; [done|].
    rewrite (wf_used _ _ _ Hwf1).
    change (u64 (total_of (heap w1) [])) with 0. rewrite Z.add_0_l, u64_small by lia. lia.
Qed.

(** C7: inserting a block into a well-formed cache, when the allocator returns a
    fresh address, always succeeds without following a dangling pointer.  The
    entries evicted are a suffix of the LRU list, each eviction being needed (the new
    block did not fit with any of them still there); the new entry is the most
    recently used and the first of its address; the entries kept are unchanged; and a
    block that fits in an empty cache leaves the bytes in use within the budget. *)
Theorem tcache_insert_correct D calloc w lru ins a code size owned mmap :
  wf w lru ins -> code <> 0 ->
  (forall w', exists l, calloc w' = Some l /\ heap w' !! l = None) ->
  exists w' l kept ev e,
    arm2x86_tcache_insert_ex D calloc (Some tt) a code size owned mmap w = Some (TC_OK, w') /\
    lru = kept ++ ev /\ wf w' (l :: kept) (l :: keep kept ins) /\
    heap w' !! l = Some e /\ e_arm_addr e = a /\ e_x86_code e = code /\ e_x86_size e = size /\
    found w' (l :: keep kept ins) a = Some l /\
    (forall x, x ∈ kept -> fld payload (heap w') x = fld payload (heap w) x) /\
    (forall e1 e2, ev = e1 ++ e2 -> e1 <> [] ->
       total_size (cache w) < u64 (u64 (total_of (heap w) (kept ++ e1)) + size)) /\
    (0 <= size <= total_size (cache w) -> total_size (cache w) < 2^64 ->
       used_size (cache w') <= total_size (cache w)).
Proof. exact (insert_spec D calloc w lru ins a code size owned mmap). Qed.

(** An allocator for the witnesses: an address not in use. *)
Definition next_address (w : world) : positive := fresh (dom (heap w) : gset positive).
Lemma next_address_fresh w : heap w !! next_address w = None.
Proof. apply (not_elem_of_dom (D := gset positive)). exact (is_fresh (dom (heap w) : gset positive)). Qed.

Lemma tcache_insert_correct_witness :
  exists w', arm2x86_tcache_insert_ex 0 (fun w => Some (next_address w)) (Some tt) 0x1000 0x5000 16 false false
    (fresh_world 40 2) = Some (TC_OK, w') /\ used_size (cache w') <= 40.
Proof.
  destruct (tcache_insert_correct 0 (fun w => Some (next_address w)) (fresh_world 40 2) [] [] 0x1000 0x5000 16 false false)
    as (w' & l & kept & ev & e & H1 & _ & _ & _ & _ & _ & _ & _ & _ & _ & H2).
  - apply create_wf. lia.
  - lia.
  - intros w'. exists (next_address w'). split; [reflexivity | apply next_address_fresh].
  - exists w'. split; [exact H1|]. apply H2; vm_compute; [split|]; congruence.
Defined.

(** A cache with one entry, for the address 0x1000. *)
Lemma one_entry_cache : exists w l, wf w [l] [l] /\ total_size (cache w) = 40 /\ found w [l] 0x1000 = Some l.
Proof.
  destruct (link_new_entry_run (fresh_world 40 2) [] [] 1%positive 0x1000 0x5000 16 false false)
    as (w & e & _ & Hwf & He & Hp & _ & Ht & _); [apply create_wf; lia | done |].
  unfold payload in Hp. injection Hp as Ha _ _ _ _ _.
  exists w, 1%positive. split; [done|]. split; [by rewrite Ht|]. unfold found. cbn. unfold has_addr. by rewrite He, Ha.
Qed.

Lemma tcache_lookup_correct_witness :
  exists w l w', wf w [l] [l] /\ arm2x86_tcache_lookup (Some tt) 0x1000 w = Some (Some l, w') /\ wf w' [l] [l].
Proof.
  destruct one_entry_cache as (w & l & Hwf & _ & Hf).
  destruct (tcache_lookup_correct w [l] [l] 0x1000 Hwf) as (w' & H1 & _ & H2).
  rewrite Hf in H1, H2. destruct H2 as (l1 & l2 & e & E & H2 & _).
  exists w, l, w'. split; [exact Hwf|]. split; [exact H1|].
  destruct l1 as [|x l1]; [|destruct l1; discriminate]. injection E as <-. exact H2.
Defined.

(** ** Resizing *)

(** The fields that rehashing leaves alone. *)
Definition but_next (e : tcache_entry) : Z * Z * Z * Z * Z * Z * (ptr * ptr) :=
  (e_arm_addr e, e_x86_code e, e_x86_size e, e_exec_count e, e_flags e, e_hash e, (e_lru_prev e, e_lru_next e)).
Definition same_but_next (h h' : gmap positive tcache_entry) : Prop := forall l, fld but_next h' l = fld but_next h l.

Lemma but_next_field {A} (g : Z * Z * Z * Z * Z * Z * (ptr * ptr) -> A) h h' l :
  fld but_next h' l = fld but_next h l -> fld (fun e => g (but_next e)) h' l = fld (fun e => g (but_next e)) h l.
Proof. unfold fld. destruct (h' !! l), (h !! l); cbn in *; congruence. Qed.
Lemma but_next_addr h h' l : same_but_next h h' -> fld e_arm_addr h' l = fld e_arm_addr h l.
Proof. intros H. exact (but_next_field (fun d => d.1.1.1.1.1.1) h h' l (H l)). Qed.

(** A new table that holds the entries of [P], processed in that order. *)
Definition table_of (h : gmap positive tcache_entry) (n : Z) (P : list positive) (t : list ptr) : Prop :=
  length t = Z.to_nat n /\
  forall j, (j < length t)%nat ->
    t !! j = Some (hd_or None (bucket h n (rev P) j)) /\ chain h (bucket h n (rev P) j) None.

Lemma rehash_chain_run n fuel w c P t :
  0 < n -> chain (heap w) c None -> NoDup (P ++ c) ->
  (forall x e, heap w !! x = Some e -> e_hash e = tcache_hash (e_arm_addr e)) ->
  (forall x, x ∈ c -> is_Some (heap w !! x)) -> (length c < fuel)%nat -> table_of (heap w) n P t ->
  exists h' t', rehash_chain fuel (hd_or None c) n t w = Some (t', set_heap h' w) /\
    table_of h' n (P ++ c) t' /\ same_but_next (heap w) h' /\
    (forall x, x ∉ c -> h' !! x = heap w !! x).
Proof.
  intros Hn. revert fuel w P t. induction c as [|l c IH]; intros [|fuel] w P t Hc Hnd Hh Ha Hf Ht; cbn in Hf; try lia.
  { exists (heap w), t. rewrite app_nil_r. split_and!; try done. by destruct w. }
  cbn [hd_or rehash_chain]. cbn [chain] in Hc. destruct Hc as [Hl Hc].
  apply fld_inv in Hl as (e & He & Hnx).
  rewrite (bind_run _ _ _ _ _ (deref_run _ _ _ He)). rewrite Hnx.
  set (j := Z.to_nat (tcache_hash_buckets (e_hash e) n)).
  assert (Hj : (j < length t)%nat) by (destruct Ht as [-> _]; by apply bucket_index_range).
  destruct (proj2 Ht j Hj) as [Hslot Hch]. rewrite Hslot.
  rewrite (bind_run _ _ _ tt _ (update_run _ _ _ _ He)).
  set (h1 := <[l := set_next (hd_or None (bucket (heap w) n (rev P) j)) e]> (heap w)).
  assert (Hsb : same_but_next (heap w) h1) by (intros x; by eapply fld_insert_same).
  assert (HlP : l ∉ P /\ l ∉ c /\ NoDup ((P ++ [l]) ++ c)).
  { rewrite <- app_assoc. split_and!; [| |done];
      apply NoDup_app in Hnd as (_ & Hd & Hnd); [intros H; apply (Hd l H); set_solver|].
    by apply NoDup_cons in Hnd as [? _]. }
  destruct HlP as (HlP & Hlc & Hnd').
  destruct (IH fuel (set_heap h1 w) (P ++ [l]) (<[j := Some l]> t)) as (h' & t' & Hr & Ht' & Hs' & Hfr);
    [| done | | |lia | |].
  - eapply chain_frame; [|exact Hc]. intros x Hx. apply fld_insert_ne. by intros ->.
  - intros x ex. cbn. unfold h1. intros Hx. destruct (decide (x = l)) as [->|].
    + rewrite lookup_insert_eq in Hx. injection Hx as <-. cbn. by eapply Hh.
    + rewrite lookup_insert_ne in Hx by done. by eapply Hh.
  - intros x Hx. cbn. unfold h1. rewrite lookup_insert_ne by (by intros ->). apply Ha. set_solver.
  - split; [rewrite length_insert; apply Ht|]. rewrite length_insert. intros k Hk. cbn [heap set_heap].
    rewrite rev_app_distr. cbn [rev app]. rewrite bucket_cons.
    rewrite (same_addr_bucket (heap w) h1) by (intros x _; by apply but_next_addr).
    assert (Hib : in_bucket h1 n k l = (j =? k)%nat).
    { unfold in_bucket, h1. rewrite lookup_insert_eq. cbn. unfold j. by rewrite (Hh l e He). }
    rewrite Hib. destruct (proj2 Ht k Hk) as [H1 H2].
    assert (Hck : chain h1 (bucket (heap w) n (rev P) k) None).
    { eapply chain_frame; [|exact H2]. intros x Hx%bucket_in. apply fld_insert_ne. intros ->.
      apply HlP. apply list_elem_of_In, in_rev, list_elem_of_In. done. }
    destruct (j =? k)%nat eqn:E; [apply Nat.eqb_eq in E; subst k | apply Nat.eqb_neq in E].
    + rewrite list_lookup_insert_eq by done. split; [done|]. cbn [chain]. split; [|done].
      unfold h1. by rewrite fld_insert_eq.
    + by rewrite list_lookup_insert_ne.
  - exists h', t'. rewrite Hr. rewrite <- app_assoc in Ht'. split_and!; [by destruct w|done| |].
    + intros x. rewrite Hs'. apply Hsb.
    + intros x Hx. rewrite Hfr by set_solver. cbn. unfold h1. apply lookup_insert_ne. set_solver.
Qed.

(** The buckets of a table, one after the other. *)
Definition all_buckets (h : gmap positive tcache_entry) (n : Z) (ins : list positive) (from len : nat) :=
  concat (map (bucket h n ins) (seq from len)).

Lemma all_buckets_in h n ins from len x : x ∈ all_buckets h n ins from len ->
  exists j, (from <= j < from + len)%nat /\ x ∈ bucket h n ins j.
Proof.
  unfold all_buckets. rewrite list_elem_of_In, in_concat. intros (c & Hc & Hx).
  apply in_map_iff in Hc as (j & <- & Hj). apply in_seq in Hj. exists j.
  split; [lia|by apply list_elem_of_In].
Qed.

Lemma all_buckets_cons h n x ins j from len :
  (forall k, in_bucket h n k x = (j =? k)%nat) ->
  all_buckets h n (x :: ins) from len
    ≡ₚ (if bool_decide (from <= j < from + len)%nat then [x] else []) ++ all_buckets h n ins from len.
Proof.
  intros Hk. unfold all_buckets. revert from. induction len as [|len IH]; intros from; cbn [seq map concat].
  - rewrite bool_decide_false by lia. done.
  - rewrite bucket_cons, Hk, IH. destruct (j =? from)%nat eqn:E.
    + apply Nat.eqb_eq in E. subst. rewrite bool_decide_false, bool_decide_true by lia. done.
    + apply Nat.eqb_neq in E. destruct (decide (from <= j < from + S len)%nat).
      * rewrite !bool_decide_true by lia. cbn. by rewrite Permutation_middle.
      * rewrite !bool_decide_false by lia. done.
Qed.

Lemma all_buckets_perm h n ins :
  0 < n -> (forall x, x ∈ ins -> is_Some (h !! x)) -> all_buckets h n ins 0 (Z.to_nat n) ≡ₚ ins.
Proof.
  intros Hn. induction ins as [|x ins IH]; intros Ha.
  - unfold all_buckets. induction (seq 0 (Z.to_nat n)); [done|]. cbn. done.
  - destruct (Ha x) as [e He]; [set_solver|].
    set (j := Z.to_nat (tcache_hash_buckets (tcache_hash (e_arm_addr e)) n)).
    assert (Hk : forall k, in_bucket h n k x = (j =? k)%nat) by (intros k; unfold in_bucket; by rewrite He).
    rewrite (all_buckets_cons h n x ins j) by exact Hk.
    rewrite bool_decide_true by (pose proof (bucket_index_range (tcache_hash (e_arm_addr e)) n Hn); lia).
    cbn. f_equiv. apply IH. intros y Hy. apply Ha. set_solver.
Qed.

Lemma rehash_slots_run w0 lru ins n h P t len from :
  0 < n -> wf w0 lru ins ->
  let N := bucket_count (cache w0) in
  same_but_next (heap w0) h ->
  (forall x j, (from <= j)%nat -> x ∈ bucket (heap w0) N ins j -> h !! x = heap w0 !! x) ->
  NoDup (P ++ all_buckets (heap w0) N ins from len) ->
  (from + len = Z.to_nat N)%nat -> table_of h n P t ->
  exists h' t', rehash_slots len (Z.of_nat from) n t (set_heap h w0) = Some (t', set_heap h' w0) /\
    table_of h' n (P ++ all_buckets (heap w0) N ins from len) t' /\ same_but_next (heap w0) h'.
Proof.
  intros Hn Hwf N. revert h P t from.
  induction len as [|len IH]; intros h P t from Hs Hsame Hnd Hlen Ht.
  { exists h, t. unfold all_buckets. cbn. by rewrite app_nil_r. }
  cbn [rehash_slots]. destruct (wf_buckets _ _ _ Hwf) as [_ HN].
  assert (Hfrom : (from < length (hash_table (cache w0)))%nat) by (rewrite HN; fold N; lia).
  destruct (wf_chains _ _ _ Hwf from Hfrom) as [Hslot Hch]. cbv zeta in *. fold N in Hslot, Hch.
  set (c := bucket (heap w0) N ins from) in *.
  assert (Hrd : read_slot (Z.of_nat from) (set_heap h w0) = Some (hd_or None c, set_heap h w0)).
  { apply read_slot_run. cbn. by rewrite Nat2Z.id. }
  rewrite (bind_run _ _ _ _ _ Hrd).
  rewrite (bind_run heap_fuel _ _ (S (size h)) (set_heap h w0)) by done.
  assert (Eab : all_buckets (heap w0) N ins from (S len) = c ++ all_buckets (heap w0) N ins (S from) len) by done.
  rewrite Eab, app_assoc in *.
  assert (Hsz : size h = size (heap w0)).
  { rewrite <- !size_dom. f_equal. apply leibniz_equiv. intros x. rewrite !elem_of_dom.
    apply (same_is_some but_next), Hs. }
  assert (Hc0 : forall x, x ∈ c -> h !! x = heap w0 !! x) by (intros x Hx; by apply (Hsame x from)).
  destruct (rehash_chain_run n (S (size h)) (set_heap h w0) c P t) as (h1 & t1 & Hr & Ht1 & Hs1 & Hf1);
    cbn [heap set_heap]; try done.
  - eapply chain_frame; [|exact Hch]. intros x Hx. unfold fld. by rewrite Hc0.
  - apply NoDup_app in Hnd as (Hnd & _ & _). done.
  - intros x e Hx. specialize (Hs x). unfold fld in Hs. rewrite Hx in Hs.
    destruct (heap w0 !! x) as [e0|] eqn:E0; [|done]. unfold but_next in Hs. cbn in Hs. simplify_eq.
    destruct (wf_hash _ _ _ Hwf x e0 E0). congruence.
  - intros x Hx. rewrite Hc0 by done. apply (wf_dom _ _ _ Hwf), (wf_ins_in _ _ _ Hwf). by eapply bucket_in.
  - rewrite Hsz. apply (wf_fuel _ _ _ _ _ Hwf).
  - rewrite (bind_run _ _ _ _ _ Hr). replace (Z.of_nat from + 1) with (Z.of_nat (S from)) by lia.
    destruct (IH h1 (P ++ c) t1 (S from)) as (h' & t' & Hr' & Ht' & Hs'); [| |done|lia|done|].
    + intros x. rewrite Hs1. apply Hs.
    + intros x j Hj Hx. rewrite Hf1; [apply (Hsame x j); [lia|done]|].
      intros Hxc. assert (from = j) by (eapply bucket_unique; done). lia.
    + by exists h', t'.
Qed.

Lemma replicate_table h n : table_of h n [] (replicate (Z.to_nat n) None).
Proof.
  split; [apply length_replicate|]. rewrite length_replicate. intros j Hj.
  rewrite lookup_replicate_2 by done. done.
Qed.

(** All entries of one address are in one bucket. *)
Lemma all_buckets_addr h n ins a from len :
  let i := Z.to_nat (tcache_hash_buckets (tcache_hash a) n) in
  (from <= i < from + len)%nat ->
  List.filter (has_addr h a) (all_buckets h n ins from len) = List.filter (has_addr h a) ins.
Proof.
  intros i. revert from. induction len as [|len IH]; intros from Hi; [lia|].
  unfold all_buckets. cbn [seq map concat]. rewrite List.filter_app.
  fold (all_buckets h n ins (S from) len).
  assert (Hother : forall k, k <> i -> List.filter (has_addr h a) (bucket h n ins k) = []).
  { intros k Hk. unfold bucket. clear IH. induction ins as [|x l IHl]; [done|]. cbn.
    destruct (in_bucket h n k x) eqn:E; [|done]. cbn. rewrite IHl.
    destruct (has_addr h a x) eqn:Ea; [|done]. unfold in_bucket, has_addr in *.
    destruct (h !! x); [|done]. apply Z.eqb_eq in Ea. apply Nat.eqb_eq in E. subst. done. }
  destruct (decide (from = i)) as [->|].
  - unfold i at 1. rewrite bucket_has_addr.
    enough (E : List.filter (has_addr h a) (all_buckets h n ins (S i) len) = []) by (by rewrite E, app_nil_r).
    assert (Hlt : (i < S i)%nat) by lia. revert Hlt. generalize (S i). clear IH Hi.
    induction len as [|len IH]; intros k Hk; [done|]. unfold all_buckets. cbn [seq map concat].
    rewrite List.filter_app, Hother by lia. apply IH. lia.
  - rewrite Hother by done. apply IH. lia.
Qed.

Lemma filter_rev {A} (f : A -> bool) l : List.filter f (rev l) = rev (List.filter f l).
Proof.
  induction l as [|x l IH]; [done|]. cbn [rev]. rewrite List.filter_app, IH. cbn.
  destruct (f x); cbn; [done|by rewrite app_nil_r].
Qed.
Lemma hd_or_rev l : hd_or None (rev l) = last_or None l.
Proof.
  destruct (last_cases l) as [->|(l' & x & ->)]; [done|]. by rewrite rev_app_distr, last_or_snoc.
Qed.

Definition clamp_size (s : Z) : Z := Z.min TCACHE_MAX_SIZE (Z.max TCACHE_MIN_SIZE s).

Lemma clamp_size_code s :
  (let s := if s <? TCACHE_MIN_SIZE then TCACHE_MIN_SIZE else s in
   if TCACHE_MAX_SIZE <? s then TCACHE_MAX_SIZE else s) = clamp_size s.
Proof.
  unfold clamp_size, TCACHE_MAX_SIZE, TCACHE_MIN_SIZE. cbv zeta.
  destruct (s <? _) eqn:E1; [apply Z.ltb_lt in E1 | apply Z.ltb_ge in E1];
    match goal with |- context [if ?b then _ else _] => destruct b eqn:E2 end;
    [apply Z.ltb_lt in E2 | apply Z.ltb_ge in E2 | apply Z.ltb_lt in E2 | apply Z.ltb_ge in E2]; lia.
Qed.

(** The cache after its entries have been moved to a new table of [n] slots. *)
Lemma wf_rehashed w lru ins ins' h' t' n size :
  wf w lru ins -> ins' ≡ₚ ins -> same_but_next (heap w) h' -> 0 < n < 2^64 ->
  table_of h' n (rev ins') t' ->
  wf (set_cache (Build_translation_cache t' (lru_head (cache w)) (lru_tail (cache w)) size
        (used_size (cache w)) (entry_count (cache w)) (lookup_count (cache w)) (miss_count (cache w)) n)
       (set_heap h' w)) lru ins'.
Proof.
  intros Hwf Hp Hs Hn [Hlt Ht]. rewrite rev_involutive in Ht.
  split; cbn [heap cache set_heap set_cache lru_head lru_tail hash_table bucket_count used_size entry_count];
    try apply Hwf; try done.
  - rewrite Hp. apply Hwf.
  - intros l. rewrite <- (wf_dom _ _ _ Hwf l). apply (same_is_some but_next), Hs.
  - intros l e Hl. specialize (Hs l). unfold fld in Hs. rewrite Hl in Hs.
    destruct (heap w !! l) as [e0|] eqn:E0; [|done]. unfold but_next in Hs. cbn in Hs. simplify_eq.
    destruct (wf_hash _ _ _ Hwf l e0 E0). split; congruence.
  - eapply dseg_frame; [|apply Hwf]. intros x _. split;
      [exact (but_next_field (fun d => d.2.1) _ _ x (Hs x)) | exact (but_next_field (fun d => d.2.2) _ _ x (Hs x))].
  - rewrite (wf_used _ _ _ Hwf). f_equal. symmetry. apply same_size_total. intros x _.
    exact (but_next_field (fun d => d.1.1.1.1.2) _ _ x (Hs x)).
Qed.

Lemma resize_spec w lru ins new_size :
  wf w lru ins -> clamp_size new_size <> total_size (cache w) ->
  exists w' ins', arm2x86_tcache_resize true (Some tt) new_size w = Some (TC_OK, w') /\
    wf w' lru ins' /\ total_size (cache w') = clamp_size new_size /\
    bucket_count (cache w') = clamp_size new_size / 8 /\
    used_size (cache w') = used_size (cache w) /\
    (forall l, fld payload (heap w') l = fld payload (heap w) l) /\
    (forall a, found w' ins' a = last_or None (List.filter (has_addr (heap w) a) ins)).
Proof.
  intros Hwf Hne. unfold arm2x86_tcache_resize. cbv zeta.
  pose proof (clamp_size_code new_size) as Hcl. cbv zeta in Hcl. rewrite Hcl.
  rewrite (bind_run get _ _ (cache w) w) by done. rewrite (proj2 (Z.eqb_neq _ _) Hne).
  destruct (wf_buckets _ _ _ Hwf) as [HN Htl].
  rewrite (proj2 (Z.eqb_neq (bucket_count (cache w)) 0)) by lia.
  assert (Hcs : TCACHE_MIN_SIZE <= clamp_size new_size <= TCACHE_MAX_SIZE) by (unfold clamp_size, TCACHE_MAX_SIZE, TCACHE_MIN_SIZE; lia).
  unfold TCACHE_MIN_SIZE, TCACHE_MAX_SIZE in Hcs.
  assert (Hn : 0 < clamp_size new_size / 8 < 2^64) by (Z.div_mod_to_equations; lia).
  set (n := clamp_size new_size / 8) in *. rewrite (proj2 (Z.eqb_neq n 0)) by lia. cbn [negb].
  set (N := bucket_count (cache w)) in *.
  assert (Hperm : all_buckets (heap w) N ins 0 (Z.to_nat N) ≡ₚ ins).
  { apply all_buckets_perm; [lia|]. intros x Hx. by apply (wf_dom _ _ _ Hwf), (wf_ins_in _ _ _ Hwf). }
  destruct (rehash_slots_run w lru ins n (heap w) [] (replicate (Z.to_nat n) None) (Z.to_nat N) 0)
    as (h' & t' & Hr & Ht & Hs); try done.
  - lia.
  - cbn [app]. fold N. rewrite Hperm. by eapply wf_ins_nodup.
  - apply replicate_table.
  - assert (Ew : set_heap (heap w) w = w) by (by destruct w). rewrite Ew in Hr. cbn [Z.of_nat] in Hr.
    rewrite (bind_run _ _ _ _ _ Hr). cbn [app] in Ht. fold N in Ht.
    set (P := all_buckets (heap w) N ins 0 (Z.to_nat N)) in *.
    assert (Hrev : rev P ≡ₚ ins) by (by rewrite <- Permutation_rev).
    assert (Hpay : forall l, fld payload h' l = fld payload (heap w) l).
    { intros l. exact (but_next_field (fun d => (d.1.1.1.1.1.1, d.1.1.1.1.1.2, d.1.1.1.1.2, d.1.1.1.2, d.1.1.2, d.1.2)) _ _ l (Hs l)). }
    eexists _, (rev P). split; [reflexivity|]. split_and!; try done.
    + apply (wf_rehashed w lru ins (rev P) h' t' n); try done. by rewrite rev_involutive.
    + intros a. unfold found. cbn [heap set_heap set_cache].
      assert (Hha : forall x, has_addr h' a x = has_addr (heap w) a x).
      { intros x. pose proof (but_next_addr _ _ x Hs) as H. unfold has_addr, fld in *.
        destruct (h' !! x), (heap w !! x); try done. injection H as H. by rewrite H. }
      rewrite (filter_ext _ _ Hha), filter_rev. unfold P.
      rewrite all_buckets_addr; [apply hd_or_rev|].
      pose proof (bucket_index_range (tcache_hash a) N). lia.
Qed.

(** Resizing a well-formed cache (when the new table can be allocated) keeps
    every entry, its data and the LRU order, sets the budget to the requested size
    clamped to 512 KiB .. 64 MiB and the table to one bucket per 8 bytes of it, and
    follows no dangling pointer.  But the chains come out reversed: of several
    entries for one address the lookup found the newest before, and finds the oldest
    afterwards. *)
Theorem tcache_resize_correct w lru ins new_size :
  wf w lru ins -> clamp_size new_size <> total_size (cache w) ->
  exists w' ins', arm2x86_tcache_resize true (Some tt) new_size w = Some (TC_OK, w') /\
    wf w' lru ins' /\ total_size (cache w') = clamp_size new_size /\
    bucket_count (cache w') = clamp_size new_size / 8 /\
    used_size (cache w') = used_size (cache w) /\
    (forall l, fld payload (heap w') l = fld payload (heap w) l) /\
    (forall a, found w' ins' a = last_or None (List.filter (has_addr (heap w) a) ins)).
Proof. exact (resize_spec w lru ins new_size). Qed.
Lemma tcache_resize_correct_witness :
  exists w l w' ins', wf w [l] [l] /\ arm2x86_tcache_resize true (Some tt) 0x100000 w = Some (TC_OK, w') /\
    wf w' [l] ins' /\ bucket_count (cache w') = 131072.
Proof.
  destruct one_entry_cache as (w & l & Hwf & Ht & _).
  destruct (tcache_resize_correct w [l] [l] 0x100000 Hwf) as (w' & ins' & H1 & H2 & _ & H3 & _).
  - rewrite Ht. vm_compute. congruence.
  - exists w, l, w', ins'. split; [exact Hwf|]. split; [exact H1|]. split; [exact H2|]. rewrite H3. reflexivity.
Defined.

(** ** Clearing *)

Lemma free_chain_run c fuel w :
  chain (heap w) c None -> NoDup c -> (forall x, x ∈ c -> is_Some (heap w !! x)) -> (length c < fuel)%nat ->
  exists h' r, free_chain fuel (hd_or None c) w = Some (tt, set_released r (set_heap h' w)) /\
    (forall x, x ∈ c -> h' !! x = None) /\ (forall x, x ∉ c -> h' !! x = heap w !! x).
Proof.
  revert fuel w. induction c as [|l c IH]; intros [|fuel] w Hc Hnd Ha Hf; cbn in Hf; try lia.
  { exists (heap w), (released w). split_and!; [by destruct w|by intros ? ?%elem_of_nil|done]. }
  cbn [hd_or free_chain]. cbn [chain] in Hc. destruct Hc as [Hl Hc].
  apply NoDup_cons in Hnd as [Hlc Hnd].
  apply fld_inv in Hl as (e & He & Hnx). rewrite (bind_run _ _ _ _ _ (deref_run _ _ _ He)). cbv zeta.
  destruct (release_code_run e w) as [r Hr]. rewrite (bind_run _ _ _ _ _ Hr).
  rewrite (bind_run (free_entry l) _ _ tt (set_heap (delete l (heap w)) (set_released r w)))
    by (unfold free_entry; cbn; by rewrite He).
  rewrite Hnx. destruct (IH fuel (set_heap (delete l (heap w)) (set_released r w))) as (h' & r' & Hr' & Hin & Hout);
    cbn [heap set_heap]; [|done| |lia|].
  - eapply chain_frame; [|exact Hc]. intros x Hx. apply fld_delete_ne. by intros ->.
  - intros x Hx. rewrite lookup_delete_ne by (by intros ->). apply Ha. set_solver.
  - exists h', r'. rewrite Hr'. cbn in Hout. split_and!; [done| |].
    + intros x [->|Hx]%elem_of_cons; [|by apply Hin]. rewrite Hout by done. apply lookup_delete_eq.
    + intros x Hx. rewrite Hout by set_solver. apply lookup_delete_ne. set_solver.
Qed.

Lemma clear_slots_run w0 lru ins :
  wf w0 lru ins -> let N := bucket_count (cache w0) in
  forall len from h t r,
  (from + len = Z.to_nat N)%nat -> length t = Z.to_nat N ->
  (forall j, (j < from)%nat -> t !! j = Some None) ->
  (forall j, (from <= j)%nat -> t !! j = hash_table (cache w0) !! j) ->
  (forall x, x ∈ ins -> (exists j, (from <= j)%nat /\ x ∈ bucket (heap w0) N ins j) -> h !! x = heap w0 !! x) ->
  (forall x, is_Some (h !! x) -> exists j, (from <= j < from + len)%nat /\ x ∈ bucket (heap w0) N ins j) ->
  exists h' t' r', clear_slots len (Z.of_nat from) (set_released r (set_heap h (set_cache (set_table t (cache w0)) w0)))
    = Some (tt, set_released r' (set_heap h' (set_cache (set_table t' (cache w0)) w0))) /\
    h' = ∅ /\ t' = replicate (Z.to_nat N) None.
Proof.
  intros Hwf N. induction len as [|len IH]; intros from h t r Hlen Ht Hlo Hhi Hsame Hdom.
  { exists h, t, r. split_and!; [done| |].
    - apply map_eq. intros x. rewrite lookup_empty. apply eq_None_not_Some. intros H.
      destruct (Hdom x H) as (j & ? & _). lia.
    - apply list_eq. intros j. destruct (decide (j < from)%nat).
      + rewrite Hlo, lookup_replicate_2 by lia. done.
      + rewrite (lookup_ge_None_2 t) by lia. rewrite lookup_ge_None_2; [done|].
        rewrite length_replicate. lia. }
  cbn [clear_slots]. destruct (wf_buckets _ _ _ Hwf) as [_ HN].
  assert (Hfrom : (from < length (hash_table (cache w0)))%nat) by (rewrite HN; fold N; lia).
  destruct (wf_chains _ _ _ Hwf from Hfrom) as [Hslot Hch]. cbv zeta in *. fold N in Hslot, Hch.
  set (c := bucket (heap w0) N ins from) in *. set (w := set_released r _).
  assert (Hrd : read_slot (Z.of_nat from) w = Some (hd_or None c, w)).
  { apply read_slot_run. cbn. rewrite Nat2Z.id, Hhi by lia. done. }
  rewrite (bind_run _ _ _ _ _ Hrd).
  rewrite (bind_run heap_fuel _ _ (S (size h)) w) by done.
  assert (Hc0 : forall x, x ∈ c -> h !! x = heap w0 !! x).
  { intros x Hx. apply Hsame; [by eapply bucket_in|]. exists from. split; [lia|done]. }
  assert (Hac : forall x, x ∈ c -> is_Some (h !! x)).
  { intros x Hx. rewrite Hc0 by done. apply (wf_dom _ _ _ Hwf), (wf_ins_in _ _ _ Hwf). by eapply bucket_in. }
  assert (Hnd : NoDup c) by (apply NoDup_lfilter; by eapply wf_ins_nodup).
  destruct (free_chain_run c (S (size h)) w) as (h1 & r1 & Hr1 & Hin & Hout); cbn [heap w set_released set_heap];
    [ | done | done | | ].
  - eapply chain_frame; [|exact Hch]. intros x Hx. unfold fld. by rewrite Hc0.
  - apply Nat.lt_succ_r. rewrite <- size_dom, <- (size_list_to_set (C := gset positive) c) by done.
    apply subseteq_size. intros x. rewrite elem_of_list_to_set, elem_of_dom. apply Hac.
  - rewrite (bind_run _ _ _ _ _ Hr1).
    set (t1 := <[from := None]> t).
    rewrite (bind_run (write_slot _ _) _ _ tt (set_released r1 (set_heap h1 (set_cache (set_table t1 (cache w0)) w0)))).
    2:{ unfold write_slot. cbn. rewrite Nat2Z.id, Hhi, Hslot by lia. done. }
    replace (Z.of_nat from + 1) with (Z.of_nat (S from)) by lia.
    apply IH; [lia|by unfold t1; rewrite length_insert| | | |].
    + intros j Hj. unfold t1. destruct (decide (j = from)) as [->|].
      * apply (list_lookup_insert_eq (A := ptr)). lia.
      * rewrite list_lookup_insert_ne by done. apply Hlo. lia.
    + intros j Hj. unfold t1. rewrite list_lookup_insert_ne by lia. apply Hhi. lia.
    + intros x Hx (j & Hj & Hxj). rewrite Hout; [apply Hsame; [done|exists j; split; [lia|done]]|].
      intros Hxc. assert (from = j) by (eapply bucket_unique; done). lia.
    + intros x Hx. destruct (decide (x ∈ c)) as [Hxc|Hxc]; [rewrite Hin in Hx by done; by destruct Hx|].
      rewrite Hout in Hx by done. destruct (Hdom x Hx) as (j & Hj & Hxj). exists j. split; [|done].
      destruct (decide (j = from)) as [->|]; [done|lia].
Qed.

Lemma clear_spec w lru ins :
  wf w lru ins ->
  exists w', arm2x86_tcache_clear (Some tt) w = Some (tt, w') /\ wf w' [] [] /\ heap w' = ∅ /\
    used_size (cache w') = 0 /\ entry_count (cache w') = 0 /\ lookup_count (cache w') = 0 /\
    miss_count (cache w') = 0 /\
    total_size (cache w') = total_size (cache w) /\ bucket_count (cache w') = bucket_count (cache w).
Proof.
  intros Hwf. unfold arm2x86_tcache_clear. rewrite (bind_run get _ _ (cache w) w) by done.
  destruct (wf_buckets _ _ _ Hwf) as [HN Htl].
  destruct (clear_slots_run w lru ins Hwf (Z.to_nat (bucket_count (cache w))) 0 (heap w)
    (hash_table (cache w)) (released w)) as (h' & t' & r' & Hr & -> & ->); try done; try lia.
  - intros x [e He]. exists (Z.to_nat (tcache_hash_buckets (tcache_hash (e_arm_addr e)) (bucket_count (cache w)))).
    split; [pose proof (bucket_index_range (tcache_hash (e_arm_addr e)) (bucket_count (cache w)) ltac:(lia)); lia|].
    apply in_own_bucket; [done|]. apply (wf_ins_in _ _ _ Hwf). by eapply wf_in.
  - assert (Ew : set_released (released w) (set_heap (heap w) (set_cache (set_table (hash_table (cache w)) (cache w)) w)) = w)
      by (by destruct w as [? [] ? ? ?]).
    rewrite Ew in Hr. cbn [Z.of_nat] in Hr. rewrite (bind_run _ _ _ _ _ Hr).
    eexists. split; [reflexivity|]. split_and!; try done. split; cbn; try done.
    + constructor.
    + intros l. rewrite lookup_empty. split; [by intros [? ?]|by intros ?%elem_of_nil].
    + by rewrite length_replicate.
    + intros i Hi. rewrite length_replicate in Hi. by rewrite lookup_replicate_2.
Qed.

(** Clearing a well-formed cache frees every entry (following no dangling
    pointer and freeing none twice) and leaves an empty well-formed cache with the
    same budget and table size and all counters at zero. *)
Theorem tcache_clear_correct w lru ins :
  wf w lru ins ->
  exists w', arm2x86_tcache_clear (Some tt) w = Some (tt, w') /\ wf w' [] [] /\ heap w' = ∅ /\
    used_size (cache w') = 0 /\ entry_count (cache w') = 0 /\ lookup_count (cache w') = 0 /\
    miss_count (cache w') = 0 /\
    total_size (cache w') = total_size (cache w) /\ bucket_count (cache w') = bucket_count (cache w).
Proof. exact (clear_spec w lru ins). Qed.
Lemma tcache_clear_correct_witness :
  exists w l w', wf w [l] [l] /\ arm2x86_tcache_clear (Some tt) w = Some (tt, w') /\ heap w' = ∅.
Proof.
  destruct one_entry_cache as (w & l & Hwf & _ & _).
  destruct (tcache_clear_correct w [l] [l] Hwf) as (w' & H1 & _ & H2 & _).
  exists w, l, w'. split; [exact Hwf|]. split; [exact H1 | exact H2].
Defined.

(** Adjusting the size to the miss rate: the cache stays well formed with the same entries, and
    gets the adjusted size, brought into the limits.  A full cache of 1 MiB with half of
    its lookups missing grows to 1.5 MiB; an empty one without misses shrinks. *)
Theorem tcache_adjust_auto_correct w lru ins rate :
  wf w lru ins ->
  (exists w' ins', arm2x86_tcache_adjust_auto true (Some tt) rate w = Some (TC_OK, w') /\
    wf w' lru ins' /\
    total_size (cache w') =
      (if adjusted_size rate (cache w) =? total_size (cache w) then total_size (cache w)
       else clamp_size (adjusted_size rate (cache w))) /\
    (forall l, fld payload (heap w') l = fld payload (heap w) l)) /\
  adjusted_size (double_const 1 2) (set_sizes 0x100000 1 (arm2x86_tcache_create 0x100000 2)) = 0x180000 /\
  adjusted_size (double 0) (arm2x86_tcache_create 0x100000 2) = 0xc0000.
Proof.
  intros Hwf. split; [|vm_compute; split; reflexivity].
  unfold arm2x86_tcache_adjust_auto. rewrite (bind_run get _ _ (cache w) w) by reflexivity.
  set (n := adjusted_size rate (cache w)). clearbody n. destruct (n =? total_size (cache w)) eqn:E; cbn [negb].
  { exists w, ins. split; [reflexivity|]. split; [exact Hwf|]. split; reflexivity. }
  destruct (Z.eq_dec (clamp_size n) (total_size (cache w))) as [Ec|Ec].
  - exists w, ins. split; [|split; [exact Hwf|]; split; [symmetry; exact Ec | reflexivity]].
    unfold arm2x86_tcache_resize. cbv zeta. pose proof (clamp_size_code n) as Hc. cbv zeta in Hc. rewrite Hc.
    rewrite (bind_run get _ _ (cache w) w) by reflexivity. rewrite Ec, Z.eqb_refl. reflexivity.
  - destruct (resize_spec w lru ins n Hwf Ec) as (w' & ins' & H1 & H2 & H3 & _ & _ & H4 & _). exists w', ins'. auto.
Qed.

Lemma tcache_adjust_auto_correct_witness :
  exists w l w' ins', wf w [l] [l] /\ arm2x86_tcache_adjust_auto true (Some tt) (double_const 1 2) w = Some (TC_OK, w') /\
    wf w' [l] ins'.
Proof.
  destruct one_entry_cache as (w & l & Hwf & _ & _).
  destruct (tcache_adjust_auto_correct w [l] [l] (double_const 1 2) Hwf) as ((w' & ins' & H1 & H2 & _) & _).
  exists w, l, w', ins'. split; [exact Hwf|]. split; [exact H1 | exact H2].
Defined.

(** ** What lookups and insertions leave alone *)

(** Without registered jump targets the code and the targets stay as they are. *)
Class Keeps {A} (m : M A) : Prop := keeps_code : forall w a w', m w = Some (a, w') -> jump_targets w = [] ->
  jump_targets w' = [] /\ code_mem w' = code_mem w.

#[export] Instance keeps_ret {A} (a : A) : Keeps (mret a).
Proof. intros w x w' H Hj. injection H as _ <-. auto. Qed.
Lemma keeps_bind {A B} (m : M A) (f : A -> M B) : Keeps m -> (forall a, Keeps (f a)) -> Keeps (m ≫= f).
Proof.
  intros Hm Hf w b w' H Hj. unfold mbind, M_bind in H. destruct (m w) as [[a w1]|] eqn:E; [|discriminate].
  destruct (Hm _ _ _ E Hj) as [Hj1 E1]. destruct (Hf a _ _ _ H Hj1) as [Hj2 E2]. rewrite E2. auto.
Qed.
Lemma keeps_none {A} : Keeps (fun _ => None : option (A * world)).
Proof. intros w a w' H. discriminate. Qed.
Ltac keeps_prim :=
  intros w a w' H Hj; try unfold deref, update, free_entry, get, put, read_slot, write_slot, heap_fuel in H;
  repeat (match type of H with context [match ?x with _ => _ end] => destruct x end; try discriminate);
  injection H as _ <-; auto.
#[export] Instance keeps_deref l : Keeps (deref l). Proof. keeps_prim. Qed.
#[export] Instance keeps_update l f : Keeps (update l f). Proof. keeps_prim. Qed.
#[export] Instance keeps_free l : Keeps (free_entry l). Proof. keeps_prim. Qed.
#[export] Instance keeps_get : Keeps get. Proof. keeps_prim. Qed.
#[export] Instance keeps_put f : Keeps (put f). Proof. keeps_prim. Qed.
#[export] Instance keeps_read_slot i : Keeps (read_slot i). Proof. keeps_prim. Qed.
#[export] Instance keeps_write_slot i p : Keeps (write_slot i p). Proof. keeps_prim. Qed.
#[export] Instance keeps_fuel : Keeps heap_fuel. Proof. keeps_prim. Qed.
#[export] Instance keeps_update_ptr p f : Keeps (update_ptr p f).
Proof. destruct p; cbn [update_ptr]; apply _. Qed.
#[export] Instance keeps_release e : Keeps (release_code e).
Proof. unfold release_code. destruct (c_true _); [|apply _]. keeps_prim. Qed.
#[export] Instance keeps_patch D a : Keeps (tcache_patch_evicted_block D a).
Proof.
  intros w [] w' H Hj. unfold tcache_patch_evicted_block in H. rewrite Hj in H. cbn in H. injection H as <-. auto.
Qed.
#[export] Hint Extern 2 (Keeps (_ ≫= _)) => apply keeps_bind; [|intros ?] : typeclass_instances.
#[export] Hint Extern 2 (Keeps (if ?b then _ else _)) => destruct b : typeclass_instances.
#[export] Hint Extern 2 (Keeps (match ?b with _ => _ end)) => destruct b : typeclass_instances.
#[export] Hint Extern 3 (Keeps (fun _ => None)) => apply keeps_none : typeclass_instances.

#[export] Instance keeps_find fuel : forall entry a, Keeps (find_in_chain fuel entry a).
Proof. induction fuel as [|fuel IH]; intros [l|] a; cbn [find_in_chain]; apply _. Qed.
#[export] Instance keeps_lookup p a : Keeps (arm2x86_tcache_lookup p a).
Proof. unfold arm2x86_tcache_lookup, tcache_lookup_internal, move_to_front, unlink_lru, link_front. cbv zeta. apply _. Qed.
#[export] Instance keeps_get_code p : Keeps (arm2x86_tcache_get_code p).
Proof. unfold arm2x86_tcache_get_code. apply _. Qed.
#[export] Instance keeps_read_link k : Keeps (read_link k). Proof. unfold read_link. apply _. Qed.
#[export] Instance keeps_write_link k p : Keeps (write_link k p). Proof. unfold write_link. apply _. Qed.
#[export] Instance keeps_find_link fuel : forall k l, Keeps (find_link fuel k l).
Proof. induction fuel as [|fuel IH]; intros k l; cbn [find_link]; apply _. Qed.
#[export] Instance keeps_evict_one D l : Keeps (evict_one D l).
Proof. unfold evict_one, unlink_tail. cbv zeta. apply _. Qed.
#[export] Instance keeps_evict_loop D fuel n : Keeps (evict_loop D fuel n).
Proof. induction fuel as [|fuel IH]; cbn [evict_loop]; apply _. Qed.
#[export] Instance keeps_read {A} (f : world -> A) : Keeps (fun w => Some (f w, w)).
Proof. keeps_prim. Qed.
#[export] Instance keeps_set_heap f : Keeps (fun w => Some (tt, set_heap (f w) w)).
Proof. keeps_prim. Qed.
#[export] Instance keeps_link l a c n o m : Keeps (link_new_entry l a c n o m).
Proof.
  unfold link_new_entry. cbv zeta. apply keeps_bind; [apply _|intros ?]. apply keeps_bind; [apply _|intros ?].
  apply keeps_bind; [|intros ?; apply _]. match goal with |- Keeps (fun w => Some (tt, set_heap (@?f w) w)) => exact (keeps_set_heap f) end.
Qed.
#[export] Instance keeps_insert D calloc p a c n o m : Keeps (arm2x86_tcache_insert_ex D calloc p a c n o m).
Proof. unfold arm2x86_tcache_insert_ex. cbv zeta. destruct p; [|apply _]. destruct (c =? 0); apply _. Qed.
#[export] Instance keeps_free_chain fuel : forall p, Keeps (free_chain fuel p).
Proof. induction fuel as [|fuel IH]; intros [l|]; cbn [free_chain]; cbv zeta; apply _. Qed.
#[export] Instance keeps_clear_slots n : forall i, Keeps (clear_slots n i).
Proof. induction n as [|n IH]; intros i; cbn [clear_slots]; apply _. Qed.
#[export] Instance keeps_clear p : Keeps (arm2x86_tcache_clear p).
Proof. unfold arm2x86_tcache_clear. apply _. Qed.
