(* ===== verification/JumpTable.v ===== *)
(** * The indirect branch jump table: [modules/arm2x86_jumptable.c]

    A fixed array of entries, each with a stub [jmp [rip+0]; .quad target] in one
    executable region.  A pointer to an entry is its index; code memory is a total
    function from addresses to bytes.  [mmap] and the symbol lookup of the native
    bridge are parameters. *)
From S2P Require Import Prelude X86.
From Stdlib Require Import ZArith Lia Bool.
From stdpp Require Import base numbers list sets.
Open Scope Z_scope.
Open Scope c_scope.

Definition STUB_SIZE_INDIRECT := 14.
Definition JUMP_TABLE_SIZE : nat := 4096.

Record JumpTableEntry := {
  arm_addr : Z; x86_stub : Z; x86_target : Z; hit_count : Z; is_patched : bool }.
Definition zero_entry : JumpTableEntry :=
  {| arm_addr := 0; x86_stub := 0; x86_target := 0; hit_count := 0; is_patched := false |}.

Record JumpTable := {
  entries : list JumpTableEntry; count : nat; capacity : nat;
  code_memory : Z; memory_used : Z; memory_capacity : Z }.

Definition set_entries (l : list JumpTableEntry) (jt : JumpTable) : JumpTable :=
  Build_JumpTable l (count jt) (capacity jt) (code_memory jt) (memory_used jt) (memory_capacity jt).

Definition hit (e : JumpTableEntry) : JumpTableEntry :=
  Build_JumpTableEntry (arm_addr e) (x86_stub e) (x86_target e) (u32 (hit_count e + 1)) (is_patched e).
Definition retarget (t : Z) (e : JumpTableEntry) : JumpTableEntry :=
  Build_JumpTableEntry (arm_addr e) (x86_stub e) t (hit_count e) (is_patched e).

(** ** Initialisation *)

(** [mmap_result]: the address [mmap] returns, [None] for MAP_FAILED. *)
Definition jumptable_init (mmap_result : option Z) (jt : option JumpTable) : Z * option JumpTable :=
  match jt with
  | None => (-1, None)
  | Some _ =>
    let jt := Build_JumpTable (replicate JUMP_TABLE_SIZE zero_entry) 0 JUMP_TABLE_SIZE 0 0 (1024 * 1024) in
    match mmap_result with
    | None => (-1, Some jt)
    | Some p => (0, Some (Build_JumpTable (entries jt) 0 (capacity jt) p 0 (memory_capacity jt)))
    end
  end.

Definition jumptable_destroy (jt : option JumpTable) : option JumpTable :=
  match jt with
  | None => None
  | Some jt =>
    if code_memory jt =? 0 then Some jt
    else Some (Build_JumpTable (entries jt) 0 (capacity jt) 0 0 (memory_capacity jt))
  end.

(** ** Lookup and creation *)

(** [for (i = 0; i < count; i++)] over the first entries. *)
Fixpoint find_entry (l : list JumpTableEntry) (a : Z) : option nat :=
  match l with
  | [] => None
  | e :: l => if arm_addr e =? a then Some 0%nat else S <$> find_entry l a
  end.

(** On a table that is not null. *)
Definition lookup_entry (jt : JumpTable) (a : Z) : option nat * JumpTable :=
  match find_entry (take (count jt) (entries jt)) a with
  | Some i => (Some i, set_entries (alter hit i (entries jt)) jt)
  | None => (None, jt)
  end.

Definition jumptable_lookup (jt : option JumpTable) (a : Z) : option nat * option JumpTable :=
  match jt with
  | None => (None, None)
  | Some jt => let '(entry, jt) := lookup_entry jt a in (entry, Some jt)
  end.

(** The scan for the least used entry. *)
Fixpoint least_hits (l : list JumpTableEntry) (i lru_idx : nat) (min_hits : Z) : nat :=
  match l with
  | [] => lru_idx
  | e :: l => if hit_count e <? min_hits then least_hits l (S i) i (hit_count e)
              else least_hits l (S i) lru_idx min_hits
  end.

Definition store (m : Z -> Z) (p : Z) (bs : list Z) : Z -> Z :=
  fun a => if (p <=? a) && (a <? p + Z.of_nat (length bs)) then nth (Z.to_nat (a - p)) bs 0 else m a.

Definition stub_bytes (target : Z) : list Z :=
  [0xff; 0x25; 0x00; 0x00; 0x00; 0x00] ++
  [target &&& 0xff; (target >>> 8) &&& 0xff; (target >>> 16) &&& 0xff; (target >>> 24) &&& 0xff;
   (target >>> 32) &&& 0xff; (target >>> 40) &&& 0xff; (target >>> 48) &&& 0xff; (target >>> 56) &&& 0xff].

(** The slot a new entry takes: the least used one when the table is full. *)
Definition slot_for_new (jt : JumpTable) : nat * nat :=
  if (capacity jt <=? count jt)%nat then
    match take (count jt) (entries jt) with
    | [] => (0%nat, count jt)
    | e :: l => (least_hits l 1 0 (hit_count e), count jt)
    end
  else (count jt, S (count jt)).

(** On a table that is not null, for a target that is not null. *)
Definition create_entry (jt : JumpTable) (m : Z -> Z) (a target : Z)
    : option nat * JumpTable * (Z -> Z) :=
  match lookup_entry jt a with
  | (Some i, jt) => (Some i, set_entries (alter (retarget target) i (entries jt)) jt, m)
  | (None, jt) =>
    let '(i, count') := slot_for_new jt in
    let fill (e : JumpTableEntry) := Build_JumpTableEntry a (x86_stub e) target 0 false in
    let jt := Build_JumpTable (alter fill i (entries jt)) count' (capacity jt) (code_memory jt)
                (memory_used jt) (memory_capacity jt) in
    if memory_capacity jt <? memory_used jt + STUB_SIZE_INDIRECT then (None, jt, m)
    else
      let stub := code_memory jt + memory_used jt in
      let place (e : JumpTableEntry) :=
        Build_JumpTableEntry (arm_addr e) stub (x86_target e) (hit_count e) (is_patched e) in
      (Some i,
       Build_JumpTable (alter place i (entries jt)) (count jt) (capacity jt) (code_memory jt)
         (memory_used jt + STUB_SIZE_INDIRECT) (memory_capacity jt),
       store m stub (stub_bytes target))
  end.

Definition jumptable_create_entry (jt : option JumpTable) (m : Z -> Z) (a target : Z)
    : option nat * option JumpTable * (Z -> Z) :=
  match jt with
  | None => (None, None, m)
  | Some jt =>
    if target =? 0 then (None, Some jt, m)
    else let '(entry, jt, m) := create_entry jt m a target in (entry, Some jt, m)
  end.

(** ** Patching *)

Definition jumptable_patch_entry (jt : JumpTable) (m : Z -> Z) (entry : option nat) (new_target : Z)
    : Z * JumpTable * (Z -> Z) :=
  match entry with
  | None => (-1, jt, m)
  | Some i =>
    match entries jt !! i with
    | None => (-1, jt, m)
    | Some e =>
      if (x86_stub e =? 0) || (new_target =? 0) then (-1, jt, m)
      else
        let patch (e : JumpTableEntry) :=
          Build_JumpTableEntry (arm_addr e) (x86_stub e) new_target (hit_count e) true in
        (0, set_entries (alter patch i (entries jt)) jt,
         store m (x86_stub e + 6) (drop 6 (stub_bytes new_target)))
    end
  end.

Definition jumptable_get_stub_code (jt : JumpTable) (entry : option nat) : Z :=
  match entry with None => 0 | Some i => default 0 (x86_stub <$> entries jt !! i) end.

(** [sym]: what the symbol lookup returned for [handle] and [name], 0 for NULL.
    [None] as a result: the program follows a null pointer, either the entry that was
    not created or the code memory [mmap] did not give. *)
Definition nb_getTrampolineWithJumps (mmap_result : option Z) (handle name sym : Z) (g : JumpTable)
    (m : Z -> Z) : option Z * JumpTable * (Z -> Z) :=
  if (handle =? 0) || (name =? 0) then (Some 0, g, m)
  else if sym =? 0 then (Some 0, g, m)
  else
    let g := if code_memory g =? 0 then default g (jumptable_init mmap_result (Some g)).2 else g in
    match lookup_entry g sym with
    | (Some i, g) => (x86_stub <$> entries g !! i, g, m)
    | (None, g) =>
      if code_memory g =? 0 then (None, g, m)
      else
        let '(entry, g, m) := create_entry g m sym sym in
        (match entry with Some i => x86_stub <$> entries g !! i | None => None end, g, m)
    end.

(** ** Properties *)

(** The array has its fixed size, the count is within the capacity, and no address
    is in two of the entries in use. *)
Record jt_wf (jt : JumpTable) : Prop := {
  wf_len : length (entries jt) = JUMP_TABLE_SIZE;
  wf_cap : capacity jt = JUMP_TABLE_SIZE;
  wf_cnt : (count jt <= capacity jt)%nat;
  wf_unique : NoDup (arm_addr <$> take (count jt) (entries jt)) }.

Lemma find_entry_Some l a i : find_entry l a = Some i ->
  exists e, l !! i = Some e /\ arm_addr e = a.
Proof.
  revert i. induction l as [|e l IH]; intros i; cbn; [done|].
  destruct (arm_addr e =? a) eqn:E; [apply Z.eqb_eq in E|].
  - intros [= <-]. by exists e.
  - destruct (find_entry l a) as [j|]; cbn; [|done]. intros [= <-]. by apply IH.
Qed.
Lemma find_entry_None l a : find_entry l a = None <-> a ∉ arm_addr <$> l.
Proof.
  induction l as [|e l IH]; cbn; [set_solver|]. rewrite not_elem_of_cons.
  destruct (arm_addr e =? a) eqn:E; [apply Z.eqb_eq in E | apply Z.eqb_neq in E].
  - split; [done|]. intros [? _]. congruence.
  - rewrite <- IH. destruct (find_entry l a); cbn; naive_solver.
Qed.
Lemma find_entry_unique l i e :
  NoDup (arm_addr <$> l) -> l !! i = Some e -> find_entry l (arm_addr e) = Some i.
Proof.
  revert i. induction l as [|e' l IH]; intros i Hnd Hi; [done|]. cbn.
  rewrite fmap_cons, NoDup_cons in Hnd. destruct Hnd as [Hn Hnd].
  destruct i as [|i]; cbn in Hi.
  - injection Hi as ->. by rewrite Z.eqb_refl.
  - destruct (arm_addr e' =? arm_addr e) eqn:E; [|by rewrite (IH i)].
    apply Z.eqb_eq in E. destruct Hn. rewrite E. apply (list_elem_of_fmap_2 arm_addr).
    by eapply list_elem_of_lookup_2.
Qed.

Lemma take_alter_lt {A} (f : A -> A) i n l : (i < n)%nat -> take n (alter f i l) = alter f i (take n l).
Proof.
  revert i n. induction l as [|x l IH]; intros [|i] [|n] H; cbn; try done; try lia.
  f_equal. apply IH. lia.
Qed.
Lemma find_entry_lt l a i : find_entry l a = Some i -> (i < length l)%nat.
Proof. intros H. apply find_entry_Some in H as (e & He & _). by eapply lookup_lt_Some. Qed.

Lemma alter_twice {A} (f g : A -> A) (l : list A) i : alter f i (alter g i l) = alter (f ∘ g) i l.
Proof. revert i. induction l as [|x l IH]; intros [|i]; [done..|]. exact (f_equal (cons x) (IH i)). Qed.

Lemma least_hits_lt l i j m n : (i + length l <= n)%nat -> (j < n)%nat -> (least_hits l i j m < n)%nat.
Proof.
  revert i j m. induction l as [|e l IH]; intros i j m Hl Hj; cbn in *; [done|].
  destruct (_ <? _); apply IH; lia.
Qed.

Lemma slot_for_new_spec jt :
  jt_wf jt ->
  let '(i, n) := slot_for_new jt in
  (i < n <= JUMP_TABLE_SIZE)%nat /\ (count jt <= n)%nat /\
  (n = count jt \/ (i = count jt /\ n = S (count jt) /\ (count jt < JUMP_TABLE_SIZE)%nat)).
Proof.
  intros [Hl Hc Hn Hu]. unfold slot_for_new. rewrite Hc in *.
  destruct (_ <=? _)%nat eqn:E; [apply Nat.leb_le in E | apply Nat.leb_gt in E; lia].
  assert (Hcn : count jt = JUMP_TABLE_SIZE) by lia.
  destruct (take (count jt) (entries jt)) as [|e l] eqn:Et.
  - apply (f_equal length) in Et. rewrite length_take, Hl in Et. cbn in Et. unfold JUMP_TABLE_SIZE in *. lia.
  - apply (f_equal length) in Et. rewrite length_take, Hl in Et. cbn [length] in Et.
    pose proof (least_hits_lt l 1 0 (hit_count e) (count jt)). split_and!; [|lia..].
    apply H; unfold JUMP_TABLE_SIZE in *; lia.
Qed.

(** Reading back what was stored. *)
Lemma store_other m p bs x : x < p \/ p + Z.of_nat (length bs) <= x -> store m p bs x = m x.
Proof.
  intros H. unfold store. destruct (_ && _) eqn:E; [|done].
  apply andb_true_iff in E as [E1%Z.leb_le E2%Z.ltb_lt]. lia.
Qed.
Lemma store_in m p bs k : (k < length bs)%nat -> store m p bs (p + Z.of_nat k) = nth k bs 0.
Proof.
  intros H. unfold store. rewrite (proj2 (andb_true_iff _ _)) by (split; [apply Z.leb_le|apply Z.ltb_lt]; lia).
  f_equal. lia.
Qed.

Lemma target_bytes t :
  [t &&& 0xff; (t >>> 8) &&& 0xff; (t >>> 16) &&& 0xff; (t >>> 24) &&& 0xff;
   (t >>> 32) &&& 0xff; (t >>> 40) &&& 0xff; (t >>> 48) &&& 0xff; (t >>> 56) &&& 0xff] = le_bytes 8 t.
Proof.
  rewrite !land_255. lazy beta iota delta [le_bytes]. by rewrite !Z.shiftr_shiftr by lia.
Qed.

(** The bytes of memory at [p]. *)
Definition bytes_at (m : Z -> Z) (p : Z) (n : nat) : list Z := map (fun k => m (p + Z.of_nat k)) (seq 0 n).

(** [m] holds at [stub] a jump to [target]: an indirect jump through the eight bytes
    that follow it. *)
Definition stub_jumps (m : Z -> Z) (stub target : Z) : Prop :=
  decode (bytes_at m stub 6) = Some (JmpRm (RipRel 0), []) /\ load64 m (stub + 6) = u64 target.

Lemma load64_stored m p t : 0 <= p -> p + 8 <= 2^64 ->
  (forall k, (k < 8)%nat -> m (p + Z.of_nat k) = nth k (le_bytes 8 t) 0) -> load64 m p = u64 t.
Proof.
  intros Hp Hq H. unfold load64. cbn [map].
  rewrite !u64_small by lia.
  pose proof (le_combine_bytes 8 t) as E. change (8 * Z.of_nat 8) with 64 in E. unfold u64. rewrite <- E.
  assert (E' : forall k, (k < 8)%nat -> m (p + Z.of_nat k) = u8 (t >>> (8 * Z.of_nat k))).
  { intros k Hk. rewrite H by done. rewrite <- target_bytes, !land_255.
    destruct k as [|[|[|[|[|[|[|[|k]]]]]]]]; try lia; reflexivity. }
  rewrite <- target_bytes, !land_255.
  f_equal. rewrite <- (Z.shiftr_0_r t) at 1.
  f_equal; [exact (E' 0%nat ltac:(lia))|]. f_equal; [exact (E' 1%nat ltac:(lia))|].
  f_equal; [exact (E' 2%nat ltac:(lia))|]. f_equal; [exact (E' 3%nat ltac:(lia))|].
  f_equal; [exact (E' 4%nat ltac:(lia))|]. f_equal; [exact (E' 5%nat ltac:(lia))|].
  f_equal; [exact (E' 6%nat ltac:(lia))|]. f_equal. exact (E' 7%nat ltac:(lia)).
Qed.

Lemma stored_stub_jumps m p t :
  0 <= p -> p + 14 <= 2^64 -> stub_jumps (store m p (stub_bytes t)) p t.
Proof.
  intros Hp Hq. unfold stub_bytes. rewrite target_bytes. split.
  - unfold bytes_at. cbn [seq map]. rewrite !store_in by (cbn; lia). reflexivity.
  - apply load64_stored; [lia..|]. intros k Hk.
    replace (p + 6 + Z.of_nat k) with (p + Z.of_nat (6 + k)) by lia.
    rewrite store_in by (rewrite length_app, length_le_bytes; cbn; lia). done.
Qed.

Lemma NoDup_replace (L : list Z) i a : NoDup L -> a ∉ L -> NoDup (<[i := a]> L).
Proof.
  revert i. induction L as [|x L IH]; intros i Hnd Ha; [constructor|].
  apply NoDup_cons in Hnd as [Hx Hnd]. apply not_elem_of_cons in Ha as [Hax Ha].
  destruct i as [|i]; [change (NoDup (a :: L)) | change (NoDup (x :: <[i := a]> L))];
    apply NoDup_cons; split; try done.
  - intros Hin. apply list_elem_of_lookup in Hin as [j Hj].
    destruct (decide (j = i)) as [->|].
    + destruct (decide (i < length L)%nat).
      * rewrite list_lookup_insert_eq in Hj by done. congruence.
      * apply lookup_lt_Some in Hj. rewrite length_insert in Hj. lia.
    + rewrite list_lookup_insert_ne in Hj by done. apply Hx. by eapply list_elem_of_lookup_2.
  - by apply IH.
Qed.

Lemma alter_addr f a l i : (forall e, arm_addr (f e) = a) -> (i < length l)%nat ->
  arm_addr <$> alter f i l = <[i := a]> (arm_addr <$> l).
Proof.
  intros Hf. revert i. induction l as [|e l IH]; intros [|i] Hi; cbn in *; try lia; [by rewrite Hf|].
  f_equal. apply IH. lia.
Qed.

(** Filling slot [i] with a new address keeps the addresses distinct. *)
Lemma fill_unique jt f a i n :
  jt_wf jt -> a ∉ arm_addr <$> take (count jt) (entries jt) -> (forall e, arm_addr (f e) = a) ->
  (i < n <= JUMP_TABLE_SIZE)%nat -> n = count jt \/ i = count jt /\ n = S (count jt) ->
  NoDup (arm_addr <$> take n (alter f i (entries jt))) /\
  find_entry (take n (alter f i (entries jt))) a = Some i.
Proof.
  intros [Hlen Hcap Hcnt Hu] Ha Hf [Hin Hn] Hcase.
  destruct (entries jt !! i) as [e0|] eqn:He0; [|apply lookup_ge_None in He0; lia].
  assert (Hnd : NoDup (arm_addr <$> take n (alter f i (entries jt)))).
  { rewrite take_alter_lt by done. rewrite (alter_addr f a) by (done || rewrite length_take; lia).
    destruct Hcase as [->|[-> ->]]; [by apply NoDup_replace|].
    erewrite take_S_r by done. rewrite fmap_app. cbn.
    rewrite insert_app_r_alt by (rewrite length_fmap, length_take; lia).
    rewrite length_fmap, length_take, Nat.min_l, Nat.sub_diag by lia. cbn.
    apply NoDup_app. split_and!; [done| |apply NoDup_singleton].
    intros x Hx ->%list_elem_of_singleton. done. }
  split; [done|].
  assert (Hl : take n (alter f i (entries jt)) !! i = Some (f e0)).
  { rewrite lookup_take_lt by done. by rewrite list_lookup_alter_eq, He0. }
  pose proof (find_entry_unique _ _ _ Hnd Hl) as H. by rewrite Hf in H.
Qed.

(** Creating an entry for an address the table does not hold, with room for a
    stub in mapped memory: the entry is returned, the stub it points to jumps to the target, no other
    byte of memory changes, the bytes used grow by one stub and the table stays well
    formed (so the next lookup of the address finds this entry).  Without room the
    function returns NULL and writes no code, yet the address has become an entry of
    the table. *)
Theorem jumptable_create_new jt m a target :
  jt_wf jt -> a ∉ arm_addr <$> take (count jt) (entries jt) -> target <> 0 ->
  0 < code_memory jt -> 0 <= memory_used jt -> code_memory jt + memory_capacity jt <= 2^64 ->
  let stub := code_memory jt + memory_used jt in
  let '(r, p', m') := jumptable_create_entry (Some jt) m a target in
  exists jt', p' = Some jt' /\ jt_wf jt' /\ exists i, find_entry (take (count jt') (entries jt')) a = Some i /\
  if memory_used jt + 14 <=? memory_capacity jt then
    r = Some i /\ jumptable_get_stub_code jt' r = stub /\ stub_jumps m' stub target /\
    (forall x, x < stub \/ stub + 14 <= x -> m' x = m x) /\ memory_used jt' = memory_used jt + 14
  else r = None /\ m' = m.
Proof.
  intros Hwf Ha Ht Hlo Hmu Hhi stub. unfold jumptable_create_entry, create_entry, lookup_entry.
  rewrite (proj2 (Z.eqb_neq _ _) Ht), (proj2 (find_entry_None _ _) Ha).
  pose proof (slot_for_new_spec jt Hwf) as Hs. destruct (slot_for_new jt) as [i n].
  destruct Hs as (Hin & Hcn & Hcase). assert (Hcase' : n = count jt \/ i = count jt /\ n = S (count jt)) by tauto.
  cbv zeta. cbn [memory_capacity memory_used entries count capacity code_memory].
  set (fill := fun e => _).
  destruct (fill_unique jt fill a i n Hwf Ha (fun _ => eq_refl) Hin Hcase') as [Hnd Hf].
  rewrite Z.ltb_antisym. change STUB_SIZE_INDIRECT with 14.
  destruct (memory_used jt + 14 <=? memory_capacity jt) eqn:Em; cbn [negb].
  - apply Z.leb_le in Em. cbv iota. set (place := fun e => Build_JumpTableEntry _ _ _ _ _). rewrite alter_twice.
    destruct (fill_unique jt (place ∘ fill) a i n Hwf Ha (fun _ => eq_refl) Hin Hcase') as [Hnd' Hf'].
    destruct Hwf as [Hlen Hcap Hcnt Huniq].
    assert (Hi : is_Some (entries jt !! i)) by (apply lookup_lt_is_Some; lia). destruct Hi as [e0 He0].
    eexists. split; [reflexivity|].
    split; [split; cbn [entries capacity count]; [by rewrite length_alter|done|lia|done]|].
    exists i. split; [done|]. split; [done|]. split_and!.
    + unfold jumptable_get_stub_code. cbn [entries]. by rewrite list_lookup_alter_eq, He0.
    + apply stored_stub_jumps; unfold stub; lia.
    + intros x Hx. by apply store_other.
    + done.
  - destruct Hwf as [Hlen Hcap Hcnt Huniq]. eexists. split; [reflexivity|].
    split; [split; cbn [entries capacity count]; [by rewrite length_alter|done|lia|done]|].
    exists i. done.
Qed.
Lemma jumptable_create_new_witness :
  let jt := Build_JumpTable (replicate JUMP_TABLE_SIZE zero_entry) 0 JUMP_TABLE_SIZE 0x10000 0 0x100000 in
  let '(r, p', m') := jumptable_create_entry (Some jt) (fun _ => 0) 0x4000 0x5000 in
  r = Some 0%nat /\ stub_jumps m' 0x10000 0x5000.
Proof.
  pose proof (jumptable_create_new (Build_JumpTable (replicate JUMP_TABLE_SIZE zero_entry) 0 JUMP_TABLE_SIZE 0x10000 0 0x100000)
    (fun _ => 0) 0x4000 0x5000) as H.
  cbv zeta. destruct (jumptable_create_entry _ _ _ _) as [[r p'] m'] eqn:E.
  destruct H as (jt' & _ & _ & i & _ & H); cbn [count entries code_memory memory_used memory_capacity].
  - split; [apply length_replicate | reflexivity | apply Nat.le_0_l | apply NoDup_nil_2].
  - by intros ?%elem_of_nil.
  - lia.
  - lia.
  - lia.
  - lia.
  - change (_ <=? _) with true in H. cbn iota in H. destruct H as (-> & _ & H & _). split; [|exact H].
    injection E as E _ _. rewrite <- E. reflexivity.
Defined.

(** Patching an entry of a well-formed table whose stub exists makes the stub
    jump to the new target, changing only the eight bytes of the stub's pointer, and
    records the target.  Creating an entry for an address already there instead only
    records the target and counts a hit: no byte of memory changes, so the stub keeps
    jumping where it did. *)
Theorem jumptable_retarget jt m a i e new_target :
  jt_wf jt -> find_entry (take (count jt) (entries jt)) a = Some i -> entries jt !! i = Some e ->
  x86_stub e <> 0 -> new_target <> 0 -> 0 <= x86_stub e -> x86_stub e + 14 <= 2^64 ->
  stub_jumps m (x86_stub e) (x86_target e) ->
  (let '(rc, jt', m') := jumptable_patch_entry jt m (Some i) new_target in
   rc = 0 /\ stub_jumps m' (x86_stub e) new_target /\
   (forall x, x < x86_stub e + 6 \/ x86_stub e + 14 <= x -> m' x = m x) /\
   x86_target <$> entries jt' !! i = Some new_target) /\
  (let '(r, p', m') := jumptable_create_entry (Some jt) m a new_target in
   exists jt', p' = Some jt' /\ r = Some i /\ x86_target <$> entries jt' !! i = Some new_target /\
   hit_count <$> entries jt' !! i = Some (u32 (hit_count e + 1)) /\
   m' = m /\ stub_jumps m' (x86_stub e) (x86_target e)).
Proof.
  intros Hwf Hf He Hs Ht Hlo Hhi Hj. split.
  - unfold jumptable_patch_entry. rewrite He, (proj2 (Z.eqb_neq _ _) Hs), (proj2 (Z.eqb_neq _ _) Ht). cbn [orb].
    assert (Ed : drop 6 (stub_bytes new_target) = le_bytes 8 new_target) by (unfold stub_bytes; by rewrite target_bytes).
    rewrite Ed. split_and!; [done| | |].
    + split.
      * destruct Hj as [Hj _]. rewrite <- Hj. f_equal. unfold bytes_at. apply map_ext_in.
        intros k Hk%in_seq. apply store_other. lia.
      * apply load64_stored; [lia..|]. intros k Hk. apply store_in. by rewrite length_le_bytes.
    + intros x Hx. apply store_other. rewrite length_le_bytes. lia.
    + cbn [entries set_entries]. by rewrite list_lookup_alter_eq, He.
  - unfold jumptable_create_entry, create_entry, lookup_entry. rewrite (proj2 (Z.eqb_neq _ _) Ht), Hf.
    eexists. split; [reflexivity|]. cbn [entries set_entries]. rewrite alter_twice. rewrite !list_lookup_alter_eq, He. done.
Qed.
Lemma jumptable_retarget_witness :
  let e := Build_JumpTableEntry 0x4000 0x10000 0x5000 0 false in
  let jt := Build_JumpTable (e :: replicate 4095 zero_entry) 1 JUMP_TABLE_SIZE 0x10000 14 0x100000 in
  let m := store (fun _ => 0) 0x10000 (stub_bytes 0x5000) in
  let '(rc, jt', m') := jumptable_patch_entry jt m (Some 0%nat) 0x6000 in
  rc = 0 /\ stub_jumps m' 0x10000 0x6000.
Proof.
  intros e jt m.
  destruct (jumptable_retarget jt m 0x4000 0 e 0x6000) as [H _].
  - split; [reflexivity | reflexivity | apply Nat.leb_le; reflexivity | apply NoDup_singleton].
  - reflexivity.
  - reflexivity.
  - discriminate.
  - discriminate.
  - cbn; lia.
  - cbn; lia.
  - apply stored_stub_jumps; cbn; lia.
  - destruct (jumptable_patch_entry jt m (Some 0%nat) 0x6000) as [[rc jt'] m'].
    destruct H as (H1 & H2 & _). split; [exact H1 | exact H2].
Defined.

(** The NULL entry of an exhausted table is dereferenced by the trampoline getter. *)
Example trampoline_null_deref :
  let g := Build_JumpTable (replicate JUMP_TABLE_SIZE zero_entry) 0 JUMP_TABLE_SIZE 0x10000 0x100000 0x100000 in
  (nb_getTrampolineWithJumps None 1 1 0x4000 g (fun _ => 0)).1.1 = None.
Proof. vm_compute. reflexivity. Qed.
