(* ===== verification/PageProt.v ===== *)
(** * Page protection tracking: [modules/arm2x86_pageprot.c]

    A bounded array of page states, searched from the front.  The array is a list of
    its [count] entries in use (the entries beyond are written before they are read).
    Addresses are 64-bit and wrap.  The real [mmap] and [mprotect] are parameters;
    the calls made to [mprotect] are part of the results. *)
From S2P Require Import Prelude.
From Stdlib Require Import ZArith Lia Bool.
From stdpp Require Import base numbers list sets.
Open Scope Z_scope.
Open Scope c_scope.

Definition PAGE_SIZE := 4096.
Definition PAGE_TRACK_MAX := 65536.
Definition PAGE_PROT_READ := 0x1.
Definition PAGE_PROT_WRITE := 0x2.
Definition PAGE_PROT_EXEC := 0x4.

(** [~(PAGE_SIZE - 1)] converted to 64 bits. *)
Definition PAGE_MASK := 2^64 - 4096.
Definition PAGE_ALIGN_DOWN (a : Z) : Z := a &&& PAGE_MASK.
Definition PAGE_ALIGN_UP (a : Z) : Z := u64 (a + PAGE_SIZE - 1) &&& PAGE_MASK.

Record PageState := { page_addr : Z; prot : Z; is_watched : bool; fault_count : Z }.
Notation PageProtector := (list PageState).

Definition set_prot (v : Z) (ps : PageState) : PageState :=
  Build_PageState (page_addr ps) v (is_watched ps) (fault_count ps).
Definition count_fault (ps : PageState) : PageState :=
  Build_PageState (page_addr ps) (prot ps) (is_watched ps) (u32 (fault_count ps + 1)).

Definition page_protect_init (pp : option PageProtector) : Z * option PageProtector :=
  match pp with None => (-1, None) | Some _ => (0, Some []) end.

(** The first entry for page [p] changed by [f]; [None] when there is none. *)
Fixpoint change_first (f : PageState -> PageState) (pages : PageProtector) (p : Z) : option PageProtector :=
  match pages with
  | [] => None
  | ps :: pages =>
    if page_addr ps =? p then Some (f ps :: pages)
    else match change_first f pages p with Some l => Some (ps :: l) | None => None end
  end.

(** The body of the loop over the pages: update the entry or append one. *)
Definition add_page (pages : PageProtector) (p v : Z) : PageProtector :=
  match change_first (set_prot v) pages p with
  | Some l => l
  | None => pages ++ [{| page_addr := p; prot := v; is_watched := true; fault_count := 0 |}]
  end.

(** [for (p = start; p < end; p += PAGE_SIZE)], stopping when the array is full. *)
Fixpoint add_pages (fuel : nat) (pages : PageProtector) (p end_ v : Z) : PageProtector :=
  match fuel with
  | O => pages
  | S fuel =>
    if p <? end_ then
      if PAGE_TRACK_MAX <=? Z.of_nat (length pages) then pages
      else add_pages fuel (add_page pages p v) (u64 (p + PAGE_SIZE)) end_ v
    else pages
  end.

(** Iterations enough for [start] to reach [end_]. *)
Definition add_fuel (start end_ : Z) : nat := Z.to_nat ((end_ - start) / PAGE_SIZE + 1).

Definition page_protect_add (pp : option PageProtector) (addr size v : Z) : Z * option PageProtector :=
  match pp with
  | None => (-1, None)
  | Some pages =>
    if (addr =? 0) || (size =? 0) then (-1, Some pages)
    else if PAGE_TRACK_MAX <=? Z.of_nat (length pages) then (-1, Some pages)
    else
      let start := PAGE_ALIGN_DOWN addr in
      let end_ := PAGE_ALIGN_UP (u64 (addr + size)) in
      (0, Some (add_pages (add_fuel start end_) pages start end_ v))
  end.

Definition page_protect_modify (pp : option PageProtector) (addr new_prot : Z) : Z * option PageProtector :=
  match pp with
  | None => (-1, None)
  | Some pages =>
    let page := PAGE_ALIGN_DOWN addr in
    match change_first (set_prot new_prot) pages page with
    | Some l => (0, Some l)
    | None => page_protect_add (Some pages) page PAGE_SIZE new_prot
    end
  end.

Fixpoint check_pages (pages : PageProtector) (page access_type : Z) : Z :=
  match pages with
  | [] => 0
  | ps :: pages =>
    if page_addr ps =? page then
      if (prot ps &&& access_type) =? access_type then 0 else -1
    else check_pages pages page access_type
  end.

Definition page_protect_check (pp : option PageProtector) (addr access_type : Z) : Z :=
  match pp with None => -1 | Some pages => check_pages pages (PAGE_ALIGN_DOWN addr) access_type end.

(** The scan of the fault handler: it goes on after a page it does not unprotect.
    The last component is the page given to [mprotect]. *)
Fixpoint fault_scan (pages : PageProtector) (page : Z) : Z * PageProtector * option Z :=
  match pages with
  | [] => (-1, [], None)
  | ps :: rest =>
    if page_addr ps =? page then
      let ps := count_fault ps in
      if c_true (prot ps &&& PAGE_PROT_READ) && negb (c_true (prot ps &&& PAGE_PROT_WRITE)) then
        (0, set_prot (prot ps ||| PAGE_PROT_WRITE) ps :: rest, Some page)
      else let '(rc, l, call) := fault_scan rest page in (rc, ps :: l, call)
    else let '(rc, l, call) := fault_scan rest page in (rc, ps :: l, call)
  end.

Definition page_protect_handle_fault (pp : option PageProtector) (fault_addr : Z)
    : Z * option PageProtector * option Z :=
  match pp with
  | None => (-1, None, None)
  | Some pages =>
    let '(rc, l, call) := fault_scan pages (PAGE_ALIGN_DOWN fault_addr) in (rc, Some l, call)
  end.

(** [result]: what the real [mmap] returned, [None] for MAP_FAILED. *)
Definition page_protect_mmap (result : option Z) (length prot : Z) (g : PageProtector)
    : option Z * PageProtector :=
  match result with
  | None => (None, g)
  | Some p => (Some p, default g (page_protect_add (Some g) p length (u8 prot)).2)
  end.

(** [rc]: what the real [mprotect] returned. *)
Definition page_protect_mprotect (rc addr prot : Z) (g : PageProtector) : Z * PageProtector :=
  (rc, default g (page_protect_modify (Some g) addr (u8 prot)).2).

(** ** The abstract state: the protection tracked for each page *)

Fixpoint prot_of (pages : PageProtector) (p : Z) : option Z :=
  match pages with
  | [] => None
  | ps :: pages => if page_addr ps =? p then Some (prot ps) else prot_of pages p
  end.

(** Pages are aligned 64-bit addresses, each tracked once, within the capacity. *)
Record pp_wf (pages : PageProtector) : Prop := {
  pp_unique : NoDup (page_addr <$> pages);
  pp_aligned : Forall (fun ps => 0 <= page_addr ps < 2^64 /\ page_addr ps mod PAGE_SIZE = 0) pages;
  pp_bound : Z.of_nat (length pages) <= PAGE_TRACK_MAX }.

Lemma align_down_eq a : 0 <= a < 2^64 -> PAGE_ALIGN_DOWN a = a - a mod PAGE_SIZE.
Proof.
  intros Ha. unfold PAGE_ALIGN_DOWN, PAGE_SIZE.
  assert (Hd : (a &&& PAGE_MASK) &&& (a &&& 4095) = 0).
  { rewrite (Z.land_comm a 4095), Z.land_assoc, <- (Z.land_assoc a PAGE_MASK 4095).
    change (PAGE_MASK &&& 4095) with 0. by rewrite Z.land_0_r, Z.land_0_l. }
  assert (E : a = (a &&& PAGE_MASK) + (a &&& 4095)).
  { rewrite (Z.add_nocarry_lxor _ _ Hd), (Z.lxor_lor _ _ Hd), <- Z.land_lor_distr_r.
    change (PAGE_MASK ||| 4095) with (2^64 - 1). symmetry. by apply (land_small a 64). }
  rewrite (land_ones_mod a 12 4095) in E by done. change (2^12) with 4096 in E. lia.
Qed.

Lemma align_up_eq a : 0 <= a -> a + 4095 < 2^64 -> PAGE_ALIGN_UP a = (a + 4095) - (a + 4095) mod PAGE_SIZE.
Proof.
  intros H1 H2. unfold PAGE_ALIGN_UP. replace (a + PAGE_SIZE - 1) with (a + 4095) by (unfold PAGE_SIZE; lia).
  rewrite u64_small by lia. apply align_down_eq. lia.
Qed.

Lemma check_prot pages page acc :
  check_pages pages page acc =
  match prot_of pages page with Some v => if (v &&& acc) =? acc then 0 else -1 | None => 0 end.
Proof. induction pages as [|ps l IH]; cbn; [done|]. by destruct (page_addr ps =? page). Qed.

Lemma change_first_spec f pages p :
  (forall ps, page_addr (f ps) = page_addr ps) ->
  match change_first f pages p with
  | Some l => page_addr <$> l = page_addr <$> pages /\ p ∈ page_addr <$> pages /\
      (forall q, q <> p -> prot_of l q = prot_of pages q) /\
      (forall v, (forall ps, prot (f ps) = v) -> prot_of l p = Some v)
  | None => p ∉ page_addr <$> pages
  end.
Proof.
  intros Hf. induction pages as [|ps l IH]; cbn; [set_solver|].
  destruct (page_addr ps =? p) eqn:E; [apply Z.eqb_eq in E; subst p|apply Z.eqb_neq in E].
  - rewrite !fmap_cons, Hf. cbn [prot_of]. split_and!; [done|set_solver| |].
    + intros q Hq. by rewrite Hf, (proj2 (Z.eqb_neq (page_addr ps) q)) by done.
    + intros v Hv. by rewrite Hf, Z.eqb_refl, Hv.
  - destruct (change_first f l p) as [l'|]; [|set_solver].
    destruct IH as (H1 & H2 & H3 & H4). rewrite !fmap_cons, H1. cbn [prot_of]. split_and!; [done|set_solver| |].
    + intros q Hq. by rewrite H3.
    + intros v Hv. rewrite (proj2 (Z.eqb_neq _ _) E). by apply H4.
Qed.

Lemma prot_of_app l1 l2 p : prot_of (l1 ++ l2) p = match prot_of l1 p with Some v => Some v | None => prot_of l2 p end.
Proof. induction l1 as [|ps l IH]; cbn; [done|]. by destruct (_ =? _). Qed.
Lemma prot_of_notin pages p : p ∉ page_addr <$> pages -> prot_of pages p = None.
Proof.
  induction pages as [|ps l IH]; cbn; [done|]. intros H. rewrite (proj2 (Z.eqb_neq _ _)) by set_solver.
  apply IH. set_solver.
Qed.

Lemma aligned_addrs pages l :
  page_addr <$> l = page_addr <$> pages ->
  Forall (fun ps => 0 <= page_addr ps < 2^64 /\ page_addr ps mod PAGE_SIZE = 0) pages ->
  Forall (fun ps => 0 <= page_addr ps < 2^64 /\ page_addr ps mod PAGE_SIZE = 0) l.
Proof.
  intros E H. revert l E. induction H as [|ps pages Hps _ IH]; intros [|ps' l] E; [constructor|done|done|].
  rewrite !fmap_cons in E. injection E as E1 E2. constructor; [by rewrite E1 | by apply IH].
Qed.

Lemma add_page_spec pages p v :
  pp_wf pages -> 0 <= p < 2^64 -> p mod PAGE_SIZE = 0 -> Z.of_nat (length pages) < PAGE_TRACK_MAX ->
  pp_wf (add_page pages p v) /\ (length (add_page pages p v) <= S (length pages))%nat /\
  forall q, prot_of (add_page pages p v) q = if q =? p then Some v else prot_of pages q.
Proof.
  intros [Hu Ha Hb] Hp Hm Hl. unfold add_page.
  pose proof (change_first_spec (set_prot v) pages p (fun _ => eq_refl)) as H.
  destruct (change_first _ pages p) as [l|].
  - destruct H as (H1 & H2 & H3 & H4).
    assert (Hlen : length l = length pages) by (by rewrite <- (length_fmap page_addr l), H1, length_fmap).
    split; [|split; [lia|]].
    + split; [by rewrite H1 | by apply (aligned_addrs pages) | lia].
    + intros q. destruct (q =? p) eqn:E; [apply Z.eqb_eq in E; subst|apply Z.eqb_neq in E; by apply H3].
      by apply H4.
  - split; [|split; [rewrite length_app; cbn; lia|]].
    + split.
      * rewrite fmap_app. apply NoDup_app. split_and!; [done| |apply NoDup_singleton].
        intros x Hx Hx'. apply list_elem_of_singleton in Hx'. cbn in Hx'. by subst.
      * apply Forall_app. split; [done|]. by apply Forall_singleton.
      * rewrite length_app. cbn. lia.
    + intros q. rewrite prot_of_app. cbn. rewrite (Z.eqb_sym p q).
      destruct (q =? p) eqn:E; [apply Z.eqb_eq in E; subst; by rewrite prot_of_notin|].
      by destruct (prot_of pages q).
Qed.

Lemma add_pages_wf fuel pages p end_ v :
  pp_wf pages -> 0 <= p < 2^64 -> p mod PAGE_SIZE = 0 -> pp_wf (add_pages fuel pages p end_ v).
Proof.
  revert pages p. induction fuel as [|fuel IH]; intros pages p Hwf Hp Hm; cbn [add_pages]; [done|].
  destruct (p <? end_); [|done]. destruct (PAGE_TRACK_MAX <=? _) eqn:E; [done|]. apply Z.leb_gt in E.
  apply IH; [by apply add_page_spec|apply u64_range|].
  unfold u64, PAGE_SIZE in *. Z.div_mod_to_equations; lia.
Qed.

Lemma add_pages_run fuel pages p end_ v :
  pp_wf pages -> 0 <= p -> p mod PAGE_SIZE = 0 -> end_ mod PAGE_SIZE = 0 -> p <= end_ < 2^64 ->
  (end_ - p) / PAGE_SIZE < Z.of_nat fuel ->
  Z.of_nat (length pages) + (end_ - p) / PAGE_SIZE <= PAGE_TRACK_MAX ->
  forall q, q mod PAGE_SIZE = 0 ->
    prot_of (add_pages fuel pages p end_ v) q
    = if (p <=? q) && (q <? end_) then Some v else prot_of pages q.
Proof.
  revert pages p. induction fuel as [|fuel IH]; intros pages p Hwf H0 Hm He Hpe Hf Hroom q Hq.
  { unfold PAGE_SIZE in *. Z.div_mod_to_equations; lia. }
  cbn [add_pages]. destruct (p <? end_) eqn:E; [apply Z.ltb_lt in E|apply Z.ltb_ge in E].
  - assert (Hstep : end_ - p = PAGE_SIZE + (end_ - (p + PAGE_SIZE)) /\ p + PAGE_SIZE <= end_ /\
      (end_ - p) / PAGE_SIZE = 1 + (end_ - (p + PAGE_SIZE)) / PAGE_SIZE)
      by (unfold PAGE_SIZE in *; Z.div_mod_to_equations; lia).
    destruct Hstep as (_ & Hle & Hdiv).
    assert (0 <= (end_ - (p + PAGE_SIZE)) / PAGE_SIZE) by (apply Z.div_pos; unfold PAGE_SIZE in *; lia).
    destruct (PAGE_TRACK_MAX <=? _) eqn:E2; [apply Z.leb_le in E2; lia|]. apply Z.leb_gt in E2.
    destruct (add_page_spec pages p v) as (Hwf' & Hlen & Hprot); [done|lia|done|done|].
    rewrite u64_small by (unfold PAGE_SIZE in *; lia).
    rewrite IH; [|done|unfold PAGE_SIZE in *; lia| |done|lia|lia|lia|done].
    + rewrite Hprot. destruct (q =? p) eqn:Eq; [apply Z.eqb_eq in Eq; subst q|apply Z.eqb_neq in Eq].
      * rewrite Z.leb_refl, (proj2 (Z.ltb_lt _ _)) by done. by destruct (_ && _).
      * replace (p + PAGE_SIZE <=? q) with (p <=? q); [done|].
        apply eq_true_iff_eq. rewrite !Z.leb_le. unfold PAGE_SIZE in *. Z.div_mod_to_equations; lia.
    + unfold PAGE_SIZE in *. Z.div_mod_to_equations; lia.
  - assert (Eq : (p <=? q) && (q <? end_) = false); [|by rewrite Eq].
    apply andb_false_iff. rewrite Z.leb_gt, Z.ltb_ge. lia.
Qed.

(** Adding a range to a well-formed tracker keeps it well formed whatever the
    range.  When the range and its rounding up do not wrap around the address space
    and the array has room for its pages, the call succeeds and afterwards exactly
    the pages that meet the range carry the new protection, the others being as
    before: an access check of an address of the range depends on the new protection
    alone. *)
Theorem page_protect_add_correct pages addr size v :
  pp_wf pages -> 0 < addr < 2^64 -> 0 < size < 2^64 ->
  let '(rc, r) := page_protect_add (Some pages) addr size v in
  exists pages', r = Some pages' /\ pp_wf pages' /\
  (addr + size + 4095 < 2^64 ->
   Z.of_nat (length pages) + (addr + size + 4095) / 4096 - addr / 4096 <= PAGE_TRACK_MAX ->
   rc = 0 /\
   (forall q, q mod 4096 = 0 -> prot_of pages' q
      = if (addr / 4096 <=? q / 4096) && (q <? addr + size) then Some v else prot_of pages q) /\
   (forall x acc, addr <= x < addr + size ->
      page_protect_check (Some pages') x acc = if (v &&& acc) =? acc then 0 else -1)).
Proof.
  intros Hwf Ha Hs. unfold page_protect_add.
  rewrite (proj2 (Z.eqb_neq addr 0)), (proj2 (Z.eqb_neq size 0)) by lia. cbn [orb].
  destruct (PAGE_TRACK_MAX <=? _) eqn:E; [apply Z.leb_le in E|apply Z.leb_gt in E].
  { exists pages. split_and!; [done..|]. intros H1 H2. exfalso. Z.div_mod_to_equations; lia. }
  rewrite align_down_eq by lia. set (start := addr - addr mod PAGE_SIZE). cbv zeta.
  assert (Hst : 0 <= start /\ start mod PAGE_SIZE = 0 /\ start < 2^64 /\ start = 4096 * (addr / 4096))
    by (unfold start, PAGE_SIZE; Z.div_mod_to_equations; lia).
  eexists. split; [reflexivity|]. split; [apply add_pages_wf; tauto || lia|].
  intros H1 H2. split; [done|].
  rewrite (u64_small (addr + size)) by lia. rewrite align_up_eq by lia.
  set (end_ := addr + size + 4095 - _).
  assert (Hen : end_ mod PAGE_SIZE = 0 /\ start <= end_ < 2^64 /\ addr + size <= end_ /\
    end_ < addr + size + 4096 /\ (end_ - start) / PAGE_SIZE = (addr + size + 4095) / 4096 - addr / 4096)
    by (unfold end_, start, PAGE_SIZE; Z.div_mod_to_equations; lia).
  destruct Hst as (Hst1 & Hst2 & Hst3 & Hst4). destruct Hen as (He1 & He2 & He3 & He4 & He5).
  assert (Hrun : forall q, q mod 4096 = 0 ->
    prot_of (add_pages (add_fuel start end_) pages start end_ v) q
    = if (start <=? q) && (q <? end_) then Some v else prot_of pages q).
  { apply add_pages_run; try done; [|by rewrite He5; lia].
    unfold add_fuel. rewrite Z2Nat.id; [lia|]. rewrite He5. Z.div_mod_to_equations; lia. }
  split.
  - intros q Hq. rewrite Hrun by done.
    replace (start <=? q) with (addr / 4096 <=? q / 4096)
      by (apply eq_true_iff_eq; rewrite !Z.leb_le; Z.div_mod_to_equations; lia).
    replace (q <? end_) with (q <? addr + size); [done|].
    apply eq_true_iff_eq. rewrite !Z.ltb_lt. unfold PAGE_SIZE in *. Z.div_mod_to_equations; lia.
  - intros x acc Hx. unfold page_protect_check. rewrite check_prot, align_down_eq by lia.
    rewrite Hrun by (unfold PAGE_SIZE; Z.div_mod_to_equations; lia).
    rewrite (proj2 (andb_true_iff _ _)); [done|]. rewrite Z.leb_le, Z.ltb_lt.
    unfold start, PAGE_SIZE in *. Z.div_mod_to_equations; lia.
Qed.
Lemma page_protect_add_correct_witness :
  exists pages', page_protect_add (Some []) 0x1ff0 0x20 1 = (0, Some pages') /\
    page_protect_check (Some pages') 0x2000 2 = -1 /\ page_protect_check (Some pages') 0x1fff 1 = 0.
Proof.
  pose proof (page_protect_add_correct [] 0x1ff0 0x20 1) as H.
  assert (Hwf : pp_wf []) by (split; [apply NoDup_nil_2 | apply Forall_nil_2 | vm_compute; congruence]).
  specialize (H Hwf ltac:(lia) ltac:(lia)).
  destruct (page_protect_add (Some []) 0x1ff0 0x20 1) as [rc r].
  destruct H as (pages' & -> & _ & H). destruct H as (-> & _ & H); [lia | vm_compute; congruence |].
  exists pages'. split; [reflexivity|].
  split; [rewrite (H 0x2000 2) by lia; reflexivity | rewrite (H 0x1fff 1) by lia; reflexivity].
Defined.

(** A range that wraps around the address space is accepted and tracks nothing. *)
Example add_wrapping_range : page_protect_add (Some []) (2^64 - 4096) 8192 1 = (0, Some []).
Proof. vm_compute. reflexivity. Qed.

Lemma fault_scan_untracked pages page : prot_of pages page = None -> fault_scan pages page = (-1, pages, None).
Proof.
  induction pages as [|ps l IH]; cbn; [done|]. destruct (page_addr ps =? page); [done|].
  intros H. by rewrite IH.
Qed.

(** The fault handler of a well-formed tracker handles a fault (result 0)
    exactly when its page is tracked, readable and not writable; then it asks for
    [mprotect] on that page and adds write permission to it, so that writes pass the
    check from then on.  In every case the protection of the other pages is
    unchanged and the tracker stays well formed. *)
Theorem page_protect_fault_correct pages addr :
  pp_wf pages -> 0 <= addr < 2^64 ->
  let page := PAGE_ALIGN_DOWN addr in
  let '(rc, r, call) := page_protect_handle_fault (Some pages) addr in
  exists pages', r = Some pages' /\ pp_wf pages' /\
    (forall q, q <> page -> prot_of pages' q = prot_of pages q) /\
    (rc = 0 <-> exists v, prot_of pages page = Some v /\ v &&& 1 <> 0 /\ v &&& 2 = 0) /\
    (rc = 0 -> call = Some page /\ page_protect_check (Some pages') addr PAGE_PROT_WRITE = 0) /\
    (rc <> 0 -> rc = -1 /\ call = None /\ prot_of pages' page = prot_of pages page).
Proof.
  intros Hwf Ha page. unfold page_protect_handle_fault. fold page.
  assert (Hscan : forall pages, NoDup (page_addr <$> pages) ->
    let '(rc, l, call) := fault_scan pages page in
    page_addr <$> l = page_addr <$> pages /\
    (forall q, q <> page -> prot_of l q = prot_of pages q) /\
    match prot_of pages page with
    | Some v => if c_true (v &&& 1) && negb (c_true (v &&& 2))
                then rc = 0 /\ call = Some page /\ prot_of l page = Some (v ||| 2)
                else rc = -1 /\ call = None /\ prot_of l page = Some v
    | None => rc = -1 /\ call = None /\ prot_of l page = None
    end).
  { clear pages Hwf. induction pages as [|ps l IH]; intros Hnd; cbn [fault_scan prot_of]; [done|].
    rewrite fmap_cons, NoDup_cons in Hnd. destruct Hnd as [Hn Hnd]. specialize (IH Hnd).
    destruct (page_addr ps =? page) eqn:E; [apply Z.eqb_eq in E | apply Z.eqb_neq in E].
    - change (prot (count_fault ps)) with (prot ps). unfold PAGE_PROT_READ, PAGE_PROT_WRITE.
      rewrite (fault_scan_untracked l page) by (apply prot_of_notin; by rewrite <- E).
      assert (Hne : forall q, q <> page -> (page_addr ps =? q) = false) by (intros; apply Z.eqb_neq; congruence).
      destruct (c_true (prot ps &&& 1) && negb (c_true (prot ps &&& 2)));
        (split_and!; [done | intros q Hq; cbn; by rewrite Hne | done | done | cbn; by rewrite E, Z.eqb_refl]).
    - destruct (fault_scan l page) as [[rc l'] call]. destruct IH as (H1 & H2 & H3).
      rewrite !fmap_cons, H1. split; [done|]. cbn [prot_of].
      rewrite (proj2 (Z.eqb_neq _ _) E). split; [|done]. intros q Hq. by rewrite H2. }
  specialize (Hscan pages (pp_unique _ Hwf)). destruct (fault_scan pages page) as [[rc l] call].
  destruct Hscan as (H1 & H2 & H3). exists l. split; [done|].
  assert (Hwl : pp_wf l).
  { split; [rewrite H1; apply Hwf | by apply (aligned_addrs pages), Hwf |].
    rewrite <- (length_fmap page_addr l), H1, length_fmap. apply Hwf. }
  split; [done|]. split; [done|]. unfold page_protect_check. rewrite check_prot. fold page.
  destruct (prot_of pages page) as [v|].
  - unfold c_true in H3. rewrite negb_involutive in H3.
    destruct (v &&& 1 =? 0) eqn:E1; [apply Z.eqb_eq in E1|apply Z.eqb_neq in E1];
      (destruct (v &&& 2 =? 0) eqn:E2; [apply Z.eqb_eq in E2|apply Z.eqb_neq in E2]); cbn in H3;
      destruct H3 as (-> & -> & ->); (split; [split; [|naive_solver congruence]|split; [|done]]); try done;
      try (intros _; by exists v).
    intros _. split; [done|]. unfold PAGE_PROT_WRITE.
    rewrite Z.land_lor_distr_l, E2. done.
  - destruct H3 as (-> & -> & H3). split_and!; [split; [done|by intros (? & ? & _)]|done|done].
Qed.
Lemma page_protect_fault_correct_witness :
  let pages := [{| page_addr := 0x2000; prot := 1; is_watched := true; fault_count := 0 |}] in
  exists pages', page_protect_handle_fault (Some pages) 0x2abc = (0, Some pages', Some 0x2000) /\
    page_protect_check (Some pages') 0x2abc PAGE_PROT_WRITE = 0.
Proof.
  intros pages. pose proof (page_protect_fault_correct pages 0x2abc) as H.
  assert (Hwf : pp_wf pages).
  { split; [apply NoDup_singleton | apply Forall_singleton; vm_compute; split; [split|]; congruence |
            vm_compute; congruence]. }
  specialize (H Hwf ltac:(lia)). cbv zeta in H.
  destruct (page_protect_handle_fault (Some pages) 0x2abc) as [[rc r] call].
  destruct H as (pages' & -> & _ & _ & H1 & H2 & _).
  assert (Hrc : rc = 0) by (apply H1; exists 1; split; [reflexivity | split; [discriminate | reflexivity]]).
  destruct (H2 Hrc) as [-> H3]. exists pages'. rewrite Hrc. split; [reflexivity | exact H3].
Defined.
