(* ===== verification/Peephole.v ===== *)
(** * The peephole optimizer: [modules/arm2x86_peephole.c]

    The code buffer is a total function from offsets to bytes (the C reads past the
    end of the code while matching).  The patterns assign to the local pointer
    [size], never to [*size], so the size is a constant.  A [memmove] whose length
    [*size - idx - len] wraps below zero runs off the mapping: that is the outcome
    [Crash].  The only call of the optimizer in the repository is commented out. *)
From S2P Require Import Prelude X86.
From Stdlib Require Import ZArith Lia Bool.
From stdpp Require Import base numbers list relations.
Open Scope Z_scope.
Open Scope c_scope.

(** ** Matching *)

Definition is_rex_w (byte : Z) : bool := (byte &&& 0xF8) =? 0x48.

Definition is_mov_imm64 (m : Z -> Z) (p : Z) : bool := (m p =? 0x48) && ((m (p + 1) &&& 0xF8) =? 0xB8).

Definition is_mov_imm32 (m : Z -> Z) (p : Z) : bool := ((m p &&& 0xF8) =? 0xB8) && negb (is_rex_w (m p)).

(** The registers of a ModR/M byte in register mode. *)
Definition modrm_regs (modrm : Z) : option (Z * Z) :=
  if (modrm >>> 6) =? 3 then Some (modrm &&& 7, (modrm >>> 3) &&& 7) else None.

(** With the REX bits of [b]: 0x04 extends the first, 0x01 the second. *)
Definition extend_regs (b : Z) (r : option (Z * Z)) : option (Z * Z) :=
  match r with
  | Some (dest, src) => Some (if c_true (b &&& 0x04) then dest ||| 8 else dest,
                              if c_true (b &&& 0x01) then src ||| 8 else src)
  | None => None
  end.

Definition is_rex4 (b : Z) : bool := (b =? 0x48) || (b =? 0x49) || (b =? 0x4C) || (b =? 0x4D).

Definition is_mov_reg (m : Z -> Z) (p : Z) : option (Z * Z) :=
  if is_rex4 (m p) then
    if m (p + 1) =? 0x89 then extend_regs (m p) (modrm_regs (m (p + 2))) else None
  else if m p =? 0x89 then modrm_regs (m (p + 1))
  else None.

Definition is_add_reg (m : Z -> Z) (p : Z) : option (Z * Z) :=
  if (m p =? 0x48) && (m (p + 1) =? 0x01) then extend_regs (m p) (modrm_regs (m (p + 2)))
  else if m p =? 0x01 then modrm_regs (m (p + 1))
  else None.

Definition is_sub_reg (m : Z -> Z) (p : Z) : option (Z * Z) :=
  if (m p =? 0x48) && (m (p + 1) =? 0x29) then extend_regs (m p) (modrm_regs (m (p + 2)))
  else if m p =? 0x29 then modrm_regs (m (p + 1))
  else None.

Definition is_xor_zero (m : Z -> Z) (p : Z) : option Z :=
  if (m p =? 0x48) && (m (p + 1) =? 0x31) then
    match modrm_regs (m (p + 2)) with
    | Some (a, b) =>
      if a =? b then
        let a := if c_true (m p &&& 0x04) then a ||| 8 else a in
        let b := if c_true (m p &&& 0x01) then b ||| 8 else b in
        if a =? b then Some a else None
      else None
    | None => None
    end
  else if m p =? 0x31 then
    match modrm_regs (m (p + 1)) with
    | Some (a, b) => if a =? b then Some a else None
    | None => None
    end
  else None.

(** [n] bytes of the buffer, as a little-endian integer. *)
Definition read_le (m : Z -> Z) (p : Z) (n : nat) : Z := le_combine (map (fun k => m (p + Z.of_nat k)) (seq 0 n)).

Definition is_mov_zero (m : Z -> Z) (p : Z) : option Z :=
  match is_xor_zero m p with
  | Some r => Some r
  | None =>
    if (m p =? 0x48) && ((m (p + 1) &&& 0xF8) =? 0xB8) && (read_le m (p + 2) 8 =? 0) then
      Some ((m (p + 1) &&& 7) ||| (if c_true (m p &&& 0x04) then 8 else 0))
    else if ((m p &&& 0xF8) =? 0xB8) && negb (is_rex_w (m p)) && (read_le m (p + 1) 4 =? 0) then
      Some (m p &&& 7)
    else None
  end.

Definition is_add_imm8 (m : Z -> Z) (p : Z) : option (Z * Z) :=
  if (m p =? 0x48) && (m (p + 1) =? 0x83) then
    let modrm := m (p + 2) in
    if ((modrm >>> 6) =? 3) && (((modrm >>> 3) &&& 7) =? 0) then
      let reg := m (p + 2) &&& 7 in
      Some (if c_true (m p &&& 0x04) then reg ||| 8 else reg, s8 (m (p + 3)))
    else None
  else if m p =? 0x83 then
    let modrm := m (p + 1) in
    if ((modrm >>> 6) =? 3) && (((modrm >>> 3) &&& 7) =? 0) then
      Some (m (p + 1) &&& 7, s8 (m (p + 2)))
    else None
  else None.

Definition get_instr_len (m : Z -> Z) (p : Z) : Z :=
  let b0 := m p in
  let b1 := m (p + 1) in
  let rest :=
    if (b0 &&& 0xF8) =? 0xB8 then 5
    else if (b0 &&& 0xF8) =? 0xB0 then 2
    else if b0 =? 0x90 then 1
    else if b0 =? 0xC3 then 1
    else if b0 =? 0x0F then 2 + (if 0x80 <=? b1 then 4 else 0)
    else if (b0 =? 0xE9) || (b0 =? 0xE8) then 5
    else if b0 =? 0xEB then 2
    else if b0 =? 0xC7 then (if (2 + (b1 &&& 0xF8)) =? 0xC0 then 6 else 7)
    else 1 in
  if is_rex4 b0 then
    if (0xB8 <=? b1) && (b1 <=? 0xBF) then 10
    else if (b1 =? 0x89) || (b1 =? 0x8B) || (b1 =? 0x01) || (b1 =? 0x29) || (b1 =? 0x21)
         || (b1 =? 0x09) || (b1 =? 0x31) || (b1 =? 0x33) || (b1 =? 0x39) || (b1 =? 0x3B)
         || (b1 =? 0x85) then 3 + (b0 &&& 1)
    else if b1 =? 0x83 then 4
    else if b1 =? 0x81 then 7
    else rest
  else rest.

(** ** Rewriting *)

Inductive outcome := Unchanged | Changed (m : Z -> Z) | Crash.

Definition write (m : Z -> Z) (p : Z) (bs : list Z) : Z -> Z :=
  fun a => if (p <=? a) && (a <? p + Z.of_nat (length bs)) then nth (Z.to_nat (a - p)) bs 0 else m a.

(** [memmove(code + dst, code + src, size - src)], with an unsigned length. *)
Definition move_tail (m : Z -> Z) (size dst src : Z) : outcome :=
  if size <? src then Crash
  else Changed (fun a => if (dst <=? a) && (a <? dst + (size - src)) then m (a - dst + src) else m a).

Definition optimize_mov_zero (m : Z -> Z) (size idx : Z) : outcome :=
  match is_mov_zero m idx with
  | Some reg =>
    let old_len := if m idx =? 0x48 then 10 else 5 in
    let m := if 8 <=? reg then write m idx [0x41; 0x31; 0xC0 ||| reg] else write m idx [0x31; 0xC0 ||| reg] in
    let new_len := if 8 <=? reg then 3 else 2 in
    move_tail m size (idx + new_len) (idx + old_len)
  | None => Unchanged
  end.

Definition optimize_mov_add (m : Z -> Z) (size idx : Z) : outcome :=
  if is_mov_imm64 m idx then
    let reg1 := m (idx + 1) &&& 7 in
    let imm1 := read_le m (idx + 2) 8 in
    match is_add_imm8 m (idx + 10) with
    | Some (reg2, imm2) =>
      if reg2 =? reg1 then
        let m := write m (idx + 1) ((0xB8 ||| reg1) :: le_bytes 8 (imm1 + imm2)) in
        move_tail m size (idx + 10) (idx + 10 + 4)
      else Unchanged
    | None => Unchanged
    end
  else Unchanged.

Definition optimize_xor_mov (m : Z -> Z) (size idx : Z) : outcome :=
  match is_xor_zero m idx with
  | Some reg1 =>
    let len1 := if 8 <=? reg1 then 3 else 2 in
    let next := idx + len1 in
    if is_mov_imm64 m next && ((m (next + 1) &&& 7) =? reg1) then move_tail m size idx (idx + len1)
    else Unchanged
  | None => Unchanged
  end.

Definition optimize_add_zero (m : Z -> Z) (size idx : Z) : outcome :=
  match is_add_imm8 m idx with
  | Some (_, imm) => if imm =? 0 then move_tail m size idx (idx + 4) else Unchanged
  | None => Unchanged
  end.

Definition optimize_sub_zero (m : Z -> Z) (size idx : Z) : outcome :=
  if (m idx =? 0x48) && (m (idx + 1) =? 0x83) then
    let modrm := m (idx + 2) in
    if ((modrm >>> 6) =? 3) && (((modrm >>> 3) &&& 7) =? 5) && (m (idx + 3) =? 0) then
      move_tail m size idx (idx + 4)
    else Unchanged
  else Unchanged.

Definition optimize_cmp_zero (m : Z -> Z) (size idx : Z) : outcome :=
  if (m idx =? 0x48) && (m (idx + 1) =? 0x81) then
    let modrm := m (idx + 2) in
    if ((modrm >>> 6) =? 3) && (((modrm >>> 3) &&& 7) =? 7) && (read_le m (idx + 3) 4 =? 0) then
      let reg := m (idx + 2) &&& 7 in
      let reg := if c_true (m idx &&& 0x04) then reg ||| 8 else reg in
      let m := if 8 <=? reg then write m idx [0x41; 0x85; 0xC0 ||| reg] else write m idx [0x85; 0xC0 ||| reg] in
      let new_len := if 8 <=? reg then 3 else 2 in
      move_tail m size (idx + new_len) (idx + 7)
    else Unchanged
  else Unchanged.

Definition optimize_redundant_mov (m : Z -> Z) (size idx : Z) : outcome :=
  match is_mov_reg m idx with
  | Some (dest, src) =>
    if dest =? src then
      let len := if m idx =? 0x48 then 3 else 2 in
      move_tail m size idx (idx + len)
    else Unchanged
  | None => Unchanged
  end.

(** The patterns in the order tried. *)
Definition patterns : list ((Z -> Z) -> Z -> Z -> outcome) :=
  [optimize_mov_zero; optimize_xor_mov; optimize_add_zero; optimize_sub_zero; optimize_cmp_zero;
   optimize_redundant_mov; optimize_mov_add; optimize_xor_mov].

Fixpoint try_patterns (ps : list ((Z -> Z) -> Z -> Z -> outcome)) (m : Z -> Z) (size idx : Z) : outcome :=
  match ps with
  | [] => Unchanged
  | p :: ps => match p m size idx with Unchanged => try_patterns ps m size idx | o => o end
  end.

Inductive run_result := Returns (optimized : Z) (m : Z -> Z) | Crashes | OutOfFuel.

Fixpoint optimize_loop (fuel : nat) (m : Z -> Z) (size idx optimized : Z) : run_result :=
  match fuel with
  | O => OutOfFuel
  | S fuel =>
    if idx <? size then
      match try_patterns patterns m size idx with
      | Crash => Crashes
      | Changed m => optimize_loop fuel m size idx (optimized + 1)
      | Unchanged => optimize_loop fuel m size (idx + get_instr_len m idx) optimized
      end
    else Returns (s32 optimized) m
  end.

Definition arm2x86_peephole_optimize (fuel : nat) (m : Z -> Z) (size : Z) : run_result :=
  optimize_loop fuel m size 0 0.

(** ** Properties *)

Lemma get_instr_len_pos m p : 1 <= get_instr_len m p.
Proof.
  unfold get_instr_len. cbv zeta. pose proof (land_range (m p) 1 ltac:(lia)).
  repeat case_match; lia.
Qed.

(** The offsets the scan visits when it rewrites nothing. *)
Fixpoint scan_offsets (fuel : nat) (m : Z -> Z) (size idx : Z) : list Z :=
  match fuel with
  | O => []
  | S fuel => if idx <? size then idx :: scan_offsets fuel m size (idx + get_instr_len m idx) else []
  end.

Lemma scan_returns fuel m size idx n :
  (Z.to_nat (size - idx) < fuel)%nat ->
  Forall (fun i => try_patterns patterns m size i = Unchanged) (scan_offsets fuel m size idx) ->
  optimize_loop fuel m size idx n = Returns (s32 n) m.
Proof.
  revert idx. induction fuel as [|fuel IH]; intros idx Hf Hn; [lia|].
  cbn [optimize_loop scan_offsets] in *. destruct (idx <? size) eqn:E; [apply Z.ltb_lt in E|done].
  apply Forall_cons in Hn as [-> Hn]. pose proof (get_instr_len_pos m idx). apply IH; [lia|done].
Qed.

(** On code in which no pattern matches at any instruction boundary the scan
    meets, the optimizer returns after at most one step per byte, reports zero
    rewrites and leaves the buffer as it was. *)
Theorem peephole_identity m size fuel :
  (Z.to_nat size < fuel)%nat ->
  Forall (fun i => try_patterns patterns m size i = Unchanged) (scan_offsets fuel m size 0) ->
  arm2x86_peephole_optimize fuel m size = Returns 0 m.
Proof. intros Hf Hn. apply (scan_returns fuel m size 0 0); [lia|done]. Qed.

(** A buffer holding the bytes [bs], zero elsewhere. *)
Definition buffer (bs : list Z) : Z -> Z := write (fun _ => 0) 0 bs.

Lemma peephole_identity_witness :
  let m := buffer [0x48; 0x01; 0xd8; 0x90; 0xc3] in
  arm2x86_peephole_optimize 6 m 5 = Returns 0 m.
Proof.
  intros m. apply (peephole_identity m 5 6); [vm_compute; lia|].
  assert (E : scan_offsets 6 m 5 0 = [0; 3; 4]) by (vm_compute; reflexivity).
  rewrite E. repeat (apply Forall_cons_2; [vm_compute; reflexivity|]). apply Forall_nil_2.
Defined.

Lemma try_mov_zero m size idx reg :
  is_mov_zero m idx = Some reg -> try_patterns patterns m size idx = optimize_mov_zero m size idx.
Proof.
  intros H. unfold patterns. cbn [try_patterns]. unfold optimize_mov_zero. rewrite H.
  unfold move_tail. cbv zeta. by destruct (_ <? _).
Qed.

Lemma write_in m p bs k : 0 <= k < Z.of_nat (length bs) -> write m p bs (p + k) = nth (Z.to_nat k) bs 0.
Proof.
  intros H. unfold write. rewrite (proj2 (andb_true_iff _ _)) by (rewrite Z.leb_le, Z.ltb_lt; lia).
  f_equal. f_equal. lia.
Qed.

(** The byte pair [31 C0], xor eax, eax. *)
Definition xor_eax_at (m : Z -> Z) (idx : Z) : Prop := m idx = 0x31 /\ m (idx + 1) = 0xC0.

Lemma xor_eax_step m size idx :
  xor_eax_at m idx -> idx + 5 <= size ->
  exists m', try_patterns patterns m size idx = Changed m' /\ xor_eax_at m' idx.
Proof.
  intros [H0 H1] Hs.
  assert (Hz : is_mov_zero m idx = Some 0) by (unfold is_mov_zero, is_xor_zero; rewrite H0, H1; reflexivity).
  rewrite (try_mov_zero m size idx 0 Hz). unfold optimize_mov_zero. rewrite Hz, H0. cbn [Z.eqb Pos.eqb].
  change (8 <=? 0) with false. cbv zeta. cbn iota. unfold move_tail.
  rewrite (proj2 (Z.ltb_ge _ _)) by lia. eexists. split; [reflexivity|].
  split.
  - rewrite (proj2 (Z.leb_gt (idx + 2) idx)) by lia. cbn [andb].
    pose proof (write_in m idx [0x31; 0xC0 ||| 0] 0) as W. rewrite Z.add_0_r in W. apply W. cbn; lia.
  - rewrite (proj2 (Z.leb_gt (idx + 2) (idx + 1))) by lia. cbn [andb].
    apply (write_in m idx [0x31; 0xC0 ||| 0] 1). cbn; lia.
Qed.

(** A step of the scan: a rewrite, after which it stays, or a move to the next
    instruction. *)
Inductive scan_step (size : Z) : (Z -> Z) * Z -> (Z -> Z) * Z -> Prop :=
| scan_rewrites m idx m' :
    idx < size -> try_patterns patterns m size idx = Changed m' -> scan_step size (m, idx) (m', idx)
| scan_moves m idx :
    idx < size -> try_patterns patterns m size idx = Unchanged ->
    scan_step size (m, idx) (m, idx + get_instr_len m idx).

(** The loop takes these steps, one for a unit of fuel. *)
Lemma loop_scans size s s' n : rtc (scan_step size) s s' ->
  exists k n', (forall fuel, optimize_loop (k + fuel) s.1 size s.2 n = optimize_loop fuel s'.1 size s'.2 n') /\
    forall fuel, (fuel <= k)%nat -> optimize_loop fuel s.1 size s.2 n = OutOfFuel \/ fuel = k.
Proof.
  intros H. revert n. induction H as [s|s1 s2 s3 Hs _ IH]; intros n.
  - exists 0%nat, n. split; [done|]. intros fuel ?. right. lia.
  - assert (Hone : exists n', forall fuel, optimize_loop (S fuel) s1.1 size s1.2 n = optimize_loop fuel s2.1 size s2.2 n').
    { destruct Hs as [m idx m' Hi Hp|m idx Hi Hp]; eexists; intros fuel; cbn [optimize_loop fst snd];
        rewrite (proj2 (Z.ltb_lt _ _) Hi), Hp; reflexivity. }
    destruct Hone as (n' & Hone). destruct (IH n') as (k & n2 & H1 & H2). exists (S k), n2. split.
    + intros fuel. cbn [Nat.add]. by rewrite Hone.
    + intros [|fuel] Hf; [by left|]. rewrite Hone. destruct (H2 fuel) as [Hk|Hk]; [lia|by left|right; lia].
Qed.

(** What the loop does from a place the scan reaches, it does from the beginning. *)
Lemma scan_out_of_fuel m0 m size idx : rtc (scan_step size) (m0, 0) (m, idx) ->
  (forall fuel n, optimize_loop fuel m size idx n = OutOfFuel) ->
  forall fuel, arm2x86_peephole_optimize fuel m0 size = OutOfFuel.
Proof.
  intros Hr H fuel. destruct (loop_scans size _ _ 0 Hr) as (k & n & H1 & H2). cbn [fst snd] in *.
  unfold arm2x86_peephole_optimize. destruct (decide (fuel <= k)%nat) as [Hk|Hk].
  - destruct (H2 fuel Hk) as [Ho| ->]; [done|]. rewrite <- (Nat.add_0_r k), H1. apply H.
  - replace fuel with (k + (fuel - k))%nat by lia. by rewrite H1.
Qed.

Lemma xor_eax_loops size idx m : xor_eax_at m idx -> idx + 5 <= size ->
  forall fuel n, optimize_loop fuel m size idx n = OutOfFuel.
Proof.
  intros Hx Hs fuel. revert m Hx. induction fuel as [|fuel IH]; intros m Hx n; [done|]. cbn [optimize_loop].
  rewrite (proj2 (Z.ltb_lt idx size)) by lia.
  destruct (xor_eax_step m size idx Hx Hs) as (m' & -> & Hx'). by apply IH.
Qed.

(** The zeroing as the optimizer measures it. *)
Definition zeroing_len (m : Z -> Z) (idx : Z) : Z := if m idx =? 0x48 then 10 else 5.

Lemma mov_zero_eax m size idx : is_mov_zero m idx = Some 0 ->
  exists m', xor_eax_at m' idx /\
  try_patterns patterns m size idx = if size <? idx + zeroing_len m idx then Crash else Changed m'.
Proof.
  intros Hz. rewrite (try_mov_zero m size idx 0 Hz). unfold optimize_mov_zero, zeroing_len. rewrite Hz.
  change (8 <=? 0) with false. cbv zeta. cbn iota. unfold move_tail.
  set (w := write m idx _). eexists. split; [|reflexivity]. split.
  - rewrite (proj2 (Z.leb_gt (idx + 2) idx)) by lia. cbn [andb].
    pose proof (write_in m idx [0x31; 0xC0 ||| 0] 0) as W. rewrite Z.add_0_r in W. apply W. cbn; lia.
  - rewrite (proj2 (Z.leb_gt (idx + 2) (idx + 1))) by lia. cbn [andb].
    apply (write_in m idx [0x31; 0xC0 ||| 0] 1). cbn; lia.
Qed.

(** C18: the optimizer never returns once its scan, at any offset and after any
    rewrites, stands on a zeroing of EAX ([xor eax, eax] in either form, or a MOV of 0,
    which it first turns into the short form).  If the bytes it takes the zeroing to
    have, ten behind a REX.W prefix and five otherwise, are in the buffer, it rewrites
    the same place forever, whatever the fuel; if they are not, the length of its
    memmove wraps and it crashes. *)
Theorem peephole_diverges m0 m size idx :
  rtc (scan_step size) (m0, 0) (m, idx) -> idx < size -> is_mov_zero m idx = Some 0 ->
  (idx + zeroing_len m idx <= size -> forall fuel, arm2x86_peephole_optimize fuel m0 size = OutOfFuel) /\
  (size < idx + zeroing_len m idx ->
   exists n, forall fuel, (n <= fuel)%nat -> arm2x86_peephole_optimize fuel m0 size = Crashes) /\
  (forall fuel n m', arm2x86_peephole_optimize fuel m0 size <> Returns n m').
Proof.
  intros Hr Hi Hz. destruct (mov_zero_eax m size idx Hz) as (m1 & Hx & Ht).
  destruct (loop_scans size _ _ 0 Hr) as (k & c & H1 & H2). cbn [fst snd] in *.
  assert (Hfit : idx + zeroing_len m idx <= size -> forall fuel, arm2x86_peephole_optimize fuel m0 size = OutOfFuel).
  { intros Hs. apply (scan_out_of_fuel _ _ _ _ Hr). intros [|fuel] n; [done|]. cbn [optimize_loop].
    rewrite (proj2 (Z.ltb_lt idx size) Hi), Ht, (proj2 (Z.ltb_ge _ _) Hs). apply xor_eax_loops; [done|].
    unfold zeroing_len in Hs. destruct (_ =? _); lia. }
  assert (Hcrash : size < idx + zeroing_len m idx ->
    forall fuel, (S k <= fuel)%nat -> arm2x86_peephole_optimize fuel m0 size = Crashes).
  { intros Hs fuel Hf. unfold arm2x86_peephole_optimize. replace fuel with (k + S (fuel - k - 1))%nat by lia.
    rewrite H1. cbn [optimize_loop]. by rewrite (proj2 (Z.ltb_lt idx size) Hi), Ht, (proj2 (Z.ltb_lt _ _) Hs). }
  split; [exact Hfit|]. split; [intros Hs; by exists (S k); apply Hcrash|].
  intros fuel n m' E. destruct (Z.le_gt_cases (idx + zeroing_len m idx) size) as [Hs|Hs].
  - by rewrite (Hfit Hs fuel) in E.
  - destruct (decide (S k <= fuel)%nat) as [Hk|Hk]; [by rewrite (Hcrash Hs fuel Hk) in E|].
    unfold arm2x86_peephole_optimize in E. destruct (H2 fuel ltac:(lia)) as [H| ->]; [by rewrite H in E|].
    specialize (H1 0%nat). rewrite Nat.add_0_r in H1. by rewrite H1 in E.
Qed.
(** The zeroing behind a NOP. *)
Lemma peephole_diverges_witness :
  arm2x86_peephole_optimize 1000 (buffer [0x90; 0xb8; 0; 0; 0; 0; 0x48; 0x01; 0xd8; 0x90; 0xc3]) 11 = OutOfFuel.
Proof.
  apply (peephole_diverges _ (buffer [0x90; 0xb8; 0; 0; 0; 0; 0x48; 0x01; 0xd8; 0x90; 0xc3]) 11 1).
  - apply rtc_once. refine (scan_moves 11 (buffer _) 0 _ _); [lia | vm_compute; reflexivity].
  - lia.
  - vm_compute. reflexivity.
  - vm_compute. discriminate.
Defined.

(** The bytes of the buffer from [p]. *)
Definition bytes_from (m : Z -> Z) (p : Z) (n : nat) : list Z := map (fun k => m (p + Z.of_nat k)) (seq 0 n).

(** The zeroing move [mov r32, 0] of a register other than EAX is replaced by
    two bytes that decode to [xor r, eax], not [xor r, r]: after the rewrite the
    register holds its old value combined with EAX.  The bytes after the move are
    kept, moved three places down. *)
Theorem mov_zero_rewrite m r size :
  0 < r < 8 -> m 0 = 0xb8 + r -> m 1 = 0 -> m 2 = 0 -> m 3 = 0 -> m 4 = 0 -> 5 <= size ->
  exists m', try_patterns patterns m size 0 = Changed m' /\
    decode (bytes_from m' 0 2) = Some (AluRmR XOR W32 (Reg r) 0, []) /\
    (forall k, 5 <= k < size -> m' (k - 3) = m k).
Proof.
  intros Hr H0 H1 H2 H3 H4 Hs.
  assert (Hz : is_mov_zero m 0 = Some r).
  { unfold is_mov_zero, is_xor_zero, read_le. cbn [seq map].
    change (0 + 1 + Z.of_nat 0) with 1. change (0 + 1 + Z.of_nat 1) with 2.
    change (0 + 1 + Z.of_nat 2) with 3. change (0 + 1 + Z.of_nat 3) with 4.
    rewrite H0, H1, H2, H3, H4. assert (Hr' : 0 <= r < 8) by lia. clear - Hr Hr'.
    each_of_8 Hr'; first [reflexivity | lia]. }
  rewrite (try_mov_zero m size 0 r Hz). unfold optimize_mov_zero. rewrite Hz, H0.
  rewrite (proj2 (Z.leb_gt 8 r)), (proj2 (Z.eqb_neq (0xb8 + r) 0x48)) by lia.
  cbv zeta. cbn iota. unfold move_tail. rewrite (proj2 (Z.ltb_ge _ _)) by lia.
  eexists. split; [reflexivity|]. split.
  - unfold bytes_from. cbn [seq map]. change (0 + Z.of_nat 0) with 0. change (0 + Z.of_nat 1) with 1.
    change (0 + 2 <=? 0) with false. change (0 + 2 <=? 1) with false. cbn [andb].
    assert (Hr' : 0 <= r < 8) by lia. clear - Hr'. each_of_8 Hr'; reflexivity.
  - intros k Hk. rewrite (proj2 (andb_true_iff _ _)) by (rewrite Z.leb_le, Z.ltb_lt; lia).
    replace (k - 3 - (0 + 2) + (0 + 5)) with k by lia.
    unfold write. rewrite (proj2 (Z.ltb_ge k _)) by (cbn; lia). by rewrite andb_false_r.
Qed.
Lemma mov_zero_rewrite_witness :
  exists m', try_patterns patterns (buffer [0xb9; 0; 0; 0; 0; 0xc3]) 6 0 = Changed m' /\
    decode (bytes_from m' 0 2) = Some (AluRmR XOR W32 (Reg 1) 0, []).
Proof.
  destruct (mov_zero_rewrite (buffer [0xb9; 0; 0; 0; 0; 0xc3]) 1 6) as (m' & H1 & H2 & _);
    try reflexivity; try lia.
  exists m'. split; [exact H1 | exact H2].
Defined.
