(* ===== verification/Hotblock.v ===== *)
(** * The hot-block optimizer: [modules/arm2x86_hotblock.c]

    A manager counts the hits of up to 1024 blocks; at the hundredth hit the 256 bytes at
    the entry of a block go through four passes, each from one buffer to the next.  A
    pass reads code through a function from offsets to bytes, since it reads behind the
    end it is given; a buffer has what was written to it and behind that whatever the
    allocated memory held before, a parameter.  The output of a pass is the list of the bytes it wrote. *)
From S2P Require Import Prelude X86 Emit.
From Stdlib Require Import ZArith Lia Bool.
From stdpp Require Import base numbers list.
Open Scope Z_scope.
Open Scope c_scope.

(** ** Passes *)

(** The read cursor, the bytes written and the number of changes. *)
Record pass := { src : Z; dst : list Z; changes : Z }.
Definition pass_start : pass := {| src := 0; dst := []; changes := 0 |}.

(** Write [bs] and advance by [n]. *)
Definition put (bs : list Z) (n : Z) (p : pass) : pass :=
  {| src := src p + n; dst := dst p ++ bs; changes := changes p |}.
Definition tick (p : pass) : pass := {| src := src p; dst := dst p; changes := changes p + 1 |}.

Section Passes.
Context (code : Z -> Z) (code_size : Z).

Definition read_bytes (i n : Z) : list Z := map (fun k => code (i + k)) (seqZ 0 n).
Definition read_imm (i n : Z) : Z := le_combine (read_bytes i n).

Definition copy_byte (p : pass) : pass := put [code (src p)] 1 p.

Definition more (p : pass) : bool := src p <? code_size.

(** The fields of a ModR/M byte. *)
Definition mod_of (modrm : Z) : Z := (modrm >>> 6) &&& 3.
Definition reg_of (modrm : Z) : Z := (modrm >>> 3) &&& 7.
Definition rm_of (modrm : Z) : Z := modrm &&& 7.

(** *** Constant propagation *)

Record constants := { progress : pass; reg_constants : Z -> Z; reg_is_const : Z -> bool }.

Definition set_const (reg v : Z) (c : constants) : constants :=
  {| progress := progress c; reg_constants := fun r => if r =? reg then v else reg_constants c r;
     reg_is_const := fun r => if r =? reg then true else reg_is_const c r |}.
Definition on_pass (f : pass -> pass) (c : constants) : constants :=
  {| progress := f (progress c); reg_constants := reg_constants c; reg_is_const := reg_is_const c |}.

Definition is_mov_imm64_at (i : Z) : bool :=
  (code i =? 0x48) && (0xb8 <=? code (i + 1)) && (code (i + 1) <=? 0xbf).

Definition record_xor (c : constants) : constants :=
  let i := src (progress c) in
  if (code i =? 0x48) && (code (i + 1) =? 0x31) then
    let modrm := code (i + 2) in
    if (modrm >>> 6 =? 3) && (reg_of modrm =? rm_of modrm) then
      on_pass tick (set_const (reg_of modrm) 0 c)
    else c
  else c.

Definition load_const (reg result n : Z) (c : constants) : constants :=
  on_pass (fun p => tick (put ([0x48; u8 (0xb8 + reg)] ++ le_bytes 8 result) n p)) (set_const reg result c).

Definition constant_step (c : constants) : constants :=
  let i := src (progress c) in
  if is_mov_imm64_at i then
    on_pass (fun p => tick (put (read_bytes i 10) 10 p)) (set_const (code (i + 1) - 0xb8) (read_imm (i + 2) 8) c)
  else
    let c := record_xor c in
    let modrm := code (i + 2) in
    if (code i =? 0x48) && (code (i + 1) =? 0x01) && (mod_of modrm =? 3)
       && reg_is_const c (reg_of modrm) && reg_is_const c (rm_of modrm) then
      load_const (reg_of modrm) (u64 (reg_constants c (reg_of modrm) + reg_constants c (rm_of modrm))) 3 c
    else if (code i =? 0x48) && (code (i + 1) =? 0x81) && (modrm &&& 0xf8 =? 0xe0) && reg_is_const c (modrm &&& 7) then
      load_const (modrm &&& 7) (reg_constants c (modrm &&& 7) &&& read_imm (i + 3) 4) 7 c
    else on_pass copy_byte c.

Definition no_constants : constants :=
  {| progress := pass_start; reg_constants := fun _ => 0; reg_is_const := fun _ => false |}.

(** *** Dead code elimination *)

(** The tests in their order; a later one overrides the length of an earlier one. *)
Definition dead_at (i : Z) : option Z :=
  let modrm := code (i + 2) in
  let dead := if (code i =? 0x48) && (code (i + 1) =? 0x89) && (modrm <? 0xc0) &&
                 (mod_of modrm =? 3) && (reg_of modrm =? rm_of modrm) then Some 3 else None in
  let dead := if code i =? 0x90 then Some 1 else dead in
  let dead := if (code i =? 0x48) && (code (i + 1) =? 0x8d) && (modrm =? 0x04) && (code (i + 3) &&& 0xc7 =? 0x05)
              then Some 4 else dead in
  if (code i =? 0x48) && (code (i + 1) =? 0x85) && (mod_of modrm =? 3) && (reg_of modrm =? rm_of modrm) &&
     (i + 3 <? code_size) && negb (code (i + 3) =? 0x0f)
  then Some 3 else dead.

Definition dead_step (p : pass) : pass :=
  match dead_at (src p) with
  | Some len => tick (put [] len p)
  | None => copy_byte p
  end.

(** *** Instruction fusion *)

Definition fusion_step (p : pass) : pass :=
  let i := src p in
  let c k := code (i + k) in
  if (c 0 =? 0x48) && (c 1 =? 0x81) && (c 2 =? 0xf8) && (i + 7 <? code_size) && (c 7 =? 0x0f) && (c 8 =? 0x84) then
    tick (put ([0x48; 0x85; 0xc0; 0x0f; 0x84] ++ read_bytes (i + 9) 4) 13 p)
  else if (c 0 =? 0x48) && (c 1 =? 0x29) && (c 2 >>> 6 =? 3) && (reg_of (c 2) =? rm_of (c 2)) &&
     (i + 3 <? code_size - 2) && (c 3 =? 0x48) && (c 4 =? 0x19) && (c 5 >>> 6 =? 3) && (reg_of (c 5) =? rm_of (c 5)) then
    tick (put [0x48; 0x31; c 2; 0x48; 0x19; c 5] 6 p)
  else if (c 0 =? 0x48) && (c 1 =? 0x81) && (c 2 &&& 0xf8 =? 0xe0) && (i + 7 <? code_size) && (c 7 =? 0x0f) &&
     ((c 8 =? 0x84) || (c 8 =? 0x85)) then
    tick (put ([0x48; 0xf7; 0xc0 ||| (c 2 &&& 7)] ++ read_bytes (i + 3) 4 ++ [0x0f; c 8] ++ read_bytes (i + 9) 4) 13 p)
  else if (c 0 =? 0x48) && (c 1 =? 0x39) && (i + 3 <? code_size - 2) && (c 3 =? 0x0f) &&
     (0x90 <=? c 4) && (c 4 <=? 0x9f) then
    tick (put [c 0; c 1; c 2; c 3; c 4; c 5] 6 p)
  else copy_byte p.

(** *** Loop unrolling *)

(** [while (scan < end - 2)]: the first byte [0xe2] from [i] on. *)
Definition find_loop (i : Z) : option Z :=
  snd <$> list_find (fun k => code k = 0xe2) (seqZ i (code_size - 2 - i)).

Definition has_control_flow (start size : Z) : bool :=
  existsb (fun i => let byte := code (start + i) in
    ((byte =? 0x0f) && (i + 1 <? size) && (0x80 <=? code (start + i + 1)) && (code (start + i + 1) <=? 0x8f))
    || (byte =? 0xe8) || (byte =? 0xc3) || (byte =? 0xc2)) (seqZ 0 size).

(** [n] copies of the body. *)
Definition copies (n start size : Z) : list Z := concat (replicate (Z.to_nat n) (read_bytes start size)).

(** [factor] copies, and a loop for the rest. *)
Definition partly_unrolled (factor loop_count start size : Z) : list Z :=
  copies factor start size ++ [0xb9] ++ le_bytes 4 (loop_count - factor) ++ read_bytes start size ++
  [0xe2; s32 (- s32 (size + 5)) &&& 0xff].

(** The first pattern; [None] when the code falls through to the next.  For a count of
    0 the loop instruction is looked for twice. *)
Definition unroll_mov_ecx (p : pass) : option pass :=
  let i := src p in
  if negb (code i =? 0xb9) then None
  else
    let loop_count := read_imm (i + 1) 4 in
    let start := i + 5 in
    match find_loop start with
    | None => Some (copy_byte p)
    | Some scan =>
      let size := scan - start in
      let replace bs := Some (tick (put bs (scan + 2 - i) p)) in
      if loop_count =? 0 then replace []
      else if size =? 0 then Some (copy_byte p)
      else if has_control_flow start size then Some (copy_byte p)
      else if loop_count <=? 8 then
        if loop_count * size <? 1024 then replace (copies loop_count start size) else None
      else if loop_count <=? 32 then
        if 8 * size + 7 <? 2048 then replace (partly_unrolled 8 loop_count start size) else None
      else if loop_count <=? 64 then
        if 4 * size + 7 <? 2048 then replace (partly_unrolled 4 loop_count start size) else None
      else None
    end.

Definition has_call_or_return (start size : Z) : bool :=
  existsb (fun i => let byte := code (start + i) in (byte =? 0xe8) || (byte =? 0xc3) || (byte =? 0xc2))
    (seqZ 0 (Z.min size 256)).

Definition unroll_mov_cl (p : pass) : option pass :=
  let i := src p in
  if negb ((code i =? 0x31) && (code (i + 1) =? 0xc9) && (code (i + 2) =? 0xb0)) then None
  else
    let loop_count := code (i + 3) in
    let start := i + 4 in
    match find_loop start with
    | None => None
    | Some scan =>
      let size := scan - start in
      let replace bs := Some (tick (put bs (scan + 2 - i) p)) in
      if negb (0 <? size) || has_call_or_return start size then None
      else if loop_count <=? 8 then replace (copies loop_count start size)
      else if loop_count <=? 32 then
        replace (copies 8 start size ++ [0xb0; u8 (loop_count - 8); 0x0f; 0xb6; 0xc8] ++ read_bytes start size ++
                 [0xe2; s32 (- s32 (size + 8)) &&& 0xff])
      else None
    end.

(** The three patterns after these look at the code and change nothing. *)
Definition unroll_step (p : pass) : pass :=
  match unroll_mov_ecx p with
  | Some q => q
  | None => match unroll_mov_cl p with Some q => q | None => copy_byte p end
  end.

(** *** The passes: the bytes written and the number of changes *)

Definition optimize_constant_propagation (fuel : nat) : option (list Z * Z) :=
  c ← while fuel (fun c => more (progress c)) constant_step no_constants;
  Some (dst (progress c), changes (progress c)).

Definition optimize_dead_code_elimination (fuel : nat) : option (list Z * Z) :=
  p ← while fuel more dead_step pass_start; Some (dst p, changes p).

(** A loop that stops [margin] bytes before the end, and one that copies the rest. *)
Definition pass_with_rest (margin : Z) (step : pass -> pass) (fuel : nat) : option (list Z * Z) :=
  p ← while fuel (fun p => src p <? code_size - margin) step pass_start;
  p ← while fuel more copy_byte p;
  Some (dst p, changes p).

Definition optimize_instruction_fusion : nat -> option (list Z * Z) := pass_with_rest 5 fusion_step.
Definition optimize_loop_unrolling : nat -> option (list Z * Z) := pass_with_rest 10 unroll_step.
End Passes.

(** ** The manager *)

Definition HOT_BLOCK_THRESHOLD := 100.
Definition HOT_BLOCK_AGGRESSIVE := 1000.
Definition HOT_FLAG_NONE := 0x0.
Definition HOT_FLAG_MARKED := 0x1.
Definition HOT_FLAG_RETRANSLATED := 0x2.
Definition HOT_FLAG_AGGRESSIVE := 0x4.
Definition HOT_BLOCK_MAX : nat := 1024.

(** The optimised code belongs to its block alone: it is the list of its bytes. *)
Record HotBlock := {
  arm_pc : Z; x86_entry : Z; hit_count : Z; x86_optimized : option (list Z); opt_size : Z;
  flags : Z; last_access : Z }.

Definition zero_hot : HotBlock :=
  {| arm_pc := 0; x86_entry := 0; hit_count := 0; x86_optimized := None; opt_size := 0; flags := 0; last_access := 0 |}.

Record HotBlockManager := { blocks : list HotBlock; count : nat; total_retranslations : Z }.

Definition hot_at (m : HotBlockManager) (i : nat) : HotBlock := nth i (blocks m) zero_hot.

(** What [memset] leaves. *)
Definition empty_manager : HotBlockManager :=
  {| blocks := replicate HOT_BLOCK_MAX zero_hot; count := 0; total_retranslations := 0 |}.

Definition hotblock_init (hbm : option HotBlockManager) : Z * option HotBlockManager :=
  match hbm with
  | None => (-1, None)
  | Some _ => (0, Some empty_manager)
  end.

Definition hotblock_destroy (hbm : option HotBlockManager) : option HotBlockManager :=
  _ ← hbm; Some empty_manager.

Definition hotblock_lookup (hbm : option HotBlockManager) (pc : Z) : option nat :=
  hbm ← hbm; find_first (fun b => arm_pc b = pc) (count hbm) (blocks hbm).

Definition hotblock_should_retranslate (block : option HotBlock) : bool :=
  match block with None => false | Some b => HOT_BLOCK_THRESHOLD <=? hit_count b end.

(** Phase [n] of the optimisation: its buffer, if there is memory for it, becomes the
    current code when the pass changed anything. *)
Record phase := { current_code : Z -> Z; current_size : Z; total_optimizations : Z; replaced : option (list Z) }.

Definition buffer (garbage : Z -> Z) (bs : list Z) : Z -> Z :=
  fun i => if (0 <=? i) && (i <? Z.of_nat (length bs)) then nth (Z.to_nat i) bs 0 else garbage i.

Definition original_size : Z := 256.
Definition buffer_size : Z := original_size * 64.

Definition apply_phase (allocated : bool) (garbage : Z -> Z)
    (optimize : (Z -> Z) -> Z -> option (list Z * Z)) (ph : phase) : option phase :=
  if allocated then
    '(out, n) ← optimize (current_code ph) (current_size ph);
    Some (if 0 <? n then
            {| current_code := buffer garbage out; current_size := Z.of_nat (length out);
               total_optimizations := total_optimizations ph + n; replaced := Some out |}
          else ph)
  else Some ph.

(** The steps of a pass never exceed the bytes it reads. *)
Definition pass_fuel : nat := 1000.

Definition set_optimized (bs : list Z) (b : HotBlock) : HotBlock :=
  {| arm_pc := arm_pc b; x86_entry := x86_entry b; hit_count := hit_count b; x86_optimized := Some bs;
     opt_size := Z.of_nat (length bs); flags := flags b; last_access := last_access b |}.
Definition drop_optimized (b : HotBlock) : HotBlock :=
  {| arm_pc := arm_pc b; x86_entry := x86_entry b; hit_count := hit_count b; x86_optimized := None;
     opt_size := opt_size b; flags := flags b; last_access := last_access b |}.
Definition set_flag (f : Z) (b : HotBlock) : HotBlock :=
  {| arm_pc := arm_pc b; x86_entry := x86_entry b; hit_count := hit_count b; x86_optimized := x86_optimized b;
     opt_size := opt_size b; flags := flags b ||| f; last_access := last_access b |}.

(** [allocated n] says whether the [n]-th allocation succeeds, [garbage n] is what its
    memory holds.  The result is [None] only when the fuel runs out. *)
Section Manager.
Context (mem : Z -> Z) (allocated : nat -> bool) (garbage : nat -> Z -> Z).

Definition hotblock_apply_optimizations (block : option HotBlock) : option (Z * option HotBlock) :=
  match block with
  | None => Some (0, None)
  | Some b =>
    if x86_entry b =? 0 then Some (0, Some b)
    else if negb (allocated 0) then Some (0, Some b)
    else
      let ph := {| current_code := fun i => mem (x86_entry b + i); current_size := original_size;
                   total_optimizations := 0; replaced := None |} in
      ph ← apply_phase (allocated 1) (garbage 1)
             (fun code size => optimize_dead_code_elimination code size pass_fuel) ph;
      ph ← apply_phase (allocated 2) (garbage 2)
             (fun code size => optimize_constant_propagation code size pass_fuel) ph;
      ph ← apply_phase (allocated 3) (garbage 3)
             (fun code size => optimize_instruction_fusion code size pass_fuel) ph;
      ph ← apply_phase (allocated 4) (garbage 4)
             (fun code size => optimize_loop_unrolling code size pass_fuel) ph;
      Some (total_optimizations ph,
            Some match replaced ph with
                 | Some bs =>
                   if 0 <? total_optimizations ph then
                     if allocated 5 then set_optimized bs b else drop_optimized b
                   else b
                 | None => b
                 end)
  end.

Definition hotblock_retranslate (hbm : option HotBlockManager) (block : option nat)
    : option (Z * option HotBlockManager) :=
  match hbm, block with
  | Some m, Some i =>
    let b := hot_at m i in
    if c_true (flags b &&& HOT_FLAG_RETRANSLATED) then Some (0, Some m)
    else
      '(opt_count, b) ← hotblock_apply_optimizations (Some b);
      b ← b;
      let b := if 0 <? opt_count then set_flag HOT_FLAG_RETRANSLATED b else b in
      let total := if 0 <? opt_count then u32 (total_retranslations m + 1) else total_retranslations m in
      let b := if HOT_BLOCK_AGGRESSIVE <=? hit_count b then set_flag HOT_FLAG_AGGRESSIVE b else b in
      Some (opt_count, Some {| blocks := <[i := b]> (blocks m); count := count m; total_retranslations := total |})
  | _, _ => Some (-1, hbm)
  end.

(** The first of the blocks with the oldest access. *)
Definition oldest (m : HotBlockManager) : nat :=
  first_least (fun i => last_access (hot_at m i)) (count m - 1) 1 0.

Definition new_block (pc entry : Z) (b : HotBlock) : HotBlock :=
  {| arm_pc := pc; x86_entry := entry; hit_count := 0; x86_optimized := x86_optimized b; opt_size := opt_size b;
     flags := HOT_FLAG_NONE; last_access := last_access b |}.

Definition make_block (pc entry : Z) (m : HotBlockManager) : nat * HotBlockManager :=
  if (HOT_BLOCK_MAX <=? count m)%nat then
    let lru := oldest m in
    (lru, {| blocks := <[lru := new_block pc entry zero_hot]> (blocks m); count := count m;
             total_retranslations := total_retranslations m |})
  else
    (count m, {| blocks := alter (new_block pc entry) (count m) (blocks m); count := S (count m);
                 total_retranslations := total_retranslations m |}).

(** [now]: the time of day in microseconds. *)
Definition touch (now : Z) (b : HotBlock) : HotBlock :=
  {| arm_pc := arm_pc b; x86_entry := x86_entry b; hit_count := u32 (hit_count b + 1);
     x86_optimized := x86_optimized b; opt_size := opt_size b; flags := flags b; last_access := u64 now |}.

Definition hotblock_record_hit (hbm : option HotBlockManager) (pc entry now : Z)
    : option (Z * option HotBlockManager) :=
  match hbm with
  | None => Some (-1, None)
  | Some m =>
    if entry =? 0 then Some (-1, Some m)
    else
      let '(i, m) := match hotblock_lookup (Some m) pc with
                     | Some i => (i, m)
                     | None => make_block pc entry m
                     end in
      let b := touch now (hot_at m i) in
      let hot := hotblock_should_retranslate (Some b) && negb (c_true (flags b &&& HOT_FLAG_RETRANSLATED)) in
      let b' := if hot then set_flag HOT_FLAG_MARKED b else b in
      let m := {| blocks := <[i := b']> (blocks m); count := count m;
                  total_retranslations := total_retranslations m |} in
      '(_, hbm) ← (if hot then hotblock_retranslate (Some m) (Some i) else Some (0, Some m));
      Some (s32 (hit_count b), hbm)
  end.
End Manager.

(** ** The passes end and their output fits the buffers *)

(** The tests a step has passed, as facts. *)
Ltac tests :=
  repeat match goal with
  | H : (_ && _) = true |- _ => apply andb_true_iff in H as [? ?]
  | H : (_ || _) = false |- _ => apply orb_false_iff in H as [? ?]
  | H : negb _ = false |- _ => apply negb_false_iff in H
  | H : (_ <? _) = true |- _ => apply Z.ltb_lt in H
  | H : (_ <? _) = false |- _ => apply Z.ltb_ge in H
  | H : (_ <=? _) = true |- _ => apply Z.leb_le in H
  | H : (_ =? _) = true |- _ => apply Z.eqb_eq in H
  | H : (_ =? _) = false |- _ => apply Z.eqb_neq in H
  end.

Section PassFacts.
Context (code : Z -> Z) (code_size : Z).

(** What a pass keeps: the bytes written are at most [k / d] of those read, and what is
    read ends at most [over] behind the end. *)
Definition within (d k over : Z) (p : pass) : Prop :=
  0 <= src p <= code_size + over /\ d * Z.of_nat (length (dst p)) <= k * src p /\ 0 <= changes p.

Lemma length_read_bytes i n : 0 <= n -> Z.of_nat (length (read_bytes code i n)) = n.
Proof. intros Hn. unfold read_bytes. rewrite length_map, length_seqZ. lia. Qed.

Lemma within_put d k over bs n p :
  within d k over p -> d * Z.of_nat (length bs) <= k * n -> 0 <= n -> src p + n <= code_size + over ->
  within d k over (put bs n p).
Proof.
  intros (H1 & H2 & H3) Hb Hn Ho. unfold within, put. cbn [src dst changes]. rewrite length_app. nia.
Qed.

Lemma within_tick d k over p : within d k over p -> within d k over (tick p).
Proof. unfold within, tick. cbn [src dst changes]. lia. Qed.

Lemma within_start d k over : 0 <= code_size -> 0 <= over -> within d k over pass_start.
Proof. unfold within. cbn. lia. Qed.

Lemma within_copy d k over p : d <= k -> 0 <= over -> src p < code_size -> within d k over p ->
  within d k over (copy_byte code p).
Proof. intros. apply within_put; cbn [length]; (done || lia). Qed.

(** A step that stays within the bounds and advances. *)
Definition advances (d k over : Z) (p q : pass) : Prop := within d k over q /\ src p < src q.

Lemma advances_put d k over bs n p : within d k over p ->
  d * Z.of_nat (length bs) <= k * n -> 0 < n -> src p + n <= code_size + over -> advances d k over p (put bs n p).
Proof. intros. split; [apply within_put; (done || lia)|]. cbn. lia. Qed.

Lemma advances_tick d k over p q : advances d k over p q -> advances d k over p (tick q).
Proof. intros [H1 H2]. split; [by apply within_tick | done]. Qed.

Lemma advances_copy d k over p : d <= k -> 0 <= over -> src p < code_size -> within d k over p ->
  advances d k over p (copy_byte code p).
Proof. intros. split; [by apply within_copy | cbn; lia]. Qed.

Lemma while_pass {S} (get : S -> pass) step margin d k over fuel s :
  (forall s, within d k over (get s) -> src (get s) < code_size - margin -> advances d k over (get s) (get (step s))) ->
  0 <= margin -> within d k over (get s) -> code_size < Z.of_nat fuel -> 0 < Z.of_nat fuel ->
  exists s', while fuel (fun s => src (get s) <? code_size - margin) step s = Some s' /\ within d k over (get s').
Proof.
  intros Hstep Hm Hs Hf Hf0.
  destruct (while_rule (fun s => within d k over (get s)) (fun s => code_size - src (get s))
    (fun s => src (get s) <? code_size - margin) step fuel s) as (s' & E & H & Hc).
  - intros t Ht Hlt%Z.ltb_lt. destruct (Hstep t Ht Hlt). split; [done|]. lia.
  - done.
  - unfold within in Hs. lia.
  - done.
  - by exists s'.
Qed.

(** *** The steps *)

Lemma dead_step_advances p : within 1 1 3 p -> src p < code_size -> advances 1 1 3 p (dead_step code code_size p).
Proof.
  intros Hp Hlt. unfold dead_step. destruct (dead_at code code_size (src p)) as [n|] eqn:E.
  - assert (n = 1 \/ n = 3 \/ n = 4) as Hn.
    { unfold dead_at in E. repeat case_match; simplify_eq; auto. }
    apply advances_tick, advances_put; cbn [length]; (done || lia).
  - by apply advances_copy.
Qed.

Lemma load_const_advances reg v n c : within 3 10 9 (progress c) -> 3 <= n <= 9 -> src (progress c) < code_size ->
  advances 3 10 9 (progress c) (progress (load_const reg v n c)).
Proof.
  intros Hp Hn Hlt. apply advances_tick, advances_put; cbn [progress set_const]; [done| | lia..].
  rewrite length_app, length_le_bytes. cbn [length]. lia.
Qed.

Lemma constant_step_advances c : within 3 10 9 (progress c) -> src (progress c) < code_size ->
  advances 3 10 9 (progress c) (progress (constant_step code c)).
Proof.
  intros Hp Hlt. unfold constant_step. destruct (is_mov_imm64_at _ _).
  - apply advances_tick, advances_put; cbn [progress set_const]; [done| | lia..]. rewrite length_read_bytes; lia.
  - set (c' := record_xor code c).
    assert (Hc : within 3 10 9 (progress c') /\ src (progress c') = src (progress c)).
    { unfold c', record_xor. repeat case_match; cbn [progress on_pass set_const src tick]; split; try done;
        by apply within_tick. }
    destruct Hc as [Hw Es]. cbv zeta. unfold advances. rewrite <- Es in *.
    repeat case_match; [apply load_const_advances | apply load_const_advances | apply advances_copy]; (done || lia).
Qed.

Lemma fusion_step_advances p : within 1 1 5 p -> src p < code_size - 5 ->
  advances 1 1 5 p (fusion_step code code_size p).
Proof.
  intros Hp Hlt. unfold fusion_step. cbv zeta.
  repeat match goal with |- context [if ?b then _ else _] => destruct b eqn:? end;
    tests;
    try (apply advances_tick, advances_put; [done| | lia..];
         rewrite ?length_app, ?Nat2Z.inj_add, ?length_read_bytes by lia; cbn [length]; lia).
  apply advances_copy; (done || lia).
Qed.

Lemma find_loop_range i scan : find_loop code code_size i = Some scan -> i <= scan < code_size - 2.
Proof.
  unfold find_loop. destruct (list_find _ _) as [[k x]|] eqn:E; [|done]. intros [= <-].
  apply list_find_Some in E as (Hx & _ & _). apply list_elem_of_lookup_2, elem_of_seqZ in Hx. lia.
Qed.

Lemma length_copies n start size : 0 <= n -> 0 <= size ->
  Z.of_nat (length (copies code n start size)) = n * size.
Proof.
  intros Hn Hs. unfold copies. rewrite <- (Z2Nat.id n) at 2 by done.
  induction (Z.to_nat n) as [|m IH]; [done|]. cbn [replicate concat].
  rewrite length_app, Nat2Z.inj_add, IH, length_read_bytes by done. lia.
Qed.

Lemma length_partly factor n start size : 0 <= factor -> 0 <= size ->
  Z.of_nat (length (partly_unrolled code factor n start size)) = factor * size + size + 7.
Proof.
  intros Hf Hs. unfold partly_unrolled.
  rewrite !length_app, !Nat2Z.inj_add, length_copies, length_read_bytes, length_le_bytes by done. cbn [length]. lia.
Qed.

Lemma length_copies_le n k start size : n <= k -> 0 <= k -> 0 <= size ->
  Z.of_nat (length (copies code n start size)) <= k * size.
Proof.
  intros Hn Hk Hs. destruct (Z_le_gt_dec 0 n); [rewrite length_copies by done; nia|].
  unfold copies. replace (Z.to_nat n) with 0%nat by lia. cbn. nia.
Qed.

Lemma unroll_step_advances p : within 1 9 0 p -> src p < code_size - 10 ->
  advances 1 9 0 p (unroll_step code code_size p).
Proof.
  intros Hp Hlt. pose proof (advances_copy 1 9 0 p ltac:(lia) ltac:(lia) ltac:(lia) Hp) as Hcopy.
  assert (Hput : forall i scan bs, src p + 4 <= i -> find_loop code code_size i = Some scan ->
    Z.of_nat (length bs) <= 9 * (scan - i) + 7 -> advances 1 9 0 p (tick (put bs (scan + 2 - src p) p))).
  { intros i scan bs Hi Hf Hl. apply find_loop_range in Hf. apply advances_tick, advances_put; [done | lia..]. }
  unfold unroll_step. destruct (unroll_mov_ecx code code_size p) as [q|] eqn:E.
  - unfold unroll_mov_ecx in E. cbv zeta in E. destruct (negb _); [done|].
    destruct (find_loop _ _ _) as [scan|] eqn:Ef; [|by injection E as <-]. pose proof (find_loop_range _ _ Ef) as Hr.
    repeat match type of E with (if ?b then _ else _) = _ => destruct b eqn:? end; simplify_eq; try done;
      tests; apply (Hput (src p + 5) scan); try done; try lia;
      first [rewrite length_partly by lia; lia | cbn; lia | etrans; [apply (length_copies_le _ 8); lia | lia]].
  - destruct (unroll_mov_cl code code_size p) as [q|] eqn:E2; [|done].
    unfold unroll_mov_cl in E2. cbv zeta in E2. destruct (negb _); [done|].
    destruct (find_loop _ _ _) as [scan|] eqn:Ef; [|done]. pose proof (find_loop_range _ _ Ef) as Hr.
    repeat match type of E2 with (if ?b then _ else _) = _ => destruct b eqn:? end; simplify_eq; try done;
      tests;
      apply (Hput (src p + 4) scan); try done; try lia.
    + etrans; [apply (length_copies_le _ 8); lia | lia].
    + rewrite !length_app, !Nat2Z.inj_add, length_copies, length_read_bytes by lia. cbn [length]. lia.
Qed.

(** *** The passes *)

Context (fuel : nat) (Hsize : 0 <= code_size) (Hfuel : code_size + 4 < Z.of_nat fuel).

Lemma dead_code_total : exists out n,
  optimize_dead_code_elimination code code_size fuel = Some (out, n) /\ Z.of_nat (length out) <= code_size + 3 /\ 0 <= n.
Proof.
  destruct (while_pass (fun p => p) (dead_step code code_size) 0 1 1 3 fuel pass_start) as (p & E & H1 & H2 & H3);
    [intros; apply dead_step_advances; (done || lia) | lia | by apply within_start | lia | lia |].
  exists (dst p), (changes p). unfold optimize_dead_code_elimination.
  rewrite Z.sub_0_r in E. unfold more. rewrite E. split; [done | lia].
Qed.

Lemma constant_total : exists out n,
  optimize_constant_propagation code code_size fuel = Some (out, n) /\
  3 * Z.of_nat (length out) <= 10 * (code_size + 9) /\ 0 <= n.
Proof.
  destruct (while_pass progress (constant_step code) 0 3 10 9 fuel no_constants) as (c & E & H1 & H2 & H3);
    [intros; apply constant_step_advances; (done || lia) | lia | by apply within_start | lia | lia |].
  exists (dst (progress c)), (changes (progress c)). unfold optimize_constant_propagation.
  rewrite Z.sub_0_r in E. unfold more. rewrite E. split; [done | lia].
Qed.

Lemma rest_total k over margin step : 1 <= k -> 0 <= over -> 0 <= margin ->
  (forall p, within 1 k over p -> src p < code_size - margin -> advances 1 k over p (step p)) ->
  exists out n, pass_with_rest code code_size margin step fuel = Some (out, n) /\
    Z.of_nat (length out) <= k * (code_size + over) /\ 0 <= n.
Proof.
  intros Hk Ho Hm Hstep.
  destruct (while_pass (fun p => p) step margin 1 k over fuel pass_start) as (p & E & Hp);
    [intros; by apply Hstep | lia | by apply within_start | lia | lia |].
  destruct (while_pass (fun p => p) (copy_byte code) 0 1 k over fuel p) as (q & Eq & H1 & H2 & H3);
    [intros; apply advances_copy; (done || lia) | lia | done | lia | lia |].
  exists (dst q), (changes q). unfold pass_with_rest. rewrite E. cbn [mbind option_bind].
  rewrite Z.sub_0_r in Eq. unfold more. rewrite Eq. split; [done | nia].
Qed.

Lemma fusion_total : exists out n,
  optimize_instruction_fusion code code_size fuel = Some (out, n) /\ Z.of_nat (length out) <= code_size + 5 /\ 0 <= n.
Proof.
  destruct (rest_total 1 5 5 (fusion_step code code_size)) as (out & n & H); [lia.. | |].
  - intros. by apply fusion_step_advances.
  - exists out, n. by rewrite Z.mul_1_l in H.
Qed.

Lemma unrolling_total : exists out n,
  optimize_loop_unrolling code code_size fuel = Some (out, n) /\ Z.of_nat (length out) <= 9 * code_size /\ 0 <= n.
Proof.
  destruct (rest_total 9 0 10 (unroll_step code code_size)) as (out & n & H); [lia.. | |].
  - intros. by apply unroll_step_advances.
  - exists out, n. by rewrite Z.add_0_r in H.
Qed.
End PassFacts.

(** The four phases one after the other, from 256 bytes on. *)
Definition phase_ok (bound : Z) (original : phase) (ph : phase) : Prop :=
  0 <= current_size ph <= bound /\ 0 <= total_optimizations ph /\
  match replaced ph with
  | None => ph = original
  | Some bs => 0 < total_optimizations ph /\ Z.of_nat (length bs) = current_size ph
  end.

Lemma apply_phase_ok allocated garbage optimize b1 b2 original ph : b1 <= b2 ->
  (forall code size, 0 <= size <= b1 -> exists out n,
     optimize code size = Some (out, n) /\ Z.of_nat (length out) <= b2 /\ 0 <= n) ->
  phase_ok b1 original ph -> exists ph', apply_phase allocated garbage optimize ph = Some ph' /\ phase_ok b2 original ph'.
Proof.
  intros Hb Hopt (H1 & H2 & H3). unfold apply_phase. destruct allocated.
  2:{ exists ph. split; [done|]. split; [lia | done]. }
  destruct (Hopt (current_code ph) (current_size ph) H1) as (out & n & -> & Hl & Hn). cbn [mbind option_bind].
  eexists. split; [done|]. destruct (Z.ltb_spec 0 n); [|split; [lia | done]].
  split; cbn [current_size total_optimizations replaced]; lia.
Qed.

Definition final_bound : Z := 8082.

Lemma phases_total mem allocated garbage b ph0 :
  ph0 = {| current_code := fun i => mem (x86_entry b + i); current_size := original_size;
           total_optimizations := 0; replaced := None |} ->
  exists ph,
    (ph ← apply_phase (allocated 1%nat) (garbage 1%nat)
       (fun code size => optimize_dead_code_elimination code size pass_fuel) ph0;
     ph ← apply_phase (allocated 2%nat) (garbage 2%nat)
       (fun code size => optimize_constant_propagation code size pass_fuel) ph;
     ph ← apply_phase (allocated 3%nat) (garbage 3%nat)
       (fun code size => optimize_instruction_fusion code size pass_fuel) ph;
     apply_phase (allocated 4%nat) (garbage 4%nat)
       (fun code size => optimize_loop_unrolling code size pass_fuel) ph) = Some ph /\
    phase_ok final_bound ph0 ph.
Proof.
  intros E0. assert (Hf : Z.of_nat pass_fuel = 1000) by reflexivity.
  assert (H0 : phase_ok 256 ph0 ph0) by (rewrite E0; by split).
  destruct (apply_phase_ok (allocated 1%nat) (garbage 1%nat)
    (fun code size => optimize_dead_code_elimination code size pass_fuel) 256 259 ph0 ph0) as (ph1 & -> & H1);
    [done | | done |].
  { intros code size Hs. destruct (dead_code_total code size pass_fuel) as (out & n & H); [lia..|].
    exists out, n. split; [apply H | lia]. }
  cbn [mbind option_bind]. destruct (apply_phase_ok (allocated 2%nat) (garbage 2%nat)
    (fun code size => optimize_constant_propagation code size pass_fuel) 259 893 ph0 ph1) as (ph2 & -> & H2);
    [done | | done |].
  { intros code size Hs. destruct (constant_total code size pass_fuel) as (out & n & H); [lia..|].
    exists out, n. split; [apply H | lia]. }
  cbn [mbind option_bind]. destruct (apply_phase_ok (allocated 3%nat) (garbage 3%nat)
    (fun code size => optimize_instruction_fusion code size pass_fuel) 893 898 ph0 ph2) as (ph3 & -> & H3);
    [done | | done |].
  { intros code size Hs. destruct (fusion_total code size pass_fuel) as (out & n & H); [lia..|].
    exists out, n. split; [apply H | lia]. }
  cbn [mbind option_bind]. apply (apply_phase_ok _ _ _ 898); [done | | done].
  intros code size Hs. destruct (unrolling_total code size pass_fuel) as (out & n & H); [lia..|].
  exists out, n. split; [apply H | unfold final_bound; lia].
Qed.

Lemma apply_optimizations_total mem allocated garbage b : exists n b',
  hotblock_apply_optimizations mem allocated garbage (Some b) = Some (n, Some b') /\ 0 <= n /\
  (n = 0 -> b' = b) /\
  (0 < n -> if allocated 5%nat
            then exists bs, b' = set_optimized bs b /\ Z.of_nat (length bs) <= final_bound
            else b' = drop_optimized b).
Proof.
  unfold hotblock_apply_optimizations. destruct (x86_entry b =? 0); [exists 0, b; split_and!; (done || lia)|].
  destruct (negb (allocated 0%nat)); [exists 0, b; split_and!; (done || lia)|].
  destruct (phases_total mem allocated garbage b _ eq_refl) as (ph & E & Hph). cbv zeta.
  unfold mbind, option_bind in E |- *. set (p1 := apply_phase _ _ _ _) in *. destruct p1 as [ph1|]; [|done].
  set (p2 := apply_phase _ _ _ _) in *. destruct p2 as [ph2|]; [|done].
  set (p3 := apply_phase _ _ _ _) in *. destruct p3 as [ph3|]; [|done]. rewrite E.
  destruct Hph as (H1 & H2 & H3). destruct (replaced ph) as [bs|].
  - destruct H3 as [Hn Hl]. rewrite (proj2 (Z.ltb_lt _ _) Hn). eexists _, _. split; [done|]. split; [done|].
    split; [lia|]. intros _. destruct (allocated 5%nat); [|done]. exists bs. split; [done | lia].
  - exists 0, b. rewrite H3. split_and!; (done || lia).
Qed.

(** C4: the optimizer ends, and never writes behind a buffer.  On any code of at most
    the size that can reach it every pass returns, with at most 259, 893, 898 and 8082
    bytes, which fit the 16384 bytes of its buffer; so a block that is optimised gets at
    most 8082 bytes, and one that is not, for want of a pattern or of memory for a
    buffer, is left as it was. *)
Theorem hotblock_passes_fit :
  (forall code size, 0 <= size <= 256 -> exists out n,
     optimize_dead_code_elimination code size pass_fuel = Some (out, n) /\ Z.of_nat (length out) <= 259) /\
  (forall code size, 0 <= size <= 259 -> exists out n,
     optimize_constant_propagation code size pass_fuel = Some (out, n) /\ Z.of_nat (length out) <= 893) /\
  (forall code size, 0 <= size <= 893 -> exists out n,
     optimize_instruction_fusion code size pass_fuel = Some (out, n) /\ Z.of_nat (length out) <= 898) /\
  (forall code size, 0 <= size <= 898 -> exists out n,
     optimize_loop_unrolling code size pass_fuel = Some (out, n) /\ Z.of_nat (length out) <= final_bound) /\
  final_bound <= buffer_size /\
  forall mem allocated garbage b, exists n b',
    hotblock_apply_optimizations mem allocated garbage (Some b) = Some (n, Some b') /\ 0 <= n /\
    (n = 0 -> b' = b) /\
    (0 < n -> if allocated 5%nat
              then exists bs, b' = set_optimized bs b /\ Z.of_nat (length bs) <= final_bound
              else b' = drop_optimized b).
Proof.
  assert (Hf : Z.of_nat pass_fuel = 1000) by reflexivity. unfold final_bound. split_and!.
  - intros code size Hs. destruct (dead_code_total code size pass_fuel) as (out & n & H); [lia..|].
    exists out, n. split; [apply H | lia].
  - intros code size Hs. destruct (constant_total code size pass_fuel) as (out & n & H); [lia..|].
    exists out, n. split; [apply H | lia].
  - intros code size Hs. destruct (fusion_total code size pass_fuel) as (out & n & H); [lia..|].
    exists out, n. split; [apply H | lia].
  - intros code size Hs. destruct (unrolling_total code size pass_fuel) as (out & n & H); [lia..|].
    exists out, n. split; [apply H | lia].
  - unfold buffer_size, original_size. lia.
  - apply apply_optimizations_total.
Qed.

(** ** What dead code elimination does to the bytes *)

Lemma read_bytes_S code i n : 0 <= n -> read_bytes code i (n + 1) = code i :: read_bytes code (i + 1) n.
Proof.
  intros Hn. unfold read_bytes. rewrite seqZ_cons by lia. cbn [map]. f_equal; [f_equal; lia|].
  replace (Z.pred (n + 1)) with n by lia. change (Z.succ 0) with (1 + 0). rewrite <- fmap_add_seqZ.
  etrans; [exact (map_map (Z.add 1) (fun k => code (i + k)) (seqZ 0 n))|]. apply map_ext. intros k. f_equal. lia.
Qed.

(** The code has the bytes [bs] at [i]. *)
Definition has_at (code : Z -> Z) (i : Z) (bs : list Z) : Prop := read_bytes code i (Z.of_nat (length bs)) = bs.

Lemma nth_read_bytes code i n k : (k < n)%nat -> nth k (read_bytes code i (Z.of_nat n)) 0 = code (i + Z.of_nat k).
Proof.
  intros Hk. unfold read_bytes. rewrite nth_lookup. change (map ?f ?l) with (f <$> l).
  rewrite list_lookup_fmap, lookup_seqZ_lt by lia. done.
Qed.

Lemma has_at_intro code i bs : (forall k, (k < length bs)%nat -> code (i + Z.of_nat k) = nth k bs 0) -> has_at code i bs.
Proof.
  intros H. assert (Hl : length (read_bytes code i (Z.of_nat (length bs))) = length bs)
    by (unfold read_bytes; by rewrite length_map, length_seqZ, Nat2Z.id).
  apply (nth_ext _ _ 0 0 Hl). rewrite Hl. intros k Hk. rewrite nth_read_bytes by done. by apply H.
Qed.

Lemma has_at_byte code i bs k : has_at code i bs -> 0 <= k < Z.of_nat (length bs) -> code (i + k) = nth (Z.to_nat k) bs 0.
Proof. intros H Hk. rewrite <- H, nth_read_bytes, Z2Nat.id by lia. reflexivity. Qed.

Lemma has_at_sub code i l1 bs l2 : has_at code i (l1 ++ bs ++ l2) -> has_at code (i + Z.of_nat (length l1)) bs.
Proof.
  intros H. apply has_at_intro. intros k Hk. rewrite <- Z.add_assoc, <- Nat2Z.inj_add.
  rewrite (has_at_byte _ _ _ _ H) by (rewrite !length_app; lia). by rewrite Nat2Z.id, app_nth2_plus, app_nth1.
Qed.

(** Replace the bytes read from a place of known content. *)
Ltac byte_value bs k := eval cbv [nth Z.to_nat Pos.to_nat Pos.iter_op Nat.add app le_bytes] in (nth (Z.to_nat k) bs 0).
Ltac in_bytes := rewrite ?length_app, ?length_le_bytes; cbn [length app]; rewrite ?length_app, ?length_le_bytes; cbn [length]; lia.
Ltac bytes_at H :=
  match type of H with
  | has_at ?code ?i ?bs =>
    repeat match goal with
    | |- context [code (i + ?k)] =>
      let v := byte_value bs k in
      let E := fresh in
      assert (E : code (i + k) = v) by (exact (has_at_byte code i bs k H ltac:(in_bytes)));
      rewrite E; clear E
    | |- context [code i] =>
      let v := byte_value bs 0 in
      let E := fresh in
      assert (E : code i = v) by
        (rewrite <- (Z.add_0_r i) at 1; exact (has_at_byte code i bs 0 H ltac:(in_bytes)));
      rewrite E; clear E
    end
  end; cbn [Z.eqb Z.leb Z.ltb Z.compare Pos.compare Pos.compare_cont Pos.eqb andb orb negb].

Lemma dead_loop code size n fuel p :
  (forall i, 0 <= i < size -> code i <> 0x48) -> 0 <= n -> src p + n = size -> 0 <= src p -> n < Z.of_nat fuel ->
  while fuel (more size) (dead_step code size) p
  = Some {| src := size;
            dst := dst p ++ filter (fun b => b <> 0x90) (read_bytes code (src p) n);
            changes := changes p + Z.of_nat (length (filter (fun b => b = 0x90) (read_bytes code (src p) n))) |}.
Proof.
  intros Hc Hn. revert fuel p. pattern n. apply natlike_ind; [| |done]; clear n Hn.
  - intros fuel p Hs Hp Hf. destruct fuel as [|fuel]; [lia|]. cbn [while]. unfold more.
    rewrite (proj2 (Z.ltb_ge _ _)) by lia.
    change (read_bytes code (src p) 0) with (@nil Z). rewrite !filter_nil, app_nil_r. cbn [length].
    destruct p as [i l k]. cbn [src dst changes] in *. do 2 f_equal; lia.
  - intros n Hn IH fuel p Hs Hp Hf. destruct fuel as [|fuel]; [lia|]. cbn [while]. unfold more at 1.
    rewrite (proj2 (Z.ltb_lt _ _)) by lia. unfold dead_step at 2.
    assert (Hcode : code (src p) <> 0x48) by (apply Hc; lia).
    assert (Hd : dead_at code size (src p) = if code (src p) =? 0x90 then Some 1 else None).
    { unfold dead_at. by rewrite (proj2 (Z.eqb_neq _ _) Hcode). }
    rewrite <- Z.add_1_r, read_bytes_S, !filter_cons, Hd by done.
    destruct (Z.eqb_spec (code (src p)) 0x90) as [E|E].
    + rewrite IH by (cbn; lia). cbn [src dst changes tick put].
      rewrite (decide_True (P := code (src p) = 0x90)), (decide_False (P := code (src p) <> 0x90)) by auto.
      rewrite app_nil_r. cbn [length]. do 2 f_equal. lia.
    + rewrite IH by (cbn; lia). cbn [src dst changes copy_byte put].
      rewrite (decide_False (P := code (src p) = 0x90)), (decide_True (P := code (src p) <> 0x90)) by auto.
      by rewrite <- app_assoc.
Qed.

(** Dead code elimination works on bytes, not on instructions.  Without a byte 48 in the code it
    drops every byte 90, in opcodes, immediates and displacements alike, and counts
    them; a move of a register to itself is never dropped, although it is the first thing
    looked for; of LEA with a scaled register it drops four of the eight
    bytes, so that the displacement is left to be run; a TEST of a register with itself
    is dropped unless the byte behind it is 0F, the first of a long conditional jump. *)
Theorem dead_code_elimination_bytes code size (Hb : forall i, 0 <= code i < 256) :
  0 <= size ->
  ((forall i, 0 <= i < size -> code i <> 0x48) ->
     optimize_dead_code_elimination code size (S (Z.to_nat size))
     = Some (filter (fun b => b <> 0x90) (read_bytes code 0 size),
             Z.of_nat (length (filter (fun b => b = 0x90) (read_bytes code 0 size))))) /\
  (forall i, code i = 0x48 -> code (i + 1) = 0x89 -> dead_at code size i = None) /\
  (forall i sib rest disp, has_at code i [0x48; 0x8d; 0x04; sib] -> 0 <= sib < 256 -> sib &&& 0xc7 = 0x05 ->
     dead_at code size i = Some 4 /\
     exists index, decode_modrm no_prefix ([0x04; sib] ++ le_bytes 4 disp ++ rest)
                   = Some (0, Mem None index (s32 disp), rest)) /\
  (forall i modrm, has_at code i [0x48; 0x85; modrm] -> mod_of modrm = 3 -> reg_of modrm = rm_of modrm ->
     dead_at code size i = if (i + 3 <? size) && negb (code (i + 3) =? 0x0f) then Some 3 else None).
Proof.
  intros Hs. split_and!.
  - intros Hc. unfold optimize_dead_code_elimination. rewrite (dead_loop code size size) by (cbn; done || lia). done.
  - intros i H0 H1. unfold dead_at. rewrite H0, H1. cbn [Z.eqb Pos.eqb andb].
    destruct (Z.ltb_spec (code (i + 2)) 0xc0) as [H|H]; [|done].
    destruct (Z.eqb_spec (mod_of (code (i + 2))) 3) as [E|E]; [|done]. exfalso.
    specialize (Hb (i + 2)). unfold mod_of in E. rewrite Z.shiftr_div_pow2, (land_ones_mod _ 2) in E by done.
    assert (code (i + 2) / 2^6 < 3) by (apply Z.div_lt_upper_bound; lia).
    assert (0 <= code (i + 2) / 2^6) by (apply Z.div_pos; lia). rewrite Z.mod_small in E by lia. lia.
  - intros i sib rest disp Hr Hs0 Hsib. split.
    + unfold dead_at. bytes_at Hr. by rewrite Hsib.
    + cbn [app decode_modrm]. change (0x04 / 64 =? 3) with false. change (0x04 mod 8 =? 4) with true.
      assert (E : (sib mod 8 =? 5) && (0x04 / 64 =? 0) = true).
      { rewrite andb_true_r. apply Z.eqb_eq. change 8 with (2^3). rewrite <- (land_ones_mod sib 3 7) by done.
        change 7 with (0xc7 &&& 7). by rewrite Z.land_assoc, Hsib. }
      rewrite E, take_s32_bytes. eexists. reflexivity.
  - intros i modrm Hr Hm Hreg. unfold dead_at. bytes_at Hr.
    by rewrite Hm, Hreg, !Z.eqb_refl.
Qed.

(** ** What constant propagation computes *)

Definition mov_bytes (r v : Z) : list Z := [0x48; 0xb8 + r] ++ le_bytes 8 v.
(** The register form of a two-operand instruction: [reg] in the reg field. *)
Definition modrm_rr (reg rm : Z) : Z := 0xc0 + 8 * reg + rm.

Lemma modrm_rr_fields reg rm : 0 <= reg < 8 -> 0 <= rm < 8 ->
  mod_of (modrm_rr reg rm) = 3 /\ reg_of (modrm_rr reg rm) = reg /\ rm_of (modrm_rr reg rm) = rm.
Proof. intros H1 H2. each_of_8 H1; each_of_8 H2; done. Qed.

Lemma decode_mov_bytes r v rest : 0 <= r < 8 -> decode (mov_bytes r v ++ rest) = Some (MovRI W64 r (u64 v), rest).
Proof. intros Hr. unfold mov_bytes. rewrite <- app_assoc. each_of_8 Hr; cbn [app]; decode_eval; decode_fields. Qed.

Lemma decode_alu_rr op n reg rm rest : (op, n) ∈ [(ADD, 0x01); (SUB, 0x29); (XOR, 0x31)] -> 0 <= reg < 8 -> 0 <= rm < 8 ->
  decode ([0x48; n; modrm_rr reg rm] ++ rest) = Some (AluRmR op W64 (Reg rm) reg, rest).
Proof.
  intros Hin H1 H2. rewrite !elem_of_cons in Hin. destruct_or! Hin; [..|by apply elem_of_nil in Hin];
    injection Hin as -> ->; each_of_8 H1; each_of_8 H2; reflexivity.
Qed.

Lemma decode_mov_rr reg rm rest : 0 <= reg < 8 -> 0 <= rm < 8 ->
  decode ([0x48; 0x89; modrm_rr reg rm] ++ rest) = Some (MovRmR W64 (Reg rm) reg, rest).
Proof. intros H1 H2. each_of_8 H1; each_of_8 H2; reflexivity. Qed.

Lemma decode_alu_imm op k r imm rest : (op, k) ∈ [(AND, 0xe0); (CMP, 0xf8)] -> 0 <= r < 8 ->
  decode ([0x48; 0x81; k + r] ++ le_bytes 4 imm ++ rest) = Some (AluRmI op W64 (Reg r) (s32 imm), rest).
Proof.
  intros Hin Hr. rewrite !elem_of_cons in Hin. destruct_or! Hin; [..|by apply elem_of_nil in Hin];
    injection Hin as -> ->; each_of_8 Hr; cbn [app]; decode_eval; decode_fields.
Qed.

Section Constants.
Context (code : Z -> Z) (c : constants).
Abbreviation here_at bs := (has_at code (src (progress c)) bs).

Lemma read_imm_at i bs n v rest : has_at code i (bs ++ le_bytes n v ++ rest) ->
  read_imm code (i + Z.of_nat (length bs)) (Z.of_nat n) = v mod 2^(8 * Z.of_nat n).
Proof.
  intros H. rewrite <- le_combine_bytes. unfold read_imm. f_equal.
  rewrite <- (length_le_bytes n v) at 1. by apply (has_at_sub _ _ _ _ rest).
Qed.

Lemma constant_mov r v : 0 <= r < 8 -> here_at (mov_bytes r v) ->
  constant_step code c = on_pass (fun p => tick (put (mov_bytes r v) 10 p)) (set_const r (u64 v) c).
Proof.
  intros Hr H. unfold constant_step, is_mov_imm64_at. cbv zeta.
  assert (Hi : read_imm code (src (progress c) + 2) 8 = u64 v) by
    exact (read_imm_at _ [0x48; 0xb8 + r] 8 v [] ltac:(by rewrite app_nil_r)).
  rewrite Hi.
  assert (Hb : read_bytes code (src (progress c)) 10 = mov_bytes r v) by exact H. rewrite Hb.
  unfold mov_bytes in *. bytes_at H. rewrite (proj2 (Z.leb_le 0xb8 (0xb8 + r))), (proj2 (Z.leb_le (0xb8 + r) 0xbf)) by lia.
  cbn [andb]. replace (0xb8 + r - 0xb8) with r by lia. reflexivity.
Qed.

Lemma constant_skip b : here_at [b] -> b <> 0x48 -> constant_step code c = on_pass (put [b] 1) c.
Proof.
  intros H Hb. unfold constant_step, is_mov_imm64_at, record_xor. cbv zeta. bytes_at H.
  rewrite (proj2 (Z.eqb_neq _ _) Hb). cbn [andb]. unfold on_pass, copy_byte. by bytes_at H.
Qed.

Lemma constant_skip_mov m : here_at [0x48; 0x89; m] -> constant_step code c = on_pass (put [0x48] 1) c.
Proof.
  intros H. unfold constant_step, is_mov_imm64_at, record_xor. cbv zeta. bytes_at H.
  unfold on_pass, copy_byte. by bytes_at H.
Qed.

Lemma constant_add reg rm : 0 <= reg < 8 -> 0 <= rm < 8 -> here_at [0x48; 0x01; modrm_rr reg rm] ->
  reg_is_const c reg = true -> reg_is_const c rm = true ->
  constant_step code c = load_const reg (u64 (reg_constants c reg + reg_constants c rm)) 3 c.
Proof.
  intros Hr Hm H Cr Cm. unfold constant_step, is_mov_imm64_at, record_xor. cbv zeta. bytes_at H.
  destruct (modrm_rr_fields reg rm Hr Hm) as (-> & -> & ->). by rewrite Cr, Cm.
Qed.

Lemma constant_and r imm : 0 <= r < 8 -> here_at ([0x48; 0x81; 0xe0 + r] ++ le_bytes 4 imm) -> reg_is_const c r = true ->
  constant_step code c = load_const r (reg_constants c r &&& u32 imm) 7 c.
Proof.
  intros Hr H Cr. unfold constant_step, is_mov_imm64_at, record_xor. cbv zeta.
  assert (Hi : read_imm code (src (progress c) + 3) 4 = u32 imm) by
    exact (read_imm_at _ [0x48; 0x81; 0xe0 + r] 4 imm [] ltac:(by rewrite app_nil_r)).
  rewrite Hi. bytes_at H.
  assert (E : (0xe0 + r) &&& 0xf8 = 0xe0 /\ (0xe0 + r) &&& 7 = r) by (each_of_8 Hr; done). destruct E as [-> ->].
  by rewrite Cr.
Qed.
End Constants.

Lemma while_more {S} fuel cond body (s : S) : cond s = true -> while (Datatypes.S fuel) cond body s = while fuel cond body (body s).
Proof. intros E. cbn. by rewrite E. Qed.
Lemma while_end {S} fuel cond body (s : S) : cond s = false -> while (Datatypes.S fuel) cond body s = Some s.
Proof. intros E. cbn. by rewrite E. Qed.

Lemma has_at_buffer garbage l1 bs l2 : has_at (buffer garbage (l1 ++ bs ++ l2)) (Z.of_nat (length l1)) bs.
Proof.
  apply has_at_intro. intros k Hk. unfold buffer.
  rewrite (proj2 (Z.leb_le _ _)), (proj2 (Z.ltb_lt _ _)) by (rewrite ?length_app; lia). cbn [andb].
  replace (Z.to_nat _) with (length l1 + k)%nat by lia. by rewrite app_nth2_plus, app_nth1.
Qed.

Lemma has_at_in garbage l i bs l1 l2 : l = l1 ++ bs ++ l2 -> i = Z.of_nat (length l1) -> has_at (buffer garbage l) i bs.
Proof. intros -> ->. apply has_at_buffer. Qed.

Lemma length_mov_bytes r v : length (mov_bytes r v) = 10%nat.
Proof. unfold mov_bytes. by rewrite length_app, length_le_bytes. Qed.

(** The pass over the two moves, with what follows them. *)
Lemma constant_two_moves garbage reg rm c1 c2 rest fuel : 0 <= reg < 8 -> 0 <= rm < 8 ->
  let code := buffer garbage (mov_bytes reg c1 ++ mov_bytes rm c2 ++ rest) in
  let size := 20 + Z.of_nat (length rest) in
  while (S (S fuel)) (fun c => more size (progress c)) (constant_step code) no_constants
  = while fuel (fun c => more size (progress c)) (constant_step code)
      {| progress := {| src := 20; dst := mov_bytes reg c1 ++ mov_bytes rm c2; changes := 2 |};
         reg_constants := fun r => if r =? rm then u64 c2 else if r =? reg then u64 c1 else 0;
         reg_is_const := fun r => if r =? rm then true else if r =? reg then true else false |}.
Proof.
  intros Hr Hm code size. rewrite !while_more.
  - f_equal. rewrite (constant_mov _ no_constants reg c1) by (try done; by apply (has_at_in _ _ _ _ [] (mov_bytes rm c2 ++ rest))).
    rewrite (constant_mov _ _ rm c2); [done..|].
    apply (has_at_in _ _ _ _ (mov_bytes reg c1) rest); [done | by rewrite length_mov_bytes].
  - rewrite (constant_mov _ no_constants reg c1) by (try done; by apply (has_at_in _ _ _ _ [] (mov_bytes rm c2 ++ rest))).
    apply Z.ltb_lt. cbn. lia.
  - apply Z.ltb_lt. cbn. lia.
Qed.

Lemma two_moves_run reg rm c1 c2 rest il st : 0 <= reg < 8 -> 0 <= rm < 8 ->
  0 <= c1 < 2^64 -> 0 <= c2 < 2^64 -> disassemble rest = Some il ->
  run (mov_bytes reg c1 ++ mov_bytes rm c2 ++ rest) st
  = exec_all il {| regs := upd (upd (regs st) reg c1) rm c2; memory := memory st |}.
Proof.
  intros Hr Hm H1 H2 Hd. unfold run. rewrite (disassemble_cons _ _ (MovRI W64 reg (u64 c1)) (MovRI W64 rm (u64 c2) :: il)).
  - cbn. by rewrite !u64_small by (rewrite ?u64_small; lia).
  - by apply decode_mov_bytes.
  - done.
  - apply disassemble_cons; [by apply decode_mov_bytes | done | done].
Qed.

Section TwoConstants.
Context (garbage : Z -> Z) (reg rm c1 c2 : Z).
Context (Hr : 0 <= reg < 8) (Hm : 0 <= rm < 8) (H1 : 0 <= c1 < 2^64) (H2 : 0 <= c2 < 2^64).

Definition propagate (bs : list Z) : option (list Z * Z) :=
  optimize_constant_propagation (buffer garbage bs) (Z.of_nat (length bs)) pass_fuel.
Abbreviation moves rest := (mov_bytes reg c1 ++ mov_bytes rm c2 ++ rest).

(** What is left of the pass behind the two moves. *)
Lemma propagate_moves rest : propagate (moves rest) =
  (c ← while 998 (fun c => more (20 + Z.of_nat (length rest)) (progress c)) (constant_step (buffer garbage (moves rest)))
      {| progress := {| src := 20; dst := moves []; changes := 2 |};
         reg_constants := fun r => if r =? rm then c2 else if r =? reg then c1 else 0;
         reg_is_const := fun r => if r =? rm then true else if r =? reg then true else false |};
   Some (dst (progress c), changes (progress c))).
Proof.
  unfold propagate, optimize_constant_propagation.
  replace (Z.of_nat (length (moves rest))) with (20 + Z.of_nat (length rest)) by (rewrite !length_app, !length_mov_bytes; lia).
  change pass_fuel with (S (S 998)).
  rewrite constant_two_moves, app_nil_r by done. by rewrite !u64_small.
Qed.

Lemma has_at_behind l bs l2 i : l = bs ++ l2 -> i = 20 -> has_at (buffer garbage (moves l)) i bs.
Proof.
  intros -> ->. apply (has_at_in _ _ _ _ (mov_bytes reg c1 ++ mov_bytes rm c2) l2).
  - by rewrite <- !app_assoc.
  - by rewrite length_app, !length_mov_bytes.
Qed.

Context (Hne : reg <> rm).

Lemma load_const_last fuel r v n size c code : 0 <= r < 8 -> size <= src (progress c) + n ->
  (c ← while (S fuel) (fun c => more size (progress c)) (constant_step code) (load_const r v n c);
   Some (dst (progress c), changes (progress c)))
  = Some (dst (progress c) ++ mov_bytes r v, changes (progress c) + 1).
Proof.
  intros Hr' Hs. rewrite while_end by (apply Z.ltb_ge; cbn; lia).
  cbn [mbind option_bind progress load_const on_pass tick put dst changes]. by rewrite u8_small by lia.
Qed.

Lemma propagate_add : propagate (moves [0x48; 0x01; modrm_rr reg rm]) = Some (moves (mov_bytes reg (u64 (c1 + c2))), 3).
Proof.
  rewrite propagate_moves. change 998%nat with (S (S 996)). rewrite while_more by (apply Z.ltb_lt; cbn; lia).
  rewrite (constant_add _ _ reg rm) by (try done; first [by apply (has_at_behind _ _ []) | cbn; rewrite Z.eqb_refl; by destruct (reg =? rm)]).
  cbn [reg_constants]. rewrite !Z.eqb_refl, (proj2 (Z.eqb_neq reg rm)) by done.
  rewrite (load_const_last 996) by (cbn; lia). cbn [dst changes progress]. by rewrite app_nil_r, <- app_assoc.
Qed.

Lemma propagate_mask imm : 0 <= imm < 2^32 ->
  propagate (moves ([0x48; 0x81; 0xe0 + rm] ++ le_bytes 4 imm)) = Some (moves (mov_bytes rm (c2 &&& imm)), 3).
Proof.
  intros Hi. rewrite propagate_moves. change 998%nat with (S (S 996)).
  rewrite while_more by (apply Z.ltb_lt; rewrite length_app, length_le_bytes; cbn; lia).
  rewrite (constant_and _ _ rm imm) by (try done; first [by apply (has_at_behind _ _ []) | cbn; by rewrite Z.eqb_refl]).
  cbn [reg_constants]. rewrite Z.eqb_refl, u32_small by done.
  rewrite (load_const_last 996) by (rewrite ?length_app, ?length_le_bytes; cbn; lia).
  cbn [dst changes progress]. by rewrite app_nil_r, <- app_assoc.
Qed.

Lemma propagate_copy s : 0 <= s < 8 ->
  propagate (moves ([0x48; 0x89; modrm_rr s rm] ++ [0x48; 0x01; modrm_rr reg rm]))
  = Some (moves ([0x48; 0x89; modrm_rr s rm] ++ mov_bytes reg (u64 (c1 + c2))), 3).
Proof.
  intros Hs. rewrite propagate_moves. change 998%nat with (S (S (S (S 994)))).
  set (code := buffer _ _). set (size := 20 + _). set (c := {| progress := _ |}).
  assert (Hat : forall i bs l1 l2, [0x48; 0x89; modrm_rr s rm] ++ [0x48; 0x01; modrm_rr reg rm] = l1 ++ bs ++ l2 ->
    i = 20 + Z.of_nat (length l1) -> has_at code i bs).
  { intros i bs l1 l2 E ->. unfold code. rewrite E.
    apply (has_at_in _ _ _ _ (mov_bytes reg c1 ++ mov_bytes rm c2 ++ l1) l2); [by rewrite <- !app_assoc|].
    rewrite !length_app, !length_mov_bytes. lia. }
  rewrite while_more by done. rewrite (constant_skip_mov _ c (modrm_rr s rm)) by (by apply (Hat _ _ [] [0x48; 0x01; modrm_rr reg rm])).
  rewrite while_more by done. rewrite (constant_skip _ _ 0x89) by (try done; by apply (Hat _ _ [0x48] [modrm_rr s rm; 0x48; 0x01; modrm_rr reg rm])).
  rewrite while_more by done. rewrite (constant_skip _ _ (modrm_rr s rm))
    by (first [by apply (Hat _ _ [0x48; 0x89] [0x48; 0x01; modrm_rr reg rm]) | unfold modrm_rr; lia]).
  rewrite while_more by done. rewrite (constant_add _ _ reg rm)
    by (try done; first [by apply (Hat _ _ [0x48; 0x89; modrm_rr s rm] []) | cbn; rewrite Z.eqb_refl; by destruct (reg =? rm)]).
  cbn [reg_constants on_pass c]. rewrite !Z.eqb_refl, (proj2 (Z.eqb_neq reg rm)) by done.
  change 994%nat with (S 993). rewrite load_const_last by done.
  cbn [dst changes progress on_pass put c]. by rewrite app_nil_r, <- !app_assoc.
Qed.
End TwoConstants.

(** The value of a register after a few writes. *)
Ltac registers :=
  eexists; split; [reflexivity|]; split; [reflexivity|]; intros r;
  cbn [regs set_reg trunc alu_sem exec exec_all mbind option_bind]; unfold upd;
  repeat match goal with |- context [?a =? ?b] => destruct (Z.eqb_spec a b); subst end;
  rewrite ?(u64_small (u64 _)) by apply u64_range; try congruence; try (rewrite ?u64_small by lia; f_equal; lia).

(** Constant propagation changes what code computes.  Two constants are loaded and added: the
    sum belongs in the register of the r/m field, but the load that replaces the addition
    writes the other one.  A copy in between that overwrites one of them is not
    noticed: the sum is still that of the constants.  And the mask of an AND is not
    extended with its sign.  What each program computes before and after the pass. *)
Theorem constant_propagation_wrong garbage reg rm s c1 c2 st :
  0 <= reg < 8 -> 0 <= rm < 8 -> 0 <= s < 8 -> reg <> rm -> 0 <= c1 < 2^64 -> 0 <= c2 < 2^64 ->
  let propagate := propagate garbage in
  let moves := mov_bytes reg c1 ++ mov_bytes rm c2 in
  let add := [0x48; 0x01; modrm_rr reg rm] in
  let copy := [0x48; 0x89; modrm_rr s rm] in
  let result bs f := exists st', run bs st = Some st' /\ memory st' = memory st /\ forall r, regs st' r = f r in
  (propagate (moves ++ add) = Some (moves ++ mov_bytes reg (u64 (c1 + c2)), 3) /\
   result (moves ++ add) (upd (upd (regs st) reg c1) rm (u64 (c1 + c2))) /\
   result (moves ++ mov_bytes reg (u64 (c1 + c2))) (upd (upd (regs st) rm c2) reg (u64 (c1 + c2)))) /\
  (s <> rm -> s <> reg ->
   propagate (moves ++ copy ++ add) = Some (moves ++ copy ++ mov_bytes reg (u64 (c1 + c2)), 3) /\
   result (moves ++ copy ++ add) (upd (upd (regs st) reg c1) rm (u64 (u64 (regs st s) + c1))) /\
   result (moves ++ copy ++ mov_bytes reg (u64 (c1 + c2)))
     (upd (upd (regs st) rm (u64 (regs st s))) reg (u64 (c1 + c2)))) /\
  (forall imm, 0 <= imm < 2^32 ->
   let mask := [0x48; 0x81; 0xe0 + rm] ++ le_bytes 4 imm in
   propagate (moves ++ mask) = Some (moves ++ mov_bytes rm (c2 &&& imm), 3) /\
   result (moves ++ mask) (upd (upd (regs st) reg c1) rm (u64 (c2 &&& s32 imm))) /\
   result (moves ++ mov_bytes rm (c2 &&& imm)) (upd (upd (regs st) reg c1) rm (c2 &&& imm))).
Proof.
  intros Hr Hm Hs Hne H1 H2 propagate moves add copy result.
  assert (Hadd : disassemble add = Some [AluRmR ADD W64 (Reg rm) reg]).
  { apply disassemble_one; [|done]. rewrite <- (app_nil_r add). by apply decode_alu_rr; [left|..]. }
  assert (Hmov : forall r v, 0 <= r < 8 -> disassemble (mov_bytes r v) = Some [MovRI W64 r (u64 v)]).
  { intros r v Hr'. apply disassemble_one; [|done]. rewrite <- (app_nil_r (mov_bytes r v)). by apply decode_mov_bytes. }
  assert (Hcopy : forall rest il, disassemble rest = Some il ->
    disassemble (copy ++ rest) = Some (MovRmR W64 (Reg rm) s :: il)).
  { intros rest il E. apply disassemble_cons; [by apply decode_mov_rr | done | done]. }
  assert (Hand : forall imm, 0 <= imm < 2^32 -> 0 <= c2 &&& imm < 2^64).
  { intros imm Hi. pose proof (land_range c2 imm). lia. }
  assert (Hrun : forall rest il f, disassemble rest = Some il ->
    (exists st', exec_all il {| regs := upd (upd (regs st) reg c1) rm c2; memory := memory st |} = Some st' /\
       memory st' = memory st /\ forall r, regs st' r = f r) -> result (moves ++ rest) f).
  { intros rest il f Hd (st' & E & H). exists st'. split; [|done]. unfold moves. rewrite <- app_assoc.
    by rewrite (two_moves_run _ _ _ _ _ il). }
  unfold moves. split; [|split].
  - rewrite <- !app_assoc. split_and!; [by apply propagate_add | |]; rewrite app_assoc.
    + apply (Hrun _ _ _ Hadd). registers.
    + apply (Hrun _ _ _ (Hmov _ _ Hr)). registers.
  - intros Hsm Hsr. rewrite <- !app_assoc. split_and!; [by apply propagate_copy | |]; rewrite app_assoc.
    + apply (Hrun _ _ _ (Hcopy _ _ Hadd)). registers.
    + apply (Hrun _ _ _ (Hcopy _ _ (Hmov _ _ Hr))). registers.
  - intros imm Hi. pose proof (Hand imm Hi). set (mask := [0x48; 0x81; 0xe0 + rm] ++ le_bytes 4 imm). rewrite <- !app_assoc. split_and!; [by apply propagate_mask | |]; rewrite app_assoc.
    + apply (Hrun mask [AluRmI AND W64 (Reg rm) (s32 imm)]).
      * apply disassemble_one; [|done]. rewrite <- (app_nil_r mask). unfold mask. rewrite <- app_assoc.
        apply decode_alu_imm; [by left | done].
      * registers.
    + apply (Hrun _ _ _ (Hmov _ _ Hm)). registers.
Qed.

(** ** What fusion does *)

(** The zero flag an instruction leaves, from the processor manual. *)
Definition zero_flag (i : insn) (st : machine) : option bool :=
  match i with
  | AluRmI CMP w (Reg d) imm => Some (trunc w (regs st d - imm) =? 0)
  | AluRmI AND w (Reg d) imm | TestRmI w (Reg d) imm => Some (trunc w (regs st d &&& imm) =? 0)
  | TestRmR w (Reg a) b => Some (trunc w (regs st a &&& regs st b) =? 0)
  | _ => None
  end.

Definition jcc_bytes (cc rel : Z) : list Z := [0x0f; 0x80 + cc] ++ le_bytes 4 rel.

Lemma disassemble_jcc cc rel : (cc = 4 \/ cc = 5) -> disassemble (jcc_bytes cc rel) = Some [Jcc cc (s32 rel)].
Proof.
  intros Hcc. apply disassemble_one; [|done]. rewrite <- (app_nil_r (jcc_bytes cc rel)). unfold jcc_bytes.
  rewrite <- app_assoc. destruct Hcc as [-> | ->]; cbn [app]; decode_eval; decode_fields.
Qed.

Lemma read_sub code i l1 n v l2 : has_at code i (l1 ++ le_bytes n v ++ l2) ->
  read_bytes code (i + Z.of_nat (length l1)) (Z.of_nat n) = le_bytes n v.
Proof. intros H. rewrite <- (length_le_bytes n v) at 1. by apply (has_at_sub _ _ _ _ l2). Qed.

(** What fusion does with each of its patterns, and what the bytes mean before and after.  A
    comparison of RAX with any constant, before a jump on equality, becomes a test of RAX
    against itself: the jump is then taken when RAX is zero, whatever the constant.
    An AND before a jump becomes a TEST: the jump is the same, but the register keeps its old
    value.  SUB of a register from itself becomes XOR, which computes the same, and a
    comparison before SETcc is written as it was. *)
Theorem fusion_effect code size p :
  let i := src p in
  (forall imm rel, i + 13 <= size -> has_at code i ([0x48; 0x81; 0xf8] ++ le_bytes 4 imm ++ jcc_bytes 4 rel) ->
     exists before after,
     fusion_step code size p = tick (put ([0x48; 0x85; 0xc0] ++ jcc_bytes 4 rel) 13 p) /\
     disassemble ([0x48; 0x81; 0xf8] ++ le_bytes 4 imm ++ jcc_bytes 4 rel) = Some [before; Jcc 4 (s32 rel)] /\
     disassemble ([0x48; 0x85; 0xc0] ++ jcc_bytes 4 rel) = Some [after; Jcc 4 (s32 rel)] /\
     forall st, 0 <= regs st 0 < 2^64 -> zero_flag before st = Some (regs st 0 =? u64 (s32 imm)) /\
                zero_flag after st = Some (regs st 0 =? 0)) /\
  (forall r imm cc rel, i + 13 <= size -> 0 <= r < 8 -> (cc = 4 \/ cc = 5) ->
     has_at code i ([0x48; 0x81; 0xe0 + r] ++ le_bytes 4 imm ++ jcc_bytes cc rel) ->
     exists before after,
     fusion_step code size p = tick (put ([0x48; 0xf7; 0xc0 + r] ++ le_bytes 4 imm ++ jcc_bytes cc rel) 13 p) /\
     disassemble ([0x48; 0x81; 0xe0 + r] ++ le_bytes 4 imm ++ jcc_bytes cc rel) = Some [before; Jcc cc (s32 rel)] /\
     disassemble ([0x48; 0xf7; 0xc0 + r] ++ le_bytes 4 imm ++ jcc_bytes cc rel) = Some [after; Jcc cc (s32 rel)] /\
     after = TestRmI W64 (Reg r) (s32 imm) /\
     forall st, zero_flag before st = zero_flag after st /\
       exec before st = Some {| regs := upd (regs st) r (u64 (regs st r &&& s32 imm)); memory := memory st |}) /\
  (forall r r2, i + 6 <= size -> 0 <= r < 8 -> 0 <= r2 < 8 ->
     has_at code i [0x48; 0x29; modrm_rr r r; 0x48; 0x19; modrm_rr r2 r2] ->
     fusion_step code size p = tick (put [0x48; 0x31; modrm_rr r r; 0x48; 0x19; modrm_rr r2 r2] 6 p) /\
     forall st, run [0x48; 0x29; modrm_rr r r] st = run [0x48; 0x31; modrm_rr r r] st) /\
  (forall modrm cc m2, i + 6 <= size -> 0 <= cc < 16 -> has_at code i [0x48; 0x39; modrm; 0x0f; 0x90 + cc; m2] ->
     fusion_step code size p = tick (put [0x48; 0x39; modrm; 0x0f; 0x90 + cc; m2] 6 p)).
Proof.
  intros i. split_and!.
  - intros imm rel Hi H. exists (AluRmI CMP W64 (Reg 0) (s32 imm)), (TestRmR W64 (Reg 0) 0). split_and!.
    + unfold fusion_step. cbv zeta. fold i.
      assert (Hr : read_bytes code (i + 9) 4 = le_bytes 4 rel).
      { apply (read_sub code i ([0x48; 0x81; 0xf8] ++ le_bytes 4 imm ++ [0x0f; 0x84]) 4 rel []).
        unfold jcc_bytes in H. by rewrite app_nil_r, <- !app_assoc. }
      rewrite Hr, (proj2 (Z.ltb_lt (i + 7) size)) by lia. unfold jcc_bytes in H. by bytes_at H.
    + rewrite app_assoc. apply disassemble_cons; [|done|by apply disassemble_jcc; left].
      rewrite <- app_assoc. by apply (decode_alu_imm CMP 0xf8 0); [right; left|].
    + apply disassemble_cons; [|done|by apply disassemble_jcc; left]. done.
    + intros st Hst. cbn [zero_flag trunc]. rewrite Z.land_diag, (u64_small (regs st 0)) by done. split; [|done].
      f_equal. apply eq_true_iff_eq. rewrite !Z.eqb_eq. unfold u64. Z.div_mod_to_equations. lia.
  - intros r imm cc rel Hi Hr Hcc H. exists (AluRmI AND W64 (Reg r) (s32 imm)), (TestRmI W64 (Reg r) (s32 imm)). split_and!.
    + unfold fusion_step. cbv zeta. fold i.
      assert (H1 : read_bytes code (i + 9) 4 = le_bytes 4 rel).
      { apply (read_sub code i ([0x48; 0x81; 0xe0 + r] ++ le_bytes 4 imm ++ [0x0f; 0x80 + cc]) 4 rel []).
        unfold jcc_bytes in H. by rewrite app_nil_r, <- !app_assoc. }
      assert (H2 : read_bytes code (i + 3) 4 = le_bytes 4 imm).
      { by apply (read_sub code i [0x48; 0x81; 0xe0 + r] 4 imm (jcc_bytes cc rel)). }
      rewrite H1, H2, (proj2 (Z.ltb_lt (i + 7) size)) by lia. unfold jcc_bytes in H.
      destruct Hcc as [-> | ->]; each_of_8 Hr; by bytes_at H.
    + rewrite app_assoc. apply disassemble_cons; [|done|by apply disassemble_jcc].
      rewrite <- app_assoc. by apply (decode_alu_imm AND 0xe0 r); [left|].
    + rewrite app_assoc. apply disassemble_cons; [|done|by apply disassemble_jcc].
      rewrite <- app_assoc. each_of_8 Hr; cbn [app]; decode_eval; decode_fields.
    + done.
    + intros st. split; [done|]. done.
  - intros r r2 Hi Hr Hr2 H. split.
    + unfold fusion_step. cbv zeta. fold i. rewrite (proj2 (Z.ltb_lt (i + 3) (size - 2))) by lia.
      each_of_8 Hr; each_of_8 Hr2; by bytes_at H.
    + intros st. rewrite (run_one _ (AluRmR SUB W64 (Reg r) r)), (run_one _ (AluRmR XOR W64 (Reg r) r)).
      * cbn. by rewrite Z.sub_diag, Z.lxor_nilpotent.
      * by apply (decode_alu_rr XOR 0x31 r r []); [right; right; left|..].
      * done.
      * by apply (decode_alu_rr SUB 0x29 r r []); [right; left|..].
      * done.
  - intros modrm cc m2 Hi Hcc H. unfold fusion_step. cbv zeta. fold i.
    rewrite (proj2 (Z.ltb_lt (i + 3) (size - 2))) by lia. bytes_at H.
    rewrite (proj2 (Z.leb_le 0x90 (0x90 + cc))), (proj2 (Z.leb_le (0x90 + cc) 0x9f)) by lia. done.
Qed.

(** ** What unrolling does *)

Lemma find_loop_at code size i body d : has_at code i (body ++ [0xe2; d]) -> 0xe2 ∉ body ->
  i + Z.of_nat (length body) + 2 < size -> find_loop code size i = Some (i + Z.of_nat (length body)).
Proof.
  intros H Hb Hs. unfold find_loop.
  assert (E : list_find (fun k => code k = 0xe2) (seqZ i (size - 2 - i)) = Some (length body, i + Z.of_nat (length body))).
  2:{ by rewrite E. }
  apply list_find_Some. split; [rewrite lookup_seqZ_lt by lia; done|]. split.
  - rewrite (has_at_byte _ _ _ _ H) by (rewrite length_app; cbn [length]; lia).
    by rewrite Nat2Z.id, app_nth2, Nat.sub_diag by lia.
  - intros j k Hk Hj. apply lookup_seqZ in Hk as [-> Hlt]. rewrite (has_at_byte _ _ _ _ H) by (rewrite length_app; lia).
    rewrite Nat2Z.id, app_nth1 by lia. intros E. apply Hb, list_elem_of_In. rewrite <- E. by apply nth_In.
Qed.

Definition repeat_bytes (n : Z) (body : list Z) : list Z := concat (replicate (Z.to_nat n) body).

Lemma rel8 k : 0 <= k <= 128 -> s8 (s32 (- s32 k) &&& 0xff) = - k.
Proof.
  intros Hk. rewrite land_255, (s32_small k), s32_small by (rewrite ?s32_small; lia).
  unfold s8, u8. rewrite Zplus_mod_idemp_l, Z.mod_small; lia.
Qed.

Section Loop.
Context (code : Z -> Z) (size start : Z) (body : list Z) (d : Z).
Context (Hbody : 0xe2 ∉ body) (H : has_at code start (body ++ [0xe2; d])).
Context (Hsize : start + Z.of_nat (length body) + 2 < size).

Lemma loop_found : find_loop code size start = Some (start + Z.of_nat (length body)).
Proof. by apply (find_loop_at _ _ _ _ d). Qed.
Lemma loop_body : read_bytes code start (Z.of_nat (length body)) = body.
Proof. pose proof (has_at_sub code start [] body [0xe2; d] H) as Hb. cbn [length] in Hb. by rewrite Z.add_0_r in Hb. Qed.
End Loop.

(** What becomes of a counted loop.  The body between the load of the counter
    and the first byte E2 is copied as often as the counter says, up to 8 times, or 8 times (4
    for more than 32) before a loop for the rest.  What is copied does not depend on where the loop
    instruction jumps to, and with up to 8 copies nothing loads ECX any more.  The
    loop for the rest does not jump back to its body, but into the middle of the load of its
    counter, three bytes before; in the form with an 8-bit counter to the byte before
    that load. *)
Theorem unrolling_effect code size p body n d :
  let i := src p in
  let len := Z.of_nat (length body) in
  let rest k := [0xb9] ++ le_bytes 4 (n - k) ++ body ++ [0xe2; s32 (- s32 (len + 5)) &&& 0xff] in
  let rest8 := [0xb0; u8 (n - 8); 0x0f; 0xb6; 0xc8] ++ body ++ [0xe2; s32 (- s32 (len + 8)) &&& 0xff] in
  0xe2 ∉ body -> 0 < len -> 0 <= n ->
  (n < 2^32 -> has_at code i ([0xb9] ++ le_bytes 4 n ++ body ++ [0xe2; d]) -> i + len + 7 < size ->
   has_control_flow code (i + 5) len = false ->
     (n <= 8 -> n * len < 1024 -> unroll_step code size p = tick (put (repeat_bytes n body) (len + 7) p)) /\
     (9 <= n <= 32 -> 8 * len + 7 < 2048 ->
        unroll_step code size p = tick (put (repeat_bytes 8 body ++ rest 8) (len + 7) p)) /\
     (33 <= n <= 64 -> 4 * len + 7 < 2048 ->
        unroll_step code size p = tick (put (repeat_bytes 4 body ++ rest 4) (len + 7) p)) /\
     (64 < n -> unroll_step code size p = copy_byte code p)) /\
  (n < 256 -> has_at code i ([0x31; 0xc9; 0xb0; n] ++ body ++ [0xe2; d]) -> i + len + 6 < size ->
   has_call_or_return code (i + 4) len = false ->
     (n <= 8 -> unroll_step code size p = tick (put (repeat_bytes n body) (len + 6) p)) /\
     (9 <= n <= 32 -> unroll_step code size p = tick (put (repeat_bytes 8 body ++ rest8) (len + 6) p)) /\
     (32 < n -> unroll_step code size p = copy_byte code p)) /\
  (forall k, len <= 120 ->
     Z.of_nat (length (rest k)) + s8 (s32 (- s32 (len + 5)) &&& 0xff) = 2 /\
     Z.of_nat (length rest8) + s8 (s32 (- s32 (len + 8)) &&& 0xff) = -1).
Proof.
  intros i len rest rest8 Hb Hlen Hn. split_and!.
  - intros Hn32 H Hs Hcf.
    assert (Hloop : has_at code (i + 5) (body ++ [0xe2; d])).
    { pose proof (has_at_sub code i ([0xb9] ++ le_bytes 4 n) (body ++ [0xe2; d]) []) as Hx.
      rewrite app_nil_r, <- app_assoc in Hx. exact (Hx H). }
    assert (Hi : read_imm code (i + 1) 4 = n).
    { transitivity (u32 n); [|by apply u32_small]. exact (read_imm_at code i [0xb9] 4 n (body ++ [0xe2; d]) H). }
    assert (E : unroll_mov_ecx code size p =
      let replace bs := Some (tick (put bs (len + 7) p)) in
      if n =? 0 then replace []
      else if n <=? 8 then if n * len <? 1024 then replace (repeat_bytes n body) else None
      else if n <=? 32 then if 8 * len + 7 <? 2048 then replace (repeat_bytes 8 body ++ rest 8) else None
      else if n <=? 64 then if 4 * len + 7 <? 2048 then replace (repeat_bytes 4 body ++ rest 4) else None
      else None).
    { unfold unroll_mov_ecx. cbv zeta. fold i. bytes_at H.
      rewrite (loop_found code size _ body d), Hi by (done || lia). unfold partly_unrolled, copies.
      fold len. replace (i + 5 + len - (i + 5)) with len by lia. replace (i + 5 + len + 2 - i) with (len + 7) by lia.
      pose proof (loop_body code _ body d Hloop) as Hr. fold len in Hr. rewrite Hr, Hcf, (proj2 (Z.eqb_neq len 0)) by lia. reflexivity. }
    assert (E2 : unroll_mov_cl code size p = None) by (unfold unroll_mov_cl; cbv zeta; fold i; by bytes_at H).
    unfold unroll_step. rewrite E, E2. clear. cbv zeta.
    split_and!; intros; repeat case_match; simplify_eq; tests; try lia; try done; by subst n.
  - intros Hn8 H Hs Hcf.
    assert (Hloop : has_at code (i + 4) (body ++ [0xe2; d])).
    { pose proof (has_at_sub code i [0x31; 0xc9; 0xb0; n] (body ++ [0xe2; d]) []) as Hx.
      rewrite app_nil_r in Hx. exact (Hx H). }
    assert (E1 : unroll_mov_ecx code size p = None) by (unfold unroll_mov_ecx; cbv zeta; fold i; by bytes_at H).
    assert (E : unroll_mov_cl code size p =
      let replace bs := Some (tick (put bs (len + 6) p)) in
      if n <=? 8 then replace (repeat_bytes n body)
      else if n <=? 32 then replace (repeat_bytes 8 body ++ rest8) else None).
    { unfold unroll_mov_cl. cbv zeta. fold i. bytes_at H.
      rewrite (loop_found code size _ body d) by (done || lia). unfold copies.
      fold len. replace (i + 4 + len - (i + 4)) with len by lia. replace (i + 4 + len + 2 - i) with (len + 6) by lia.
      pose proof (loop_body code _ body d Hloop) as Hr. fold len in Hr. rewrite Hr, Hcf, (proj2 (Z.ltb_lt 0 len)) by lia. reflexivity. }
    unfold unroll_step. rewrite E, E1. clear. cbv zeta.
    split_and!; intros; repeat case_match; simplify_eq; tests; try lia; try done; by subst n.
  - intros k Hk. unfold rest, rest8. rewrite !length_app, !length_le_bytes, !rel8 by lia. cbn [length]. fold len. lia.
Qed.

(** ** The manager *)

Record hot_ok (m : HotBlockManager) : Prop := {
  hot_length : length (blocks m) = HOT_BLOCK_MAX;
  hot_count : (count m <= HOT_BLOCK_MAX)%nat;
  hot_distinct : forall i j, (i < count m)%nat -> (j < count m)%nat ->
    arm_pc (hot_at m i) = arm_pc (hot_at m j) -> i = j;
  hot_unused : forall i, (count m <= i)%nat -> hot_at m i = zero_hot }.

Definition put_hot (i : nat) (b : HotBlock) (n : nat) (t : Z) (m : HotBlockManager) : HotBlockManager :=
  {| blocks := <[i := b]> (blocks m); count := n; total_retranslations := t |}.

Lemma hot_at_put i b n t m j : (i < length (blocks m))%nat ->
  hot_at (put_hot i b n t m) j = if decide (j = i) then b else hot_at m j.
Proof. apply nth_insert. Qed.

Lemma put_twice i b b' n n' t t' m : put_hot i b' n' t' (put_hot i b n t m) = put_hot i b' n' t' m.
Proof. unfold put_hot. cbn. by rewrite list_insert_insert_eq. Qed.

Lemma hot_lookup_some m pc i : hot_ok m ->
  hotblock_lookup (Some m) pc = Some i <-> (i < count m)%nat /\ arm_pc (hot_at m i) = pc.
Proof.
  intros Hm. cbn. rewrite (find_first_some zero_hot). fold (hot_at m i).
  pose proof (hot_length m Hm). pose proof (hot_count m Hm). split; [by intros (? & _ & ? & _)|].
  intros [Hi Hpc]. split_and!; [done | lia | done |]. intros j Hj Hpj.
  enough (j = i) by lia. apply (hot_distinct m Hm); [lia | done |]. unfold hot_at in *. congruence.
Qed.

Lemma hot_lookup_none m pc : hot_ok m ->
  hotblock_lookup (Some m) pc = None -> forall i, (i < count m)%nat -> arm_pc (hot_at m i) <> pc.
Proof.
  intros Hm E i Hi. pose proof (hot_length m Hm). pose proof (hot_count m Hm).
  apply (proj1 (find_first_none zero_hot _ _ _) E i Hi). lia.
Qed.

(** Where a hit for [pc] is counted. *)
Definition hot_slot (m : HotBlockManager) (pc : Z) : nat :=
  match hotblock_lookup (Some m) pc with
  | Some i => i
  | None => if (HOT_BLOCK_MAX <=? count m)%nat then oldest m else count m
  end.

Lemma hot_slot_lt m pc : hot_ok m -> (hot_slot m pc < HOT_BLOCK_MAX)%nat.
Proof.
  intros Hm. pose proof (hot_count m Hm). unfold hot_slot. destruct (hotblock_lookup _ _) as [i|] eqn:E.
  - apply hot_lookup_some in E as [? _]; [lia | done].
  - destruct (Nat.leb_spec HOT_BLOCK_MAX (count m)) as [Hc|Hc]; [|done].
    assert (Ec : count m = HOT_BLOCK_MAX) by lia. rewrite <- Ec. apply first_least_all.
    rewrite Ec. unfold HOT_BLOCK_MAX. lia.
Qed.

(** The block there before the hit: that of [pc], or a new one. *)
Definition slot_block (m : HotBlockManager) (pc entry : Z) : HotBlock :=
  match hotblock_lookup (Some m) pc with
  | Some i => hot_at m i
  | None => new_block pc entry zero_hot
  end.

(** A block that is put in its slot keeps the invariant. *)
Lemma hot_ok_put m pc b t : hot_ok m -> arm_pc b = pc ->
  let i := hot_slot m pc in
  hot_ok (put_hot i b (Nat.max (count m) (S i)) t m) /\
  hotblock_lookup (Some (put_hot i b (Nat.max (count m) (S i)) t m)) pc = Some i.
Proof.
  intros Hm Hpc i. pose proof (hot_slot_lt m pc Hm) as Hi. fold i in Hi.
  pose proof (hot_length m Hm) as Hl. pose proof (hot_count m Hm) as Hc.
  assert (Hat : forall n, forall j, hot_at (put_hot i b n t m) j = if decide (j = i) then b else hot_at m j)
    by (intros n j; apply hot_at_put; lia).
  assert (Hicount : (i <= count m)%nat).
  { unfold i, hot_slot in *. destruct (hotblock_lookup _ _) as [k|] eqn:E; [apply hot_lookup_some in E as [? _]; [lia | done]|].
    destruct (Nat.leb_spec HOT_BLOCK_MAX (count m)); lia. }
  assert (Hne : forall j, (j < count m)%nat -> j <> i -> arm_pc (hot_at m j) <> pc).
  { intros j Hj Hji. unfold i, hot_slot in Hji. destruct (hotblock_lookup _ _) as [k|] eqn:E.
    - intros Hpj. apply hot_lookup_some in E as [Hk Hpk]; [|done]. apply Hji, (hot_distinct m Hm); [done..|congruence].
    - by apply (hot_lookup_none m). }
  assert (Hok : hot_ok (put_hot i b (Nat.max (count m) (S i)) t m)).
  { split; cbn [blocks count put_hot].
    - by rewrite length_insert.
    - lia.
    - intros j k Hj Hk. rewrite !Hat. destruct (decide (j = i)) as [->|Hji], (decide (k = i)) as [->|Hki]; [done|..].
      + intros E. destruct (Hne k); [lia | done | congruence].
      + intros E. destruct (Hne j); [lia | done | congruence].
      + apply (hot_distinct m Hm); lia.
    - intros j Hj. rewrite Hat, decide_False by lia. apply (hot_unused m Hm). lia. }
  split; [done|]. apply hot_lookup_some; [done|]. rewrite Hat, decide_True by done. split; [cbn; lia | done].
Qed.


Definition retranslated (b : HotBlock) : bool := c_true (flags b &&& HOT_FLAG_RETRANSLATED).

Lemma retranslated_flag f b : f &&& HOT_FLAG_RETRANSLATED = 0 -> retranslated (set_flag f b) = retranslated b.
Proof. intros Hf. unfold retranslated, set_flag. cbn [flags]. by rewrite Z.land_lor_distr_l, Hf, Z.lor_0_r. Qed.

Lemma retranslated_set b : retranslated (set_flag HOT_FLAG_RETRANSLATED b) = true.
Proof.
  unfold retranslated, set_flag, c_true. cbn [flags]. rewrite Z.land_lor_distr_l. apply negb_true_iff, Z.eqb_neq.
  intros E. apply Z.lor_eq_0_iff in E as [_ E]. done.
Qed.

(** A hot block after its optimisation: the code [bo] has, and the flags. *)
Definition finish_hot (n : Z) (b : HotBlock) : HotBlock :=
  let b := if 0 <? n then set_flag HOT_FLAG_RETRANSLATED b else b in
  if HOT_BLOCK_AGGRESSIVE <=? hit_count b then set_flag HOT_FLAG_AGGRESSIVE b else b.

Lemma finish_hot_spec n b : 0 <= n -> retranslated b = false ->
  retranslated (finish_hot n b) = (0 <? n) /\ x86_optimized (finish_hot n b) = x86_optimized b /\
  hit_count (finish_hot n b) = hit_count b /\ arm_pc (finish_hot n b) = arm_pc b /\
  x86_entry (finish_hot n b) = x86_entry b /\ last_access (finish_hot n b) = last_access b.
Proof.
  intros Hn Hb. unfold finish_hot. destruct (Z.ltb_spec 0 n); destruct (HOT_BLOCK_AGGRESSIVE <=? _);
    rewrite ?(retranslated_flag HOT_FLAG_AGGRESSIVE), ?retranslated_set, ?Hb by done; done.
Qed.

Section Hits.
Context (mem : Z -> Z) (allocated : nat -> bool) (garbage : nat -> Z -> Z).

Definition is_hot (b : HotBlock) : bool := (HOT_BLOCK_THRESHOLD <=? hit_count b) && negb (retranslated b).

(** The block a hit leaves, from the block [b] it is counted for. *)
Definition hit_block (b : HotBlock) : option (Z * HotBlock) :=
  if is_hot b then
    '(n, bo) ← hotblock_apply_optimizations mem allocated garbage (Some (set_flag HOT_FLAG_MARKED b));
    bo ← bo; Some (n, finish_hot n bo)
  else Some (0, b).

Lemma hotblock_record_hit_eq m pc entry now : hot_ok m -> entry <> 0 ->
  let i := hot_slot m pc in
  let b := touch now (slot_block m pc entry) in
  hotblock_record_hit mem allocated garbage (Some m) pc entry now =
    ('(n, b') ← hit_block b;
     Some (s32 (hit_count b), Some (put_hot i b' (Nat.max (count m) (S i))
       (if 0 <? n then u32 (total_retranslations m + 1) else total_retranslations m) m))).
Proof.
  intros Hm He i b. unfold hotblock_record_hit. rewrite (proj2 (Z.eqb_neq entry 0)) by done.
  pose proof (hot_slot_lt m pc Hm) as Hi. fold i in Hi. rewrite <- (hot_length m Hm) in Hi.
  assert (E : exists m1, match hotblock_lookup (Some m) pc with Some i => (i, m) | None => make_block pc entry m end = (i, m1) /\
    hot_at m1 i = slot_block m pc entry /\ length (blocks m1) = length (blocks m) /\
    forall b t, put_hot i b (count m1) t m1 = put_hot i b (Nat.max (count m) (S i)) t m /\ total_retranslations m1 = total_retranslations m).
  { unfold i, hot_slot, slot_block in *. pose proof (hot_count m Hm) as Hc.
    destruct (hotblock_lookup (Some m) pc) as [k|] eqn:El.
    - exists m. apply hot_lookup_some in El as [Hk _]; [|done]. split_and!; try done. intros b' t. split; [|done].
      by rewrite Nat.max_l by lia.
    - unfold make_block. destruct (Nat.leb_spec HOT_BLOCK_MAX (count m)) as [Hx|Hx].
      + eexists. split; [done|]. split_and!; [|cbn; by rewrite length_insert|].
        * unfold hot_at at 1. cbn [blocks]. by rewrite nth_insert, decide_True by done.
        * intros b' t. split; [|done]. unfold put_hot. cbn. rewrite list_insert_insert_eq. f_equal.
          unfold HOT_BLOCK_MAX in *. rewrite (hot_length m Hm) in Hi. unfold HOT_BLOCK_MAX in Hi. lia.
      + eexists. split; [done|]. split_and!; [|cbn; by rewrite length_alter|].
        * unfold hot_at at 1. cbn [blocks]. rewrite nth_alter, decide_True by done.
          fold (hot_at m (count m)). by rewrite (hot_unused m Hm).
        * intros b' t. split; [|done]. unfold put_hot. cbn. f_equal; [|lia].
          rewrite (alter_nth zero_hot) by done. by rewrite list_insert_insert_eq. }
  destruct E as (m1 & -> & Hat & Hl & Hput). rewrite Hat. fold b. cbv zeta.
  change (hotblock_should_retranslate (Some b) && negb (c_true (flags b &&& HOT_FLAG_RETRANSLATED))) with (is_hot b).
  unfold hit_block. destruct (is_hot b) eqn:Eh.
  2:{ cbn [mbind option_bind]. do 3 f_equal. destruct (Hput b (total_retranslations m)) as [Hp ->]. exact Hp. }
  set (m2 := {| blocks := _ |}). unfold hotblock_retranslate.
  assert (Hm2 : hot_at m2 i = set_flag HOT_FLAG_MARKED b)
    by (unfold hot_at, m2; cbn [blocks]; rewrite nth_insert, decide_True by (done || lia); done).
  rewrite Hm2. unfold retranslated in *. cbv zeta.
  assert (Hf : c_true (flags (set_flag HOT_FLAG_MARKED b) &&& HOT_FLAG_RETRANSLATED) = false).
  { apply andb_true_iff in Eh as [_ Eh%negb_true_iff]. rewrite <- Eh. by apply (retranslated_flag HOT_FLAG_MARKED b). }
  rewrite Hf.
  destruct (hotblock_apply_optimizations _ _ _ _) as [[n [bo|]]|]; cbn [mbind option_bind]; [|done..].
  destruct (Hput (finish_hot n bo) (if 0 <? n then u32 (total_retranslations m + 1) else total_retranslations m)) as [Hp Ht].
  rewrite <- Hp. unfold put_hot, m2. cbn [blocks count total_retranslations].
  rewrite Ht, list_insert_insert_eq. reflexivity.
Qed.

Lemma hit_block_spec b : exists n b', hit_block b = Some (n, b') /\
  arm_pc b' = arm_pc b /\ x86_entry b' = x86_entry b /\ hit_count b' = hit_count b /\ last_access b' = last_access b /\
  (is_hot b = false -> n = 0 /\ b' = b) /\
  (is_hot b = true -> retranslated b' = (0 <? n) /\
     exists bo, hotblock_apply_optimizations mem allocated garbage (Some (set_flag HOT_FLAG_MARKED b)) = Some (n, Some bo) /\
       x86_optimized b' = x86_optimized bo).
Proof.
  unfold hit_block. destruct (is_hot b) eqn:Eh; [|exists 0, b; by split_and!].
  destruct (apply_optimizations_total mem allocated garbage (set_flag HOT_FLAG_MARKED b)) as (n & bo & E & Hn & H0 & H1).
  rewrite E. cbn [mbind option_bind]. exists n, (finish_hot n bo). split; [done|].
  assert (Hr : retranslated (set_flag HOT_FLAG_MARKED b) = false).
  { rewrite retranslated_flag by done. by apply andb_true_iff in Eh as [_ Eh%negb_true_iff]. }
  assert (Hbo : flags bo = flags (set_flag HOT_FLAG_MARKED b) /\ arm_pc bo = arm_pc b /\ x86_entry bo = x86_entry b /\
    hit_count bo = hit_count b /\ last_access bo = last_access b).
  { destruct (decide (n = 0)) as [Hz|Hz]; [by rewrite (H0 Hz)|]. specialize (H1 ltac:(lia)).
    destruct (allocated 5%nat); [destruct H1 as (bs & -> & _)|]; by subst. }
  destruct Hbo as (Hfl & Ha & Hx & Hh & Hla).
  destruct (finish_hot_spec n bo Hn) as (F1 & F2 & F3 & F4 & F5 & F6); [unfold retranslated in *; by rewrite Hfl|].
  split_and!; try congruence; try done. intros _. split; [done|]. by exists bo.
Qed.

(** C5: what a hit does.  Every block of the manager has its own address.  A hit for an address finds its
    block, or makes one with no hits: at the end of the array while there is room, then in
    place of the block that was accessed longest ago.  The hits of that block go up by one,
    the time is recorded, and no other block changes.  From the hundredth hit on the
    code is optimised, until that has changed something once; otherwise the optimised
    code stays as it is.  The result is the number of hits. *)
Theorem hotblock_record_hit_correct m pc entry now :
  hot_ok m -> entry <> 0 ->
  let i := hot_slot m pc in
  let old := slot_block m pc entry in
  exists m' b, hotblock_record_hit mem allocated garbage (Some m) pc entry now = Some (s32 (hit_count b), Some m') /\
  hot_ok m' /\ hotblock_lookup (Some m') pc = Some i /\ hot_at m' i = b /\
  hit_count b = u32 (hit_count old + 1) /\ last_access b = u64 now /\ x86_entry b = x86_entry old /\
  (forall j, j <> i -> hot_at m' j = hot_at m j) /\
  (hotblock_lookup (Some m) pc = None ->
     if (count m <? HOT_BLOCK_MAX)%nat then i = count m /\ count m' = S (count m)
     else count m' = count m /\ (forall j, (j < count m)%nat -> last_access (hot_at m i) <= last_access (hot_at m j)) /\
          (forall j, (j < i)%nat -> last_access (hot_at m i) < last_access (hot_at m j))) /\
  (hit_count b < HOT_BLOCK_THRESHOLD \/ retranslated old = true ->
     x86_optimized b = x86_optimized old /\ retranslated b = retranslated old /\
     total_retranslations m' = total_retranslations m) /\
  (HOT_BLOCK_THRESHOLD <= hit_count b -> retranslated old = false -> exists n bo,
     hotblock_apply_optimizations mem allocated garbage (Some (set_flag HOT_FLAG_MARKED (touch now old))) = Some (n, Some bo) /\
     x86_optimized b = x86_optimized bo /\ retranslated b = (0 <? n)).
Proof.
  intros Hm He i old. rewrite hotblock_record_hit_eq by done. fold i old.
  destruct (hit_block_spec (touch now old)) as (n & b & E & Ha & Hx & Hh & Hla & Hcold & Hhot). rewrite E.
  cbn [mbind option_bind]. set (t := if 0 <? n then _ else _). eexists _, b. rewrite Hh. split; [done|].
  assert (Hpc : arm_pc b = pc).
  { rewrite Ha. cbn [arm_pc touch]. unfold old, slot_block. destruct (hotblock_lookup (Some m) pc) eqn:El; [|done].
    by apply hot_lookup_some in El as [_ ?]. }
  destruct (hot_ok_put m pc b t Hm Hpc) as [Hok Hlook]. fold i in Hok, Hlook.
  pose proof (hot_slot_lt m pc Hm) as Hi. rewrite <- (hot_length m Hm) in Hi. fold i in Hi.
  split; [done|]. split; [done|]. split; [by rewrite hot_at_put, decide_True|].
  split; [done|]. split; [done|]. split; [done|]. split; [intros j Hj; by rewrite hot_at_put, decide_False|].
  assert (Hret : retranslated (touch now old) = retranslated old) by done. split; [|split].
  - intros El. cbn [count put_hot]. unfold i, hot_slot in *. rewrite El in *. pose proof (hot_count m Hm).
    destruct (Nat.leb_spec HOT_BLOCK_MAX (count m)) as [Hc|Hc].
    + rewrite (proj2 (Nat.ltb_ge _ _)) by done.
      destruct (first_least_all (fun i => last_access (hot_at m i)) (count m)) as (H1 & H2 & H3);
        [unfold HOT_BLOCK_MAX in *; lia|].
      change (first_least _ _ _ _) with (oldest m) in H1, H2, H3. split; [lia | done].
    + rewrite (proj2 (Nat.ltb_lt _ _)) by done. lia.
  - intros Hcond. destruct Hcold as [-> ->]; [|done]. unfold is_hot. rewrite Hret.
    destruct Hcond as [Hlt|Ho]; [|by rewrite Ho, andb_false_r]. by rewrite (proj2 (Z.leb_gt _ _)).
  - intros Hge Hr. destruct Hhot as (Hr' & bo & Ebo & Hopt).
    + unfold is_hot. by rewrite Hret, Hr, (proj2 (Z.leb_le _ _)).
    + by exists n, bo.
Qed.
End Hits.

(** The state the manager starts in. *)
Lemma empty_manager_ok : hot_ok empty_manager.
Proof.
  split; [apply length_replicate | apply Nat.le_0_l | intros i j Hi; inversion Hi|].
  intros i _. unfold hot_at. rewrite nth_lookup.
  destruct (blocks empty_manager !! i) eqn:E; [|done]. by apply lookup_replicate in E as [-> _].
Qed.

(** ** Concrete runs *)

Lemma dead_code_elimination_bytes_witness :
  optimize_dead_code_elimination (buffer (fun _ => 0) [0xb8; 0x90; 0; 0; 0]) 5 6 = Some ([0xb8; 0; 0; 0], 1).
Proof.
  destruct (dead_code_elimination_bytes (buffer (fun _ => 0) [0xb8; 0x90; 0; 0; 0]) 5) as [H _].
  - intros i. unfold buffer. destruct (_ && _); [|lia].
    destruct (Z.to_nat i) as [|[|[|[|[|k]]]]]; cbn; try lia. destruct k; lia.
  - lia.
  - change 6%nat with (S (Z.to_nat 5)). rewrite H; [reflexivity|]. intros i Hi.
    assert (Hc : i = 0 \/ i = 1 \/ i = 2 \/ i = 3 \/ i = 4) by lia. destruct_or! Hc; subst; discriminate.
Defined.

Lemma constant_propagation_wrong_witness :
  propagate (fun _ => 0) ((mov_bytes 0 5 ++ mov_bytes 1 7) ++ [0x48; 0x01; 0xc1])
  = Some ((mov_bytes 0 5 ++ mov_bytes 1 7) ++ mov_bytes 0 12, 3).
Proof.
  destruct (constant_propagation_wrong (fun _ => 0) 0 1 2 5 7 {| regs := fun _ => 0; memory := fun _ => 0 |})
    as ((H & _) & _); [lia.. | exact H].
Defined.

Lemma unrolling_effect_witness :
  unroll_step (buffer (fun _ => 0) [0xb9; 3; 0; 0; 0; 0xf8; 0xe2; 0xfd; 0; 0; 0; 0]) 12 pass_start
  = tick (put [0xf8; 0xf8; 0xf8] 8 pass_start).
Proof.
  destruct (unrolling_effect (buffer (fun _ => 0) [0xb9; 3; 0; 0; 0; 0xf8; 0xe2; 0xfd; 0; 0; 0; 0]) 12 pass_start [0xf8] 3 0xfd)
    as (H & _).
  - intros Hin. apply list_elem_of_singleton in Hin. discriminate Hin.
  - cbn. lia.
  - lia.
  - apply H; [lia | reflexivity | cbn; lia | reflexivity | lia | cbn; lia].
Defined.

Lemma hotblock_record_hit_correct_witness : exists m',
  hotblock_record_hit (fun _ => 0) (fun _ => true) (fun _ _ => 0)
    (Some empty_manager) 0x8000 4096 7
  = Some (1, Some m') /\ hotblock_lookup (Some m') 0x8000 = Some 0%nat.
Proof.
  destruct (hotblock_record_hit_correct (fun _ => 0) (fun _ => true) (fun _ _ => 0) empty_manager 0x8000 4096 7)
    as (m' & b & E & _ & Hl & _ & Hh & _).
  - exact empty_manager_ok.
  - discriminate.
  - exists m'. rewrite Hh in E. exact (conj E Hl).
Defined.
