(* ===== verification/PCache.v ===== *)
(** * The persistent translation cache: [modules/arm2x86_pcache.c]

    One file per translated block, in one directory: a header of 96 bytes (the C
    structure as it lies in memory, little endian and without padding) followed by the
    code.  The directory is a finite map from file names to contents; the clock, the
    order in which [readdir] returns the names, the failures of the operating system
    and of the allocator are parameters.  The index list of the structure, the
    hit rate (a [double]), the statistics callback and the printing are left out:
    no operation reads them.  The path of the directory is assumed to fit in
    [PATH_MAX], so that file names are not cut. *)
From S2P Require Import Prelude.
From Stdlib Require Import ZArith Lia Bool String Ascii Sorting.Sorted.
From stdpp Require Import base numbers list gmap strings.
Open Scope Z_scope.
Open Scope c_scope.

(** ** Constants ([include/arm2x86_pcache.h]) *)

Definition ARM2X86_PCACHE_VERSION_MAJOR := 1.
Definition ARM2X86_PCACHE_VERSION_MINOR := 0.
Definition ARM2X86_PCACHE_VERSION_PATCH := 0.
Definition ARM2X86_PCACHE_VERSION :=
  (ARM2X86_PCACHE_VERSION_MAJOR <<< 24) ||| (ARM2X86_PCACHE_VERSION_MINOR <<< 16)
  ||| ARM2X86_PCACHE_VERSION_PATCH.
Definition ARM2X86_PCACHE_MAGIC := 0x5854504A.

Definition ARM2X86_PCACHE_OK := 0.
Definition ARM2X86_PCACHE_ERROR_INVALID_ARG := -1.
Definition ARM2X86_PCACHE_ERROR_NO_MEMORY := -2.
Definition ARM2X86_PCACHE_ERROR_IO := -3.
Definition ARM2X86_PCACHE_ERROR_CORRUPT := -4.
Definition ARM2X86_PCACHE_ERROR_VERSION_MISMATCH := -5.
Definition ARM2X86_PCACHE_ERROR_HASH_MISMATCH := -6.
Definition ARM2X86_PCACHE_ERROR_NOT_FOUND := -7.
Definition ARM2X86_PCACHE_ERROR_ALREADY_EXISTS := -8.
Definition ARM2X86_PCACHE_ERROR_FULL := -9.

(** ** The hash *)

Definition crc_bit (crc : Z) : Z := (crc >>> 1) ^^^ (if c_true (crc &&& 1) then 0xEDB88320 else 0).

(** The table as [init_crc32_table] fills it. *)
Definition crc32_table : list Z := map (Nat.iter 8 crc_bit) (seqZ 0 256).

Definition crc_step (crc byte : Z) : Z :=
  nth (Z.to_nat ((crc ^^^ byte) &&& 0xFF)) crc32_table 0 ^^^ (crc >>> 8).

Definition arm2x86_pcache_compute_hash (data : list Z) : Z :=
  u32 (Z.lnot (fold_left crc_step data 0xFFFFFFFF)).

(** ** The entry header *)

Record entry_header := {
  h_magic : Z; h_version : Z; h_arm_addr : Z; h_arm_code_hash : Z; h_x86_code_hash : Z;
  h_arm_code_size : Z; h_x86_code_size : Z; h_compressed_size : Z; h_timestamp : Z;
  h_access_count : Z; h_last_access_time : Z; h_flags : Z; h_architecture : Z; h_compression : Z;
  h_reserved : Z; h_checksum : Z }.

(** The bytes of the structure before the checksum ([reserved] is one 14-byte field). *)
Definition header_prefix (h : entry_header) : list Z :=
  le_bytes 4 (h_magic h) ++ le_bytes 4 (h_version h) ++ le_bytes 8 (h_arm_addr h) ++
  le_bytes 4 (h_arm_code_hash h) ++ le_bytes 4 (h_x86_code_hash h) ++
  le_bytes 8 (h_arm_code_size h) ++ le_bytes 8 (h_x86_code_size h) ++
  le_bytes 8 (h_compressed_size h) ++ le_bytes 8 (h_timestamp h) ++
  le_bytes 8 (h_access_count h) ++ le_bytes 8 (h_last_access_time h) ++
  le_bytes 4 (h_flags h) ++ le_bytes 1 (h_architecture h) ++ le_bytes 1 (h_compression h) ++
  le_bytes 14 (h_reserved h).
Definition header_bytes (h : entry_header) : list Z := header_prefix h ++ le_bytes 4 (h_checksum h).

Definition HEADER_SIZE := 96.

(** [fread(&header, sizeof(header), 1, fp)], and the rest of the file. *)
Definition read_header (bs : list Z) : option (entry_header * list Z) :=
  '(magic, bs) ← take_le 4 bs;
  '(version, bs) ← take_le 4 bs;
  '(arm_addr, bs) ← take_le 8 bs;
  '(arm_code_hash, bs) ← take_le 4 bs;
  '(x86_code_hash, bs) ← take_le 4 bs;
  '(arm_code_size, bs) ← take_le 8 bs;
  '(x86_code_size, bs) ← take_le 8 bs;
  '(compressed_size, bs) ← take_le 8 bs;
  '(timestamp, bs) ← take_le 8 bs;
  '(access_count, bs) ← take_le 8 bs;
  '(last_access_time, bs) ← take_le 8 bs;
  '(flags, bs) ← take_le 4 bs;
  '(architecture, bs) ← take_le 1 bs;
  '(compression, bs) ← take_le 1 bs;
  '(reserved, bs) ← take_le 14 bs;
  '(checksum, bs) ← take_le 4 bs;
  Some (Build_entry_header magic version arm_addr arm_code_hash x86_code_hash arm_code_size
          x86_code_size compressed_size timestamp access_count last_access_time flags
          architecture compression reserved checksum, bs).

Definition compute_header_checksum (h : entry_header) : Z := arm2x86_pcache_compute_hash (header_prefix h).

Definition validate_header (h : entry_header) : Z :=
  if negb (h_magic h =? ARM2X86_PCACHE_MAGIC) then ARM2X86_PCACHE_ERROR_CORRUPT
  else if negb (h_version h =? ARM2X86_PCACHE_VERSION) then ARM2X86_PCACHE_ERROR_VERSION_MISMATCH
  else
    let checksum := compute_header_checksum h in
    if negb (checksum =? h_checksum h) then ARM2X86_PCACHE_ERROR_CORRUPT else ARM2X86_PCACHE_OK.

(** ** File names *)

Definition hex_digit (d : Z) : ascii := ascii_of_N (Z.to_N (if d <? 10 then 48 + d else 87 + d)).

(** ["%016lx.jtx"] *)
Definition hex16 (a : Z) : list ascii := map (fun k => hex_digit ((a >>> (4 * k)) &&& 0xf)) (rev (seqZ 0 16)).
Definition get_entry_filename (arm_addr : Z) : string :=
  string_of_list_ascii (hex16 arm_addr ++ list_ascii_of_string ".jtx").
Definition tmp_filename (arm_addr : Z) : string := String.append ".tmp." (get_entry_filename arm_addr).

(** [strstr(s, p) != NULL] *)
Fixpoint strstr (s p : string) : bool :=
  String.prefix p s || match s with EmptyString => false | String _ s => strstr s p end.

(** The names the directory scans accept. *)
Definition is_entry_name (name : string) : bool :=
  negb (String.prefix "." name) && strstr name ".jtx".

(** ** The cache *)

Record file := { contents : list Z; atime : Z }.
Definition st_size (f : file) : Z := Z.of_nat (length (contents f)).

Record pcache_config := {
  max_size_bytes : Z; max_entries : Z; max_entry_size : Z; enabled : bool; verify_hash : bool;
  compress : bool; auto_cleanup : bool; sync_interval : Z; load_on_startup : bool }.

Record persistent_cache := {
  config : pcache_config; dir : gmap string file; total_size : Z; total_entries : Z;
  hits : Z; misses : Z; stores : Z; evictions : Z; last_cleanup_time : Z; last_sync : Z }.

Definition set_dir (d : gmap string file) (c : persistent_cache) :=
  Build_persistent_cache (config c) d (total_size c) (total_entries c) (hits c) (misses c) (stores c)
    (evictions c) (last_cleanup_time c) (last_sync c).
Definition set_totals (size entries : Z) (c : persistent_cache) :=
  Build_persistent_cache (config c) (dir c) size entries (hits c) (misses c) (stores c)
    (evictions c) (last_cleanup_time c) (last_sync c).
Definition count_hit (c : persistent_cache) :=
  Build_persistent_cache (config c) (dir c) (total_size c) (total_entries c) (u64 (hits c + 1)) (misses c)
    (stores c) (evictions c) (last_cleanup_time c) (last_sync c).
Definition count_miss (c : persistent_cache) :=
  Build_persistent_cache (config c) (dir c) (total_size c) (total_entries c) (hits c) (u64 (misses c + 1))
    (stores c) (evictions c) (last_cleanup_time c) (last_sync c).
Definition count_store (c : persistent_cache) :=
  Build_persistent_cache (config c) (dir c) (total_size c) (total_entries c) (hits c) (misses c)
    (u64 (stores c + 1)) (evictions c) (last_cleanup_time c) (last_sync c).
Definition set_evictions (n : Z) (c : persistent_cache) :=
  Build_persistent_cache (config c) (dir c) (total_size c) (total_entries c) (hits c) (misses c)
    (stores c) n (last_cleanup_time c) (last_sync c).
Definition set_cleanup_time (t : Z) (c : persistent_cache) :=
  Build_persistent_cache (config c) (dir c) (total_size c) (total_entries c) (hits c) (misses c)
    (stores c) (evictions c) t (last_sync c).
Definition set_last_sync (t : Z) (c : persistent_cache) :=
  Build_persistent_cache (config c) (dir c) (total_size c) (total_entries c) (hits c) (misses c)
    (stores c) (evictions c) (last_cleanup_time c) t.

Definition arm2x86_pcache_config_init : pcache_config :=
  {| max_size_bytes := 500 * 1024 * 1024; max_entries := 10000; max_entry_size := 10 * 1024 * 1024;
     enabled := true; verify_hash := true; compress := false; auto_cleanup := true;
     sync_interval := 300; load_on_startup := true |}.

(** ** Lookup *)

(** [malloc_ok]: whether an allocation of that many bytes succeeds.  Null pointers
    are [None].  The result: the code returned, [*x86_code] and the cache. *)
Definition arm2x86_pcache_lookup (malloc_ok : Z -> bool) (now : Z) (cache : option persistent_cache)
    (arm_addr : Z) (arm_code : option (list Z)) (outputs : bool) (flags : Z)
    : Z * option (list Z) * option persistent_cache :=
  match cache, arm_code, outputs with
  | Some c, Some arm_code, true =>
    if negb (enabled (config c)) then (ARM2X86_PCACHE_ERROR_NOT_FOUND, None, Some c)
    else
      let filepath := get_entry_filename arm_addr in
      match dir c !! filepath with
      | None => (ARM2X86_PCACHE_ERROR_NOT_FOUND, None, Some (count_miss c))
      | Some f =>
        match read_header (contents f) with
        | None => (ARM2X86_PCACHE_ERROR_CORRUPT, None, Some (count_miss c))
        | Some (header, rest) =>
          let ret := validate_header header in
          if negb (ret =? ARM2X86_PCACHE_OK) then (ret, None, Some (count_miss c))
          else if verify_hash (config c)
                  && negb (arm2x86_pcache_compute_hash arm_code =? h_arm_code_hash header) then
            (ARM2X86_PCACHE_ERROR_HASH_MISMATCH, None,
             Some (set_dir (delete filepath (dir c)) (count_miss c)))
          else if negb (h_flags header =? flags) then
            (ARM2X86_PCACHE_ERROR_NOT_FOUND, None, Some (count_miss c))
          else if negb (malloc_ok (h_x86_code_size header)) then
            (ARM2X86_PCACHE_ERROR_NO_MEMORY, None, Some c)
          else if Z.of_nat (length rest) <? h_x86_code_size header then
            (ARM2X86_PCACHE_ERROR_CORRUPT, None, Some c)
          else
            let c := set_dir (<[filepath := {| contents := contents f; atime := now |}]> (dir c)) c in
            (ARM2X86_PCACHE_OK, Some (take (Z.to_nat (h_x86_code_size header)) rest), Some (count_hit c))
        end
      end
  | _, _, _ => (ARM2X86_PCACHE_ERROR_INVALID_ARG, None, cache)
  end.

(** ** Cleanup *)

(** The directory scan's entries: name, access time and size. *)
Record entry_info := { path : string; e_atime : Z; e_size : Z }.

(** The inner loop of the exchange sort: the element at [i] against those behind it. *)
Fixpoint exchange (x : entry_info) (l : list entry_info) : entry_info * list entry_info :=
  match l with
  | [] => (x, [])
  | y :: l =>
    if e_atime y <? e_atime x then let '(m, l) := exchange y l in (m, x :: l)
    else let '(m, l) := exchange x l in (m, y :: l)
  end.

(** The outer loop, over the rest of the array. *)
Fixpoint exchange_sort (n : nat) (l : list entry_info) : list entry_info :=
  match n, l with
  | S n, x :: l => let '(m, l) := exchange x l in m :: exchange_sort n l
  | _, _ => l
  end.

(** The removal loop; [unlink_ok]: whether [unlink] succeeds. *)
Fixpoint remove_oldest (unlink_ok : string -> bool) (l : list entry_info) (d : gmap string file)
    (current_size target_size removed : Z) : gmap string file * Z * Z :=
  match l with
  | [] => (d, current_size, removed)
  | e :: l =>
    if target_size <? current_size then
      if unlink_ok (path e) then
        remove_oldest unlink_ok l (delete (path e) d) (u64 (current_size - e_size e)) target_size (removed + 1)
      else remove_oldest unlink_ok l d current_size target_size removed
    else (d, current_size, removed)
  end.

(** What the operating system contributes. *)
Record system := {
  readdir : gmap string file -> list (string * file);
  opendir_ok : bool; malloc_entries_ok : bool; unlink_ok : string -> bool; now : Z }.

Definition scan_entries (sys : system) (d : gmap string file) : list entry_info :=
  map (fun nf => {| path := nf.1; e_atime := atime nf.2; e_size := st_size nf.2 |})
      (List.filter (fun nf => is_entry_name nf.1) (readdir sys d)).

(** The entries the allocated array has room for. *)
Definition array_capacity (sys : system) : nat := if malloc_entries_ok sys then 1000 else 0.

(** No result when an entry is written behind the end of the array. *)
Definition arm2x86_pcache_cleanup (sys : system) (cache : option persistent_cache) (target_size : Z)
    : option (Z * option persistent_cache) :=
  match cache with
  | None => Some (ARM2X86_PCACHE_ERROR_INVALID_ARG, None)
  | Some c =>
    let target_size := if target_size =? 0 then max_size_bytes (config c) / 2 else target_size in
    if total_size c <=? target_size then Some (0, Some c)
    else if negb (opendir_ok sys) then Some (ARM2X86_PCACHE_ERROR_IO, Some c)
    else
      let entries := scan_entries sys (dir c) in
      if (array_capacity sys <? length entries)%nat then None
      else
        let entries := exchange_sort (length entries) entries in
        let '(d, current_size, removed) :=
          remove_oldest (unlink_ok sys) entries (dir c) (total_size c) target_size 0 in
        Some (removed,
              Some (set_cleanup_time (now sys) (set_evictions (u64 (evictions c + removed))
                      (set_totals current_size (u64 (total_entries c - removed)) (set_dir d c)))))
  end.

(** ** Storing *)

(** Where the writing of the temporary file fails, if it does. *)
Inductive io_result := IoOk | OpenFails | WriteFails | RenameFails.

Definition new_header (now arm_addr : Z) (arm_code x86_code : list Z) (flags checksum : Z) : entry_header :=
  {| h_magic := ARM2X86_PCACHE_MAGIC; h_version := ARM2X86_PCACHE_VERSION; h_arm_addr := arm_addr;
     h_arm_code_hash := arm2x86_pcache_compute_hash arm_code;
     h_x86_code_hash := arm2x86_pcache_compute_hash x86_code;
     h_arm_code_size := Z.of_nat (length arm_code); h_x86_code_size := Z.of_nat (length x86_code);
     h_compressed_size := 0; h_timestamp := now; h_access_count := 1; h_last_access_time := now;
     h_flags := flags; h_architecture := 64; h_compression := 0; h_reserved := 0; h_checksum := checksum |}.

(** The bytes written for a block. *)
Definition entry_bytes (now arm_addr : Z) (arm_code x86_code : list Z) (flags : Z) : list Z :=
  let header := new_header now arm_addr arm_code x86_code flags 0 in
  header_bytes (new_header now arm_addr arm_code x86_code flags (compute_header_checksum header)) ++ x86_code.

(** From the building of the file name on: the temporary file is gone afterwards,
    renamed or unlinked. *)
Definition write_entry (io : io_result) (now : Z) (c : persistent_cache) (arm_addr : Z)
    (arm_code x86_code : list Z) (flags : Z) : Z * persistent_cache :=
  let filepath := get_entry_filename arm_addr in
  match dir c !! filepath with
  | Some _ => (ARM2X86_PCACHE_ERROR_ALREADY_EXISTS, c)
  | None =>
    match io with
    | OpenFails => (ARM2X86_PCACHE_ERROR_IO, c)
    | WriteFails | RenameFails =>
      (ARM2X86_PCACHE_ERROR_IO, set_dir (delete (tmp_filename arm_addr) (dir c)) c)
    | IoOk =>
      let f := {| contents := entry_bytes now arm_addr arm_code x86_code flags; atime := now |} in
      let c := set_dir (<[filepath := f]> (delete (tmp_filename arm_addr) (dir c))) c in
      let c := set_totals (u64 (total_size c + (HEADER_SIZE + Z.of_nat (length x86_code))))
                 (u64 (total_entries c + 1)) c in
      (ARM2X86_PCACHE_OK, count_store c)
    end
  end.

(** No result when the cleanup it starts has none. *)
Definition arm2x86_pcache_store (sys : system) (io : io_result) (cache : option persistent_cache)
    (arm_addr : Z) (arm_code x86_code : option (list Z)) (flags : Z) : option (Z * option persistent_cache) :=
  match cache, arm_code, x86_code with
  | Some c, Some arm_code, Some x86_code =>
    let x86_size := Z.of_nat (length x86_code) in
    let write c := let '(rc, c) := write_entry io (now sys) c arm_addr arm_code x86_code flags in
                   Some (rc, Some c) in
    if negb (enabled (config c)) then Some (ARM2X86_PCACHE_OK, Some c)
    else if max_entry_size (config c) <? x86_size then Some (ARM2X86_PCACHE_ERROR_INVALID_ARG, Some c)
    else if max_size_bytes (config c) <? u64 (total_size c + x86_size) then
      if auto_cleanup (config c) then
        match arm2x86_pcache_cleanup sys (Some c) (max_size_bytes (config c) / 2) with
        | None => None
        | Some (_, c') => write (default c c')
        end
      else Some (ARM2X86_PCACHE_ERROR_FULL, Some c)
    else write c
  | _, _, _ => Some (ARM2X86_PCACHE_ERROR_INVALID_ARG, cache)
  end.

(** ** Maintenance *)

Definition arm2x86_pcache_sync (now : Z) (cache : option persistent_cache) : Z * option persistent_cache :=
  match cache with
  | None => (ARM2X86_PCACHE_ERROR_INVALID_ARG, None)
  | Some c => (ARM2X86_PCACHE_OK, Some (set_last_sync now c))
  end.

Definition arm2x86_pcache_rebuild_index (sys : system) (cache : option persistent_cache)
    : Z * option persistent_cache :=
  match cache with
  | None => (ARM2X86_PCACHE_ERROR_INVALID_ARG, None)
  | Some c =>
    if negb (opendir_ok sys) then (ARM2X86_PCACHE_ERROR_IO, Some c)
    else
      (ARM2X86_PCACHE_OK,
       Some (fold_left (fun c e => set_totals (u64 (total_size c + e_size e)) (u64 (total_entries c + 1)) c)
               (scan_entries sys (dir c)) c))
  end.

Definition arm2x86_pcache_invalidate (sys : system) (cache : option persistent_cache) (arm_addr : Z)
    : Z * option persistent_cache :=
  match cache with
  | None => (ARM2X86_PCACHE_ERROR_INVALID_ARG, None)
  | Some c =>
    let filepath := get_entry_filename arm_addr in
    match dir c !! filepath with
    | None => (ARM2X86_PCACHE_ERROR_NOT_FOUND, Some c)
    | Some f =>
      let c := set_totals (u64 (total_size c - st_size f)) (u64 (total_entries c - 1)) c in
      if unlink_ok sys filepath then (ARM2X86_PCACHE_OK, Some (set_dir (delete filepath (dir c)) c))
      else (ARM2X86_PCACHE_ERROR_NOT_FOUND, Some c)
    end
  end.

Definition arm2x86_pcache_invalidate_all (sys : system) (cache : option persistent_cache)
    : Z * option persistent_cache :=
  match cache with
  | None => (ARM2X86_PCACHE_ERROR_INVALID_ARG, None)
  | Some c =>
    if negb (opendir_ok sys) then (ARM2X86_PCACHE_ERROR_IO, Some c)
    else
      let remove d nf := if negb (String.prefix "." nf.1) && unlink_ok sys nf.1 then delete nf.1 d else d in
      let c := set_totals 0 0 (set_dir (fold_left remove (readdir sys (dir c)) (dir c)) c) in
      (ARM2X86_PCACHE_OK, Some (set_evictions (u64 (evictions c + total_entries c)) c))
  end.

(** A new cache over the directory [d]; the paths and the creation of the
    directories are the caller's. *)
Definition arm2x86_pcache_create (sys : system) (cfg : option pcache_config) (d : gmap string file)
    : option persistent_cache :=
  let c := Build_persistent_cache (default arm2x86_pcache_config_init cfg) d 0 0 0 0 0 0 0 0 in
  let c := if load_on_startup (config c)
           then default c (arm2x86_pcache_rebuild_index sys (Some c)).2 else c in
  let c := if auto_cleanup (config c)
           then match arm2x86_pcache_cleanup sys (Some c) (max_size_bytes (config c) / 2) with
                | Some (_, c') => Some (default c c') | None => None end
           else Some c in
  match c with Some c => Some (set_last_sync (now sys) c) | None => None end.

(** ** The hash is the CRC-32 of the data, one bit at a time *)

Lemma land_byte x : 0 <= x &&& 0xFF < 256.
Proof. pose proof (land_range x 0xFF ltac:(lia)). lia. Qed.

(** The reference: each byte is added to the register, which is then shifted out
    bit by bit through the polynomial. *)
Definition crc_byte (crc byte : Z) : Z := Nat.iter 8 crc_bit (crc ^^^ byte).
Definition crc32_ref (data : list Z) : Z := u32 (Z.lnot (fold_left crc_byte data 0xFFFFFFFF)).

Lemma c_true_land1 x : c_true (x &&& 1) = Z.testbit x 0.
Proof. rewrite land_1, Z.bit0_odd. unfold c_true. rewrite Zmod_odd. by destruct (Z.odd x). Qed.

Lemma crc_bit_lxor x y : crc_bit (x ^^^ y) = crc_bit x ^^^ crc_bit y.
Proof.
  unfold crc_bit. rewrite !c_true_land1, Z.lxor_spec, Z.shiftr_lxor.
  destruct (Z.testbit x 0), (Z.testbit y 0); cbn [xorb]; rewrite ?Z.lxor_0_r;
    apply Z.bits_inj'; intros n Hn; rewrite ?Z.lxor_spec;
    destruct (Z.testbit (x >>> 1) n), (Z.testbit (y >>> 1) n), (Z.testbit 0xEDB88320 n); reflexivity.
Qed.

Lemma crc_bits_lxor n x y : Nat.iter n crc_bit (x ^^^ y) = Nat.iter n crc_bit x ^^^ Nat.iter n crc_bit y.
Proof. induction n as [|n IH]; [done|]. cbn [Nat.iter nat_rect]. unfold Nat.iter in IH. by rewrite IH, crc_bit_lxor. Qed.

(** Bits that are not shifted out are not mixed. *)
Lemma crc_bits_shift n x : Nat.iter n crc_bit (x <<< Z.of_nat n) = x.
Proof.
  induction n as [|n IH]; [by rewrite Z.shiftl_0_r|]. rewrite Nat.iter_succ_r. 
  assert (E : crc_bit (x <<< Z.of_nat (S n)) = x <<< Z.of_nat n).
  { unfold crc_bit. rewrite c_true_land1, Z.shiftl_spec_low, Z.lxor_0_r by lia.
    rewrite Z.shiftr_shiftl_l by lia. f_equal. lia. }
  by rewrite E.
Qed.

Lemma crc_table_spec i : 0 <= i < 256 -> nth (Z.to_nat i) crc32_table 0 = Nat.iter 8 crc_bit i.
Proof.
  intros Hi. apply Z.eqb_eq.
  apply (all_below_spec 256 (fun i => nth (Z.to_nat i) crc32_table 0 =? Nat.iter 8 crc_bit i)); [vm_compute; reflexivity|lia].
Qed.

Lemma split_low_byte x : x = (x &&& 0xFF) ^^^ ((x >>> 8) <<< 8).
Proof.
  apply Z.bits_inj'. intros n Hn. rewrite Z.lxor_spec, Z.land_spec, Z.shiftl_spec by lia.
  change 0xFF with (Z.ones 8). destruct (Z.lt_ge_cases n 8).
  - rewrite Z.ones_spec_low, (Z.testbit_neg_r _ (n - 8)) by lia. by rewrite andb_true_r, xorb_false_r.
  - rewrite Z.ones_spec_high, Z.shiftr_spec by lia. rewrite andb_false_r, xorb_false_l. f_equal. lia.
Qed.

Lemma crc_step_bits crc byte :
  0 <= byte < 256 -> crc_step crc byte = crc_byte crc byte.
Proof.
  unfold crc_byte.
  intros Hb. transitivity (Nat.iter 8 crc_bit (((crc ^^^ byte) &&& 0xFF) ^^^ (((crc ^^^ byte) >>> 8) <<< 8)));
    [|by rewrite <- split_low_byte].
  rewrite crc_bits_lxor. pose proof (crc_bits_shift 8 ((crc ^^^ byte) >>> 8)) as E.
  change (Z.of_nat 8) with 8 in E. rewrite E.
  unfold crc_step. rewrite crc_table_spec by (apply land_byte). f_equal.
  rewrite Z.shiftr_lxor, (Z.shiftr_div_pow2 byte), (Z.div_small byte) by lia. by rewrite Z.lxor_0_r.
Qed.

Lemma fold_left_cons {A B} (f : A -> B -> A) b l a : fold_left f (b :: l) a = fold_left f l (f a b).
Proof. done. Qed.

Lemma crc_run_bits data crc :
  bytes data ->
  fold_left crc_step data crc = fold_left crc_byte data crc.
Proof.
  intros Hd. revert crc. induction Hd as [|b data Hb Hd IH]; intros crc; [done|].
  rewrite !fold_left_cons, crc_step_bits by done. apply IH.
Qed.

(** The table-driven hash of the cache is the bit-by-bit CRC-32 (polynomial
    0xEDB88320, initial value and final complement 0xFFFFFFFF) of the data. *)
Theorem compute_hash_is_crc32 data :
  bytes data -> arm2x86_pcache_compute_hash data = crc32_ref data.
Proof.
  intros Hd. unfold arm2x86_pcache_compute_hash, crc32_ref. by rewrite crc_run_bits.
Qed.
Lemma compute_hash_is_crc32_witness :
  arm2x86_pcache_compute_hash [0x31; 0x32; 0x33; 0x34; 0x35; 0x36; 0x37; 0x38; 0x39] = 0xCBF43926 /\
  crc32_ref [0x31; 0x32; 0x33; 0x34; 0x35; 0x36; 0x37; 0x38; 0x39] = 0xCBF43926.
Proof.
  rewrite (compute_hash_is_crc32 [0x31; 0x32; 0x33; 0x34; 0x35; 0x36; 0x37; 0x38; 0x39])
    by (repeat (apply Forall_cons_2; [lia|]); apply Forall_nil_2).
  split; vm_compute; reflexivity.
Defined.

(** ** The hash tells two data apart that differ in one byte *)

(** The high bytes of the table are all different. *)
Lemma crc_table_top i j :
  0 <= i < 256 -> 0 <= j < 256 ->
  nth (Z.to_nat i) crc32_table 0 >>> 24 = nth (Z.to_nat j) crc32_table 0 >>> 24 -> i = j.
Proof.
  intros Hi Hj H.
  assert (Hnd : List.NoDup (map (fun x => x >>> 24) crc32_table)).
  { apply NoDup_ListNoDup. apply (bool_decide_unpack (NoDup (map (fun x => x >>> 24) crc32_table))).
    vm_compute. exact I. }
  rewrite (List.NoDup_nth _ (0 >>> 24)) in Hnd. rewrite length_map in Hnd.
  assert (Hlen : length crc32_table = 256%nat) by (vm_compute; reflexivity). rewrite Hlen in Hnd.
  specialize (Hnd (Z.to_nat i) (Z.to_nat j)).
  rewrite !(map_nth (fun x => x >>> 24)) in Hnd. lia.
Qed.

Lemma crc_table_range i : 0 <= i < 256 -> 0 <= nth (Z.to_nat i) crc32_table 0 < 2^32.
Proof.
  intros Hi.
  assert (Hall : all_below 256 (fun i => (0 <=? nth (Z.to_nat i) crc32_table 0)
    && (nth (Z.to_nat i) crc32_table 0 <? 2^32)) = true) by (vm_compute; reflexivity).
  pose proof (all_below_spec _ _ Hall i ltac:(lia)) as H. cbv beta in H.
  apply andb_true_iff in H as [H1%Z.leb_le H2%Z.ltb_lt]. lia.
Qed.

Lemma lxor_range n x y : 0 < n -> 0 <= x < 2^n -> 0 <= y < 2^n -> 0 <= x ^^^ y < 2^n.
Proof.
  intros Hn Hx Hy. split; [apply Z.lxor_nonneg; lia|].
  destruct (Z.eq_dec (x ^^^ y) 0) as [->|H0]; [lia|].
  apply Z.log2_lt_pow2; [pose proof (proj2 (Z.lxor_nonneg x y) ltac:(lia)); lia|].
  eapply Z.le_lt_trans; [apply Z.log2_lxor; lia|]. apply Z.max_lub_lt.
  - destruct (Z.eq_dec x 0) as [->|]; [done|]. apply Z.log2_lt_pow2; lia.
  - destruct (Z.eq_dec y 0) as [->|]; [done|]. apply Z.log2_lt_pow2; lia.
Qed.

Lemma crc_step_range crc b : 0 <= crc < 2^32 -> 0 <= crc_step crc b < 2^32.
Proof.
  intros Hc. unfold crc_step. apply lxor_range; [lia|apply crc_table_range, land_byte|].
  rewrite Z.shiftr_div_pow2 by lia. split; [apply Z.div_pos; lia|]. apply Z.div_lt_upper_bound; lia.
Qed.

(** Equal results come from equal table indices and equal high parts. *)
Lemma crc_step_inv c1 c2 b1 b2 :
  0 <= c1 < 2^32 -> 0 <= c2 < 2^32 -> crc_step c1 b1 = crc_step c2 b2 ->
  (c1 ^^^ b1) &&& 0xFF = (c2 ^^^ b2) &&& 0xFF /\ c1 >>> 8 = c2 >>> 8.
Proof.
  intros H1 H2 H. unfold crc_step in H.
  assert (Hi : (c1 ^^^ b1) &&& 0xFF = (c2 ^^^ b2) &&& 0xFF).
  { apply crc_table_top; [apply land_byte..|].
    apply (f_equal (fun x => x >>> 24)) in H. rewrite !Z.shiftr_lxor, !Z.shiftr_shiftr in H by lia.
    rewrite !(Z.shiftr_div_pow2 _ (8 + 24)), !Z.div_small, !Z.lxor_0_r in H by (cbn in *; lia). exact H. }
  split; [done|]. rewrite Hi in H. apply (f_equal (Z.lxor (nth (Z.to_nat ((c2 ^^^ b2) &&& 0xFF)) crc32_table 0))) in H.
  by rewrite <- !Z.lxor_assoc, !Z.lxor_nilpotent, !Z.lxor_0_l in H.
Qed.

Lemma low_byte_lxor_r c b : 0 <= b < 256 -> (c ^^^ b) &&& 0xFF = (c &&& 0xFF) ^^^ b.
Proof.
  intros Hb. assert (E : b &&& 0xFF = b) by (rewrite land_255; apply Z.mod_small; lia).
  rewrite <- E at 2. apply Z.bits_inj'. intros n Hn. rewrite ?Z.lxor_spec, ?Z.land_spec, ?Z.lxor_spec.
  by destruct (Z.testbit c n), (Z.testbit b n), (Z.testbit 0xFF n).
Qed.

(** A step loses neither the register nor the byte. *)
Lemma crc_step_inj_reg c1 c2 b :
  0 <= b < 256 -> 0 <= c1 < 2^32 -> 0 <= c2 < 2^32 -> crc_step c1 b = crc_step c2 b -> c1 = c2.
Proof.
  intros Hb H1 H2 [Hi Hs]%crc_step_inv; try done. rewrite !low_byte_lxor_r in Hi by done.
  rewrite (split_low_byte c1), (split_low_byte c2), Hs. f_equal.
  apply (f_equal (fun x => x ^^^ b)) in Hi. by rewrite !Z.lxor_assoc, !Z.lxor_nilpotent, !Z.lxor_0_r in Hi.
Qed.
Lemma crc_step_inj_byte c b1 b2 :
  0 <= b1 < 256 -> 0 <= b2 < 256 -> 0 <= c < 2^32 -> crc_step c b1 = crc_step c b2 -> b1 = b2.
Proof.
  intros Hb1 Hb2 Hc [Hi _]%crc_step_inv; try done. rewrite !low_byte_lxor_r in Hi by done.
  apply (f_equal (Z.lxor (c &&& 0xFF))) in Hi. by rewrite <- !Z.lxor_assoc, !Z.lxor_nilpotent, !Z.lxor_0_l in Hi.
Qed.

Lemma crc_run_range data c : 0 <= c < 2^32 -> 0 <= fold_left crc_step data c < 2^32.
Proof. revert c. induction data as [|b data IH]; intros c Hc; [done|]. by apply IH, crc_step_range. Qed.
Lemma crc_run_inj data c1 c2 :
  bytes data -> 0 <= c1 < 2^32 -> 0 <= c2 < 2^32 ->
  fold_left crc_step data c1 = fold_left crc_step data c2 -> c1 = c2.
Proof.
  intros Hd. revert c1 c2. induction Hd as [|b data Hb Hd IH]; intros c1 c2 H1 H2 H; [done|].
  apply (crc_step_inj_reg c1 c2 b); try done. by apply IH; [apply crc_step_range..|].
Qed.

Lemma u32_lnot_inj x y : 0 <= x < 2^32 -> 0 <= y < 2^32 -> u32 (Z.lnot x) = u32 (Z.lnot y) -> x = y.
Proof.
  intros Hx Hy H. unfold u32, Z.lnot in H.
  replace (Z.pred (- x)) with (2^32 - 1 - x + (-1) * 2^32) in H by lia.
  replace (Z.pred (- y)) with (2^32 - 1 - y + (-1) * 2^32) in H by lia.
  rewrite !Z.mod_add, !Z.mod_small in H by lia. lia.
Qed.

Lemma hash_one_byte p b1 b2 q :
  0 <= b1 < 256 -> 0 <= b2 < 256 -> bytes q -> b1 <> b2 ->
  arm2x86_pcache_compute_hash (p ++ b1 :: q) <> arm2x86_pcache_compute_hash (p ++ b2 :: q).
Proof.
  intros H1 H2 Hq Hne H. apply Hne. unfold arm2x86_pcache_compute_hash in H.
  apply u32_lnot_inj in H; [|apply crc_run_range; lia..]. rewrite !fold_left_app, !fold_left_cons in H.
  assert (Hc : 0 <= fold_left crc_step p 0xFFFFFFFF < 2^32) by (apply crc_run_range; lia).
  apply crc_run_inj in H; [|done|by apply crc_step_range..]. by eapply crc_step_inj_byte.
Qed.

Lemma hash_range data : 0 <= arm2x86_pcache_compute_hash data < 2^32.
Proof. apply u32_range. Qed.

(** ** The header and its bytes *)

#[local] Arguments arm2x86_pcache_compute_hash : simpl never.
#[local] Arguments header_prefix : simpl never.
#[local] Arguments compute_header_checksum : simpl never.

Record header_ok (h : entry_header) : Prop := {
  ok_magic : 0 <= h_magic h < 2^32; ok_version : 0 <= h_version h < 2^32;
  ok_addr : 0 <= h_arm_addr h < 2^64;
  ok_arm_hash : 0 <= h_arm_code_hash h < 2^32; ok_x86_hash : 0 <= h_x86_code_hash h < 2^32;
  ok_arm_size : 0 <= h_arm_code_size h < 2^64; ok_x86_size : 0 <= h_x86_code_size h < 2^64;
  ok_compressed : 0 <= h_compressed_size h < 2^64; ok_timestamp : 0 <= h_timestamp h < 2^64;
  ok_count : 0 <= h_access_count h < 2^64; ok_last : 0 <= h_last_access_time h < 2^64;
  ok_flags : 0 <= h_flags h < 2^32; ok_arch : 0 <= h_architecture h < 2^8;
  ok_compression : 0 <= h_compression h < 2^8; ok_reserved : 0 <= h_reserved h < 2^112;
  ok_checksum : 0 <= h_checksum h < 2^32 }.

Lemma length_header_prefix h : length (header_prefix h) = 92%nat.
Proof. unfold header_prefix. by rewrite !length_app, !length_le_bytes. Qed.
Lemma length_header_bytes h : length (header_bytes h) = 96%nat.
Proof. unfold header_bytes. by rewrite length_app, length_header_prefix, length_le_bytes. Qed.

Lemma header_prefix_bytes h : bytes (header_prefix h).
Proof. unfold header_prefix. repeat (apply Forall_app; split); apply le_bytes_bytes. Qed.
Lemma header_bytes_bytes h : bytes (header_bytes h).
Proof. apply Forall_app; split; [apply header_prefix_bytes|apply le_bytes_bytes]. Qed.

(** A field in range is read back. *)
Lemma take_le_field n k v rest :
  2^(8 * Z.of_nat n) = k -> 0 <= v < k -> take_le n (le_bytes n v ++ rest) = Some (v, rest).
Proof. intros <- Hv. by rewrite take_le_bytes, Z.mod_small. Qed.

Lemma read_header_bytes h rest : header_ok h -> read_header (header_bytes h ++ rest) = Some (h, rest).
Proof.
  intros []. unfold read_header, header_bytes, header_prefix. rewrite <- !app_assoc.
  repeat (erewrite take_le_field by (reflexivity || assumption); cbn [mbind option_bind]).
  by destruct h.
Qed.

Lemma read_header_inv bs h rest :
  bytes bs -> read_header bs = Some (h, rest) -> bs = header_bytes h ++ rest /\ header_ok h.
Proof.
  intros Hb. unfold read_header.
  repeat match goal with
  | |- context [take_le ?n ?l ≫= _] =>
    let E := fresh "E" in let v := fresh "v" in let r := fresh "r" in
    destruct (take_le n l) as [[v r]|] eqn:E; cbn [mbind option_bind]; [|done];
    apply take_le_inv in E as (-> & ? & ?); [|assumption]
  end.
  intros [= <- <-]. split; [|by split].
  unfold header_bytes, header_prefix. cbn. by rewrite <- !app_assoc.
Qed.

Lemma read_header_short bs : (length bs < 96)%nat -> bytes bs -> read_header bs = None.
Proof.
  intros Hl Hb. destruct (read_header bs) as [[h rest]|] eqn:E; [|done].
  apply read_header_inv in E as [-> _]; [|done]. rewrite length_app, length_header_bytes in Hl. lia.
Qed.

Lemma checksum_eq h : validate_header h = ARM2X86_PCACHE_OK -> h_checksum h = arm2x86_pcache_compute_hash (header_prefix h).
Proof.
  unfold validate_header, compute_header_checksum. cbv zeta.
  destruct (h_magic h =? _), (h_version h =? _); cbn [negb]; try done.
  destruct (_ =? h_checksum h) eqn:E; [|done]. by apply Z.eqb_eq in E.
Qed.

(** Two valid headers do not differ in just one byte. *)
Lemma valid_headers_differ h1 h2 p b1 b2 q :
  header_ok h1 -> header_ok h2 -> validate_header h1 = ARM2X86_PCACHE_OK ->
  validate_header h2 = ARM2X86_PCACHE_OK ->
  header_bytes h1 = p ++ b1 :: q -> header_bytes h2 = p ++ b2 :: q -> b1 = b2.
Proof.
  intros O1 O2 V1%checksum_eq V2%checksum_eq E1 E2.
  assert (Hb1 : bytes (p ++ b1 :: q)) by (rewrite <- E1; apply header_bytes_bytes).
  assert (Hb2 : bytes (p ++ b2 :: q)) by (rewrite <- E2; apply header_bytes_bytes).
  apply Forall_app in Hb1 as [Hp [H1 Hq]%Forall_cons]. apply Forall_app in Hb2 as [_ [H2 _]%Forall_cons].
  unfold header_bytes in E1, E2. destruct (decide (length p < 92)%nat) as [Hl|Hl].
  - assert (Hsplit : forall h b, header_prefix h ++ le_bytes 4 (h_checksum h) = p ++ b :: q ->
      header_prefix h = p ++ b :: take (91 - length p) q /\ le_bytes 4 (h_checksum h) = drop (91 - length p) q).
    { intros h b E. apply app_inj_1; [|by rewrite E, <- app_assoc, <- app_comm_cons, take_drop].
      apply (f_equal length) in E. rewrite !length_app, length_le_bytes, length_header_prefix in E. cbn in E.
      rewrite length_app. cbn. rewrite length_take, length_header_prefix. lia. }
    destruct (Hsplit _ _ E1) as [P1 C1], (Hsplit _ _ E2) as [P2 C2].
    apply (f_equal le_combine) in C1, C2. rewrite le_combine_bytes, Z.mod_small in C1 by apply O1.
    rewrite le_combine_bytes, Z.mod_small in C2 by apply O2. rewrite <- C2, V1, V2, P1, P2 in C1.
    destruct (Z.eq_dec b1 b2) as [|Hne]; [done|].
    by apply (hash_one_byte p b1 b2 (take (91 - length p) q)) in Hne; [|done|done|apply Forall_take].
  - assert (HP : header_prefix h1 = header_prefix h2).
    { apply (f_equal (take 92)) in E1, E2. rewrite !take_app_le in E1, E2 by (rewrite ?length_header_prefix; lia).
      rewrite !firstn_all2 in E1, E2 by (rewrite ?length_header_prefix; lia).
      by rewrite E1, E2. }
    rewrite V1, HP in E1. rewrite V2, E1 in E2. apply app_inv_head in E2. by injection E2.
Qed.

(** Any file of 96 bytes has a header. *)
Lemma read_header_long bs : (96 <= length bs)%nat -> exists h rest, read_header bs = Some (h, rest).
Proof.
  intros Hl. unfold read_header.
  repeat match goal with
  | |- context [take_le ?n ?l ≫= _] =>
    destruct (take_le_some n l) as (? & ? & -> & ?); [lia|]; cbn [mbind option_bind]
  end.
  by eexists _, _.
Qed.

Lemma validate_header_result h :
  validate_header h = ARM2X86_PCACHE_OK \/ validate_header h = ARM2X86_PCACHE_ERROR_CORRUPT \/
  validate_header h = ARM2X86_PCACHE_ERROR_VERSION_MISMATCH.
Proof. unfold validate_header. cbv zeta. repeat case_match; tauto. Qed.

(** A byte inside the header of a file is a byte of the header. *)
Lemma header_split h rest p b q :
  (length p < 96)%nat -> header_bytes h ++ rest = p ++ b :: q -> header_bytes h = p ++ b :: take (95 - length p) q.
Proof.
  intros Hl E. apply (f_equal (take 96)) in E.
  rewrite (take_app_length' (header_bytes h)) in E by (by rewrite length_header_bytes).
  rewrite take_app_ge in E by lia. destruct (96 - length p)%nat as [|k] eqn:Ek; [lia|].
  cbn [take] in E. rewrite E. by replace (95 - length p)%nat with k by lia.
Qed.
Lemma header_split_rest h rest p b q :
  (96 <= length p)%nat -> header_bytes h ++ rest = p ++ b :: q ->
  exists p', p = header_bytes h ++ p' /\ rest = p' ++ b :: q.
Proof.
  intros Hl E. exists (drop 96 p).
  assert (Hp : take 96 p = header_bytes h).
  { apply (f_equal (take 96)) in E. rewrite (take_app_length' (header_bytes h)), take_app_le in E by (done || by rewrite length_header_bytes).
    by symmetry. }
  split; [by rewrite <- Hp, take_drop|].
  apply (f_equal (drop 96)) in E. rewrite (drop_app_length' (header_bytes h)), drop_app_le in E by (done || by rewrite length_header_bytes). done.
Qed.

(** ** File names *)

Lemma hex_digit_inj d1 d2 : 0 <= d1 < 16 -> 0 <= d2 < 16 -> hex_digit d1 = hex_digit d2 -> d1 = d2.
Proof. intros H1 H2. each_of_16 H1; each_of_16 H2; (reflexivity || discriminate). Qed.

Lemma hex_digit_range x : 0 <= x &&& 0xf < 16.
Proof. pose proof (land_range x 0xf ltac:(lia)). lia. Qed.

Lemma hex16_inj a b : 0 <= a < 2^64 -> 0 <= b < 2^64 -> hex16 a = hex16 b -> a = b.
Proof.
  intros Ha Hb H. unfold hex16 in H.
  assert (Hn : forall k, 0 <= k < 16 -> (a >>> (4 * k)) &&& 0xf = (b >>> (4 * k)) &&& 0xf).
  { intros k Hk. apply hex_digit_inj; [apply hex_digit_range..|].
    apply map_ext_in_iff with (a := k) in H; [done|]. rewrite <- in_rev. apply list_elem_of_In, elem_of_seqZ. lia. }
  apply Z.bits_inj'. intros n Hn0. destruct (Z.lt_ge_cases n 64).
  - specialize (Hn (n / 4) ltac:(Z.div_mod_to_equations; lia)). apply (f_equal (fun x => Z.testbit x (n mod 4))) in Hn.
    pose proof (Z.mod_pos_bound n 4 ltac:(lia)).
    rewrite !Z.land_spec in Hn. change 0xf with (Z.ones 4) in Hn.
    rewrite Z.ones_spec_low, !andb_true_r, !Z.shiftr_spec in Hn by lia.
    replace (n mod 4 + 4 * (n / 4)) with n in Hn by (Z.div_mod_to_equations; lia). exact Hn.
  - rewrite <- (Z.mod_small a (2^64)), <- (Z.mod_small b (2^64)) by lia.
    by rewrite !Z.mod_pow2_bits_high by lia.
Qed.

Lemma string_of_list_ascii_inj l1 l2 : string_of_list_ascii l1 = string_of_list_ascii l2 -> l1 = l2.
Proof. intros H. rewrite <- (list_ascii_of_string_of_list_ascii l1), H. apply list_ascii_of_string_of_list_ascii. Qed.

Lemma get_entry_filename_inj a b :
  0 <= a < 2^64 -> 0 <= b < 2^64 -> get_entry_filename a = get_entry_filename b -> a = b.
Proof. intros Ha Hb H%string_of_list_ascii_inj. apply app_inv_tail in H. by apply hex16_inj. Qed.

Lemma strstr_app l p : strstr (string_of_list_ascii (l ++ list_ascii_of_string p)) p = true.
Proof.
  induction l as [|c l IH]; cbn [app string_of_list_ascii].
  - rewrite string_of_list_ascii_of_string.
    assert (Hp : String.prefix p p = true) by (induction p; cbn; [done|]; destruct (ascii_dec _ _); done).
    destruct p; cbn [strstr] in *; by rewrite Hp.
  - cbn [strstr]. by rewrite IH, orb_true_r.
Qed.

Lemma hex16_head a : exists d l, 0 <= d < 16 /\ hex16 a = hex_digit d :: l.
Proof. eexists ((a >>> 60) &&& 0xf), _. split; [apply hex_digit_range|reflexivity]. Qed.

Lemma filename_not_hidden a : String.prefix "." (get_entry_filename a) = false.
Proof.
  unfold get_entry_filename. destruct (hex16_head a) as (d & l & Hd & ->).
  each_of_16 Hd; reflexivity.
Qed.
Lemma filename_is_entry a : is_entry_name (get_entry_filename a) = true.
Proof. unfold is_entry_name. rewrite filename_not_hidden. apply strstr_app. Qed.
Lemma tmp_is_no_entry a : is_entry_name (tmp_filename a) = false.
Proof. reflexivity. Qed.
Lemma tmp_ne_filename a b : tmp_filename a <> get_entry_filename b.
Proof. intros H. pose proof (filename_is_entry b) as E. by rewrite <- H, tmp_is_no_entry in E. Qed.

(** ** Storing and finding *)

#[local] Opaque arm2x86_pcache_compute_hash get_entry_filename tmp_filename.

Lemma entry_read now a arm x86 flags :
  0 <= a < 2^64 -> 0 <= now < 2^64 -> 0 <= flags < 2^32 ->
  Z.of_nat (length arm) < 2^64 -> Z.of_nat (length x86) < 2^64 ->
  let h := new_header now a arm x86 flags
             (compute_header_checksum (new_header now a arm x86 flags 0)) in
  read_header (entry_bytes now a arm x86 flags) = Some (h, x86) /\ validate_header h = ARM2X86_PCACHE_OK.
Proof.
  intros Ha Hn Hf Hl1 Hl2. unfold entry_bytes. cbv zeta.
  remember (compute_header_checksum (new_header now a arm x86 flags 0)) as k eqn:Hk.
  assert (Hkr : 0 <= k < 2^32) by (rewrite Hk; apply hash_range).
  pose proof (hash_range arm). pose proof (hash_range x86).
  assert (0 <= ARM2X86_PCACHE_VERSION < 2^32) by (vm_compute; split; congruence).
  split.
  - apply read_header_bytes. split; cbn [h_magic h_version h_arm_addr h_arm_code_hash h_x86_code_hash
      h_arm_code_size h_x86_code_size h_compressed_size h_timestamp h_access_count h_last_access_time h_flags
      h_architecture h_compression h_reserved h_checksum new_header];
      unfold ARM2X86_PCACHE_MAGIC; lia.
  - assert (E : compute_header_checksum (new_header now a arm x86 flags k) = k).
    { rewrite Hk at 2. unfold compute_header_checksum. f_equal. }
    unfold validate_header. cbv zeta. rewrite E. cbn [h_magic h_version h_checksum new_header].
    by rewrite !Z.eqb_refl.
Qed.

Lemma length_entry_bytes now a arm x86 flags : length (entry_bytes now a arm x86 flags) = (96 + length x86)%nat.
Proof. unfold entry_bytes. cbv zeta. by rewrite length_app, length_header_bytes. Qed.

#[local] Opaque entry_bytes read_header validate_header.

(** What a lookup answers about a file that holds a stored block. *)
Lemma lookup_stored c now now' a arm x86 flags arm' flags' :
  enabled (config c) = true -> 0 <= a < 2^64 -> 0 <= now < 2^64 -> 0 <= flags < 2^32 ->
  Z.of_nat (length arm) < 2^64 -> Z.of_nat (length x86) < 2^64 ->
  contents <$> dir c !! get_entry_filename a = Some (entry_bytes now a arm x86 flags) ->
  (arm2x86_pcache_lookup (fun _ => true) now' (Some c) a (Some arm') true flags').1 =
    if verify_hash (config c) && negb (arm2x86_pcache_compute_hash arm' =? arm2x86_pcache_compute_hash arm)
    then (ARM2X86_PCACHE_ERROR_HASH_MISMATCH, None)
    else if negb (flags =? flags') then (ARM2X86_PCACHE_ERROR_NOT_FOUND, None)
    else (ARM2X86_PCACHE_OK, Some x86).
Proof.
  intros He Ha Hn Hf Hl1 Hl2 Hd. destruct (dir c !! get_entry_filename a) as [[bs t]|] eqn:E; [|done].
  cbn in Hd. injection Hd as ->. unfold arm2x86_pcache_lookup. cbv zeta. rewrite He, E. cbn [negb contents].
  destruct (entry_read now a arm x86 flags) as [Hr Hv]; [lia..|]. rewrite Hr, Hv. cbn [Z.eqb negb ARM2X86_PCACHE_OK].
  cbn [h_arm_code_hash h_flags h_x86_code_size new_header].
  destruct (verify_hash (config c) && _); [done|]. destruct (flags =? flags'); [|done]. cbn [negb].
  rewrite Z.ltb_irrefl, Nat2Z.id, firstn_all. done.
Qed.

(** C15: storing a block under a free address, within the limits and without an
    input/output error, succeeds; a lookup of the address then returns exactly the
    stored code when the ARM code has the same hash (or hashes are not verified) and
    the flags are the same, and otherwise refuses it.  What a lookup of any other
    address answers does not change, and a second store under the address is refused
    and changes nothing. *)
Theorem pcache_store_lookup sys c a arm x86 flags :
  enabled (config c) = true -> dir c !! get_entry_filename a = None ->
  0 <= a < 2^64 -> 0 <= now sys < 2^64 -> 0 <= flags < 2^32 -> Z.of_nat (length arm) < 2^64 ->
  Z.of_nat (length x86) <= max_entry_size (config c) < 2^64 ->
  u64 (total_size c + Z.of_nat (length x86)) <= max_size_bytes (config c) ->
  exists c', arm2x86_pcache_store sys IoOk (Some c) a (Some arm) (Some x86) flags
    = Some (ARM2X86_PCACHE_OK, Some c') /\
  (forall t arm' flags', (arm2x86_pcache_lookup (fun _ => true) t (Some c') a (Some arm') true flags').1 =
    if verify_hash (config c) && negb (arm2x86_pcache_compute_hash arm' =? arm2x86_pcache_compute_hash arm)
    then (ARM2X86_PCACHE_ERROR_HASH_MISMATCH, None)
    else if negb (flags =? flags') then (ARM2X86_PCACHE_ERROR_NOT_FOUND, None)
    else (ARM2X86_PCACHE_OK, Some x86)) /\
  (forall ok t b arm' flags', 0 <= b < 2^64 -> b <> a ->
    (arm2x86_pcache_lookup ok t (Some c') b (Some arm') true flags').1
    = (arm2x86_pcache_lookup ok t (Some c) b (Some arm') true flags').1) /\
  (u64 (total_size c' + Z.of_nat (length x86)) <= max_size_bytes (config c) ->
   arm2x86_pcache_store sys IoOk (Some c') a (Some arm) (Some x86) flags
    = Some (ARM2X86_PCACHE_ERROR_ALREADY_EXISTS, Some c')).
Proof.
  intros He Hfree Ha Hn Hf Hl Hs Ht. unfold arm2x86_pcache_store. cbv zeta. rewrite He. cbn [negb].
  rewrite !(proj2 (Z.ltb_ge _ _)) by lia. unfold write_entry. rewrite Hfree. cbv zeta.
  eexists. split; [reflexivity|]. split_and!.
  - intros t arm' flags'.
    lazymatch goal with |- context [arm2x86_pcache_lookup _ _ (Some ?c1)] => change (config c) with (config c1) end.
    apply (lookup_stored _ (now sys)); [done|lia..|].
    cbn [dir count_store set_totals set_dir]. by rewrite lookup_insert_eq.
  - intros ok t b arm' flags' Hb Hne. unfold arm2x86_pcache_lookup. cbv zeta.
    cbn [config dir count_store set_totals set_dir].
    rewrite lookup_insert_ne by (intros H; apply Hne; symmetry; by apply get_entry_filename_inj).
    rewrite lookup_delete_ne by apply tmp_ne_filename. rewrite He. cbn [negb].
    destruct (dir c !! get_entry_filename b) as [f|]; [|done].
    destruct (read_header (contents f)) as [[h rest]|]; [|done].
    by repeat case_match.
  - intros Ht'. cbn [config count_store set_totals set_dir total_size] in *. rewrite He. cbn [negb].
    rewrite !(proj2 (Z.ltb_ge _ _)) by lia. cbn [dir count_store set_totals set_dir]. by rewrite lookup_insert_eq.
Qed.
Lemma pcache_store_lookup_witness :
  let sys := {| readdir := map_to_list; opendir_ok := true; malloc_entries_ok := true;
                unlink_ok := fun _ => true; now := 1000 |} in
  let c := Build_persistent_cache arm2x86_pcache_config_init ∅ 0 0 0 0 0 0 0 0 in
  exists c', arm2x86_pcache_store sys IoOk (Some c) 0x4000 (Some [1; 2; 3; 4]) (Some [0xc3]) 0
      = Some (ARM2X86_PCACHE_OK, Some c') /\
    (arm2x86_pcache_lookup (fun _ => true) 2000 (Some c') 0x4000 (Some [1; 2; 3; 4]) true 0).1
      = (ARM2X86_PCACHE_OK, Some [0xc3]).
Proof.
  intros sys c.
  destruct (pcache_store_lookup sys c 0x4000 [1; 2; 3; 4] [0xc3] 0) as (c' & H1 & H2 & _);
    [reflexivity | reflexivity | cbn; lia | cbn; lia | cbn; lia | cbn; lia | cbn; lia | vm_compute; congruence |].
  exists c'. split; [exact H1|]. rewrite H2, Z.eqb_refl, andb_false_r. reflexivity.
Defined.

(** ** Damaged files *)

(** A lookup through a header that reads and does not validate. *)
Lemma lookup_invalid ok t c a arm flags f h rest :
  enabled (config c) = true -> dir c !! get_entry_filename a = Some f ->
  read_header (contents f) = Some (h, rest) -> validate_header h <> ARM2X86_PCACHE_OK ->
  arm2x86_pcache_lookup ok t (Some c) a (Some arm) true flags = (validate_header h, None, Some (count_miss c)).
Proof.
  intros He Hd Hr Hv. unfold arm2x86_pcache_lookup. cbv zeta. rewrite He, Hd. cbn [negb]. rewrite Hr.
  by rewrite (proj2 (Z.eqb_neq _ _) Hv).
Qed.

(** One damaged byte.  In the 96 bytes of the header of a valid file it is always
    found: the lookup reports the file as corrupt or of another version, returns no
    code and counts a miss.  Behind the header it is never found: the answer is the
    one about the undamaged file, with the damaged byte in the code returned, although
    the header holds a hash of that code. *)
Theorem pcache_damage c a p b1 b2 q h rest at1 at2 ok t arm flags :
  enabled (config c) = true -> bytes (p ++ b1 :: q) -> 0 <= b2 < 256 -> b2 <> b1 ->
  read_header (p ++ b1 :: q) = Some (h, rest) -> validate_header h = ARM2X86_PCACHE_OK ->
  let with_file bs at_ := set_dir (<[get_entry_filename a := {| contents := bs; atime := at_ |}]> (dir c)) c in
  let good := arm2x86_pcache_lookup ok t (Some (with_file (p ++ b1 :: q) at1)) a (Some arm) true flags in
  let bad := arm2x86_pcache_lookup ok t (Some (with_file (p ++ b2 :: q) at2)) a (Some arm) true flags in
  if (length p <? 96)%nat then
    (bad.1.1 = ARM2X86_PCACHE_ERROR_CORRUPT \/ bad.1.1 = ARM2X86_PCACHE_ERROR_VERSION_MISMATCH) /\
    bad.1.2 = None /\ misses <$> bad.2 = Some (u64 (misses c + 1))
  else
    bad.1.1 = good.1.1 /\
    bad.1.2 = (if bad.1.1 =? ARM2X86_PCACHE_OK
               then Some (take (Z.to_nat (h_x86_code_size h)) (drop 96 (p ++ b2 :: q))) else None).
Proof.
  intros He Hb Hb2 Hne Hr Hv with_file good bad.
  destruct (read_header_inv _ _ _ Hb Hr) as [E Ho].
  assert (Hb' : bytes (p ++ b2 :: q)).
  { apply Forall_app in Hb as [? [_ ?]%Forall_cons]. apply Forall_app; split; [done|]. by constructor. }
  assert (Hl : (96 <= length (p ++ b2 :: q))%nat).
  { transitivity (length (p ++ b1 :: q)); [rewrite E, length_app, length_header_bytes; lia|].
    rewrite !length_app. cbn. lia. }
  destruct (read_header_long _ Hl) as (h2 & rest2 & Hr2).
  destruct (read_header_inv _ _ _ Hb' Hr2) as [E2 Ho2].
  destruct (length p <? 96)%nat eqn:Hp; [apply Nat.ltb_lt in Hp | apply Nat.ltb_ge in Hp].
  - assert (Hv2 : validate_header h2 <> ARM2X86_PCACHE_OK).
    { intros Hv2. apply Hne. symmetry.
      apply (valid_headers_differ h h2 p b1 b2 (take (95 - length p) q)); try done;
        eapply header_split; eauto. }
    unfold bad. erewrite lookup_invalid; [|done|apply lookup_insert_eq|exact Hr2|exact Hv2]. cbn.
    split; [|done]. destruct (validate_header_result h2) as [?|[?|?]]; [done|tauto|tauto].
  - destruct (header_split_rest h rest p b1 q Hp) as (p' & -> & ->); [done|].
    assert (Eh : read_header ((header_bytes h ++ p') ++ b2 :: q) = Some (h, p' ++ b2 :: q))
      by (rewrite <- app_assoc; by apply read_header_bytes).
    unfold good, bad, arm2x86_pcache_lookup. cbv zeta. unfold with_file. cbn [dir set_dir config].
    rewrite !lookup_insert_eq, He. cbn [negb contents]. rewrite Hr, Eh, Hv.
    rewrite <- app_assoc, (drop_app_length' (header_bytes h)) by (by rewrite length_header_bytes).
    rewrite !length_app. cbn [length]. by repeat case_match.
Qed.
Lemma pcache_damage_witness :
  let c := Build_persistent_cache arm2x86_pcache_config_init ∅ 0 0 0 0 0 0 0 0 in
  let bs := entry_bytes 1000 0x4000 [1; 2; 3; 4] [0xc3] 0 in
  let bad := set_dir (<[get_entry_filename 0x4000 := {| contents := 0x4B :: drop 1 bs; atime := 0 |}]> (dir c)) c in
  (arm2x86_pcache_lookup (fun _ => true) 2000 (Some bad) 0x4000 (Some [1; 2; 3; 4]) true 0).1.2 = None.
Proof.
  intros c bs bad.
  pose proof (pcache_damage c 0x4000 [] 0x4A 0x4B (drop 1 bs)
    (new_header 1000 0x4000 [1; 2; 3; 4] [0xc3] 0 (compute_header_checksum (new_header 1000 0x4000 [1; 2; 3; 4] [0xc3] 0 0)))
    [0xc3] 0 0 (fun _ => true) 2000 [1; 2; 3; 4] 0) as H.
  destruct (entry_read 1000 0x4000 [1; 2; 3; 4] [0xc3] 0) as [Hr Hv]; [lia | lia | lia | cbn; lia | cbn; lia |].
  apply H; clear H.
  - reflexivity.
  - apply Forall_app. split; [apply Forall_nil_2|]. apply (bool_decide_unpack _). vm_compute. exact I.
  - lia.
  - lia.
  - exact Hr.
  - exact Hv.
Defined.

(** ** The directory and its size *)

Definition info_of (nf : string * file) : entry_info :=
  {| path := nf.1; e_atime := atime nf.2; e_size := st_size nf.2 |}.

(** The entries of a directory, in some order. *)
Definition entries_of (d : gmap string file) : list entry_info :=
  map info_of (List.filter (fun nf => is_entry_name nf.1) (map_to_list d)).

Fixpoint sizes (l : list entry_info) : Z := match l with [] => 0 | e :: l => e_size e + sizes l end.

Lemma sizes_perm l1 l2 : l1 ≡ₚ l2 -> sizes l1 = sizes l2.
Proof. induction 1; cbn; lia. Qed.
Lemma sizes_app l1 l2 : sizes (l1 ++ l2) = sizes l1 + sizes l2.
Proof. induction l1; cbn; lia. Qed.
Lemma sizes_entries_nonneg d : 0 <= sizes (entries_of d).
Proof.
  unfold entries_of. induction (List.filter _ _) as [|nf l IH]; cbn; [done|]. unfold st_size. lia.
Qed.

Lemma filter_perm {A} (f : A -> bool) l1 l2 : l1 ≡ₚ l2 -> List.filter f l1 ≡ₚ List.filter f l2.
Proof.
  induction 1 as [|x l1 l2 H IH|x y l|l1 l2 l3 H1 IH1 H2 IH2]; cbn.
  - done.
  - destruct (f x); [by constructor|done].
  - destruct (f x), (f y); try done. apply Permutation_swap.
  - by rewrite IH1.
Qed.

Lemma entries_delete d n f :
  d !! n = Some f ->
  entries_of d ≡ₚ if is_entry_name n then info_of (n, f) :: entries_of (delete n d) else entries_of (delete n d).
Proof.
  intros Hn. unfold entries_of. pose proof (map_to_list_delete d n f Hn) as H.
  apply (filter_perm (fun nf => is_entry_name nf.1)) in H. cbn in H.
  apply (Permutation_map info_of) in H. rewrite <- H. by destruct (is_entry_name n).
Qed.
Lemma entries_insert d n f :
  d !! n = None ->
  entries_of (<[n := f]> d) ≡ₚ if is_entry_name n then info_of (n, f) :: entries_of d else entries_of d.
Proof.
  intros Hn. rewrite (entries_delete _ n f) by apply lookup_insert_eq. by rewrite delete_insert_id.
Qed.
Lemma entries_delete_other d n : is_entry_name n = false -> entries_of (delete n d) ≡ₚ entries_of d.
Proof.
  intros Hn. destruct (d !! n) as [f|] eqn:E; [|by rewrite delete_id].
  rewrite (entries_delete d n f) by done. by rewrite Hn.
Qed.
Lemma entries_in d e :
  e ∈ entries_of d -> is_entry_name (path e) = true /\ exists f, d !! path e = Some f /\ e = info_of (path e, f).
Proof.
  unfold entries_of. rewrite list_elem_of_In, in_map_iff. intros ([n f] & <- & Hin).
  apply filter_In in Hin as [Hin Hn]. apply list_elem_of_In, elem_of_map_to_list in Hin.
  split; [done|]. by exists f.
Qed.

(** Removing an entry takes exactly it out. *)
Lemma entries_remove d e : e ∈ entries_of d -> entries_of d ≡ₚ e :: entries_of (delete (path e) d).
Proof.
  intros (Hn & f & Hf & He)%entries_in. rewrite (entries_delete d (path e) f) by done. by rewrite Hn, <- He.
Qed.

(** ** The exchange sort *)

Definition older (e1 e2 : entry_info) : Prop := e_atime e1 <= e_atime e2.

Lemma exchange_spec x l m l' :
  exchange x l = (m, l') -> m :: l' ≡ₚ x :: l /\ length l' = length l /\ Forall (older m) l' /\ older m x.
Proof.
  unfold older. revert x m l'. induction l as [|y l IH]; cbn; intros x m l'; [intros [= <- <-]; split_and!; done || lia|].
  destruct (e_atime y <? e_atime x) eqn:E; [apply Z.ltb_lt in E | apply Z.ltb_ge in E].
  - destruct (exchange y l) as [m0 l0] eqn:Ex. intros [= <- <-]. destruct (IH _ _ _ Ex) as (P & L & F & O).
    split_and!; [|cbn; lia|constructor; [lia|done]|lia]. by rewrite Permutation_swap, P.
  - destruct (exchange x l) as [m0 l0] eqn:Ex. intros [= <- <-]. destruct (IH _ _ _ Ex) as (P & L & F & O).
    split_and!; [|cbn; lia|constructor; [lia|done]|lia]. rewrite Permutation_swap, P. apply Permutation_swap.
Qed.

Lemma exchange_sort_spec n l :
  length l = n -> exchange_sort n l ≡ₚ l /\ StronglySorted older (exchange_sort n l).
Proof.
  revert l. induction n as [|n IH]; intros [|x l] Hl; try done.
  { split; [done|constructor]. }
  cbn [exchange_sort]. destruct (exchange x l) as [m l'] eqn:E.
  destruct (exchange_spec _ _ _ _ E) as (P & L & F & _). injection Hl as Hl.
  destruct (IH l') as [P' S']; [lia|]. split; [by rewrite P'|]. constructor; [done|]. by rewrite P'.
Qed.

(** ** The removal loop *)

(** Whatever [unlink] answers, the running size and the count stay those of the
    directory, or as far from them as they were. *)
Lemma remove_oldest_accounts ok l d cur target n rest ds :
  entries_of d ≡ₚ l ++ rest -> cur = u64 (sizes (entries_of d) + ds) ->
  let '(d', cur', n') := remove_oldest ok l d cur target n in
  cur' = u64 (sizes (entries_of d') + ds) /\
  n' + Z.of_nat (length (entries_of d')) = n + Z.of_nat (length (entries_of d)).
Proof.
  revert d cur n rest. induction l as [|e l IH]; intros d cur n rest Hp Hc; cbn [remove_oldest]; [done|].
  destruct (target <? cur); [|done]. destruct (ok (path e)).
  - assert (He : entries_of d ≡ₚ e :: entries_of (delete (path e) d)) by (apply entries_remove; rewrite Hp; set_solver).
    specialize (IH (delete (path e) d) (u64 (cur - e_size e)) (n + 1) rest).
    destruct (remove_oldest _ _ _ _ _ _) as [[d' cur'] n'].
    rewrite (Permutation_length He). cbn [length]. destruct IH as [H1 H2]; [| |split; [done|lia]].
    + rewrite He in Hp. cbn in Hp. by apply Permutation_cons_inv in Hp.
    + rewrite Hc, (sizes_perm _ _ He). cbn [sizes]. unfold u64. rewrite Zminus_mod_idemp_l. f_equal. lia.
  - apply (IH d cur n (e :: rest)); [|done]. rewrite Hp. cbn. by rewrite Permutation_middle.
Qed.

(** When every [unlink] succeeds the entries removed are the shortest sufficient
    prefix. *)
Lemma remove_oldest_all l d target n :
  entries_of d ≡ₚ l -> sizes l < 2^64 -> 0 <= target ->
  exists R K d', l = R ++ K /\
    remove_oldest (fun _ => true) l d (sizes l) target n = (d', sizes K, n + Z.of_nat (length R)) /\
    sizes K <= target /\ (R = [] \/ exists R' r, R = R' ++ [r] /\ target < sizes (r :: K)) /\
    entries_of d' ≡ₚ K /\ (forall x, d' !! x = if decide (x ∈ path <$> R) then None else d !! x).
Proof.
  revert d n. induction l as [|e l IH]; intros d n Hp Hs Ht.
  { exists [], [], d. cbn. split_and!; [done|f_equal; lia|lia|by left|done|].
    intros x. by rewrite decide_False by set_solver. }
  cbn [remove_oldest]. destruct (target <? sizes (e :: l)) eqn:E; [apply Z.ltb_lt in E|apply Z.ltb_ge in E].
  - assert (He : entries_of d ≡ₚ e :: entries_of (delete (path e) d)) by (apply entries_remove; rewrite Hp; set_solver).
    assert (Hp' : entries_of (delete (path e) d) ≡ₚ l) by (rewrite He in Hp; by apply Permutation_cons_inv in Hp).
    assert (Hnn : 0 <= sizes l) by (rewrite <- (sizes_perm _ _ Hp'); apply sizes_entries_nonneg).
    assert (Hes : 0 <= e_size e).
    { assert (Hin : e ∈ entries_of d) by (rewrite Hp; set_solver).
      apply entries_in in Hin as (_ & f & _ & ->). cbn. unfold st_size. lia. }
    cbn [sizes] in *. replace (u64 (e_size e + sizes l - e_size e)) with (sizes l) by (rewrite u64_small; lia).
    destruct (IH (delete (path e) d) (n + 1) Hp') as (R & K & d' & -> & Hr & H1 & H2 & H3 & H4); [lia|done|].
    exists (e :: R), K, d'. rewrite Hr. split_and!; [done|cbn [length]; f_equal; lia|done| |done|].
    + right. destruct H2 as [->|(R' & r & -> & H2)]; [by exists [], e|by exists (e :: R'), r].
    + intros x. rewrite H4. cbn [fmap list_fmap]. destruct (decide (x = path e)) as [->|Hne].
      * rewrite lookup_delete_eq, (decide_True (P := path e ∈ path e :: _)) by set_solver. by case_match.
      * rewrite lookup_delete_ne by done. destruct (decide (x ∈ path <$> R)); [rewrite decide_True|rewrite decide_False]; set_solver.
  - exists [], (e :: l), d. cbn [length]. split_and!; [done|f_equal; lia|done|by left|done|].
    intros x. by rewrite decide_False by set_solver.
Qed.

Lemma remove_oldest_ext ok l d cur target n :
  (forall x, ok x = true) -> remove_oldest ok l d cur target n = remove_oldest (fun _ => true) l d cur target n.
Proof.
  intros Hok. revert d cur n. induction l as [|e l IH]; intros; cbn [remove_oldest]; [done|].
  rewrite Hok. by rewrite IH.
Qed.

Lemma scan_entries_perm sys d : readdir sys d ≡ₚ map_to_list d -> scan_entries sys d ≡ₚ entries_of d.
Proof. intros H. unfold scan_entries, entries_of. apply Permutation_map. by apply filter_perm. Qed.

(** C16: cleaning up a cache whose recorded size is that of its files, with a target
    the size exceeds, when every file can be unlinked: the files removed are the oldest
    by access time, just as many as needed to come down to the target (the last one
    removed was still needed), the others are untouched, and the recorded size is that
    of the files left.  With more than 1000 files in the directory the scan writes
    behind the end of its array instead. *)
Theorem pcache_cleanup_correct sys c target :
  readdir sys (dir c) ≡ₚ map_to_list (dir c) -> opendir_ok sys = true -> malloc_entries_ok sys = true ->
  (forall x, unlink_ok sys x = true) -> 0 < target < total_size c ->
  total_size c = sizes (entries_of (dir c)) -> total_size c < 2^64 ->
  if (1000 <? length (entries_of (dir c)))%nat then arm2x86_pcache_cleanup sys (Some c) target = None
  else exists R K c',
    arm2x86_pcache_cleanup sys (Some c) target = Some (Z.of_nat (length R), Some c') /\
    R ++ K ≡ₚ entries_of (dir c) /\ (forall r k, r ∈ R -> k ∈ K -> e_atime r <= e_atime k) /\
    sizes K <= target /\ (exists R' r, R = R' ++ [r] /\ target < sizes (r :: K)) /\
    entries_of (dir c') ≡ₚ K /\ total_size c' = sizes K /\
    (forall x, dir c' !! x = if decide (x ∈ path <$> R) then None else dir c !! x).
Proof.
  intros Hrd Hod Hm Hun Ht Hsz Hb. pose proof (scan_entries_perm _ _ Hrd) as Hsc.
  unfold arm2x86_pcache_cleanup, array_capacity. cbv zeta. rewrite Hod, Hm. cbn [negb].
  rewrite (proj2 (Z.eqb_neq target 0)), (proj2 (Z.leb_gt (total_size c) target)) by lia.
  rewrite (Permutation_length Hsc). destruct (1000 <? _)%nat eqn:Hn; [done|].
  destruct (exchange_sort_spec (length (entries_of (dir c))) (scan_entries sys (dir c))) as [Hp Hss];
    [by apply Permutation_length|].
  set (l := exchange_sort _ _) in *.
  assert (Hpl : entries_of (dir c) ≡ₚ l) by (by rewrite Hp, Hsc).
  rewrite (remove_oldest_ext _ _ _ _ _ _ Hun), Hsz, (sizes_perm _ _ Hpl).
  rewrite Hsz, (sizes_perm _ _ Hpl) in Hb, Ht.
  destruct (remove_oldest_all l (dir c) target 0 Hpl Hb) as (R & K & d' & El & -> & H1 & H2 & H3 & H4); [lia|].
  rewrite El in *. clear El l. exists R, K. eexists. split; [by rewrite Z.add_0_l|]. split_and!; try done.
  - intros r k Hr Hk. clear - Hss Hr Hk. induction R as [|x R IH]; [by apply elem_of_nil in Hr|].
    cbn in Hss. apply StronglySorted_inv in Hss as [Hs Hx]. apply elem_of_cons in Hr as [->|Hr]; [|by apply IH].
    rewrite Forall_forall in Hx. apply Hx. set_solver.
  - destruct H2 as [->|H2]; [|done]. cbn in Ht. lia.
Qed.
Lemma pcache_cleanup_correct_witness :
  let f n t := {| contents := replicate n 0; atime := t |} in
  let d : gmap string file := <["a.jtx"%string := f 5%nat 2]> {[ "b.jtx"%string := f 7%nat 1 ]} in
  let sys := {| readdir := map_to_list; opendir_ok := true; malloc_entries_ok := true;
                unlink_ok := fun _ => true; now := 1000 |} in
  let c := Build_persistent_cache arm2x86_pcache_config_init d 12 2 0 0 0 0 0 0 in
  exists rc c', arm2x86_pcache_cleanup sys (Some c) 6 = Some (rc, Some c') /\
    total_size c' = sizes (entries_of (dir c')) /\ total_size c' <= 6.
Proof.
  intros f d sys c.
  assert (Hl : (1000 <? length (entries_of (dir c)))%nat = false) by (vm_compute; reflexivity).
  assert (Hs : sizes (entries_of (dir c)) = 12) by (vm_compute; reflexivity).
  pose proof (pcache_cleanup_correct sys c 6) as H. rewrite Hl, Hs in H.
  destruct H as (R & K & c' & E & _ & _ & H & _ & HK & Ht & _);
    [reflexivity | reflexivity | reflexivity | reflexivity | cbn; lia | reflexivity | cbn; lia |].
  exists (Z.of_nat (length R)), c'. split; [exact E|]. rewrite (sizes_perm _ _ HK), Ht. split; [reflexivity|exact H].
Defined.

(** ** Accounting *)

Definition count_of (d : gmap string file) : Z := Z.of_nat (length (entries_of d)).

(** The recorded totals are those of the directory and [ds] bytes and [dn] entries more
    (less, when negative). *)
Record accounted (c : persistent_cache) (ds dn : Z) : Prop := {
  acc_size : total_size c = u64 (sizes (entries_of (dir c)) + ds);
  acc_count : total_entries c = u64 (count_of (dir c) + dn) }.

Lemma cleanup_accounts sys c target rc c' ds dn :
  readdir sys (dir c) ≡ₚ map_to_list (dir c) -> accounted c ds dn ->
  arm2x86_pcache_cleanup sys (Some c) target = Some (rc, c') -> exists c2, c' = Some c2 /\ accounted c2 ds dn.
Proof.
  intros Hrd [Hs Hc]. pose proof (scan_entries_perm _ _ Hrd) as Hsc.
  unfold arm2x86_pcache_cleanup. cbv zeta.
  destruct (total_size c <=? _); [intros [= _ <-]; by exists c|].
  destruct (opendir_ok sys); cbn [negb]; [|intros [= _ <-]; by exists c].
  destruct (array_capacity sys <? _)%nat; [done|].
  destruct (exchange_sort_spec _ (scan_entries sys (dir c)) eq_refl) as [Hp _].
  set (l := exchange_sort _ _) in *. set (t := if _ =? _ then _ else _).
  pose proof (remove_oldest_accounts (unlink_ok sys) l (dir c) (total_size c) t 0 [] ds) as H.
  destruct (remove_oldest _ _ _ _ _ _) as [[d' cur] n]. intros [= _ <-]. eexists. split; [done|].
  destruct H as [H1 H2]; [by rewrite app_nil_r, Hp, Hsc|done|]. split; [done|].
  cbn [total_entries dir set_cleanup_time set_evictions set_totals set_dir]. rewrite Hc.
  unfold u64, count_of. rewrite Zminus_mod_idemp_l. f_equal. lia.
Qed.

Lemma accounted_insert c n f ds dn :
  accounted c ds dn -> dir c !! n = None -> is_entry_name n = true ->
  u64 (total_size c + st_size f) = u64 (sizes (entries_of (<[n := f]> (dir c))) + ds) /\
  u64 (total_entries c + 1) = u64 (count_of (<[n := f]> (dir c)) + dn).
Proof.
  intros [Hs Hc] Hn Hi. pose proof (entries_insert (dir c) n f Hn) as H. rewrite Hi in H.
  unfold count_of in *. rewrite (sizes_perm _ _ H), (Permutation_length H), Hs, Hc. cbn [length sizes e_size info_of snd].
  unfold u64. rewrite !Zplus_mod_idemp_l. split; f_equal; lia.
Qed.

(** The directory without an entry: what it has less. *)
Lemma entries_less d n f : d !! n = Some f -> is_entry_name n = true ->
  sizes (entries_of d) = sizes (entries_of (delete n d)) + st_size f /\ count_of d = count_of (delete n d) + 1.
Proof.
  intros Hn Hi. pose proof (entries_delete d n f Hn) as H. rewrite Hi in H.
  unfold count_of. rewrite (sizes_perm _ _ H), (Permutation_length H). cbn [length sizes e_size info_of snd]. lia.
Qed.

(** A change of the directory that the scans do not see. *)
Lemma accounted_same c c' ds dn :
  accounted c ds dn -> total_size c' = total_size c -> total_entries c' = total_entries c ->
  sizes (entries_of (dir c')) = sizes (entries_of (dir c)) ->
  count_of (dir c') = count_of (dir c) -> accounted c' ds dn.
Proof. intros [Hs Hc] H1 H2 H3 H4. split; congruence. Qed.

Lemma write_entry_accounts io t c a arm x86 flags ds dn :
  accounted c ds dn -> accounted (write_entry io t c a arm x86 flags).2 ds dn.
Proof.
  intros H. unfold write_entry. cbv zeta. destruct (dir c !! get_entry_filename a) as [f|] eqn:E; [done|].
  pose proof (entries_delete_other (dir c) _ (tmp_is_no_entry a)) as Ht.
  assert (H' : accounted (set_dir (delete (tmp_filename a) (dir c)) c) ds dn).
  { apply (accounted_same c); try done; cbn [dir set_dir]; [by apply sizes_perm|].
    unfold count_of. by rewrite (Permutation_length Ht). }
  destruct io; try done.
  set (f := {| contents := _; atime := _ |}).
  destruct (accounted_insert _ (get_entry_filename a) f _ _ H') as [H1 H2].
  { cbn [dir set_dir]. rewrite lookup_delete_ne; [done|apply tmp_ne_filename]. }
  { apply filename_is_entry. }
  split; cbn [snd total_size total_entries dir count_store set_totals set_dir] in *; [rewrite <- H1|by rewrite <- H2].
  do 2 f_equal. unfold st_size, f. cbn [contents]. rewrite length_entry_bytes. unfold HEADER_SIZE. lia.
Qed.

(** The bytes and the entries a lookup removes without accounting for them: those of the
    file of a block whose ARM code is not the one stored with it. *)
Definition file_drift (d : gmap string file) (arm_addr : Z) : Z * Z :=
  match d !! get_entry_filename arm_addr with Some f => (st_size f, 1) | None => (0, 0) end.
Definition lookup_drift (rc : Z) (d : gmap string file) (arm_addr : Z) : Z * Z :=
  if rc =? ARM2X86_PCACHE_ERROR_HASH_MISMATCH then file_drift d arm_addr else (0, 0).

(** The runs of the cache, every public operation with every failure of the operating
    system, and how far the recorded totals are from the directory, in bytes and in
    entries.  [readdir] lists the directory; nobody else changes it.  The totals go
    wrong where the directory is not scanned at the creation, where a lookup unlinks the
    file of other code, where [unlink] fails behind the subtraction of an invalidation
    or under an [invalidate_all], and where the index is rebuilt: it is added to. *)
Inductive pcache_run : persistent_cache -> Z -> Z -> Prop :=
| run_create sys cfg d c :
    readdir sys d ≡ₚ map_to_list d -> arm2x86_pcache_create sys cfg d = Some c ->
    let scanned := load_on_startup (default arm2x86_pcache_config_init cfg) && opendir_ok sys in
    pcache_run c (if scanned then 0 else - sizes (entries_of d)) (if scanned then 0 else - count_of d)
| run_lookup c ds dn malloc_ok t a arm outputs flags rc out c' :
    pcache_run c ds dn ->
    arm2x86_pcache_lookup malloc_ok t (Some c) a arm outputs flags = (rc, out, Some c') ->
    pcache_run c' (ds + (lookup_drift rc (dir c) a).1) (dn + (lookup_drift rc (dir c) a).2)
| run_lookup_unlink_fails c ds dn malloc_ok t a arm outputs flags out c' :
    pcache_run c ds dn ->
    arm2x86_pcache_lookup malloc_ok t (Some c) a arm outputs flags =
      (ARM2X86_PCACHE_ERROR_HASH_MISMATCH, out, Some c') ->
    pcache_run (set_dir (dir c) c') ds dn
| run_store c ds dn sys io a arm x86 flags rc c' :
    pcache_run c ds dn -> readdir sys (dir c) ≡ₚ map_to_list (dir c) ->
    arm2x86_pcache_store sys io (Some c) a arm x86 flags = Some (rc, Some c') -> pcache_run c' ds dn
| run_cleanup c ds dn sys target rc c' :
    pcache_run c ds dn -> readdir sys (dir c) ≡ₚ map_to_list (dir c) ->
    arm2x86_pcache_cleanup sys (Some c) target = Some (rc, Some c') -> pcache_run c' ds dn
| run_sync c ds dn t rc c' :
    pcache_run c ds dn -> arm2x86_pcache_sync t (Some c) = (rc, Some c') -> pcache_run c' ds dn
| run_rebuild_index c ds dn sys rc c' :
    pcache_run c ds dn -> readdir sys (dir c) ≡ₚ map_to_list (dir c) ->
    arm2x86_pcache_rebuild_index sys (Some c) = (rc, Some c') ->
    pcache_run c' (if opendir_ok sys then ds + sizes (entries_of (dir c)) else ds)
                  (if opendir_ok sys then dn + count_of (dir c) else dn)
| run_invalidate c ds dn sys a rc c' :
    pcache_run c ds dn -> arm2x86_pcache_invalidate sys (Some c) a = (rc, Some c') ->
    let kept := if unlink_ok sys (get_entry_filename a) then (0, 0) else file_drift (dir c) a in
    pcache_run c' (ds - kept.1) (dn - kept.2)
| run_invalidate_all c ds dn sys rc c' :
    pcache_run c ds dn -> arm2x86_pcache_invalidate_all sys (Some c) = (rc, Some c') ->
    pcache_run c' (if opendir_ok sys then - sizes (entries_of (dir c')) else ds)
                  (if opendir_ok sys then - count_of (dir c') else dn).

Lemma lookup_accounts malloc_ok t c a arm outputs flags rc out c' ds dn :
  accounted c ds dn -> arm2x86_pcache_lookup malloc_ok t (Some c) a arm outputs flags = (rc, out, Some c') ->
  accounted c' (ds + (lookup_drift rc (dir c) a).1) (dn + (lookup_drift rc (dir c) a).2).
Proof.
  intros H. unfold arm2x86_pcache_lookup, lookup_drift, file_drift. cbv zeta.
  assert (Hk : accounted c (ds + 0) (dn + 0)) by (by rewrite !Z.add_0_r).
  pose proof (accounted_same c (count_miss c) _ _ Hk eq_refl eq_refl eq_refl eq_refl) as Hm.
  destruct arm as [arm|], outputs; try by intros [= <- _ <-].
  destruct (negb _); [by intros [= <- _ <-]|].
  destruct (dir c !! _) as [f|] eqn:E; [|by intros [= <- _ <-]].
  destruct (read_header _) as [[h rest]|]; [|by intros [= <- _ <-]].
  pose proof (validate_header_result h) as Hv.
  destruct (negb _); [intros [= <- _ <-]|].
  { destruct (Z.eqb_spec (validate_header h) ARM2X86_PCACHE_ERROR_HASH_MISMATCH) as [Hh|]; [|done].
    rewrite Hh in Hv. unfold ARM2X86_PCACHE_ERROR_HASH_MISMATCH, ARM2X86_PCACHE_OK,
      ARM2X86_PCACHE_ERROR_CORRUPT, ARM2X86_PCACHE_ERROR_VERSION_MISMATCH in Hv. lia. }
  destruct (_ && _).
  { intros [= <- _ <-]. destruct (entries_less _ _ _ E (filename_is_entry a)) as [H1 H2].
    destruct H as [Hs Hc]. cbn [Z.eqb Pos.eqb fst snd]. rewrite Z.eqb_refl. cbn [fst snd].
    split; cbn [total_size total_entries dir set_dir count_miss]; [rewrite Hs, H1|rewrite Hc, H2]; f_equal; lia. }
  destruct (negb _); [by intros [= <- _ <-]|]. destruct (negb _); [by intros [= <- _ <-]|].
  destruct (_ <? _); [by intros [= <- _ <-]|]. intros [= <- _ <-].
  pose proof (entries_delete (dir c) _ f E) as H1.
  pose proof (entries_insert (delete (get_entry_filename a) (dir c)) _
                {| contents := contents f; atime := t |} (lookup_delete_eq _ _)) as H2.
  rewrite filename_is_entry in H1, H2. rewrite insert_delete_eq in H2.
  apply (accounted_same c); [done|done|done| |]; cbn [dir set_dir count_hit].
  - by rewrite (sizes_perm _ _ H1), (sizes_perm _ _ H2).
  - unfold count_of. by rewrite (Permutation_length H1), (Permutation_length H2).
Qed.

(** The lookup changes no totals, so a file whose [unlink] failed leaves them as they were. *)
Lemma lookup_keeps_totals malloc_ok t c a arm outputs flags rc out c' :
  arm2x86_pcache_lookup malloc_ok t (Some c) a arm outputs flags = (rc, out, Some c') ->
  total_size c' = total_size c /\ total_entries c' = total_entries c.
Proof.
  unfold arm2x86_pcache_lookup. cbv zeta. destruct arm as [arm|], outputs; try by intros [= _ _ <-].
  destruct (negb _); [by intros [= _ _ <-]|]. destruct (dir c !! _) as [f|]; [|by intros [= _ _ <-]].
  destruct (read_header _) as [[h rest]|]; [|by intros [= _ _ <-]].
  do 2 (destruct (negb _); [by intros [= _ _ <-]|] || (destruct (_ && _); [by intros [= _ _ <-]|])).
  do 2 (destruct (negb _); [by intros [= _ _ <-]|]). destruct (_ <? _); by intros [= _ _ <-].
Qed.

Lemma store_accounts sys io c a arm x86 flags rc c' ds dn :
  readdir sys (dir c) ≡ₚ map_to_list (dir c) -> accounted c ds dn ->
  arm2x86_pcache_store sys io (Some c) a arm x86 flags = Some (rc, Some c') -> accounted c' ds dn.
Proof.
  intros Hrd H. unfold arm2x86_pcache_store. cbv zeta.
  destruct arm as [arm|], x86 as [x86|]; try by intros [= _ <-].
  assert (Hw : forall c0, accounted c0 ds dn ->
    (let '(rc, c1) := write_entry io (now sys) c0 a arm x86 flags in Some (rc, Some c1)) = Some (rc, Some c') ->
    accounted c' ds dn).
  { intros c0 H0. pose proof (write_entry_accounts io (now sys) c0 a arm x86 flags ds dn H0) as Hc.
    destruct (write_entry _ _ _ _ _ _ _). by intros [= _ <-]. }
  destruct (negb _); [by intros [= _ <-]|]. destruct (_ <? _); [by intros [= _ <-]|].
  destruct (_ <? _); [|by apply Hw]. destruct (auto_cleanup _); [|by intros [= _ <-]].
  destruct (arm2x86_pcache_cleanup _ _ _) as [[r c1]|] eqn:E; [|done].
  destruct (cleanup_accounts _ _ _ _ _ _ _ Hrd H E) as (c2 & -> & H2). by apply Hw.
Qed.

Lemma invalidate_accounts sys c a rc c' ds dn :
  accounted c ds dn -> arm2x86_pcache_invalidate sys (Some c) a = (rc, Some c') ->
  let kept := if unlink_ok sys (get_entry_filename a) then (0, 0) else file_drift (dir c) a in
  accounted c' (ds - kept.1) (dn - kept.2).
Proof.
  intros [Hs Hc]. unfold arm2x86_pcache_invalidate, file_drift. cbv zeta.
  destruct (dir c !! _) as [f|] eqn:E.
  2:{ intros [= _ <-]. destruct (unlink_ok _ _); cbn [fst snd]; by rewrite !Z.sub_0_r. }
  destruct (entries_less _ _ _ E (filename_is_entry a)) as [H1 H2].
  destruct (unlink_ok _ _); intros [= _ <-]; cbn [fst snd];
    (split; cbn [total_size total_entries dir set_dir set_totals];
     rewrite ?Hs, ?Hc, ?H1, ?H2; unfold u64; rewrite Zminus_mod_idemp_l; f_equal; lia).
Qed.

Lemma invalidate_all_accounts sys c rc c' ds dn :
  accounted c ds dn -> arm2x86_pcache_invalidate_all sys (Some c) = (rc, Some c') ->
  accounted c' (if opendir_ok sys then - sizes (entries_of (dir c')) else ds)
               (if opendir_ok sys then - count_of (dir c') else dn).
Proof.
  intros H. unfold arm2x86_pcache_invalidate_all. cbv zeta.
  destruct (opendir_ok sys); cbn [negb]; [|by intros [= _ <-]]. intros [= _ <-].
  split; cbn [total_size total_entries set_evictions set_totals]; by rewrite Z.add_opp_diag_r.
Qed.

Lemma remove_all_entries l d :
  (forall x f, d !! x = Some f -> is_entry_name x = true -> x ∈ l.*1) ->
  entries_of (fold_left (fun d (nf : string * file) =>
    if negb (String.prefix "." nf.1) && true then delete nf.1 d else d) l d) = [].
Proof.
  revert d. induction l as [|[n f0] l IH]; intros d H.
  - destruct (entries_of d) as [|e r] eqn:E; [exact E|]. exfalso.
    destruct (entries_in d e) as (Hn & f & Hf & _); [rewrite E; set_solver|].
    by apply H, elem_of_nil in Hf.
  - rewrite fold_left_cons. apply IH. intros x f Hx Hn. cbn [fst] in Hx. destruct (decide (x = n)) as [->|Hne].
    + unfold is_entry_name in Hn. apply andb_prop in Hn as [Hn _]. rewrite Hn in Hx. cbn in Hx. by rewrite lookup_delete_eq in Hx.
    + assert (Hd : d !! x = Some f) by (destruct (_ && _); [by rewrite lookup_delete_ne in Hx|done]).
      specialize (H x f Hd Hn). cbn in H. set_solver.
Qed.

Lemma invalidate_all_empties sys c rc c' :
  readdir sys (dir c) ≡ₚ map_to_list (dir c) -> opendir_ok sys = true -> (forall x, unlink_ok sys x = true) ->
  arm2x86_pcache_invalidate_all sys (Some c) = (rc, Some c') -> entries_of (dir c') = [].
Proof.
  intros Hrd Ho Hu. unfold arm2x86_pcache_invalidate_all. cbv zeta. rewrite Ho. cbn [negb]. intros [= _ <-].
  cbn [dir set_evictions set_totals set_dir].
  rewrite <- (remove_all_entries (readdir sys (dir c)) (dir c)).
  - apply (f_equal entries_of). generalize (readdir sys (dir c)) as l. intros l. generalize (dir c) as d0.
    induction l as [|x l IH]; intros d0; [done|]. rewrite !fold_left_cons, Hu. apply IH.
  - intros x f Hx _. rewrite Hrd. apply list_elem_of_fmap. exists (x, f). split; [done|]. by apply elem_of_map_to_list.
Qed.

Lemma rebuild_totals l c :
  let c' := fold_left (fun c e => set_totals (u64 (total_size c + e_size e)) (u64 (total_entries c + 1)) c) l c in
  u64 (total_size c) = total_size c -> u64 (total_entries c) = total_entries c ->
  dir c' = dir c /\ config c' = config c /\ total_size c' = u64 (total_size c + sizes l) /\
  total_entries c' = u64 (total_entries c + Z.of_nat (length l)).
Proof.
  cbv zeta. revert c. induction l as [|e l IH]; intros c Hs Hc.
  { cbn. by rewrite !Z.add_0_r. }
  rewrite fold_left_cons.
  destruct (IH (set_totals (u64 (total_size c + e_size e)) (u64 (total_entries c + 1)) c)) as (H1 & H2 & H3 & H4);
    [apply Zmod_mod|apply Zmod_mod|].
  rewrite H1, H2, H3, H4. cbn [dir config total_size total_entries set_totals sizes length].
  unfold u64. rewrite !Zplus_mod_idemp_l. split_and!; [done|done|f_equal; lia|f_equal; lia].
Qed.

Lemma rebuild_index_accounts sys c rc c' ds dn :
  readdir sys (dir c) ≡ₚ map_to_list (dir c) -> accounted c ds dn ->
  arm2x86_pcache_rebuild_index sys (Some c) = (rc, Some c') ->
  accounted c' (if opendir_ok sys then ds + sizes (entries_of (dir c)) else ds)
               (if opendir_ok sys then dn + count_of (dir c) else dn) /\ config c' = config c /\ dir c' = dir c.
Proof.
  intros Hrd H. unfold arm2x86_pcache_rebuild_index. destruct (opendir_ok sys); cbn [negb]; [|by intros [= _ <-]].
  intros [= _ <-]. destruct H as [Hs Hc].
  destruct (rebuild_totals (scan_entries sys (dir c)) c) as (H1 & H2 & H3 & H4);
    [rewrite Hs; apply Zmod_mod | rewrite Hc; apply Zmod_mod|].
  pose proof (scan_entries_perm sys (dir c) Hrd) as Hsc.
  split; [|done]. split; [rewrite H3, H1, Hs, (sizes_perm _ _ Hsc)|rewrite H4, H1, Hc, (Permutation_length Hsc)];
    unfold count_of, u64; rewrite Zplus_mod_idemp_l; f_equal; lia.
Qed.

Lemma create_accounts sys cfg d c :
  readdir sys d ≡ₚ map_to_list d -> arm2x86_pcache_create sys cfg d = Some c ->
  let scanned := load_on_startup (default arm2x86_pcache_config_init cfg) && opendir_ok sys in
  accounted c (if scanned then 0 else - sizes (entries_of d)) (if scanned then 0 else - count_of d).
Proof.
  intros Hrd. unfold arm2x86_pcache_create. cbv zeta. cbn [config].
  set (c0 := Build_persistent_cache _ _ _ _ _ _ _ _ _ _).
  assert (H0 : accounted c0 (- sizes (entries_of d)) (- count_of d)).
  { split; cbn [dir total_size total_entries c0]; by rewrite Z.add_opp_diag_r. }
  set (c1 := if load_on_startup _ then _ else c0).
  assert (Ha : accounted c1
    (if load_on_startup (default arm2x86_pcache_config_init cfg) && opendir_ok sys then 0 else - sizes (entries_of d))
    (if load_on_startup (default arm2x86_pcache_config_init cfg) && opendir_ok sys then 0 else - count_of d)
    /\ config c1 = config c0 /\ dir c1 = d).
  { unfold c1. destruct (load_on_startup _); [|done]. cbn [andb].
    destruct (arm2x86_pcache_rebuild_index sys (Some c0)) as [r o] eqn:E.
    assert (exists c', o = Some c') as [c' ->].
    { unfold arm2x86_pcache_rebuild_index in E. destruct (negb _); injection E as _ <-; by eexists. }
    destruct (rebuild_index_accounts sys c0 r c' _ _ Hrd H0 E) as (H1 & H2 & H3). cbn [snd default].
    split; [|done]. change (dir c0) with d in H1. destruct (opendir_ok sys); [|done].
    by rewrite !Z.add_opp_diag_l in H1. }
  destruct Ha as (Ha & _ & Hd). clearbody c1.
  set (ds := if _ && _ then 0 else - sizes _) in *. set (dn := if _ && _ then 0 else - count_of _) in *.
  assert (Hs : forall c' : persistent_cache, accounted c' ds dn -> accounted (set_last_sync (now sys) c') ds dn) by (intros ? []; by split).
  destruct (auto_cleanup _); [|intros [= <-]; by apply Hs].
  destruct (arm2x86_pcache_cleanup _ _ _) as [[r c']|] eqn:E; [|done].
  destruct (cleanup_accounts _ _ _ _ _ _ _ ltac:(by rewrite Hd) Ha E) as (c2 & -> & H).
  intros [= <-]. by apply Hs.
Qed.

(** An operating system that never fails. *)
Definition everything_unlinks : system :=
  {| readdir := map_to_list; opendir_ok := true; malloc_entries_ok := true; unlink_ok := fun _ => true; now := 1000 |}.


