(* ===== verification/CodeHash.v ===== *)
(** * The table of translations by content: [modules/arm2x86_easy.c], second part

    A 64-bit hash of the guest code and a table of 4096 chains of the translations made,
    the newest first.  Only the hash of the guest code is kept, not the code.  The table
    is modelled as a list of lists; it has no mutex. *)
From S2P Require Import Prelude.
From Stdlib Require Import ZArith Lia Bool.
From stdpp Require Import base numbers list.
Open Scope Z_scope.
Open Scope c_scope.

(** ** The hash *)

Definition hash_step (h byte : Z) : Z := u64 ((h ^^^ byte) * 0xbf58476d1ce4e5b9).
Definition hash_finish (h : Z) : Z :=
  let h := h ^^^ (h >>> 33) in
  let h := u64 (h * 0xff51afd7ed558ccd) in
  let h := h ^^^ (h >>> 33) in
  let h := u64 (h * 0xc4ceb9fe1a85ec53) in
  h ^^^ (h >>> 33).
Definition arm2x86_code_hash (data : list Z) : Z := hash_finish (fold_left hash_step data 0x9e3779b97f4a7c15).

(** ** The table *)

Record code_hash_entry := { entry_hash : Z; entry_code : Z; entry_size : Z; ref_count : Z }.

Definition ARM2X86_CODE_HASH_TABLE_SIZE := 4096.

Abbreviation code_hash_table := (option (list (list code_hash_entry))).

(** [calloc_ok]: whether the table is allocated. *)
Definition arm2x86_code_hash_init (calloc_ok : bool) : code_hash_table :=
  if calloc_ok then Some (replicate (Z.to_nat ARM2X86_CODE_HASH_TABLE_SIZE) []) else None.

(** The code of an entry that is given back: address and size. *)
Definition unmap_entry (e : code_hash_entry) : list (Z * Z) :=
  if c_true (entry_code e) then [(entry_code e, entry_size e)] else [].

Definition arm2x86_code_hash_destroy (t : code_hash_table) : list (Z * Z) * code_hash_table :=
  match t with
  | None => ([], None)
  | Some l => (flat_map unmap_entry (concat l), None)
  end.

Definition chain_index (hash : Z) : nat := Z.to_nat (hash &&& (ARM2X86_CODE_HASH_TABLE_SIZE - 1)).
Definition chain_of (l : list (list code_hash_entry)) (hash : Z) : list code_hash_entry := nth (chain_index hash) l [].

Definition arm2x86_code_hash_lookup (t : code_hash_table) (hash : Z) : option code_hash_entry :=
  match t with
  | None => None
  | Some l => List.find (fun e => entry_hash e =? hash) (chain_of l hash)
  end.

Definition arm2x86_code_hash_insert (malloc_ok : bool) (hash code size : Z) (t : code_hash_table) : code_hash_table :=
  match t with
  | None => None
  | Some l =>
    if malloc_ok then
      Some (<[chain_index hash := {| entry_hash := hash; entry_code := code; entry_size := size; ref_count := 1 |}
                                  :: chain_of l hash]> l)
    else Some l
  end.

(** The chain without the first entry of the hash, and what is given back. *)
Fixpoint release_first (hash : Z) (l : list code_hash_entry) : list (Z * Z) * list code_hash_entry :=
  match l with
  | [] => ([], [])
  | e :: l =>
    if entry_hash e =? hash then (unmap_entry e, l)
    else let '(u, l) := release_first hash l in (u, e :: l)
  end.

Definition arm2x86_code_hash_release (hash : Z) (t : code_hash_table) : list (Z * Z) * code_hash_table :=
  match t with
  | None => ([], None)
  | Some l =>
    let '(u, c) := release_first hash (chain_of l hash) in (u, Some (<[chain_index hash := c]> l))
  end.

(** ** The hash tells codes apart that differ in one byte *)

Abbreviation word64 h := (0 <= h < 2 ^ 64).

(** An odd number has an inverse modulo 2^64. *)
Lemma mul_cancel m inv a b : (m * inv) mod 2 ^ 64 = 1 -> word64 a -> word64 b -> u64 (a * m) = u64 (b * m) -> a = b.
Proof.
  intros Hm Ha Hb E.
  assert (H : forall x, word64 x -> (u64 (x * m) * inv) mod 2 ^ 64 = x).
  { intros x Hx. unfold u64. rewrite Z.mul_mod_idemp_l by discriminate.
    rewrite <- Z.mul_assoc, <- Z.mul_mod_idemp_r, Hm, Z.mul_1_r by discriminate. apply Z.mod_small. exact Hx. }
  rewrite <- (H a Ha), <- (H b Hb), E. reflexivity.
Qed.

Lemma xorshift_twice x : word64 x -> (x ^^^ (x >>> 33)) ^^^ ((x ^^^ (x >>> 33)) >>> 33) = x.
Proof.
  intros Hx. rewrite Z.shiftr_lxor, Z.shiftr_shiftr by lia.
  replace (x >>> (33 + 33)) with 0 by (rewrite Z.shiftr_div_pow2 by lia; symmetry; apply Z.div_small; lia).
  rewrite Z.lxor_0_r, Z.lxor_assoc, Z.lxor_nilpotent, Z.lxor_0_r. reflexivity.
Qed.

Lemma xorshift_cancel a b : word64 a -> word64 b -> a ^^^ (a >>> 33) = b ^^^ (b >>> 33) -> a = b.
Proof. intros Ha Hb E. rewrite <- (xorshift_twice a Ha), <- (xorshift_twice b Hb), E. reflexivity. Qed.


Lemma lxor_word64 a b : word64 a -> word64 b -> word64 (a ^^^ b).
Proof.
  intros Ha Hb. split; [apply Z.lxor_nonneg; lia|].
  destruct (Z.eq_dec (a ^^^ b) 0) as [->|H]; [lia|].
  assert (0 <= a ^^^ b) by (apply Z.lxor_nonneg; lia).
  apply Z.log2_lt_pow2; [lia|]. eapply Z.le_lt_trans; [apply Z.log2_lxor; lia|].
  apply Z.max_lub_lt; (destruct (Z.eq_dec a 0) as [->|]; destruct (Z.eq_dec b 0) as [->|]; cbn; try lia);
    try (apply Z.log2_lt_pow2; lia).
Qed.

Lemma xorshift_word64 a : word64 a -> word64 (a ^^^ (a >>> 33)).
Proof.
  intros Ha. apply lxor_word64; [exact Ha|]. rewrite Z.shiftr_div_pow2 by lia.
  split; [apply Z.div_pos; lia|]. apply Z.div_lt_upper_bound; lia.
Qed.

Lemma hash_finish_cancel a b : word64 a -> word64 b -> hash_finish a = hash_finish b -> a = b.
Proof.
  intros Ha Hb. unfold hash_finish. cbv zeta. intros E.
  apply xorshift_cancel in E; try apply u64_range.
  apply (mul_cancel _ 0x9cb4b2f8129337db) in E; [|vm_compute; reflexivity|apply xorshift_word64, u64_range..].
  apply xorshift_cancel in E; try apply u64_range.
  apply (mul_cancel _ 0x4f74430c22a54005) in E; [|vm_compute; reflexivity|apply xorshift_word64; assumption..].
  apply xorshift_cancel in E; assumption.
Qed.

Lemma hash_step_cancel a b x y : word64 a -> word64 b -> word64 x -> word64 y ->
  hash_step a x = hash_step b y -> a ^^^ x = b ^^^ y.
Proof.
  intros Ha Hb Hx Hy E. apply (mul_cancel _ 0x96de1b173f119089) in E;
    [exact E|vm_compute; reflexivity|apply lxor_word64; assumption..].
Qed.

Lemma lxor_cancel_r a b x : a ^^^ x = b ^^^ x -> a = b.
Proof.
  intros E. rewrite <- (Z.lxor_0_r a), <- (Z.lxor_0_r b), <- (Z.lxor_nilpotent x), <- !Z.lxor_assoc, E. reflexivity.
Qed.
Lemma lxor_cancel_l a x y : a ^^^ x = a ^^^ y -> x = y.
Proof. rewrite !(Z.lxor_comm a). apply lxor_cancel_r. Qed.

Lemma byte_word64 b : 0 <= b < 256 -> word64 b.
Proof. lia. Qed.

Lemma hash_steps_word64 data : forall h, word64 h -> word64 (fold_left hash_step data h).
Proof. induction data as [|x data IH]; intros h Hh; cbn [fold_left]; [exact Hh|]. apply IH, u64_range. Qed.

Lemma hash_steps_cancel data : bytes data -> forall a b, word64 a -> word64 b ->
  fold_left hash_step data a = fold_left hash_step data b -> a = b.
Proof.
  induction 1 as [|x data Hx _ IH]; intros a b Ha Hb; cbn [fold_left]; [tauto|]. intros E.
  apply IH in E; [|apply u64_range..]. apply hash_step_cancel in E; auto using byte_word64.
  exact (lxor_cancel_r a b x E).
Qed.

Lemma hash_start_word64 data : word64 (fold_left hash_step data 0x9e3779b97f4a7c15).
Proof. apply hash_steps_word64. lia. Qed.

(** The instruction MOVZ, which loads a constant into a register, and the programs that
    load the four 16-bit parts of a number into X0 to X3. *)
Definition movz (rd imm : Z) : list Z := le_bytes 4 (0xd2800000 ||| (imm <<< 5) ||| rd).
Definition load_four (n : Z) : list Z :=
  flat_map (fun k => movz k ((n >>> (16 * k)) &&& 0xffff)) [0; 1; 2; 3].

(** What the hash tells apart.  Codes that differ in one byte have different hashes, and
    whether codes with the same end have the same hash depends on what is before it only.
    Two different pieces of code of the same length can have the same hash: so have two
    programs of four MOVZ instructions, which load other constants. *)
Theorem code_hash_distinguishes p q s x y :
  bytes p -> bytes q -> bytes s -> 0 <= x < 256 -> 0 <= y < 256 ->
  (arm2x86_code_hash (p ++ x :: s) = arm2x86_code_hash (p ++ y :: s) -> x = y) /\
  (arm2x86_code_hash (p ++ s) = arm2x86_code_hash (q ++ s) <-> arm2x86_code_hash p = arm2x86_code_hash q) /\
  arm2x86_code_hash (load_four 0xe1816c362cc05c4b) = arm2x86_code_hash (load_four 0x106a6bcd8769ea5c) /\
  load_four 0xe1816c362cc05c4b <> load_four 0x106a6bcd8769ea5c.
Proof.
  intros Hp Hq Hs Hx Hy. unfold arm2x86_code_hash. rewrite !fold_left_app. cbn [fold_left].
  pose proof (hash_start_word64 p) as P. pose proof (hash_start_word64 q) as Q.
  pose proof (fun h => hash_steps_word64 s h) as S.
  split_and!.
  - intros E. apply hash_finish_cancel in E; [|apply S, u64_range..].
    apply hash_steps_cancel in E; [|exact Hs|apply u64_range..].
    apply hash_step_cancel in E; auto using byte_word64. exact (lxor_cancel_l _ _ _ E).
  - split; intros E.
    + apply hash_finish_cancel in E; auto. apply hash_steps_cancel in E; auto. rewrite E. reflexivity.
    + apply hash_finish_cancel in E; auto. rewrite E. reflexivity.
  - vm_compute. reflexivity.
  - vm_compute. discriminate.
Qed.

Lemma code_hash_distinguishes_witness :
  arm2x86_code_hash ([1; 2] ++ 3 :: [4]) = arm2x86_code_hash ([1; 2] ++ 3 :: [4]) /\
  (arm2x86_code_hash ([1; 2] ++ 3 :: [4]) = arm2x86_code_hash ([1; 2] ++ 5 :: [4]) -> 3 = 5).
Proof.
  destruct (code_hash_distinguishes [1; 2] [1; 2] [4] 3 5) as (H & _);
    [repeat constructor; lia..|lia|lia|]. split; [reflexivity | exact H].
Defined.

(** ** The table is a stack of translations for every hash *)

Definition translation_of (e : code_hash_entry) : Z * Z := (entry_code e, entry_size e).
Definition with_hash (h : Z) (l : list code_hash_entry) : list code_hash_entry :=
  List.filter (fun e => entry_hash e =? h) l.

(** [m]: the stack of every hash. *)
Record represents (l : list (list code_hash_entry)) (m : Z -> list (Z * Z)) : Prop := {
  table_size : length l = 4096%nat;
  table_stack : forall h, map translation_of (with_hash h (chain_of l h)) = m h;
  table_entries : forall k e, In e (nth k l []) -> chain_index (entry_hash e) = k }.

Lemma chain_index_below h : (chain_index h < 4096)%nat.
Proof.
  unfold chain_index. change (ARM2X86_CODE_HASH_TABLE_SIZE - 1) with 4095.
  pose proof (land_range h 4095 ltac:(lia)). lia.
Qed.

Lemma find_with_hash h l : List.find (fun e => entry_hash e =? h) l = head (with_hash h l).
Proof. unfold with_hash. induction l as [|e l IH]; [reflexivity|]. cbn. destruct (_ =? h); [reflexivity | exact IH]. Qed.

Lemma chain_of_set l h c k : length l = 4096%nat ->
  chain_of (<[chain_index h := c]> l) k = if decide (chain_index k = chain_index h) then c else chain_of l k.
Proof. intros Hl. unfold chain_of. apply nth_insert. rewrite Hl. apply chain_index_below. Qed.

(** Putting another chain in the place of that of [h]. *)
Lemma represents_set l m h c : represents l m ->
  (forall e, In e c -> chain_index (entry_hash e) = chain_index h) ->
  (forall k, k <> h -> with_hash k c = with_hash k (chain_of l h)) ->
  represents (<[chain_index h := c]> l) (fun k => if k =? h then map translation_of (with_hash h c) else m k).
Proof.
  intros [Hl Hm He] Hc Hk. split.
  - rewrite length_insert. exact Hl.
  - intros k. rewrite chain_of_set by exact Hl. destruct (k =? h) eqn:E.
    + apply Z.eqb_eq in E as ->. rewrite decide_True by reflexivity. reflexivity.
    + apply Z.eqb_neq in E. rewrite <- Hm. destruct (decide _) as [Ei|]; [|reflexivity].
      rewrite Hk by exact E. unfold chain_of. rewrite Ei. reflexivity.
  - intros k e. rewrite nth_insert by (rewrite Hl; apply chain_index_below).
    destruct (decide _) as [->|]; [apply Hc | apply He].
Qed.

Lemma release_first_with_hash h l :
  with_hash h (snd (release_first h l)) = tail (with_hash h l) /\
  (forall k, k <> h -> with_hash k (snd (release_first h l)) = with_hash k l) /\
  (forall e, In e (snd (release_first h l)) -> In e l) /\
  fst (release_first h l) = flat_map unmap_entry (take 1 (with_hash h l)).
Proof.
  unfold with_hash. induction l as [|e l IH]; cbn; [tauto|].
  destruct (entry_hash e =? h) eqn:E; cbn [fst snd].
  - cbn. rewrite app_nil_r. split_and!; [reflexivity| |tauto|reflexivity].
    intros k Hk. apply Z.eqb_eq in E. rewrite E. destruct (h =? k) eqn:E2; [|reflexivity].
    apply Z.eqb_eq in E2. congruence.
  - destruct (release_first h l) as [u r]. cbn [fst snd] in *. destruct IH as (I1 & I2 & I3 & I4).
    cbn [List.filter]. rewrite E. split_and!; [exact I1| | |exact I4].
    + intros k Hk. rewrite (I2 k Hk). reflexivity.
    + intros x [->|Hx]; [left; reflexivity | right; auto].
Qed.

(** Operations on a table. *)
Inductive table_op := Insert (malloc_ok : bool) (hash code size : Z) | Release (hash : Z).

(** The state: what was given back so far, and the table. *)
Definition run_op (s : list (Z * Z) * code_hash_table) (op : table_op) : list (Z * Z) * code_hash_table :=
  match op with
  | Insert ok h c n => (fst s, arm2x86_code_hash_insert ok h c n (snd s))
  | Release h => let '(u, t) := arm2x86_code_hash_release h (snd s) in (fst s ++ u, t)
  end.
Definition run_ops (ops : list table_op) : list (Z * Z) * code_hash_table :=
  fold_left run_op ops ([], arm2x86_code_hash_init true).

(** The specification: a stack for every hash. *)
Definition stack_op (m : Z -> list (Z * Z)) (op : table_op) : Z -> list (Z * Z) :=
  match op with
  | Insert true h c n => fun k => if k =? h then (c, n) :: m k else m k
  | Insert false _ _ _ => m
  | Release h => fun k => if k =? h then tail (m k) else m k
  end.
Definition stacks (ops : list table_op) : Z -> list (Z * Z) := fold_left stack_op ops (fun _ => []).

(** The code that was put into the table. *)
Definition inserted (op : table_op) : list (Z * Z) :=
  match op with Insert true _ c n => if c_true c then [(c, n)] else [] | _ => [] end.

Lemma unmap_update (l : list (list code_hash_entry)) i c : (i < length l)%nat ->
  flat_map unmap_entry (concat (<[i := c]> l)) ++ flat_map unmap_entry (nth i l []) ≡ₚ
  flat_map unmap_entry (concat l) ++ flat_map unmap_entry c.
Proof.
  revert i. induction l as [|x l IH]; intros [|i] H; cbn in *; try lia; rewrite !flat_map_app.
  - solve_Permutation.
  - specialize (IH i ltac:(lia)). rewrite <- !(assoc_L (++)), IH. reflexivity.
Qed.

Lemma unmap_release h l :
  fst (release_first h l) ++ flat_map unmap_entry (snd (release_first h l)) ≡ₚ flat_map unmap_entry l.
Proof.
  induction l as [|e l IH]; cbn; [reflexivity|]. destruct (_ =? h); [reflexivity|].
  destruct (release_first h l) as [u r]. cbn [fst snd flat_map] in *. rewrite <- IH. solve_Permutation.
Qed.

Record table_run (s : list (Z * Z) * code_hash_table) (m : Z -> list (Z * Z)) (put : list (Z * Z)) : Prop := {
  run_table : exists l, snd s = Some l /\ represents l m /\
    fst s ++ flat_map unmap_entry (concat l) ≡ₚ put }.

Lemma represents_ext l m m' : (forall h, m h = m' h) -> represents l m -> represents l m'.
Proof. intros E [H1 H2 H3]. split; [exact H1| |exact H3]. intros h. rewrite H2. apply E. Qed.

Lemma run_op_ok s m put op : table_run s m put -> table_run (run_op s op) (stack_op m op) (put ++ inserted op).
Proof.
  intros [(l & Es & Hr & Hp)]. destruct s as [u t]. cbn [fst snd] in *. subst t.
  pose proof (table_size _ _ Hr) as Hl. destruct op as [ok h c n|h]; cbn [run_op fst snd].
  - destruct ok; cbn [arm2x86_code_hash_insert stack_op inserted];
      [|split; exists l; rewrite app_nil_r; repeat split; assumption || apply Hr].
    set (e := {| entry_hash := h; entry_code := c; entry_size := n; ref_count := 1 |}).
    split. eexists. split; [reflexivity|]. split.
    + eapply represents_ext; [|apply (represents_set l m h (e :: chain_of l h) Hr)].
      * intros k. cbn beta. destruct (k =? h) eqn:E; [|reflexivity]. apply Z.eqb_eq in E as ->.
        unfold with_hash. cbn [List.filter]. change (entry_hash e) with h. rewrite Z.eqb_refl.
        rewrite <- (table_stack _ _ Hr h). reflexivity.
      * intros x [<-|Hx]; [reflexivity | exact (table_entries _ _ Hr _ _ Hx)].
      * intros k Hk. unfold with_hash. cbn [List.filter]. change (entry_hash e) with h.
        rewrite (proj2 (Z.eqb_neq h k)) by congruence. reflexivity.
    + pose proof (unmap_update l (chain_index h) (e :: chain_of l h)
        ltac:(rewrite Hl; apply chain_index_below)) as U. fold (chain_of l h) in U. cbn [flat_map] in U.
      change (unmap_entry e) with (if c_true c then [(c, n)] else []) in U.
      set (x := if c_true c then _ else _) in *. rewrite <- Hp. clearbody x.
      apply (Permutation_app_inv_r (flat_map unmap_entry (chain_of l h))). rewrite <- !(assoc_L (++)), U. solve_Permutation.
  - cbn [arm2x86_code_hash_release stack_op inserted]. pose proof (release_first_with_hash h (chain_of l h)) as (R1 & R2 & R3 & _).
    pose proof (unmap_release h (chain_of l h)) as U2.
    destruct (release_first h (chain_of l h)) as [v c]. cbn [fst snd] in *.
    split. eexists. split; [reflexivity|]. split.
    + eapply represents_ext; [|apply (represents_set l m h c Hr)].
      * intros k. cbn beta. destruct (k =? h) eqn:E; [|reflexivity]. apply Z.eqb_eq in E as ->.
        rewrite R1, <- (table_stack _ _ Hr h). destruct (with_hash h (chain_of l h)); reflexivity.
      * intros x Hx. exact (table_entries _ _ Hr _ _ (R3 x Hx)).
      * exact R2.
    + pose proof (unmap_update l (chain_index h) c ltac:(rewrite Hl; apply chain_index_below)) as U.
      fold (chain_of l h) in U. rewrite app_nil_r, <- Hp. cbn [fst].
      apply (Permutation_app_inv_r (flat_map unmap_entry (chain_of l h))).
      rewrite <- !(assoc_L (++)), U, <- U2. solve_Permutation.
Qed.

Lemma nth_replicate_all {A} n k : nth k (replicate n ([] : list A)) [] = [].
Proof. revert k. induction n as [|n IH]; intros [|k]; cbn; auto. Qed.
Lemma concat_replicate_nil {A} n : concat (replicate n ([] : list A)) = [].
Proof. induction n as [|n IH]; cbn; auto. Qed.

Lemma init_run : table_run ([], arm2x86_code_hash_init true) (fun _ => []) [].
Proof.
  split. eexists. split; [reflexivity|]. split.
  - split.
    + apply length_replicate.
    + intros h. unfold chain_of. rewrite nth_replicate_all. reflexivity.
    + intros k e. rewrite nth_replicate_all. intros [].
  - rewrite concat_replicate_nil. reflexivity.
Qed.

Lemma fold_ops_ok ops : forall s m put, table_run s m put ->
  table_run (fold_left run_op ops s) (fold_left stack_op ops m) (put ++ flat_map inserted ops).
Proof.
  induction ops as [|op ops IH]; intros s m put H; cbn [fold_left flat_map].
  - rewrite app_nil_r. exact H.
  - rewrite (assoc_L (++)). apply IH, run_op_ok, H.
Qed.
Lemma run_ops_ok ops : table_run (run_ops ops) (stacks ops) (flat_map inserted ops).
Proof. exact (fold_ops_ok ops _ _ [] init_run). Qed.

(** C31: The table implements a stack of translations for every hash: after any insertions and
    releases, a lookup gives the newest translation inserted under the hash that was not
    released since, whatever other hashes share its chain; an insertion without memory
    changes nothing.  When the table is destroyed every piece of code put into it has
    been given back exactly as often as it was inserted.  Without a table (its allocation
    failed) every operation does nothing. *)
Theorem code_table_refines ops :
  let '(released, t) := run_ops ops in
  (forall h, translation_of <$> arm2x86_code_hash_lookup t h = head (stacks ops h)) /\
  released ++ fst (arm2x86_code_hash_destroy t) ≡ₚ flat_map inserted ops /\
  snd (arm2x86_code_hash_destroy t) = None /\
  (forall ok h c n, arm2x86_code_hash_lookup None h = None /\ arm2x86_code_hash_insert ok h c n None = None /\
     arm2x86_code_hash_release h None = ([], None)).
Proof.
  destruct (run_ops_ok ops) as [(l & Et & Hr & Hp)]. destruct (run_ops ops) as [u t]. cbn [fst snd] in *. subst t.
  split_and!; [|exact Hp|reflexivity|repeat split].
  intros h. cbn [arm2x86_code_hash_lookup]. rewrite find_with_hash, <- (table_stack _ _ Hr h).
  destruct (with_hash h (chain_of l h)); reflexivity.
Qed.
