(* ===== verification/Easy.v ===== *)
(** * The easy interface: [modules/arm2x86_easy.c], third part

    An instance puts the parts together: the translation cache, the cache in files, the
    table of translations by content, the memory pool and the ARM64 translator.  Its
    operations are computations over the instance, in which the memory of the process
    (the [code_mem] of the cache's world, which holds the guest code too) and the write
    protection of its pages are part; a computation has no result when the program
    writes to a protected page, frees something twice or follows a bad pointer.  What the
    system answers to a call is a record of functions, [services].  The callbacks, the
    debug prints and the export of the counters are left out. *)
From S2P Require Import Prelude Decode64 RegAlloc Translate64 Handlers64 Block64 Dbt Core Pool TCache PCache CodeHash.
From Stdlib Require Import ZArith Lia Bool String.
From stdpp Require Import base numbers list gmap strings.
Open Scope Z_scope.
Open Scope c_scope.

(** ** The configuration *)

Definition ARM2X86_ARCH_ARM64 : Arm2x86Mode := ARM2X86_MODE_ARM64.
Definition ARM2X86_ARCH_X86_64 := 99.

Record arm2x86_easy_config := {
  source_arch : Arm2x86Mode; target_arch : Z;
  cache_size_mb : Z; hash_buckets : Z; hot_threshold : Z;
  enable_perf : bool; enable_trace : bool; debug_flags : Z;
  enable_neon_translation : bool; enable_auto_cache_resize : bool; enable_code_layout_opt : bool;
  enable_persistent_cache : bool; persistent_cache_size_mb : Z;
  enable_mempool : bool; mempool_initial_size : Z; mempool_max_size : Z; mempool_chunk_size : Z }.

Definition arm2x86_easy_config_default : arm2x86_easy_config :=
  {| source_arch := ARM2X86_ARCH_ARM64; target_arch := ARM2X86_ARCH_X86_64;
     cache_size_mb := 2; hash_buckets := 4096; hot_threshold := 3;
     enable_perf := true; enable_trace := false; debug_flags := 0;
     enable_neon_translation := true; enable_auto_cache_resize := true; enable_code_layout_opt := false;
     enable_persistent_cache := true; persistent_cache_size_mb := 100;
     enable_mempool := false; mempool_initial_size := 0; mempool_max_size := 0; mempool_chunk_size := 0 |}.

(** ** Instances *)

(** [readonly]: the protected pages, by number; [unmapped]: the mappings given back so far. *)
Record arm2x86_instance := {
  tc : world; cache_ptr : option unit; pcache : option persistent_cache; content_table : code_hash_table;
  pool_of : option mempool; reg_home : option Z; easy_config : arm2x86_easy_config;
  perf_enabled : bool; initialized : bool; last_error : Z;
  readonly : Z -> bool; given_back : list (Z * Z) }.

Definition set_tc (w : world) (i : arm2x86_instance) : arm2x86_instance :=
  {| tc := w; cache_ptr := cache_ptr i; pcache := pcache i; content_table := content_table i; pool_of := pool_of i;
     reg_home := reg_home i; easy_config := easy_config i; perf_enabled := perf_enabled i;
     initialized := initialized i; last_error := last_error i; readonly := readonly i; given_back := given_back i |}.
Definition set_pcache (p : option persistent_cache) (i : arm2x86_instance) : arm2x86_instance :=
  {| tc := tc i; cache_ptr := cache_ptr i; pcache := p; content_table := content_table i; pool_of := pool_of i;
     reg_home := reg_home i; easy_config := easy_config i; perf_enabled := perf_enabled i;
     initialized := initialized i; last_error := last_error i; readonly := readonly i; given_back := given_back i |}.
Definition set_table_of (t : code_hash_table) (i : arm2x86_instance) : arm2x86_instance :=
  {| tc := tc i; cache_ptr := cache_ptr i; pcache := pcache i; content_table := t; pool_of := pool_of i;
     reg_home := reg_home i; easy_config := easy_config i; perf_enabled := perf_enabled i;
     initialized := initialized i; last_error := last_error i; readonly := readonly i; given_back := given_back i |}.
Definition set_pool (p : option mempool) (i : arm2x86_instance) : arm2x86_instance :=
  {| tc := tc i; cache_ptr := cache_ptr i; pcache := pcache i; content_table := content_table i; pool_of := p;
     reg_home := reg_home i; easy_config := easy_config i; perf_enabled := perf_enabled i;
     initialized := initialized i; last_error := last_error i; readonly := readonly i; given_back := given_back i |}.
Definition set_last_error (e : Z) (i : arm2x86_instance) : arm2x86_instance :=
  {| tc := tc i; cache_ptr := cache_ptr i; pcache := pcache i; content_table := content_table i; pool_of := pool_of i;
     reg_home := reg_home i; easy_config := easy_config i; perf_enabled := perf_enabled i;
     initialized := initialized i; last_error := e; readonly := readonly i; given_back := given_back i |}.
Definition set_pages (r : Z -> bool) (g : list (Z * Z)) (i : arm2x86_instance) : arm2x86_instance :=
  {| tc := tc i; cache_ptr := cache_ptr i; pcache := pcache i; content_table := content_table i; pool_of := pool_of i;
     reg_home := reg_home i; easy_config := easy_config i; perf_enabled := perf_enabled i;
     initialized := initialized i; last_error := last_error i; readonly := r; given_back := g |}.
Definition set_mem (m : Z -> Z) (i : arm2x86_instance) : arm2x86_instance :=
  set_tc (set_jumps (jump_targets (tc i)) m (tc i)) i.
Definition mem_of (i : arm2x86_instance) : Z -> Z := code_mem (tc i).

(** ** Computations over an instance *)

Definition Easy (A : Type) : Type := arm2x86_instance -> option (A * arm2x86_instance).
#[export] Instance Easy_ret : MRet Easy := fun A a i => Some (a, i).
#[export] Instance Easy_bind : MBind Easy :=
  fun A B f m i => match m i with Some (a, i') => f a i' | None => None end.

Definition ask {A} (f : arm2x86_instance -> A) : Easy A := fun i => Some (f i, i).
Definition change (f : arm2x86_instance -> arm2x86_instance) : Easy unit := fun i => Some (tt, f i).
Definition crash {A} : Easy A := fun _ => None.
Definition on_cache {A} (m : M A) : Easy A :=
  fun i => match m (tc i) with Some (a, w) => Some (a, set_tc w i) | None => None end.
Definition fails (code : Z) : Easy Z := change (set_last_error code) ;; mret 0.

Definition mem_bytes (m : Z -> Z) (p n : Z) : list Z := map (fun k => m (p + k)) (seqZ 0 n).

Section Pages.
Context (page_size : Z).
(** The numbers of the pages of a range. *)
Definition pages_of (p n : Z) : list Z :=
  if 0 <? n then seqZ (p / page_size) ((p + n - 1) / page_size - p / page_size + 1) else [].
Definition protect_pages (b : bool) (p n : Z) (r : Z -> bool) : Z -> bool :=
  fun k => if existsb (Z.eqb k) (pages_of p n) then b else r k.
Definition writable (r : Z -> bool) (p n : Z) : bool := forallb (fun k => negb (r k)) (pages_of p n).

Definition map_pages (p n : Z) : Easy unit := change (fun i => set_pages (protect_pages false p n (readonly i)) (given_back i) i).
Definition unmap (p n : Z) : Easy unit :=
  change (fun i => set_pages (protect_pages false p n (readonly i)) ((p, n) :: given_back i) i).
Definition make_readonly (p n : Z) : Easy unit := change (fun i => set_pages (protect_pages true p n (readonly i)) (given_back i) i).
(** Writing; no result on a protected page. *)
Definition write_bytes (p : Z) (bs : list Z) : Easy unit :=
  fun i => if writable (readonly i) p (Z.of_nat (length bs)) then Some (tt, set_mem (store_bytes (mem_of i) p bs) i) else None.
Definition clear_bytes (p n : Z) : Easy unit :=
  fun i => if writable (readonly i) p n
           then Some (tt, set_mem (fun a => if (p <=? a) && (a <? p + n) then 0 else mem_of i a) i) else None.
End Pages.

(** ** What the system contributes to one call *)

(** [mmap_copy] gives memory for a copy of stored code, [mmap_code] for a translation;
    [calloc_entry] and [malloc_hash] are the allocations of the two caches. *)
Record services := {
  calloc_entry : world -> ptr; malloc_hash : bool; malloc_copy : Z -> bool;
  files : PCache.system; store_io : io_result;
  mmap_copy : Z -> option Z; mmap_code : Z -> option Z; pool_memory : memory_system;
  mprotect_ok : Z -> Z -> bool; home_ok : bool }.

Section Translate.
Context `{host : Host} (g_simd_enabled : Z) (uninitialized : Z -> DecodedInstruction).
Context (page_size dispatcher_address : Z).

(** The first level: the translation cache. *)
Definition cached_code (addr : Z) : Easy (option Z) :=
  cp ← ask cache_ptr;
  match cp with
  | None => mret None
  | Some _ =>
    entry ← on_cache (arm2x86_tcache_lookup cp addr);
    match entry with
    | Some _ => code ← on_cache (arm2x86_tcache_get_code entry); mret (Some code)
    | None => mret None
    end
  end.

Definition cache_insert (s : services) (owned mmap : bool) (addr code size : Z) : Easy unit :=
  cp ← ask cache_ptr;
  match cp with
  | None => mret tt
  | Some _ => on_cache (arm2x86_tcache_insert_ex dispatcher_address (calloc_entry s) cp addr code size owned mmap) ;; mret tt
  end.

(** Looking code up in the files: what [arm2x86_pcache_lookup] returns, if it is OK. *)
Definition stored_code (s : services) (addr : Z) (arm_code : list Z) : Easy (option (list Z)) :=
  pc ← ask pcache;
  match pc with
  | None => mret None
  | Some c =>
    let '(ret, code, pc) := arm2x86_pcache_lookup (malloc_copy s) (now (files s)) (Some c) addr (Some arm_code) true 0 in
    change (set_pcache pc) ;; mret (if ret =? ARM2X86_PCACHE_OK then code else None)
  end.

(** The second level: a copy of the stored code in new memory. *)
Definition persistent_code (s : services) (addr : Z) (arm_code : list Z) : Easy (option Z) :=
  code ← stored_code s addr arm_code;
  match code with
  | None => mret None
  | Some bs =>
    match mmap_copy s (Z.of_nat (length bs)) with
    | Some p =>
      map_pages page_size p (Z.of_nat (length bs)) ;;
      write_bytes page_size p bs ;;
      cache_insert s false false addr p (Z.of_nat (length bs)) ;; mret (Some p)
    | None => mret None
    end
  end.

(** Memory for a translation: from the pool, if there is one, or from the system. *)
Definition allocate_code (s : services) (est : Z) : Easy (option Z) :=
  pool ← ask pool_of;
  let from_system := match mmap_code s est with Some p => map_pages page_size p est ;; mret (Some p) | None => mret None end in
  match pool with
  | Some _ =>
    let '(p, pool) := arm2x86_mempool_alloc (pool_memory s) pool est in
    change (set_pool pool) ;;
    match p with Some p => mret (Some p) | None => from_system end
  | None => from_system
  end.

(** Memory of the pool is not given back. *)
Definition release_memory (p est : Z) : Easy unit :=
  pool ← ask pool_of; match pool with Some _ => mret tt | None => unmap page_size p est end.

(** Translating into the memory and protecting it: the size, or [None] after a failure. *)
Definition translate_into (s : services) (refuse_empty : bool) (arm_code code_size p est : Z) : Easy (option Z) :=
  clear_bytes page_size p est ;;
  i ← ask id;
  let '(ret, r) := arm2x86_convert_block_ex g_simd_enabled uninitialized (Some tt) (mem_of i) arm_code code_size
                     true true (reg_home i) true in
  match r with Some (out, _) => write_bytes page_size p out | None => mret tt end ;;
  let x86_size := match r with Some (_, n) => n | None => 0 end in
  if negb (ret =? ARM2X86_OK) || (refuse_empty && (x86_size =? 0)) then release_memory p est ;; mret None
  else
    let aligned_addr := p &&& Z.lnot (page_size - 1) in
    let prot_size := page_round page_size (x86_size + (p - aligned_addr)) in
    let prot_size := if prot_size >? est then est else prot_size in
    if mprotect_ok s aligned_addr prot_size then make_readonly page_size aligned_addr prot_size ;; mret (Some x86_size)
    else release_memory p est ;; mret None.

(** Storing the translation in the files. *)
Definition store_code (s : services) (addr arm_code code_size p x86_size : Z) : Easy unit :=
  i ← ask id;
  match pcache i with
  | None => mret tt
  | Some c =>
    match arm2x86_pcache_store (files s) (store_io s) (Some c) addr (Some (mem_bytes (mem_of i) arm_code code_size))
            (Some (mem_bytes (mem_of i) p x86_size)) 0 with
    | Some (_, pc) => change (set_pcache pc)
    | None => crash
    end
  end.

Definition content_insert (s : services) (hash p size : Z) : Easy unit :=
  change (fun i => set_table_of (arm2x86_code_hash_insert (malloc_hash s) hash p size (content_table i)) i).

(** The code, or 0. *)
Definition arm2x86_translate_easy (s : services) (arm_code code_size : Z) : Easy Z :=
  ok ← ask initialized;
  if negb ok then fails ARM2X86_ERR_NOT_INITIALIZED
  else if (arm_code =? 0) || (code_size =? 0) then fails ARM2X86_ERR_INVALID_ARGUMENT
  else
    let addr := arm_code in
    code ← cached_code addr;
    match code with Some p => mret p | None =>
    i ← ask id;
    code ← persistent_code s addr (mem_bytes (mem_of i) arm_code code_size);
    match code with Some p => mret p | None =>
    i ← ask id;
    let hash := arm2x86_code_hash (mem_bytes (mem_of i) arm_code code_size) in
    match arm2x86_code_hash_lookup (content_table i) hash with Some e => mret (entry_code e) | None =>
    let est := est_size code_size in
    p ← allocate_code s est;
    match p with None => mret 0 | Some p =>
    n ← translate_into s false arm_code code_size p est;
    match n with None => mret 0 | Some x86_size =>
    content_insert s hash p x86_size ;;
    cache_insert s false false addr p x86_size ;;
    store_code s addr arm_code code_size p x86_size ;;
    mret p
    end end end end end.

(** The code at an address of which nothing else is known: 64 bytes are looked up, 256
    translated. *)
Definition arm2x86_translate_addr (s : services) (address : Z) : Easy Z :=
  ok ← ask initialized;
  if negb ok then fails ARM2X86_ERR_NOT_INITIALIZED
  else if address =? 0 then fails ARM2X86_ERR_INVALID_ARGUMENT
  else
    code ← cached_code address;
    match code with Some p => mret p | None =>
    i ← ask id;
    code ← persistent_code s address (mem_bytes (mem_of i) address 64);
    match code with Some p => mret p | None =>
    let code_size := 256 in
    let est := est_size code_size in
    p ← allocate_code s est;
    match p with None => fails ARM2X86_ERR_MEMORY | Some p =>
    n ← translate_into s true address code_size p est;
    match n with None => fails ARM2X86_ERR_CONVERT_FAIL | Some x86_size =>
    cache_insert s false false address p x86_size ;;
    store_code s address address code_size p x86_size ;;
    mret p
    end end end end.

(** [call]: the assembler routine that runs the code. *)
Definition arm2x86_execute_easy (call : option Z -> Z -> Z -> Z -> Z -> Z -> Easy Z) (translated_code : Z)
    (args : list Z) (num_args : Z) : Easy Z :=
  ok ← ask initialized;
  if negb ok then fails ARM2X86_ERR_NOT_INITIALIZED
  else if translated_code =? 0 then fails ARM2X86_ERR_INVALID_ARGUMENT
  else
    let arg k := if num_args >? k then nth (Z.to_nat k) args 0 else 0 in
    home ← ask reg_home;
    call home translated_code (arg 0) (arg 1) (arg 2) (arg 3).

(** The address and the size are ignored. *)
Definition arm2x86_invalidate_easy (address size : Z) : Easy Z :=
  ok ← ask initialized;
  if negb ok then mret ARM2X86_ERR_NOT_INITIALIZED
  else
    cp ← ask cache_ptr;
    match cp with Some _ => on_cache (arm2x86_tcache_clear cp) | None => mret tt end ;;
    mret ARM2X86_OK.

(** [s k]: what the system answers to the k-th call. *)
Fixpoint warmup_loop (s : nat -> services) (k : nat) (addresses : list Z) (success : Z) : Easy Z :=
  match addresses with
  | [] => mret success
  | a :: l =>
    p ← arm2x86_translate_addr (s k) a;
    warmup_loop s (S k) l (if c_true p then success + 1 else success)
  end.
Definition arm2x86_warmup_cache (s : nat -> services) (addresses : option (list Z)) (count : Z) : Easy Z :=
  ok ← ask initialized;
  if negb ok then mret 0
  else
    match addresses with
    | None => mret 0
    | Some l => if count <=? 0 then mret 0 else warmup_loop s 0 (take (Z.to_nat count) l) 0
    end.

(** ** Batches *)

(** [output]: where the pointer goes; [None] is NULL. *)
Record arm2x86_code_block := { block_code : Z; code_size : Z; address : Z; output : option Z }.
Definition without_output (b : arm2x86_code_block) : arm2x86_code_block :=
  {| block_code := block_code b; code_size := code_size b; address := address b; output := None |}.

(** [arm2x86_convert] with its effects on the memory. *)
Definition convert_new (s : services) (arm_code size : Z) : Easy (option (Z * Z)) :=
  i ← ask id;
  let est := est_size size in
  let sys := {| mmap := mmap_code s; Core.page_size := page_size; mprotect := mprotect_ok s; home_allocated := home_ok s |} in
  let '(rc, r, written) := arm2x86_convert g_simd_enabled uninitialized sys (Some tt) (mem_of i) arm_code size true true in
  match written with
  | None => mret None
  | Some (p, out) =>
    map_pages page_size p est ;;
    clear_bytes page_size p est ;;
    write_bytes page_size p out ;;
    match r with
    | Some (p, n) =>
      make_readonly page_size p (Z.min est (page_round page_size n)) ;; mret (Some (p, n))
    | None => unmap page_size p est ;; mret None
    end
  end.

(** One block of a batch; [owned]: the worker threads let the cache own the code.  After
    stored code was copied it is freed twice. *)
Definition translate_one (owned : bool) (s : services) (b : arm2x86_code_block)
    : Easy (arm2x86_code_block * option (Z * Z)) :=
  match output b with
  | None => mret (without_output b, None)
  | Some out =>
    if (block_code b =? 0) || (code_size b =? 0) then mret (without_output b, None)
    else
      let addr := if c_true (address b) then address b else block_code b in
      let done p := mret (b, Some (out, p)) in
      code ← cached_code addr;
      match code with Some p => done p | None =>
      i ← ask id;
      let arm := mem_bytes (mem_of i) (block_code b) (code_size b) in
      let hash := arm2x86_code_hash arm in
      match (e ← arm2x86_code_hash_lookup (content_table i) hash; if c_true (entry_code e) then Some (entry_code e) else None) with
      | Some p => done p
      | None =>
      stored ← stored_code s addr arm;
      match (bs ← stored; mmap_copy s (Z.of_nat (length bs))) with
      | Some _ => crash
      | None =>
        r ← convert_new s (block_code b) (code_size b);
        match r with
        | None => mret (without_output b, None)
        | Some (p, n) =>
          content_insert s hash p n ;;
          cache_insert s owned owned addr p n ;;
          store_code s addr (block_code b) (code_size b) p n ;;
          done p
        end
      end end end
  end.

(** The blocks as they are left, the pointers written, and how many. *)
Fixpoint batch_loop (owned : bool) (s : nat -> services) (k : nat) (blocks : list arm2x86_code_block)
    : Easy (list arm2x86_code_block * list (Z * Z)) :=
  match blocks with
  | [] => mret ([], [])
  | b :: l =>
    '(b, r) ← translate_one owned (s k) b;
    '(l, rs) ← batch_loop owned s (S k) l;
    mret (b :: l, match r with Some x => x :: rs | None => rs end)
  end.

Definition arm2x86_translate_batch (s : nat -> services) (blocks : option (list arm2x86_code_block)) (count : Z)
    : Easy (Z * list arm2x86_code_block * list (Z * Z)) :=
  ok ← ask initialized;
  if negb ok then mret (- ARM2X86_ERR_NOT_INITIALIZED, default [] blocks, [])
  else
    match blocks with
    | None => mret (- ARM2X86_ERR_INVALID_ARGUMENT, [], [])
    | Some l =>
      if count <=? 0 then mret (- ARM2X86_ERR_INVALID_ARGUMENT, l, [])
      else
        '(done, rs) ← batch_loop false s 0 (take (Z.to_nat count) l);
        mret (Z.of_nat (length rs), done ++ drop (Z.to_nat count) l, rs)
    end.
End Translate.

(** ** Batches on several threads *)

(** The number of threads, and the range of blocks of each that is started.  The last one
    ends with the blocks; a thread with an empty range ends the loop. *)
Definition thread_count (count num_threads : Z) : Z := Z.min (Z.min num_threads count) 16.
Definition chunk_of (count threads : Z) : Z := (count + threads - 1) / threads.

Fixpoint start_threads (n : nat) (count threads t : Z) : list (Z * Z) :=
  match n with
  | O => []
  | S n =>
    let start := t * chunk_of count threads in
    let end_ := if t =? threads - 1 then count else start + chunk_of count threads in
    if start >=? end_ then [] else (start, end_) :: start_threads n count threads (t + 1)
  end.
Definition thread_ranges (count num_threads : Z) : list (Z * Z) :=
  let threads := thread_count count num_threads in start_threads (Z.to_nat threads) count threads 0.

Section Parallel.
Context `{host : Host} (g_simd_enabled : Z) (uninitialized : Z -> DecodedInstruction).
Context (page_size dispatcher_address : Z).

(** The blocks of a range; no result when it goes on behind the array. *)
Definition worker_blocks (blocks : list arm2x86_code_block) (r : Z * Z) : option (list arm2x86_code_block) :=
  if snd r <=? Z.of_nat (length blocks) then
    Some (take (Z.to_nat (snd r - fst r)) (drop (Z.to_nat (fst r)) blocks))
  else None.

Definition translate_batch_worker (s : nat -> services) (blocks : list arm2x86_code_block) (r : Z * Z)
    : Easy (list arm2x86_code_block * list (Z * Z)) :=
  match worker_blocks blocks r with
  | Some l => batch_loop g_simd_enabled uninitialized page_size dispatcher_address true s 0 l
  | None => crash
  end.

(** The workers one after another: the runs in which none interrupts another. *)
Fixpoint run_workers (s : nat -> nat -> services) (blocks : list arm2x86_code_block) (t : nat) (ranges : list (Z * Z))
    : Easy (list arm2x86_code_block * list (Z * Z)) :=
  match ranges with
  | [] => mret ([], [])
  | r :: ranges =>
    '(l, rs) ← translate_batch_worker (s t) blocks r;
    '(l', rs') ← run_workers s blocks (S t) ranges;
    mret (l ++ l', rs ++ rs')
  end.

(** Every thread is joined, those that were never started too: then there is no result. *)
Definition arm2x86_translate_batch_parallel (s : nat -> nat -> services) (blocks : option (list arm2x86_code_block))
    (count num_threads : Z) : Easy (Z * list arm2x86_code_block * list (Z * Z)) :=
  ok ← ask initialized;
  if negb ok then mret (- ARM2X86_ERR_NOT_INITIALIZED, default [] blocks, [])
  else
    match blocks with
    | None => mret (- ARM2X86_ERR_INVALID_ARGUMENT, [], [])
    | Some l =>
      if count <=? 0 then mret (- ARM2X86_ERR_INVALID_ARGUMENT, l, [])
      else if num_threads <=? 1 then
        arm2x86_translate_batch g_simd_enabled uninitialized page_size dispatcher_address (s 0%nat) blocks count
      else
        let ranges := thread_ranges count num_threads in
        '(done, rs) ← run_workers s l 0 ranges;
        if Z.of_nat (length ranges) =? thread_count count num_threads then
          mret (Z.of_nat (length rs), done ++ drop (Z.to_nat count) l, rs)
        else crash
    end.
End Parallel.

(** ** Creating and destroying an instance *)

(** [alloc_ok]: whether the allocations of the instance, the context and the translation
    cache succeed; [m]: the memory of the process. *)
Definition create_pcache (sys : PCache.system) (cfg : arm2x86_easy_config) (dir : gmap string file) : option persistent_cache :=
  arm2x86_pcache_create sys
    (Some {| max_size_bytes := if c_true (persistent_cache_size_mb cfg) then u64 (persistent_cache_size_mb cfg * 1024 * 1024)
                               else 100 * 1024 * 1024;
             max_entries := max_entries arm2x86_pcache_config_init;
             max_entry_size := max_entry_size arm2x86_pcache_config_init;
             enabled := enabled arm2x86_pcache_config_init; verify_hash := verify_hash arm2x86_pcache_config_init;
             compress := compress arm2x86_pcache_config_init; auto_cleanup := auto_cleanup arm2x86_pcache_config_init;
             sync_interval := sync_interval arm2x86_pcache_config_init;
             load_on_startup := load_on_startup arm2x86_pcache_config_init |}) dir.

Definition easy_pool_config (cfg : arm2x86_easy_config) : arm2x86_mempool_config :=
  {| initial_size := or_else (mempool_initial_size cfg) (64 * 1024);
     cfg_max_size := or_else (mempool_max_size cfg) (64 * 1024 * 1024);
     chunk_size := or_else (mempool_chunk_size cfg) (64 * 1024);
     cfg_enable_growth := cfg_enable_growth arm2x86_mempool_config_default;
     precommit := precommit arm2x86_mempool_config_default |}.

Section Create.
Context (page_size : Z).

(** No result when the creation of the cache in files has none. *)
Definition arm2x86_create_easy (alloc_ok table_ok pool_ok : bool) (pool_memory : memory_system) (sys : PCache.system)
    (dir : gmap string file) (home : option Z) (m : Z -> Z) (config : option arm2x86_easy_config)
    : option (option arm2x86_instance) :=
  if negb alloc_ok then Some None
  else
    let cfg := default arm2x86_easy_config_default config in
    let cache_size := if c_true (cache_size_mb cfg) then u64 (cache_size_mb cfg * 1024 * 1024) else 2 * 1024 * 1024 in
    let buckets := if c_true (hash_buckets cfg) then hash_buckets cfg else 4096 in
    let cache := arm2x86_tcache_create cache_size buckets in
    pc ← (if enable_persistent_cache cfg then c ← create_pcache sys cfg dir; Some (Some c) else Some None);
    let m := match home with
             | Some p => fun a => if (p <=? a) && (a <? p + 256) then 0 else m a | None => m end in
    Some (Some
      {| tc := Build_world ∅ cache [] m []; cache_ptr := Some tt; pcache := pc;
         content_table := arm2x86_code_hash_init table_ok;
         pool_of := if enable_mempool cfg then arm2x86_mempool_init pool_ok pool_memory (Some (easy_pool_config cfg)) else None;
         reg_home := home; easy_config := cfg; perf_enabled := enable_perf cfg; initialized := true;
         last_error := ARM2X86_OK; readonly := fun _ => false; given_back := [] |}).

(** The mappings given back over the life of the instance, the code the translation cache
    owns included. *)
Definition arm2x86_destroy_easy (arm2x86 : option arm2x86_instance) : option (list (Z * Z)) :=
  match arm2x86 with
  | None => Some []
  | Some i =>
    '(_, w) ← arm2x86_tcache_destroy (cache_ptr i) (tc i);
    let owned := map fst (List.filter snd (released w)) in
    let hashed := fst (arm2x86_code_hash_destroy (content_table i)) in
    let pooled := fst (arm2x86_mempool_destroy (pool_of i)) in
    Some (given_back i ++ owned ++ hashed ++ pooled ++ match reg_home i with Some p => [(p, 4096)] | None => [] end)
  end.
End Create.

(** ** Translation ahead of time *)

Record arm2x86_aot_config := {
  aot_source_arch : Arm2x86Mode; base_address : Z; optimize_for_size : bool; optimize_for_speed : bool;
  strip_symbols : bool; enable_compression : bool }.
Definition arm2x86_aot_config_default : arm2x86_aot_config :=
  {| aot_source_arch := ARM2X86_ARCH_ARM64; base_address := 0; optimize_for_size := false;
     optimize_for_speed := true; strip_symbols := true; enable_compression := true |}.

Definition AOT_MAGIC := 0x00544F41.
Definition arch_number (m : Arm2x86Mode) : Z :=
  match m with ARM2X86_MODE_ARM64 => 0 | ARM2X86_MODE_ARM32 => 1 | ARM2X86_MODE_THUMB => 2 | ARM2X86_MODE_AUTO => 3 end.

(** The header of a file; four bytes behind [arch] are not set by the program. *)
Definition aot_header (padding : list Z) (arch arm_size x86_size base_addr : Z) : list Z :=
  le_bytes 4 AOT_MAGIC ++ le_bytes 4 1 ++ le_bytes 4 arch ++ padding ++
  le_bytes 8 arm_size ++ le_bytes 8 x86_size ++ le_bytes 8 base_addr.

Section Aot.
Context `{host : Host} (g_simd_enabled : Z) (uninitialized : Z -> DecodedInstruction).
Context (page_size dispatcher_address : Z).

(** [config]: null or with a null path is [None]; [created]: whether the instance is;
    [input]: the contents of the input file, if it can be opened; [arm_at]: the memory for
    it; [output_ok]: whether the output file can be opened.  The result and the output. *)
Definition arm2x86_aot_translate (s : services) (created : bool) (config : option arm2x86_aot_config)
    (m : Z -> Z) (input : option (list Z)) (arm_at : option Z) (read_ok output_ok : bool) (padding : list Z)
    : Z * option (list Z) :=
  match config with
  | None => (ARM2X86_ERR_INVALID_ARGUMENT, None)
  | Some cfg =>
    if negb created then (ARM2X86_ERR_OUT_OF_MEMORY, None)
    else
      match input with
      | None => (ARM2X86_ERR_PERMISSION_DENIED, None)
      | Some arm =>
        let file_size := Z.of_nat (length arm) in
        if file_size <=? 0 then (ARM2X86_ERR_INVALID_ARGUMENT, None)
        else
          match arm_at with
          | None => (ARM2X86_ERR_OUT_OF_MEMORY, None)
          | Some at_ =>
            if negb read_ok then (ARM2X86_ERR_PERMISSION_DENIED, None)
            else
              let sys := {| mmap := mmap_code s; Core.page_size := page_size; mprotect := mprotect_ok s; home_allocated := home_ok s |} in
              let '(ret, r, written) := arm2x86_convert g_simd_enabled uninitialized sys (Some tt) (store_bytes m at_ arm)
                                          at_ file_size true true in
              match r, written with
              | Some (_, x86_size), Some (_, out) =>
                if negb output_ok then (ARM2X86_ERR_PERMISSION_DENIED, None)
                else
                  (ARM2X86_OK, Some (aot_header padding (arch_number (aot_source_arch cfg)) file_size x86_size (base_address cfg)
                                     ++ out))
              | _, _ => (ARM2X86_ERR_CONVERT_FAIL, None)
              end
          end
      end
  end.

(** [contents]: of the file, if it can be opened; [malloc]: the memory for the code. *)
Definition arm2x86_load_aot_module (s : services) (malloc : Z -> option Z) (path : bool) (contents : option (list Z)) : Easy Z :=
  ok ← ask initialized;
  if negb ok || negb path then mret ARM2X86_ERR_INVALID_ARGUMENT
  else
    match contents with
    | None => mret ARM2X86_ERR_PERMISSION_DENIED
    | Some bs =>
      if (length bs <? 40)%nat then mret ARM2X86_ERR_INVALID_ARGUMENT
      else
        let number n k := le_combine (take n (drop k bs)) in
        if negb (number 4%nat 0%nat =? AOT_MAGIC) then mret ARM2X86_ERR_INVALID_ARGUMENT
        else
          let x86_size := number 8%nat 24%nat in
          let base_addr := number 8%nat 32%nat in
          match malloc x86_size with
          | None => mret ARM2X86_ERR_OUT_OF_MEMORY
          | Some p =>
            let code := take (Z.to_nat x86_size) (drop 40 bs) in
            write_bytes page_size p code ;;
            if negb (Z.of_nat (length code) =? x86_size) then mret ARM2X86_ERR_PERMISSION_DENIED
            else
              (if c_true base_addr then cache_insert dispatcher_address s false false base_addr p x86_size else mret tt) ;;
              content_insert s (arm2x86_code_hash code) p x86_size ;;
              mret ARM2X86_OK
          end
    end.
End Aot.

Definition arm2x86_version : Z * Z * Z := (1, 0, 0).
Definition arm2x86_version_string : string := "1.0.0".

(** ** Which blocks the threads translate *)

Definition range_indices (r : Z * Z) : list Z := seqZ (fst r) (snd r - fst r).

Lemma start_threads_from count T n t : 0 < chunk_of count T -> Z.of_nat n = T - t -> (0 < n)%nat ->
  start_threads n count T t =
  map (fun t => (t * chunk_of count T, (t + 1) * chunk_of count T)) (seqZ t (T - 1 - t)) ++
  (if (T - 1) * chunk_of count T <? count then [((T - 1) * chunk_of count T, count)] else []).
Proof.
  intros Hc. revert t. induction n as [|n IH]; intros t Hn Hpos; [lia|]. cbn [start_threads].
  destruct (t =? T - 1) eqn:Et.
  - apply Z.eqb_eq in Et. subst t. replace (T - 1 - (T - 1)) with 0 by lia. cbn [seqZ map app].
    replace n with O by lia. cbn [start_threads]. rewrite Z.geb_leb, Z.leb_antisym. destruct (_ <? count); reflexivity.
  - apply Z.eqb_neq in Et. cbv beta iota zeta. rewrite Z.geb_leb, (proj2 (Z.leb_gt _ _)) by lia.
    rewrite IH by lia. replace (T - 1 - t) with (Z.succ (T - 1 - (t + 1))) by lia. rewrite (seqZ_cons t) by lia.
    replace (Z.pred (Z.succ (T - 1 - (t + 1)))) with (T - 1 - (t + 1)) by lia.
    replace (Z.succ t) with (t + 1) by lia. cbn [map app]. do 2 f_equal. lia.
Qed.

Lemma ranges_indices c k : 0 <= c -> 0 <= k ->
  flat_map range_indices (map (fun t => (t * c, (t + 1) * c)) (seqZ 0 k)) = seqZ 0 (k * c).
Proof.
  intros Hc Hk. revert Hk. apply (natlike_ind (fun k => flat_map range_indices (map (fun t => (t * c, (t + 1) * c)) (seqZ 0 k)) = seqZ 0 (k * c))).
  - reflexivity.
  - intros n Hn IH. rewrite <- Z.add_1_r, seqZ_app, map_app, flat_map_app, IH by lia.
    rewrite (seqZ_cons (0 + n) 1) by lia. change (Z.pred 1) with 0. cbn [seqZ map flat_map Z.to_nat seq fmap list_fmap].
    rewrite app_nil_r. replace ((n + 1) * c) with (n * c + c) by lia. rewrite (seqZ_app 0 (n * c) c) by lia.
    unfold range_indices. cbn [fst snd]. f_equal. f_equal; lia.
Qed.

(** How a batch is divided among threads.  With [T] threads, which get [c] blocks each, the
    ranges are a partition of the blocks when [(T - 1) * c] is below their number.  When it
    is not, the last thread is never started, but joined, so that the call has no defined
    result; and if it is above, the last thread that is started goes on behind the array.
    So five blocks can be translated by two and three threads, but not by four. *)
Theorem parallel_ranges count n :
  0 < count -> 1 < n ->
  let T := thread_count count n in let c := chunk_of count T in
  thread_ranges count n =
    map (fun t => (t * c, (t + 1) * c)) (seqZ 0 (T - 1)) ++ (if (T - 1) * c <? count then [((T - 1) * c, count)] else []) /\
  ((T - 1) * c < count -> flat_map range_indices (thread_ranges count n) = seqZ 0 count /\
     Z.of_nat (length (thread_ranges count n)) = T) /\
  (count <= (T - 1) * c -> forall host simd uninit page D s blocks i,
     Z.of_nat (length blocks) = count -> initialized i = true ->
     arm2x86_translate_batch_parallel (host := host) simd uninit page D s (Some blocks) count n i = None) /\
  thread_ranges 5 3 = [(0, 2); (2, 4); (4, 5)] /\ thread_ranges 5 4 = [(0, 2); (2, 4); (4, 6)].
Proof.
  intros Hcount Hn. cbv zeta. set (T := thread_count count n). set (c := chunk_of count T).
  assert (HT : 1 <= T <= count) by (unfold T, thread_count; lia).
  assert (Hc : 0 < c) by (unfold c, chunk_of; apply Z.div_str_pos; lia).
  assert (E : thread_ranges count n =
    map (fun t => (t * c, (t + 1) * c)) (seqZ 0 (T - 1)) ++ (if (T - 1) * c <? count then [((T - 1) * c, count)] else [])).
  { unfold thread_ranges. fold T. rewrite (start_threads_from count T) by (fold c; lia). fold c.
    replace (T - 1 - 0) with (T - 1) by lia. reflexivity. }
  assert (L : length (map (fun t => (t * c, (t + 1) * c)) (seqZ 0 (T - 1))) = Z.to_nat (T - 1))
    by (rewrite length_map; apply length_seqZ).
  split_and!; [exact E| | |reflexivity..].
  - intros H. rewrite E, (proj2 (Z.ltb_lt _ _) H). split.
    + rewrite flat_map_app, ranges_indices by lia. cbn [flat_map range_indices fst snd]. rewrite app_nil_r.
      unfold range_indices. cbn [fst snd]. replace count with ((T - 1) * c + (count - (T - 1) * c)) at 2 by lia.
      rewrite seqZ_app by nia. reflexivity.
    + rewrite length_app, L. cbn [length]. lia.
  - intros H host simd uninit page D s blocks i Hb Hi. unfold arm2x86_translate_batch_parallel, ask, mbind, Easy_bind.
    rewrite Hi. cbn [negb]. rewrite (proj2 (Z.leb_gt _ _) Hcount), (proj2 (Z.leb_gt _ _) Hn).
    destruct (run_workers _ _ _ _ _ _ _ _ _) as [[[done rs] i']|]; [|reflexivity].
    rewrite E, (proj2 (Z.ltb_ge _ _) H), app_nil_r, L. fold T.
    replace (_ =? _) with false by (symmetry; apply Z.eqb_neq; lia). reflexivity.
Qed.

Lemma parallel_ranges_witness :
  Z.of_nat (length (thread_ranges 5 3)) = 3 /\ flat_map range_indices (thread_ranges 5 3) = seqZ 0 5.
Proof.
  destruct (parallel_ranges 5 3 ltac:(lia) ltac:(lia)) as (_ & H & _).
  destruct (H ltac:(vm_compute; reflexivity)) as [H1 H2]. split; [exact H2 | exact H1].
Defined.

(** ** The translation cache of an instance *)

(** The code the cache has for an address. *)
Definition found_code (w : world) (ins : list positive) (a : Z) : option Z :=
  l ← found w ins a; e_x86_code <$> heap w !! l.

(** The instance has a well-formed cache and no registered jump targets. *)
Record instance_ok (i : arm2x86_instance) (lru ins : list positive) : Prop := {
  ok_cache : cache_ptr i = Some tt;
  ok_wf : wf (tc i) lru ins;
  ok_jumps : jump_targets (tc i) = [] }.

Lemma same_addr_found w w' ins a : (forall x, fld e_arm_addr (heap w') x = fld e_arm_addr (heap w) x) ->
  found w' ins a = found w ins a.
Proof.
  intros H. unfold found. f_equal. apply filter_ext. intros x. specialize (H x). unfold has_addr.
  unfold fld in H. destruct (heap w' !! x), (heap w !! x); cbn in H; try discriminate; [injection H as ->|]; reflexivity.
Qed.

Lemma same_found_code w w' ins a : (forall x, fld e_arm_addr (heap w') x = fld e_arm_addr (heap w) x) ->
  (forall x, fld e_x86_code (heap w') x = fld e_x86_code (heap w) x) -> found_code w' ins a = found_code w ins a.
Proof.
  intros H1 H2. unfold found_code. rewrite (same_addr_found w w') by exact H1.
  destruct (found w ins a) as [l|]; [|reflexivity]. exact (H2 l).
Qed.

Lemma data_fields h h' x l e : h !! l = Some e -> fld TCache.data h' l = Some (TCache.data (count_use e)) ->
  (forall x, x <> l -> fld TCache.data h' x = fld TCache.data h x) ->
  fld e_arm_addr h' x = fld e_arm_addr h x /\ fld e_x86_code h' x = fld e_x86_code h x.
Proof.
  intros He Hl Hx. destruct (decide (x = l)) as [->|Hne].
  - apply fld_inv in Hl as (e' & He' & Ed). unfold fld. rewrite He, He'. cbn.
    destruct (count_use_fields e) as (_ & _ & _ & E1 & E2 & _). unfold TCache.data in Ed.
    injection Ed as _ Ea Ec _ _ _ _. split; congruence.
  - specialize (Hx x Hne). unfold fld in *. destruct (h' !! x) as [e'|], (h !! x) as [e0|]; cbn in *; try discriminate; [|auto].
    unfold TCache.data in Hx. injection Hx as _ -> -> _ _ _ _. auto.
Qed.

Section Lemmas.
Context `{host : Host} (simd : Z) (uninit : Z -> DecodedInstruction) (page_size D : Z).
Local Abbreviation translate_easy := (arm2x86_translate_easy simd uninit page_size D).

Lemma ask_run {A} (f : arm2x86_instance -> A) i : ask f i = Some (f i, i).
Proof. reflexivity. Qed.
Lemma easy_bind {A B} (m : Easy A) (f : A -> Easy B) i a i' : m i = Some (a, i') -> (m ≫= f) i = f a i'.
Proof. unfold mbind, Easy_bind. intros ->. reflexivity. Qed.
Lemma easy_bind_inv {A B} (m : Easy A) (f : A -> Easy B) i r : (m ≫= f) i = Some r ->
  exists a i', m i = Some (a, i') /\ f a i' = Some r.
Proof. unfold mbind, Easy_bind. destruct (m i) as [[a i']|]; [|discriminate]. eauto. Qed.
Lemma on_cache_run {A} (m : M A) i a w : m (tc i) = Some (a, w) -> on_cache m i = Some (a, set_tc w i).
Proof. unfold on_cache. intros ->. reflexivity. Qed.

Lemma cached_code_run i lru ins a : instance_ok i lru ins ->
  exists w' lru', cached_code a i = Some (found_code (tc i) ins a, set_tc w' i) /\
    code_mem w' = code_mem (tc i) /\ instance_ok (set_tc w' i) lru' ins /\
    (forall b, found_code w' ins b = found_code (tc i) ins b).
Proof.
  intros [Hc Hwf Hj]. unfold cached_code. rewrite (easy_bind (ask cache_ptr) _ i _ _ (ask_run _ i)), Hc.
  destruct (lookup_spec (tc i) lru ins a Hwf) as (w1 & Hr & _ & Hcase).
  destruct (keeps_lookup (Some tt) a _ _ _ Hr Hj) as [Hj1 Hm1].
  rewrite (easy_bind _ _ _ _ _ (on_cache_run _ i _ _ Hr)).
  destruct (found (tc i) ins a) as [l|] eqn:Ef.
  - destruct Hcase as (l1 & l2 & e & -> & Hwf1 & _ & He & Hea & Hl & Hx).
    assert (He1 : exists e1, heap w1 !! l = Some e1 /\ e_x86_code e1 = e_x86_code e).
    { destruct (data_fields (heap (tc i)) (heap w1) l l e He Hl Hx) as [_ E]. unfold fld in E. rewrite He in E.
      destruct (heap w1 !! l) as [e1|]; [|discriminate]. cbn in E. injection E as E. eauto. }
    destruct He1 as (e1 & He1 & Ec).
    exists w1, (l :: l1 ++ l2). split_and!; [|exact Hm1|split; assumption|].
    + assert (G : arm2x86_tcache_get_code (Some l) w1 = Some (e_x86_code e1, w1)).
      { unfold arm2x86_tcache_get_code. rewrite (bind_run _ _ _ _ _ (deref_run _ _ _ He1)). reflexivity. }
      rewrite (easy_bind _ _ _ _ _ (on_cache_run _ (set_tc w1 i) _ _ G)). unfold found_code. rewrite Ef. cbn. rewrite He. cbn.
      rewrite Ec. reflexivity.
    + intros b. apply same_found_code; intros x; apply (data_fields (heap (tc i)) (heap w1) x l e He Hl Hx).
  - destruct Hcase as (Hwf1 & Hh & _). exists w1, lru. split_and!; [|exact Hm1|split; assumption|].
    + unfold found_code. rewrite Ef. reflexivity.
    + intros b. apply same_found_code; intros x; rewrite Hh; reflexivity.
Qed.

(** The allocator of the entries always gives one that is not in use. *)
Definition calloc_good (s : services) : Prop :=
  forall w, exists l, calloc_entry s w = Some l /\ heap w !! l = None.

Lemma cache_insert_run s o m i lru ins a code size : instance_ok i lru ins -> code <> 0 -> calloc_good s ->
  exists w' lru' ins', cache_insert D s o m a code size i = Some (tt, set_tc w' i) /\
    code_mem w' = code_mem (tc i) /\ instance_ok (set_tc w' i) lru' ins' /\ found_code w' ins' a = Some code.
Proof.
  intros [Hc Hwf Hj] Hcode Hal. unfold cache_insert. rewrite (easy_bind (ask cache_ptr) _ i _ _ (ask_run _ i)), Hc.
  destruct (insert_spec D (calloc_entry s) (tc i) lru ins a code size o m Hwf Hcode Hal) as
    (w' & l & kept & ev & e & Hr & _ & Hwf' & He & _ & Ec & _ & Hf & _).
  destruct (keeps_insert D (calloc_entry s) (Some tt) a code size o m _ _ _ Hr Hj) as [Hj' Hm].
  exists w', (l :: kept), (l :: keep kept ins). split_and!; [|exact Hm|split; assumption|].
  - rewrite (easy_bind _ _ _ _ _ (on_cache_run _ i _ _ Hr)). reflexivity.
  - unfold found_code. rewrite Hf. cbn. rewrite He. cbn. rewrite Ec. reflexivity.
Qed.

(** What operations on memory, files and tables leave alone. *)
Record quiet (i i' : arm2x86_instance) : Prop := {
  quiet_heap : heap (tc i') = heap (tc i);
  quiet_cache : cache (tc i') = cache (tc i);
  quiet_jumps : jump_targets (tc i') = jump_targets (tc i);
  quiet_ptr : cache_ptr i' = cache_ptr i;
  quiet_initialized : initialized i' = initialized i }.

Lemma quiet_refl i : quiet i i.
Proof. split; reflexivity. Qed.
Lemma quiet_trans i1 i2 i3 : quiet i1 i2 -> quiet i2 i3 -> quiet i1 i3.
Proof. intros [] []. split; congruence. Qed.

Lemma wf_same w w' lru ins : heap w' = heap w -> cache w' = cache w -> wf w lru ins -> wf w' lru ins.
Proof. intros Hh Hc []. split; rewrite ?Hh, ?Hc; assumption. Qed.

Lemma quiet_ok i i' lru ins : quiet i i' -> instance_ok i lru ins -> instance_ok i' lru ins.
Proof.
  intros [Hh Hc Hj Hp _] [H1 H2 H3]. split; [congruence|exact (wf_same _ _ _ _ Hh Hc H2)|congruence].
Qed.
Lemma quiet_found i i' ins a : quiet i i' -> found_code (tc i') ins a = found_code (tc i) ins a.
Proof. intros [Hh _ _ _ _]. apply same_found_code; intros x; rewrite Hh; reflexivity. Qed.

Class Quiet {A} (m : Easy A) : Prop := quiet_run : forall i a i', m i = Some (a, i') -> quiet i i'.

#[export] Instance quiet_ret {A} (a : A) : Quiet (mret a).
Proof. intros i x i' H. injection H as _ <-. apply quiet_refl. Qed.
#[export] Instance quiet_crash {A} : Quiet (crash (A := A)).
Proof. intros i x i' H. discriminate. Qed.
Lemma quiet_bind {A B} (m : Easy A) (f : A -> Easy B) : Quiet m -> (forall a, Quiet (f a)) -> Quiet (m ≫= f).
Proof.
  intros Hm Hf i b i' H. apply easy_bind_inv in H as (a & i1 & H1 & H2).
  eapply quiet_trans; [exact (Hm _ _ _ H1) | exact (Hf a _ _ _ H2)].
Qed.
Ltac quiet_prim := intros i a i' H; injection H as _ <-; split; reflexivity.
#[export] Instance quiet_ask {A} (f : arm2x86_instance -> A) : Quiet (ask f). Proof. quiet_prim. Qed.
#[export] Instance quiet_pcache p : Quiet (change (set_pcache p)). Proof. quiet_prim. Qed.
#[export] Instance quiet_pool p : Quiet (change (set_pool p)). Proof. quiet_prim. Qed.
#[export] Instance quiet_fails e : Quiet (fails e).
Proof. apply quiet_bind; [|intros; apply _]. quiet_prim. Qed.
#[export] Instance quiet_content s h p n : Quiet (content_insert s h p n). Proof. quiet_prim. Qed.
#[export] Instance quiet_map p n : Quiet (map_pages page_size p n). Proof. quiet_prim. Qed.
#[export] Instance quiet_unmap p n : Quiet (unmap page_size p n). Proof. quiet_prim. Qed.
#[export] Instance quiet_protect p n : Quiet (make_readonly page_size p n). Proof. quiet_prim. Qed.
#[export] Instance quiet_write p bs : Quiet (write_bytes page_size p bs).
Proof. intros i a i' H. unfold write_bytes in H. destruct (writable _ _ _ _); [|discriminate]. injection H as _ <-. split; reflexivity. Qed.
#[export] Instance quiet_clear p n : Quiet (clear_bytes page_size p n).
Proof. intros i a i' H. unfold clear_bytes in H. destruct (writable _ _ _ _); [|discriminate]. injection H as _ <-. split; reflexivity. Qed.
Local Hint Extern 2 (Quiet (_ ≫= _)) => apply quiet_bind; [|intros ?] : typeclass_instances.
Local Hint Extern 2 (Quiet (if ?b then _ else _)) => destruct b : typeclass_instances.
Local Hint Extern 2 (Quiet (match ?b with _ => _ end)) => destruct b : typeclass_instances.

#[export] Instance quiet_stored s a arm : Quiet (stored_code s a arm).
Proof. unfold stored_code. apply _. Qed.
#[export] Instance quiet_allocate s est : Quiet (allocate_code page_size s est).
Proof. unfold allocate_code. cbv zeta. apply _. Qed.
#[export] Instance quiet_release p est : Quiet (release_memory page_size p est).
Proof. unfold release_memory. apply _. Qed.
#[export] Instance quiet_translate s b a n p est : Quiet (translate_into simd uninit page_size s b a n p est).
Proof. unfold translate_into. cbv zeta. apply _. Qed.
#[export] Instance quiet_store s a c n p x : Quiet (store_code s a c n p x).
Proof. unfold store_code. apply _. Qed.

(** ** Files *)

(** Looking up again what was just looked up. *)
Lemma pcache_lookup_again mal t c a arm rc code pc :
  arm2x86_pcache_lookup mal t (Some c) a (Some arm) true 0 = (rc, code, pc) ->
  exists c', pc = Some c' /\ exists rc2 code2 pc2,
    arm2x86_pcache_lookup mal t (Some c') a (Some arm) true 0 = (rc2, code2, pc2) /\
    (if rc2 =? ARM2X86_PCACHE_OK then code2 else None) = (if rc =? ARM2X86_PCACHE_OK then code else None).
Proof.
  unfold arm2x86_pcache_lookup. destruct (enabled (PCache.config c)) eqn:En; cbn [negb].
  2:{ intros [= <- <- <-]. exists c. split; [reflexivity|]. rewrite En. do 3 eexists; split; reflexivity. }
  destruct (dir c !! get_entry_filename a) as [f|] eqn:Ef.
  2:{ intros [= <- <- <-]. exists (count_miss c). split; [reflexivity|]. cbn. rewrite En, Ef. cbn. do 3 eexists; split; reflexivity. }
  destruct (read_header (contents f)) as [[h rest]|] eqn:Eh.
  2:{ intros [= <- <- <-]. exists (count_miss c). split; [reflexivity|]. cbn. rewrite En, Ef. cbn. rewrite Eh. do 3 eexists; split; reflexivity. }
  destruct (validate_header h =? ARM2X86_PCACHE_OK) eqn:Ev; cbn [negb].
  2:{ intros [= <- <- <-]. exists (count_miss c). split; [reflexivity|]. cbn. rewrite En, Ef. cbn. rewrite Eh, Ev. cbn. do 3 eexists; split; [reflexivity | rewrite ?Ev; reflexivity]. }
  destruct (verify_hash _ && _) eqn:Ehash.
  { intros [= <- <- <-]. eexists. split; [reflexivity|]. cbn. rewrite En, lookup_delete_eq. cbn. do 3 eexists; split; reflexivity. }
  destruct (h_flags h =? 0) eqn:Efl; cbn [negb].
  2:{ intros [= <- <- <-]. exists (count_miss c). split; [reflexivity|]. cbn. rewrite En, Ef. cbn. rewrite Eh, Ev. cbn.
      rewrite Ehash, Efl. cbn. do 3 eexists; split; reflexivity. }
  destruct (mal (h_x86_code_size h)) eqn:Em; cbn [negb].
  2:{ intros [= <- <- <-]. exists c. split; [reflexivity|]. rewrite En, Ef, Eh, Ev, Ehash, Efl, Em. cbn. do 3 eexists; split; reflexivity. }
  destruct (_ <? _) eqn:El.
  { intros [= <- <- <-]. exists c. split; [reflexivity|]. rewrite En, Ef, Eh, Ev, Ehash, Efl, Em, El. cbn. do 3 eexists; split; reflexivity. }
  intros [= <- <- <-]. eexists. split; [reflexivity|]. cbn. rewrite En, lookup_insert_eq. cbn. rewrite Eh, Ev. cbn.
  rewrite Ehash, Efl, Em. cbn. rewrite El. do 3 eexists; split; reflexivity.
Qed.

Lemma stored_code_again s a arm i r i1 i2 : stored_code s a arm i = Some (r, i1) -> pcache i2 = pcache i1 ->
  exists pc, stored_code s a arm i2 = Some (r, set_pcache pc i2).
Proof.
  unfold stored_code, ask, change, mbind, Easy_bind. cbn beta iota. intros H E. rewrite E. clear E. revert H.
  destruct (pcache i) as [c|] eqn:Ep.
  - destruct (arm2x86_pcache_lookup _ _ _ _ _ _ _) as [[rc code] pc] eqn:El.
    destruct (pcache_lookup_again _ _ _ _ _ _ _ _ El) as (c' & -> & rc2 & code2 & pc2 & E2 & Er).
    cbv beta iota. intros H. injection H as <- <-. change (pcache (set_pcache (Some c') i)) with (Some c').
    cbv beta iota. rewrite E2, <- Er. exists pc2. reflexivity.
  - intros [= <- <-]. rewrite Ep. exists (pcache i2). destruct i2. reflexivity.
Qed.

(** ** Translating the same code again *)

Lemma stored_code_only s a arm i r i1 : stored_code s a arm i = Some (r, i1) -> exists pc, i1 = set_pcache pc i.
Proof.
  unfold stored_code, ask, change, mbind, Easy_bind. cbv beta iota. destruct (pcache i) as [c|] eqn:Ep.
  - destruct (arm2x86_pcache_lookup _ _ _ _ _ _ _) as [[rc code] pc]. cbv beta iota. intros H. injection H as _ <-. eauto.
  - intros H. injection H as _ <-. exists (pcache i). destruct i. reflexivity.
Qed.

Lemma persistent_none s a arm i i' : persistent_code page_size D s a arm i = Some (None, i') ->
  (exists pc, i' = set_pcache pc i) /\
  forall i2, pcache i2 = pcache i' -> exists pc, persistent_code page_size D s a arm i2 = Some (None, set_pcache pc i2).
Proof.
  intros H. apply easy_bind_inv in H as (r & i1 & H1 & H2). pose proof (stored_code_only _ _ _ _ _ _ H1) as E1.
  assert (G : i' = i1 /\ forall i2, pcache i2 = pcache i1 -> exists pc, persistent_code page_size D s a arm i2 = Some (None, set_pcache pc i2)).
  { destruct r as [bs|].
    - destruct (mmap_copy s (Z.of_nat (length bs))) as [q|] eqn:Em.
      + repeat (apply easy_bind_inv in H2 as (? & ? & _ & H2)). injection H2 as E _. discriminate.
      + injection H2 as <-. split; [reflexivity|]. intros i2 E2.
        destruct (stored_code_again _ _ _ _ _ _ i2 H1 E2) as (pc & H3). exists pc.
        unfold persistent_code. rewrite (easy_bind _ _ _ _ _ H3), Em. reflexivity.
    - injection H2 as <-. split; [reflexivity|]. intros i2 E2.
      destruct (stored_code_again _ _ _ _ _ _ i2 H1 E2) as (pc & H3). exists pc.
      unfold persistent_code. rewrite (easy_bind _ _ _ _ _ H3). reflexivity. }
  destruct G as [-> G]. auto.
Qed.

Lemma insert_then s o m i lru ins a p n i' : instance_ok i lru ins -> p <> 0 -> calloc_good s ->
  cache_insert D s o m a p n i = Some (tt, i') ->
  exists lru' ins', instance_ok i' lru' ins' /\ found_code (tc i') ins' a = Some p /\ initialized i' = initialized i.
Proof.
  intros Hok Hp Hs H. destruct (cache_insert_run s o m i lru ins a p n Hok Hp Hs) as (w' & lru' & ins' & E & _ & Hok' & Hf).
  rewrite E in H. injection H as <-. exists lru', ins'. auto.
Qed.

Lemma persistent_some s a arm i lru ins p i' : instance_ok i lru ins -> p <> 0 -> calloc_good s ->
  persistent_code page_size D s a arm i = Some (Some p, i') ->
  exists lru' ins', instance_ok i' lru' ins' /\ found_code (tc i') ins' a = Some p /\ initialized i' = initialized i.
Proof.
  intros Hok Hp Hs H. apply easy_bind_inv in H as (r & i1 & H1 & H). apply quiet_stored in H1.
  destruct r as [bs|]; [|discriminate]. destruct (mmap_copy _ _) as [q|]; [|discriminate].
  apply easy_bind_inv in H as ([] & i2 & H2 & H). apply quiet_map in H2.
  apply easy_bind_inv in H as ([] & i3 & H3 & H). apply quiet_write in H3.
  apply easy_bind_inv in H as ([] & i4 & H4 & H). injection H as -> <-.
  pose proof (quiet_trans _ _ _ (quiet_trans _ _ _ H1 H2) H3) as Q.
  destruct (insert_then s _ _ i3 lru ins a p _ i4 (quiet_ok _ _ _ _ Q Hok) Hp Hs H4) as (lru' & ins' & A & B & C).
  exists lru', ins'. rewrite C. split_and!; [exact A | exact B | apply Q].
Qed.

Lemma easy_hit s code size i lru ins p : instance_ok i lru ins -> initialized i = true -> code <> 0 -> size <> 0 ->
  found_code (tc i) ins code = Some p ->
  exists i'', translate_easy s code size i = Some (p, i'') /\ mem_of i'' = mem_of i /\
    readonly i'' = readonly i /\ given_back i'' = given_back i.
Proof.
  intros Hok Hi Hc Hs Hf. destruct (cached_code_run i lru ins code Hok) as (w' & lru' & E & Em & _ & _).
  exists (set_tc w' i). unfold arm2x86_translate_easy. rewrite (easy_bind _ _ _ _ _ (ask_run _ i)), Hi. cbn [negb].
  rewrite (proj2 (Z.eqb_neq _ _) Hc), (proj2 (Z.eqb_neq _ _) Hs). cbn [orb]. cbv zeta.
  rewrite (easy_bind _ _ _ _ _ E), Hf. split_and!; [reflexivity|exact Em|reflexivity..].
Qed.

(** From the allocation on: a successful call leaves the code in the cache. *)
Lemma new_translation_cached s code size hash est i lru ins p i' : instance_ok i lru ins -> p <> 0 -> calloc_good s ->
  (p ← allocate_code page_size s est;
   match p with None => mret 0 | Some p =>
   n ← translate_into simd uninit page_size s false code size p est;
   match n with None => mret 0 | Some x86_size =>
   content_insert s hash p x86_size ;;
   cache_insert D s false false code p x86_size ;;
   store_code s code code size p x86_size ;;
   mret p
   end end) i = Some (p, i') ->
  exists lru' ins', instance_ok i' lru' ins' /\ found_code (tc i') ins' code = Some p /\ initialized i' = initialized i.
Proof.
  intros Hok Hp Hs H. apply easy_bind_inv in H as (q & i1 & H1 & H). apply quiet_allocate in H1.
  destruct q as [q|]; [|injection H as E _; congruence].
  apply easy_bind_inv in H as (n & i2 & H2 & H). apply quiet_translate in H2.
  destruct n as [n|]; [|injection H as E _; congruence].
  apply easy_bind_inv in H as ([] & i3 & H3 & H). apply quiet_content in H3.
  apply easy_bind_inv in H as ([] & i4 & H4 & H).
  apply easy_bind_inv in H as ([] & i5 & H5 & H). apply quiet_store in H5. injection H as -> <-.
  pose proof (quiet_trans _ _ _ (quiet_trans _ _ _ H1 H2) H3) as Q.
  destruct (insert_then s _ _ i3 lru ins code p _ i4 (quiet_ok _ _ _ _ Q Hok) Hp Hs H4) as (lru' & ins' & A & B & C).
  exists lru', ins'. split; [exact (quiet_ok _ _ _ _ H5 A)|]. split; [rewrite (quiet_found _ _ _ _ H5); exact B|].
  rewrite (quiet_initialized _ _ H5), C. apply Q.
Qed.

(** No cache has the address, but the table has the content. *)
Lemma easy_dedup s code size i lru ins e : instance_ok i lru ins -> initialized i = true -> code <> 0 -> size <> 0 ->
  found_code (tc i) ins code = None ->
  arm2x86_code_hash_lookup (content_table i) (arm2x86_code_hash (mem_bytes (mem_of i) code size)) = Some e ->
  (forall i2, pcache i2 = pcache i ->
     exists pc, persistent_code page_size D s code (mem_bytes (mem_of i) code size) i2 = Some (None, set_pcache pc i2)) ->
  exists i'', translate_easy s code size i = Some (entry_code e, i'') /\ mem_of i'' = mem_of i /\
    readonly i'' = readonly i /\ given_back i'' = given_back i.
Proof.
  intros Hok Hi Hc Hsz Hf He Hp. destruct (cached_code_run i lru ins code Hok) as (w3 & lru3 & E3 & Em3 & _ & _).
  destruct (Hp (set_tc w3 i) eq_refl) as (pc4 & E4).
  assert (Em' : mem_of (set_tc w3 i) = mem_of i) by exact Em3.
  exists (set_pcache pc4 (set_tc w3 i)). split; [|split_and!; [exact Em'|reflexivity..]].
  unfold arm2x86_translate_easy. rewrite (easy_bind _ _ _ _ _ (ask_run _ i)), Hi. cbn [negb].
  rewrite (proj2 (Z.eqb_neq _ _) Hc), (proj2 (Z.eqb_neq _ _) Hsz). cbn [orb]. cbv zeta.
  rewrite (easy_bind _ _ _ _ _ E3), Hf, (easy_bind _ _ _ _ _ (ask_run _ _)).
  change (mem_of (id (set_tc w3 i))) with (mem_of (set_tc w3 i)).
  rewrite Em', (easy_bind _ _ _ _ _ E4), (easy_bind _ _ _ _ _ (ask_run _ _)). cbv beta iota.
  change (mem_of (id (set_pcache pc4 (set_tc w3 i)))) with (mem_of (set_tc w3 i)). rewrite Em'.
  change (content_table (id (set_pcache pc4 (set_tc w3 i)))) with (content_table i). rewrite He. reflexivity.
Qed.

(** C28: Translating the same code again gives the same pointer.  Whichever level answered a
    successful call of [translate_easy] (the cache, a file, the table by content or the
    translator), the next call for the same code returns the same pointer again and
    changes neither memory nor protection, whatever the state of the caches was. *)
Theorem translate_easy_again s code size i lru ins p i' :
  instance_ok i lru ins -> calloc_good s -> translate_easy s code size i = Some (p, i') -> p <> 0 ->
  exists i'', translate_easy s code size i' = Some (p, i'') /\ mem_of i'' = mem_of i' /\
    readonly i'' = readonly i' /\ given_back i'' = given_back i'.
Proof.
  intros Hok Hs H Hp. unfold arm2x86_translate_easy in H. rewrite (easy_bind _ _ _ _ _ (ask_run _ i)) in H.
  destruct (initialized i) eqn:Hi; cbn [negb] in H; [|apply easy_bind_inv in H as (? & ? & _ & H); injection H; congruence].
  destruct (Z.eqb_spec code 0) as [|Hc]; [cbn [orb] in H; apply easy_bind_inv in H as (? & ? & _ & H); injection H; congruence|].
  destruct (Z.eqb_spec size 0) as [|Hsz]; [cbn [orb] in H; apply easy_bind_inv in H as (? & ? & _ & H); injection H; congruence|].
  cbn [orb] in H. cbv zeta in H. destruct (cached_code_run i lru ins code Hok) as (w1 & lru1 & E1 & Em1 & Hok1 & Hf1).
  rewrite (easy_bind _ _ _ _ _ E1) in H. set (i1 := set_tc w1 i) in *.
  destruct (found_code (tc i) ins code) as [q|] eqn:Ef.
  { injection H as -> <-. apply (easy_hit s code size i1 lru1 ins p); try assumption. rewrite <- Ef. apply Hf1. }
  rewrite (easy_bind _ _ _ _ _ (ask_run _ i1)) in H. apply easy_bind_inv in H as (r & i2 & H2 & H).
  destruct r as [q|].
  { injection H as -> <-. destruct (persistent_some _ _ _ _ _ _ _ _ Hok1 Hp Hs H2) as (lru2 & ins2 & Hok2 & Hf2 & Hi2).
    apply (easy_hit s code size i2 lru2 ins2 p); try assumption. rewrite Hi2. exact Hi. }
  destruct (persistent_none _ _ _ _ _ H2) as [(pc & E2) Hagain].
  rewrite (easy_bind _ _ _ _ _ (ask_run _ i2)) in H. cbv beta iota in H.
  assert (Q2 : quiet i1 i2) by (rewrite E2; split; reflexivity). pose proof (quiet_ok _ _ _ _ Q2 Hok1) as Hok2.
  assert (Em2 : mem_of i2 = mem_of i1) by (rewrite E2; reflexivity).
  change (id i2) with i2 in H. destruct (arm2x86_code_hash_lookup (content_table i2) (arm2x86_code_hash (mem_bytes (mem_of i2) code size))) as [e|] eqn:Eh.
  - injection H as <- <-. apply (easy_dedup s code size i2 lru1 ins e); try assumption.
    + rewrite (quiet_initialized _ _ Q2). exact Hi.
    + rewrite (quiet_found i1 i2) by exact Q2. change (tc i1) with w1. rewrite Hf1. exact Ef.
    + intros i3. rewrite Em2. apply Hagain.
  - destruct (new_translation_cached s code size (arm2x86_code_hash (mem_bytes (mem_of i2) code size)) (est_size size) i2 lru1 ins p i' Hok2 Hp Hs H) as (lru3 & ins3 & A & B & C).
    apply (easy_hit s code size i' lru3 ins3 p); try assumption. rewrite C, (quiet_initialized _ _ Q2). exact Hi.
Qed.
End Lemmas.

(** ** Runs *)

(** A system in which every call succeeds, and which maps new code at [p]. *)
Definition willing (p : Z) : services :=
  {| calloc_entry := fun w => Some (next_address w); malloc_hash := true; malloc_copy := fun _ => true;
     files := {| readdir := fun d => map_to_list d; opendir_ok := true; malloc_entries_ok := true;
                 unlink_ok := fun _ => true; now := 0 |};
     store_io := IoOk; mmap_copy := fun _ => Some p; mmap_code := fun _ => Some p;
     pool_memory := {| malloc_ok := true; mmap_chunk := fun _ => Some p |};
     mprotect_ok := fun _ _ => true; home_ok := true |}.

Lemma willing_calloc p : calloc_good (willing p).
Proof. intros w. exists (next_address w). split; [reflexivity | apply next_address_fresh]. Qed.

Definition some_config (stored pool : bool) : arm2x86_easy_config :=
  {| source_arch := ARM2X86_ARCH_ARM64; target_arch := ARM2X86_ARCH_X86_64; cache_size_mb := 1; hash_buckets := 4;
     hot_threshold := 3; enable_perf := false; enable_trace := false; debug_flags := 0;
     enable_neon_translation := true; enable_auto_cache_resize := true; enable_code_layout_opt := false;
     enable_persistent_cache := stored; persistent_cache_size_mb := 1;
     enable_mempool := pool; mempool_initial_size := 0; mempool_max_size := 0; mempool_chunk_size := 0 |}.

(** A new instance; [home]: whether there is memory for the registers. *)
Definition new_instance (stored pool home : bool) (m : Z -> Z) : option arm2x86_instance :=
  i ← arm2x86_create_easy true true true (pool_memory (willing 0x100000)) (files (willing 0)) ∅
        (if home then Some 0x8000 else None) m (Some (some_config stored pool)); i.
Definition run_new {A} (stored pool home : bool) (m : Z -> Z) (f : Easy A) : option A :=
  i ← new_instance stored pool home m; fst <$> f i.

Local Abbreviation easy p := (arm2x86_translate_easy (host := bare_host) 0 nothing_decoded 4096 0 (willing p)).
Definition code_at (a : Z) (bs : list Z) (m : Z -> Z) : Z -> Z := store_bytes m a bs.

(** B, 256 bytes ahead. *)
Definition b_ahead : list Z := le_bytes 4 0x14000040.

Lemma translate_easy_again_witness :
  exists i i' i'', new_instance false false true (code_at 0x1000 b_ahead (fun _ => 0)) = Some i /\
    easy 0x100000 0x1000 4 i = Some (0x100000, i') /\ easy 0x100000 0x1000 4 i' = Some (0x100000, i'') /\
    mem_of i'' = mem_of i'.
Proof.
  destruct (new_instance false false true (code_at 0x1000 b_ahead (fun _ => 0))) as [i|] eqn:Ei; [|vm_compute in Ei; discriminate].
  destruct (easy 0x100000 0x1000 4 i) as [[p i']|] eqn:Et.
  2:{ assert (run_new false false true (code_at 0x1000 b_ahead (fun _ => 0)) (easy 0x100000 0x1000 4) = None) as E
        by (unfold run_new; rewrite Ei; cbn; rewrite Et; reflexivity).
      vm_compute in E. discriminate. }
  assert (p = 0x100000) as ->.
  { assert (run_new false false true (code_at 0x1000 b_ahead (fun _ => 0)) (easy 0x100000 0x1000 4) = Some p) as E
      by (unfold run_new; rewrite Ei; cbn; rewrite Et; reflexivity).
    vm_compute in E. injection E as <-. reflexivity. }
  destruct (translate_easy_again (host := bare_host) 0 nothing_decoded 4096 0 (willing 0x100000) 0x1000 4 i [] [] 0x100000 i')
    as (i'' & H1 & H2 & _); [|apply willing_calloc|exact Et|discriminate|].
  - unfold new_instance in Ei. cbn in Ei. injection Ei as <-. split; [reflexivity| |reflexivity].
    apply (wf_same (fresh_world (1024 * 1024) 4)); [reflexivity..|]. apply create_wf. reflexivity.
  - exists i, i', i''. auto.
Defined.

(** ** A new translation *)

Lemma store_bytes_outside m p bs a : a < p \/ p + Z.of_nat (length bs) <= a -> store_bytes m p bs a = m a.
Proof.
  intros H. unfold store_bytes. destruct (p <=? a) eqn:E; [|destruct (Z.to_nat (a - p)); reflexivity].
  apply nth_overflow. lia.
Qed.

Lemma mem_bytes_stored m p bs : mem_bytes (store_bytes m p bs) p (Z.of_nat (length bs)) = bs.
Proof.
  apply (nth_ext _ _ 0 0).
  - unfold mem_bytes. rewrite length_map, length_seqZ. lia.
  - intros n Hn. unfold mem_bytes in *. rewrite length_map, length_seqZ in Hn.
    rewrite (nth_indep _ 0 (store_bytes m p bs (p + 0))) by (rewrite length_map, length_seqZ; exact Hn).
    rewrite (map_nth (fun k => store_bytes m p bs (p + k))).
    rewrite nth_lookup, lookup_seqZ_lt by lia. unfold store_bytes. cbn [default from_option id]. rewrite Z.add_0_l. unfold id.
    rewrite (proj2 (Z.leb_le p (p + Z.of_nat n))) by lia.
    replace (Z.to_nat (p + Z.of_nat n - p)) with n by lia. apply nth_indep. lia.
Qed.

Lemma pages_in ps p n k : In k (pages_of ps p n) <-> 0 < n /\ p / ps <= k <= (p + n - 1) / ps.
Proof.
  unfold pages_of. destruct (0 <? n) eqn:E; [apply Z.ltb_lt in E|apply Z.ltb_ge in E].
  - rewrite <- list_elem_of_In, elem_of_seqZ. lia.
  - cbn. lia.
Qed.

(** Memory that was just mapped can be written. *)
Lemma mapped_writable ps p est n r : 0 < ps -> n <= est -> writable ps (protect_pages ps false p est r) p n = true.
Proof.
  intros Hps Hn. unfold writable. apply forallb_forall. intros k Hk. apply pages_in in Hk. unfold protect_pages.
  replace (existsb (Z.eqb k) (pages_of ps p est)) with true; [reflexivity|]. symmetry. apply existsb_exists. exists k.
  split; [|apply Z.eqb_refl]. apply pages_in. pose proof (Z.div_le_mono (p + n - 1) (p + est - 1) ps Hps ltac:(lia)). lia.
Qed.

Section NewTranslation.
Context `{host : Host} (simd : Z) (uninit : Z -> DecodedInstruction) (page_size D : Z).
Local Abbreviation block := (arm2x86_convert_block simd uninit).

Lemma convert_block_home mem a n h b : block (Some tt) mem a n true true (Some h) b = block (Some tt) mem a n true true None true.
Proof. reflexivity. Qed.

(** [translate_into] when nothing fails. *)
Lemma translate_into_run s i code size p est h out :
  (forall n, n <= est -> writable page_size (readonly i) p n = true) -> Z.of_nat (length out) <= est ->
  code <> 0 -> reg_home i = Some h -> (forall q n, mprotect_ok s q n = true) ->
  same_words code (mem_of i) (fun a => if (p <=? a) && (a <? p + est) then 0 else mem_of i a) ->
  block (Some tt) (mem_of i) code size true true None true = (ARM2X86_OK, Some (out, Z.of_nat (length out))) ->
  exists r, translate_into simd uninit page_size s false code size p est i =
    Some (Some (Z.of_nat (length out)),
          set_pages r (given_back i) (set_mem (store_bytes (fun a => if (p <=? a) && (a <? p + est) then 0 else mem_of i a) p out) i)).
Proof.
  intros Hr Hlen Hc Hh Hp Hsame Hb. unfold translate_into. set (m1 := fun a => _) in *.
  assert (E1 : clear_bytes page_size p est i = Some (tt, set_mem m1 i)).
  { unfold clear_bytes. rewrite Hr by lia. reflexivity. }
  rewrite (easy_bind _ _ _ _ _ E1), (easy_bind _ _ _ _ _ (ask_run _ _)). cbv beta.
  change (mem_of (id (set_mem m1 i))) with m1. change (reg_home (id (set_mem m1 i))) with (reg_home i). rewrite Hh.
  unfold arm2x86_convert_block_ex. rewrite convert_block_home.
  rewrite <- (convert_block_local simd uninit (mem_of i) m1 code size true Hsame), Hb. cbv beta iota zeta.
  assert (E2 : write_bytes page_size p out (set_mem m1 i) = Some (tt, set_mem (store_bytes m1 p out) (set_mem m1 i))).
  { unfold write_bytes. change (readonly (set_mem m1 i)) with (readonly i). rewrite Hr by lia. reflexivity. }
  rewrite (easy_bind _ _ _ _ _ E2). change (ARM2X86_OK =? ARM2X86_OK) with true. cbn [negb orb andb]. rewrite Hp.
  eexists. unfold make_readonly, change, mbind, Easy_bind. reflexivity.
Qed.

Lemma no_files s a arm i : pcache i = None -> persistent_code page_size D s a arm i = Some (None, i).
Proof. intros H. unfold persistent_code, stored_code, ask, mbind, Easy_bind. cbv beta iota. rewrite H. reflexivity. Qed.
Lemma no_store s a b c d e i : pcache i = None -> store_code s a b c d e i = Some (tt, i).
Proof. intros H. unfold store_code, ask, mbind, Easy_bind. cbv beta iota. change (id i) with i. rewrite H. reflexivity. Qed.
Lemma allocate_new s est i p : pool_of i = None -> mmap_code s est = Some p ->
  allocate_code page_size s est i = Some (Some p, set_pages (protect_pages page_size false p est (readonly i)) (given_back i) i).
Proof. intros Hpool Hm. unfold allocate_code, ask, mbind, Easy_bind. cbv beta iota zeta. rewrite Hpool, Hm. reflexivity. Qed.

Lemma hash_insert_lookup l h c n : length l = 4096%nat ->
  exists e, arm2x86_code_hash_lookup (arm2x86_code_hash_insert true h c n (Some l)) h = Some e /\ entry_code e = c.
Proof.
  intros Hl. cbn [arm2x86_code_hash_insert arm2x86_code_hash_lookup]. rewrite chain_of_set by exact Hl.
  rewrite decide_True by reflexivity. cbn [List.find entry_hash]. rewrite Z.eqb_refl. eexists. split; reflexivity.
Qed.

End NewTranslation.

(** ** By what a translation is found *)

Section Keys.
Context `{host : Host} (simd : Z) (uninit : Z -> DecodedInstruction) (page_size D : Z).

Lemma invalidate_run i lru ins a n : instance_ok i lru ins -> initialized i = true ->
  exists i', arm2x86_invalidate_easy a n i = Some (ARM2X86_OK, i') /\ instance_ok i' [] [] /\
    initialized i' = true /\ content_table i' = content_table i /\ pcache i' = pcache i /\
    mem_of i' = mem_of i /\ forall b, found_code (tc i') [] b = None.
Proof.
  intros [Hc Hwf Hj] Hi. destruct (clear_spec (tc i) lru ins Hwf) as (w' & E & Hwf' & _).
  pose proof (keeps_clear (Some tt)) as K. destruct (K _ _ _ E Hj) as [Hj' Hm'].
  exists (set_tc w' i). split_and!; [|split; assumption|exact Hi|reflexivity|reflexivity|exact Hm'|reflexivity].
  unfold arm2x86_invalidate_easy. rewrite (easy_bind _ _ _ _ _ (ask_run _ i)), Hi. cbn [negb].
  rewrite (easy_bind _ _ _ _ _ (ask_run _ i)), Hc. rewrite (easy_bind _ _ _ _ _ (on_cache_run _ i _ _ E)). reflexivity.
Qed.

(** C29: By what a translation is found.  A code address the cache has gets the code entered
    for it, whatever the memory holds by now and whatever size is asked for.  An address it
    does not have gets, in an instance without files, the code of the table whose entry has
    the hash of the bytes, at whatever address that was translated.  Invalidating forgets
    every address, not the range given, and no content: a call for bytes that were
    translated before still returns the old code.  Neither key determines the
    translation: a branch has other code at another address, and two programs that load
    different constants have the same hash. *)
Theorem translate_easy_keys s code size i lru ins :
  instance_ok i lru ins -> initialized i = true -> code <> 0 -> size <> 0 ->
  let hash := arm2x86_code_hash (mem_bytes (mem_of i) code size) in
  (forall p m, found_code (tc i) ins code = Some p ->
     exists i', arm2x86_translate_easy simd uninit page_size D s code size (set_mem m i) = Some (p, i') /\ mem_of i' = m) /\
  (forall e, pcache i = None -> arm2x86_code_hash_lookup (content_table i) hash = Some e ->
     found_code (tc i) ins code = None ->
     exists i', arm2x86_translate_easy simd uninit page_size D s code size i = Some (entry_code e, i') /\ mem_of i' = mem_of i) /\
  (forall a n, exists i', arm2x86_invalidate_easy a n i = Some (ARM2X86_OK, i') /\ instance_ok i' [] [] /\
     content_table i' = content_table i /\ mem_of i' = mem_of i /\ (forall b, found_code (tc i') [] b = None) /\
     forall e, pcache i = None -> arm2x86_code_hash_lookup (content_table i) hash = Some e ->
     exists i2, arm2x86_translate_easy simd uninit page_size D s code size i' = Some (entry_code e, i2)) /\
  (let m := code_at 0x2000 b_ahead (code_at 0x1000 b_ahead (fun _ => 0)) in
   mem_bytes m 0x1000 4 = mem_bytes m 0x2000 4 /\
   (arm2x86_convert_block (host := bare_host) 0 nothing_decoded (Some tt) m 0x1000 4 true true (Some 0x8000) true).2 <>
   (arm2x86_convert_block (host := bare_host) 0 nothing_decoded (Some tt) m 0x2000 4 true true (Some 0x8000) true).2) /\
  (load_four 0x106a6bcd8769ea5c <> load_four 0xe1816c362cc05c4b /\
   arm2x86_code_hash (load_four 0x106a6bcd8769ea5c) = arm2x86_code_hash (load_four 0xe1816c362cc05c4b)).
Proof.
  intros Hok Hi Hc Hs hash.
  assert (Hcontent : forall i lru ins e, instance_ok i lru ins -> initialized i = true -> pcache i = None ->
    arm2x86_code_hash_lookup (content_table i) (arm2x86_code_hash (mem_bytes (mem_of i) code size)) = Some e ->
    found_code (tc i) ins code = None ->
    exists i', arm2x86_translate_easy simd uninit page_size D s code size i = Some (entry_code e, i') /\ mem_of i' = mem_of i).
  { intros j l n e Hj Hij Hp He Hf.
    destruct (easy_dedup simd uninit page_size D s code size j l n e Hj Hij Hc Hs Hf He) as (i' & H1 & H2 & _); [|by exists i'].
    intros i2 Hp2. exists None. rewrite <- Hp, <- Hp2. unfold set_pcache. rewrite no_files by congruence. by destruct i2. }
  split; [|split; [|split; [|split]]].
  - intros p m Hf. assert (Q : quiet i (set_mem m i)) by (split; reflexivity).
    destruct (easy_hit simd uninit page_size D s code size (set_mem m i) lru ins p (quiet_ok _ _ _ _ Q Hok) Hi Hc Hs Hf)
      as (i' & H1 & H2 & _). exists i'. split; [exact H1|exact H2].
  - intros e Hp He Hf. by apply (Hcontent i lru ins).
  - intros a n. destruct (invalidate_run i lru ins a n Hok Hi) as (i' & E & Hok' & Hi' & Ht & Hp' & Hm & Hf).
    exists i'. split_and!; [exact E|exact Hok'|exact Ht|exact Hm|exact Hf|].
    intros e Hp He. destruct (Hcontent i' [] [] e Hok' Hi') as (i2 & H & _); [congruence|by rewrite Ht, Hm|apply Hf|by exists i2].
  - split; vm_compute; [reflexivity|discriminate].
  - split; vm_compute; [discriminate|reflexivity].
Qed.
End Keys.

(** The translation of four zero words, into a new mapping. *)
Definition zero_translation : list Z :=
  default [] (fst <$> snd (arm2x86_convert_block (host := bare_host) 0 nothing_decoded (Some tt) (fun _ => 0) 0x1000 16 true true None true)).
Definition bare_instance : arm2x86_instance :=
  {| tc := fresh_world (1024 * 1024) 4; cache_ptr := Some tt; pcache := None; content_table := arm2x86_code_hash_init true;
     pool_of := None; reg_home := Some 0x8000; easy_config := some_config false false; perf_enabled := false;
     initialized := true; last_error := 0; readonly := fun _ => false; given_back := [] |}.

(** Sixteen zero bytes, translated at some address before, are asked for at 0x2000. *)
Lemma translate_easy_keys_witness :
  let i := set_table_of (arm2x86_code_hash_insert true (arm2x86_code_hash (replicate 16 0)) 0x500000 100
                           (content_table bare_instance)) bare_instance in
  exists i', easy 0x100000 0x2000 16 i = Some (0x500000, i') /\ mem_of i' = mem_of i.
Proof.
  intros i.
  destruct (translate_easy_keys (host := bare_host) 0 nothing_decoded 4096 0 (willing 0x100000) 0x2000 16 i [] [])
    as (_ & H & _).
  - split; [reflexivity|apply create_wf; reflexivity|reflexivity].
  - reflexivity.
  - discriminate.
  - discriminate.
  - destruct (H (Build_code_hash_entry (arm2x86_code_hash (replicate 16 0)) 0x500000 100 1)) as (i' & H1 & H2);
      [reflexivity | vm_compute; reflexivity | reflexivity |].
    exists i'. split; [exact H1 | exact H2].
Defined.


(** ** Files of translated code *)

Lemma header_number pre v n post : 0 <= v < 2 ^ (8 * Z.of_nat n) ->
  le_combine (take n (drop (length pre) (pre ++ le_bytes n v ++ post))) = v.
Proof.
  intros Hv. rewrite drop_app_length, take_app_length' by (rewrite length_le_bytes; reflexivity).
  rewrite le_combine_bytes. apply Z.mod_small. exact Hv.
Qed.

Lemma header_numbers padding arch n1 n2 base rest : length padding = 4%nat ->
  0 <= n2 < 2 ^ 64 -> 0 <= base < 2 ^ 64 ->
  let bs := aot_header padding arch n1 n2 base ++ rest in
  le_combine (take 4 (drop 0 bs)) = AOT_MAGIC /\ le_combine (take 8 (drop 24 bs)) = n2 /\
  le_combine (take 8 (drop 32 bs)) = base /\ drop 40 bs = rest /\ (length bs <? 40)%nat = false.
Proof.
  intros Hp H2 Hb. cbv zeta. unfold aot_header.
  set (h1 := le_bytes 4 AOT_MAGIC). set (h2 := le_bytes 4 1). set (h3 := le_bytes 4 arch). set (h4 := le_bytes 8 n1).
  assert (L : length h1 = 4%nat /\ length h2 = 4%nat /\ length h3 = 4%nat /\ length h4 = 8%nat)
    by (unfold h1, h2, h3, h4; rewrite !length_le_bytes; auto).
  destruct L as (L1 & L2 & L3 & L4). split_and!.
  - unfold h1. rewrite <- !(assoc_L (++)). apply (header_number [] AOT_MAGIC 4). cbn. unfold AOT_MAGIC. lia.
  - pose proof (header_number (h1 ++ h2 ++ h3 ++ padding ++ h4) n2 8 (le_bytes 8 base ++ rest) H2) as H.
    rewrite !length_app, L1, L2, L3, L4, Hp in H. rewrite <- !(assoc_L (++)) in H |- *. exact H.
  - pose proof (header_number (h1 ++ h2 ++ h3 ++ padding ++ h4 ++ le_bytes 8 n2) base 8 rest Hb) as H.
    rewrite !length_app, L1, L2, L3, L4, Hp, length_le_bytes in H. rewrite <- !(assoc_L (++)) in H |- *. exact H.
  - rewrite drop_app_length'; [reflexivity|]. rewrite !length_app, L1, L2, L3, L4, Hp, !length_le_bytes. reflexivity.
  - apply Nat.ltb_ge. rewrite !length_app, L1, L2, L3, L4, Hp, !length_le_bytes. lia.
Qed.

Section AotFacts.
Context `{host : Host} (simd : Z) (uninit : Z -> DecodedInstruction) (page_size D : Z).

Lemma load_aot_run s malloc i lru ins padding arch n base out p :
  instance_ok i lru ins -> calloc_good s -> initialized i = true -> length padding = 4%nat ->
  Z.of_nat (length out) < 2 ^ 64 -> 0 < base < 2 ^ 64 -> malloc (Z.of_nat (length out)) = Some p -> p <> 0 ->
  writable page_size (readonly i) p (Z.of_nat (length out)) = true ->
  exists i' lru' ins',
    arm2x86_load_aot_module page_size D s malloc true
      (Some (aot_header padding arch n (Z.of_nat (length out)) base ++ out)) i = Some (ARM2X86_OK, i') /\
    instance_ok i' lru' ins' /\ initialized i' = true /\ found_code (tc i') ins' base = Some p /\
    mem_bytes (mem_of i') p (Z.of_nat (length out)) = out.
Proof.
  intros Hok Hs Hi Hpad Hlen Hb Hm Hp Hw. unfold arm2x86_load_aot_module.
  rewrite (easy_bind _ _ _ _ _ (ask_run _ i)), Hi. cbn [negb orb].
  destruct (header_numbers padding arch n (Z.of_nat (length out)) base out Hpad ltac:(lia) ltac:(lia)) as (E1 & E2 & E3 & E4 & E5).
  set (bs := aot_header _ _ _ _ _ ++ out) in *. cbv zeta. rewrite E5, E1, Z.eqb_refl. cbn [negb]. rewrite E2, E3, Hm, E4.
  rewrite take_ge by lia.
  assert (W : write_bytes page_size p out i = Some (tt, set_mem (store_bytes (mem_of i) p out) i))
    by (unfold write_bytes; rewrite Hw; reflexivity).
  rewrite (easy_bind _ _ _ _ _ W), Z.eqb_refl. cbn [negb].
  replace (c_true base) with true by (symmetry; unfold c_true; apply negb_true_iff, Z.eqb_neq; lia).
  set (i1 := set_mem _ i). assert (Q : quiet i i1) by (split; reflexivity).
  destruct (cache_insert_run D s false false i1 lru ins base p (Z.of_nat (length out)) (quiet_ok _ _ _ _ Q Hok) Hp Hs)
    as (w2 & lru2 & ins2 & E6 & Em & Hok2 & Hf).
  rewrite (easy_bind _ _ _ _ _ E6).
  exists (set_table_of (arm2x86_code_hash_insert (malloc_hash s) (arm2x86_code_hash out) p (Z.of_nat (length out))
    (content_table (set_tc w2 i1))) (set_tc w2 i1)), lru2, ins2.
  split_and!; [reflexivity| |exact Hi|exact Hf|].
  - apply (quiet_ok (set_tc w2 i1)); [split; reflexivity | exact Hok2].
  - change (mem_of _) with (code_mem w2). rewrite Em. apply mem_bytes_stored.
Qed.

End AotFacts.

Definition aot_config : arm2x86_aot_config :=
  {| aot_source_arch := ARM2X86_ARCH_ARM64; base_address := 0x400000; optimize_for_size := false;
     optimize_for_speed := true; strip_symbols := true; enable_compression := true |}.
Definition aot_code : list Z :=
  default [] (fst <$> snd (arm2x86_convert_block (host := bare_host) 0 nothing_decoded (Some tt)
    (store_bytes (fun _ => 0) 0x1000 (load_four 7)) 0x1000 16 true true None true)).

