(* ===== verification/Elf.v ===== *)
(** * The ELF loader: [modules/arm2x86_elf.c]

    A module is a record of what the loader found in its image; the image is a function
    from offsets to bytes, and a pointer into it is its offset ([None] for a null pointer).
    The structures of <elf.h> are given by the offset and size of their fields
    ([elf64], [elf32]), so that the two halves of the functions, which differ in these types
    only, are one definition.  A list in the image that does not end makes a walk run out
    of its fuel: the result is [None]. *)
From S2P Require Import Prelude Decode64 Regs.
From Stdlib Require Import ZArith Lia Bool.
From stdpp Require Import base numbers list.
Open Scope Z_scope.
Open Scope c_scope.


(** ** Reading and writing an image *)

(** The [n]-byte little-endian value at [a], and writing one. *)
Definition ld (n : Z) (m : Z -> Z) (a : Z) : Z := le_combine (map (fun k => m (a + k)) (seqZ 0 n)).
Definition st (n a v : Z) (m : Z -> Z) : Z -> Z :=
  fun x => if (a <=? x) && (x <? a + n) then u8 (v >>> (8 * (x - a))) else m x.

(** ** The structures of <elf.h> *)

(** A field: its offset and its size. *)
Definition field (f : Z * Z) (m : Z -> Z) (a : Z) : Z := ld (snd f) m (a + fst f).

Record layout := {
  e_phoff : Z * Z; e_phnum : Z * Z; sizeof_phdr : Z;
  p_type : Z * Z; p_flags : Z * Z; p_offset : Z * Z; p_vaddr : Z * Z; p_memsz : Z * Z;
  sizeof_dyn : Z; d_tag : Z * Z; d_val : Z * Z;
  sizeof_sym : Z; st_name : Z * Z; st_info : Z * Z; st_shndx : Z * Z; st_value : Z * Z }.

Definition elf64 : layout :=
  {| e_phoff := (32, 8); e_phnum := (56, 2); sizeof_phdr := 56;
     p_type := (0, 4); p_flags := (4, 4); p_offset := (8, 8); p_vaddr := (16, 8); p_memsz := (40, 8);
     sizeof_dyn := 16; d_tag := (0, 8); d_val := (8, 8);
     sizeof_sym := 24; st_name := (0, 4); st_info := (4, 1); st_shndx := (6, 2); st_value := (8, 8) |}.
Definition elf32 : layout :=
  {| e_phoff := (28, 4); e_phnum := (44, 2); sizeof_phdr := 32;
     p_type := (0, 4); p_flags := (24, 4); p_offset := (4, 4); p_vaddr := (8, 4); p_memsz := (20, 4);
     sizeof_dyn := 8; d_tag := (0, 4); d_val := (4, 4);
     sizeof_sym := 16; st_name := (0, 4); st_info := (12, 1); st_shndx := (14, 2); st_value := (4, 4) |}.

Definition EI_CLASS := 4.
Definition ELFCLASS32 := 1.
Definition ELFCLASS64 := 2.
Definition EM_ARM := 40.
Definition EM_AARCH64 := 183.
Definition PT_LOAD := 1.
Definition PT_DYNAMIC := 2.
Definition DT_NULL := 0.
Definition DT_HASH := 4.
Definition DT_STRTAB := 5.
Definition DT_SYMTAB := 6.
Definition DT_GNU_HASH := 0x6ffffef5.
Definition STB_GLOBAL := 1.
Definition STB_WEAK := 2.
Definition SHN_UNDEF := 0.

(** The bytes 7F 45 4C 46. *)
Definition is_elf (m : Z -> Z) : bool :=
  (m 0 =? 0x7f) && (m 1 =? 0x45) && (m 2 =? 0x4c) && (m 3 =? 0x46).

(** The program headers, in order, and the first one of a kind. *)
Definition phdrs (l : layout) (m : Z -> Z) : list Z :=
  map (fun i => field (e_phoff l) m 0 + i * sizeof_phdr l) (seqZ 0 (field (e_phnum l) m 0)).
Definition first_phdr (l : layout) (test : Z -> bool) (m : Z -> Z) : option Z :=
  snd <$> list_find (fun ph => test ph) (phdrs l m).
Definition dynamic_phdr (l : layout) (m : Z -> Z) : option Z :=
  first_phdr l (fun ph => field (p_type l) m ph =? PT_DYNAMIC) m.

(** [for (; dyn->d_tag != DT_NULL; dyn++) switch (dyn->d_tag) ...] *)
Fixpoint dyn_loop {S} (l : layout) (f : Z -> Z -> S -> S) (fuel : nat) (m : Z -> Z) (dyn : Z) (s : S) : option S :=
  match fuel with
  | O => None
  | Datatypes.S fuel =>
      let tag := field (d_tag l) m dyn in
      if tag =? DT_NULL then Some s
      else dyn_loop l f fuel m (dyn + sizeof_dyn l) (f tag (field (d_val l) m dyn) s)
  end.

(** ** Modules *)

(** An array of 32-bit words in the image or on the heap. *)
Inductive array := InImage (at_ : Z) | OnHeap (l : list Z).

(** The path, the patches and the captured methods are left out. *)
Record ElfModule := {
  handle : Z; memory : Z -> Z; size : Z; mapped_size : Z; load_bias : Z;
  dynsym : option Z; dynsym_sz : Z; dynstr : option Z; hash : option Z; ghash : option Z;
  nbucket : Z; nchain : Z; bucket : option array; chain : option array;
  verneed : option Z; verneednum : Z; verdef : option Z; verdefnum : Z; versym : option Z }.

Definition array_at (m : Z -> Z) (a : array) (i : Z) : Z :=
  match a with
  | InImage p => ld 4 m (p + 4 * i)
  | OnHeap l => nth (Z.to_nat i) l 0
  end.

Definition set_memory (m : Z -> Z) (md : ElfModule) : ElfModule :=
  {| handle := handle md; memory := m; size := size md; mapped_size := mapped_size md;
     load_bias := load_bias md; dynsym := dynsym md; dynsym_sz := dynsym_sz md; dynstr := dynstr md;
     hash := hash md; ghash := ghash md; nbucket := nbucket md; nchain := nchain md;
     bucket := bucket md; chain := chain md; verneed := verneed md; verneednum := verneednum md;
     verdef := verdef md; verdefnum := verdefnum md; versym := versym md |}.
Definition set_tables (nb : Z) (b c : option array) (md : ElfModule) : ElfModule :=
  {| handle := handle md; memory := memory md; size := size md; mapped_size := mapped_size md;
     load_bias := load_bias md; dynsym := dynsym md; dynsym_sz := dynsym_sz md; dynstr := dynstr md;
     hash := hash md; ghash := ghash md; nbucket := nb; nchain := nchain md;
     bucket := b; chain := c; verneed := verneed md; verneednum := verneednum md;
     verdef := verdef md; verdefnum := verdefnum md; versym := versym md |}.
Definition set_versions (vn : option Z) (vnn : Z) (vd : option Z) (vdn : Z) (vs : option Z) (md : ElfModule) : ElfModule :=
  {| handle := handle md; memory := memory md; size := size md; mapped_size := mapped_size md;
     load_bias := load_bias md; dynsym := dynsym md; dynsym_sz := dynsym_sz md; dynstr := dynstr md;
     hash := hash md; ghash := ghash md; nbucket := nbucket md; nchain := nchain md;
     bucket := bucket md; chain := chain md; verneed := vn; verneednum := vnn;
     verdef := vd; verdefnum := vdn; versym := vs |}.

(** A module with its image and sizes and everything else null. *)
Definition new_module (m : Z -> Z) (sz mapped bias : Z) : ElfModule :=
  {| handle := 0; memory := m; size := sz; mapped_size := mapped; load_bias := bias;
     dynsym := None; dynsym_sz := 0; dynstr := None; hash := None; ghash := None;
     nbucket := 0; nchain := 0; bucket := None; chain := None;
     verneed := None; verneednum := 0; verdef := None; verdefnum := 0; versym := None |}.

(** ** Loading *)

(** What [calloc] gives, what [open] finds, and how many bytes a read of [want] bytes at
    position [pos] gives; whether [mmap] succeeds. *)
Section Load.
Context (allocated : bool) (file : option (list Z)) (read_n : Z -> Z -> Z) (mmap_ok : bool).

Definition file_at (bs : list Z) (i : Z) : Z := if i <? 0 then 0 else nth (Z.to_nat i) bs 0.

(** The ends of the segments, over the program headers as they are in the file; a position that
    is negative as an off_t is refused, and reading goes on at the start. *)
Definition max_vaddr (bs : list Z) : Z :=
  let m := file_at bs in
  if m EI_CLASS =? ELFCLASS64 then
    let phoff := field (e_phoff elf64) m 0 in
    let pos := if phoff <? 2 ^ 63 then phoff else 0 in
    let n := field (e_phnum elf64) m 0 in
    if pos + n * sizeof_phdr elf64 <=? Z.of_nat (length bs) then
      fold_left (fun max i =>
        let ph := pos + i * sizeof_phdr elf64 in
        if field (p_type elf64) m ph =? PT_LOAD then
          let end_ := u64 (field (p_vaddr elf64) m ph + field (p_memsz elf64) m ph) in
          if end_ >? max then end_ else max
        else max) (seqZ 0 n) 0
    else 0
  else 0.

(** Reading the file into the mapping, which starts as zeros. *)
Fixpoint read_loop (fuel : nat) (bs : list Z) (bytes_read : Z) (m : Z -> Z) : option (option (Z -> Z)) :=
  match fuel with
  | O => None
  | S fuel =>
      let len := Z.of_nat (length bs) in
      if bytes_read <? len then
        let n := read_n bytes_read (len - bytes_read) in
        if n <=? 0 then Some None
        else read_loop fuel bs (bytes_read + n)
               (fun x => if (bytes_read <=? x) && (x <? bytes_read + n) then file_at bs x else m x)
      else Some (Some m)
  end.

(** One entry of the dynamic section. *)
Definition load_dynamic (l : layout) (gnu : bool) (tag val : Z) (md : ElfModule) : ElfModule :=
  let p := val - load_bias md in
  if tag =? DT_SYMTAB then
    {| handle := handle md; memory := memory md; size := size md; mapped_size := mapped_size md;
       load_bias := load_bias md; dynsym := Some p; dynsym_sz := dynsym_sz md; dynstr := dynstr md;
       hash := hash md; ghash := ghash md; nbucket := nbucket md; nchain := nchain md;
       bucket := bucket md; chain := chain md; verneed := verneed md; verneednum := verneednum md;
       verdef := verdef md; verdefnum := verdefnum md; versym := versym md |}
  else if tag =? DT_STRTAB then
    {| handle := handle md; memory := memory md; size := size md; mapped_size := mapped_size md;
       load_bias := load_bias md; dynsym := dynsym md; dynsym_sz := dynsym_sz md; dynstr := Some p;
       hash := hash md; ghash := ghash md; nbucket := nbucket md; nchain := nchain md;
       bucket := bucket md; chain := chain md; verneed := verneed md; verneednum := verneednum md;
       verdef := verdef md; verdefnum := verdefnum md; versym := versym md |}
  else if tag =? DT_HASH then
    let nb := ld 4 (memory md) p in
    let nc := ld 4 (memory md) (p + 4) in
    {| handle := handle md; memory := memory md; size := size md; mapped_size := mapped_size md;
       load_bias := load_bias md; dynsym := dynsym md;
       dynsym_sz := if bool_decide (is_Some (dynsym md)) && (dynsym_sz md =? 0) then nc * sizeof_sym l
                    else dynsym_sz md;
       dynstr := dynstr md; hash := hash md; ghash := ghash md; nbucket := nb; nchain := nc;
       bucket := Some (InImage (p + 8)); chain := Some (InImage (p + 4 * u32 (2 + nb)));
       verneed := verneed md; verneednum := verneednum md;
       verdef := verdef md; verdefnum := verdefnum md; versym := versym md |}
  else if gnu && (tag =? DT_GNU_HASH) then
    {| handle := handle md; memory := memory md; size := size md; mapped_size := mapped_size md;
       load_bias := load_bias md; dynsym := dynsym md; dynsym_sz := dynsym_sz md; dynstr := dynstr md;
       hash := hash md; ghash := Some p; nbucket := nbucket md; nchain := nchain md;
       bucket := bucket md; chain := chain md; verneed := verneed md; verneednum := verneednum md;
       verdef := verdef md; verdefnum := verdefnum md; versym := versym md |}
  else md.

(** The load bias and the dynamic section. *)
Definition load_headers (l : layout) (gnu : bool) (fuel : nat) (md : ElfModule) : option ElfModule :=
  let m := memory md in
  let bias := match first_phdr l (fun ph => (field (p_type l) m ph =? PT_LOAD) && (field (p_offset l) m ph =? 0)) m with
              | Some ph => field (p_vaddr l) m ph
              | None => load_bias md
              end in
  let md := new_module m (size md) (mapped_size md) bias in
  match dynamic_phdr l m with
  | Some ph => dyn_loop l (load_dynamic l gnu) fuel m (field (p_offset l) m ph) md
  | None => Some md
  end.

(** The result, the module, and the list of modules with the new one in front. *)
Definition ElfLoad (fuel : nat) (path out_module : bool) (list_ : list ElfModule)
    : option (Z * option ElfModule * list ElfModule) :=
  if negb path || negb out_module then Some (ARM2X86_ERR_INVALID_PARAM, None, list_)
  else if negb allocated then Some (ARM2X86_ERR_MEMORY, None, list_)
  else
    match file with
    | None => Some (ARM2X86_ERR_LOAD_FAIL, None, list_)
    | Some bs =>
        let st_size := Z.of_nat (length bs) in
        if st_size <? 4096 then Some (ARM2X86_ERR_LOAD_FAIL, None, list_)
        else
          let map_size := if max_vaddr bs >? 0 then max_vaddr bs else st_size in
          if negb mmap_ok then Some (ARM2X86_ERR_LOAD_FAIL, None, list_)
          else
            m ← read_loop (S (length bs)) bs 0 (fun _ => 0);
            match m with
            | None => Some (ARM2X86_ERR_LOAD_FAIL, None, list_)
            | Some m =>
                if negb (is_elf m) then Some (ARM2X86_ERR_LOAD_FAIL, None, list_)
                else
                  let md := new_module m st_size map_size 0 in
                  md ← (if m EI_CLASS =? ELFCLASS64 then load_headers elf64 true fuel md
                        else if m EI_CLASS =? ELFCLASS32 then load_headers elf32 false fuel md
                        else Some md);
                  Some (ARM2X86_OK, Some md, md :: list_)
            end
    end.

(** [arm64_32_load]: what the header says only decides whether a warning is printed. *)
Definition arm64_32_load (fuel : nat) (path out_module : bool) (list_ : list ElfModule)
    : option (Z * option ElfModule * list ElfModule) :=
  if negb path || negb out_module then Some (-1, None, list_)
  else
    '(rc, md, list_) ← ElfLoad fuel path out_module list_;
    if negb (rc =? 0) then Some (rc, md, list_) else Some (0, md, list_).

(** ** The architecture of a file *)

Definition ElfDetectArch (path out_mode : bool) : Z * option Arm2x86Mode :=
  if negb path || negb out_mode then (ARM2X86_ERR_INVALID_PARAM, None)
  else
    match file with
    | None => (ARM2X86_ERR_LOAD_FAIL, None)
    | Some bs =>
        let ident := file_at bs in
        if Z.of_nat (length bs) <? 16 then (ARM2X86_ERR_LOAD_FAIL, None)
        else if negb (is_elf ident) then (ARM2X86_ERR_LOAD_FAIL, None)
        else if Z.of_nat (length bs) <? 20 then (ARM2X86_ERR_LOAD_FAIL, None)
        else
          let e_machine := ld 2 ident 18 in
          if ident EI_CLASS =? ELFCLASS64 then
            if e_machine =? EM_AARCH64 then (ARM2X86_OK, Some ARM2X86_MODE_ARM64)
            else (ARM2X86_ERR_LOAD_FAIL, None)
          else if ident EI_CLASS =? ELFCLASS32 then
            if e_machine =? EM_ARM then (ARM2X86_OK, Some ARM2X86_MODE_ARM32)
            else (ARM2X86_ERR_LOAD_FAIL, None)
          else (ARM2X86_ERR_LOAD_FAIL, None)
    end.
End Load.

(** ** Unloading *)

(** The destructors of the library are not run. *)
Definition ElfExecuteFini (md : option ElfModule) : unit := tt.

(** The result, the number of bytes unmapped (where anything is), and the list without the
    module, which is the one at position [i]. *)
Definition ElfUnload (i : option nat) (list_ : list ElfModule) : Z * option Z * list ElfModule :=
  match i with
  | None => (ARM2X86_OK, None, list_)
  | Some i => (ARM2X86_OK, size <$> list_ !! i, delete i list_)
  end.

(** ** Hash functions *)

(** A name is the list of its bytes, without the zero at its end. *)
Definition elf_hash (name : list Z) : Z :=
  fold_left (fun h c =>
    let h := u32 ((h <<< 4) + c) in
    let g := h &&& 0xf0000000 in
    let h := if c_true g then h ^^^ (g >>> 24) else h in
    h &&& u32 (Z.lnot g)) name 0.

Definition gnu_hash (name : list Z) : Z :=
  fold_left (fun h c => u32 (h + u32 ((h <<< 5) + c))) name 5381.

(** [strcmp(strtab + st_name, name) == 0] *)
Definition is_name (m : Z -> Z) (p : Z) (name : list Z) : bool :=
  bool_decide (map (fun k => m (p + k)) (seqZ 0 (Z.of_nat (length name) + 1)) = name ++ [0]).

(** The C string at [p], of less than [fuel] bytes. *)
Fixpoint cstring (fuel : nat) (m : Z -> Z) (p : Z) : option (list Z) :=
  match fuel with
  | O => None
  | S fuel => if m p =? 0 then Some [] else l ← cstring fuel m (p + 1); Some (m p :: l)
  end.

(** ** Symbols *)

(** Symbol [i] of a table, and its name. *)
Definition symbol (l : layout) (symtab i : Z) : Z := symtab + i * sizeof_sym l.

(** A chain of the System V hash table. *)
Fixpoint sysv_find (l : layout) (md : ElfModule) (symtab strtab : Z) (name : list Z) (num_syms : Z)
    (fuel : nat) (idx : Z) : option (option Z) :=
  match fuel with
  | O => None
  | S fuel =>
      if negb (idx =? 0) && (idx <? num_syms) then
        let sym := symbol l symtab idx in
        if is_name (memory md) (strtab + field (st_name l) (memory md) sym) name then
          Some (Some (field (st_value l) (memory md) sym - load_bias md))
        else
          c ← chain md;
          sysv_find l md symtab strtab name num_syms fuel (array_at (memory md) c idx)
      else Some None
  end.

(** A chain of the GNU hash table, from symbol [idx] on. *)
Fixpoint gnu_find (md : ElfModule) (symtab strtab chain_ symoffset h : Z) (name : list Z)
    (fuel : nat) (idx : Z) : option Z :=
  match fuel with
  | O => None
  | S fuel =>
      if idx - symoffset >=? nchain md - symoffset then None
      else
        let entry := ld 4 (memory md) (chain_ + 4 * (idx - symoffset)) in
        let sym := symbol elf64 symtab idx in
        if ((entry ||| 1) =? (h ||| 1)) &&
           is_name (memory md) (strtab + field (st_name elf64) (memory md) sym) name then
          Some (field (st_value elf64) (memory md) sym - load_bias md)
        else if (entry &&& 1 =? 0) && (idx + 1 <? nchain md) then
          gnu_find md symtab strtab chain_ symoffset h name fuel (idx + 1)
        else None
  end.

Definition gnu_lookup (md : ElfModule) (name : list Z) : option (option Z) :=
  match ghash md with
  | None => Some None
  | Some gh =>
      let nbuckets := ld 4 (memory md) gh in
      let symoffset := ld 4 (memory md) (gh + 4) in
      let bloom_size := ld 4 (memory md) (gh + 8) in
      if (nbuckets =? 0) || (bloom_size =? 0) || (nchain md <? symoffset) then Some None
      else
        let buckets := gh + 16 + 8 * bloom_size in
        let chain_ := buckets + 4 * nbuckets in
        let h := gnu_hash name in
        let idx := ld 4 (memory md) (buckets + 4 * (h mod nbuckets)) in
        if (symoffset <=? idx) && (idx <? nchain md) then
          symtab ← dynsym md;
          strtab ← dynstr md;
          Some (gnu_find md symtab strtab chain_ symoffset h name (Z.to_nat (nchain md)) idx)
        else Some None
  end.

Section Symbols.
(** [dlsym] of the host: the handle and the name; 0 when there is no such symbol. *)
Context (dlsym : Z -> list Z -> Z).

(** Where a symbol is: in the image, or an address of the host. *)
Inductive place := Offset (p : Z) | Host (a : Z).

Definition host_symbol (md : ElfModule) (name : list Z) : Z * option place :=
  if c_true (handle md) then
    let a := dlsym (handle md) name in
    if c_true a then (ARM2X86_OK, Some (Host a)) else (ARM2X86_ERR_LOAD_FAIL, None)
  else (ARM2X86_ERR_LOAD_FAIL, None).

(** [None] when a chain does not end or a null pointer is followed. *)
Definition ElfGetSymbol (md : option ElfModule) (name : option (list Z)) (symbol : bool)
    : option (Z * option place) :=
  match md, name with
  | Some md, Some name =>
    if negb symbol then Some (ARM2X86_ERR_INVALID_PARAM, None)
    else
      let search :=
        match bucket md, dynsym md, dynstr md with
        | Some b, Some symtab, Some strtab =>
          if 0 <? nbucket md then
            let h := elf_hash name in
            let idx := array_at (memory md) b (h mod nbucket md) in
            let num_syms := if 0 <? nchain md then nchain md else nbucket md in
            let l := if memory md EI_CLASS =? ELFCLASS64 then elf64 else elf32 in
            sysv_find l md symtab strtab name num_syms (S (Z.to_nat num_syms)) idx
          else Some None
        | _, _, _ => Some None
        end in
      r ← search;
      match r with
      | Some p => Some (ARM2X86_OK, Some (Offset p))
      | None =>
        r ← gnu_lookup md name;
        match r with
        | Some p => Some (ARM2X86_OK, Some (Offset p))
        | None => Some (host_symbol md name)
        end
      end
  | _, _ => Some (ARM2X86_ERR_INVALID_PARAM, None)
  end.
End Symbols.

(** ** Building the hash table *)

(** The symbols that go into the table: global or weak, defined, with a value. *)
Definition exported (m : Z -> Z) (sym : Z) : bool :=
  let bind := field (st_info elf64) m sym >>> 4 in
  ((bind =? STB_GLOBAL) || (bind =? STB_WEAK)) &&
  negb (field (st_shndx elf64) m sym =? SHN_UNDEF) && negb (field (st_value elf64) m sym =? 0).

(** One symbol at the head of its chain; [None] for a write behind the array. *)
Definition insert_symbol (nb : Z) (h i : Z) (t : list Z * list Z) : option (list Z * list Z) :=
  let '(b, c) := t in
  let k := Z.to_nat (h mod nb) in
  if i <? Z.of_nat (length c) then
    Some (<[k := i]> b, <[Z.to_nat i := nth k b 0]> c)
  else None.

(** [strings] bounds the length of the names. *)
Fixpoint fill_table (strings fuel : nat) (m : Z -> Z) (nb symtab strtab num_syms i : Z) (t : list Z * list Z)
    : option (list Z * list Z) :=
  match fuel with
  | O => Some t
  | S fuel =>
      let sym := symbol elf64 symtab i in
      let name := field (st_name elf64) m sym in
      if (i <? num_syms) && c_true name then
        t ← (if exported m sym then
               s ← cstring strings m (strtab + name); insert_symbol nb (elf_hash s) i t
             else Some t);
        fill_table strings fuel m nb symtab strtab num_syms (i + 1) t
      else Some t
  end.

(** The scan of the GNU chains, for a count that is not used: [None] when a chain has no end. *)
Fixpoint gnu_chain_end (fuel : nat) (m : Z -> Z) (chain_ symndx sym_idx : Z) : option Z :=
  match fuel with
  | O => None
  | S fuel =>
      if c_true (ld 4 m (chain_ + 4 * u32 (sym_idx - symndx)) &&& 1) then Some sym_idx
      else gnu_chain_end fuel m chain_ symndx (u32 (sym_idx + 1))
  end.

Fixpoint gnu_count (fuel : nat) (m : Z -> Z) (buckets chain_ symndx : Z) (l : list Z) (max_sym : Z) : option Z :=
  match l with
  | [] => Some max_sym
  | i :: l =>
      let b := ld 4 m (buckets + 4 * i) in
      if b >=? symndx then
        e ← gnu_chain_end fuel m chain_ symndx b;
        gnu_count fuel m buckets chain_ symndx l (Z.max max_sym e)
      else gnu_count fuel m buckets chain_ symndx l max_sym
  end.

(** [alloc n]: whether the [n]-th allocation succeeds.  When the second one fails the first
    array is freed, but stays the module's. *)
Definition build_sysv (strings : nat) (alloc : nat -> bool) (symtab strtab : Z) (md : ElfModule) : option (Z * ElfModule) :=
  if negb (bool_decide (is_Some (hash md))) && (0 <? nbucket md) then
    if negb (alloc 0%nat) then Some (ARM2X86_ERR_MEMORY, set_tables (nbucket md) None (chain md) md)
    else if negb (alloc 1%nat) then Some (ARM2X86_ERR_MEMORY, set_tables (nbucket md) (Some (OnHeap [])) None md)
    else
      let num_syms := if 0 <? nchain md then nchain md else nbucket md in
      let num_syms := if num_syms =? 0 then 256 else num_syms in
      '(b, c) ← fill_table strings (Z.to_nat num_syms) (memory md) (nbucket md) symtab strtab num_syms 1
                  (replicate (Z.to_nat (nbucket md)) 0, replicate (Z.to_nat (nchain md)) 0);
      Some (ARM2X86_OK, set_tables (nbucket md) (Some (OnHeap b)) (Some (OnHeap c)) md)
  else Some (ARM2X86_OK, md).

Definition build_gnu (alloc : nat -> bool) (fuel : nat) (md : ElfModule) : option (Z * ElfModule) :=
  match ghash md, bucket md with
  | Some gh, None =>
      let m := memory md in
      let nb := ld 4 m gh in
      let symndx := ld 4 m (gh + 4) in
      let maskwords := ld 4 m (gh + 8) in
      if negb (alloc 2%nat) then Some (ARM2X86_ERR_MEMORY, set_tables nb None (chain md) md)
      else
        let buckets := gh + 4 * u32 (4 + u32 (maskwords * 2)) in
        let chain_ := buckets + 4 * nb in
        _ ← gnu_count fuel m buckets chain_ symndx (seqZ 0 nb) symndx;
        Some (ARM2X86_OK, set_tables nb (Some (OnHeap (map (fun i => ld 4 m (buckets + 4 * i)) (seqZ 0 nb)))) (chain md) md)
  | _, _ => Some (ARM2X86_OK, md)
  end.

Definition ElfBuildSymbolTable (alloc : nat -> bool) (fuel : nat) (md : option ElfModule)
    : option (Z * option ElfModule) :=
  match md with
  | None => Some (ARM2X86_ERR_INVALID_PARAM, None)
  | Some md =>
    match dynsym md, dynstr md with
    | Some symtab, Some strtab =>
        '(rc, md) ← build_sysv fuel alloc symtab strtab md;
        if rc =? ARM2X86_OK then
          '(rc, md) ← build_gnu alloc fuel md; Some (rc, Some md)
        else Some (rc, Some md)
    | _, _ => Some (ARM2X86_OK, Some md)
    end
  end.

(** ** Symbol versions *)

(** Walking a list of structures linked by the distance to the next one: at most [n] of
    them, until [f] has a result. *)
Fixpoint walk {A} (n : nat) (m : Z -> Z) (next : Z * Z) (f : Z -> option A) (cur : Z) : option A :=
  match n with
  | O => None
  | S n =>
      match f cur with
      | Some a => Some a
      | None => let d := field next m cur in if d =? 0 then None else walk n m next f (cur + d)
      end
  end.

(** Elf64_Verdef, Elf64_Verdaux, Elf64_Verneed and Elf64_Vernaux. *)
Definition vd_ndx := (4, 2).
Definition vd_aux := (12, 4).
Definition vd_next := (16, 4).
Definition vda_name := (0, 4).
Definition vn_cnt := (2, 2).
Definition vn_aux := (8, 4).
Definition vn_next := (12, 4).
Definition vna_other := (6, 2).
Definition vna_name := (8, 4).
Definition vna_next := (12, 4).

(** The place of the version name of symbol [sym_idx]; the string table is there. *)
Definition elf_get_symbol_version (md : option ElfModule) (sym_idx : Z) (version_name : bool) : option Z :=
  md ← md;
  if negb version_name then None
  else
    versym ← versym md;
    strtab ← dynstr md;
    let m := memory md in
    let ver_idx := ld 2 m (versym + 2 * sym_idx) in
    if ver_idx <=? 1 then None
    else
      let defined :=
        verdef ← verdef md;
        walk (Z.to_nat (verdefnum md)) m vd_next (fun cur =>
          if field vd_ndx m cur =? ver_idx then
            Some (strtab + field vda_name m (cur + field vd_aux m cur))
          else None) verdef in
      match defined with
      | Some p => Some p
      | None =>
        verneed ← verneed md;
        walk (Z.to_nat (verneednum md)) m vn_next (fun cur =>
          walk (Z.to_nat (field vn_cnt m cur)) m vna_next (fun aux =>
            if field vna_other m aux =? ver_idx then Some (strtab + field vna_name m aux) else None)
            (cur + field vn_aux m cur)) verneed
      end.

Section Versions.
Context (dlsym : Z -> list Z -> Z).

(** The first symbol of a name, searched from 1 on until one has no name; 0 for none. *)
Fixpoint symbol_index (fuel : nat) (md : ElfModule) (symtab strtab : Z) (name : list Z) (num_syms i : Z) : Z :=
  match fuel with
  | O => 0
  | S fuel =>
      let n := field (st_name elf64) (memory md) (symbol elf64 symtab i) in
      if (i <? num_syms) && c_true n then
        if is_name (memory md) (strtab + n) name then i
        else symbol_index fuel md symtab strtab name num_syms (i + 1)
      else 0
  end.

(** The address of the host's symbol, or 0. *)
Definition elf_lookup_versioned_symbol (md : option ElfModule) (name : option (list Z)) (version : option (list Z)) : Z :=
  match md, name with
  | Some md, Some name =>
    if c_true (handle md) then
      let sym := dlsym (handle md) name in
      if c_true sym then
        match version with
        | None => sym
        | Some version =>
          match dynsym md, dynstr md with
          | Some symtab, Some strtab =>
            let num_syms := if 0 <? nchain md then nchain md else nbucket md in
            let i := symbol_index (Z.to_nat num_syms) md symtab strtab name num_syms 1 in
            if 0 <? i then
              match elf_get_symbol_version (Some md) i true with
              | Some p => if is_name (memory md) p version then sym else 0
              | None => 0
              end
            else 0
          | _, _ => 0
          end
        end
      else 0
    else 0
  | _, _ => 0
  end.

(** The number of versions that are not found; [None] when a name does not end. *)
Fixpoint missing_aux (strings n : nat) (md : ElfModule) (strtab aux : Z) (missing : Z) : option Z :=
  match n with
  | O => Some missing
  | S n =>
      name ← cstring strings (memory md) (strtab + field vna_name (memory md) aux);
      let missing := if c_true (elf_lookup_versioned_symbol (Some md) (Some name) (Some name)) then missing
                     else missing + 1 in
      let d := field vna_next (memory md) aux in
      if d =? 0 then Some missing else missing_aux strings n md strtab (aux + d) missing
  end.

Fixpoint missing_versions (strings n : nat) (md : ElfModule) (strtab cur : Z) (missing : Z) : option Z :=
  match n with
  | O => Some missing
  | S n =>
      missing ← (if c_true (handle md) then
                   missing_aux strings (Z.to_nat (field vn_cnt (memory md) cur)) md strtab
                     (cur + field vn_aux (memory md) cur) missing
                 else Some missing);
      let d := field vn_next (memory md) cur in
      if d =? 0 then Some missing else missing_versions strings n md strtab (cur + d) missing
  end.

Definition elf_validate_versions (strings : nat) (md : option ElfModule) : option Z :=
  match md with
  | None => Some ARM2X86_ERR_INVALID_PARAM
  | Some md =>
    match verneed md with
    | None => Some ARM2X86_OK
    | Some vn =>
      if verneednum md =? 0 then Some ARM2X86_OK
      else
        strtab ← dynstr md;
        missing ← missing_versions strings (Z.to_nat (verneednum md)) md strtab vn 0;
        Some (if missing >? 0 then -1 else ARM2X86_OK)
    end
  end.
End Versions.

(** ** Translation of a whole image *)

(** The result of [arm2x86_convert] on the code, and whether it gives code. *)
Definition ElfConvertArm64Code (convert : Z * bool) (md code : bool) (size_ : Z) (mapped : bool) : Z :=
  if negb md || negb code || (size_ =? 0) then ARM2X86_ERR_INVALID_PARAM
  else if (size_ <? 4) || negb mapped then ARM2X86_ERR_INVALID_PARAM
  else
    let '(rc, x86_out) := convert in
    if negb (rc =? ARM2X86_OK) then rc
    else if x86_out then -1
    else ARM2X86_OK.

Definition ElfConvertArm32Code (md code : bool) : Z :=
  if negb md || negb code then ARM2X86_ERR_INVALID_PARAM else ARM2X86_OK.

(** ** The 32-bit data model: [arm2x86_arm64_32.c] *)

Definition EF_AARCH64_ABI := 0x0000000f.
Definition AARCH64_ILP32_ABI := 1.

Definition arm64_32_detect_from_elf (elf : option (Z -> Z)) : Z :=
  match elf with
  | None => -1
  | Some m =>
    if negb (is_elf m) then -1
    else if negb (m EI_CLASS =? ELFCLASS64) then -1
    else if negb (ld 2 m 18 =? EM_AARCH64) then -1
    else if (ld 4 m 48 &&& EF_AARCH64_ABI) =? AARCH64_ILP32_ABI then 1
    else 0
  end.

(** The header of 64 bytes is read from the file. *)
Definition arm64_32_detect (path : bool) (file : option (list Z)) : Z :=
  if negb path then -1
  else
    match file with
    | None => -1
    | Some bs => if Z.of_nat (length bs) <? 64 then -1 else arm64_32_detect_from_elf (Some (file_at bs))
    end.

Definition arm64_32_ptr_to_64 (ptr32 : Z) : Z := u64 ptr32.
Definition arm64_32_ptr_from_64 (ptr64 : Z) : Z := u32 (ptr64 &&& 0xFFFFFFFF).

Definition arm64_32_map_register (arm_reg : Z) : Z := arm2x86_map_register arm_reg.

Definition arm64_32_translate_syscall_args (nr : Z) (args : option (list Z)) (nargs : Z) : Z * option (list Z) :=
  match args with
  | None => (-1, None)
  | Some l => if nargs <? 0 then (-1, Some l) else (0, Some l)
  end.

(** ** Facts about reading and writing *)

Lemma length_ld_bytes n (m : Z -> Z) a : 0 <= n -> Z.of_nat (length (map (fun k => m (a + k)) (seqZ 0 n))) = n.
Proof. intros Hn. rewrite length_map, length_seqZ. lia. Qed.

Lemma ld_ext n m m' a : (forall x, a <= x < a + n -> m x = m' x) -> ld n m a = ld n m' a.
Proof.
  intros H. unfold ld. f_equal. apply map_ext_in. intros k Hk.
  apply list_elem_of_In, elem_of_seqZ in Hk. apply H. lia.
Qed.

Lemma ld_range n m a : 0 <= n -> (forall x, a <= x < a + n -> 0 <= m x < 256) -> 0 <= ld n m a < 2 ^ (8 * n).
Proof.
  intros Hn Hb. unfold ld.
  assert (Hbs : bytes (map (fun k => m (a + k)) (seqZ 0 n))).
  { apply List.Forall_forall. intros b Hin. apply in_map_iff in Hin as (k & <- & Hk).
    apply list_elem_of_In, elem_of_seqZ in Hk. apply Hb. lia. }
  apply le_bytes_combine in Hbs. rewrite <- Hbs, le_combine_bytes, length_ld_bytes by done.
  apply Z.mod_pos_bound, Z.pow_pos_nonneg; lia.
Qed.

Lemma st_in n a v m x : a <= x < a + n -> st n a v m x = u8 (v >>> (8 * (x - a))).
Proof. intros H. unfold st. destruct (Z.leb_spec a x), (Z.ltb_spec x (a + n)); done || lia. Qed.

Lemma st_out n a v m x : ~ (a <= x < a + n) -> st n a v m x = m x.
Proof. intros H. unfold st. destruct (Z.leb_spec a x), (Z.ltb_spec x (a + n)); done || lia. Qed.

Lemma ld_st_apart n k a b v m : b + k <= a \/ a + n <= b -> ld n (st k b v m) a = ld n m a.
Proof. intros H. apply ld_ext. intros x Hx. apply st_out. lia. Qed.

Lemma le_bytes_nth n v i : (i < n)%nat -> nth i (le_bytes n v) 0 = u8 (v >>> (8 * Z.of_nat i)).
Proof.
  revert v i. induction n as [|n IH]; intros v [|i] Hi; try lia;
    change (le_bytes (S n) v) with (u8 v :: le_bytes n (v >>> 8)); cbn [nth].
  - by rewrite Z.mul_0_r, Z.shiftr_0_r.
  - rewrite IH by lia. rewrite Z.shiftr_shiftr by lia. do 2 f_equal. lia.
Qed.

Lemma ld_st_same n a v m : 0 <= n -> ld n (st n a v m) a = v mod 2 ^ (8 * n).
Proof.
  intros Hn. unfold ld. replace (v mod 2 ^ (8 * n)) with (le_combine (le_bytes (Z.to_nat n) v))
    by (rewrite le_combine_bytes; do 3 f_equal; lia).
  f_equal.
  apply list_eq_same_length with (n := Z.to_nat n); [by rewrite length_le_bytes|by rewrite length_map, length_seqZ|].
  intros i x y Hi Hx Hy.
  rewrite list_lookup_fmap, lookup_seqZ_lt in Hx by lia. injection Hx as <-.
  rewrite st_in by lia. apply nth_lookup_Some with (d := 0) in Hy. subst y.
  rewrite le_bytes_nth by done. do 2 f_equal. lia.
Qed.

(** ** The hash table of the symbols *)

(** The reference: the symbols that go into the table as an association list, the newest
    first.  [None] when a name does not end. *)
Fixpoint exported_symbols (strings fuel : nat) (m : Z -> Z) (symtab strtab num_syms i : Z)
    (E : list (Z * list Z)) : option (list (Z * list Z)) :=
  match fuel with
  | O => Some E
  | S fuel =>
      let sym := symbol elf64 symtab i in
      let name := field (st_name elf64) m sym in
      if (i <? num_syms) && c_true name then
        E ← (if exported m sym then s ← cstring strings m (strtab + name); Some ((i, s) :: E) else Some E);
        exported_symbols strings fuel m symtab strtab num_syms (i + 1) E
      else Some E
  end.

Definition with_name (name : list Z) (E : list (Z * list Z)) : option (Z * list Z) :=
  List.find (fun e => bool_decide (snd e = name)) E.

(** The symbols of one bucket, and the list a chain links. *)
Definition in_bucket (nb k : Z) (E : list (Z * list Z)) : list (Z * list Z) :=
  List.filter (fun e => elf_hash (snd e) mod nb =? k) E.

Fixpoint linked (c : list Z) (idx : Z) (l : list Z) : Prop :=
  match l with
  | [] => idx = 0
  | j :: l => idx = j /\ linked c (nth (Z.to_nat j) c 0) l
  end.

Record table_ok (m : Z -> Z) (strings : nat) (symtab strtab nb nc i : Z) (E : list (Z * list Z)) (t : list Z * list Z) : Prop := {
  table_buckets : Z.of_nat (length (fst t)) = nb;
  table_chains : Z.of_nat (length (snd t)) = nc;
  table_linked : forall k, 0 <= k < nb -> linked (snd t) (nth (Z.to_nat k) (fst t) 0) (map fst (in_bucket nb k E));
  table_below : forall j s, In (j, s) E -> 0 < j < i;
  table_names : forall j s, In (j, s) E ->
    cstring strings m (strtab + field (st_name elf64) m (symbol elf64 symtab j)) = Some s;
  table_length : Z.of_nat (length E) < i }.

Lemma linked_ext c c' idx l : (forall j, In j l -> nth (Z.to_nat j) c 0 = nth (Z.to_nat j) c' 0) ->
  linked c idx l -> linked c' idx l.
Proof.
  revert idx. induction l as [|j l IH]; intros idx Hext; [done|]. cbn. intros [-> Hl]. split; [done|].
  rewrite <- Hext by (by left). apply IH; [|done]. intros k Hk. apply Hext. by right.
Qed.

Lemma in_bucket_in nb k E e : In e (in_bucket nb k E) -> In e E.
Proof. intros H. by apply List.filter_In in H as [? _]. Qed.

Lemma insert_symbol_ok m strings symtab strtab nb nc i E t s : 0 < nb -> 0 < i < nc ->
  cstring strings m (strtab + field (st_name elf64) m (symbol elf64 symtab i)) = Some s ->
  table_ok m strings symtab strtab nb nc i E t ->
  exists t', insert_symbol nb (elf_hash s) i t = Some t' /\
    table_ok m strings symtab strtab nb nc (i + 1) ((i, s) :: E) t'.
Proof.
  intros Hnb Hi Hs [Hb Hc Hl Hj Hn Hlen]. destruct t as [b c]. cbn in *. unfold insert_symbol.
  destruct (Z.ltb_spec i (Z.of_nat (length c))) as [Hic|]; [|lia]. eexists. split; [done|].
  pose proof (Z.mod_pos_bound (elf_hash s) nb Hnb) as Hk. set (k := elf_hash s mod nb) in *.
  split; cbn [fst snd].
  - by rewrite length_insert.
  - by rewrite length_insert.
  - intros k' Hk'. unfold in_bucket. cbn [List.filter snd]. fold k.
    assert (Hsame : linked (<[Z.to_nat i := nth (Z.to_nat k) b 0]> c) (nth (Z.to_nat k') b 0)
              (map fst (in_bucket nb k' E))).
    { eapply linked_ext; [|by apply Hl]. intros j Hin. apply in_map_iff in Hin as ([j' s'] & <- & Hin).
      apply in_bucket_in, Hj in Hin. cbn. rewrite nth_insert by lia.
      by destruct (decide (Z.to_nat j' = Z.to_nat i)); [lia|]. }
    rewrite nth_insert by lia. destruct (Z.eqb_spec k k') as [<-|Hne]; cbn [map fst linked].
    + destruct (decide (Z.to_nat k = Z.to_nat k)); [|done]. split; [done|].
      rewrite nth_insert by lia. by destruct (decide (Z.to_nat i = Z.to_nat i)).
    + by destruct (decide (Z.to_nat k' = Z.to_nat k)); [lia|].
  - intros j s' [[= <- <-]|Hin]; [lia|]. apply Hj in Hin. lia.
  - intros j s' [[= <- <-]|Hin]; [done|]. by apply Hn.
  - cbn [length]. lia.
Qed.

Lemma table_ok_step m strings symtab strtab nb nc i E t :
  table_ok m strings symtab strtab nb nc i E t -> table_ok m strings symtab strtab nb nc (i + 1) E t.
Proof. intros [? ? ? Hj ? ?]. split; try done; [|lia]. intros j s Hin. apply Hj in Hin. lia. Qed.

Lemma fill_table_spec m strings symtab strtab nb num fuel i E t E' :
  0 < nb -> 0 < i <= num -> table_ok m strings symtab strtab nb num i E t ->
  exported_symbols strings fuel m symtab strtab num i E = Some E' ->
  exists t', fill_table strings fuel m nb symtab strtab num i t = Some t' /\
    table_ok m strings symtab strtab nb num num E' t'.
Proof.
  intros Hnb. revert i E t. induction fuel as [|fuel IH]; intros i E t Hi Ht HE.
  - injection HE as <-. exists t. split; [done|]. destruct Ht as [? ? ? Hj ? ?].
    split; try done; [|lia]. intros j s Hin. apply Hj in Hin. lia.
  - cbn [exported_symbols fill_table] in *. cbv zeta in *.
    destruct ((i <? num) && _) eqn:Ec.
    + apply andb_true_iff in Ec as [Hlt%Z.ltb_lt _].
      destruct (exported m (symbol elf64 symtab i)); cbn [mbind option_bind] in *.
      * destruct (cstring _ _ _) as [s|] eqn:Es; cbn [mbind option_bind] in *; [|done].
        destruct (insert_symbol_ok m strings symtab strtab nb num i E t s) as (t' & -> & Ht'); [done|lia|done|done|].
        cbn [mbind option_bind]. eapply IH; [| |done]; [lia|done].
      * eapply IH; [| |done]; [lia|by apply table_ok_step].
    + injection HE as <-. exists t. split; [done|]. destruct Ht as [? ? ? Hj ? ?].
      split; try done; [|lia]. intros j s Hin. apply Hj in Hin. lia.
Qed.

Lemma empty_table_ok m strings symtab strtab nb nc : 0 <= nb -> 0 <= nc ->
  table_ok m strings symtab strtab nb nc 1 [] (replicate (Z.to_nat nb) 0, replicate (Z.to_nat nc) 0).
Proof.
  intros Hb Hc. split; cbn; try done; rewrite ?length_replicate; try lia.
  intros k Hk. generalize (Z.to_nat k). induction (Z.to_nat nb) as [|n IH]; intros [|j]; cbn; auto.
Qed.

(** *** Names *)

Lemma is_name_nil m p : is_name m p [] = (m p =? 0).
Proof.
  unfold is_name. change (map _ _) with [m (p + 0)]. rewrite Z.add_0_r. cbn [app].
  destruct (Z.eqb_spec (m p) 0) as [->|Hne].
  - by apply bool_decide_eq_true.
  - apply bool_decide_eq_false. congruence.
Qed.

Lemma is_name_cons m p a name : is_name m p (a :: name) = (m p =? a) && is_name m (p + 1) name.
Proof.
  unfold is_name.
  assert (E : map (fun k => m (p + k)) (seqZ 0 (Z.of_nat (length (a :: name)) + 1)) =
    m p :: map (fun k => m (p + 1 + k)) (seqZ 0 (Z.of_nat (length name) + 1))).
  { cbn [length]. rewrite Nat2Z.inj_succ. rewrite seqZ_cons by lia. cbn [map]. rewrite Z.add_0_r. f_equal.
    replace (Z.pred (Z.succ (Z.of_nat (length name)) + 1)) with (Z.of_nat (length name) + 1) by lia.
    change (Z.succ 0) with (0 + 1). rewrite Z.add_comm, <- fmap_add_seqZ. change (fmap (Z.add 1)) with (map (Z.add 1)).
    rewrite map_map. apply map_ext. intros k. f_equal. lia. }
  rewrite E. cbn [app]. destruct (Z.eqb_spec (m p) a) as [->|Hne]; cbn [andb].
  - apply bool_decide_ext. split; [by intros [=]|]. by intros ->.
  - apply bool_decide_eq_false. congruence.
Qed.

Lemma is_name_cstring n m p s name : cstring n m p = Some s -> ~ In 0 name ->
  is_name m p name = bool_decide (s = name).
Proof.
  revert p s name. induction n as [|n IH]; intros p s name; cbn [cstring]; [done|].
  destruct (Z.eqb_spec (m p) 0) as [H0|H0].
  - intros [= <-] Hz. destruct name as [|a name].
    + by rewrite is_name_nil, H0.
    + rewrite is_name_cons, H0. destruct (Z.eqb_spec 0 a) as [<-|]; [by destruct Hz; left|done].
  - destruct (cstring n m (p + 1)) as [s'|] eqn:E; cbn [mbind option_bind]; [|done]. intros [= <-] Hz.
    destruct name as [|a name].
    + rewrite is_name_nil. by apply Z.eqb_neq in H0 as ->.
    + rewrite is_name_cons, (IH _ s' name E) by (intros Hin; by destruct Hz; right).
      destruct (Z.eqb_spec (m p) a) as [->|Hne]; cbn [andb].
      * apply bool_decide_ext. split; [by intros ->|by intros [=]].
      * symmetry. apply bool_decide_eq_false. congruence.
Qed.

(** *** Lookup *)

Lemma sysv_find_linked md symtab strtab strings name num c : chain md = Some (OnHeap c) -> ~ In 0 name ->
  forall E fuel idx, linked c idx (map fst E) -> (length E < fuel)%nat ->
  (forall j s, In (j, s) E -> 0 < j < num /\
     cstring strings (memory md) (strtab + field (st_name elf64) (memory md) (symbol elf64 symtab j)) = Some s) ->
  sysv_find elf64 md symtab strtab name num fuel idx =
  Some ((fun e => field (st_value elf64) (memory md) (symbol elf64 symtab (fst e)) - load_bias md) <$> with_name name E).
Proof.
  intros Hc Hz. induction E as [|[j s] E IH]; intros [|fuel] idx Hl Hf HE; cbn [length] in Hf; try lia;
    cbn [map fst linked sysv_find] in *.
  - by subst idx.
  - destruct Hl as [-> Hl]. destruct (HE j s) as [Hj Hs]; [by left|].
    destruct (Z.eqb_spec j 0), (Z.ltb_spec j num); try lia. cbn [negb andb]. cbv zeta.
    rewrite (is_name_cstring _ _ _ _ _ Hs Hz). unfold with_name. cbn [List.find snd].
    destruct (bool_decide (s = name)); [done|]. rewrite Hc. cbn [mbind option_bind array_at].
    apply IH; [done|lia|]. intros j' s' Hin. apply HE. by right.
Qed.

Lemma with_name_bucket nb name E : with_name name (in_bucket nb (elf_hash name mod nb) E) = with_name name E.
Proof.
  unfold with_name, in_bucket. induction E as [|[j s] E IH]; [done|]. cbn [List.filter List.find snd].
  destruct (bool_decide_reflect (s = name)) as [->|Hne].
  - rewrite Z.eqb_refl. cbn [List.find snd]. by rewrite bool_decide_eq_true_2.
  - destruct (_ =? _); [|done]. cbn [List.find snd]. by rewrite bool_decide_eq_false_2.
Qed.

Lemma length_in_bucket nb k E : (length (in_bucket nb k E) <= length E)%nat.
Proof. unfold in_bucket. induction E as [|e E IH]; cbn; [done|]. destruct (_ =? _); cbn; lia. Qed.

(** C20: The hash table of the symbols is an association list.  When the table of a 64-bit module
    is built, with the numbers of buckets and symbols known, looking a name up gives the
    value of the last exported symbol of that name before the first symbol without a
    name, relative to the load bias; a name none of them has is not found (in a module
    with no GNU table and no handle of the host).  The lookup ends: no chain is a cycle. *)
Theorem symbol_table_lookup dlsym strings alloc md symtab strtab E name :
  memory md EI_CLASS = ELFCLASS64 -> dynsym md = Some symtab -> dynstr md = Some strtab ->
  hash md = None -> 0 < nbucket md -> 0 < nchain md -> (forall n, alloc n = true) ->
  exported_symbols strings (Z.to_nat (nchain md)) (memory md) symtab strtab (nchain md) 1 [] = Some E ->
  ~ In 0 name ->
  exists md', ElfBuildSymbolTable alloc strings (Some md) = Some (ARM2X86_OK, Some md') /\
    memory md' = memory md /\ load_bias md' = load_bias md /\
    (forall i s, with_name name E = Some (i, s) ->
       ElfGetSymbol dlsym (Some md') (Some name) true =
       Some (ARM2X86_OK, Some (Offset (field (st_value elf64) (memory md) (symbol elf64 symtab i) - load_bias md)))) /\
    (with_name name E = None -> ghash md = None -> handle md = 0 ->
       ElfGetSymbol dlsym (Some md') (Some name) true = Some (ARM2X86_ERR_LOAD_FAIL, None)).
Proof.
  intros Hcl Hsym Hstr Hh Hb Hc Ha HE Hz.
  destruct (fill_table_spec (memory md) strings symtab strtab (nbucket md) (nchain md) (Z.to_nat (nchain md)) 1 []
    (replicate (Z.to_nat (nbucket md)) 0, replicate (Z.to_nat (nchain md)) 0) E) as ([b c] & Hfill & Ht);
    [done|lia|apply empty_table_ok; lia|done|].
  exists (set_tables (nbucket md) (Some (OnHeap b)) (Some (OnHeap c)) md).
  set (md' := set_tables (nbucket md) (Some (OnHeap b)) (Some (OnHeap c)) md).
  pose proof (Z.mod_pos_bound (elf_hash name) (nbucket md) Hb) as Hk.
  assert (Hfind : sysv_find elf64 md' symtab strtab name (nchain md) (S (Z.to_nat (nchain md)))
      (nth (Z.to_nat (elf_hash name mod nbucket md)) b 0) =
    Some ((fun e => field (st_value elf64) (memory md) (symbol elf64 symtab (fst e)) - load_bias md) <$> with_name name E)).
  { rewrite <- (with_name_bucket (nbucket md)).
    apply (sysv_find_linked md' symtab strtab strings name (nchain md) c eq_refl Hz);
      [by apply (table_linked _ _ _ _ _ _ _ _ _ Ht)| |].
    - pose proof (length_in_bucket (nbucket md) (elf_hash name mod nbucket md) E).
      pose proof (table_length _ _ _ _ _ _ _ _ _ Ht). cbn in *. lia.
    - intros j s Hin%in_bucket_in. split; [|by apply (table_names _ _ _ _ _ _ _ _ _ Ht)].
      apply (table_below _ _ _ _ _ _ _ _ _ Ht) in Hin. lia. }
  assert (Hget : ElfGetSymbol dlsym (Some md') (Some name) true =
    match with_name name E with
    | Some e => Some (ARM2X86_OK, Some (Offset (field (st_value elf64) (memory md) (symbol elf64 symtab (fst e)) - load_bias md)))
    | None => r ← gnu_lookup md' name;
              match r with Some p => Some (ARM2X86_OK, Some (Offset p)) | None => Some (host_symbol dlsym md' name) end
    end).
  { unfold ElfGetSymbol. subst md'. cbn [negb bucket dynsym dynstr nbucket nchain memory set_tables array_at].
    rewrite Hsym, Hstr, Hcl. destruct (Z.ltb_spec 0 (nbucket md)), (Z.ltb_spec 0 (nchain md)); try lia.
    rewrite Z.eqb_refl, Hfind. by destruct (with_name name E) as [[i s]|]. }
  split_and!; [|done|done| |].
  - unfold ElfBuildSymbolTable, build_sysv. rewrite Hsym, Hstr, Hh, !Ha. cbn [bool_decide negb andb].
    destruct (Z.ltb_spec 0 (nbucket md)), (Z.ltb_spec 0 (nchain md)); try lia. cbn [andb]. cbv zeta.
    destruct (Z.eqb_spec (nchain md) 0); [lia|]. rewrite Hfill. cbn. unfold build_gnu. cbn. by destruct (ghash md).
  - intros i s Hw. by rewrite Hget, Hw.
  - intros Hw Hg Hd. rewrite Hget, Hw. unfold gnu_lookup, host_symbol. subst md'. cbn. by rewrite Hg, Hd.
Qed.

(** A module with the symbols f, g and another f, whose bias is 0x1000. *)
Definition symbol_image : Z -> Z :=
  let sym i name value m :=
    st 8 (0x108 + 24 * i) value (st 2 (0x106 + 24 * i) 1 (st 1 (0x104 + 24 * i) 0x10 (st 4 (0x100 + 24 * i) name m))) in
  sym 1 1 0x1500 (sym 2 3 0x1600 (sym 3 1 0x1700
    (st 1 0x203 103 (st 1 0x201 102 (st 1 EI_CLASS ELFCLASS64 (fun _ => 0)))))).
Definition symbol_module : ElfModule :=
  {| handle := 0; memory := symbol_image; size := 0x1000; mapped_size := 0x1000; load_bias := 0x1000;
     dynsym := Some 0x100; dynsym_sz := 96; dynstr := Some 0x200; hash := None; ghash := None;
     nbucket := 2; nchain := 4; bucket := None; chain := None;
     verneed := None; verneednum := 0; verdef := None; verdefnum := 0; versym := None |}.

Lemma symbol_table_lookup_witness :
  exists md, ElfBuildSymbolTable (fun _ => true) 8 (Some symbol_module) = Some (ARM2X86_OK, Some md) /\
    ElfGetSymbol (fun _ _ => 0) (Some md) (Some [102]) true = Some (ARM2X86_OK, Some (Offset 0x700)).
Proof.
  destruct (symbol_table_lookup (fun _ _ => 0) 8 (fun _ => true) symbol_module 0x100 0x200
    [(3, [102]); (2, [103]); (1, [102])] [102]) as (md & Hb & _ & _ & Hf & _); try done; try lia.
  - intros [H|[]]. discriminate H.
  - exists md. split; [exact Hb|]. etransitivity; [by apply (Hf 3 [102])|]. vm_compute. reflexivity.
Defined.

(** ** Loading a file *)

Lemma dyn_loop_inv {S} (P : S -> Prop) l f fuel m dyn s s' :
  (forall tag val s, P s -> P (f tag val s)) -> P s -> dyn_loop l f fuel m dyn s = Some s' -> P s'.
Proof.
  intros Hf. revert dyn s. induction fuel as [|fuel IH]; intros dyn s Hs; cbn [dyn_loop]; [done|].
  cbv zeta. destruct (_ =? _); [by intros [= <-]|]. apply IH. by apply Hf.
Qed.

(** What the dynamic section does not change. *)
Definition same_image (md md' : ElfModule) : Prop :=
  memory md' = memory md /\ size md' = size md /\ mapped_size md' = mapped_size md /\
  hash md' = None /\ handle md' = 0.

Lemma load_dynamic_image l gnu md tag val s : same_image md s -> same_image md (load_dynamic l gnu tag val s).
Proof. unfold load_dynamic, same_image. intros H. repeat case_match; done. Qed.

Lemma load_headers_image l gnu fuel md md' : load_headers l gnu fuel md = Some md' -> same_image md md'.
Proof.
  unfold load_headers. cbv zeta. destruct (dynamic_phdr l (memory md)) as [ph|].
  - apply dyn_loop_inv; [|done]. intros tag val s. apply load_dynamic_image.
  - by intros [= <-].
Qed.

Lemma read_loop_spec read_n bs : (forall pos want, 0 < want -> 0 < read_n pos want <= want) ->
  forall fuel k m, 0 <= k <= Z.of_nat (length bs) -> Z.of_nat (length bs) - k < Z.of_nat fuel ->
  (forall x, m x = if x <? k then file_at bs x else 0) ->
  exists m', read_loop read_n fuel bs k m = Some (Some m') /\ forall x, m' x = file_at bs x.
Proof.
  intros Hr. induction fuel as [|fuel IH]; intros k m Hk Hf Hm; [lia|]. cbn [read_loop]. cbv zeta.
  destruct (Z.ltb_spec k (Z.of_nat (length bs))) as [Hlt|Hge].
  - destruct (Hr k (Z.of_nat (length bs) - k)) as [H1 H2]; [lia|].
    destruct (Z.leb_spec (read_n k (Z.of_nat (length bs) - k)) 0); [lia|].
    apply IH; [lia|lia|]. intros x. rewrite Hm.
    destruct (Z.leb_spec k x), (Z.ltb_spec x (k + read_n k (Z.of_nat (length bs) - k))), (Z.ltb_spec x k);
      cbn [andb]; done || lia.
  - exists m. split; [done|]. intros x. rewrite Hm. destruct (Z.ltb_spec x k); [done|].
    unfold file_at. destruct (Z.ltb_spec x 0); [done|]. symmetry. apply nth_overflow. lia.
Qed.

(** A file of 4096 bytes with one segment to be loaded, of 100 bytes. *)
Definition small_segment : list Z :=
  write_at 104 (le_bytes 8 100) (write_at 64 (le_bytes 4 PT_LOAD) (write_at 56 (le_bytes 2 1)
    (write_at 32 (le_bytes 8 64) (write_at 0 [0x7f; 0x45; 0x4c; 0x46; ELFCLASS64] (replicate 4096 0))))).

(** C24: What loading a file gives.  If the reads make progress, then whatever parts they read the
    file in, the module's image is the file (its bytes at their offsets in the file, zero
    behind them), its size is that of the file, and it is at the head of the list of
    modules; unloading it gives the list back, but unmaps the size of the file, while
    the mapping has the size the segments need.  The image is written up to the size of
    the file even where the mapping is smaller: 3996 bytes behind it in the example. *)
Theorem elf_load_image bs read_n fuel rc md l l' :
  (forall pos want, 0 < want -> 0 < read_n pos want <= want) ->
  ElfLoad true (Some bs) read_n true fuel true true l = Some (rc, Some md, l') ->
  rc = ARM2X86_OK /\ l' = md :: l /\ (forall x, memory md x = file_at bs x) /\ is_elf (file_at bs) = true /\
  size md = Z.of_nat (length bs) /\ mapped_size md = (if max_vaddr bs >? 0 then max_vaddr bs else size md) /\
  hash md = None /\ handle md = 0 /\ ElfUnload (Some 0%nat) l' = (ARM2X86_OK, Some (size md), l) /\
  length small_segment = 4096%nat /\ max_vaddr small_segment = 100.
Proof.
  intros Hr. unfold ElfLoad. cbn [negb orb]. cbv zeta.
  destruct (Z.ltb_spec (Z.of_nat (length bs)) 4096) as [|Hlen]; [done|].
  destruct (read_loop_spec read_n bs Hr (S (length bs)) 0 (fun _ => 0)) as (m & -> & Hm); [lia|lia| |].
  { intros x. destruct (Z.ltb_spec x 0); [|done]. unfold file_at. by destruct (Z.ltb_spec x 0); [|lia]. }
  cbn [mbind option_bind]. destruct (is_elf m) eqn:Ee; cbn [negb]; [|done]. intros H.
  assert (He : is_elf (file_at bs) = true) by (unfold is_elf in *; by rewrite <- !Hm).
  set (md0 := new_module _ _ _ _) in H.
  assert (Hmd : rc = ARM2X86_OK /\ l' = md :: l /\ same_image md0 md).
  { destruct (m EI_CLASS =? ELFCLASS64).
    { destruct (load_headers elf64 true fuel md0) eqn:E; cbn in H; [|done]. injection H as <- <- <-.
      by apply load_headers_image in E. }
    destruct (m EI_CLASS =? ELFCLASS32).
    { destruct (load_headers elf32 false fuel md0) eqn:E; cbn in H; [|done]. injection H as <- <- <-.
      by apply load_headers_image in E. }
    cbn in H. injection H as <- <- <-. done. }
  destruct Hmd as (-> & -> & Hi1 & Hi2 & Hi3 & Hi4 & Hi5). cbn in *.
  split_and!; try done; [by rewrite Hi1|by rewrite Hi3, Hi2].
Qed.

Lemma elf_load_image_witness :
  exists md l', ElfLoad true (Some small_segment) (fun _ want => want) true 1 true true [] = Some (ARM2X86_OK, Some md, l') /\
    size md = 4096 /\ mapped_size md = 100.
Proof.
  assert (Hr : forall pos want : Z, 0 < want -> 0 < want <= want) by lia.
  assert (Hl : match ElfLoad true (Some small_segment) (fun _ want => want) true 1 true true [] with
               | Some (_, Some _, _) => true | _ => false end = true) by (vm_compute; reflexivity).
  destruct (ElfLoad true (Some small_segment) (fun _ want => want) true 1 true true []) as [[[rc [md|]] l']|] eqn:E; [|done|done].
  destruct (elf_load_image small_segment (fun _ want => want) 1 rc md [] l' Hr E)
    as (-> & _ & _ & _ & Hs & Hm & _ & _ & _ & H1 & H2).
  exists md, l'. split; [done|]. split; [by rewrite Hs, H1|]. by rewrite Hm, H2.
Defined.
