(* ===== verification/Reloc.v ===== *)
(** * Relocation: [modules/arm2x86_elf.c] and [modules/arm2x86_syscall.c]

    The relocation functions rewrite words of a module's image: RELA entries and the PLT
    ([ElfRelocate]), REL entries ([ElfRelocate32]), RELR tables and Android's packed
    format.  The tables are part of the image, and are read from it as it is at that
    moment.  [None] is a result that is not defined: a null pointer followed, a division by
    zero, a shift beyond the width, a string or a list without end. *)
From Stdlib Require Import ZArith Lia Bool.
From stdpp Require Import base numbers list.
From S2P Require Import Prelude Decode64 Elf.
Open Scope Z_scope.
Open Scope c_scope.

Definition R_AARCH64_ABS64 := 257.
Definition R_AARCH64_GLOB_DAT := 1025.
Definition R_AARCH64_JUMP_SLOT := 1026.
Definition R_AARCH64_RELATIVE := 1027.
Definition R_ARM_ABS32 := 2.
Definition R_ARM_GLOB_DAT := 21.
Definition R_ARM_JUMP_SLOT := 22.
Definition R_ARM_RELATIVE := 23.

Definition DT_PLTRELSZ := 2.
Definition DT_RELA := 7.
Definition DT_RELASZ := 8.
Definition DT_RELAENT := 9.
Definition DT_REL := 17.
Definition DT_RELSZ := 18.
Definition DT_RELENT := 19.
Definition DT_JMPREL := 23.
Definition DT_RELRSZ := 35.
Definition DT_RELR := 36.
Definition DT_RELRENT := 37.
Definition DT_VERSYM := 0x6ffffff0.
Definition DT_VERDEF := 0x6ffffffc.
Definition DT_VERDEFNUM := 0x6ffffffd.
Definition DT_VERNEED := 0x6ffffffe.
Definition DT_VERNEEDNUM := 0x6fffffff.
Definition DT_ANDROID_REL := 0x6ffffffa.
Definition DT_ANDROID_RELSZ := 0x6ffffffb.
Definition PF_X := 1.
Definition PF_W := 2.

Section Relocation.
(** [dlsym] of the host (handle 0 is RTLD_DEFAULT), and a bound on the lengths of names. *)
Context (dlsym : Z -> list Z -> Z) (strings : nat).

(** The address the host has for symbol [idx], 0 for none. *)
Definition host_address (l : layout) (hd : Z) (md : ElfModule) (m : Z -> Z) (idx : Z) : option Z :=
  symtab ← dynsym md;
  strtab ← dynstr md;
  name ← cstring strings m (strtab + field (st_name l) m (symbol l symtab idx));
  Some (dlsym hd name).

(** ** RELA *)

Definition sizeof_rela := 24.
Definition r_offset (m : Z -> Z) (r : Z) : Z := ld 8 m r.
Definition r_info (m : Z -> Z) (r : Z) : Z := ld 8 m (r + 8).
Definition r_addend (m : Z -> Z) (r : Z) : Z := ld 8 m (r + 16).

Definition in_mapping (md : ElfModule) (off : Z) : bool :=
  negb ((off <? load_bias md) || (off >=? u64 (load_bias md + mapped_size md))).
Definition bad_symbol (l : layout) (md : ElfModule) (idx : Z) : bool :=
  (dynsym_sz md =? 0) || (idx >=? dynsym_sz md / sizeof_sym l).

Definition apply_rela (md : ElfModule) (m : Z -> Z) (r : Z) : option (Z -> Z) :=
  let type := r_info m r &&& 0xffffffff in
  if negb (in_mapping md (r_offset m r)) then Some m
  else
    let loc := r_offset m r - load_bias md in
    let sym_idx := r_info m r >>> 32 in
    if type =? R_AARCH64_RELATIVE then Some (st 8 loc (load_bias md + r_addend m r) m)
    else if (type =? R_AARCH64_GLOB_DAT) || (type =? R_AARCH64_ABS64) then
      if bad_symbol elf64 md sym_idx then Some m
      else
        sym ← host_address elf64 0 md m sym_idx;
        Some (if c_true sym then st 8 loc (sym + r_addend m r) m else m)
    else if type =? R_AARCH64_JUMP_SLOT then
      if bad_symbol elf64 md sym_idx then Some m
      else
        sym ← host_address elf64 0 md m sym_idx;
        Some (if c_true sym then st 8 loc sym m else m)
    else Some m.

Definition apply_plt (md : ElfModule) (m : Z -> Z) (r : Z) : option (Z -> Z) :=
  let type := r_info m r &&& 0xffffffff in
  if type =? R_AARCH64_JUMP_SLOT then
    let sym_idx := r_info m r >>> 32 in
    if bad_symbol elf64 md sym_idx then Some m
    else
      sym ← host_address elf64 0 md m sym_idx;
      if c_true sym then
        if negb (in_mapping md (r_offset m r)) then Some m
        else Some (st 8 (r_offset m r - load_bias md) sym m)
      else Some m
  else Some m.

(** [for (j = 0; j < n; j++) f(&table[j])], over entries of [stride] bytes. *)
Fixpoint table_loop (f : (Z -> Z) -> Z -> option (Z -> Z)) (stride : Z) (n : nat) (r : Z) (m : Z -> Z)
    : option (Z -> Z) :=
  match n with
  | O => Some m
  | S n => m ← f m r; table_loop f stride n (r + stride) m
  end.

(** A table of the dynamic section: nothing without address or size; the entry size is only
    used for the number of entries. *)
Definition apply_table (f : (Z -> Z) -> Z -> option (Z -> Z)) (stride bias addr sz ent : Z) (m : Z -> Z)
    : option (Z -> Z) :=
  if c_true addr && c_true sz then
    if ent =? 0 then None else table_loop f stride (Z.to_nat (sz / ent)) (addr - bias) m
  else Some m.

Record rela_info := {
  rela_addr : Z; rela_sz : Z; rela_ent : Z; plt_addr : Z; plt_sz : Z; plt_ent : Z; versions : ElfModule }.

Definition rela_start (md : ElfModule) : rela_info :=
  {| rela_addr := 0; rela_sz := 0; rela_ent := sizeof_rela; plt_addr := 0; plt_sz := 0;
     plt_ent := sizeof_rela; versions := md |}.

Definition rela_dynamic (tag val : Z) (i : rela_info) : rela_info :=
  let set a s e p q v :=
    {| rela_addr := a; rela_sz := s; rela_ent := e; plt_addr := p; plt_sz := q; plt_ent := plt_ent i; versions := v |} in
  let a := rela_addr i in let s := rela_sz i in let e := rela_ent i in
  let p := plt_addr i in let q := plt_sz i in let v := versions i in
  let ptr := Some (val - load_bias v) in
  if tag =? DT_RELA then set val s e p q v
  else if tag =? DT_RELASZ then set a val e p q v
  else if tag =? DT_RELAENT then set a s val p q v
  else if tag =? DT_JMPREL then set a s e val q v
  else if tag =? DT_PLTRELSZ then set a s e p val v
  else if tag =? DT_VERNEED then
    set a s e p q (set_versions ptr (verneednum v) (verdef v) (verdefnum v) (versym v) v)
  else if tag =? DT_VERNEEDNUM then
    set a s e p q (set_versions (verneed v) (u32 val) (verdef v) (verdefnum v) (versym v) v)
  else if tag =? DT_VERDEF then
    set a s e p q (set_versions (verneed v) (verneednum v) ptr (verdefnum v) (versym v) v)
  else if tag =? DT_VERDEFNUM then
    set a s e p q (set_versions (verneed v) (verneednum v) (verdef v) (u32 val) (versym v) v)
  else if tag =? DT_VERSYM then
    set a s e p q (set_versions (verneed v) (verneednum v) (verdef v) (verdefnum v) ptr v)
  else i.

(** The calls of mprotect for the segments: offset, size and protection; the place of the
    program headers is the one found before the relocation. *)
Definition protections (l : layout) (phoff : Z) (m : Z -> Z) : list (Z * Z * Z) :=
  omap (fun i =>
    let ph := phoff + i * sizeof_phdr l in
    if (field (p_type l) m ph =? PT_LOAD) && negb (field (p_memsz l) m ph =? 0) then
      let flags := field (p_flags l) m ph in
      let prot := 1 in
      let prot := if c_true (flags &&& PF_W) then prot ||| 2 else prot in
      let prot := if c_true (flags &&& PF_X) then prot ||| 4 else prot in
      Some (field (p_offset l) m ph, field (p_memsz l) m ph, prot)
    else None) (seqZ 0 (field (e_phnum l) m 0)).

Definition ElfRelocate (fuel : nat) (md : option ElfModule) : option (Z * option ElfModule * list (Z * Z * Z)) :=
  match md with
  | None => Some (ARM2X86_ERR_INVALID_PARAM, None, [])
  | Some md =>
    let m := memory md in
    if negb (m EI_CLASS =? ELFCLASS64) then Some (ARM2X86_ERR_INVALID_PARAM, Some md, [])
    else
      md' ← match dynamic_phdr elf64 m with
            | None => Some md
            | Some ph =>
              i ← dyn_loop elf64 rela_dynamic fuel m (field (p_offset elf64) m ph) (rela_start md);
              let md := versions i in
              m ← apply_table (apply_rela md) sizeof_rela (load_bias md) (rela_addr i) (rela_sz i) (rela_ent i) m;
              m ← apply_table (apply_plt md) sizeof_rela (load_bias md) (plt_addr i) (plt_sz i) (plt_ent i) m;
              Some (set_memory m md)
            end;
      Some (ARM2X86_OK, Some md', protections elf64 (field (e_phoff elf64) m 0) (memory md'))
  end.

(** ** REL *)

Definition sizeof_rel := 8.
Definition r_offset32 (m : Z -> Z) (r : Z) : Z := ld 4 m r.
Definition r_info32 (m : Z -> Z) (r : Z) : Z := ld 4 m (r + 4).

Definition apply_rel (md : ElfModule) (m : Z -> Z) (r : Z) : option (Z -> Z) :=
  let type := r_info32 m r &&& 0xff in
  let off := r_offset32 m r in
  if (off <? load_bias md) || (off >=? size md) then Some m
  else
    let loc := off - load_bias md in
    if type =? R_ARM_RELATIVE then Some (st 4 loc (ld 4 m loc + load_bias md) m)
    else if (type =? R_ARM_ABS32) || (type =? R_ARM_GLOB_DAT) || (type =? R_ARM_JUMP_SLOT) then
      let sym_idx := r_info32 m r >>> 8 in
      if bad_symbol elf32 md sym_idx then Some m
      else if c_true (handle md) then
        sym ← host_address elf32 (handle md) md m sym_idx;
        Some (if c_true sym then st 4 loc sym m else m)
      else Some m
    else Some m.

Definition rel_dynamic (tag val : Z) (i : Z * Z * Z) : Z * Z * Z :=
  let '(addr, sz, ent) := i in
  if tag =? DT_REL then (val, sz, ent)
  else if tag =? DT_RELSZ then (addr, val, ent)
  else if tag =? DT_RELENT then (addr, sz, val)
  else i.

Definition ElfRelocate32 (fuel : nat) (md : option ElfModule) : option (Z * option ElfModule * list (Z * Z * Z)) :=
  match md with
  | None => Some (ARM2X86_ERR_INVALID_PARAM, None, [])
  | Some md =>
    let m := memory md in
    if negb (m EI_CLASS =? ELFCLASS32) then Some (ARM2X86_ERR_INVALID_PARAM, Some md, [])
    else
      m' ← match dynamic_phdr elf32 m with
           | None => Some m
           | Some ph =>
             '(addr, sz, ent) ← dyn_loop elf32 rel_dynamic fuel m (field (p_offset elf32) m ph) (0, 0, sizeof_rel);
             apply_table (apply_rel md) sizeof_rel (load_bias md) addr sz ent m
           end;
      Some (ARM2X86_OK, Some (set_memory m' md), protections elf32 (field (e_phoff elf32) m 0) m')
  end.

(** ** RELR *)

Definition in_image (md : ElfModule) (a : Z) : bool :=
  (load_bias md <=? a) && (a <? u64 (load_bias md + size md)).

Section Relr.
(** The word size in bytes: 8 or 4. *)
Context (w : Z) (md : ElfModule) (table : Z) (nrelr : nat).

Definition word (v : Z) : Z := v mod 2 ^ (8 * w).
Definition relr (m : Z -> Z) (i : nat) : Z := ld w m (table + w * Z.of_nat i).

Definition add_bias (a : Z) (m : Z -> Z) : Z -> Z :=
  if in_image md a then
    let loc := a - load_bias md in st w loc (ld w m loc + load_bias md) m
  else m.

(** The bits of one bitmap, [bit_offset] words behind [addr]. *)
Definition apply_bitmap (addr bit_offset bitmap : Z) (m : Z -> Z) : Z -> Z :=
  fold_left (fun m bit =>
    if c_true ((bitmap >>> bit) &&& 1) then add_bias (word (addr + (bit_offset + bit) * w)) m else m)
    (seqZ 0 (8 * w)) m.

(** The loop over bitmaps: one, and those after it that are zero. *)
Fixpoint bitmap_loop (fuel : nat) (addr bit_offset : Z) (i : nat) (m : Z -> Z) : nat * (Z -> Z) :=
  match fuel with
  | O => (i, m)
  | S fuel =>
      if (i <? nrelr)%nat then
        let m := apply_bitmap addr bit_offset (relr m i) m in
        let i := S i in
        if (i <? nrelr)%nat && (c_true (relr m i &&& 1) || negb (relr m i =? 0)) then (i, m)
        else bitmap_loop fuel addr (bit_offset + 8 * w) i m
      else (i, m)
  end.

Fixpoint relr_loop (fuel : nat) (addr : Z) (i : nat) (m : Z -> Z) : Z -> Z :=
  match fuel with
  | O => m
  | S fuel =>
      if (i <? nrelr)%nat then
        let entry := relr m i in
        if c_true (entry &&& 1) then
          let addr := word (addr + w) in relr_loop fuel addr (S i) (add_bias addr m)
        else if entry =? 0 then relr_loop fuel addr (S i) m
        else
          let '(i, m) := bitmap_loop nrelr entry 0 (S i) m in relr_loop fuel entry i m
      else m
  end.

Definition apply_relr (m : Z -> Z) : Z -> Z :=
  match nrelr with
  | O => m
  | S _ => let addr := relr m 0 in relr_loop nrelr addr 1 (add_bias addr m)
  end.
End Relr.

Definition relr_dynamic (tag val : Z) (i : Z * Z * Z) : Z * Z * Z :=
  let '(addr, sz, ent) := i in
  if tag =? DT_RELR then (val, sz, ent)
  else if tag =? DT_RELRSZ then (addr, val, ent)
  else if tag =? DT_RELRENT then (addr, sz, val)
  else i.

Definition apply_relr_class (l : layout) (w : Z) (fuel : nat) (md : ElfModule) : option ElfModule :=
  let m := memory md in
  '(addr, sz, ent) ← match dynamic_phdr l m with
                     | Some ph => dyn_loop l relr_dynamic fuel m (field (p_offset l) m ph) (0, 0, 0)
                     | None => Some (0, 0, 0)
                     end;
  if negb (c_true addr) || negb (c_true sz) then Some md
  else
    let ent := if ent =? 0 then w else ent in
    Some (set_memory (apply_relr w md (addr - load_bias md) (Z.to_nat (sz / ent)) m) md).

Definition apply_relr_relocations (fuel : nat) (md : option ElfModule) : option (Z * option ElfModule) :=
  match md with
  | None => Some (ARM2X86_ERR_INVALID_PARAM, None)
  | Some md =>
    let class_ := memory md EI_CLASS in
    md ← (if class_ =? ELFCLASS64 then apply_relr_class elf64 8 fuel md
          else if class_ =? ELFCLASS32 then apply_relr_class elf32 4 fuel md
          else Some md);
    Some (ARM2X86_OK, Some md)
  end.

(** ** LEB128 *)

(** The value and the pointer behind it; at most nine bytes go before the last. *)
Fixpoint uleb_loop (fuel : nat) (m : Z -> Z) (ptr shift result : Z) : option (Z * Z) :=
  match fuel with
  | O => None
  | S fuel =>
      let byte := m ptr in
      let result := result ||| u64 ((byte &&& 0x7f) <<< shift) in
      if c_true (byte &&& 0x80) then uleb_loop fuel m (ptr + 1) (shift + 7) result
      else Some (result, ptr + 1)
  end.
Definition decode_uleb128 (m : Z -> Z) (ptr : Z) : option (Z * Z) := uleb_loop 10 m ptr 0 0.

Fixpoint sleb_loop (fuel : nat) (m : Z -> Z) (ptr shift result : Z) : option (Z * Z) :=
  match fuel with
  | O => None
  | S fuel =>
      let byte := m ptr in
      let result := s64 (result ||| ((byte &&& 0x7f) <<< shift)) in
      let shift := shift + 7 in
      if c_true (byte &&& 0x80) then sleb_loop fuel m (ptr + 1) shift result
      else
        Some (if (shift <? 64) && c_true (byte &&& 0x40) then s64 (result ||| - (1 <<< shift)) else result, ptr + 1)
  end.
Definition decode_sleb128 (m : Z -> Z) (ptr : Z) : option (Z * Z) := sleb_loop 10 m ptr 0 0.

(** ** Android's packed relocations *)

Definition packed64 (md : ElfModule) (m : Z -> Z) (type addend off : Z) : option (Z -> Z) :=
  if negb (in_image md off) then Some m
  else
    let loc := off - load_bias md in
    let rebased := st 8 loc (load_bias md + addend) m in
    if type =? R_AARCH64_RELATIVE then Some rebased
    else if (type =? R_AARCH64_GLOB_DAT) || (type =? R_AARCH64_ABS64) || (type =? R_AARCH64_JUMP_SLOT) then
      match dynsym md with
      | None => Some m
      | Some _ =>
        let sym_idx := u32 addend in
        let otherwise := if type =? R_AARCH64_ABS64 then rebased else m in
        if (0 <? sym_idx) && (sym_idx <? size md / sizeof_sym elf64) then
          if c_true (handle md) then
            sym ← host_address elf64 (handle md) md m sym_idx;
            Some (if c_true sym then st 8 loc (sym + addend) m else otherwise)
          else Some otherwise
        else Some otherwise
      end
    else Some rebased.

Definition packed32 (md : ElfModule) (m : Z -> Z) (type addend off : Z) : option (Z -> Z) :=
  if negb (in_image md off) then Some m
  else
    let loc := off - load_bias md in
    let rebased := st 4 loc (ld 4 m loc + (load_bias md + addend)) m in
    if (type =? R_ARM_ABS32) || (type =? R_ARM_GLOB_DAT) || (type =? R_ARM_JUMP_SLOT) then
      match dynsym md with
      | None => Some m
      | Some _ =>
        let sym_idx := u32 addend in
        if (0 <? sym_idx) && (sym_idx <? size md / sizeof_sym elf32) then
          if c_true (handle md) then
            sym ← host_address elf32 (handle md) md m sym_idx;
            Some (if c_true sym then st 4 loc (sym + addend) m else rebased)
          else Some rebased
        else Some rebased
      end
    else Some rebased.

(** Where the decoding is: the pointer, the offset, the relocations done, and the image. *)
Record packed := { ptr : Z; current_offset : Z; processed : Z; image : Z -> Z }.

Section Packed.
Context (apply : (Z -> Z) -> Z -> Z -> Z -> option (Z -> Z)) (end_ reloc_count : Z).

(** The relocations of one group, from number [j] on. *)
Fixpoint group_loop (fuel : nat) (group_count type addend j : Z) (s : packed) : option packed :=
  match fuel with
  | O => Some s
  | S fuel =>
      if (j <? group_count) && (ptr s <? end_) && (processed s <? reloc_count) then
        '(delta, p) ← decode_uleb128 (image s) (ptr s);
        let off := u64 (current_offset s + delta) in
        m ← apply (image s) type addend off;
        group_loop fuel group_count type addend (j + 1)
          {| ptr := p; current_offset := off; processed := processed s + 1; image := m |}
      else Some s
  end.

Fixpoint groups_loop (fuel : nat) (s : packed) : option packed :=
  match fuel with
  | O => Some s
  | S fuel =>
      if (processed s <? reloc_count) && (ptr s <? end_) then
        '(group_count, p) ← decode_uleb128 (image s) (ptr s);
        if (group_count =? 0) || (p >=? end_) then Some s
        else
          '(type, p) ← decode_uleb128 (image s) p;
          if p >=? end_ then Some s
          else
            '(addend, p) ← decode_sleb128 (image s) p;
            if p >=? end_ then Some s
            else
              s ← group_loop (Z.to_nat (end_ - p)) group_count type addend 0
                    {| ptr := p; current_offset := current_offset s; processed := processed s; image := image s |};
              groups_loop fuel s
      else Some s
  end.
End Packed.

Definition packed_dynamic (tag val : Z) (i : Z * Z) : Z * Z :=
  let '(addr, sz) := i in
  if tag =? DT_ANDROID_REL then (val, sz) else if tag =? DT_ANDROID_RELSZ then (addr, val) else i.

(** The image after the packed relocations at [rel_data]. *)
Definition apply_packed (class64 : bool) (md : ElfModule) (rel_data sz : Z) (m : Z -> Z) : option (Z -> Z) :=
  let end_ := rel_data + sz in
  if rel_data + 2 >? end_ then Some m
  else
    '(reloc_count, p) ← decode_uleb128 m rel_data;
    '(_, p) ← decode_uleb128 m p;
    if (reloc_count =? 0) || (p >=? end_) then Some m
    else
      s ← groups_loop (if class64 then packed64 md else packed32 md) end_ reloc_count (Z.to_nat sz)
            {| ptr := p; current_offset := 0; processed := 0; image := m |};
      Some (image s).

Definition apply_android_packed_relocs (fuel : nat) (md : option ElfModule) : option (Z * option ElfModule) :=
  match md with
  | None => Some (ARM2X86_ERR_INVALID_PARAM, None)
  | Some md =>
    let m := memory md in
    let class64 := m EI_CLASS =? ELFCLASS64 in
    let l := if class64 then elf64 else elf32 in
    '(addr, sz) ← match dynamic_phdr l m with
                  | Some ph => dyn_loop l packed_dynamic fuel m (field (p_offset l) m ph) (0, 0)
                  | None => Some (0, 0)
                  end;
    if negb (c_true addr) || negb (c_true sz) then Some (ARM2X86_OK, Some md)
    else
      m ← apply_packed class64 md (addr - load_bias md) sz m;
      Some (ARM2X86_OK, Some (set_memory m md))
  end.

(** [arm64_32_relocate] and [arm64_32_apply_relocations] *)
Definition arm64_32_relocate (fuel : nat) (md : option ElfModule) : option (Z * option ElfModule * list (Z * Z * Z)) :=
  match md with
  | None => Some (-1, None, [])
  | Some md => ElfRelocate fuel (Some md)
  end.
Definition arm64_32_apply_relocations (fuel : nat) (md : option ElfModule) : option (Z * option ElfModule * list (Z * Z * Z)) :=
  match md with
  | None => Some (-1, None, [])
  | Some md => arm64_32_relocate fuel (Some md)
  end.
End Relocation.

(** ** LEB128: the reference encoding and the round trip *)

Definition bytes_at (m : Z -> Z) (p : Z) (bs : list Z) : Prop :=
  forall k b, bs !! k = Some b -> m (p + Z.of_nat k) = b.

Fixpoint uleb_bytes (n : nat) (v : Z) : list Z :=
  match n with
  | O => []
  | S n => if v <? 128 then [v] else (v mod 128 + 128) :: uleb_bytes n (v / 128)
  end.
Definition uleb128 (v : Z) : list Z := uleb_bytes 10 v.

Fixpoint sleb_bytes (n : nat) (v : Z) : list Z :=
  match n with
  | O => []
  | S n => if (-64 <=? v) && (v <? 64) then [v mod 128] else (v mod 128 + 128) :: sleb_bytes n (v / 128)
  end.
Definition sleb128 (v : Z) : list Z := sleb_bytes 10 v.

Lemma bytes_at_cons m p b bs : bytes_at m p (b :: bs) -> m p = b /\ bytes_at m (p + 1) bs.
Proof.
  intros H. split; [rewrite <- (Z.add_0_r p); by apply (H O)|].
  intros k c Hk. rewrite <- (H (S k) c Hk). f_equal. lia.
Qed.

Lemma bytes_at_app m p bs bs' : bytes_at m p (bs ++ bs') -> bytes_at m p bs /\ bytes_at m (p + Z.of_nat (length bs)) bs'.
Proof.
  intros H. split; intros k b Hk.
  - apply H. by apply lookup_app_l_Some.
  - rewrite <- (H (length bs + k)%nat b); [f_equal; lia|]. rewrite lookup_app_r by lia. rewrite <- Hk. f_equal. lia.
Qed.

Lemma bytes_at_ext m m' p bs :
  (forall x, p <= x < p + Z.of_nat (length bs) -> m' x = m x) -> bytes_at m p bs -> bytes_at m' p bs.
Proof. intros He H k b Hk. pose proof (lookup_lt_Some _ _ _ Hk). rewrite He by lia. by apply H. Qed.

Lemma lor_disjoint a b s : 0 <= s -> 0 <= a < 2 ^ s -> a ||| (b <<< s) = a + b * 2 ^ s.
Proof.
  intros Hs Ha. rewrite <- Z.shiftl_mul_pow2 by done.
  assert (Hl : a &&& (b <<< s) = 0).
  { apply Z.bits_inj'. intros n Hn. rewrite Z.land_spec, Z.bits_0. destruct (Z.lt_ge_cases n s).
    - by rewrite Z.shiftl_spec_low, andb_false_r.
    - rewrite <- (Z.mod_small a (2 ^ s)) by done. by rewrite Z.mod_pow2_bits_high. }
  by rewrite Z.add_nocarry_lxor, Z.lxor_lor.
Qed.

(** The two parts of a byte. *)
Lemma land_7f b : b &&& 0x7f = b mod 128.
Proof. exact (land_ones_mod b 7 0x7f ltac:(lia) eq_refl). Qed.

Lemma land_80 b : 0 <= b < 256 -> c_true (b &&& 0x80) = (128 <=? b).
Proof.
  intros H. apply eqb_prop. revert b H. apply (all_below_spec 256 (fun b => eqb (c_true (b &&& 0x80)) (128 <=? b))).
  by vm_compute.
Qed.

Lemma land_40 b : 0 <= b < 128 -> c_true (b &&& 0x40) = (64 <=? b).
Proof.
  intros H. apply eqb_prop. revert b H. apply (all_below_spec 128 (fun b => eqb (c_true (b &&& 0x40)) (64 <=? b))).
  by vm_compute.
Qed.

Lemma byte_more v : let b := v mod 128 + 128 in c_true (b &&& 0x80) = true /\ b &&& 0x7f = v mod 128.
Proof.
  cbv zeta. pose proof (Z.mod_pos_bound v 128 ltac:(lia)). rewrite land_80, land_7f by lia.
  split; [apply Z.leb_le; lia|]. rewrite Z.add_mod, Z.mod_mod, Z.mod_same, Z.add_0_r, Z.mod_mod by lia. done.
Qed.

Lemma byte_last v : 0 <= v < 128 -> c_true (v &&& 0x80) = false /\ v &&& 0x7f = v.
Proof. intros H. rewrite land_80, land_7f by lia. split; [apply Z.leb_gt; lia|]. by rewrite Z.mod_small. Qed.

Lemma pow_7 s : 0 <= s -> 2 ^ (s + 7) = 128 * 2 ^ s.
Proof. intros. rewrite Z.pow_add_r by lia. change (2 ^ 7) with 128. lia. Qed.

Lemma limb r a q : 0 <= r < q -> 0 <= a < 128 -> 0 <= r + a * q < 128 * q.
Proof. nia. Qed.

Lemma uleb_loop_bytes m n : forall v p shift result, 0 <= shift -> 0 <= result < 2 ^ shift ->
  0 <= v < 2 ^ (7 * Z.of_nat n) -> result + v * 2 ^ shift < 2 ^ 64 -> bytes_at m p (uleb_bytes n v) ->
  uleb_loop n m p shift result = Some (result + v * 2 ^ shift, p + Z.of_nat (length (uleb_bytes n v))) \/ n = O.
Proof.
  induction n as [|n IH]; intros v p shift result Hs Hr Hv Hb Hm; [by right|left].
  pose proof (Z.pow_pos_nonneg 2 shift ltac:(lia) Hs) as Hp.
  cbn [uleb_bytes uleb_loop] in *. cbv zeta. destruct (Z.ltb_spec v 128) as [Hlt|Hge].
  - apply bytes_at_cons in Hm as [-> _]. destruct (byte_last v) as [-> ->]; [lia|].
    rewrite u64_small, lor_disjoint by (rewrite ?Z.shiftl_mul_pow2 by done; nia). done.
  - apply bytes_at_cons in Hm as [-> Hm]. destruct (byte_more v) as [-> ->].
    pose proof (Z.mod_pos_bound v 128 ltac:(lia)). pose proof (Z.div_mod v 128 ltac:(lia)) as Hd.
    rewrite u64_small, lor_disjoint by (rewrite ?Z.shiftl_mul_pow2 by done; nia).
    assert (Hn : 2 ^ (7 * Z.of_nat (S n)) = 128 * 2 ^ (7 * Z.of_nat n)).
    { rewrite <- pow_7 by lia. f_equal. lia. }
    destruct (IH (v / 128) (p + 1) (shift + 7) (result + v mod 128 * 2 ^ shift)) as [->| ->]; [lia| | | |done| |].
    + rewrite pow_7 by done. nia.
    + split; [apply Z.div_pos; lia|apply Z.div_lt_upper_bound; lia].
    + rewrite pow_7 by done. nia.
    + cbn [length]. f_equal. f_equal; [rewrite pow_7 by done; nia|lia].
    + cbn in Hn, Hv. lia.
Qed.

Lemma decode_uleb128_bytes m p v : 0 <= v < 2 ^ 64 -> bytes_at m p (uleb128 v) ->
  decode_uleb128 m p = Some (v, p + Z.of_nat (length (uleb128 v))).
Proof.
  intros Hv Hm. destruct (uleb_loop_bytes m 10 v p 0 0) as [E|]; [lia|lia| |lia|done| |done].
  - change (2 ^ (7 * Z.of_nat 10)) with (64 * 2 ^ 64). lia.
  - unfold decode_uleb128. rewrite E. do 2 f_equal. lia.
Qed.

Lemma s64_small v : - 2 ^ 63 <= v < 2 ^ 63 -> s64 v = v.
Proof. intros. unfold s64. rewrite Z.mod_small by lia. lia. Qed.

Lemma s64_add v k : s64 (v + k * 2 ^ 64) = s64 v.
Proof. unfold s64. replace (v + k * 2 ^ 64 + 2 ^ 63) with (v + 2 ^ 63 + k * 2 ^ 64) by lia. by rewrite Z_mod_plus_full. Qed.

(** The last byte of a signed number. *)
Lemma sleb_last v shift result : 0 <= shift <= 63 -> 0 <= result < 2 ^ shift -> -64 <= v < 64 ->
  - 2 ^ 63 <= result + v * 2 ^ shift < 2 ^ 63 -> (shift <= 56 \/ shift = 63) ->
  let r := s64 (result ||| ((v mod 128) <<< shift)) in
  (if (shift + 7 <? 64) && c_true ((v mod 128) &&& 0x40) then s64 (r ||| - (1 <<< (shift + 7))) else r) = result + v * 2 ^ shift.
Proof.
  intros Hs Hr Hv Hb Hc. cbv zeta. pose proof (Z.mod_pos_bound v 128 ltac:(lia)) as Hm.
  pose proof (limb _ _ _ Hr Hm) as Hl.
  pose proof (Z.pow_pos_nonneg 2 shift ltac:(lia) ltac:(lia)) as Hp.
  rewrite lor_disjoint, land_40 by lia. destruct Hc as [Hc| ->].
  - destruct (Z.ltb_spec (shift + 7) 64); [|lia]. cbn [andb].
    pose proof (Z.pow_le_mono_r 2 shift 56 ltac:(lia) ltac:(lia)) as H56.
    change (2 ^ 63) with (128 * 2 ^ 56) in *.
    rewrite (s64_small (result + v mod 128 * 2 ^ shift)) by lia.
    destruct (Z.lt_ge_cases v 0) as [Hn|Hn].
    + assert (Hv' : v mod 128 = v + 128) by (symmetry; apply (Z.mod_unique_pos _ _ (-1)); lia).
      rewrite Hv'. destruct (Z.leb_spec 64 (v + 128)); [|lia].
      replace (- (1 <<< (shift + 7))) with (-1 <<< (shift + 7)) by (rewrite !Z.shiftl_mul_pow2; lia).
      rewrite lor_disjoint by (rewrite ?pow_7, <- ?Hv'; lia).
      rewrite pow_7 by lia. rewrite s64_small; lia.
    + rewrite (Z.mod_small v) by lia. by destruct (Z.leb_spec 64 v); [lia|].
  - change (63 + 7 <? 64) with false. cbn [andb]. pose proof (Z.div_mod v 128 ltac:(lia)).
    replace (result + v mod 128 * 2 ^ 63) with (result + v * 2 ^ 63 + - (64 * (v / 128)) * 2 ^ 64) by lia.
    rewrite s64_add. by apply s64_small.
Qed.

Lemma sleb_loop_bytes m n : forall v p result, let shift := 70 - 7 * Z.of_nat n in
  0 <= shift -> 0 <= result < 2 ^ shift -> - 2 ^ 63 <= result + v * 2 ^ shift < 2 ^ 63 ->
  bytes_at m p (sleb_bytes n v) ->
  sleb_loop n m p shift result = Some (result + v * 2 ^ shift, p + Z.of_nat (length (sleb_bytes n v))) \/ n = O.
Proof.
  induction n as [|n IH]; intros v p result shift Hs Hr Hb Hm; [by right|left].
  pose proof (Z.pow_pos_nonneg 2 shift ltac:(lia) Hs) as Hp.
  cbn [sleb_bytes sleb_loop] in *. cbv zeta. destruct ((-64 <=? v) && (v <? 64)) eqn:Ev.
  - apply andb_prop in Ev as [Ev1 Ev2]. apply bytes_at_cons in Hm as [-> _].
    pose proof (Z.mod_pos_bound v 128 ltac:(lia)).
    destruct (byte_last (v mod 128)) as [-> ->]; [lia|]. rewrite sleb_last by lia. done.
  - apply bytes_at_cons in Hm as [-> Hm]. destruct (byte_more v) as [-> ->].
    pose proof (Z.mod_pos_bound v 128 ltac:(lia)). pose proof (Z.div_mod v 128 ltac:(lia)) as Hd.
    assert (Hs56 : shift <= 56).
    { destruct n as [|n]; [|lia]. exfalso. change shift with 63 in *.
      apply andb_false_iff in Ev as [Ev|Ev]; [apply Z.leb_gt in Ev|apply Z.ltb_ge in Ev]; lia. }
    pose proof (Z.pow_le_mono_r 2 shift 56 ltac:(lia) ltac:(lia)) as H56.
    pose proof (limb result (v mod 128) _ Hr ltac:(lia)) as Hl.
    rewrite lor_disjoint, s64_small by (change (2 ^ 63) with (128 * 2 ^ 56) in *; lia).
    replace (shift + 7) with (70 - 7 * Z.of_nat n) by lia.
    assert (Hp7 : 2 ^ (70 - 7 * Z.of_nat n) = 128 * 2 ^ shift) by (rewrite <- pow_7 by done; f_equal; lia).
    destruct (IH (v / 128) (p + 1) (result + v mod 128 * 2 ^ shift)) as [->| ->]; [lia| | |done| |lia].
    + rewrite Hp7. nia.
    + rewrite Hp7. nia.
    + cbn [length]. f_equal. f_equal; [rewrite Hp7; nia|lia].
Qed.

Lemma decode_sleb128_bytes m p v : - 2 ^ 63 <= v < 2 ^ 63 -> bytes_at m p (sleb128 v) ->
  decode_sleb128 m p = Some (v, p + Z.of_nat (length (sleb128 v))).
Proof.
  intros Hv Hm. destruct (sleb_loop_bytes m 10 v p 0) as [E|]; [done|done|cbn; lia|done| |done].
  unfold decode_sleb128. etransitivity; [exact E|]. do 2 f_equal. cbn. lia.
Qed.

(** C22: LEB128 numbers round-trip: every unsigned 64-bit number and every signed one, encoded
    the standard way, is decoded to itself, and the pointer is left behind its last byte. *)
Theorem leb128_roundtrip m p u s :
  0 <= u < 2 ^ 64 -> - 2 ^ 63 <= s < 2 ^ 63 -> bytes_at m p (uleb128 u ++ sleb128 s) ->
  decode_uleb128 m p = Some (u, p + Z.of_nat (length (uleb128 u))) /\
  decode_sleb128 m (p + Z.of_nat (length (uleb128 u))) =
    Some (s, p + Z.of_nat (length (uleb128 u ++ sleb128 s))).
Proof.
  intros Hu Hs [H1 H2]%bytes_at_app. rewrite length_app, Nat2Z.inj_add, Z.add_assoc.
  split; [by apply decode_uleb128_bytes|by apply decode_sleb128_bytes].
Qed.

(** 624485 and the smallest signed number. *)
Definition leb_image : Z -> Z := file_at [0; 0xe5; 0x8e; 0x26; 128; 128; 128; 128; 128; 128; 128; 128; 128; 127].

Lemma leb128_roundtrip_witness :
  decode_uleb128 leb_image 1 = Some (624485, 4) /\ decode_sleb128 leb_image 4 = Some (- 2 ^ 63, 14).
Proof.
  apply (leb128_roundtrip leb_image 1 624485 (- 2 ^ 63)); [lia|lia|].
  intros k b Hk. pose proof (lookup_lt_Some _ _ _ Hk) as Hl. change (length _) with 13%nat in Hl.
  do 13 (destruct k as [|k]; [injection Hk as <-; vm_compute; reflexivity|]). lia.
Defined.

(** ** RELR: the addresses that are relocated *)

(** The addresses of a table in the way the code reads it, over its entries. *)
Section RelrTargets.
Context (w : Z).

Definition bitmap_targets (addr bit_offset bitmap : Z) : list Z :=
  omap (fun bit => if c_true ((bitmap >>> bit) &&& 1) then Some (word w (addr + (bit_offset + bit) * w)) else None)
    (seqZ 0 (8 * w)).

(** One bitmap and the zeros behind it, and the entries that are left. *)
Fixpoint bitmap_run (addr bit_offset : Z) (l : list Z) : list Z * list Z :=
  match l with
  | [] => ([], [])
  | b :: l' =>
      let here := bitmap_targets addr bit_offset b in
      match l' with
      | [] => (here, [])
      | e :: _ => if e =? 0 then let '(t, rest) := bitmap_run addr (bit_offset + 8 * w) l' in (here ++ t, rest)
                  else (here, l')
      end
  end.

Fixpoint relr_run (fuel : nat) (addr : Z) (l : list Z) : list Z :=
  match fuel, l with
  | S fuel, e :: l =>
      if c_true (e &&& 1) then let a := word w (addr + w) in a :: relr_run fuel a l
      else if e =? 0 then relr_run fuel addr l
      else let '(t, rest) := bitmap_run e 0 l in t ++ relr_run fuel e rest
  | _, _ => []
  end.

Definition relr_targets (l : list Z) : list Z :=
  match l with [] => [] | a :: l => a :: relr_run (S (length l)) a l end.

(** The addresses of a table as the ELF format has it: an even entry is an address, and the
    bits of an odd one, but for the lowest, stand for the words that follow. *)
Fixpoint relr_standard (base : Z) (l : list Z) : list Z :=
  match l with
  | [] => []
  | e :: l =>
      if c_true (e &&& 1) then
        omap (fun i => if c_true ((e >>> i) &&& 1) then Some (word w (base + (i - 1) * w)) else None) (seqZ 1 (8 * w - 1)) ++
        relr_standard (base + (8 * w - 1) * w) l
      else e :: relr_standard (e + w) l
  end.
End RelrTargets.

Section RelrFacts.
Context (w : Z) (md : ElfModule) (table : Z) (nrelr : nat).
Hypothesis Hw : 0 < w.

(** The entries from number [i] on are [l]. *)
Fixpoint entries_at (m : Z -> Z) (i : nat) (l : list Z) : Prop :=
  match l with
  | [] => i = nrelr
  | e :: l => (i < nrelr)%nat /\ relr w table m i = e /\ entries_at m (S i) l
  end.

(** A word that is not in the table. *)
Definition off_table (a : Z) : Prop :=
  in_image md a = true -> a - load_bias md + w <= table \/ table + w * Z.of_nat nrelr <= a - load_bias md.

Definition add_biases (ts : list Z) (m : Z -> Z) : Z -> Z := fold_left (fun m a => add_bias w md a m) ts m.

Lemma entries_at_add_bias a m l i : off_table a -> entries_at m i l -> entries_at (add_bias w md a m) i l.
Proof.
  intros Ha. revert i. induction l as [|e l IH]; intros i; cbn [entries_at]; [done|].
  intros (Hi & He & Hl). split_and!; [done| |by apply IH]. rewrite <- He. unfold relr, add_bias.
  destruct (in_image md a) eqn:E; [|done]. apply ld_st_apart. destruct (Ha E); nia.
Qed.

Lemma entries_at_add_biases ts m l i : Forall off_table ts -> entries_at m i l -> entries_at (add_biases ts m) i l.
Proof.
  intros H. revert m. induction H as [|a ts Ha _ IH]; intros m Hm; [done|].
  apply IH. by apply entries_at_add_bias.
Qed.

Lemma add_biases_app ts ts' m : add_biases (ts ++ ts') m = add_biases ts' (add_biases ts m).
Proof. apply fold_left_app. Qed.

Lemma apply_bitmap_targets addr off b m : apply_bitmap w md addr off b m = add_biases (bitmap_targets w addr off b) m.
Proof.
  unfold apply_bitmap, bitmap_targets, add_biases. generalize (seqZ 0 (8 * w)). intros l. revert m.
  induction l as [|i l IH]; intros m; cbn [fold_left omap list_omap]; [done|]. rewrite IH.
  by destruct (c_true _).
Qed.

Lemma entry_nonzero e : c_true (e &&& 1) || negb (e =? 0) = negb (e =? 0).
Proof. by destruct (Z.eqb_spec e 0) as [->|]; rewrite ?orb_true_r. Qed.

Lemma bitmap_loop_run l : forall fuel addr off i m, (length l <= fuel)%nat -> entries_at m i l ->
  Forall off_table (fst (bitmap_run w addr off l)) ->
  exists j, bitmap_loop w md table nrelr fuel addr off i m = (j, add_biases (fst (bitmap_run w addr off l)) m) /\
    entries_at (add_biases (fst (bitmap_run w addr off l)) m) j (snd (bitmap_run w addr off l)).
Proof.
  induction l as [|b l IH]; intros fuel addr off i m Hf Hm Ht.
  { cbn in *. subst i. destruct fuel as [|fuel]; [by exists nrelr|].
    cbn [bitmap_loop]. destruct (Nat.ltb_spec nrelr nrelr); [lia|]. by exists nrelr. }
  destruct fuel as [|fuel]; [cbn in Hf; lia|]. destruct Hm as (Hi & Hb & Hl). cbn [bitmap_loop].
  apply Nat.ltb_lt in Hi as ->. cbv zeta. rewrite Hb, apply_bitmap_targets.
  cbn [bitmap_run] in *. destruct l as [|e l].
  - cbn [fst snd] in *. cbn [entries_at] in Hl. destruct (Nat.ltb_spec (S i) nrelr); [lia|]. cbn [andb].
    destruct fuel; cbn [bitmap_loop]; [by exists (S i)|]. destruct (Nat.ltb_spec (S i) nrelr); [lia|]. by exists (S i).
  - destruct (Z.eqb_spec e 0) as [He|He].
    + destruct (bitmap_run w addr (off + 8 * w) (e :: l)) as [t rest] eqn:Er. cbn [fst snd] in *.
      apply Forall_app in Ht as [Ht1 Ht2]. pose proof (entries_at_add_biases _ _ _ _ Ht1 Hl) as Hl'.
      pose proof Hl' as (Hi' & He' & _). rewrite entry_nonzero, He', He. cbn [negb]. rewrite andb_false_r.
      destruct (IH fuel addr (off + 8 * w) (S i) (add_biases (bitmap_targets w addr off b) m)) as (j & Hj & Hj');
        [cbn in *; lia|done|by rewrite Er|]. rewrite Er in Hj, Hj'. rewrite add_biases_app. by exists j.
    + cbn [fst snd] in *. pose proof (entries_at_add_biases _ _ _ _ Ht Hl) as Hl'.
      pose proof Hl' as (Hi' & He' & _). rewrite entry_nonzero, He'.
      apply Nat.ltb_lt in Hi' as ->. apply Z.eqb_neq in He as ->. by exists (S i).
Qed.

Lemma bitmap_run_rest addr off l : (length (snd (bitmap_run w addr off l)) <= length l)%nat.
Proof.
  revert off. induction l as [|b l IH]; intros off; [done|]. cbn [bitmap_run]. destruct l as [|e l]; [cbn; lia|].
  destruct (e =? 0); [|cbn; lia]. specialize (IH (off + 8 * w)).
  destruct (bitmap_run _ _ _ _). cbn in *. lia.
Qed.

Lemma relr_loop_run fuel : forall k l addr i m, (length l < fuel)%nat -> (length l < k)%nat -> entries_at m i l ->
  Forall off_table (relr_run w k addr l) -> (length l <= nrelr)%nat ->
  relr_loop w md table nrelr fuel addr i m = add_biases (relr_run w k addr l) m.
Proof.
  induction fuel as [|fuel IH]; intros k l addr i m Hf Hk Hm Ht Hn; [lia|]. cbn [relr_loop].
  destruct k as [|k]; [lia|]. destruct l as [|e l].
  { cbn in Hm. subst i. by destruct (Nat.ltb_spec nrelr nrelr); [lia|]. }
  destruct Hm as (Hi & He & Hl). apply Nat.ltb_lt in Hi as ->. cbv zeta. rewrite He. cbn [relr_run] in *.
  cbn [length] in *. destruct (c_true (e &&& 1)).
  - apply Forall_cons in Ht as [Ha Ht]. cbn [add_biases fold_left].
    apply IH; [lia|lia|by apply entries_at_add_bias|done|lia].
  - destruct (e =? 0); [apply IH; done || lia|].
    pose proof (bitmap_run_rest e 0 l) as Hr. destruct (bitmap_run w e 0 l) as [t rest] eqn:Er. cbn [snd] in Hr.
    apply Forall_app in Ht as [Ht1 Ht2].
    destruct (bitmap_loop_run l nrelr e 0 (S i) m) as (j & Hj & Hj'); [lia|done|by rewrite Er|].
    rewrite Er in Hj, Hj'. rewrite Hj, add_biases_app. apply IH; done || lia.
Qed.
End RelrFacts.

Lemma apply_relr_targets w md table m l :
  0 < w -> entries_at w table (length l) m 0 l -> Forall (off_table w md table (length l)) (relr_targets w l) ->
  apply_relr w md table (length l) m = add_biases w md (relr_targets w l) m.
Proof.
  intros Hw Hl Ht. unfold apply_relr. destruct l as [|a l]; [done|]. cbn [length relr_targets] in *. cbv zeta.
  destruct Hl as (_ & -> & Hl). apply Forall_cons in Ht as [Ha Ht]. cbn [add_biases fold_left].
  apply relr_loop_run; [done|lia|lia| |done|lia]. by apply entries_at_add_bias.
Qed.

Lemma even_entry e : e mod 2 = 0 -> c_true (e &&& 1) = false.
Proof. intros H. by rewrite land_1, H. Qed.

Lemma odd_entry e : e mod 2 = 1 -> c_true (e &&& 1) = true.
Proof. intros H. by rewrite land_1, H. Qed.

(** What a RELR table relocates.  When no address of it is in the table, the bias is added
    once for every address of [relr_targets], in its order.  Those are the addresses of the
    ELF format for a table of one entry only: of two addresses the second is not relocated,
    and a bitmap behind an address relocates the next word whatever its bits. *)
Theorem relr_relocation md table m l :
  entries_at 8 table (length l) m 0 l -> Forall (off_table 8 md table (length l)) (relr_targets 8 l) ->
  apply_relr 8 md table (length l) m = add_biases 8 md (relr_targets 8 l) m /\
  (forall a, a mod 2 = 0 -> relr_targets 8 [a] = [a] /\ relr_standard 8 0 [a] = [a]) /\
  (forall a b, a mod 2 = 0 -> b mod 2 = 0 -> b <> 0 ->
     relr_targets 8 [a; b] = [a] /\ relr_standard 8 0 [a; b] = [a; b]) /\
  (forall a b, a mod 2 = 0 -> b mod 2 = 1 -> relr_targets 8 [a; b] = [a; u64 (a + 8)]) /\
  relr_standard 8 0 [0x1000; 1] = [0x1000] /\ relr_standard 8 0 [0x1000; 13] = [0x1000; 0x1010; 0x1018].
Proof.
  intros Hl Ht. split_and!; [by apply apply_relr_targets|..].
  - intros a Ha. cbn [relr_standard]. by rewrite even_entry.
  - intros a b Ha Hb Hn. cbn [relr_standard relr_targets relr_run length]. rewrite !even_entry by done.
    by apply Z.eqb_neq in Hn as ->.
  - intros a b Ha Hb. cbn [relr_targets relr_run length]. by rewrite odd_entry.
  - by vm_compute.
  - by vm_compute.
Qed.

(** A table of an address, a bitmap and an address, at offset 64, in a module with bias 0x1000. *)
Definition relr_image : Z -> Z := st 8 80 0x1020 (st 8 72 1 (st 8 64 0x1008 (fun _ => 0))).
Definition relr_module : ElfModule := new_module relr_image 0x1000 0x1000 0x1000.

Lemma relr_relocation_witness :
  apply_relr 8 relr_module 64 3 relr_image = add_biases 8 relr_module [0x1008; 0x1010] relr_image /\
  ld 8 (apply_relr 8 relr_module 64 3 relr_image) 8 = 0x1000.
Proof.
  destruct (relr_relocation relr_module 64 relr_image [0x1008; 1; 0x1020]) as [H _].
  - cbn [length entries_at]. split_and!; lia || (vm_compute; reflexivity).
  - change (relr_targets 8 [0x1008; 1; 0x1020]) with [0x1008; 0x1010].
    apply Forall_cons. split; [intros _; left; vm_compute; discriminate|].
    apply Forall_cons. split; [intros _; left; vm_compute; discriminate|]. by apply Forall_nil.
  - split; [exact H|]. change 3%nat with (length [0x1008; 1; 0x1020]). rewrite H. vm_compute. reflexivity.
Defined.

(** ** RELA: what relocation writes *)

Section RelaFacts.
Context (dlsym : Z -> list Z -> Z) (strings : nat).

(** The two modules have the same place in memory. *)
Definition same_place (md md' : ElfModule) : Prop :=
  memory md' = memory md /\ load_bias md' = load_bias md /\ size md' = size md /\ mapped_size md' = mapped_size md.

Lemma rela_dynamic_place tag val i md :
  same_place md (versions i) -> same_place md (versions (rela_dynamic tag val i)).
Proof. unfold rela_dynamic, same_place. cbv zeta. intros H. repeat case_match; done. Qed.

Lemma rela_scan_place fuel m dyn md i :
  dyn_loop elf64 rela_dynamic fuel m dyn (rela_start md) = Some i -> same_place md (versions i).
Proof.
  apply (dyn_loop_inv (fun i => same_place md (versions i))); [|done].
  intros tag val s. apply rela_dynamic_place.
Qed.

Lemma in_mapping_spec md off : load_bias md + mapped_size md < 2 ^ 64 -> 0 <= load_bias md -> 0 <= mapped_size md ->
  in_mapping md off = true <-> 0 <= off - load_bias md < mapped_size md.
Proof.
  intros H Hb Hm. unfold in_mapping. rewrite u64_small by lia.
  destruct (Z.ltb_spec off (load_bias md)); cbn [orb negb]; [split; [done|lia]|].
  rewrite Z.geb_leb. destruct (Z.leb_spec (load_bias md + mapped_size md) off); cbn [negb]; split; done || lia.
Qed.

(** Nothing but the bytes from [lo] to [hi] changes. *)
Definition only_between (lo hi : Z) (m m' : Z -> Z) : Prop := forall x, x < lo \/ hi <= x -> m' x = m x.

Lemma only_between_refl lo hi m : only_between lo hi m m.
Proof. done. Qed.

Lemma only_between_trans lo hi m m' m'' : only_between lo hi m m' -> only_between lo hi m' m'' -> only_between lo hi m m''.
Proof. intros H1 H2 x Hx. rewrite H2, H1; done. Qed.

Lemma only_between_st lo hi n a v m : lo <= a -> a + n <= hi -> only_between lo hi m (st n a v m).
Proof. intros Ha Hn x Hx. apply st_out. lia. Qed.

Section Within.
Context (md : ElfModule).
Hypotheses (Hb : 0 <= load_bias md) (Hs : 0 <= mapped_size md) (Hm : load_bias md + mapped_size md < 2 ^ 64).

Lemma apply_rela_within m r m' :
  apply_rela dlsym strings md m r = Some m' -> only_between 0 (mapped_size md + 7) m m'.
Proof.
  unfold apply_rela. cbv zeta. destruct (in_mapping md (r_offset m r)) eqn:E; cbn [negb].
  2:{ intros [= <-]. apply only_between_refl. }
  apply in_mapping_spec in E; [|done..].
  repeat (case_match; try (intros [= <-]; first [apply only_between_refl|apply only_between_st; lia]));
    destruct (host_address _ _ _ _ _ _ _); cbn [mbind option_bind]; intros [= <-];
    destruct (c_true _); first [apply only_between_refl|apply only_between_st; lia].
Qed.

Lemma apply_plt_within m r m' :
  apply_plt dlsym strings md m r = Some m' -> only_between 0 (mapped_size md + 7) m m'.
Proof.
  unfold apply_plt. cbv zeta. destruct (_ =? _); [|by intros [= <-]]. destruct (bad_symbol _ _ _); [by intros [= <-]|].
  destruct (host_address _ _ _ _ _ _ _); cbn [mbind option_bind]; [|done].
  destruct (c_true _); [|by intros [= <-]].
  destruct (in_mapping md (r_offset m r)) eqn:E; cbn [negb]; intros [= <-]; [|apply only_between_refl].
  apply in_mapping_spec in E; [|done..]. apply only_between_st; lia.
Qed.

Lemma apply_table_within f stride bias addr sz ent m m' :
  (forall m r m', f m r = Some m' -> only_between 0 (mapped_size md + 7) m m') ->
  apply_table f stride bias addr sz ent m = Some m' -> only_between 0 (mapped_size md + 7) m m'.
Proof.
  intros Hf. unfold apply_table. destruct (_ && _); [|by intros [= <-]]. destruct (ent =? 0); [done|].
  generalize (addr - bias). intros r. revert r m. induction (Z.to_nat (sz / ent)) as [|n IH]; intros r m; cbn [table_loop].
  - by intros [= <-].
  - destruct (f m r) as [m1|] eqn:E; cbn [mbind option_bind]; [|done]. intros H.
    apply Hf in E. by apply IH, (only_between_trans _ _ _ _ _ E) in H.
Qed.
End Within.

(** A relocation that ends either finds no dynamic section, or applies the two tables of it. *)
Lemma relocate_cases fuel md rc md' calls :
  ElfRelocate dlsym strings fuel (Some md) = Some (rc, Some md', calls) ->
  md' = md \/
  exists i m1 m2, same_place md (versions i) /\ md' = set_memory m2 (versions i) /\
    apply_table (apply_rela dlsym strings (versions i)) sizeof_rela (load_bias (versions i))
      (rela_addr i) (rela_sz i) (rela_ent i) (memory md) = Some m1 /\
    apply_table (apply_plt dlsym strings (versions i)) sizeof_rela (load_bias (versions i))
      (plt_addr i) (plt_sz i) (plt_ent i) m1 = Some m2.
Proof.
  unfold ElfRelocate. cbv zeta. destruct (negb _); [intros [= <- <- <-]; by left|].
  destruct (dynamic_phdr elf64 (memory md)) as [ph|]; cbn [mbind option_bind]; [|intros [= <- <- <-]; by left].
  destruct (dyn_loop _ _ _ _ _ _) as [i|] eqn:Ei; cbn [mbind option_bind]; [|done].
  apply rela_scan_place in Ei.
  destruct (apply_table _ _ _ _ _ _ _) as [m1|] eqn:E1; cbn [mbind option_bind]; [|done].
  destruct (apply_table _ _ _ _ _ _ m1) as [m2|] eqn:E2; cbn [mbind option_bind]; [|done].
  intros [= <- <- <-]. right. by exists i, m1, m2.
Qed.
End RelaFacts.

(** A module of 4096 bytes at 0x1000 with a RELATIVE entry, of its last byte. *)
Definition overrun_image : Z -> Z :=
  let dyn tag val a m := st 8 (a + 8) val (st 8 a tag m) in
  dyn DT_RELAENT 24 0x220 (dyn DT_RELASZ 24 0x210 (dyn DT_RELA 0x1300 0x200
    (st 8 0x310 0x11223344556677 (st 8 0x308 R_AARCH64_RELATIVE (st 8 0x300 0x1fff
      (st 8 0x48 0x200 (st 4 0x40 PT_DYNAMIC (st 2 56 1 (st 8 32 0x40 (st 1 EI_CLASS ELFCLASS64 (fun _ => 0))))))))))).
Definition overrun_module : ElfModule := new_module overrun_image 0x1000 0x1000 0x1000.

(** The byte at [x] after a relocation. *)
Definition byte_after (r : option (Z * option ElfModule * list (Z * Z * Z))) (x : Z) : option Z :=
  match r with Some (_, Some md, _) => Some (memory md x) | _ => None end.

(** C23: Relocation stays in the module's mapping but for seven bytes: whatever the tables hold, no
    byte before the image or seven bytes or more behind it changes.  The seven bytes do
    change: the check of an offset is for the first byte of the eight that are written. *)
Theorem elf_relocate_bounds dlsym strings fuel md rc md' calls :
  0 <= load_bias md -> 0 <= mapped_size md -> load_bias md + mapped_size md < 2 ^ 64 ->
  ElfRelocate dlsym strings fuel (Some md) = Some (rc, Some md', calls) ->
  same_place (set_memory (memory md') md) md' /\ only_between 0 (mapped_size md + 7) (memory md) (memory md') /\
  mapped_size overrun_module = 0x1000 /\ memory overrun_module 0x1005 = 0 /\
  byte_after (ElfRelocate dlsym strings 4 (Some overrun_module)) 0x1005 = Some 0x11.
Proof.
  intros Hb Hs Hm H. split; [|split; [|split_and!; vm_compute; reflexivity]].
  - apply relocate_cases in H as [->|(i & m1 & m2 & (_ & H1 & H2 & H3) & -> & _)]; done.
  - apply relocate_cases in H as [->|(i & m1 & m2 & (_ & H1 & _ & H3) & -> & E1 & E2)]; [done|].
    rewrite <- H1, <- H3 in *. cbn [memory set_memory].
    eapply only_between_trans; eapply apply_table_within; [|exact E1| |exact E2];
      intros m r m'; [by apply apply_rela_within|by apply apply_plt_within].
Qed.

Lemma elf_relocate_bounds_witness :
  exists rc md calls, ElfRelocate (fun _ _ => 0) 8 4 (Some overrun_module) = Some (rc, Some md, calls) /\
    only_between 0 0x1007 overrun_image (memory md).
Proof.
  assert (Hl : match ElfRelocate (fun _ _ => 0) 8 4 (Some overrun_module) with
               | Some (_, Some _, _) => true | _ => false end = true) by (vm_compute; reflexivity).
  destruct (ElfRelocate (fun _ _ => 0) 8 4 (Some overrun_module)) as [[[rc [md|]] calls]|] eqn:E; [|done|done].
  exists rc, md, calls. split; [done|].
  apply (elf_relocate_bounds (fun _ _ => 0) 8 4 overrun_module rc md calls);
    [vm_compute; discriminate|vm_compute; discriminate|vm_compute; reflexivity|exact E].
Defined.

(** ** RELATIVE entries *)

Definition relative_entry (m : Z -> Z) (r off addend : Z) : Prop :=
  r_offset m r = off /\ r_info m r &&& 0xffffffff = R_AARCH64_RELATIVE /\ r_addend m r = addend.

Lemma relative_entry_apart m a n v r off addend : a + n <= r \/ r + 24 <= a ->
  relative_entry m r off addend -> relative_entry (st n a v m) r off addend.
Proof. unfold relative_entry, r_offset, r_info, r_addend. intros H. by rewrite !ld_st_apart by lia. Qed.

(** The words at [a bias off] of a list of offsets and addends. *)
Definition rebase (bias : Z) (l : list (Z * Z)) (m : Z -> Z) : Z -> Z :=
  fold_left (fun m e => st 8 (fst e - bias) (bias + snd e) m) l m.

Section Relative.
Context (dlsym : Z -> list Z -> Z) (strings : nat) (md : ElfModule) (lo hi : Z).
Let bias := load_bias md.

(** The entries from [r] on are [l], none of which is for a word between [lo] and [hi]. *)
Fixpoint relative_table (m : Z -> Z) (r : Z) (l : list (Z * Z)) : Prop :=
  match l with
  | [] => True
  | (off, addend) :: l =>
      relative_entry m r off addend /\ in_mapping md off = true /\
      (off - bias + 8 <= lo \/ hi <= off - bias) /\ relative_table m (r + 24) l
  end.

Lemma relative_table_apart m a v l : forall r, lo <= r -> r + 24 * Z.of_nat (length l) <= hi ->
  a + 8 <= lo \/ hi <= a -> relative_table m r l -> relative_table (st 8 a v m) r l.
Proof.
  induction l as [|[off addend] l IH]; intros r Hlo Hhi Ha; cbn [relative_table length] in *; [done|].
  intros (H1 & H2 & H3 & H4). split_and!; try done; [|apply IH; lia || done].
  apply relative_entry_apart; [lia|done].
Qed.

Lemma table_loop_relative l : forall r m, lo <= r -> r + 24 * Z.of_nat (length l) <= hi -> relative_table m r l ->
  table_loop (apply_rela dlsym strings md) 24 (length l) r m = Some (rebase bias l m).
Proof.
  induction l as [|[off addend] l IH]; intros r m Hlo Hhi Hm; cbn [table_loop length] in *; [done|].
  destruct Hm as ((E1 & E2 & E3) & Hin & Ha & Hm).
  assert (apply_rela dlsym strings md m r = Some (st 8 (off - bias) (bias + addend) m)) as ->
    by (unfold apply_rela; by rewrite E1, E2, E3, Hin).
  cbn [mbind option_bind]. rewrite IH; [done|lia|lia|]. apply relative_table_apart; done || lia.
Qed.
End Relative.

Lemma relative_table_place md md' lo hi m l : load_bias md' = load_bias md -> mapped_size md' = mapped_size md ->
  forall r, relative_table md lo hi m r l -> relative_table md' lo hi m r l.
Proof.
  intros Hb Hm. induction l as [|[off a] l IH]; intros r; cbn [relative_table]; [done|].
  unfold in_mapping. rewrite Hb, Hm. intros (H1 & H2 & H3 & H4). split_and!; try done. by apply IH.
Qed.

(** The words of a list do not overlap. *)
Fixpoint apart (l : list (Z * Z)) : Prop :=
  match l with
  | [] => True
  | e :: l => Forall (fun e' => fst e + 8 <= fst e' \/ fst e' + 8 <= fst e) l /\ apart l
  end.

Lemma rebase_out bias l : forall m x, Forall (fun e => ~ (fst e - bias <= x < fst e - bias + 8)) l -> rebase bias l m x = m x.
Proof.
  induction l as [|e l IH]; intros m x H; [done|]. apply Forall_cons in H as [He H].
  cbn [rebase fold_left]. etransitivity; [by apply IH|]. by apply st_out.
Qed.

Lemma rebase_in bias l : forall m e, apart l -> In e l -> ld 8 (rebase bias l m) (fst e - bias) = u64 (bias + snd e).
Proof.
  induction l as [|e' l IH]; intros m e Ha Hin; [done|]. destruct Ha as [Ha Hl]. cbn [rebase fold_left].
  destruct Hin as [->|Hin]; [|by apply (IH (st 8 (fst e' - bias) (bias + snd e') m))].
  etransitivity; [|exact (ld_st_same 8 (fst e - bias) (bias + snd e) m ltac:(lia))]. apply ld_ext. intros x Hx.
  apply rebase_out. eapply Forall_impl; [exact Ha|]. cbv beta. lia.
Qed.

(** C19: What relocation is for: when the table holds [l], all RELATIVE, for words in the
    mapping that overlap neither each other nor the table, then every word becomes the bias
    plus its addend, and no other byte of the image changes. *)
Theorem elf_relocate_relative dlsym strings fuel md ph i l :
  memory md EI_CLASS = ELFCLASS64 -> dynamic_phdr elf64 (memory md) = Some ph ->
  dyn_loop elf64 rela_dynamic fuel (memory md) (field (p_offset elf64) (memory md) ph) (rela_start md) = Some i ->
  rela_addr i <> 0 -> rela_sz i = 24 * Z.of_nat (length l) -> rela_ent i = 24 -> plt_sz i = 0 -> l <> [] ->
  let r := rela_addr i - load_bias md in
  relative_table md r (r + rela_sz i) (memory md) r l -> apart l ->
  exists md' calls, ElfRelocate dlsym strings fuel (Some md) = Some (ARM2X86_OK, Some md', calls) /\
    (forall off addend, In (off, addend) l -> ld 8 (memory md') (off - load_bias md) = u64 (load_bias md + addend)) /\
    (forall x, (forall off addend, In (off, addend) l -> ~ (off - load_bias md <= x < off - load_bias md + 8)) ->
       memory md' x = memory md x).
Proof.
  intros Hc Hph Hi Ha Hs He Hp Hl r Ht Hd. unfold ElfRelocate. cbv zeta.
  pose proof (rela_scan_place _ _ _ _ _ Hi) as (_ & Hb & _ & Hm).
  rewrite Hc, Hph, Hi. cbn [negb mbind option_bind]. rewrite Hb. unfold apply_table. rewrite Hp, andb_false_r.
  unfold c_true at 1 2. rewrite Hs. destruct (Z.eqb_spec (rela_addr i) 0); [done|].
  destruct (Z.eqb_spec (24 * Z.of_nat (length l)) 0); [destruct l; [done|cbn in *; lia]|]. cbn [negb andb].
  rewrite He. cbn [Z.eqb]. rewrite Z.mul_comm, Z.div_mul, Nat2Z.id by lia.
  assert (Ht' : relative_table (versions i) r (r + rela_sz i) (memory md) r l) by (by apply (relative_table_place md)).
  apply (table_loop_relative dlsym strings) in Ht'; [|lia|lia]. rewrite Hb in Ht'.
  change sizeof_rela with 24. fold r. rewrite Ht'. cbn [mbind option_bind]. do 2 eexists. split; [reflexivity|].
  cbn [memory set_memory]. split.
  - intros off a Hin. by apply (rebase_in (load_bias md) l (memory md) (off, a)).
  - intros x Hx. apply rebase_out. apply List.Forall_forall. intros [off a] Hin. by apply (Hx off a).
Qed.

Lemma elf_relocate_relative_witness :
  exists md calls, ElfRelocate (fun _ _ => 0) 8 4 (Some overrun_module) = Some (ARM2X86_OK, Some md, calls) /\
    ld 8 (memory md) 0xfff = 0x1000 + 0x11223344556677.
Proof.
  assert (Hi : exists i, dyn_loop elf64 rela_dynamic 4 overrun_image 0x200 (rela_start overrun_module) = Some i /\
    rela_addr i = 0x1300 /\ rela_sz i = 24 /\ rela_ent i = 24 /\ plt_sz i = 0).
  { eexists. split; [reflexivity|]. split_and!; reflexivity. }
  destruct Hi as (i & Hi & Ha & Hs & He & Hp).
  destruct (elf_relocate_relative (fun _ _ => 0) 8 4 overrun_module 0x40 i [(0x1fff, 0x11223344556677)])
    as (md & calls & H & Hw & _).
  - vm_compute. reflexivity.
  - vm_compute. reflexivity.
  - exact Hi.
  - rewrite Ha. discriminate.
  - exact Hs.
  - exact He.
  - exact Hp.
  - discriminate.
  - rewrite Ha, Hs. cbn [relative_table]. split_and!; [..|done]; try (vm_compute; reflexivity).
    + split_and!; vm_compute; reflexivity.
    + right. vm_compute. discriminate.
  - by split.
  - exists md, calls. split; [exact H|]. etransitivity; [apply (Hw 0x1fff 0x11223344556677); by left|]. vm_compute. reflexivity.
Defined.

(** ** Packed relocations: the reference encoding *)

Record pgroup := { g_type : Z; g_addend : Z; g_deltas : list Z }.

Definition pgroup_ok (g : pgroup) : Prop :=
  0 <= g_type g < 2 ^ 64 /\ - 2 ^ 63 <= g_addend g < 2 ^ 63 /\ g_deltas g <> [] /\
  Forall (fun d => 0 <= d < 2 ^ 64) (g_deltas g).
Definition pgroup_bytes (g : pgroup) : list Z :=
  uleb128 (Z.of_nat (length (g_deltas g))) ++ uleb128 (g_type g) ++ sleb128 (g_addend g) ++ concat (map uleb128 (g_deltas g)).
Definition pgroups_count (gs : list pgroup) : nat := length (concat (map g_deltas gs)).

(** The number of relocations, a number that is not used, and the groups. *)
Definition packed_bytes (unused : Z) (gs : list pgroup) : list Z :=
  uleb128 (Z.of_nat (pgroups_count gs)) ++ uleb128 unused ++ concat (map pgroup_bytes gs).

(** The relocations of a group from the offset [off] on: type, addend and offset. *)
Fixpoint group_relocs (type addend off : Z) (ds : list Z) : list (Z * Z * Z) :=
  match ds with
  | [] => []
  | d :: ds => let off := u64 (off + d) in (type, addend, off) :: group_relocs type addend off ds
  end.
Definition group_end (off : Z) (ds : list Z) : Z := fold_left (fun off d => u64 (off + d)) ds off.
Fixpoint packed_relocs (off : Z) (gs : list pgroup) : list (Z * Z * Z) :=
  match gs with
  | [] => []
  | g :: gs => group_relocs (g_type g) (g_addend g) off (g_deltas g) ++ packed_relocs (group_end off (g_deltas g)) gs
  end.

Lemma uleb_nonempty v : (1 <= length (uleb128 v))%nat.
Proof. unfold uleb128. cbn [uleb_bytes]. destruct (v <? 128); cbn; lia. Qed.

Lemma sleb_nonempty v : (1 <= length (sleb128 v))%nat.
Proof. unfold sleb128. cbn [sleb_bytes]. destruct (_ && _); cbn; lia. Qed.

Lemma deltas_length ds : (length ds <= length (concat (map uleb128 ds)))%nat.
Proof. induction ds as [|d ds IH]; cbn [length map concat]; [lia|]. rewrite length_app. pose proof (uleb_nonempty d). lia. Qed.

Lemma pgroup_nonempty g : (1 <= length (pgroup_bytes g))%nat.
Proof. unfold pgroup_bytes. rewrite length_app. pose proof (uleb_nonempty (Z.of_nat (length (g_deltas g)))). lia. Qed.

Section PackedFacts.
Context (apply : (Z -> Z) -> Z -> Z -> Z -> option (Z -> Z)) (lo end_ reloc_count : Z).

Fixpoint apply_all (l : list (Z * Z * Z)) (m : Z -> Z) : option (Z -> Z) :=
  match l with
  | [] => Some m
  | (type, addend, off) :: l => m ← apply m type addend off; apply_all l m
  end.

Lemma apply_all_app l l' m : apply_all (l ++ l') m = (m ← apply_all l m; apply_all l' m).
Proof.
  revert m. induction l as [|[[t a] o] l IH]; intros m; cbn [apply_all app mbind option_bind]; [done|].
  destruct (apply m t a o); cbn [mbind option_bind]; done.
Qed.

(** A relocation that leaves the bytes from [lo] to the end of the data as they are. *)
Definition keeps_data (r : Z * Z * Z) : Prop :=
  let '(type, addend, off) := r in
  forall m m', apply m type addend off = Some m' -> forall x, lo <= x < end_ -> m' x = m x.

Lemma apply_all_keeps l m m' : Forall keeps_data l -> apply_all l m = Some m' -> forall x, lo <= x < end_ -> m' x = m x.
Proof.
  intros Hl. revert m. induction Hl as [|[[t a] o] l Ha _ IH]; intros m; cbn [apply_all]; [by intros [= <-]|].
  destruct (apply m t a o) as [m1|] eqn:E; cbn [mbind option_bind]; [|done]. intros H x Hx.
  rewrite (IH _ H x Hx). by apply (Ha m m1 E).
Qed.

Lemma group_loop_bytes type addend rest ds : forall fuel count j s,
  (length ds <= fuel)%nat -> count = j + Z.of_nat (length ds) -> processed s + Z.of_nat (length ds) <= reloc_count ->
  lo <= ptr s -> ptr s + Z.of_nat (length (concat (map uleb128 ds) ++ rest)) = end_ ->
  bytes_at (image s) (ptr s) (concat (map uleb128 ds) ++ rest) ->
  Forall (fun d => 0 <= d < 2 ^ 64) ds -> Forall keeps_data (group_relocs type addend (current_offset s) ds) ->
  group_loop apply end_ reloc_count fuel count type addend j s =
    (m ← apply_all (group_relocs type addend (current_offset s) ds) (image s);
     Some {| ptr := ptr s + Z.of_nat (length (concat (map uleb128 ds))); current_offset := group_end (current_offset s) ds;
             processed := processed s + Z.of_nat (length ds); image := m |}).
Proof.
  induction ds as [|d ds IH]; intros fuel count j s Hf Hc Hr Hlo He Hb Hd Hk.
  { cbn [length] in *. destruct s; cbn [group_relocs apply_all mbind option_bind length map concat group_end fold_left] in *.
    rewrite !Z.add_0_r. destruct fuel; cbn [group_loop]; [done|]. by destruct (Z.ltb_spec j count); [lia|]. }
  destruct fuel as [|fuel]; [cbn in Hf; lia|]. cbn [length map concat group_relocs group_loop] in *.
  rewrite <- app_assoc in *. pose proof (uleb_nonempty d) as Hn. rewrite length_app in He.
  apply Forall_cons in Hd as [Hd Hds]. apply Forall_cons in Hk as [Hk Hks]. apply bytes_at_app in Hb as [Hb Hb'].
  destruct (Z.ltb_spec j count); [|lia]. destruct (Z.ltb_spec (ptr s) end_); [|lia].
  destruct (Z.ltb_spec (processed s) reloc_count); [|lia]. cbn [andb].
  rewrite (decode_uleb128_bytes _ _ d Hd Hb). cbn [mbind option_bind apply_all].
  destruct (apply (image s) type addend (u64 (current_offset s + d))) as [m|] eqn:E; cbn [mbind option_bind]; [|done].
  rewrite IH; cbn [ptr current_offset processed image]; try done; try lia.
  - destruct (apply_all _ m) as [m'|]; cbn [mbind option_bind]; [|done].
    do 2 f_equal; [rewrite length_app; lia|lia].
  - eapply bytes_at_ext; [|exact Hb']. intros x Hx. apply (Hk _ _ E). lia.
Qed.

Lemma groups_loop_bytes gs : forall fuel s, (length gs <= fuel)%nat -> 0 < reloc_count < 2 ^ 64 ->
  processed s + Z.of_nat (pgroups_count gs) = reloc_count -> 0 <= processed s ->
  lo <= ptr s -> ptr s + Z.of_nat (length (concat (map pgroup_bytes gs))) = end_ ->
  bytes_at (image s) (ptr s) (concat (map pgroup_bytes gs)) ->
  Forall pgroup_ok gs -> Forall keeps_data (packed_relocs (current_offset s) gs) ->
  image <$> groups_loop apply end_ reloc_count fuel s = apply_all (packed_relocs (current_offset s) gs) (image s).
Proof.
  induction gs as [|g gs IH]; intros fuel s Hf Hrc Hr Hp Hlo He Hb Hok Hk.
  { cbn in Hr. destruct fuel; cbn [groups_loop]; [done|]. by destruct (Z.ltb_spec (processed s) reloc_count); [lia|]. }
  destruct fuel as [|fuel]; [cbn in Hf; lia|]. cbn [map concat packed_relocs groups_loop] in *.
  apply Forall_cons in Hok as [(Ht & Ha & Hne & Hd) Hok]. apply Forall_app in Hk as [Hk1 Hk2].
  unfold pgroups_count in *. cbn [map concat] in Hr. rewrite length_app in Hr.
  assert (Hl : (1 <= length (g_deltas g))%nat) by (destruct (g_deltas g); [done|cbn; lia]).
  unfold pgroup_bytes at 1 in He. unfold pgroup_bytes at 1 in Hb. rewrite <- !app_assoc in He, Hb. rewrite length_app in He.
  rewrite (length_app (uleb128 (g_type g))) in He. rewrite (length_app (sleb128 _)) in He.
  pose proof (uleb_nonempty (Z.of_nat (length (g_deltas g)))) as L1. pose proof (uleb_nonempty (g_type g)) as L2.
  pose proof (sleb_nonempty (g_addend g)) as L3. pose proof (deltas_length (g_deltas g)) as L4.
  pose proof (length_app (concat (map uleb128 (g_deltas g))) (concat (map pgroup_bytes gs))) as L5.
  apply bytes_at_app in Hb as [Hb1 Hb]. apply bytes_at_app in Hb as [Hb2 Hb]. apply bytes_at_app in Hb as [Hb3 Hb].
  destruct (Z.ltb_spec (processed s) reloc_count); [|lia]. destruct (Z.ltb_spec (ptr s) end_); [|lia]. cbn [andb].
  rewrite (decode_uleb128_bytes _ _ (Z.of_nat (length (g_deltas g))) ltac:(lia) Hb1). cbn [mbind option_bind].
  destruct (Z.eqb_spec (Z.of_nat (length (g_deltas g))) 0); [lia|]. cbn [orb].
  rewrite !Z.geb_leb. destruct (Z.leb_spec end_ (ptr s + Z.of_nat (length (uleb128 (Z.of_nat (length (g_deltas g))))))); [lia|].
  rewrite (decode_uleb128_bytes _ _ _ Ht Hb2). cbn [mbind option_bind]. rewrite !Z.geb_leb.
  destruct (Z.leb_spec end_ (ptr s + Z.of_nat (length (uleb128 (Z.of_nat (length (g_deltas g))))) +
    Z.of_nat (length (uleb128 (g_type g))))); [lia|].
  rewrite (decode_sleb128_bytes _ _ _ Ha Hb3). cbn [mbind option_bind]. rewrite !Z.geb_leb.
  destruct (Z.leb_spec end_ (ptr s + Z.of_nat (length (uleb128 (Z.of_nat (length (g_deltas g))))) +
    Z.of_nat (length (uleb128 (g_type g))) + Z.of_nat (length (sleb128 (g_addend g))))); [lia|].
  rewrite (group_loop_bytes _ _ (concat (map pgroup_bytes gs)) (g_deltas g));
    cbn [ptr current_offset processed image]; try done; try lia.
  rewrite apply_all_app. destruct (apply_all _ (image s)) as [m|] eqn:E; cbn [mbind option_bind fmap option_fmap option_map]; [|done].
  apply bytes_at_app in Hb as [_ Hb].
  rewrite IH; cbn [ptr current_offset processed image]; try done; try lia; [cbn in Hf; lia|].
  eapply bytes_at_ext; [|exact Hb]. intros x Hx. apply (apply_all_keeps _ _ _ Hk1 E). lia.
Qed.
End PackedFacts.

Section PackedApply.
Context (dlsym : Z -> list Z -> Z) (strings : nat) (md : ElfModule).

Lemma packed64_keeps lo hi r :
  (in_image md (snd r) = true -> snd r - load_bias md + 8 <= lo \/ hi <= snd r - load_bias md) ->
  keeps_data (packed64 dlsym strings md) lo hi r.
Proof.
  destruct r as [[type addend] off]. cbn [snd]. intros Hr m m'. unfold packed64.
  destruct (in_image md off) eqn:E; cbn [negb]; [|by intros [= <-]]. specialize (Hr eq_refl). cbv zeta.
  intros H x Hx. revert H.
  repeat (case_match; try (intros [= <-]; first [done|apply st_out; lia]));
    destruct (host_address _ _ _ _ _ _ _); cbn [mbind option_bind]; intros [= <-];
    repeat case_match; first [done|apply st_out; lia].
Qed.

Lemma packed32_keeps lo hi r :
  (in_image md (snd r) = true -> snd r - load_bias md + 8 <= lo \/ hi <= snd r - load_bias md) ->
  keeps_data (packed32 dlsym strings md) lo hi r.
Proof.
  destruct r as [[type addend] off]. cbn [snd]. intros Hr m m'. unfold packed32.
  destruct (in_image md off) eqn:E; cbn [negb]; [|by intros [= <-]]. specialize (Hr eq_refl). cbv zeta.
  intros H x Hx. revert H.
  repeat (case_match; try (intros [= <-]; first [done|apply st_out; lia]));
    destruct (host_address _ _ _ _ _ _ _); cbn [mbind option_bind]; intros [= <-];
    repeat case_match; first [done|apply st_out; lia].
Qed.
End PackedApply.

(** C21: Packed relocations are the relocations they encode: when the data is the encoding of
    groups, and no word to be relocated is in the data, applying it is applying, one after
    the other, the relocations of the groups, with the type and the addend of their group,
    at the running sums of the differences, for either class. *)
Theorem packed_relocations dlsym strings class64 md rel_data unused gs m :
  Forall pgroup_ok gs -> gs <> [] -> Z.of_nat (pgroups_count gs) < 2 ^ 64 -> 0 <= unused < 2 ^ 64 ->
  bytes_at m rel_data (packed_bytes unused gs) ->
  let sz := Z.of_nat (length (packed_bytes unused gs)) in
  Forall (fun r => in_image md (snd r) = true ->
    snd r - load_bias md + 8 <= rel_data \/ rel_data + sz <= snd r - load_bias md) (packed_relocs 0 gs) ->
  apply_packed dlsym strings class64 md rel_data sz m =
    apply_all (if class64 then packed64 dlsym strings md else packed32 dlsym strings md) (packed_relocs 0 gs) m.
Proof.
  intros Hok Hne Hc Hu Hb sz Hk. unfold apply_packed. cbv zeta.
  assert (Hcnt : (1 <= pgroups_count gs)%nat /\ (length gs <= length (concat (map pgroup_bytes gs)))%nat).
  { clear -Hok Hne. unfold pgroups_count. destruct gs as [|g gs]; [done|]. split.
    - apply Forall_cons in Hok as [(_ & _ & Hd & _) _]. cbn [map concat]. rewrite length_app. destruct (g_deltas g); [done|cbn; lia].
    - clear. induction (g :: gs) as [|g' l IH]; cbn [length map concat]; [lia|].
      rewrite length_app. pose proof (pgroup_nonempty g'). lia. }
  destruct Hcnt as [H1 H2]. 
  assert (Hsz : sz = Z.of_nat (length (uleb128 (Z.of_nat (pgroups_count gs))) + (length (uleb128 unused) +
    length (concat (map pgroup_bytes gs))))) by (unfold sz, packed_bytes; by rewrite !length_app).
  clearbody sz. unfold packed_bytes in Hb.
  pose proof (uleb_nonempty (Z.of_nat (pgroups_count gs))) as L1. pose proof (uleb_nonempty unused) as L2.
  apply bytes_at_app in Hb as [Hb1 Hb]. apply bytes_at_app in Hb as [Hb2 Hb].
  rewrite Z.gtb_ltb. destruct (Z.ltb_spec (rel_data + sz) (rel_data + 2)); [lia|].
  rewrite (decode_uleb128_bytes _ _ (Z.of_nat (pgroups_count gs)) ltac:(lia) Hb1). cbn [mbind option_bind].
  rewrite (decode_uleb128_bytes _ _ _ Hu Hb2). cbn [mbind option_bind].
  destruct (Z.eqb_spec (Z.of_nat (pgroups_count gs)) 0); [lia|]. cbn [orb].
  assert (Hg : (1 <= length gs)%nat) by (destruct gs; [done|cbn; lia]).
  rewrite Z.geb_leb. destruct (Z.leb_spec (rel_data + sz) (rel_data + Z.of_nat (length (uleb128 (Z.of_nat (pgroups_count gs)))) +
    Z.of_nat (length (uleb128 unused)))); [lia|].
  set (f := if class64 then _ else _).
  pose proof (groups_loop_bytes f rel_data (rel_data + sz) (Z.of_nat (pgroups_count gs)) gs (Z.to_nat sz)
    {| ptr := rel_data + Z.of_nat (length (uleb128 (Z.of_nat (pgroups_count gs)))) + Z.of_nat (length (uleb128 unused));
       current_offset := 0; processed := 0; image := m |}) as Hg0.
  cbn [ptr current_offset processed image] in Hg0. rewrite <- Hg0; try done; try lia.
  eapply Forall_impl; [exact Hk|]. intros r Hr. unfold f. destruct class64; [by apply packed64_keeps|by apply packed32_keeps].
Qed.

(** Two groups at offset 16: two RELATIVE words with the addend -8, and one with 0x70. *)
Definition packed_groups : list pgroup :=
  [ {| g_type := R_AARCH64_RELATIVE; g_addend := -8; g_deltas := [0x1100; 8] |};
    {| g_type := R_AARCH64_RELATIVE; g_addend := 0x70; g_deltas := [0x80] |} ].
Definition packed_image : Z -> Z := file_at (replicate 16 0 ++ packed_bytes 8 packed_groups).
Definition packed_module : ElfModule := new_module packed_image 0x1000 0x1000 0x1000.

Lemma packed_relocations_witness :
  exists m, apply_packed (fun _ _ => 0) 0 true packed_module 16 16 packed_image = Some m /\
    ld 8 m 0x108 = 0xff8 /\ ld 8 m 0x188 = 0x1070.
Proof.
  assert (Hr : packed_relocs 0 packed_groups = [(1027, -8, 0x1100); (1027, -8, 0x1108); (1027, 0x70, 0x1188)])
    by (vm_compute; reflexivity).
  eexists. split; [etransitivity|].
  - apply (packed_relocations (fun _ _ => 0) 0 true packed_module 16 8 packed_groups packed_image).
    + repeat (apply Forall_cons; split); try apply Forall_nil; try done; unfold pgroup_ok; cbn [g_type g_addend g_deltas];
        split_and!; try done; repeat (apply Forall_cons; split); done || apply Forall_nil.
    + discriminate.
    + vm_compute. reflexivity.
    + lia.
    + intros k b Hk. pose proof (lookup_lt_Some _ _ _ Hk) as Hl. change (length _) with 16%nat in Hl.
      do 16 (destruct k as [|k]; [injection Hk as <-; vm_compute; reflexivity|]). lia.
    + rewrite Hr. change (Z.of_nat (length (packed_bytes 8 packed_groups))) with 16.
      repeat (apply Forall_cons; split; [intros _; right; vm_compute; discriminate|]). by apply Forall_nil.
  - rewrite Hr. reflexivity.
  - split; vm_compute; reflexivity.
Defined.
