(* ===== verification/Syscall.v ===== *)
(** * System calls: [modules/arm2x86_syscall.c]

    The CRC-32 helper of translated code, the table of system calls and its two lookup
    arrays, the thread's TLS base, the translation of structures and the system calls
    themselves.  The kernel is a parameter: what it returns and what it does to memory,
    given the registers it is entered with.  The state records the calls that were made.
    Memory is a function from addresses to bytes, as in [Elf]. *)
From S2P Require Import Prelude Decode64 PCache Elf.
From Stdlib Require Import ZArith Lia ZifyBool Bool String.
From stdpp Require Import base numbers list.
Open Scope Z_scope.
Open Scope c_scope.

(** ** The CRC-32 helper *)

(** The table as [generate_crc32_ieee_table] fills it. *)
Definition crc32_ieee_table : list Z := map (Nat.iter 8 crc_bit) (seqZ 0 256).

Fixpoint crc32_loop (size : nat) (crc data : Z) : Z :=
  match size with
  | O => crc
  | S size =>
    let byte := data &&& 0xFF in
    let data := data >>> 8 in
    let index := (crc ^^^ byte) &&& 0xFF in
    crc32_loop size ((crc >>> 8) ^^^ nth (Z.to_nat index) crc32_ieee_table 0) data
  end.
Definition crc32_ieee802_3 (crc data size : Z) : Z := crc32_loop (Z.to_nat size) crc data.

(** ** The table of system calls: number on ARM64, number on x86-64, name *)

Local Open Scope string_scope.
Definition syscall_table : list (Z * Z * string) :=
  [ (0, 0, "io_setup"); (1, 1, "io_destroy"); (2, 2, "io_submit"); (3, 3, "io_cancel");
    (4, 4, "io_getevents"); (5, 5, "setxattr"); (6, 6, "lsetxattr"); (7, 7, "fsetxattr"); (8, 8, "getxattr");
    (9, 9, "lgetxattr"); (10, 10, "fgetxattr"); (11, 11, "listxattr"); (12, 12, "llistxattr");
    (13, 13, "flistxattr"); (14, 14, "removexattr"); (15, 15, "lremovexattr"); (16, 16, "fremovexattr");
    (17, 17, "getcwd"); (18, 18, "lookup_dcookie"); (19, 19, "eventfd2"); (20, 20, "epoll_create1");
    (21, 21, "epoll_ctl"); (22, 22, "epoll_pwait"); (23, 23, "dup"); (24, 24, "dup3"); (25, 25, "fcntl");
    (26, 26, "inotify_init1"); (27, 27, "inotify_add_watch"); (28, 28, "inotify_rm_watch"); (29, 29, "ioctl");
    (30, 30, "ioprio_set"); (31, 31, "ioprio_get"); (32, 32, "flock"); (33, 33, "mknodat");
    (34, 34, "mkdirat"); (35, 35, "unlinkat"); (36, 36, "symlinkat"); (37, 37, "linkat");
    (38, 38, "renameat"); (39, 39, "umount2"); (40, 40, "mount"); (41, 41, "pivot_root");
    (42, 42, "nfsservctl"); (43, 43, "statfs"); (44, 44, "fstatfs"); (45, 45, "truncate");
    (46, 46, "ftruncate"); (47, 47, "fallocate"); (48, 48, "faccessat"); (49, 49, "chdir");
    (50, 50, "fchdir"); (51, 51, "chroot"); (52, 52, "fchmod"); (53, 53, "fchmodat"); (54, 54, "fchownat");
    (55, 55, "fchown"); (56, 56, "openat"); (57, 57, "close"); (58, 58, "vhangup"); (59, 59, "pipe2");
    (60, 60, "quotactl"); (61, 61, "getdents64"); (62, 62, "lseek"); (63, 63, "read"); (64, 64, "write");
    (65, 65, "readv"); (66, 66, "writev"); (67, 67, "pread64"); (68, 68, "pwrite64"); (69, 69, "preadv");
    (70, 70, "pwritev"); (71, 71, "sendfile"); (72, 72, "pselect6"); (73, 73, "ppoll"); (74, 74, "signalfd4");
    (75, 75, "vmsplice"); (76, 76, "splice"); (77, 77, "tee"); (78, 78, "readlinkat"); (79, 79, "newfstatat");
    (80, 80, "fstat"); (81, 81, "sync"); (82, 82, "fsync"); (83, 83, "fdatasync");
    (84, 84, "sync_file_range"); (85, 85, "timerfd_create"); (86, 86, "timerfd_settime");
    (87, 87, "timerfd_gettime"); (88, 88, "utimensat"); (89, 89, "acct"); (90, 90, "capget");
    (91, 91, "capset"); (92, 92, "personality"); (93, 93, "exit"); (94, 94, "exit_group"); (95, 95, "waitid");
    (96, 96, "set_tid_address"); (97, 97, "unshare"); (98, 98, "futex"); (99, 99, "set_robust_list");
    (100, 100, "get_robust_list"); (101, 101, "nanosleep"); (102, 102, "getitimer"); (103, 103, "setitimer");
    (104, 104, "kexec_load"); (105, 105, "init_module"); (106, 106, "delete_module");
    (107, 107, "clock_gettime"); (108, 108, "clock_getres"); (109, 109, "clock_nanosleep");
    (110, 110, "syslog"); (111, 111, "ptrace"); (112, 112, "sched_setparam");
    (113, 113, "sched_setscheduler"); (114, 114, "sched_getscheduler"); (115, 115, "sched_getparam");
    (116, 116, "sched_setaffinity"); (117, 117, "sched_getaffinity"); (118, 118, "sched_yield");
    (119, 119, "sched_get_priority_max"); (120, 120, "sched_get_priority_min");
    (121, 121, "sched_rr_get_interval"); (122, 122, "restart_syscall"); (123, 123, "kill");
    (124, 124, "tkill"); (125, 125, "tgkill"); (126, 126, "sigaltstack"); (127, 127, "rt_sigsuspend");
    (128, 128, "rt_sigaction"); (129, 129, "rt_sigprocmask"); (130, 130, "rt_sigpending");
    (131, 131, "rt_sigtimedwait"); (132, 132, "rt_sigqueueinfo"); (133, 133, "rt_sigreturn");
    (134, 134, "setpriority"); (135, 135, "getpriority"); (136, 136, "reboot"); (137, 137, "setregid");
    (138, 138, "setgid"); (139, 139, "setreuid"); (140, 140, "setuid"); (141, 141, "setresuid");
    (142, 142, "getresuid"); (143, 143, "setresgid"); (144, 144, "getresgid"); (145, 145, "setfsuid");
    (146, 146, "setfsgid"); (147, 147, "times"); (148, 148, "setpgid"); (149, 149, "getpgid");
    (150, 150, "getsid"); (151, 151, "setsid"); (152, 152, "getgroups"); (153, 153, "setgroups");
    (154, 154, "uname"); (155, 155, "sethostname"); (156, 156, "setdomainname"); (157, 157, "getrlimit");
    (158, 158, "setrlimit"); (159, 159, "getrusage"); (160, 160, "umask"); (161, 161, "prctl");
    (162, 162, "getcpu"); (163, 163, "gettimeofday"); (164, 164, "settimeofday"); (165, 165, "adjtimex");
    (166, 166, "getpid"); (167, 167, "getppid"); (168, 168, "getuid"); (169, 169, "geteuid");
    (170, 170, "getgid"); (171, 171, "getegid"); (172, 172, "gettid"); (173, 173, "sysinfo");
    (174, 174, "mq_open"); (175, 175, "mq_unlink"); (176, 176, "mq_timedsend"); (177, 177, "mq_timedreceive");
    (178, 178, "mq_notify"); (179, 179, "mq_getsetattr"); (180, 180, "msgget"); (181, 181, "msgctl");
    (182, 182, "msgrcv"); (183, 183, "msgsnd"); (184, 184, "semget"); (185, 185, "semctl");
    (186, 186, "semtimedop"); (187, 187, "semop"); (188, 188, "shmget"); (189, 189, "shmctl");
    (190, 190, "shmat"); (191, 191, "shmdt"); (192, 192, "socket"); (193, 193, "socketpair");
    (194, 194, "bind"); (195, 195, "listen"); (196, 196, "accept"); (197, 197, "connect");
    (198, 198, "getsockname"); (199, 199, "getpeername"); (200, 200, "sendto"); (201, 201, "recvfrom");
    (202, 202, "setsockopt"); (203, 203, "getsockopt"); (204, 204, "shutdown"); (205, 205, "sendmsg");
    (206, 206, "recvmsg"); (207, 207, "readahead"); (208, 208, "brk"); (209, 209, "munmap");
    (210, 210, "mremap"); (211, 211, "add_key"); (212, 212, "request_key"); (213, 213, "keyctl");
    (214, 214, "clone"); (215, 215, "execve"); (216, 216, "mmap"); (217, 217, "fadvise64");
    (218, 218, "swapon"); (219, 219, "swapoff"); (220, 220, "mprotect"); (221, 221, "msync");
    (222, 222, "mlock"); (223, 223, "munlock"); (224, 224, "mlockall"); (225, 225, "munlockall");
    (226, 226, "mincore"); (227, 227, "madvise"); (228, 228, "remap_file_pages"); (229, 229, "mbind");
    (230, 230, "get_mempolicy"); (231, 231, "set_mempolicy"); (232, 232, "migrate_pages");
    (233, 233, "move_pages"); (234, 234, "rt_tgsigqueueinfo"); (235, 235, "perf_event_open");
    (236, 236, "accept4"); (237, 237, "recvmmsg"); (238, 238, "wait4"); (239, 239, "prlimit64");
    (240, 240, "fanotify_init"); (241, 241, "fanotify_mark"); (242, 242, "name_to_handle_at");
    (243, 243, "open_by_handle_at"); (244, 244, "clock_adjtime"); (245, 245, "syncfs"); (246, 246, "setns");
    (247, 247, "sendmmsg"); (248, 248, "process_vm_readv"); (249, 249, "process_vm_writev");
    (250, 250, "kcmp"); (251, 251, "finit_module"); (252, 252, "sched_setattr"); (253, 253, "sched_getattr");
    (254, 254, "renameat2"); (255, 255, "seccomp"); (256, 256, "getrandom"); (257, 257, "memfd_create");
    (258, 258, "bpf"); (259, 259, "execveat"); (260, 260, "userfaultfd"); (261, 261, "membarrier");
    (262, 262, "mlock2"); (263, 263, "copy_file_range"); (264, 264, "preadv2"); (265, 265, "pwritev2");
    (266, 266, "pkey_mprotect"); (267, 267, "pkey_alloc"); (268, 268, "pkey_free"); (269, 269, "statx");
    (270, 270, "io_pgetevents"); (271, 271, "rseq"); (272, 272, "kexec_file_load");
    (273, 273, "pidfd_send_signal"); (274, 274, "io_uring_setup"); (275, 275, "io_uring_enter");
    (276, 276, "io_uring_register"); (277, 277, "open_tree"); (278, 278, "move_mount"); (279, 279, "fsopen");
    (280, 280, "fsconfig"); (281, 281, "fsmount"); (282, 282, "fspick"); (283, 283, "pidfd_open");
    (284, 284, "clone3"); (285, 285, "close_range"); (286, 286, "openat2"); (287, 287, "pidfd_getfd");
    (288, 288, "faccessat2"); (289, 289, "process_madvise"); (290, 290, "epoll_pwait2");
    (291, 291, "mount_setattr"); (292, 292, "quotactl_fd"); (293, 293, "landlock_create_ruleset");
    (294, 294, "landlock_add_rule"); (295, 295, "landlock_restrict_self"); (296, 296, "memfd_secret");
    (297, 297, "process_mrelease"); (298, 298, "futex_waitv"); (299, 299, "set_mempolicy_home_node");
    (300, 300, "cachestat"); (301, 301, "fchmodat2"); (302, 302, "map_shadow_stack");
    (303, 303, "futex_wake"); (304, 304, "futex_wait"); (305, 305, "futex_requeue") ].
Local Close Scope string_scope.

Definition SYSCALL_TABLE_MAX_NR : nat := 1024.

(** The two arrays, with the flags that say they are filled. *)
Record syscall_lookup := {
  g_syscall_lookup : list Z; g_syscall_lookup_initialized : bool;
  g_syscall_name_lookup : list (option string); g_syscall_name_initialized : bool }.

(** Static data is zero. *)
Definition syscall_lookup_start : syscall_lookup :=
  {| g_syscall_lookup := replicate SYSCALL_TABLE_MAX_NR 0; g_syscall_lookup_initialized := false;
     g_syscall_name_lookup := replicate SYSCALL_TABLE_MAX_NR None; g_syscall_name_initialized := false |}.

Definition nr_in_range (nr : Z) : bool := (0 <=? nr) && (nr <? Z.of_nat SYSCALL_TABLE_MAX_NR).

(** The loop that enters a column of the table into an array. *)
Definition populate {A} (column : Z * Z * string -> A) (l : list A) : list A :=
  fold_left (fun l e => if nr_in_range (fst (fst e)) then <[Z.to_nat (fst (fst e)) := column e]> l else l) syscall_table l.

Definition init_syscall_lookup (s : syscall_lookup) : syscall_lookup :=
  if g_syscall_lookup_initialized s then s else
  {| g_syscall_lookup := populate (fun e => snd (fst e)) (replicate SYSCALL_TABLE_MAX_NR (-1));
     g_syscall_lookup_initialized := true;
     g_syscall_name_lookup := g_syscall_name_lookup s; g_syscall_name_initialized := g_syscall_name_initialized s |}.

Definition translate_syscall_number (arm64_nr : Z) (s : syscall_lookup) : Z * syscall_lookup :=
  let s := if g_syscall_lookup_initialized s then s else init_syscall_lookup s in
  (if nr_in_range arm64_nr then nth (Z.to_nat arm64_nr) (g_syscall_lookup s) 0 else -1, s).

Definition init_syscall_name_lookup (s : syscall_lookup) : syscall_lookup :=
  if g_syscall_name_initialized s then s else
  {| g_syscall_lookup := g_syscall_lookup s; g_syscall_lookup_initialized := g_syscall_lookup_initialized s;
     g_syscall_name_lookup :=
       populate (fun e => Some (snd e)) (replicate SYSCALL_TABLE_MAX_NR (Some "unknown"%string));
     g_syscall_name_initialized := true |}.

Definition get_syscall_name (arm64_nr : Z) (s : syscall_lookup) : option string * syscall_lookup :=
  let s := if g_syscall_name_initialized s then s else init_syscall_name_lookup s in
  (if nr_in_range arm64_nr then nth (Z.to_nat arm64_nr) (g_syscall_name_lookup s) None else Some "unknown"%string, s).

(** The count up to the entry without a name. *)
Definition get_syscall_table_size : Z := Z.of_nat (length syscall_table).

(** ** Structures: the fields with their offset and size *)

(** Both structures of [arm2x86.h] have these fields. *)
Definition xst_dev := (0, 8).
Definition xst_ino := (8, 8).
Definition xst_nlink := (16, 8).
Definition xst_mode := (24, 4).
Definition xst_uid := (28, 4).
Definition xst_gid := (32, 4).
Definition xst_rdev := (40, 8).
Definition xst_size := (48, 8).
Definition xst_blksize := (56, 8).
Definition xst_blocks := (64, 8).
Definition xst_atime := (72, 8).
Definition xst_atime_nsec := (80, 8).
Definition xst_mtime := (88, 8).
Definition xst_mtime_nsec := (96, 8).
Definition xst_ctime := (104, 8).
Definition xst_ctime_nsec := (112, 8).

(** [to->f = conv (from->f)]. *)
Definition copy_field (to from : Z) (conv : Z -> Z) (f : Z * Z) (m : Z -> Z) : Z -> Z :=
  st (snd f) (to + fst f) (conv (field f m from)) m.
(** Assignments one after the other. *)
Definition copy_fields (to from : Z) (l : list (Z * Z * (Z -> Z))) (m : Z -> Z) : Z -> Z :=
  fold_left (fun m fc => copy_field to from (snd fc) (fst fc) m) l m.

Definition same (v : Z) : Z := v.

Definition translate_stat_struct_arm64_to_x86 (arm x86 : Z) (m : Z -> Z) : Z * (Z -> Z) :=
  if (arm =? 0) || (x86 =? 0) then (ARM2X86_ERR_INVALID_PARAM, m)
  else (ARM2X86_OK, copy_fields x86 arm
    [ (xst_dev, same); (xst_ino, same); (xst_nlink, same); (xst_mode, same); (xst_uid, same); (xst_gid, same);
      (xst_rdev, same); (xst_size, same); (xst_blksize, same); (xst_blocks, same); (xst_atime, same);
      (xst_atime_nsec, same); (xst_mtime, same); (xst_mtime_nsec, same); (xst_ctime, same); (xst_ctime_nsec, same) ] m).

Definition xsa_handler := (0, 8).
Definition xsa_flags := (8, 8).
Definition xsa_restorer := (16, 8).
(** The first of the sixteen words of the mask. *)
Definition xsa_mask0 := (24, 8).
Definition sizeof_sigaction := 152.

Definition translate_sigaction_arm64_to_x86 (arm x86 : Z) (m : Z -> Z) : Z * (Z -> Z) :=
  if (arm =? 0) || (x86 =? 0) then (ARM2X86_ERR_INVALID_PARAM, m)
  else (ARM2X86_OK, copy_fields x86 arm
    [ (xsa_handler, same); (xsa_flags, same); (xsa_restorer, same); (xsa_mask0, same) ] m).

(** The ARM structure has [xev_pad] behind [xev_events]; that of x86 is not packed, so its
    [xev_data] has the same offset. *)
Definition xev_events := (0, 4).
Definition xev_data := (8, 8).

Definition translate_epoll_event_arm64_to_x86 (arm x86 : Z) (m : Z -> Z) : Z * (Z -> Z) :=
  if (arm =? 0) || (x86 =? 0) then (ARM2X86_ERR_INVALID_PARAM, m)
  else (ARM2X86_OK, copy_fields x86 arm [ (xev_events, same); (xev_data, same) ] m).

(** ** The process *)

(** The registers a system call is entered with. *)
Record regs := { rax : Z; rdi : Z; rsi : Z; rdx : Z; r10 : Z; r8 : Z; r9 : Z }.

Record proc := {
  memory : Z -> Z; g_tls_base : Z; fs_base : Z; numbers : syscall_lookup; calls : list regs }.

Definition set_memory (m : Z -> Z) (p : proc) : proc :=
  {| memory := m; g_tls_base := g_tls_base p; fs_base := fs_base p; numbers := numbers p; calls := calls p |}.
Definition set_numbers (s : syscall_lookup) (p : proc) : proc :=
  {| memory := memory p; g_tls_base := g_tls_base p; fs_base := fs_base p; numbers := s; calls := calls p |}.
Definition set_tls (v fs : Z) (p : proc) : proc :=
  {| memory := memory p; g_tls_base := v; fs_base := fs; numbers := numbers p; calls := calls p |}.

Definition ENOSYS := 38.
Definition CLONE_SETTLS := 0x00080000.

Section Kernel.
(** The result and the memory after a call; whether [arch_prctl] accepts an FS base. *)
Variable kernel : regs -> (Z -> Z) -> Z * (Z -> Z).
Variable arch_prctl : Z -> bool.
(** The registers the operands with constraint ["r"] and no register of their own end up
    in are the compiler's choice: what the registers hold that an asm statement with these
    operands does not name. *)
Variable unnamed : list Z -> regs.
(** The addresses of [stack_buf] and of [x86_sa] in the frame. *)
Variable stack_buf x86_sa : Z.

(** *** The TLS base *)

Definition NativeBridgeSetTLS (tls_base : Z) (p : proc) : Z * proc :=
  if arch_prctl tls_base then (0, set_tls tls_base tls_base p) else (-1, set_tls tls_base (fs_base p) p).
Definition NativeBridgeGetTLS (p : proc) : Z := g_tls_base p.
Definition arm2x86_mrs_tpidr_el0 (p : proc) : Z := g_tls_base p.
Definition arm2x86_mrs_tpidrro_el0 (p : proc) : Z := g_tls_base p.
Definition arm2x86_msr_tpidr_el0 (val : Z) (p : proc) : proc :=
  set_tls val (if arch_prctl val then val else fs_base p) p.

(** *** The calls *)

Definition syscall (r : regs) (p : proc) : Z * proc :=
  let '(result, m) := kernel r (memory p) in
  (result, {| memory := m; g_tls_base := g_tls_base p; fs_base := fs_base p; numbers := numbers p;
              calls := calls p ++ [r] |}).

(** RAX, RDI, RSI and RDX are named by the constraints, the other operands are not. *)
Definition named (nr a0 a1 a2 : Z) (operands : list Z) : regs :=
  let u := unnamed operands in
  {| rax := nr; rdi := a0; rsi := a1; rdx := a2; r10 := r10 u; r8 := r8 u; r9 := r9 u |}.

(** The structure the kernel wrote at [x86_s], field by field to [arm_s]. *)
Definition stat_fields_back : list (Z * Z * (Z -> Z)) :=
  [ (xst_dev, same); (xst_ino, same); (xst_mode, same); (xst_nlink, u32); (xst_uid, same); (xst_gid, same);
    (xst_rdev, same); (xst_size, same); (xst_blksize, s32); (xst_blocks, same); (xst_atime, same);
    (xst_atime_nsec, same); (xst_mtime, same); (xst_mtime_nsec, same); (xst_ctime, same); (xst_ctime_nsec, same) ].

Definition syscall_stat (x86_nr arg0 arg1 arg2 arg3 arg4 arg5 : Z) (p : proc) : Z * proc :=
  let '(result, p) := syscall (named x86_nr arg0 stack_buf arg2 [arg3; arg4; arg5]) p in
  let p := if result =? 0 then set_memory (copy_fields arg1 stack_buf stat_fields_back (memory p)) p else p in
  (s32 result, p).

(** [arm_sa] is a copy of the argument's bytes; of [x86_sa] only the fields written are
    known. *)
Definition syscall_sigaction (x86_nr arg0 arg1 arg3 : Z) (p : proc) : Z * proc :=
  let p := set_memory (snd (translate_sigaction_arm64_to_x86 arg1 x86_sa (memory p))) p in
  let '(result, p) := syscall (named x86_nr arg0 x86_sa 0 [arg3]) p in
  (s32 result, p).

(** The second asm statement of the child: EAX is 0x1002 and RDI the base. *)
Definition child_set_fs (arm_tls : Z) (p : proc) : proc :=
  let u := unnamed [] in
  snd (syscall {| rax := 0x1002; rdi := arm_tls; rsi := rsi u; rdx := rdx u; r10 := r10 u; r8 := r8 u; r9 := r9 u |} p).

(** The flags are an [int], whose upper half in RDI is 0. *)
Definition syscall_clone (x86_nr arg0 arg1 arg2 arg3 arg4 : Z) (p : proc) : Z * proc :=
  let settls := c_true (arg0 &&& CLONE_SETTLS) in
  let x86_flags := if settls then u32 (u32 arg0 &&& Z.lnot CLONE_SETTLS) else u32 arg0 in
  let x86_tls := if settls then arg4 else 0 in
  let '(result, p) := syscall (named x86_nr x86_flags arg1 arg2 [x86_tls; arg3]) p in
  let p := if (result =? 0) && settls then child_set_fs arg4 (arm2x86_msr_tpidr_el0 arg4 p) else p in
  (s32 result, p).

Definition syscall_standard (x86_nr arg0 arg1 arg2 arg3 arg4 arg5 : Z) (p : proc) : Z * proc :=
  let '(result, p) := syscall (named x86_nr arg0 arg1 arg2 [arg3; arg4; arg5]) p in
  (s32 result, p).

(** Only the call 22 with events returns within its case; it is the standard call. *)
Definition do_translated_syscall (arm64_nr arg0 arg1 arg2 arg3 arg4 arg5 : Z) (p : proc) : Z * proc :=
  let '(x86_nr, s) := translate_syscall_number arm64_nr (numbers p) in
  let p := set_numbers s p in
  if x86_nr <? 0 then (- ENOSYS, p)
  else if (arm64_nr =? 80) || (arm64_nr =? 79) then syscall_stat x86_nr arg0 arg1 arg2 arg3 arg4 arg5 p
  else if (arm64_nr =? 128) && (c_true arg1 && (arg2 =? 0)) then syscall_sigaction x86_nr arg0 arg1 arg3 p
  else if arm64_nr =? 220 then syscall_clone x86_nr arg0 arg1 arg2 arg3 arg4 p
  else syscall_standard x86_nr arg0 arg1 arg2 arg3 arg4 arg5 p.
End Kernel.

(** ** The CRC-32 instructions of ARM *)

(** The pseudo code of CRC32B, CRC32H, CRC32W and CRC32X: bit reversal, and the remainder
    modulo the polynomial; [data] has [32 + i] bits. *)
Fixpoint bit_reverse (n : nat) (x : Z) : Z :=
  match n with O => 0 | S n => (b2z (Z.testbit x 0) <<< Z.of_nat n) ||| bit_reverse n (x >>> 1) end.
Fixpoint poly32_mod2 (i : nat) (data poly : Z) : Z :=
  match i with
  | O => u32 data
  | S i => poly32_mod2 i (if Z.testbit data (32 + Z.of_nat i) then data ^^^ (poly <<< Z.of_nat i) else data) poly
  end.
Definition arm_crc32 (size : nat) (acc val : Z) : Z :=
  let tempacc := bit_reverse 32 acc <<< Z.of_nat size in
  let tempval := bit_reverse size val <<< 32 in
  bit_reverse 32 (poly32_mod2 size (tempacc ^^^ tempval) 0x04C11DB7).

Lemma testbit_b2z b i : Z.testbit (b2z b) i = (i =? 0) && b.
Proof.
  destruct b; cbn [b2z]; [|by rewrite Z.bits_0, andb_false_r]. rewrite andb_true_r.
  destruct (Z.eqb_spec i 0) as [->|H]; [done|]. destruct (Z.lt_ge_cases i 0); [by apply Z.testbit_neg_r|].
  change 1 with (2 ^ 0). apply Z.pow2_bits_false. lia.
Qed.

Lemma bit_reverse_spec n x i : 0 <= i ->
  Z.testbit (bit_reverse n x) i = (i <? Z.of_nat n) && Z.testbit x (Z.of_nat n - 1 - i).
Proof.
  revert x. induction n as [|n IH]; intros x Hi; cbn [bit_reverse].
  - rewrite Z.bits_0. symmetry. apply andb_false_intro1. lia.
  - rewrite Z.lor_spec, Z.shiftl_spec, testbit_b2z, IH by lia.
    destruct (Z.eqb_spec (i - Z.of_nat n) 0) as [H|H].
    + replace (i <? Z.of_nat n) with false by lia. replace (i <? Z.of_nat (S n)) with true by lia.
      cbn [andb]. rewrite orb_false_r. f_equal. lia.
    + cbn [andb orb]. destruct (Z.ltb_spec i (Z.of_nat n)).
      * replace (i <? Z.of_nat (S n)) with true by lia. cbn [andb]. rewrite Z.shiftr_spec by lia. f_equal. lia.
      * replace (i <? Z.of_nat (S n)) with false by lia. done.
Qed.

(** The reflected polynomial. *)
Lemma reflected_poly i : 0 <= i < 32 -> Z.testbit 0x04C11DB7 (31 - i) = Z.testbit 0xEDB88320 i.
Proof.
  intros Hi. apply eqb_true_iff.
  apply (all_below_spec 32 (fun i => eqb (Z.testbit 0x04C11DB7 (31 - i)) (Z.testbit 0xEDB88320 i))); [vm_compute; reflexivity|lia].
Qed.
Lemma poly_bounded p i : (p = 0x04C11DB7 \/ p = 0xEDB88320) -> 32 <= i -> Z.testbit p i = false.
Proof.
  intros Hp Hi. apply Z.bits_above_log2; [lia|]. destruct Hp as [-> | ->].
  - assert (Z.log2 0x04C11DB7 = 26) as -> by reflexivity. lia.
  - assert (Z.log2 0xEDB88320 = 31) as -> by reflexivity. lia.
Qed.

(** One step of the division, seen in the reversed number. *)
Lemma reverse_divide size i data : (i < size)%nat ->
  bit_reverse (32 + size) (data ^^^ (0x04C11DB7 <<< Z.of_nat i)) =
  bit_reverse (32 + size) data ^^^ (0xEDB88320 <<< Z.of_nat (size - i)).
Proof.
  intros Hi. apply Z.bits_inj'. intros j Hj. rewrite Z.lxor_spec, !bit_reverse_spec, Z.lxor_spec by done.
  rewrite (Z.shiftl_spec 0xEDB88320) by done.
  destruct (Z.ltb_spec j (Z.of_nat (32 + size))) as [H|H].
  - cbn [andb]. f_equal. rewrite Z.shiftl_spec by lia.
    destruct (Z.lt_ge_cases j (Z.of_nat (size - i))) as [H1|H1].
    + rewrite (Z.testbit_neg_r 0xEDB88320) by lia. apply poly_bounded; [by left|lia].
    + destruct (Z.lt_ge_cases (j - Z.of_nat (size - i)) 32) as [H2|H2].
      * rewrite <- reflected_poly by lia. f_equal. lia.
      * rewrite (poly_bounded 0xEDB88320) by (lia || by right). apply Z.testbit_neg_r. lia.
  - cbn [andb]. rewrite xorb_false_l, poly_bounded; [done|by right|lia].
Qed.

Lemma poly32_mod2_iter size i data : (i <= size)%nat ->
  bit_reverse 32 (poly32_mod2 i data 0x04C11DB7) =
  Nat.iter i crc_bit (bit_reverse (32 + size) data >>> Z.of_nat (size - i)).
Proof.
  revert data. induction i as [|i IH]; intros data Hi.
  - cbn [poly32_mod2 Nat.iter nat_rect]. apply Z.bits_inj'. intros j Hj.
    rewrite Z.shiftr_spec, !bit_reverse_spec by lia. rewrite Nat.sub_0_r.
    destruct (Z.ltb_spec j (Z.of_nat 32)).
    + replace (j + Z.of_nat size <? Z.of_nat (32 + size)) with true by lia. cbn [andb].
      unfold u32. rewrite Z.mod_pow2_bits_low by lia. f_equal. lia.
    + replace (j + Z.of_nat size <? Z.of_nat (32 + size)) with false by lia. done.
  - cbn [poly32_mod2]. rewrite IH by lia. rewrite Nat.iter_succ_r. f_equal.
    assert (Hb : crc_bit (bit_reverse (32 + size) data >>> Z.of_nat (size - S i)) =
      (bit_reverse (32 + size) data >>> Z.of_nat (size - i)) ^^^
      (if Z.testbit data (32 + Z.of_nat i) then 0xEDB88320 else 0)).
    { unfold crc_bit. rewrite Z.shiftr_shiftr, c_true_land1, Z.shiftr_spec, bit_reverse_spec by lia.
      replace (0 + Z.of_nat (size - S i) <? Z.of_nat (32 + size)) with true by lia. cbn [andb].
      replace (Z.of_nat (32 + size) - 1 - (0 + Z.of_nat (size - S i))) with (32 + Z.of_nat i) by lia.
      f_equal. f_equal. lia. }
    rewrite Hb. destruct (Z.testbit data (32 + Z.of_nat i)); [|by rewrite Z.lxor_0_r].
    rewrite reverse_divide by lia. rewrite Z.shiftr_lxor. f_equal.
    rewrite Z.shiftr_shiftl_l by lia. by rewrite Z.sub_diag.
Qed.

Lemma arm_crc32_iter size acc val : 0 <= acc < 2^32 -> 0 <= val < 2 ^ Z.of_nat size ->
  arm_crc32 size acc val = Nat.iter size crc_bit (acc ^^^ val).
Proof.
  intros Ha Hv. unfold arm_crc32. rewrite (poly32_mod2_iter size) by lia. rewrite Nat.sub_diag. f_equal.
  rewrite Z.shiftr_0_r. apply Z.bits_inj'. intros j Hj.
  assert (Hout : forall x n, 0 <= x < 2 ^ n -> 0 <= n -> forall k, n <= k -> Z.testbit x k = false).
  { intros x n Hx Hn k Hk. rewrite <- (Z.mod_small x (2 ^ n)) by done. apply Z.mod_pow2_bits_high. lia. }
  rewrite bit_reverse_spec, !Z.lxor_spec by done.
  destruct (Z.ltb_spec j (Z.of_nat (32 + size))); cbn [andb].
  - rewrite !Z.shiftl_spec by lia. f_equal.
    + destruct (Z.lt_ge_cases j 32).
      * rewrite bit_reverse_spec by lia. replace (_ <? Z.of_nat 32) with true by lia. cbn [andb]. f_equal. lia.
      * rewrite Z.testbit_neg_r by lia. symmetry. apply (Hout acc 32); lia.
    + destruct (Z.lt_ge_cases j (Z.of_nat size)).
      * rewrite bit_reverse_spec by lia. replace (_ <? Z.of_nat size) with true by lia. cbn [andb]. f_equal. lia.
      * rewrite Z.testbit_neg_r by lia. symmetry. apply (Hout val (Z.of_nat size)); lia.
  - rewrite (Hout acc 32), (Hout val (Z.of_nat size)) by lia. done.
Qed.

Lemma same_table : crc32_ieee_table = crc32_table.
Proof. reflexivity. Qed.

Lemma loop_step_bits crc data :
  (crc >>> 8) ^^^ nth (Z.to_nat ((crc ^^^ (data &&& 0xFF)) &&& 0xFF)) crc32_ieee_table 0 =
  crc_byte crc (data &&& 0xFF).
Proof.
  rewrite same_table, <- crc_step_bits by apply land_byte. apply Z.lxor_comm.
Qed.

Lemma lxor_split_low crc data : (crc ^^^ (data &&& 0xFF)) ^^^ ((data >>> 8) <<< Z.of_nat 8) = crc ^^^ data.
Proof. rewrite Z.lxor_assoc. f_equal. symmetry. apply split_low_byte. Qed.

Lemma crc_bits_lxor_shift crc data :
  Nat.iter 8 crc_bit (crc ^^^ (data <<< Z.of_nat 8)) = Nat.iter 8 crc_bit crc ^^^ data.
Proof. rewrite crc_bits_lxor. f_equal. apply (crc_bits_shift 8). Qed.

Lemma crc32_loop_iter n crc data : 0 <= data < 2 ^ (8 * Z.of_nat n) ->
  crc32_loop n crc data = Nat.iter (8 * n) crc_bit (crc ^^^ data).
Proof.
  revert crc data. induction n as [|n IH]; intros crc data Hd.
  - cbn [crc32_loop]. assert (data = 0) as -> by (change (2 ^ (8 * Z.of_nat 0)) with 1 in Hd; lia).
    by rewrite Z.lxor_0_r.
  - cbn [crc32_loop]. rewrite IH.
    2:{ rewrite Z.shiftr_div_pow2 by lia. split; [apply Z.div_pos; lia|]. apply Z.div_lt_upper_bound; [lia|].
        rewrite <- Z.pow_add_r by lia. replace (8 + 8 * Z.of_nat n) with (8 * Z.of_nat (S n)) by lia. lia. }
    replace (8 * S n)%nat with (8 * n + 8)%nat by lia. rewrite Nat.iter_add. f_equal.
    rewrite loop_step_bits. unfold crc_byte. by rewrite <- crc_bits_lxor_shift, lxor_split_low.
Qed.

(** C34: The helper for the CRC-32 instructions computes what the architecture manual says:
    the remainder of the bit-reversed accumulator and operand modulo the polynomial
    0x04C11DB7, reversed again, for operands of 1, 2, 4 and 8 bytes; and a longer operand
    is its parts one after the other, the low one first. *)
Theorem crc32_is_arm crc val n :
  0 <= crc < 2^32 -> 0 <= val < 2 ^ (8 * Z.of_nat n) ->
  crc32_ieee802_3 crc val (Z.of_nat n) = arm_crc32 (8 * n) crc val /\
  (forall k, (k <= n)%nat ->
    crc32_ieee802_3 crc val (Z.of_nat n) =
    crc32_ieee802_3 (crc32_ieee802_3 crc (val mod 2 ^ (8 * Z.of_nat k)) (Z.of_nat k))
      (val >>> (8 * Z.of_nat k)) (Z.of_nat (n - k))).
Proof.
  intros Hc Hv. unfold crc32_ieee802_3. rewrite !Nat2Z.id. split.
  - rewrite crc32_loop_iter, arm_crc32_iter by (done || (replace (Z.of_nat (8 * n)) with (8 * Z.of_nat n) by lia; done)).
    done.
  - clear Hc. intros k Hk. rewrite !Nat2Z.id. revert n crc val Hv Hk. induction k as [|k IH]; intros n crc val Hv Hk.
    + cbn [crc32_loop]. by rewrite Z.shiftr_0_r, Nat.sub_0_r.
    + destruct n as [|n]; [lia|]. cbn [crc32_loop]. rewrite (IH n).
      2:{ rewrite Z.shiftr_div_pow2 by lia. split; [apply Z.div_pos; lia|]. apply Z.div_lt_upper_bound; [lia|].
          rewrite <- Z.pow_add_r by lia. replace (8 + 8 * Z.of_nat n) with (8 * Z.of_nat (S n)) by lia. lia. }
      2:lia.
      rewrite Z.shiftr_shiftr by lia. replace (8 + 8 * Z.of_nat k) with (8 * Z.of_nat (S k)) by lia.
      change (S n - S k)%nat with (n - k)%nat. f_equal.
      assert (Hlow : (val mod 2 ^ (8 * Z.of_nat (S k))) &&& 0xFF = val &&& 0xFF).
      { apply Z.bits_inj'. intros j Hj. rewrite !Z.land_spec. change 0xFF with (Z.ones 8).
        destruct (Z.lt_ge_cases j 8); [by rewrite Z.mod_pow2_bits_low by lia|].
        rewrite Z.ones_spec_high by lia. by rewrite !andb_false_r. }
      assert (Hhigh : (val mod 2 ^ (8 * Z.of_nat (S k))) >>> 8 = (val >>> 8) mod 2 ^ (8 * Z.of_nat k)).
      { rewrite !Z.shiftr_div_pow2 by lia. replace (8 * Z.of_nat (S k)) with (8 + 8 * Z.of_nat k) by lia.
        rewrite Z.pow_add_r by lia. rewrite Z.rem_mul_r by lia.
        rewrite (Z.add_comm (val mod 2 ^ 8)), Z.mul_comm, Z.div_add_l by lia.
        rewrite (Z.div_small (val mod 2 ^ 8)) by (apply Z.mod_pos_bound; lia). lia. }
      by rewrite Hlow, Hhigh.
Qed.

(** The check value of the CRC without the final complement, and an empty operand. *)
Lemma crc32_is_arm_witness :
  crc32_ieee802_3 0xFFFFFFFF 0x3837363534333231 8 = 0x651F2550 /\ arm_crc32 64 0xFFFFFFFF 0x3837363534333231 = 0x651F2550.
Proof.
  destruct (crc32_is_arm 0xFFFFFFFF 0x3837363534333231 8 ltac:(lia) ltac:(lia)) as [H _].
  assert (E : crc32_ieee802_3 0xFFFFFFFF 0x3837363534333231 8 = 0x651F2550) by (vm_compute; reflexivity).
  split; [exact E|]. change (8 * 8)%nat with 64%nat in H. rewrite <- H. exact E.
Defined.

(** ** Numbers and names *)

(** The states of the lookup arrays. *)
Inductive lookup_reachable : syscall_lookup -> Prop :=
  | lookup_static : lookup_reachable syscall_lookup_start
  | lookup_translate nr s : lookup_reachable s -> lookup_reachable (snd (translate_syscall_number nr s))
  | lookup_name nr s : lookup_reachable s -> lookup_reachable (snd (get_syscall_name nr s)).

(** The number of [nr] by the table, and its name. *)
Definition table_number (nr : Z) : Z := if (0 <=? nr) && (nr <? 306) then nr else -1.
Definition table_name (nr : Z) : string :=
  if (0 <=? nr) && (nr <? 306) then snd (nth (Z.to_nat nr) syscall_table (0, 0, ""%string)) else "unknown"%string.

Lemma nth_map_seqZ {A} (f : Z -> A) n d nr : 0 <= nr < Z.of_nat n -> nth (Z.to_nat nr) (map f (seqZ 0 (Z.of_nat n))) d = f nr.
Proof.
  intros H. rewrite (nth_indep _ d (f 0)) by (rewrite length_map, length_seqZ; lia).
  rewrite map_nth. f_equal. apply nth_lookup_Some. rewrite lookup_seqZ. lia.
Qed.

Lemma populated_numbers nr : 0 <= nr < 1024 ->
  nth (Z.to_nat nr) (populate (fun e => snd (fst e)) (replicate SYSCALL_TABLE_MAX_NR (-1))) 0 = table_number nr.
Proof.
  intros H. assert (E : populate (fun e => snd (fst e)) (replicate SYSCALL_TABLE_MAX_NR (-1)) =
    map table_number (seqZ 0 (Z.of_nat 1024))) by (vm_compute; reflexivity).
  rewrite E. apply nth_map_seqZ. exact H.
Qed.
Lemma populated_names nr : 0 <= nr < 1024 ->
  nth (Z.to_nat nr) (populate (fun e => Some (snd e)) (replicate SYSCALL_TABLE_MAX_NR (Some "unknown"%string))) None =
  Some (table_name nr).
Proof.
  intros H. assert (E : populate (fun e => Some (snd e)) (replicate SYSCALL_TABLE_MAX_NR (Some "unknown"%string)) =
    map (fun nr => Some (table_name nr)) (seqZ 0 (Z.of_nat 1024))) by (vm_compute; reflexivity).
  rewrite E. apply (nth_map_seqZ (fun nr => Some (table_name nr))). exact H.
Qed.

#[local] Opaque populate.

(** An array is as it was, or filled. *)
Definition lookup_ok (s : syscall_lookup) : Prop :=
  (g_syscall_lookup_initialized s = true ->
    g_syscall_lookup s = populate (fun e => snd (fst e)) (replicate SYSCALL_TABLE_MAX_NR (-1))) /\
  (g_syscall_name_initialized s = true ->
    g_syscall_name_lookup s = populate (fun e => Some (snd e)) (replicate SYSCALL_TABLE_MAX_NR (Some "unknown"%string))).

Lemma lookup_reachable_ok s : lookup_reachable s -> lookup_ok s.
Proof.
  induction 1 as [|nr s _ [H1 H2]|nr s _ [H1 H2]].
  - split; discriminate.
  - unfold translate_syscall_number, init_syscall_lookup. cbn [snd].
    destruct (g_syscall_lookup_initialized s) eqn:E; [split; [intros _; exact (H1 eq_refl)|exact H2]|].
    split; cbn [g_syscall_lookup_initialized g_syscall_lookup g_syscall_name_initialized g_syscall_name_lookup]; [reflexivity|exact H2].
  - unfold get_syscall_name, init_syscall_name_lookup. cbn [snd].
    destruct (g_syscall_name_initialized s) eqn:E; [split; [exact H1|intros _; exact (H2 eq_refl)]|].
    split; cbn [g_syscall_lookup_initialized g_syscall_lookup g_syscall_name_initialized g_syscall_name_lookup]; [exact H1|reflexivity].
Qed.

Lemma translate_number_spec nr s : lookup_ok s ->
  fst (translate_syscall_number nr s) = table_number nr /\ lookup_ok (snd (translate_syscall_number nr s)).
Proof.
  intros Hs.
  assert (Hs' : lookup_ok (if g_syscall_lookup_initialized s then s else init_syscall_lookup s) /\
    g_syscall_lookup_initialized (if g_syscall_lookup_initialized s then s else init_syscall_lookup s) = true).
  { destruct Hs as [H1 H2]. unfold init_syscall_lookup. destruct (g_syscall_lookup_initialized s) eqn:E; [split; [split; [intros _; exact (H1 eq_refl)|exact H2]|exact E]|].
    split; [split|]; cbn [g_syscall_lookup_initialized g_syscall_lookup g_syscall_name_initialized g_syscall_name_lookup];
      [reflexivity|exact H2|reflexivity]. }
  destruct Hs' as [Hs' E]. unfold translate_syscall_number. cbv zeta. split; [|exact Hs'].
  cbn [fst]. rewrite (proj1 Hs' E). unfold nr_in_range.
  destruct ((0 <=? nr) && (nr <? Z.of_nat SYSCALL_TABLE_MAX_NR)) eqn:R.
  - apply populated_numbers. unfold SYSCALL_TABLE_MAX_NR in R. lia.
  - unfold table_number. unfold SYSCALL_TABLE_MAX_NR in R. by destruct ((0 <=? nr) && (nr <? 306)) eqn:R'; [lia|].
Qed.

Lemma name_spec nr s : lookup_ok s -> fst (get_syscall_name nr s) = Some (table_name nr).
Proof.
  intros Hs.
  assert (E : g_syscall_name_lookup (if g_syscall_name_initialized s then s else init_syscall_name_lookup s) =
    populate (fun e => Some (snd e)) (replicate SYSCALL_TABLE_MAX_NR (Some "unknown"%string))).
  { destruct Hs as [H1 H2]. unfold init_syscall_name_lookup.
    destruct (g_syscall_name_initialized s) eqn:E; [exact (H2 eq_refl)|reflexivity]. }
  unfold get_syscall_name. cbv zeta. cbn [fst]. rewrite E. unfold nr_in_range.
  destruct ((0 <=? nr) && (nr <? Z.of_nat SYSCALL_TABLE_MAX_NR)) eqn:R.
  - apply populated_names. unfold SYSCALL_TABLE_MAX_NR in R. lia.
  - unfold table_name. unfold SYSCALL_TABLE_MAX_NR in R. by destruct ((0 <=? nr) && (nr <? 306)) eqn:R'; [lia|].
Qed.

(** The numbers of common calls in the kernel's ABIs: ARM64 (asm-generic/unistd.h), x86-64
    (syscall_64.tbl). *)
Definition linux_numbers : list (Z * Z * string) :=
  [ (17, 79, "getcwd"); (23, 32, "dup"); (25, 72, "fcntl"); (29, 16, "ioctl"); (49, 80, "chdir"); (56, 257, "openat");
    (57, 3, "close"); (61, 217, "getdents64"); (62, 8, "lseek"); (63, 0, "read"); (64, 1, "write"); (66, 20, "writev");
    (79, 262, "newfstatat"); (80, 5, "fstat"); (93, 60, "exit"); (94, 231, "exit_group"); (96, 218, "set_tid_address");
    (98, 202, "futex"); (101, 35, "nanosleep"); (113, 228, "clock_gettime"); (124, 24, "sched_yield"); (129, 62, "kill");
    (131, 234, "tgkill"); (134, 13, "rt_sigaction"); (135, 14, "rt_sigprocmask"); (160, 63, "uname"); (167, 157, "prctl");
    (172, 39, "getpid"); (178, 186, "gettid"); (198, 41, "socket"); (203, 42, "connect"); (214, 12, "brk");
    (215, 11, "munmap"); (220, 56, "clone"); (221, 59, "execve"); (222, 9, "mmap"); (226, 10, "mprotect");
    (233, 28, "madvise"); (260, 61, "wait4"); (261, 302, "prlimit64"); (278, 318, "getrandom") ]%string.

(** C35: Whatever was asked before, the number of a call is translated to itself from 0 to
    305 and to -1 else, and its name is the one of its line of the table, or "unknown": the
    table holds one line for each number from 0 to 305 and is the identity.  So none of the
    calls of [linux_numbers] is translated to its number on x86-64. *)
Theorem syscall_numbers s nr :
  lookup_reachable s ->
  fst (translate_syscall_number nr s) = (if (0 <=? nr) && (nr <? 306) then nr else -1) /\
  fst (get_syscall_name nr s) =
    Some (if (0 <=? nr) && (nr <? 306) then snd (nth (Z.to_nat nr) syscall_table (0, 0, ""%string)) else "unknown"%string) /\
  get_syscall_table_size = 306 /\
  Forall (fun e => fst (translate_syscall_number (fst (fst e)) s) <> snd (fst e)) linux_numbers.
Proof.
  intros Hs%lookup_reachable_ok. split; [apply translate_number_spec, Hs|]. split; [apply name_spec, Hs|].
  split; [vm_compute; reflexivity|]. apply (Forall_impl (fun e => table_number (fst (fst e)) <> snd (fst e))).
  - unfold linux_numbers. repeat (apply Forall_cons_2; [vm_compute; discriminate|]). apply Forall_nil_2.
  - intros e He. by rewrite (proj1 (translate_number_spec _ _ Hs)).
Qed.
Lemma syscall_numbers_witness :
  fst (translate_syscall_number 63 syscall_lookup_start) = 63 /\
  fst (get_syscall_name 63 (snd (translate_syscall_number 63 syscall_lookup_start))) = Some "read"%string.
Proof.
  destruct (syscall_numbers syscall_lookup_start 63 lookup_static) as (H & _).
  destruct (syscall_numbers _ 63 (lookup_translate 63 _ lookup_static)) as (_ & H2 & _).
  split; [exact H|]. exact H2.
Defined.

(** ** Copying fields *)

Definition fields_apart (f g : Z * Z) : bool := (fst f + snd f <=? fst g) || (fst g + snd g <=? fst f).
Fixpoint fields_ok (size : Z) (l : list (Z * Z)) : bool :=
  match l with
  | [] => true
  | f :: l => (0 <=? fst f) && (0 <=? snd f) && (fst f + snd f <=? size) && forallb (fields_apart f) l && fields_ok size l
  end.

Lemma fields_ok_cons size f l : fields_ok size (f :: l) = true ->
  0 <= fst f /\ 0 <= snd f /\ fst f + snd f <= size /\
  (forall g, In g l -> fst f + snd f <= fst g \/ fst g + snd g <= fst f) /\ fields_ok size l = true.
Proof.
  cbn [fields_ok]. rewrite !andb_true_iff, !Z.leb_le, forallb_forall. intros ((((H1 & H2) & H3) & H4) & H5).
  split_and!; try assumption. intros g Hg. specialize (H4 g Hg). unfold fields_apart in H4. lia.
Qed.

(** A part of a value stored. *)
Lemma ld_st_part n k i a v m : 0 <= k -> 0 <= i -> i + k <= n ->
  ld k (st n a v m) (a + i) = (v >>> (8 * i)) mod 2 ^ (8 * k).
Proof.
  intros Hk Hi Hn. rewrite <- (ld_st_same k (a + i) (v >>> (8 * i)) m) by done. apply ld_ext. intros x Hx.
  rewrite !st_in by lia. rewrite Z.shiftr_shiftr by lia. do 2 f_equal. lia.
Qed.

Lemma copy_fields_outside to from l m x :
  (forall f c, In (f, c) l -> ~ (to + fst f <= x < to + fst f + snd f)) -> copy_fields to from l m x = m x.
Proof.
  revert m. induction l as [|[f c] l IH]; intros m H; [done|].
  unfold copy_fields in *. cbn [fold_left]. rewrite IH by (intros g d Hg; apply (H g d); by right).
  unfold copy_field. cbn [fst snd]. apply st_out, (H f c). by left.
Qed.

(** A field of the copy, or a part of it, is the converted field of the original, if the
    structures do not overlap. *)
Lemma copy_fields_part to from size l m f c k i :
  fields_ok size (map fst l) = true -> (to + size <= from \/ from + size <= to) -> In (f, c) l ->
  0 <= k -> 0 <= i -> i + k <= snd f ->
  ld k (copy_fields to from l m) (to + fst f + i) = (c (field f m from) >>> (8 * i)) mod 2 ^ (8 * k).
Proof.
  intros Hok Hap. revert m. induction l as [|[g d] l IH]; intros m Hin Hk Hi Hn; [destruct Hin|].
  cbn [map] in Hok. pose proof (fields_ok_cons _ _ _ Hok) as (H1 & H2 & H3 & H4 & Hok'). cbn [fst] in *.
  unfold copy_fields. cbn [fold_left fst snd]. fold (copy_fields to from l (copy_field to from d g m)).
  destruct Hin as [[= -> ->]|Hin].
  - rewrite (ld_ext k _ (copy_field to from c f m)).
    + unfold copy_field. by apply ld_st_part.
    + intros x Hx. apply copy_fields_outside. intros h e Hh Hxh.
      specialize (H4 h (in_map fst _ _ Hh)). lia.
  - rewrite (IH Hok' _ Hin) by done. f_equal. f_equal. f_equal. unfold field, copy_field. apply ld_st_apart.
    assert (Hf : 0 <= fst f /\ fst f + snd f <= size).
    { clear - Hok' Hin. induction l as [|[h e] l IH]; [destruct Hin|]. cbn [map fst] in Hok'.
      apply fields_ok_cons in Hok' as (A1 & _ & A3 & _ & A5). destruct Hin as [[= -> ->]|Hin]; [done|by apply IH]. }
    lia.
Qed.

Lemma copy_fields_get to from size l m f c :
  fields_ok size (map fst l) = true -> (to + size <= from \/ from + size <= to) -> In (f, c) l -> 0 <= snd f ->
  field f (copy_fields to from l m) to = c (field f m from) mod 2 ^ (8 * snd f).
Proof.
  intros Hok Hap Hin Hs. unfold field at 1.
  pose proof (copy_fields_part to from size l m f c (snd f) 0 Hok Hap Hin Hs ltac:(lia) ltac:(lia)) as E.
  rewrite Z.add_0_r, Z.mul_0_r, Z.shiftr_0_r in E. exact E.
Qed.

(** ** The calls *)

Section Calls.
Context (kernel : regs -> (Z -> Z) -> Z * (Z -> Z)) (arch_prctl : Z -> bool) (unnamed : list Z -> regs).
Context (stack_buf x86_sa : Z).

Local Abbreviation do := (do_translated_syscall kernel arch_prctl unnamed stack_buf x86_sa).
Local Abbreviation named := (named unnamed).

(** The memory and the result of a call. *)
Local Abbreviation after r m := (snd (kernel r m)).
Local Abbreviation answer r m := (fst (kernel r m)).

Lemma syscall_eq r p :
  fst (syscall kernel r p) = answer r (memory p) /\ memory (snd (syscall kernel r p)) = after r (memory p) /\
  calls (snd (syscall kernel r p)) = calls p ++ [r] /\ g_tls_base (snd (syscall kernel r p)) = g_tls_base p.
Proof. unfold syscall. by destruct (kernel r (memory p)). Qed.

(** The number is known to be translated to itself. *)
Lemma do_known nr a0 a1 a2 a3 a4 a5 p : lookup_reachable (numbers p) -> 0 <= nr < 306 ->
  let p' := set_numbers (snd (translate_syscall_number nr (numbers p))) p in
  do nr a0 a1 a2 a3 a4 a5 p =
    (if (nr =? 80) || (nr =? 79) then syscall_stat kernel unnamed stack_buf nr a0 a1 a2 a3 a4 a5 p'
     else if (nr =? 128) && (c_true a1 && (a2 =? 0)) then syscall_sigaction kernel unnamed x86_sa nr a0 a1 a3 p'
     else if nr =? 220 then syscall_clone kernel arch_prctl unnamed nr a0 a1 a2 a3 a4 p'
     else syscall_standard kernel unnamed nr a0 a1 a2 a3 a4 a5 p').
Proof.
  intros Hp%lookup_reachable_ok Hn p'. unfold do_translated_syscall.
  pose proof (proj1 (translate_number_spec nr _ Hp)) as E. subst p'.
  destruct (translate_syscall_number nr (numbers p)) as [x s]. cbn [fst snd] in *. subst x.
  unfold table_number. replace ((0 <=? nr) && (nr <? 306)) with true by lia.
  by replace (nr <? 0) with false by lia.
Qed.

Lemma do_unknown nr a0 a1 a2 a3 a4 a5 p : lookup_reachable (numbers p) -> ~ (0 <= nr < 306) ->
  do nr a0 a1 a2 a3 a4 a5 p = (-38, set_numbers (snd (translate_syscall_number nr (numbers p))) p).
Proof.
  intros Hp%lookup_reachable_ok Hn. unfold do_translated_syscall.
  pose proof (proj1 (translate_number_spec nr _ Hp)) as E.
  destruct (translate_syscall_number nr (numbers p)) as [x s]. cbn [fst snd] in *. subst x.
  unfold table_number. by replace ((0 <=? nr) && (nr <? 306)) with false by lia.
Qed.

Lemma standard_eq nr a0 a1 a2 a3 a4 a5 p :
  let r := named nr a0 a1 a2 [a3; a4; a5] in
  let '(result, p') := syscall_standard kernel unnamed nr a0 a1 a2 a3 a4 a5 p in
  result = s32 (answer r (memory p)) /\ memory p' = after r (memory p) /\ calls p' = calls p ++ [r].
Proof. cbv zeta. unfold syscall_standard, syscall. by destruct (kernel _ (memory p)). Qed.

Lemma settls_bit a0 : c_true (a0 &&& CLONE_SETTLS) = Z.testbit a0 19.
Proof.
  change CLONE_SETTLS with (1 <<< 19). unfold c_true. destruct (Z.testbit a0 19) eqn:Hb.
  - apply negb_true_iff, Z.eqb_neq. intros E. apply (f_equal (fun v => Z.testbit v 19)) in E.
    rewrite Z.land_spec, Hb, Z.bits_0 in E. discriminate.
  - apply negb_false_iff, Z.eqb_eq. apply Z.bits_inj'. intros n Hn. rewrite Z.land_spec, Z.bits_0.
    rewrite Z.shiftl_spec by done. destruct (decide (n = 19)) as [->|Hne]; [by rewrite Hb|].
    destruct (Z.ltb_spec n 19); [rewrite (Z.testbit_neg_r 1) by lia; by rewrite andb_false_r|].
    rewrite (Z.bits_above_log2 1); [by rewrite andb_false_r|lia|cbn; lia].
Qed.

(** The flags of a clone, and the call itself. *)
Definition clone_flags (a0 : Z) : Z := if Z.testbit a0 19 then u32 (u32 a0 &&& Z.lnot CLONE_SETTLS) else u32 a0.
Definition clone_regs (nr a0 a1 a2 a3 a4 : Z) : regs :=
  named nr (clone_flags a0) a1 a2 [if Z.testbit a0 19 then a4 else 0; a3].

Lemma clone_flags_bits a0 i : 0 <= i < 32 ->
  Z.testbit (clone_flags a0) i = Z.testbit a0 i && negb (i =? 19).
Proof.
  intros Hi. unfold clone_flags, u32. destruct (Z.testbit a0 19) eqn:Hb; rewrite Z.mod_pow2_bits_low by lia.
  - rewrite Z.land_spec, Z.mod_pow2_bits_low, Z.lnot_spec by lia. f_equal. f_equal.
    change CLONE_SETTLS with (1 <<< 19). rewrite Z.shiftl_spec by lia. destruct (Z.eqb_spec i 19) as [->|Hne]; [done|].
    destruct (Z.ltb_spec i 19); [by rewrite (Z.testbit_neg_r 1) by lia|]. apply Z.bits_above_log2; [lia|cbn; lia].
  - destruct (Z.eqb_spec i 19) as [->|]; [by rewrite Hb|]. by rewrite andb_true_r.
Qed.

Lemma clone_eq nr a0 a1 a2 a3 a4 p :
  let r := clone_regs nr a0 a1 a2 a3 a4 in
  let '(result, p') := syscall_clone kernel arch_prctl unnamed nr a0 a1 a2 a3 a4 p in
  result = s32 (answer r (memory p)) /\
  if (answer r (memory p) =? 0) && Z.testbit a0 19 then
    exists r2, rax r2 = 0x1002 /\ rdi r2 = a4 /\ g_tls_base p' = a4 /\
      fs_base p' = (if arch_prctl a4 then a4 else fs_base p) /\
      memory p' = after r2 (after r (memory p)) /\ calls p' = calls p ++ [r; r2]
  else
    g_tls_base p' = g_tls_base p /\ fs_base p' = fs_base p /\
    memory p' = after r (memory p) /\ calls p' = calls p ++ [r].
Proof.
  cbv zeta. unfold syscall_clone. rewrite settls_bit. fold (clone_flags a0). fold (clone_regs nr a0 a1 a2 a3 a4).
  unfold syscall at 1. destruct (kernel _ (memory p)) as [v m] eqn:E. cbn [fst snd].
  split; [done|]. destruct ((v =? 0) && Z.testbit a0 19) eqn:Hc; [|done].
  unfold child_set_fs, arm2x86_msr_tpidr_el0, set_tls, syscall. cbn [memory fs_base].
  eexists {| rax := 0x1002; rdi := a4; rsi := _; rdx := _; r10 := _; r8 := _; r9 := _ |}.
  destruct (kernel _ m) as [v2 m2] eqn:E2. cbn [snd g_tls_base fs_base memory calls].
  split; [done|]. split; [done|]. split; [done|]. split; [done|]. split; [by rewrite E2|].
  by rewrite <- app_assoc.
Qed.

(** The structure passed to the kernel by the call 128. *)
Definition sigaction_fields : list (Z * Z) := [xsa_handler; xsa_flags; xsa_restorer; xsa_mask0].
Definition sigaction_passed (a1 : Z) (m m1 : Z -> Z) : Prop :=
  (forall f, In f sigaction_fields -> field f m1 x86_sa = field f m a1 mod 2 ^ 64) /\
  forall x, ~ (x86_sa <= x < x86_sa + 32) -> m1 x = m x.

Lemma sigaction_eq nr a0 a1 a3 p : a1 <> 0 -> x86_sa <> 0 -> (a1 + 32 <= x86_sa \/ x86_sa + 32 <= a1) ->
  let r := named nr a0 x86_sa 0 [a3] in
  exists m1, sigaction_passed a1 (memory p) m1 /\
  let '(result, p') := syscall_sigaction kernel unnamed x86_sa nr a0 a1 a3 p in
  result = s32 (answer r m1) /\ memory p' = after r m1 /\ calls p' = calls p ++ [r] /\ g_tls_base p' = g_tls_base p.
Proof.
  intros H1 H2 Hap r. set (l := map (fun f => (f, same)) sigaction_fields).
  exists (copy_fields x86_sa a1 l (memory p)).
  assert (E : translate_sigaction_arm64_to_x86 a1 x86_sa (memory p) = (ARM2X86_OK, copy_fields x86_sa a1 l (memory p))).
  { unfold translate_sigaction_arm64_to_x86. by rewrite (proj2 (Z.eqb_neq _ _) H1), (proj2 (Z.eqb_neq _ _) H2). }
  split; [split|].
  - intros f Hf. assert (Hs : snd f = 8) by (cbn in Hf; decompose [or] Hf; by simplify_eq).
    rewrite (copy_fields_get x86_sa a1 32 l (memory p) f same); [| reflexivity | lia | | lia].
    + by rewrite Hs.
    + apply in_map_iff. by exists f.
  - intros x Hx. apply copy_fields_outside. intros f c Hf.
    cbn in Hf. decompose [or] Hf; simplify_eq; cbn [fst snd xsa_handler xsa_flags xsa_restorer xsa_mask0]; lia.
  - unfold syscall_sigaction. rewrite E. cbn [snd]. unfold syscall. cbn [memory set_memory]. fold r.
    by destruct (kernel r _).
Qed.

(** C32: What a translated system call does, on every branch.
    - A number outside the table is answered with -ENOSYS and no call.
    - Every call but 79, 80, 128 and 220 is made once, with the first
      three arguments in RDI, RSI and RDX: the other three reach the kernel only if the
      compiler happens to choose R10, R8 and R9 for them; the result is cut to an int and
      memory is what the kernel makes of it.
    - 79 and 80 are made once in the same way, with the buffer of the frame instead of the
      second argument (what is then copied back is [fstat_result]'s).
    - 128 with a structure and without an old one passes a structure of the frame that has
      the handler, the flags, the restorer and the first word of the mask of the
      caller's; the other fifteen words are what the frame held, nothing else of memory
      changes before the call, and the third argument is 0.  Otherwise it is an ordinary call.
    - 220 passes the lower 32 bits of the flags without CLONE_SETTLS.  The parent,
      a child without CLONE_SETTLS and a failed call just return, the TLS base
      unchanged; the child with it sets the TLS base to the fifth argument and then makes
      a call with the number 0x1002, which was meant as the argument of arch_prctl. *)
Theorem do_syscall_enters nr a0 a1 a2 a3 a4 a5 p :
  lookup_reachable (numbers p) ->
  (~ (0 <= nr < 306) ->
    let '(result, p') := do nr a0 a1 a2 a3 a4 a5 p in
    result = -38 /\ memory p' = memory p /\ calls p' = calls p) /\
  (0 <= nr < 306 -> nr <> 79 -> nr <> 80 -> nr <> 220 -> ~ (nr = 128 /\ a1 <> 0 /\ a2 = 0) ->
    exists r, rax r = nr /\ rdi r = a0 /\ rsi r = a1 /\ rdx r = a2 /\
      r10 r = r10 (unnamed [a3; a4; a5]) /\ r8 r = r8 (unnamed [a3; a4; a5]) /\ r9 r = r9 (unnamed [a3; a4; a5]) /\
      let '(result, p') := do nr a0 a1 a2 a3 a4 a5 p in
      result = s32 (answer r (memory p)) /\ memory p' = after r (memory p) /\ calls p' = calls p ++ [r]) /\
  (nr = 79 \/ nr = 80 ->
    exists r, rax r = nr /\ rdi r = a0 /\ rsi r = stack_buf /\ rdx r = a2 /\
      let '(result, p') := do nr a0 a1 a2 a3 a4 a5 p in
      result = s32 (answer r (memory p)) /\ calls p' = calls p ++ [r]) /\
  (nr = 128 -> a1 <> 0 -> a2 = 0 -> x86_sa <> 0 -> (a1 + 32 <= x86_sa \/ x86_sa + 32 <= a1) ->
    exists r m1, rax r = 128 /\ rdi r = a0 /\ rsi r = x86_sa /\ rdx r = 0 /\ r10 r = r10 (unnamed [a3]) /\
      sigaction_passed a1 (memory p) m1 /\
      let '(result, p') := do nr a0 a1 a2 a3 a4 a5 p in
      result = s32 (answer r m1) /\ memory p' = after r m1 /\ calls p' = calls p ++ [r] /\ g_tls_base p' = g_tls_base p) /\
  (nr = 220 ->
    exists r, rax r = 220 /\ (forall i, 0 <= i < 32 -> Z.testbit (rdi r) i = Z.testbit a0 i && negb (i =? 19)) /\
      0 <= rdi r < 2 ^ 32 /\ rsi r = a1 /\ rdx r = a2 /\
      r10 r = r10 (unnamed [if Z.testbit a0 19 then a4 else 0; a3]) /\
      let '(result, p') := do nr a0 a1 a2 a3 a4 a5 p in
      result = s32 (answer r (memory p)) /\
      if (answer r (memory p) =? 0) && Z.testbit a0 19 then
        exists r2, rax r2 = 0x1002 /\ rdi r2 = a4 /\ g_tls_base p' = a4 /\
          fs_base p' = (if arch_prctl a4 then a4 else fs_base p) /\
          memory p' = after r2 (after r (memory p)) /\ calls p' = calls p ++ [r; r2]
      else
        g_tls_base p' = g_tls_base p /\ fs_base p' = fs_base p /\
        memory p' = after r (memory p) /\ calls p' = calls p ++ [r]).
Proof.
  intros Hp. split; [|split; [|split; [|split]]].
  - intros Hn. rewrite do_unknown by assumption. split; [reflexivity|]. split; reflexivity.
  - intros Hn H1 H2 H3 H4. exists (named nr a0 a1 a2 [a3; a4; a5]). do 7 (split; [reflexivity|]).
    rewrite do_known by assumption. cbv zeta.
    replace ((nr =? 80) || (nr =? 79)) with false by lia.
    replace ((nr =? 128) && (c_true a1 && (a2 =? 0))) with false by (unfold c_true; lia).
    replace (nr =? 220) with false by lia.
    exact (standard_eq nr a0 a1 a2 a3 a4 a5 (set_numbers _ p)).
  - intros Hn. exists (named nr a0 stack_buf a2 [a3; a4; a5]). do 4 (split; [reflexivity|]).
    rewrite do_known by (assumption || lia). cbv zeta. replace ((nr =? 80) || (nr =? 79)) with true by lia.
    unfold syscall_stat, syscall. cbn [memory set_numbers]. destruct (kernel _ (memory p)) as [v m].
    split; [reflexivity|]. by destruct (v =? 0).
  - intros -> Ha1 -> Hx Hap.
    destruct (sigaction_eq 128 a0 a1 a3 (set_numbers (snd (translate_syscall_number 128 (numbers p))) p) Ha1 Hx Hap)
      as (m1 & Hm1 & H).
    exists (named 128 a0 x86_sa 0 [a3]), m1. do 5 (split; [reflexivity|]). split; [exact Hm1|].
    rewrite do_known by (assumption || lia). cbv zeta.
    replace ((128 =? 128) && (c_true a1 && (0 =? 0))) with true by (unfold c_true; lia).
    exact H.
  - intros ->. exists (clone_regs 220 a0 a1 a2 a3 a4). split; [reflexivity|].
    split; [intros i Hi; by apply clone_flags_bits|]. split.
    { cbn [rdi clone_regs named]. unfold clone_flags. destruct (Z.testbit a0 19); apply u32_range. }
    do 3 (split; [reflexivity|]). rewrite do_known by (assumption || lia). cbv zeta.
    change ((220 =? 80) || (220 =? 79)) with false. change ((220 =? 128) && (c_true a1 && (a2 =? 0))) with false.
    change (220 =? 220) with true. cbv iota.
    exact (clone_eq 220 a0 a1 a2 a3 a4 (set_numbers _ p)).
Qed.

(** The fields of the kernel's [struct stat] on ARM64. *)
Definition arm64_st_mode := (16, 4).
Definition arm64_st_nlink := (20, 4).
Definition arm64_st_uid := (24, 4).
Definition arm64_st_gid := (28, 4).

(** C33: The calls 79 and 80 pass a buffer of the frame as second argument instead of the
    caller's, the path of newfstatat with it, and after a success the caller's structure
    holds each field of what the kernel wrote, nlink and blksize cut to 32 bits; nothing
    else of memory changes, padding and unused words of the structure included.  The layout
    is the one of x86-64: a guest that reads the structure as its own finds the number of
    links as mode, 0 as number of links, the mode as owner and the owner as group. *)
Theorem fstat_result nr a0 a1 a2 a3 a4 a5 p :
  lookup_reachable (numbers p) -> (nr = 79 \/ nr = 80) -> (a1 + 120 <= stack_buf \/ stack_buf + 120 <= a1) ->
  let r := named nr a0 stack_buf a2 [a3; a4; a5] in
  let mk := after r (memory p) in
  let '(result, p') := do nr a0 a1 a2 a3 a4 a5 p in
  result = s32 (answer r (memory p)) /\ calls p' = calls p ++ [r] /\
  (answer r (memory p) <> 0 -> memory p' = mk) /\
  (answer r (memory p) = 0 ->
    (forall f conv, In (f, conv) stat_fields_back ->
       field f (memory p') a1 = conv (field f mk stack_buf) mod 2 ^ (8 * snd f)) /\
    (forall x, ~ (a1 <= x < a1 + 36 \/ a1 + 40 <= x < a1 + 120) -> memory p' x = mk x) /\
    field arm64_st_mode (memory p') a1 = field xst_nlink mk stack_buf mod 2^32 /\
    field arm64_st_nlink (memory p') a1 = 0 /\
    field arm64_st_uid (memory p') a1 = field xst_mode mk stack_buf mod 2^32 /\
    field arm64_st_gid (memory p') a1 = field xst_uid mk stack_buf mod 2^32).
Proof.
  intros Hp Hn Hap r mk.
  rewrite do_known by (assumption || lia). cbv zeta.
  replace ((nr =? 80) || (nr =? 79)) with true by lia. cbv iota.
  unfold syscall_stat. fold r.
  pose proof (syscall_eq r (set_numbers (snd (translate_syscall_number nr (numbers p))) p)) as (E1 & E2 & E3 & _).
  destruct (syscall kernel r (set_numbers _ p)) as [result p']. cbn [fst snd] in *.
  change (memory (set_numbers (snd (translate_syscall_number nr (numbers p))) p)) with (memory p) in E1, E2.
  change (calls (set_numbers (snd (translate_syscall_number nr (numbers p))) p)) with (calls p) in E3. fold mk in E2.
  split; [by rewrite E1|]. split; [by destruct (result =? 0)|]. split.
  { intros H. rewrite <- E1 in H. by rewrite (proj2 (Z.eqb_neq result 0) H). }
  intros H. rewrite E1, H. change (0 =? 0) with true. cbv iota. cbn [set_memory memory]. rewrite E2.
  assert (Hok : fields_ok 120 (map fst stat_fields_back) = true) by reflexivity.
  pose proof (fun f c k i => copy_fields_part a1 stack_buf 120 stat_fields_back mk f c k i Hok Hap) as Part.
  split; [|split; [|split; [|split; [|split]]]].
  - intros f conv Hf. apply (copy_fields_get _ _ 120); try assumption.
    clear -Hf. cbn in Hf. by decompose [or] Hf; simplify_eq.
  - intros x Hx. apply copy_fields_outside. intros f c Hf.
    cbn in Hf. decompose [or] Hf; simplify_eq; cbn [fst snd xst_dev xst_ino xst_mode xst_nlink xst_uid xst_gid
      xst_rdev xst_size xst_blksize xst_blocks xst_atime xst_atime_nsec xst_mtime xst_mtime_nsec xst_ctime xst_ctime_nsec] in *; lia.
  - pose proof (Part xst_nlink u32 4 0 ltac:(cbn; tauto) ltac:(lia) ltac:(lia) ltac:(cbn; lia)) as E.
    rewrite Z.add_0_r, Z.mul_0_r, Z.shiftr_0_r in E. unfold field at 1. cbn [fst snd arm64_st_mode xst_nlink] in E |- *.
    rewrite E. apply Z.mod_mod. lia.
  - pose proof (Part xst_nlink u32 4 4 ltac:(cbn; tauto) ltac:(lia) ltac:(lia) ltac:(cbn; lia)) as E.
    unfold field at 1. cbn [fst snd arm64_st_nlink xst_nlink] in E |- *. rewrite <- Z.add_assoc in E. change (16 + 4) with 20 in E.
    rewrite E. rewrite Z.shiftr_div_pow2 by lia. rewrite Z.div_small by apply u32_range. reflexivity.
  - pose proof (Part xst_mode same 4 0 ltac:(cbn; tauto) ltac:(lia) ltac:(lia) ltac:(cbn; lia)) as E.
    rewrite Z.add_0_r, Z.mul_0_r, Z.shiftr_0_r in E. exact E.
  - pose proof (Part xst_uid same 4 0 ltac:(cbn; tauto) ltac:(lia) ltac:(lia) ltac:(cbn; lia)) as E.
    rewrite Z.add_0_r, Z.mul_0_r, Z.shiftr_0_r in E. exact E.
Qed.
End Calls.

(** A kernel that answers every call with 0 and writes a structure of ones for fstat, and a
    compiler that leaves R10, R8 and R9 alone. *)
Definition ones_kernel (r : regs) (m : Z -> Z) : Z * (Z -> Z) :=
  (0, if rax r =? 80 then fun x => if (rsi r <=? x) && (x <? rsi r + 144) then 1 else m x else m).
Definition nothing_unnamed (l : list Z) : regs :=
  {| rax := 0; rdi := 0; rsi := 0; rdx := 0; r10 := 7; r8 := 7; r9 := 7 |}.
Definition fresh_process : proc :=
  {| memory := fun _ => 0; g_tls_base := 0; fs_base := 0; numbers := syscall_lookup_start; calls := [] |}.

Lemma do_syscall_enters_witness :
  fst (do_translated_syscall ones_kernel (fun _ => true) nothing_unnamed 0x7000 0x7100 400 1 2 3 4 5 6 fresh_process) = -38 /\
  map rax (calls (snd (do_translated_syscall ones_kernel (fun _ => true) nothing_unnamed 0x7000 0x7100
    220 0x80011 0x8000 0 0 0x9000 0 fresh_process))) = [220; 0x1002] /\
  map rdx (calls (snd (do_translated_syscall ones_kernel (fun _ => true) nothing_unnamed 0x7000 0x7100
    128 10 0x9000 0 8 0 0 fresh_process))) = [0].
Proof.
  destruct (do_syscall_enters ones_kernel (fun _ => true) nothing_unnamed 0x7000 0x7100 400 1 2 3 4 5 6 fresh_process
    lookup_static) as (H1 & _).
  destruct (do_syscall_enters ones_kernel (fun _ => true) nothing_unnamed 0x7000 0x7100 220 0x80011 0x8000 0 0 0x9000 0
    fresh_process lookup_static) as (_ & _ & _ & _ & H3).
  destruct (do_syscall_enters ones_kernel (fun _ => true) nothing_unnamed 0x7000 0x7100 128 10 0x9000 0 8 0 0
    fresh_process lookup_static) as (_ & _ & _ & H4 & _).
  specialize (H1 ltac:(lia)). destruct (H3 eq_refl) as (r & Hr & _ & _ & _ & _ & _ & H3').
  destruct (H4 eq_refl ltac:(lia) eq_refl ltac:(lia) ltac:(lia)) as (q & m1 & _ & _ & _ & Hq & _ & _ & H4').
  destruct (do_translated_syscall _ _ _ _ _ 400 _ _ _ _ _ _ _) as [v p1].
  destruct (do_translated_syscall _ _ _ _ _ 220 _ _ _ _ _ _ _) as [v2 p2].
  destruct (do_translated_syscall _ _ _ _ _ 128 _ _ _ _ _ _ _) as [v3 p3].
  split; [apply H1|]. split.
  - destruct H3' as (_ & r2 & Hr2 & _ & _ & _ & _ & E). cbn [snd]. rewrite E. cbn. by rewrite Hr, Hr2.
  - destruct H4' as (_ & _ & E & _). cbn [snd]. rewrite E. cbn. by rewrite Hq.
Defined.

Lemma fstat_result_witness :
  field arm64_st_mode (memory (snd (do_translated_syscall ones_kernel (fun _ => true) nothing_unnamed 0x7000 0x7100
    80 3 0x9000 0 0 0 0 fresh_process))) 0x9000 = 0x01010101.
Proof.
  pose proof (fstat_result ones_kernel (fun _ => true) nothing_unnamed 0x7000 0x7100 80 3 0x9000 0 0 0 0 fresh_process
    lookup_static ltac:(lia) ltac:(lia)) as H. cbv zeta in H.
  destruct (do_translated_syscall _ _ _ _ _ 80 _ _ _ _ _ _ _) as [v p1]. destruct H as (_ & _ & _ & H).
  destruct (H eq_refl) as (_ & _ & E & _). cbn [snd]. rewrite E. reflexivity.
Defined.
