(* ===== verification/Signals.v ===== *)
(** * Signals: [modules/arm2x86_syscall.c] and [modules/arm2x86_signal.c]

    The flags kept for the guest, the translation of a signal context, the handler that
    translates on demand, the table of handlers a guest registers, and the five handlers
    the bridge installs, with the lists of user handlers.  A handler is a number, the
    address of a function; calling one is an event.  The kernel's part is the disposition
    of each signal. *)
From S2P Require Import Core Prelude Elf X86 Emit Regs Decode64 RegAlloc Neon Translate64 Handlers64 Block64.
From Stdlib Require Import ZArith Lia ZifyBool Bool.
From stdpp Require Import base numbers list.
Open Scope Z_scope.
Open Scope c_scope.

(** ** Flags of the guest *)

Definition NZCV_N := 1 <<< 31.
Definition NZCV_Z := 1 <<< 30.
Definition NZCV_C := 1 <<< 29.
Definition NZCV_V := 1 <<< 28.

(** The functions return the new [g_nzcv_state]. *)
Definition arm2x86_update_nzcv_from_x86 (result size_bits : Z) : Z :=
  let nzcv := 0 in
  if size_bits =? 64 then
    let sr := s64 result in
    let nzcv := if sr <? 0 then nzcv ||| NZCV_N else nzcv in
    if result =? 0 then nzcv ||| NZCV_Z else nzcv
  else
    let sr := s32 result in
    let nzcv := if sr <? 0 then nzcv ||| NZCV_N else nzcv in
    if result &&& 0xffffffff =? 0 then nzcv ||| NZCV_Z else nzcv.
Definition arm2x86_set_carry (c : bool) (g_nzcv_state : Z) : Z :=
  if c then g_nzcv_state ||| NZCV_C else u32 (g_nzcv_state &&& Z.lnot NZCV_C).

Definition FPSR_IOC := 1 <<< 0.
Definition FPSR_DZC := 1 <<< 1.
Definition FPSR_OFC := 1 <<< 2.
Definition FPSR_UFC := 1 <<< 3.
Definition FPSR_IXC := 1 <<< 4.

(** [if (x & bit) acc |= flag;] *)
Definition flag_if (x bit flag acc : Z) : Z := if c_true (x &&& bit) then acc ||| flag else acc.

(** The new [g_fpsr_state]. *)
Definition arm2x86_update_fpsr_from_sse (mxcsr : Z) : Z :=
  let f := flag_if mxcsr 0x01 FPSR_IXC 0 in
  let f := flag_if mxcsr 0x02 FPSR_DZC f in
  let f := flag_if mxcsr 0x04 FPSR_UFC f in
  let f := flag_if mxcsr 0x08 FPSR_OFC f in
  flag_if mxcsr 0x10 FPSR_IOC f.

(** ** The signal context *)

(** Indices into [gregs] (sys/ucontext.h). *)
Definition REG_R8 : nat := 0.
Definition REG_R9 : nat := 1.
Definition REG_R10 : nat := 2.
Definition REG_R11 : nat := 3.
Definition REG_R12 : nat := 4.
Definition REG_R13 : nat := 5.
Definition REG_R14 : nat := 6.
Definition REG_R15 : nat := 7.
Definition REG_RDI : nat := 8.
Definition REG_RSI : nat := 9.
Definition REG_RBP : nat := 10.
Definition REG_RBX : nat := 11.
Definition REG_RDX : nat := 12.
Definition REG_RAX : nat := 13.
Definition REG_RCX : nat := 14.
Definition REG_RSP : nat := 15.
Definition REG_RIP : nat := 16.
Definition REG_EFL : nat := 17.
Definition REG_CSGSFS : nat := 18.

(** The part of [struct _fpstate] that is written, and the context. *)
Record fpstate := { fp_xmm : list (list Z); fp_mxcsr : Z }.
Record ucontext := { gregs : list Z; fpregs : option fpstate }.

Definition greg (uc : ucontext) (i : nat) : Z := nth i (gregs uc) 0.
Definition set_greg (i : nat) (v : Z) (uc : ucontext) : ucontext :=
  {| gregs := <[i := v]> (gregs uc); fpregs := fpregs uc |}.
Definition set_gregs (l : list (nat * Z)) (uc : ucontext) : ucontext :=
  fold_left (fun uc iv => set_greg (fst iv) (snd iv) uc) l uc.

(** [arm64_sigcontext_base] and the [arm64_fpsimd_context] behind it. *)
Definition arm_reg (m : Z -> Z) (a i : Z) : Z := ld 8 m (a + 8 * i).
Definition arm_sp (m : Z -> Z) (a : Z) : Z := ld 8 m (a + 248).
Definition arm_pc (m : Z -> Z) (a : Z) : Z := ld 8 m (a + 256).
Definition arm_pstate (m : Z -> Z) (a : Z) : Z := ld 8 m (a + 264).
Definition arm_vreg (m : Z -> Z) (a i : Z) : list Z := map (fun k => m (a + 272 + 16 * i + k)) (seqZ 0 16).
Definition arm_fpsr (m : Z -> Z) (a : Z) : Z := ld 4 m (a + 784).
Definition arm_fpcr (m : Z -> Z) (a : Z) : Z := ld 4 m (a + 788).

Definition eflags_of_pstate (pstate : Z) : Z :=
  let e := flag_if pstate (1 <<< 31) (1 <<< 7) 0 in
  let e := flag_if pstate (1 <<< 30) (1 <<< 6) e in
  let e := flag_if pstate (1 <<< 29) (1 <<< 0) e in
  let e := flag_if pstate (1 <<< 28) (1 <<< 11) e in
  e ||| (1 <<< 9) ||| (1 <<< 1).

Definition mxcsr_of_fpsr (fpsr : Z) : Z :=
  let x := flag_if fpsr 0x01 (1 <<< 0) 0x1F80 in
  let x := flag_if fpsr 0x02 (1 <<< 2) x in
  let x := flag_if fpsr 0x04 (1 <<< 3) x in
  let x := flag_if fpsr 0x08 (1 <<< 4) x in
  flag_if fpsr 0x10 (1 <<< 5) x.
Definition x86_rmode (arm_rmode : Z) : Z :=
  if arm_rmode =? 0 then 0 else if arm_rmode =? 1 then 2 else if arm_rmode =? 2 then 1 else if arm_rmode =? 3 then 3 else 0.
Definition mxcsr_of (fpsr fpcr : Z) : Z :=
  (mxcsr_of_fpsr fpsr &&& Z.lnot (3 <<< 13)) ||| (x86_rmode ((fpcr >>> 22) &&& 0x3) <<< 13).

(** The assignments in the order of the source: R14 is assigned twice. *)
Definition context_assignments (m : Z -> Z) (a : Z) : list (nat * Z) :=
  [ (REG_RAX, arm_reg m a 0); (REG_RDI, arm_reg m a 1); (REG_RSI, arm_reg m a 2); (REG_RDX, arm_reg m a 3);
    (REG_RCX, arm_reg m a 4); (REG_R8, arm_reg m a 5); (REG_R9, arm_reg m a 6); (REG_R10, arm_reg m a 7);
    (REG_R11, arm_reg m a 8); (REG_R12, arm_reg m a 9); (REG_R13, arm_reg m a 10); (REG_R14, arm_reg m a 11);
    (REG_R15, arm_reg m a 12); (REG_RBX, arm_reg m a 13); (REG_RBP, arm_reg m a 14); (REG_R14, arm_reg m a 30);
    (REG_RSP, arm_sp m a &&& Z.lnot 0xF); (REG_RIP, arm_pc m a); (REG_EFL, eflags_of_pstate (arm_pstate m a));
    (REG_CSGSFS, 0x33) ].

Definition translate_ucontext_arm64_to_x86 (m : Z -> Z) (arm_ctx : Z) (x86_ctx : option ucontext) : option ucontext :=
  uc ← x86_ctx;
  if arm_ctx =? 0 then
    Some (set_gregs [ (REG_RSP, greg uc REG_RSP &&& Z.lnot 0xF); (REG_EFL, greg uc REG_EFL &&& Z.lnot (1 <<< 10)) ] uc)
  else
    let uc := set_gregs (context_assignments m arm_ctx) uc in
    Some {| gregs := gregs uc;
            fpregs := match fpregs uc with
                      | Some fp => Some {| fp_xmm := map (fun i => arm_vreg m arm_ctx i) (seqZ 0 16) ++ drop 16 (fp_xmm fp);
                                           fp_mxcsr := mxcsr_of (arm_fpsr m arm_ctx) (arm_fpcr m arm_ctx) |}
                      | None => None
                      end |}.

(** The two functions of [arm2x86_signal.c] copy the 23 registers as they are. *)
Definition translate_ucontext_enhanced (from to : option ucontext) : option ucontext :=
  match from, to with
  | Some f, Some t => Some (fold_left (fun t i => set_greg i (greg f i) t) (seq 0 23) t)
  | _, _ => to
  end.

(** ** Translation on demand *)

(** What the handler of SIGSEGV ends with: a translation of this length was written behind
    the 4096 bytes of [x86_buffer], execution resumes in new memory holding the code, or the
    signal is raised again with the default action. *)
Inductive segv_outcome :=
  | SmashedStack (n : Z)
  | Resumed (uc : ucontext) (exec_mem : Z) (code : list Z)
  | Reraised.

(** A module: the address and the size of its memory. *)
Definition sigsegv_handler `{host : Host} (g_simd_enabled : Z) (uninitialized : Z -> DecodedInstruction) (modules : list (Z * Z))
    (mem : Z -> Z) (home_allocated : bool) (mmap : Z -> option Z) (uc : ucontext) : segv_outcome :=
  let rip := greg uc REG_RIP in
  match List.find (fun md => (fst md <=? rip) && (rip <? fst md + snd md)) modules with
  | None => Reraised
  | Some _ =>
    let '(rc, out) := arm2x86_convert_block g_simd_enabled uninitialized (Some tt) mem rip 64 true true None home_allocated in
    match out with
    | None => Reraised
    | Some (code, x86_size) =>
      if 4096 <? x86_size then SmashedStack x86_size
      else if (rc =? ARM2X86_OK) && (0 <? x86_size) then
        match mmap x86_size with
        | Some exec_mem =>
          match translate_ucontext_arm64_to_x86 mem 0 (Some (set_greg REG_RIP exec_mem uc)) with
          | Some uc => Resumed uc exec_mem code
          | None => Reraised
          end
        | None => Reraised
        end
      else Reraised
    end
  end.

(** ** Handlers and dispositions *)

(** What the kernel does with a signal: the handler's address, and its flags. *)
Record action := { sa_handler : Z; sa_flags : Z }.
Definition SIG_DFL := 0.
Definition SIG_IGN := 1.
Definition zero_action : action := {| sa_handler := 0; sa_flags := 0 |}.

(** Functions that run and what comes after them. *)
Inductive sig_event := CallHandler (h signum : Z) | ExitProcess (status : Z) | DefaultAction | NoAction.

Definition set_action (signum : Z) (a : action) (actions : Z -> action) : Z -> action :=
  fun n => if n =? signum then a else actions n.

(** *** The handlers of the guest ([arm2x86_syscall.c]) *)

Record guest_handler := { gh_handler : Z; gh_signum : Z; gh_flags : Z; gh_old_action : action }.
Definition no_handler : guest_handler := {| gh_handler := 0; gh_signum := 0; gh_flags := 0; gh_old_action := zero_action |}.
Record guest_signals := { g_signal_handlers : list guest_handler; gs_actions : Z -> action }.
Definition guest_signals_start (actions : Z -> action) : guest_signals :=
  {| g_signal_handlers := replicate 64 no_handler; gs_actions := actions |}.

Section Guest.
(** Whether [sigaction] accepts a number, and the address of [signal_wrapper]. *)
Variable sigaction_ok : Z -> bool.
Variable wrapper : Z.

Definition guest_handler_of (s : guest_signals) (signum : Z) : guest_handler :=
  nth (Z.to_nat signum) (g_signal_handlers s) no_handler.

Definition signal_wrapper (signum : Z) (s : guest_signals) : list sig_event :=
  if (0 <=? signum) && (signum <? 64) && c_true (gh_handler (guest_handler_of s signum))
  then [CallHandler (gh_handler (guest_handler_of s signum)) signum] else [].

Definition NativeBridgeRegisterSignalHandler (signum handler flags : Z) (s : guest_signals) : guest_signals :=
  if (signum <? 0) || (64 <=? signum) then s
  else
    let ok := sigaction_ok signum in
    {| g_signal_handlers := <[Z.to_nat signum :=
         {| gh_handler := handler; gh_signum := signum; gh_flags := flags;
            gh_old_action := if ok then gs_actions s signum else gh_old_action (guest_handler_of s signum) |}]>
         (g_signal_handlers s);
       gs_actions := if ok then set_action signum {| sa_handler := wrapper; sa_flags := flags |} (gs_actions s)
                     else gs_actions s |}.

Definition NativeBridgeUnregisterSignalHandler (signum : Z) (s : guest_signals) : guest_signals :=
  if (signum <? 0) || (64 <=? signum) then s
  else
    let old := gh_old_action (guest_handler_of s signum) in
    {| g_signal_handlers := <[Z.to_nat signum := no_handler]> (g_signal_handlers s);
       gs_actions := if c_true (sa_handler old) && sigaction_ok signum then set_action signum old (gs_actions s)
                     else gs_actions s |}.

(** The kernel delivers a signal. *)
Definition deliver (signum : Z) (s : guest_signals) : list sig_event :=
  let h := sa_handler (gs_actions s signum) in
  if h =? SIG_DFL then [DefaultAction]
  else if h =? SIG_IGN then [NoAction]
  else if h =? wrapper then signal_wrapper signum s
  else [CallHandler h signum].
End Guest.

(** *** The handlers of the bridge ([arm2x86_signal.c]) *)

Definition SIGNAL_SEGV : nat := 0.
Definition SIGNAL_MAX_TYPE : nat := 5.
(** SIGSEGV, SIGILL, SIGBUS, SIGTRAP, SIGFPE. *)
Definition signal_numbers : list Z := [11; 4; 7; 5; 8].

(** The lists of user handlers, newest first. *)
Record bridge_signals := {
  g_user_handlers : list (list Z); g_original_handlers : list action; g_signal_initialized : bool;
  bs_actions : Z -> action }.
Definition bridge_signals_start (actions : Z -> action) : bridge_signals :=
  {| g_user_handlers := replicate SIGNAL_MAX_TYPE []; g_original_handlers := replicate SIGNAL_MAX_TYPE zero_action;
     g_signal_initialized := false; bs_actions := actions |}.

Section Bridge.
Variable sigaction_ok : Z -> bool.
(** The addresses of the five internal handlers; the flags SA_SIGINFO | SA_ONSTACK. *)
Variable internal_handlers : nat -> Z.
Definition bridge_flags := 4 ||| 0x08000000.

Definition signal_number (i : nat) : Z := nth i signal_numbers 0.
Definition user_handlers (s : bridge_signals) (i : nat) : list Z := nth i (g_user_handlers s) [].
Definition original_handler (s : bridge_signals) (i : nat) : action := nth i (g_original_handlers s) zero_action.

Definition install_one (s : bridge_signals) (i : nat) : bridge_signals :=
  if sigaction_ok (signal_number i) then
    {| g_user_handlers := g_user_handlers s;
       g_original_handlers := <[i := bs_actions s (signal_number i)]> (g_original_handlers s);
       g_signal_initialized := g_signal_initialized s;
       bs_actions := set_action (signal_number i) {| sa_handler := internal_handlers i; sa_flags := bridge_flags |}
                       (bs_actions s) |}
  else s.
Definition set_initialized (b : bool) (s : bridge_signals) : bridge_signals :=
  {| g_user_handlers := g_user_handlers s; g_original_handlers := g_original_handlers s; g_signal_initialized := b;
     bs_actions := bs_actions s |}.

Definition signal_handler_init (s : bridge_signals) : bridge_signals :=
  if g_signal_initialized s then s
  else set_initialized true (fold_left install_one (seq 0 SIGNAL_MAX_TYPE) s).

Definition restore_one (s : bridge_signals) (i : nat) : bridge_signals :=
  {| g_user_handlers := <[i := []]> (g_user_handlers s); g_original_handlers := g_original_handlers s;
     g_signal_initialized := g_signal_initialized s;
     bs_actions := if sigaction_ok (signal_number i) then set_action (signal_number i) (original_handler s i) (bs_actions s)
                   else bs_actions s |}.
Definition signal_handler_fini (s : bridge_signals) : bridge_signals :=
  if g_signal_initialized s
  then set_initialized false (fold_left restore_one (seq 0 SIGNAL_MAX_TYPE) s)
  else s.

Definition set_users (i : nat) (l : list Z) (s : bridge_signals) : bridge_signals :=
  {| g_user_handlers := <[i := l]> (g_user_handlers s); g_original_handlers := g_original_handlers s;
     g_signal_initialized := g_signal_initialized s; bs_actions := bs_actions s |}.

Definition signal_register_user_handler (calloc_ok : bool) (signal_type handler : Z) (s : bridge_signals) : Z * bridge_signals :=
  if (signal_type <? 0) || (Z.of_nat SIGNAL_MAX_TYPE <=? signal_type) then (-1, s)
  else if handler =? 0 then (-1, s)
  else if negb calloc_ok then (-1, s)
  else (0, set_users (Z.to_nat signal_type) (handler :: user_handlers s (Z.to_nat signal_type)) s).

(** The loop over the pointers to nodes: the first node with the handler is taken out. *)
Fixpoint remove_first (handler : Z) (l : list Z) : list Z :=
  match l with [] => [] | h :: l => if h =? handler then l else h :: remove_first handler l end.
Definition signal_unregister_user_handler (signal_type handler : Z) (s : bridge_signals) : bridge_signals :=
  if (signal_type <? 0) || (Z.of_nat SIGNAL_MAX_TYPE <=? signal_type) then s
  else set_users (Z.to_nat signal_type) (remove_first handler (user_handlers s (Z.to_nat signal_type))) s.

(** [sa_sigaction] is [sa_handler] under another name: an ignored signal has the address 1. *)
Definition chain_original (s : bridge_signals) (i : nat) : list sig_event :=
  if c_true (sa_handler (original_handler s i)) then [CallHandler (sa_handler (original_handler s i)) (signal_number i)]
  else [ExitProcess (128 + signal_number i)].

(** The handlers of SIGILL, SIGBUS, SIGTRAP and SIGFPE. *)
Definition plain_handler (i : nat) (s : bridge_signals) : list sig_event :=
  map (fun h => CallHandler h (signal_number i)) (user_handlers s i) ++ chain_original s i.
Definition DBT_CODE_CACHE_SIZE := 64 * 1024 * 1024.
Definition segv_handler (g_dbt_code_cache rip : Z) (s : bridge_signals) : list sig_event :=
  let in_code_cache := negb (g_dbt_code_cache =? 0) && (g_dbt_code_cache <=? rip) &&
                       (rip <? g_dbt_code_cache + DBT_CODE_CACHE_SIZE) in
  if in_code_cache then
    map (fun h => CallHandler h (signal_number SIGNAL_SEGV)) (List.filter c_true (user_handlers s SIGNAL_SEGV))
    ++ chain_original s SIGNAL_SEGV
  else chain_original s SIGNAL_SEGV.

(** A session: what the program does with the module. *)
Inductive bridge_op := OpInit | OpFini | OpRegister (signal_type handler : Z) (calloc_ok : bool) | OpUnregister (signal_type handler : Z).
Definition bridge_step (s : bridge_signals) (o : bridge_op) : bridge_signals :=
  match o with
  | OpInit => signal_handler_init s
  | OpFini => signal_handler_fini s
  | OpRegister t h ok => snd (signal_register_user_handler ok t h s)
  | OpUnregister t h => signal_unregister_user_handler t h s
  end.
Definition bridge_run (s : bridge_signals) (l : list bridge_op) : bridge_signals := fold_left bridge_step l s.
End Bridge.

(** ** The signal context *)

Lemma c_true_land_shift x k : 0 <= k -> c_true (x &&& (1 <<< k)) = Z.testbit x k.
Proof.
  intros Hk. rewrite Z.shiftl_1_l. unfold c_true. apply eq_true_iff_eq. rewrite negb_true_iff, Z.eqb_neq. split.
  - intros H. destruct (Z.testbit x k) eqn:E; [done|]. exfalso. apply H. apply Z.bits_inj'. intros i Hi.
    rewrite Z.land_spec, Z.pow2_bits_eqb, Z.bits_0 by done. destruct (Z.eqb_spec k i) as [<-|]; [by rewrite E|apply andb_false_r].
  - intros E H. apply (f_equal (fun v => Z.testbit v k)) in H.
    rewrite Z.land_spec, Z.pow2_bits_true, E, Z.bits_0 in H by done. discriminate.
Qed.

Lemma flag_if_spec x k j acc i : 0 <= k -> 0 <= j -> 0 <= i ->
  Z.testbit (flag_if x (1 <<< k) (1 <<< j) acc) i = Z.testbit acc i || (Z.testbit x k && (i =? j)).
Proof.
  intros Hk Hj Hi. unfold flag_if. rewrite c_true_land_shift by done.
  destruct (Z.testbit x k); cbn [andb]; [|by rewrite orb_false_r].
  rewrite Z.lor_spec, Z.shiftl_1_l, Z.pow2_bits_eqb, (Z.eqb_sym j i) by done. done.
Qed.

Lemma flag_bit x bit k j acc i : bit = 1 <<< k -> 0 <= k -> 0 <= j -> 0 <= i ->
  Z.testbit (flag_if x bit (1 <<< j) acc) i = Z.testbit acc i || (Z.testbit x k && (i =? j)).
Proof. intros ->. apply flag_if_spec. Qed.

Lemma bit_spec j i : 0 <= j -> 0 <= i -> Z.testbit (1 <<< j) i = (i =? j).
Proof. intros Hj Hi. rewrite Z.shiftl_1_l, Z.pow2_bits_eqb, (Z.eqb_sym j i) by done. done. Qed.

(** The arithmetic flags of EFLAGS, the interrupt flag and the bit that is always set. *)
Lemma eflags_bits pstate i : 0 <= i ->
  Z.testbit (eflags_of_pstate pstate) i =
  (Z.testbit pstate 31 && (i =? 7)) || (Z.testbit pstate 30 && (i =? 6)) || (Z.testbit pstate 29 && (i =? 0))
  || (Z.testbit pstate 28 && (i =? 11)) || (i =? 9) || (i =? 1).
Proof.
  intros Hi. unfold eflags_of_pstate. cbv zeta. rewrite !Z.lor_spec, !bit_spec, !flag_if_spec, Z.bits_0 by lia. done.
Qed.

(** The exception flags of MXCSR (IE, ZE, OE, UE, PE) are those of FPSR. *)
Lemma mxcsr_flags fpsr fpcr i : 0 <= i < 6 ->
  Z.testbit (mxcsr_of fpsr fpcr) i =
  (Z.testbit fpsr 0 && (i =? 0)) || (Z.testbit fpsr 1 && (i =? 2)) || (Z.testbit fpsr 2 && (i =? 3))
  || (Z.testbit fpsr 3 && (i =? 4)) || (Z.testbit fpsr 4 && (i =? 5)).
Proof.
  intros Hi. unfold mxcsr_of. rewrite Z.lor_spec, Z.land_spec, Z.lnot_spec, !Z.shiftl_spec by lia.
  rewrite !(Z.testbit_neg_r _ (i - 13)) by lia. cbn [negb]. rewrite andb_true_r, orb_false_r.
  unfold mxcsr_of_fpsr. cbv zeta.
  assert (E : Z.testbit 0x1F80 i = false).
  { apply negb_true_iff. apply (all_below_spec 6 (fun i => negb (Z.testbit 0x1F80 i))); [reflexivity|lia]. }
  rewrite (flag_bit _ 0x10 4 5), (flag_bit _ 0x08 3 4), (flag_bit _ 0x04 2 3), (flag_bit _ 0x02 1 2), (flag_bit _ 0x01 0 0)
    by (lia || reflexivity). rewrite E. done.
Qed.

(** The rounding field: nearest and towards zero are the same, the other two exchanged. *)
Lemma mxcsr_rounding fpsr fpcr :
  (mxcsr_of fpsr fpcr >>> 13) &&& 3 = nth (Z.to_nat ((fpcr >>> 22) &&& 3)) [0; 2; 1; 3] 0.
Proof.
  unfold mxcsr_of. rewrite Z.shiftr_lor, Z.land_lor_distr_l, Z.shiftr_land, Z.shiftr_shiftl_l by lia.
  change (3 <<< 13) with 24576. rewrite <- Z.land_assoc. change ((Z.lnot 24576 >>> 13) &&& 3) with 0.
  rewrite Z.land_0_r, Z.lor_0_l. rewrite Z.sub_diag, Z.shiftl_0_r.
  assert (H : 0 <= (fpcr >>> 22) &&& 3 < 4) by (change 3 with (Z.ones 2); rewrite Z.land_ones by lia; apply Z.mod_pos_bound; lia).
  set (r := (fpcr >>> 22) &&& 3) in *.
  assert (r = 0 \/ r = 1 \/ r = 2 \/ r = 3) as [E|[E|[E|E]]] by lia; rewrite E; reflexivity.
Qed.

(** What comes of the exception flags by way of MXCSR. *)
Lemma fpsr_from_sse_bits x i : 0 <= i ->
  Z.testbit (arm2x86_update_fpsr_from_sse x) i =
  (Z.testbit x 0 && (i =? 4)) || (Z.testbit x 1 && (i =? 1)) || (Z.testbit x 2 && (i =? 3))
  || (Z.testbit x 3 && (i =? 2)) || (Z.testbit x 4 && (i =? 0)).
Proof.
  intros Hi. unfold arm2x86_update_fpsr_from_sse, FPSR_IXC, FPSR_DZC, FPSR_UFC, FPSR_OFC, FPSR_IOC. cbv zeta.
  rewrite (flag_bit _ 0x10 4 0), (flag_bit _ 0x08 3 2), (flag_bit _ 0x04 2 3), (flag_bit _ 0x02 1 1), (flag_bit _ 0x01 0 4),
    Z.bits_0 by (lia || reflexivity). done.
Qed.

(** The FPSR made of the MXCSR of a FPSR: inexact is lost; invalid becomes inexact,
    division by zero underflow and underflow invalid; overflow stays. *)
Lemma fpsr_through_mxcsr fpsr fpcr i : 0 <= i ->
  Z.testbit (arm2x86_update_fpsr_from_sse (mxcsr_of fpsr fpcr)) i =
  (Z.testbit fpsr 0 && (i =? 4)) || (Z.testbit fpsr 1 && (i =? 3)) || (Z.testbit fpsr 2 && (i =? 2))
  || (Z.testbit fpsr 3 && (i =? 0)).
Proof.
  intros Hi. rewrite fpsr_from_sse_bits by done. rewrite !mxcsr_flags by lia. cbn [Z.eqb Pos.eqb].
  rewrite ?andb_false_r, ?andb_true_r, ?orb_false_r, ?orb_false_l, ?andb_false_l, ?orb_false_l, ?orb_false_r. done.
Qed.

Lemma set_gregs_fpregs l uc : fpregs (set_gregs l uc) = fpregs uc.
Proof. revert uc. induction l as [|[i v] l IH]; intros uc; [done|]. exact (IH _). Qed.
Lemma length_set_gregs l uc : length (gregs (set_gregs l uc)) = length (gregs uc).
Proof.
  revert uc. induction l as [|[i v] l IH]; intros uc; [done|]. unfold set_gregs in *. cbn [fold_left].
  rewrite IH. apply length_insert.
Qed.

(** The last assignment to a register counts. *)
Fixpoint last_assigned (j : nat) (l : list (nat * Z)) (v : Z) : Z :=
  match l with [] => v | (i, w) :: l => last_assigned j l (if Nat.eqb i j then w else v) end.
Lemma greg_set_gregs l uc j : (j < length (gregs uc))%nat -> greg (set_gregs l uc) j = last_assigned j l (greg uc j).
Proof.
  revert uc. induction l as [|[i v] l IH]; intros uc Hj; [done|]. unfold set_gregs in *. cbn [fold_left last_assigned fst snd].
  rewrite IH by (cbn [gregs set_greg]; by rewrite length_insert). f_equal. unfold greg, set_greg. cbn [gregs].
  destruct (Nat.eqb_spec i j) as [->|H].
  - apply nth_lookup_Some. by apply list_lookup_insert_eq.
  - rewrite !nth_lookup. by rewrite list_lookup_insert_ne.
Qed.

(** The registers that are translated, with the guest register each one gets. *)
Definition context_map : list (nat * Z) :=
  [ (REG_RAX, 0); (REG_RDI, 1); (REG_RSI, 2); (REG_RDX, 3); (REG_RCX, 4); (REG_R8, 5); (REG_R9, 6); (REG_R10, 7);
    (REG_R11, 8); (REG_R12, 9); (REG_R13, 10); (REG_R15, 12); (REG_RBX, 13); (REG_RBP, 14); (REG_R14, 30) ].

Lemma land_lnot_15 v : (v &&& Z.lnot 0xF) mod 16 = 0 /\ v - 16 < (v &&& Z.lnot 0xF) <= v.
Proof.
  assert (E : (v &&& Z.lnot 0xF) = 16 * (v / 16)).
  { rewrite <- Z.ldiff_land. change 0xF with (Z.ones 4). rewrite Z.ldiff_ones_r, Z.shiftr_div_pow2, Z.shiftl_mul_pow2 by lia.
    apply Z.mul_comm. }
  rewrite E. split; [rewrite Z.mul_comm; apply Z.mod_mul; lia|]. pose proof (Z.div_mod v 16). pose proof (Z.mod_pos_bound v 16). lia.
Qed.

Lemma set_gregs_ext l l' uc :
  (forall j v, last_assigned j l v = last_assigned j l' v) -> set_gregs l uc = set_gregs l' uc.
Proof.
  intros H. pose proof (set_gregs_fpregs l uc) as F. pose proof (set_gregs_fpregs l' uc) as F'.
  pose proof (length_set_gregs l uc) as L. pose proof (length_set_gregs l' uc) as L'.
  assert (G : gregs (set_gregs l uc) = gregs (set_gregs l' uc)).
  { apply (nth_ext _ _ 0 0); [congruence|]. intros j Hj. rewrite L in Hj.
    pose proof (greg_set_gregs l uc j Hj) as E. pose proof (greg_set_gregs l' uc j Hj) as E'.
    unfold greg in *. congruence. }
  destruct (set_gregs l uc), (set_gregs l' uc). cbn in *. congruence.
Qed.

(** Every place the translation reads lies outside the registers X11, X15 to X29 and V16 to V31. *)
Lemma context_unread m m' a uc :
  (forall x, (a <= x < a + 88 \/ a + 96 <= x < a + 120 \/ a + 240 <= x < a + 528 \/ a + 784 <= x < a + 792) ->
     m x = m' x) ->
  translate_ucontext_arm64_to_x86 m a (Some uc) = translate_ucontext_arm64_to_x86 m' a (Some uc).
Proof.
  intros H. unfold translate_ucontext_arm64_to_x86, mbind, option_bind. destruct (a =? 0); [done|]. cbv zeta.
  assert (R : forall i, (0 <= i <= 10 \/ 12 <= i <= 14 \/ i = 30) -> arm_reg m a i = arm_reg m' a i).
  { intros i Hi. apply ld_ext. intros x Hx. apply H. lia. }
  assert (Hs : set_gregs (context_assignments m a) uc = set_gregs (context_assignments m' a) uc).
  { apply set_gregs_ext. intros j v. unfold context_assignments, arm_sp, arm_pc, arm_pstate.
    rewrite (ld_ext 8 m m' (a + 248)), (ld_ext 8 m m' (a + 256)), (ld_ext 8 m m' (a + 264)) by (intros x Hx; apply H; lia).
    rewrite (R 0), (R 1), (R 2), (R 3), (R 4), (R 5), (R 6), (R 7), (R 8), (R 9), (R 10), (R 12), (R 13), (R 14), (R 30) by lia.
    cbn [last_assigned]. destruct (Nat.eqb_spec REG_R14 j) as [<-|]; reflexivity. }
  rewrite Hs. f_equal. destruct (fpregs _) as [fp|]; [|done]. f_equal.
  assert (V : map (fun i => arm_vreg m a i) (seqZ 0 16) = map (fun i => arm_vreg m' a i) (seqZ 0 16)).
  { apply map_ext_in. intros i Hi%list_elem_of_In%elem_of_seqZ. unfold arm_vreg. apply map_ext_in.
    intros k Hk%list_elem_of_In%elem_of_seqZ. apply H. lia. }
  rewrite V. unfold arm_fpsr, arm_fpcr.
  by rewrite (ld_ext 4 m m' (a + 784)), (ld_ext 4 m m' (a + 788)) by (intros x Hx; apply H; lia).
Qed.

(** A byte of an XMM register is the byte of the V register. *)
Lemma xmm_of_vreg m a rest i k : (i < 16)%nat -> (k < 16)%nat ->
  nth k (nth i (map (fun i => arm_vreg m a i) (seqZ 0 16) ++ rest) []) 0 = m (a + 272 + 16 * Z.of_nat i + Z.of_nat k).
Proof.
  intros Hi Hk. rewrite app_nth1 by (rewrite length_map, length_seqZ; lia).
  rewrite (nth_indep _ [] (arm_vreg m a 0)) by (rewrite length_map, length_seqZ; lia).
  rewrite (map_nth (fun i => arm_vreg m a i)).
  assert (N : forall j, (j < 16)%nat -> nth j (seqZ 0 16) 0 = Z.of_nat j).
  { intros j Hj. rewrite nth_lookup, (lookup_seqZ_lt 0 16 j) by lia. cbn. lia. }
  rewrite N by done. unfold arm_vreg. set (g := fun k0 => m _).
  rewrite (nth_indep _ 0 (g 0)) by (rewrite length_map, length_seqZ; lia).
  rewrite (map_nth g). by rewrite N.
Qed.

(** C36: What the translation of a signal context keeps.  X0 to X10, X12 to X14 and X30
    arrive in a register of their own; RSP is SP rounded down to 16, RIP is PC, the four
    flags of PSTATE are SF, ZF, CF and OF, with IF set, and the code segment is that of user
    code.  If the context has a place for the floating-point state, V0 to V15 arrive byte
    for byte in XMM0 to XMM15, the exception flags of FPSR are those of MXCSR, and the
    rounding modes correspond.  X11, X15 to X29 and V16 to V31 are lost: whatever they hold, the
    translation is the same (R14 gets X11 first and X30 afterwards; RBP, where the code says
    X29 has been put already, gets X14).  The way
    back from MXCSR to FPSR is another one: inexact is lost, invalid operation becomes inexact,
    division by zero underflow, and underflow invalid operation. *)
Theorem signal_context m a uc uc' :
  a <> 0 -> (length (gregs uc) = 23)%nat ->
  translate_ucontext_arm64_to_x86 m a (Some uc) = Some uc' ->
  (length (gregs uc') = 23)%nat /\
  Forall (fun ri => greg uc' (fst ri) = ld 8 m (a + 8 * snd ri)) context_map /\
  (greg uc' REG_RSP mod 16 = 0 /\ arm_sp m a - 16 < greg uc' REG_RSP <= arm_sp m a) /\
  greg uc' REG_RIP = arm_pc m a /\
  (forall i, 0 <= i -> Z.testbit (greg uc' REG_EFL) i =
    (Z.testbit (arm_pstate m a) 31 && (i =? 7)) || (Z.testbit (arm_pstate m a) 30 && (i =? 6))
    || (Z.testbit (arm_pstate m a) 29 && (i =? 0)) || (Z.testbit (arm_pstate m a) 28 && (i =? 11)) || (i =? 9) || (i =? 1)) /\
  greg uc' REG_CSGSFS = 0x33 /\ (forall j, (19 <= j < 23)%nat -> greg uc' j = greg uc j) /\
  (forall i v, i = 11 \/ 15 <= i <= 29 ->
    translate_ucontext_arm64_to_x86 (st 8 (a + 8 * i) v m) a (Some uc) = Some uc') /\
  (forall i v, 16 <= i < 32 ->
    translate_ucontext_arm64_to_x86 (st 16 (a + 272 + 16 * i) v m) a (Some uc) = Some uc') /\
  (fpregs uc' = None <-> fpregs uc = None) /\
  (forall fp, fpregs uc' = Some fp ->
    (forall i k, (i < 16)%nat -> (k < 16)%nat ->
      nth k (nth i (fp_xmm fp) []) 0 = m (a + 272 + 16 * Z.of_nat i + Z.of_nat k)) /\
    (forall i, 0 <= i < 6 -> Z.testbit (fp_mxcsr fp) i =
      (Z.testbit (arm_fpsr m a) 0 && (i =? 0)) || (Z.testbit (arm_fpsr m a) 1 && (i =? 2))
      || (Z.testbit (arm_fpsr m a) 2 && (i =? 3)) || (Z.testbit (arm_fpsr m a) 3 && (i =? 4))
      || (Z.testbit (arm_fpsr m a) 4 && (i =? 5))) /\
    (fp_mxcsr fp >>> 13) &&& 3 = nth (Z.to_nat ((arm_fpcr m a >>> 22) &&& 3)) [0; 2; 1; 3] 0 /\
    (forall i, 0 <= i -> Z.testbit (arm2x86_update_fpsr_from_sse (fp_mxcsr fp)) i =
      (Z.testbit (arm_fpsr m a) 0 && (i =? 4)) || (Z.testbit (arm_fpsr m a) 1 && (i =? 3))
      || (Z.testbit (arm_fpsr m a) 2 && (i =? 2)) || (Z.testbit (arm_fpsr m a) 3 && (i =? 0)))).
Proof.
  intros Ha Hl E.
  assert (E0 : forall i v, i = 11 \/ 15 <= i <= 29 ->
    translate_ucontext_arm64_to_x86 (st 8 (a + 8 * i) v m) a (Some uc) = Some uc').
  { intros i v Hi. rewrite <- E. apply context_unread. intros x Hx. apply st_out. lia. }
  assert (E1 : forall i v, 16 <= i < 32 ->
    translate_ucontext_arm64_to_x86 (st 16 (a + 272 + 16 * i) v m) a (Some uc) = Some uc').
  { intros i v Hi. rewrite <- E. apply context_unread. intros x Hx. apply st_out. lia. }
  unfold translate_ucontext_arm64_to_x86, mbind, option_bind in E. rewrite (proj2 (Z.eqb_neq a 0) Ha) in E. cbv zeta in E.
  set (uc1 := set_gregs (context_assignments m a) uc) in *. apply (inj Some) in E.
  assert (G : forall j, (j < 23)%nat -> greg uc' j = last_assigned j (context_assignments m a) (greg uc j)).
  { intros j Hj. rewrite <- E. change (greg {| gregs := gregs uc1; fpregs := _ |} j) with (greg uc1 j).
    apply greg_set_gregs. by rewrite Hl. }
  split; [rewrite <- E; cbn [gregs]; subst uc1; by rewrite length_set_gregs|].
  split. { unfold context_map. repeat (apply Forall_cons_2; [apply G; vm_compute; lia|]). apply Forall_nil_2. }
  split. { rewrite (G REG_RSP) by (vm_compute; lia). apply land_lnot_15. }
  split. { apply (G REG_RIP). vm_compute. lia. }
  split. { intros i Hi. rewrite (G REG_EFL) by (vm_compute; lia). apply eflags_bits, Hi. }
  split. { apply (G REG_CSGSFS). vm_compute. lia. }
  split. { intros j Hj. rewrite G by lia. unfold context_assignments. cbn [last_assigned].
    assert (Hc : j = 19%nat \/ j = 20%nat \/ j = 21%nat \/ j = 22%nat) by lia.
    destruct Hc as [->|[->|[->| ->]]]; reflexivity. }
  split; [exact E0|]. split; [exact E1|].
  assert (F1 : fpregs uc1 = fpregs uc) by apply set_gregs_fpregs.
  split. { rewrite <- E. cbn [fpregs]. rewrite F1. by destruct (fpregs uc). }
  intros fp Hfp. rewrite <- E in Hfp. cbn [fpregs] in Hfp. destruct (fpregs uc1) as [f|]; [|discriminate].
  apply (inj Some) in Hfp. subst fp. cbn [fp_mxcsr fp_xmm].
  split; [intros i k Hi Hk; by apply xmm_of_vreg|].
  split; [intros i Hi; apply mxcsr_flags, Hi|]. split; [apply mxcsr_rounding|]. intros i Hi. apply fpsr_through_mxcsr, Hi.
Qed.

Lemma signal_context_witness :
  let uc := {| gregs := repeat 0 23; fpregs := None |} in
  option_map (fun uc => (greg uc REG_R14, greg uc REG_RSP))
    (translate_ucontext_arm64_to_x86 (fun x => x mod 256) 0x1000 (Some uc)) = Some (0xf7f6f5f4f3f2f1f0, 0xfffefdfcfbfaf9f0).
Proof.
  intros uc. destruct (translate_ucontext_arm64_to_x86 (fun x => x mod 256) 0x1000 (Some uc)) as [uc'|] eqn:E.
  - destruct (signal_context (fun x => x mod 256) 0x1000 uc uc' ltac:(lia) eq_refl E) as (_ & H & _).
    unfold context_map in H. rewrite !Forall_cons in H. destruct H as (_ & _ & _ & _ & _ & _ & _ & _ & _ & _ & _ & _ & _ & _ & H & _).
    cbn [option_map fst snd] in *. rewrite H. vm_compute in E. injection E as <-. vm_compute. reflexivity.
  - vm_compute in E. discriminate.
Defined.

(** ** Translation on demand *)

Section OnDemand.
Context `{host : Host} (simd : Z) (uninit : Z -> DecodedInstruction).

End OnDemand.


(** ** The handlers of the guest *)

Lemma nth_insert_eq {A} (i : nat) (x d : A) l : (i < length l)%nat -> nth i (<[i := x]> l) d = x.
Proof. intros H. by rewrite nth_insert, decide_True. Qed.

Lemma set_action_eq n a f : set_action n a f n = a.
Proof. unfold set_action. by rewrite Z.eqb_refl. Qed.

(** Registering a handler and removing it.  While it is registered, the signal calls it.
    Afterwards the old disposition is back, unless it was the default one: then the wrapper
    stays installed and the signal does nothing any more.  Of two registrations the second
    forgets the old disposition: removing them leaves the wrapper, whatever there was before. *)
Theorem guest_handlers sigaction_ok wrapper signum handler flags handler2 flags2 s :
  0 <= signum < 64 -> sigaction_ok signum = true -> (length (g_signal_handlers s) = 64)%nat ->
  handler <> 0 -> 1 < wrapper -> sa_handler (gs_actions s signum) <> wrapper ->
  let register := NativeBridgeRegisterSignalHandler sigaction_ok wrapper signum in
  let unregister := NativeBridgeUnregisterSignalHandler sigaction_ok signum in
  let s1 := register handler flags s in
  let s2 := unregister s1 in
  let s3 := unregister (register handler2 flags2 s1) in
  deliver wrapper signum s1 = [CallHandler handler signum] /\
  (forall n, n <> signum -> gs_actions s2 n = gs_actions s n) /\
  (sa_handler (gs_actions s signum) <> SIG_DFL -> gs_actions s2 signum = gs_actions s signum) /\
  (sa_handler (gs_actions s signum) = SIG_DFL -> deliver wrapper signum s2 = []) /\
  sa_handler (gs_actions s3 signum) = wrapper /\ deliver wrapper signum s3 = [] /\
  deliver wrapper signum (unregister s3) = [].
Proof.
  intros Hn Hok Hl Hh Hw Hnw register unregister s1 s2 s3.
  assert (Hr : (signum <? 0) || (64 <=? signum) = false) by lia.
  assert (Hr' : (0 <=? signum) && (signum <? 64) = true) by lia.
  assert (Hi : (Z.to_nat signum < 64)%nat) by lia.
  assert (Hwd : forall s, sa_handler (gs_actions s signum) = wrapper -> deliver wrapper signum s = signal_wrapper signum s).
  { intros s0 E. unfold deliver, SIG_DFL, SIG_IGN. rewrite E. replace (wrapper =? 0) with false by lia.
    replace (wrapper =? 1) with false by lia. rewrite Z.eqb_refl. reflexivity. }
  assert (E1 : guest_handler_of s1 signum = {| gh_handler := handler; gh_signum := signum; gh_flags := flags;
                  gh_old_action := gs_actions s signum |} /\ (length (g_signal_handlers s1) = 64)%nat /\
    gs_actions s1 = set_action signum {| sa_handler := wrapper; sa_flags := flags |} (gs_actions s)).
  { subst s1 register. unfold NativeBridgeRegisterSignalHandler. rewrite Hr, Hok. cbv zeta. unfold guest_handler_of.
    cbn [g_signal_handlers gs_actions]. rewrite nth_insert_eq by lia. rewrite length_insert. done. }
  destruct E1 as (H1 & L1 & A1).
  assert (E2 : gs_actions s2 = (if c_true (sa_handler (gs_actions s signum)) then set_action signum (gs_actions s signum) (gs_actions s1)
      else gs_actions s1) /\ guest_handler_of s2 signum = no_handler).
  { subst s2 unregister. unfold NativeBridgeUnregisterSignalHandler. rewrite Hr, Hok, H1. cbn [gh_old_action gs_actions].
    rewrite andb_true_r. split; [reflexivity|]. unfold guest_handler_of. cbn [g_signal_handlers]. apply nth_insert_eq. lia. }
  destruct E2 as (A2 & H2).
  assert (Hc : forall v, c_true v = negb (v =? 0)) by reflexivity.
  assert (E3 : gs_actions s3 signum = {| sa_handler := wrapper; sa_flags := flags |} /\ guest_handler_of s3 signum = no_handler
    /\ (length (g_signal_handlers s3) = 64)%nat).
  { subst s3 unregister register. unfold NativeBridgeUnregisterSignalHandler, NativeBridgeRegisterSignalHandler. rewrite Hr, Hok.
    cbv zeta. unfold guest_handler_of. cbn [g_signal_handlers gs_actions]. rewrite !nth_insert_eq by (rewrite ?length_insert; lia).
    cbn [gh_old_action]. rewrite A1, !set_action_eq. cbn [sa_handler]. rewrite Hc.
    replace (wrapper =? 0) with false by lia. cbn [negb andb]. rewrite set_action_eq.
    split; [reflexivity|]. rewrite !length_insert. done. }
  destruct E3 as (A3 & H3 & L3).
  split; [|split; [|split; [|split; [|split; [|split]]]]].
  - rewrite Hwd by (rewrite A1; unfold set_action; by rewrite Z.eqb_refl). unfold signal_wrapper. rewrite Hr', H1. cbn [gh_handler].
    rewrite Hc. by replace (handler =? 0) with false by lia.
  - intros n Hne. rewrite A2, A1. destruct (c_true _); unfold set_action; by rewrite (proj2 (Z.eqb_neq n signum) Hne).
  - intros Hd. rewrite A2, Hc. unfold SIG_DFL in Hd. rewrite (proj2 (Z.eqb_neq _ 0) Hd). cbn [negb]. by rewrite set_action_eq.
  - intros Hd. rewrite Hwd. { unfold signal_wrapper. by rewrite Hr', H2. }
    rewrite A2, Hd, A1. change (c_true SIG_DFL) with false. cbv iota. by rewrite set_action_eq.
  - by rewrite A3.
  - rewrite Hwd by (by rewrite A3). unfold signal_wrapper. by rewrite Hr', H3.
  - subst unregister. unfold NativeBridgeUnregisterSignalHandler. rewrite Hr, H3. cbn [gh_old_action no_handler zero_action sa_handler].
    cbn [c_true Z.eqb negb andb]. change (c_true 0) with false. cbn [andb].
    rewrite Hwd by (cbn [gs_actions]; by rewrite A3). unfold signal_wrapper. rewrite Hr'. unfold guest_handler_of.
    cbn [g_signal_handlers]. by rewrite nth_insert_eq by lia.
Qed.

Lemma guest_handlers_witness :
  let s := guest_signals_start (fun _ => zero_action) in
  let s1 := NativeBridgeRegisterSignalHandler (fun _ => true) 0x5000 10 0x6000 0 s in
  deliver 0x5000 10 s1 = [CallHandler 0x6000 10] /\
  deliver 0x5000 10 (NativeBridgeUnregisterSignalHandler (fun _ => true) 10 s1) = [].
Proof.
  intros s s1.
  destruct (guest_handlers (fun _ => true) 0x5000 10 0x6000 0 0x7000 0 s ltac:(lia) eq_refl ltac:(reflexivity)
    ltac:(lia) ltac:(lia) ltac:(discriminate)) as (H1 & _ & _ & H4 & _).
  split; [exact H1|]. apply H4. reflexivity.
Defined.

(** ** The handlers of the bridge *)

Lemma find_app {X} (f : X -> bool) l l' :
  List.find f (l ++ l') = match List.find f l with Some x => Some x | None => List.find f l' end.
Proof. induction l as [|x l IH]; [done|]. cbn. by destruct (f x). Qed.

Section BridgeFacts.
Context (sigaction_ok : Z -> bool) (internal_handlers : nat -> Z) (A : Z -> action).
Context (all_ok : Forall (fun n => sigaction_ok n = true) signal_numbers).

Local Abbreviation run := (bridge_run sigaction_ok internal_handlers).
Local Abbreviation step := (bridge_step sigaction_ok internal_handlers).

Lemma number_ok i : (i < 5)%nat -> sigaction_ok (signal_number i) = true.
Proof.
  intros Hi. unfold signal_number. apply (proj1 (List.Forall_forall _ _) all_ok). apply nth_In. cbn. lia.
Qed.
Lemma numbers_distinct i j : (i < 5)%nat -> (j < 5)%nat -> signal_number i = signal_number j -> i = j.
Proof. unfold signal_number. do 5 (destruct i as [|i]; [do 5 (destruct j as [|j]; [cbn; intros; lia|]); lia|]). lia. Qed.

(** The dispositions while the first [k] handlers are installed. *)
Definition installed (k : nat) (n : Z) : action :=
  match List.find (fun i => n =? signal_number i) (seq 0 k) with
  | Some i => {| sa_handler := internal_handlers i; sa_flags := bridge_flags |}
  | None => A n
  end.

Lemma installed_other k n : (forall i, (i < k)%nat -> n <> signal_number i) -> installed k n = A n.
Proof.
  intros H. unfold installed. destruct (List.find _ _) as [i|] eqn:E; [|done].
  apply find_some in E as [Hin E]. apply in_seq in Hin. exfalso. apply (H i); lia.
Qed.
Lemma installed_number k i : (k <= 5)%nat -> (i < k)%nat ->
  installed k (signal_number i) = {| sa_handler := internal_handlers i; sa_flags := bridge_flags |}.
Proof.
  intros Hk Hi. unfold installed. destruct (List.find _ _) as [j|] eqn:E.
  - apply find_some in E as [Hin E]. apply in_seq in Hin. assert (i = j) as -> by (apply numbers_distinct; lia). done.
  - exfalso. pose proof (find_none _ _ E i ltac:(apply in_seq; lia)) as F. cbn in F. rewrite Z.eqb_refl in F. discriminate.
Qed.

Record bridge_ok (s : bridge_signals) : Prop := {
  ok_users : length (g_user_handlers s) = 5%nat;
  ok_originals : length (g_original_handlers s) = 5%nat;
  ok_nonzero : Forall (Forall (fun h => h <> 0)) (g_user_handlers s);
  ok_actions : forall n, bs_actions s n = (if g_signal_initialized s then installed 5 n else A n);
  ok_saved : g_signal_initialized s = true -> forall i, (i < 5)%nat -> original_handler s i = A (signal_number i) }.

Lemma install_loop k s : (k <= 5)%nat -> length (g_original_handlers s) = 5%nat -> (forall n, bs_actions s n = A n) ->
  let s' := fold_left (install_one sigaction_ok internal_handlers) (seq 0 k) s in
  length (g_original_handlers s') = 5%nat /\ g_user_handlers s' = g_user_handlers s /\
  (forall n, bs_actions s' n = installed k n) /\ (forall i, (i < k)%nat -> original_handler s' i = A (signal_number i)).
Proof.
  intros Hk Hl Ha. induction k as [|k IH]; [split_and!; try done; intros; lia|].
  rewrite seq_S, fold_left_app. cbn [fold_left]. destruct (IH ltac:(lia)) as (L & U & Ac & O).
  set (s1 := fold_left _ _ s) in *. cbv zeta. unfold install_one. rewrite number_ok by lia. unfold original_handler in *.
  cbn [g_original_handlers g_user_handlers bs_actions].
  split; [by rewrite length_insert|]. split; [exact U|]. split.
  - intros n. unfold set_action. destruct (Z.eqb_spec n (signal_number (0 + k))) as [->|Hn].
    + by rewrite (installed_number (S k) (0 + k)) by lia.
    + rewrite Ac. unfold installed. rewrite seq_S, find_app. destruct (List.find _ (seq 0 k)); [done|].
      cbn [List.find]. by rewrite (proj2 (Z.eqb_neq _ _) Hn).
  - intros i Hi. destruct (Nat.eq_dec i k) as [->|Hne].
    + rewrite nth_insert_eq by (rewrite L; lia). rewrite Ac. apply installed_other.
      intros j Hj E. apply numbers_distinct in E; lia.
    + rewrite !nth_lookup, list_lookup_insert_ne by lia. rewrite <- nth_lookup. apply O. lia.
Qed.

Lemma restore_loop k s : (k <= 5)%nat -> bridge_ok s -> g_signal_initialized s = true ->
  let s' := fold_left (restore_one sigaction_ok) (seq 0 k) s in
  length (g_user_handlers s') = 5%nat /\ g_original_handlers s' = g_original_handlers s /\
  (forall i, (i < 5)%nat -> user_handlers s' i = if (i <? k)%nat then [] else user_handlers s i) /\
  (forall n, bs_actions s' n = if existsb (fun i => n =? signal_number i) (seq 0 k) then A n else installed 5 n).
Proof.
  intros Hk Hs Hi. induction k as [|k IH].
  - split_and!; [apply Hs|done|done|]. intros n. rewrite (ok_actions _ Hs), Hi. done.
  - rewrite seq_S, fold_left_app. cbn [fold_left]. destruct (IH ltac:(lia)) as (L & O & U & Ac).
    set (s1 := fold_left _ _ s) in *. cbv zeta. unfold restore_one, user_handlers in *.
    cbn [g_original_handlers g_user_handlers bs_actions]. rewrite number_ok by lia.
    split; [by rewrite length_insert|]. split; [exact O|]. split.
    + intros i H5. destruct (Nat.eq_dec i k) as [->|Hne].
      * rewrite nth_insert_eq by (rewrite L; lia). by rewrite (proj2 (Nat.ltb_lt k (S k))) by lia.
      * rewrite !nth_lookup, list_lookup_insert_ne by lia. rewrite <- !nth_lookup, U by lia.
        destruct (Nat.ltb_spec i k), (Nat.ltb_spec i (S k)); done || lia.
    + intros n. rewrite existsb_app. cbn [existsb]. rewrite orb_false_r. unfold set_action.
      destruct (Z.eqb_spec n (signal_number (0 + k))) as [->|Hn].
      * rewrite orb_true_r. unfold original_handler. rewrite O. apply (ok_saved _ Hs Hi). lia.
      * by rewrite orb_false_r, Ac.
Qed.

Lemma restored n : (if existsb (fun i => n =? signal_number i) (seq 0 5) then A n else installed 5 n) = A n.
Proof.
  destruct (existsb _ _) eqn:E; [done|]. apply installed_other. intros i Hi En.
  assert (T : existsb (fun i => n =? signal_number i) (seq 0 5) = true); [|congruence].
  apply existsb_exists. exists i. split; [apply in_seq; lia|]. lia.
Qed.

Lemma set_users_ok i l s : bridge_ok s -> Forall (fun h => h <> 0) l -> bridge_ok (set_users i l s).
Proof.
  intros Hs Hl. split; cbn.
  - rewrite length_insert. apply Hs.
  - apply Hs.
  - apply Forall_insert; [apply Hs|exact Hl].
  - apply (ok_actions _ Hs).
  - apply (ok_saved _ Hs).
Qed.
Lemma user_handlers_nonzero s i : bridge_ok s -> Forall (fun h => h <> 0) (user_handlers s i).
Proof.
  intros Hs. unfold user_handlers. destruct (nth_in_or_default i (g_user_handlers s) []) as [H| ->]; [|constructor].
  apply (proj1 (List.Forall_forall _ _) (ok_nonzero _ Hs)), H.
Qed.
Lemma remove_first_sub h l : Forall (fun h => h <> 0) l -> Forall (fun h => h <> 0) (remove_first h l).
Proof. induction 1 as [|x l Hx Hl IH]; cbn; [constructor|]. destruct (x =? h); [done|by constructor]. Qed.

Lemma init_ok s : bridge_ok s -> bridge_ok (signal_handler_init sigaction_ok internal_handlers s).
Proof.
  intros Hs. unfold signal_handler_init. destruct (g_signal_initialized s) eqn:E; [done|].
  destruct (install_loop 5 s ltac:(lia) (ok_originals _ Hs)) as (L & U & Ac & O).
  { intros n. by rewrite (ok_actions _ Hs), E. }
  change SIGNAL_MAX_TYPE with 5%nat. split; cbn [g_user_handlers g_original_handlers bs_actions g_signal_initialized set_initialized].
  - rewrite U. apply Hs.
  - exact L.
  - rewrite U. apply Hs.
  - exact Ac.
  - intros _ i Hi. apply (O i Hi).
Qed.

Lemma fini_spec s : bridge_ok s -> g_signal_initialized s = true ->
  let s' := signal_handler_fini sigaction_ok s in
  bridge_ok s' /\ g_signal_initialized s' = false /\ forall i, (i < 5)%nat -> user_handlers s' i = [].
Proof.
  intros Hs E s'. subst s'. unfold signal_handler_fini. rewrite E. change SIGNAL_MAX_TYPE with 5%nat.
  destruct (restore_loop 5 s ltac:(lia) Hs E) as (L & O & U & Ac). set (s1 := fold_left _ _ s) in *.
  assert (U' : forall i, (i < 5)%nat -> user_handlers s1 i = []).
  { intros i Hi. rewrite (U i Hi). by rewrite (proj2 (Nat.ltb_lt i 5)). }
  split; [|split; [done|exact U']].
  split; cbn [g_user_handlers g_original_handlers bs_actions g_signal_initialized set_initialized].
  - exact L.
  - rewrite O. apply Hs.
  - apply List.Forall_forall. intros l Hl. apply In_nth with (d := []) in Hl as (i & Hi & <-).
    change (nth i (g_user_handlers s1) []) with (user_handlers s1 i). rewrite U' by lia. constructor.
  - intros n. rewrite Ac. apply restored.
  - discriminate.
Qed.

Lemma step_ok s o : bridge_ok s -> bridge_ok (step s o).
Proof.
  intros Hs. destruct o as [| |t h ok|t h]; cbn [bridge_step].
  - by apply init_ok.
  - destruct (g_signal_initialized s) eqn:E; [by apply fini_spec|]. unfold signal_handler_fini. by rewrite E.
  - unfold signal_register_user_handler. destruct (_ || _); [done|]. destruct (Z.eqb_spec h 0); [done|].
    destruct ok; [|done]. cbn [negb snd]. apply set_users_ok; [done|]. constructor; [done|by apply user_handlers_nonzero].
  - unfold signal_unregister_user_handler. destruct (_ || _); [done|]. apply set_users_ok; [done|].
    by apply remove_first_sub, user_handlers_nonzero.
Qed.

Lemma start_ok : bridge_ok (bridge_signals_start A).
Proof. split; cbn; try done. repeat constructor. Qed.

Lemma run_ok l s : bridge_ok s -> bridge_ok (run s l).
Proof. revert s. induction l as [|o l IH]; intros s Hs; [done|]. cbn. by apply IH, step_ok. Qed.

Lemma chain_eq s i : bridge_ok s -> g_signal_initialized s = true -> (i < 5)%nat ->
  chain_original s i =
    if sa_handler (A (signal_number i)) =? 0 then [ExitProcess (128 + signal_number i)]
    else [CallHandler (sa_handler (A (signal_number i))) (signal_number i)].
Proof.
  intros Hs E Hi. unfold chain_original. rewrite (ok_saved _ Hs E i Hi). unfold c_true. by destruct (_ =? 0).
Qed.

(** C38: In every session the five dispositions are those of the bridge exactly while it is
    initialised, and the ones found at the start otherwise; ending it frees every user
    handler.  A signal calls the user handlers of its type, the newest first, and then the
    old handler; if there was none the process ends, whatever the user handlers did, and an
    ignored signal calls the address 1.  A SIGSEGV outside the code cache calls no user
    handler.  Removing a handler just registered leaves the list as it was. *)
Theorem signal_bridge l :
  let s := run (bridge_signals_start A) l in
  (forall n, bs_actions s n =
    if g_signal_initialized s
    then match List.find (fun i => n =? signal_number i) (seq 0 5) with
         | Some i => {| sa_handler := internal_handlers i; sa_flags := bridge_flags |}
         | None => A n
         end
    else A n) /\
  (forall i n, (i < 5)%nat -> let s' := step s OpFini in
    bs_actions s' n = A n /\ (g_signal_initialized s = true -> user_handlers s' i = [])) /\
  (forall i, (i < 5)%nat -> g_signal_initialized s = true ->
    let old := if sa_handler (A (signal_number i)) =? 0 then [ExitProcess (128 + signal_number i)]
               else [CallHandler (sa_handler (A (signal_number i))) (signal_number i)] in
    plain_handler i s = map (fun h => CallHandler h (signal_number i)) (user_handlers s i) ++ old /\
    (i = SIGNAL_SEGV -> forall cache rip,
      segv_handler cache rip s =
        if negb (cache =? 0) && (cache <=? rip) && (rip <? cache + 64 * 1024 * 1024)
        then map (fun h => CallHandler h 11) (user_handlers s i) ++ old else old)) /\
  (forall i h, (i < 5)%nat -> h <> 0 ->
    let s' := step s (OpRegister (Z.of_nat i) h true) in
    user_handlers s' i = h :: user_handlers s i /\
    (forall j, user_handlers (step s' (OpUnregister (Z.of_nat i) h)) j = user_handlers s j)).
Proof.
  intros s. assert (Hs : bridge_ok s) by apply run_ok, start_ok.
  split; [|split; [|split]].
  - exact (ok_actions _ Hs).
  - intros i n Hi s'. subst s'. cbn [bridge_step]. destruct (g_signal_initialized s) eqn:E.
    + destruct (fini_spec s Hs E) as (Hs' & E' & U). split; [|intros _; by apply U]. by rewrite (ok_actions _ Hs'), E'.
    + unfold signal_handler_fini. rewrite E. split; [by rewrite (ok_actions _ Hs), E|discriminate].
  - intros i Hi E old. unfold plain_handler. rewrite chain_eq by assumption. split; [reflexivity|].
    intros -> cache rip. unfold segv_handler. cbv zeta. rewrite chain_eq by assumption.
    change DBT_CODE_CACHE_SIZE with (64 * 1024 * 1024).
    assert (F : List.filter c_true (user_handlers s SIGNAL_SEGV) = user_handlers s SIGNAL_SEGV).
    { pose proof (user_handlers_nonzero s SIGNAL_SEGV Hs) as N. induction N as [|h l' Hh N IH]; [done|]. cbn [List.filter].
      unfold c_true at 1. rewrite (proj2 (Z.eqb_neq h 0) Hh). cbn [negb]. by rewrite IH. }
    by rewrite F.
  - intros i h Hi Hh s'. subst s'. cbn [bridge_step]. unfold signal_register_user_handler, signal_unregister_user_handler.
    replace ((Z.of_nat i <? 0) || (Z.of_nat SIGNAL_MAX_TYPE <=? Z.of_nat i)) with false by (unfold SIGNAL_MAX_TYPE; lia).
    rewrite (proj2 (Z.eqb_neq h 0) Hh), Nat2Z.id. cbn [negb snd].
    assert (E1 : user_handlers (set_users i (h :: user_handlers s i) s) i = h :: user_handlers s i).
    { unfold user_handlers, set_users. cbn [g_user_handlers]. apply nth_insert_eq. rewrite (ok_users _ Hs). lia. }
    split; [exact E1|]. rewrite E1. cbn [remove_first]. rewrite Z.eqb_refl. intros j.
    unfold user_handlers, set_users. cbn [g_user_handlers]. rewrite list_insert_insert_eq.
    destruct (Nat.eq_dec i j) as [->|Hne]; [apply nth_insert_eq; rewrite (ok_users _ Hs); lia|].
    rewrite !nth_lookup. by rewrite list_lookup_insert_ne.
Qed.
End BridgeFacts.

Lemma signal_bridge_witness :
  let A := fun n => {| sa_handler := if n =? 11 then 0x4444 else 0; sa_flags := 0 |} in
  let s := bridge_run (fun _ => true) (fun i => Z.of_nat i + 0x5000) (bridge_signals_start A)
    [OpInit; OpRegister 0 0x6000 true; OpRegister 0 0x7000 true] in
  segv_handler 0x10000 0x10010 s = [CallHandler 0x7000 11; CallHandler 0x6000 11; CallHandler 0x4444 11].
Proof.
  intros A s.
  destruct (signal_bridge (fun _ => true) (fun i => Z.of_nat i + 0x5000) A ltac:(repeat constructor)
    [OpInit; OpRegister 0 0x6000 true; OpRegister 0 0x7000 true]) as (_ & _ & H & _).
  destruct (H 0%nat ltac:(lia) eq_refl) as (_ & H'). rewrite (H' eq_refl). reflexivity.
Defined.
