(* ===== verification/Chain.v ===== *)
(** * Chaining and profiling: [modules/arm2x86_syscall.c], "Performance Optimization"

    The patching of the exits of a block, the inline cache for indirect branches, the AVX
    emitters and the table of hot blocks. *)
From S2P Require Import Prelude X86 Emit Decode64 Block64.
From Stdlib Require Import ZArith Lia ZifyBool Bool String.
From stdpp Require Import base numbers list strings.
Open Scope Z_scope.
Open Scope c_scope.

(** ** Chaining of blocks *)

(** The instruction at offset [i] that is patched: where its displacement is, where it ends. *)
Definition exit_at (block : list Z) (i : nat) : option (nat * nat) :=
  let p k := nth (i + k) block 0 in
  if (p 0%nat =? 0xe9) && Nat.leb (i + 5) (length block) then Some (i + 1, i + 5)%nat
  else if (p 0%nat =? 0x0f) && Nat.leb (i + 6) (length block) && ((0x80 <=? p 1%nat) && (p 1%nat <=? 0x8f))
  then Some (i + 2, i + 6)%nat
  else None.

(** The 32-bit displacement at an offset, and storing one. *)
Definition read_rel32 (block : list Z) (i : nat) : Z := s32 (le_combine (take 4 (drop i block))).
Definition write_rel32 (block : list Z) (i : nat) (v : Z) : list Z := take i block ++ le_bytes 4 v ++ drop (i + 4) block.

Definition INT32_MIN := - 2^31.
Definition INT32_MAX := 2^31 - 1.

(** One round of the loop; [x86_block] is the address of the block. *)
Definition patch_exit (x86_block target_x86 : Z) (block : list Z) (i : nat) : list Z :=
  match exit_at block i with
  | None => block
  | Some (patch_loc, next) =>
    let jmp_target := u64 (x86_block + Z.of_nat next + read_rel32 block patch_loc) in
    if jmp_target =? 0 then block
    else
      let new_rel := s64 (target_x86 - (x86_block + Z.of_nat next)) in
      if (INT32_MIN <=? new_rel) && (new_rel <=? INT32_MAX) then write_rel32 block patch_loc new_rel else block
  end.

(** The loop moves one byte at a time, whatever it patched. *)
Fixpoint chain_loop (n i : nat) (x86_block target_x86 : Z) (block : list Z) : list Z :=
  match n with
  | O => block
  | S n => chain_loop n (S i) x86_block target_x86 (patch_exit x86_block target_x86 block i)
  end.

Definition chain_blocks (g_block_chaining_enabled : bool) (x86_block : Z) (block : list Z) (exit_arm_pc target_x86 : Z) :
    Z * list Z :=
  if negb g_block_chaining_enabled || (x86_block =? 0) || (target_x86 =? 0) then (-1, block)
  else (0, chain_loop (length block) 0 x86_block target_x86 block).

(** ** The inline cache *)

Definition INLINE_CACHE_SIZE : nat := 4.
Record IndirectCacheEntry := { arm_target : Z; x86_target : Z; ic_hit_count : Z }.
Record IndirectBranchCache := { entries : list IndirectCacheEntry; total_hits : Z; total_misses : Z }.
Definition empty_entry : IndirectCacheEntry := {| arm_target := 0; x86_target := 0; ic_hit_count := 0 |}.

Definition arm2x86_inline_cache_init : IndirectBranchCache :=
  {| entries := replicate INLINE_CACHE_SIZE empty_entry; total_hits := 0; total_misses := 0 |}.

Definition entry (c : IndirectBranchCache) (i : nat) : IndirectCacheEntry := nth i (entries c) empty_entry.

(** The first entry that answers. *)
Definition ic_find (a : Z) (c : IndirectBranchCache) : option nat :=
  List.find (fun i => (arm_target (entry c i) =? a) && c_true (x86_target (entry c i))) (seq 0 INLINE_CACHE_SIZE).

(** [None] is the null pointer. *)
Definition arm2x86_inline_cache_lookup (a : Z) (c : IndirectBranchCache) : option Z * IndirectBranchCache :=
  match ic_find a c with
  | Some i =>
    let e := entry c i in
    (Some (x86_target e),
     {| entries := <[i := {| arm_target := arm_target e; x86_target := x86_target e; ic_hit_count := u32 (ic_hit_count e + 1) |}]> (entries c);
        total_hits := u32 (total_hits c + 1); total_misses := total_misses c |})
  | None => (None, {| entries := entries c; total_hits := total_hits c; total_misses := u32 (total_misses c + 1) |})
  end.

(** The loop of the insertion: the entry with the address, or the one with the fewest hits. *)
Fixpoint ic_scan (n i lru : nat) (a : Z) (c : IndirectBranchCache) : nat + nat :=
  match n with
  | O => inr lru
  | S n =>
    if arm_target (entry c i) =? a then inl i
    else ic_scan n (S i) (if ic_hit_count (entry c i) <? ic_hit_count (entry c lru) then i else lru) a c
  end.

Definition arm2x86_inline_cache_insert (a x86_entry : Z) (c : IndirectBranchCache) : IndirectBranchCache :=
  if x86_entry =? 0 then c
  else
    let i := match ic_scan INLINE_CACHE_SIZE 0 0 a c with inl i => i | inr i => i end in
    {| entries := <[i := {| arm_target := a; x86_target := x86_entry; ic_hit_count := 0 |}]> (entries c);
       total_hits := total_hits c; total_misses := total_misses c |}.

(** ** The AVX emitters *)

(** From the registers of CPUID leaf 1 and XGETBV. *)
Definition arm2x86_detect_avx (ecx xcr0_eax : Z) : bool :=
  if negb (c_true (ecx &&& (1 <<< 27))) then false
  else if (xcr0_eax &&& 0x6) =? 0x6 then c_true (ecx &&& (1 <<< 28)) else false.

Definition emit_avx (g_avx_supported : bool) (vex sse_prefix opcode ymm_dest ymm_src : Z) : emitter unit :=
  if negb g_avx_supported then
    emit_byte sse_prefix ;; emit_byte 0x0f ;; emit_byte opcode ;; modrm 3 (ymm_dest &&& 7) (ymm_src &&& 7)
  else emit_byte 0xC5 ;; emit_byte vex ;; emit_byte opcode ;; modrm 3 (ymm_dest &&& 7) (ymm_src &&& 7).
Definition emit_vaddpd_avx (avx : bool) (ymm_dest ymm_src : Z) : emitter unit := emit_avx avx 0xE8 0x66 0x58 ymm_dest ymm_src.
Definition emit_vsubpd_avx (avx : bool) (ymm_dest ymm_src : Z) : emitter unit := emit_avx avx 0xE8 0x66 0x5c ymm_dest ymm_src.
Definition emit_vmulsd_avx (avx : bool) (ymm_dest ymm_src1 ymm_src2 : Z) : emitter unit :=
  emit_avx avx 0xF2 0xf2 0x59 ymm_dest ymm_src2.
Definition emit_vmovdqu_avx (avx : bool) (ymm_dest ymm_src : Z) : emitter unit := emit_avx avx 0xF3 0xf3 0x6f ymm_dest ymm_src.

(** ** The table of hot blocks *)

Definition MAX_HOT_BLOCKS : nat := 256.
Definition ARM2X86_HOT_THRESHOLD := 100.
Record HotBlockInfo := { hb_arm_pc : Z; hb_hit_count : Z; hb_retranslated : Z; hb_flags : Z }.

Definition profile_find (arm_pc : Z) (l : list HotBlockInfo) : option (nat * HotBlockInfo) :=
  list_find (fun b => hb_arm_pc b = arm_pc) l.

(** The list holds the entries below [g_hot_block_count]. *)
Definition arm2x86_profile_record_hit (arm_pc : Z) (l : list HotBlockInfo) : list HotBlockInfo :=
  match profile_find arm_pc l with
  | Some (i, b) =>
    <[i := {| hb_arm_pc := hb_arm_pc b; hb_hit_count := u32 (hb_hit_count b + 1); hb_retranslated := hb_retranslated b;
              hb_flags := hb_flags b |}]> l
  | None =>
    if Nat.ltb (length l) MAX_HOT_BLOCKS
    then l ++ [{| hb_arm_pc := arm_pc; hb_hit_count := 1; hb_retranslated := 0; hb_flags := 0 |}] else l
  end.

Definition arm2x86_profile_check (arm_pc : Z) (l : list HotBlockInfo) : bool :=
  match profile_find arm_pc l with
  | Some (_, b) => (ARM2X86_HOT_THRESHOLD <? hb_hit_count b) && (hb_retranslated b =? 0)
  | None => false
  end.

Definition arm2x86_retranslate_hot_block (arm_pc : Z) (ctx : bool) (l : list HotBlockInfo) : list HotBlockInfo :=
  if negb ctx then l
  else
    match list_find (fun b => hb_arm_pc b = arm_pc /\ ARM2X86_HOT_THRESHOLD < hb_hit_count b /\ hb_retranslated b = 0) l with
    | Some (i, b) =>
      <[i := {| hb_arm_pc := hb_arm_pc b; hb_hit_count := hb_hit_count b; hb_retranslated := 1;
                hb_flags := hb_flags b ||| 0x1 |}]> l
    | None => l
    end.

(** ** What chaining does to a block *)

(** A block as bytes without a pattern between its jumps. *)
Inductive segment := Plain (bs : list Z) | Jmp (d : Z) | Jcc (cc d : Z).
Definition segment_bytes (s : segment) : list Z :=
  match s with Plain bs => bs | Jmp d => 0xe9 :: le_bytes 4 d | Jcc cc d => 0x0f :: cc :: le_bytes 4 d end.
Definition block_bytes (l : list segment) : list Z := flat_map segment_bytes l.

Abbreviation quiet bs := (Forall (fun b => b <> 0xe9 /\ b <> 0x0f) bs).

(** The distance to the target from the end of a jump. *)
Definition distance (x86_block target next : Z) : Z := s64 (target - (x86_block + next)).

(** A segment at [pos], and after the patching. *)
Definition retarget (x86_block target pos : Z) (s : segment) : segment :=
  match s with
  | Plain bs => Plain bs
  | Jmp d => Jmp (distance x86_block target (pos + 5))
  | Jcc cc d => Jcc cc (distance x86_block target (pos + 6))
  end.
Fixpoint retarget_all (x86_block target pos : Z) (l : list segment) : list segment :=
  match l with
  | [] => []
  | s :: l => retarget x86_block target pos s :: retarget_all x86_block target (pos + Z.of_nat (length (segment_bytes s))) l
  end.

(** A jump that can be retargeted: it does not lead to the address 0, the distance fits and
    has no byte E9 or 0F. *)
Definition jump_ok (x86_block target next d : Z) : Prop :=
  u64 (x86_block + next + s32 d) <> 0 /\
  INT32_MIN <= distance x86_block target next <= INT32_MAX /\ quiet (le_bytes 4 (distance x86_block target next)).
Definition segment_ok (x86_block target pos : Z) (s : segment) : Prop :=
  match s with
  | Plain bs => quiet bs
  | Jmp d => jump_ok x86_block target (pos + 5) d
  | Jcc cc d => 0x80 <= cc <= 0x8f /\ jump_ok x86_block target (pos + 6) d
  end.
Fixpoint segments_ok (x86_block target pos : Z) (l : list segment) : Prop :=
  match l with
  | [] => True
  | s :: l => segment_ok x86_block target pos s /\ segments_ok x86_block target (pos + Z.of_nat (length (segment_bytes s))) l
  end.

Lemma length_write_rel32 block i v : (i + 4 <= length block)%nat -> length (write_rel32 block i v) = length block.
Proof. intros H. unfold write_rel32. rewrite !length_app, length_take, length_drop, length_le_bytes. lia. Qed.

Lemma nth_app_at (pre l : list Z) k : nth (length pre + k) (pre ++ l) 0 = nth k l 0.
Proof. rewrite app_nth2 by lia. f_equal. lia. Qed.

Lemma exit_at_quiet block i : nth i block 0 <> 0xe9 -> nth i block 0 <> 0x0f -> exit_at block i = None.
Proof.
  intros H1 H2. unfold exit_at. rewrite Nat.add_0_r.
  by rewrite (proj2 (Z.eqb_neq _ _) H1), (proj2 (Z.eqb_neq _ _) H2).
Qed.

(** Bytes without a pattern are passed over. *)
Lemma chain_loop_quiet base tgt pre bs l n : quiet bs ->
  chain_loop (length bs + n) (length pre) base tgt (pre ++ bs ++ l) =
  chain_loop n (length (pre ++ bs)) base tgt ((pre ++ bs) ++ l).
Proof.
  intros Hq. revert pre. induction Hq as [|b bs [H1 H2] Hq IH]; intros pre.
  - cbn [length app Nat.add]. by rewrite app_nil_r.
  - cbn [length Nat.add chain_loop].
    assert (E : nth (length pre) (pre ++ (b :: bs) ++ l) 0 = b).
    { pose proof (nth_app_at pre ((b :: bs) ++ l) 0) as E. rewrite Nat.add_0_r in E. exact E. }
    unfold patch_exit. rewrite exit_at_quiet by (by rewrite E).
    specialize (IH (pre ++ [b])). rewrite length_app in IH. cbn [length] in IH. rewrite Nat.add_1_r in IH.
    rewrite <- !app_assoc in IH. cbn [app] in IH. cbn [app]. rewrite IH.
    rewrite !length_app. cbn [length]. by rewrite <- !app_assoc.
Qed.

Lemma read_write_rel32 pre d l v :
  read_rel32 (pre ++ le_bytes 4 d ++ l) (length pre) = s32 d /\
  write_rel32 (pre ++ le_bytes 4 d ++ l) (length pre) v = pre ++ le_bytes 4 v ++ l.
Proof.
  unfold read_rel32, write_rel32. rewrite drop_app_length, take_app_length. split.
  - replace 4%nat with (length (le_bytes 4 d)) at 1 by apply length_le_bytes. rewrite take_app_length, le_combine_bytes.
    unfold s32. rewrite <- (Zplus_mod_idemp_l d). reflexivity.
  - do 2 f_equal. rewrite <- drop_drop, drop_app_length. replace 4%nat with (length (le_bytes 4 d)) by apply length_le_bytes.
    apply drop_app_length.
Qed.

Lemma patch_in_range base tgt head d l (pre : list Z) :
  let next := Z.of_nat (length pre + length head + 4) in
  jump_ok base tgt next d ->
  exit_at (pre ++ head ++ le_bytes 4 d ++ l) (length pre) = Some (length pre + length head, length pre + length head + 4)%nat ->
  patch_exit base tgt (pre ++ head ++ le_bytes 4 d ++ l) (length pre) = pre ++ head ++ le_bytes 4 (distance base tgt next) ++ l.
Proof.
  intros next (Hnz & Hr & _) He. unfold patch_exit. rewrite He. cbv zeta. rewrite app_assoc, <- length_app.
  destruct (read_write_rel32 (pre ++ head) d l (distance base tgt next)) as [E1 E2]. rewrite E1.
  rewrite length_app in E2 |- *. fold next. rewrite (proj2 (Z.eqb_neq _ _) Hnz).
  fold (distance base tgt next).
  replace ((INT32_MIN <=? distance base tgt next) && (distance base tgt next <=? INT32_MAX)) with true by lia.
  rewrite <- length_app in E2 |- *. rewrite E2. by rewrite <- app_assoc.
Qed.

Lemma chain_loop_segments base tgt l pre :
  segments_ok base tgt (Z.of_nat (length pre)) l ->
  chain_loop (length (block_bytes l)) (length pre) base tgt (pre ++ block_bytes l) =
  pre ++ block_bytes (retarget_all base tgt (Z.of_nat (length pre)) l).
Proof.
  revert pre. induction l as [|s l IH]; intros pre; [done|].
  intros [Hs Hl]. unfold block_bytes in *. cbn [flat_map retarget_all segments_ok] in *. rewrite length_app.
  destruct s as [bs|d|cc d]; cbn [segment_ok segment_bytes retarget] in *.
  - rewrite chain_loop_quiet by done. rewrite <- app_assoc.
    replace (Z.of_nat (length pre) + Z.of_nat (length bs)) with (Z.of_nat (length (pre ++ bs))) in * by (rewrite length_app; lia).
    rewrite app_assoc, IH by done. by rewrite <- app_assoc.
  - cbn [length Nat.add] in Hl |- *. rewrite length_le_bytes in Hl |- *. cbn [chain_loop].
    replace (Z.of_nat (length pre) + 5) with (Z.of_nat (length pre + length [0xe9] + 4)) in Hs |- * by (cbn; lia).
    change ((0xe9 :: le_bytes 4 d) ++ ?x) with ([0xe9] ++ le_bytes 4 d ++ x).
    rewrite (patch_in_range _ _ _ _ _ _ Hs).
    2:{ unfold exit_at. rewrite nth_app_at. cbn [app nth]. change (0xe9 =? 0xe9) with true. cbn [andb].
        replace (Nat.leb (length pre + 5) _) with true by (symmetry; apply Nat.leb_le; rewrite !length_app; cbn [length]; rewrite length_app, length_le_bytes; lia).
        f_equal. f_equal; cbn; lia. }
    set (d' := distance _ _ _) in *. destruct Hs as (_ & _ & Hq).
    pose proof (chain_loop_quiet base tgt (pre ++ [0xe9]) (le_bytes 4 d') (flat_map segment_bytes l)
      (length (flat_map segment_bytes l)) Hq) as E.
    rewrite length_le_bytes, length_app in E. cbn [length] in E. rewrite Nat.add_1_r in E. cbn [Nat.add].
    replace (pre ++ [0xe9] ++ le_bytes 4 d' ++ flat_map segment_bytes l) with
      ((pre ++ [0xe9]) ++ le_bytes 4 d' ++ flat_map segment_bytes l) by (by rewrite <- app_assoc).
    etransitivity; [exact E|]. clear E.
    replace (Z.of_nat (length pre) + Z.of_nat (S 4)) with (Z.of_nat (length ((pre ++ [0xe9]) ++ le_bytes 4 d'))) in *
      by (rewrite !length_app, length_le_bytes; cbn; lia).
    rewrite IH by done. rewrite <- !app_assoc. cbn [app]. done.
  - destruct Hs as [Hcc Hs]. cbn [length Nat.add] in Hl |- *. rewrite length_le_bytes in Hl |- *. cbn [chain_loop].
    replace (Z.of_nat (length pre) + 6) with (Z.of_nat (length pre + length [0x0f; cc] + 4)) in Hs |- * by (cbn; lia).
    change ((0x0f :: cc :: le_bytes 4 d) ++ ?x) with ([0x0f; cc] ++ le_bytes 4 d ++ x).
    rewrite (patch_in_range _ _ _ _ _ _ Hs).
    2:{ unfold exit_at. rewrite !nth_app_at. cbn [app nth]. change (0x0f =? 0xe9) with false. change (0x0f =? 0x0f) with true. cbn [andb].
        replace (Nat.leb (length pre + 6) _) with true by (symmetry; apply Nat.leb_le; rewrite !length_app; cbn [length]; rewrite length_app, length_le_bytes; lia).
        replace ((0x80 <=? cc) && (cc <=? 0x8f)) with true by lia. cbn [andb].
        f_equal. f_equal; cbn; lia. }
    set (d' := distance _ _ _) in *. destruct Hs as (_ & _ & Hq).
    assert (Hq' : quiet (cc :: le_bytes 4 d')) by (constructor; [lia|done]).
    pose proof (chain_loop_quiet base tgt (pre ++ [0x0f]) (cc :: le_bytes 4 d') (flat_map segment_bytes l)
      (length (flat_map segment_bytes l)) Hq') as E.
    cbn [length] in E. rewrite length_le_bytes, length_app in E. cbn [length] in E. rewrite Nat.add_1_r in E. cbn [Nat.add] in E |- *.
    replace (pre ++ [0x0f; cc] ++ le_bytes 4 d' ++ flat_map segment_bytes l) with
      ((pre ++ [0x0f]) ++ (cc :: le_bytes 4 d') ++ flat_map segment_bytes l) by (by rewrite <- app_assoc).
    etransitivity; [exact E|]. clear E.
    replace (Z.of_nat (length pre) + Z.of_nat (S (S 4))) with (Z.of_nat (length ((pre ++ [0x0f]) ++ cc :: le_bytes 4 d'))) in *
      by (rewrite !length_app; cbn [length]; rewrite length_le_bytes; lia).
    rewrite IH by done. rewrite <- !app_assoc. cbn [app]. done.
Qed.

Lemma length_chain_loop n i base tgt block : length (chain_loop n i base tgt block) = length block.
Proof.
  revert i block. induction n as [|n IH]; intros i block; [done|]. cbn [chain_loop]. rewrite IH. unfold patch_exit.
  destruct (exit_at block i) as [[loc next]|] eqn:E; [|done]. cbv zeta. destruct (_ =? 0); [done|]. destruct (_ && _); [|done].
  apply length_write_rel32. unfold exit_at in E.
  destruct (_ && Nat.leb (i + 5) _) eqn:E1; [injection E as <- <-; apply andb_true_iff in E1 as [_ E1%Nat.leb_le]; lia|].
  destruct (_ && Nat.leb (i + 6) _ && _) eqn:E2; [injection E as <- <-|discriminate].
  apply andb_true_iff in E2 as [[_ E2%Nat.leb_le]%andb_true_iff _]. lia.
Qed.

Lemma distance_reaches base tgt next : u64 (base + next + distance base tgt next) = u64 tgt.
Proof.
  unfold distance, s64, u64.
  assert (E : base + next + ((tgt - (base + next) + 2^63) mod 2^64 - 2^63) =
    (tgt - (base + next) + 2^63) mod 2^64 + (base + next - 2^63)) by lia.
  rewrite E, Zplus_mod_idemp_l. f_equal. lia.
Qed.

(** C39: Chaining makes every jump of a block lead to the one target, whatever guest address
    it stood for ([exit_arm_pc] is not looked at), and changes nothing else, provided that
    E9 and 0F occur as opcodes of jumps only, before and after.  Otherwise it patches what
    is no jump: a constant with the byte E9 gets another value, and a distance that has the
    byte E9 is patched once more, so that the jump goes elsewhere and the byte behind it is
    overwritten.  The length never changes. *)
Theorem chain_blocks_retargets x86_block target exit_arm_pc l :
  x86_block <> 0 -> target <> 0 -> segments_ok x86_block target 0 l ->
  (chain_blocks true x86_block (block_bytes l) exit_arm_pc target = (0, block_bytes (retarget_all x86_block target 0 l)) /\
   forall next, u64 (x86_block + next + distance x86_block target next) = u64 target) /\
  (forall on base block pc t, length (snd (chain_blocks on base block pc t)) = length block) /\
  (decode [0xb8; 0xe9; 0; 0; 0; 0xc3] = Some (MovRI W32 0 0xe9, [0xc3]) /\
   (forall block, block = [0xb8; 0xe9; 0; 0; 0; 0xc3] ->
     exists v, decode (snd (chain_blocks true 0x1000 block 0 0x2000)) = Some (MovRI W32 0 v, [0]) /\ v <> 0xe9)) /\
  (exists d, decode (snd (chain_blocks true 0x1000 [0xe9; 0; 0; 0; 0; 0xc3] 0 0x20ee)) = Some (JmpRel d, [0]) /\
     0x1000 + 5 + d <> 0x20ee).
Proof.
  intros Hb Ht Hl. split; [|split; [|split]].
  - split; [|apply distance_reaches]. unfold chain_blocks. rewrite (proj2 (Z.eqb_neq _ _) Hb), (proj2 (Z.eqb_neq _ _) Ht). cbn [negb orb].
    f_equal. exact (chain_loop_segments x86_block target l [] Hl).
  - intros on base block pc t. unfold chain_blocks. destruct (_ || _); [done|]. apply length_chain_loop.
  - split; [reflexivity|]. intros block ->. eexists. split; [vm_compute; reflexivity|]. discriminate.
  - eexists. split; [vm_compute; reflexivity|]. discriminate.
Qed.

(** A jump and a conditional jump. *)
Lemma chain_blocks_retargets_witness :
  chain_blocks true 0x1000 [0x90; 0xe9; 4; 0; 0; 0; 0x0f; 0x84; 0; 0; 0; 0; 0xc3] 0 0x3000 =
    (0, [0x90; 0xe9; 0xfa; 0x1f; 0; 0; 0x0f; 0x84; 0xf4; 0x1f; 0; 0; 0xc3]).
Proof.
  destruct (chain_blocks_retargets 0x1000 0x3000 0 [Plain [0x90]; Jmp 4; Jcc 0x84 0; Plain [0xc3]]) as [[H _] _].
  - lia.
  - lia.
  - cbn [segments_ok segment_ok segment_bytes length]. unfold jump_ok.
    split_and!; try (vm_compute; discriminate); try lia; vm_compute le_bytes; repeat constructor; discriminate.
  - exact H.
Defined.

(** ** The inline cache *)

Inductive ic_op := IcLookup (a : Z) | IcInsert (a x86_entry : Z).
Definition ic_step (c : IndirectBranchCache) (o : ic_op) : IndirectBranchCache :=
  match o with
  | IcLookup a => snd (arm2x86_inline_cache_lookup a c)
  | IcInsert a x => arm2x86_inline_cache_insert a x c
  end.
Definition ic_run (l : list ic_op) : IndirectBranchCache := fold_left ic_step l arm2x86_inline_cache_init.

(** The reference: the last entry inserted for an address, and the number of lookups. *)
Definition ic_last (m : Z -> option Z) (o : ic_op) : Z -> option Z :=
  match o with
  | IcLookup _ => m
  | IcInsert a x => if x =? 0 then m else fun b => if b =? a then Some x else m b
  end.
Definition last_inserted (l : list ic_op) : Z -> option Z := fold_left ic_last l (fun _ => None).
Definition lookups (l : list ic_op) : Z := Z.of_nat (length (List.filter (fun o => match o with IcLookup _ => true | _ => false end) l)).

(** What is kept: an entry in use holds the last insertion of its address, and no entry
    before it, in use or not, has its address. *)
Record ic_ok (m : Z -> option Z) (c : IndirectBranchCache) : Prop := {
  ic_length : length (entries c) = 4%nat;
  ic_sound : forall i, (i < 4)%nat -> x86_target (entry c i) <> 0 -> m (arm_target (entry c i)) = Some (x86_target (entry c i));
  ic_first : forall i j, (i < j < 4)%nat -> x86_target (entry c j) <> 0 -> arm_target (entry c i) <> arm_target (entry c j) }.

Lemma entry_insert c i j e hits misses : (i < 4)%nat -> length (entries c) = 4%nat ->
  entry {| entries := <[i := e]> (entries c); total_hits := hits; total_misses := misses |} j = if Nat.eqb j i then e else entry c j.
Proof.
  intros Hi Hl. unfold entry. cbn [entries]. destruct (Nat.eqb_spec j i) as [->|H].
  - apply nth_lookup_Some. apply list_lookup_insert_eq. by rewrite Hl.
  - rewrite !nth_lookup. by rewrite list_lookup_insert_ne by congruence.
Qed.

Lemma ic_scan_spec n i lru a c : (lru < 4)%nat -> (i + n = 4)%nat ->
  match ic_scan n i lru a c with
  | inl k => (i <= k < 4)%nat /\ arm_target (entry c k) = a /\ forall j, (i <= j < k)%nat -> arm_target (entry c j) <> a
  | inr k => (k < 4)%nat /\ (forall j, (i <= j < 4)%nat -> arm_target (entry c j) <> a) /\
      ic_hit_count (entry c k) <= ic_hit_count (entry c lru) /\
      (forall j, (i <= j < 4)%nat -> ic_hit_count (entry c k) <= ic_hit_count (entry c j))
  end.
Proof.
  revert i lru. induction n as [|n IH]; intros i lru Hl Hn; cbn [ic_scan].
  - split_and!; [done|intros; lia|lia|intros; lia].
  - destruct (Z.eqb_spec (arm_target (entry c i)) a) as [E|E]; [split_and!; [lia|lia|done|intros; lia]|].
    set (lru' := if _ <? _ then i else lru).
    assert (L : (lru' < 4)%nat) by (subst lru'; destruct (_ <? _); lia).
    assert (M : ic_hit_count (entry c lru') <= ic_hit_count (entry c lru) /\ ic_hit_count (entry c lru') <= ic_hit_count (entry c i))
      by (subst lru'; destruct (Z.ltb_spec (ic_hit_count (entry c i)) (ic_hit_count (entry c lru))); lia).
    specialize (IH (S i) lru' L ltac:(lia)). destruct (ic_scan n (S i) lru' a c) as [k|k].
    + destruct IH as (H1 & H2 & H3). split_and!; [lia|lia|done|]. intros j Hj.
      destruct (Nat.eq_dec j i) as [->|]; [done|apply H3; lia].
    + destruct IH as (H1 & H2 & H3 & H4). split_and!; [done| |lia|].
      * intros j Hj. destruct (Nat.eq_dec j i) as [->|]; [done|apply H2; lia].
      * intros j Hj. destruct (Nat.eq_dec j i) as [->|]; [lia|apply H4; lia].
Qed.

(** The place an insertion takes: that of the address, or one with the fewest hits. *)
Lemma insert_place c a : exists i, (i < 4)%nat /\
  (match ic_scan INLINE_CACHE_SIZE 0 0 a c with inl i => i | inr i => i end) = i /\
  (forall j, (j < i)%nat -> arm_target (entry c j) <> a) /\
  (arm_target (entry c i) = a \/
   (forall j, (j < 4)%nat -> arm_target (entry c j) <> a) /\
   forall j, (j < 4)%nat -> ic_hit_count (entry c i) <= ic_hit_count (entry c j)).
Proof.
  pose proof (ic_scan_spec 4 0 0 a c ltac:(lia) eq_refl) as H. unfold INLINE_CACHE_SIZE.
  destruct (ic_scan 4 0 0 a c) as [i|i]; exists i.
  - destruct H as (H1 & H2 & H3). split_and!; [lia|done|intros; apply H3; lia|by left].
  - destruct H as (H1 & H2 & _ & H4). split_and!; [done|done|intros; apply H2; lia|].
    right. split; intros; [apply H2|apply H4]; lia.
Qed.

Lemma ic_insert_ok m c a x : ic_ok m c -> ic_ok (ic_last m (IcInsert a x)) (arm2x86_inline_cache_insert a x c).
Proof.
  intros Hc. unfold arm2x86_inline_cache_insert. cbn [ic_last]. destruct (Z.eqb_spec x 0) as [|Hx]; [done|]. cbv zeta.
  destruct (insert_place c a) as (i & Hi & -> & Hbefore & Hi'). pose proof (ic_length _ _ Hc) as L.
  assert (Hafter : forall j, (i < j < 4)%nat -> x86_target (entry c j) <> 0 -> arm_target (entry c j) <> a).
  { intros j Hj Hn. destruct Hi' as [<-|[H _]]; [|apply H; lia]. intros E. by apply (ic_first _ _ Hc i j). }
  split.
  - cbn. by rewrite length_insert.
  - intros j Hj. rewrite entry_insert by done. destruct (Nat.eqb_spec j i) as [->|H]; cbn [x86_target arm_target].
    + intros _. by rewrite Z.eqb_refl.
    + intros Hn. assert (Ha : arm_target (entry c j) <> a) by (destruct (Nat.lt_ge_cases j i); [by apply Hbefore|apply Hafter; lia || done]).
      rewrite (proj2 (Z.eqb_neq _ _) Ha). by apply (ic_sound _ _ Hc).
  - intros j k Hjk. rewrite !entry_insert by done.
    destruct (Nat.eqb_spec k i) as [->|Hk], (Nat.eqb_spec j i) as [->|Hj]; cbn [x86_target arm_target]; intros Hn.
    + lia.
    + apply Hbefore. lia.
    + intros E. apply (Hafter k); [lia|done|done].
    + by apply (ic_first _ _ Hc).
Qed.

Lemma ic_lookup_ok m c a : ic_ok m c -> ic_ok m (snd (arm2x86_inline_cache_lookup a c)).
Proof.
  intros Hc. unfold arm2x86_inline_cache_lookup. destruct (ic_find a c) as [i|] eqn:E; [|by destruct Hc].
  apply find_some in E as [Hin%in_seq _]. unfold INLINE_CACHE_SIZE in Hin. cbv zeta. cbn [snd].
  pose proof (ic_length _ _ Hc) as L. split.
  - cbn. by rewrite length_insert.
  - intros j Hj. rewrite entry_insert by (done || lia). destruct (Nat.eqb_spec j i) as [->|]; cbn [x86_target arm_target]; by apply (ic_sound _ _ Hc).
  - intros j k Hjk. rewrite !entry_insert by (done || lia).
    destruct (Nat.eqb_spec k i) as [->|Hk], (Nat.eqb_spec j i) as [->|Hj]; cbn [x86_target arm_target]; by apply (ic_first _ _ Hc).
Qed.

Lemma ic_run_ok l : ic_ok (last_inserted l) (ic_run l).
Proof.
  unfold last_inserted, ic_run. induction l as [|o l IH] using rev_ind.
  - split; [done|..]; cbn.
    + intros i Hi. do 4 (destruct i as [|i]; [done|]). lia.
    + intros i j Hj. do 4 (destruct j as [|j]; [done|]). lia.
  - rewrite !fold_left_app. cbn [fold_left]. destruct o as [a|a x]; [by apply ic_lookup_ok|by apply ic_insert_ok].
Qed.

Lemma ic_totals l : u32 (total_hits (ic_run l) + total_misses (ic_run l)) = u32 (lookups l).
Proof.
  unfold ic_run, lookups. induction l as [|o l IH] using rev_ind; [done|].
  rewrite fold_left_app, List.filter_app, length_app. cbn [fold_left]. set (c := fold_left _ _ _) in *.
  destruct o as [a|a x]; cbn [ic_step List.filter length].
  - unfold arm2x86_inline_cache_lookup. destruct (ic_find a c); cbn [snd total_hits total_misses].
    + unfold u32 in *. rewrite Zplus_mod_idemp_l. rewrite Nat2Z.inj_add, <- (Zplus_mod_idemp_l (Z.of_nat _)), <- IH, Zplus_mod_idemp_l. f_equal. lia.
    + unfold u32 in *. rewrite Zplus_mod_idemp_r. rewrite Nat2Z.inj_add, <- (Zplus_mod_idemp_l (Z.of_nat _)), <- IH, Zplus_mod_idemp_l. f_equal. lia.
  - rewrite Nat.add_0_r. unfold arm2x86_inline_cache_insert. by destruct (x =? 0).
Qed.

(** Looking up finds the entry in use with the address. *)
Lemma ic_find_unique m c i : ic_ok m c -> (i < 4)%nat -> x86_target (entry c i) <> 0 -> ic_find (arm_target (entry c i)) c = Some i.
Proof.
  intros Hc Hi Hn. unfold ic_find. destruct (List.find _ _) as [j|] eqn:E.
  - apply find_some in E as [Hin%in_seq E]. unfold INLINE_CACHE_SIZE in Hin. apply andb_true_iff in E as [Ea%Z.eqb_eq Ex].
    f_equal. destruct (Nat.lt_trichotomy j i) as [H|[H|H]]; [|done|].
    + exfalso. by apply (ic_first _ _ Hc j i).
    + exfalso. apply (ic_first _ _ Hc i j); [lia| |done]. unfold c_true in Ex. lia.
  - exfalso. pose proof (find_none _ _ E i ltac:(apply in_seq; unfold INLINE_CACHE_SIZE; lia)) as F. cbn in F.
    rewrite Z.eqb_refl in F. unfold c_true in F. rewrite (proj2 (Z.eqb_neq _ _) Hn) in F. discriminate.
Qed.

(** In every sequence of insertions and lookups, whatever a lookup answers is the last
    entry inserted for that address; an entry just inserted is found; and hits and misses
    add up to the lookups (modulo 2^32).  An insertion for a new address evicts an entry
    with the fewest hits: two entries inserted one after the other, the first without a hit
    in between, take the same place, and the first is lost although three places are free. *)
Theorem inline_cache_correct l a x :
  (forall y, fst (arm2x86_inline_cache_lookup a (ic_run l)) = Some y -> last_inserted l a = Some y) /\
  (x <> 0 -> fst (arm2x86_inline_cache_lookup a (ic_run (l ++ [IcInsert a x]))) = Some x) /\
  u32 (total_hits (ic_run l) + total_misses (ic_run l)) = u32 (lookups l) /\
  (forall b y, b <> 0 -> a <> 0 -> a <> b -> x <> 0 -> y <> 0 ->
     fst (arm2x86_inline_cache_lookup a (ic_run [IcInsert a x; IcInsert b y])) = None).
Proof.
  split; [|split; [|split]].
  - intros y. unfold arm2x86_inline_cache_lookup. destruct (ic_find a (ic_run l)) as [i|] eqn:E; [|discriminate].
    apply find_some in E as [Hin%in_seq E]. unfold INLINE_CACHE_SIZE in Hin. apply andb_true_iff in E as [Ea%Z.eqb_eq Ex].
    cbn [fst]. intros [= <-]. rewrite <- Ea. apply (ic_sound _ _ (ic_run_ok l)); [lia|]. unfold c_true in Ex. lia.
  - intros Hx. pose proof (ic_run_ok (l ++ [IcInsert a x])) as Hc. unfold ic_run in *. rewrite fold_left_app in *. cbn [fold_left ic_step] in *.
    set (c := fold_left ic_step l arm2x86_inline_cache_init) in *.
    assert (Lc : length (entries c) = 4%nat) by apply (ic_length _ _ (ic_run_ok l)).
    destruct (insert_place c a) as (i & Hi & Ei & _).
    assert (E : entry (arm2x86_inline_cache_insert a x c) i = {| arm_target := a; x86_target := x; ic_hit_count := 0 |}).
    { unfold arm2x86_inline_cache_insert. rewrite (proj2 (Z.eqb_neq x 0) Hx). cbv zeta. rewrite Ei, entry_insert by done.
      by rewrite Nat.eqb_refl. }
    pose proof (ic_find_unique _ _ i Hc Hi ltac:(by rewrite E)) as F. rewrite E in F. cbn [arm_target] in F.
    unfold arm2x86_inline_cache_lookup. rewrite F, E. reflexivity.
  - apply ic_totals.
  - intros b y Hb Ha Hab Hx Hy. unfold ic_run. cbn [fold_left ic_step].
    assert (E1 : arm2x86_inline_cache_insert a x arm2x86_inline_cache_init =
      {| entries := [{| arm_target := a; x86_target := x; ic_hit_count := 0 |}; empty_entry; empty_entry; empty_entry];
         total_hits := 0; total_misses := 0 |}).
    { unfold arm2x86_inline_cache_insert. rewrite (proj2 (Z.eqb_neq x 0) Hx). cbv zeta. unfold INLINE_CACHE_SIZE. cbn [ic_scan].
      unfold entry. cbn [arm2x86_inline_cache_init entries replicate nth empty_entry arm_target ic_hit_count INLINE_CACHE_SIZE].
      rewrite (proj2 (Z.eqb_neq 0 a)) by done. reflexivity. }
    rewrite E1. set (c1 := {| entries := _; total_hits := 0; total_misses := 0 |}).
    assert (E2 : arm2x86_inline_cache_insert b y c1 =
      {| entries := [{| arm_target := b; x86_target := y; ic_hit_count := 0 |}; empty_entry; empty_entry; empty_entry];
         total_hits := 0; total_misses := 0 |}).
    { unfold arm2x86_inline_cache_insert. rewrite (proj2 (Z.eqb_neq y 0) Hy). cbv zeta. unfold INLINE_CACHE_SIZE. cbn [ic_scan].
      subst c1. unfold entry. cbn [entries nth empty_entry arm_target ic_hit_count].
      rewrite (proj2 (Z.eqb_neq a b)), (proj2 (Z.eqb_neq 0 b)) by done. reflexivity. }
    rewrite E2. unfold arm2x86_inline_cache_lookup, ic_find, INLINE_CACHE_SIZE, entry.
    cbn [seq List.find entries nth arm_target x86_target empty_entry].
    rewrite (proj2 (Z.eqb_neq b a)), (proj2 (Z.eqb_neq 0 a)) by done. reflexivity.
Qed.

Lemma inline_cache_correct_witness :
  fst (arm2x86_inline_cache_lookup 0x1000 (ic_run [IcInsert 0x1000 0x7000; IcInsert 0x2000 0x7100])) = None /\
  fst (arm2x86_inline_cache_lookup 0x2000 (ic_run ([IcInsert 0x1000 0x7000] ++ [IcInsert 0x2000 0x7100]))) = Some 0x7100.
Proof.
  split.
  - destruct (inline_cache_correct [] 0x1000 0x7000) as (_ & _ & _ & H). apply H; discriminate.
  - destruct (inline_cache_correct [IcInsert 0x1000 0x7000] 0x2000 0x7100) as (_ & H & _). apply H. discriminate.
Defined.

(** ** What the AVX emitters encode *)

(** The instructions of the two-byte VEX prefix with these opcodes, by the prefix they imply
    (0 none, 1 66, 2 F3, 3 F2). *)
Definition vex_name (opcode pp : Z) : option string :=
  let pick l := nth (Z.to_nat pp) l None in
  (if (opcode =? 0x58)%Z then pick [Some "vaddps"; Some "vaddpd"; Some "vaddss"; Some "vaddsd"]
   else if (opcode =? 0x59)%Z then pick [Some "vmulps"; Some "vmulpd"; Some "vmulss"; Some "vmulsd"]
   else if (opcode =? 0x5c)%Z then pick [Some "vsubps"; Some "vsubpd"; Some "vsubss"; Some "vsubsd"]
   else if (opcode =? 0x6f)%Z then pick [None; Some "vmovdqa"; Some "vmovdqu"; None]
   else None)%string.

(** Name, 256 bits or 128, first source, destination and second source of C5 vex opcode
    modrm with registers. *)
Definition vex_decode (bs : list Z) : option (string * bool * Z * Z * Z) :=
  match bs with
  | [0xc5; vex; opcode; m] =>
    name ← vex_name opcode (vex &&& 3);
    if m <? 0xc0 then None
    else Some (name, Z.testbit vex 2, 15 - ((vex >>> 3) &&& 15), ((m >>> 3) &&& 7) + 8 * b2z (negb (Z.testbit vex 7)), m &&& 7)
  | _ => None
  end.

(** All pairs of registers. *)
Definition all_registers (f : Z -> Z -> bool) : bool := all_below 16 (fun d => all_below 16 (f d)).
Lemma all_registers_spec f d s : all_registers f = true -> 0 <= d < 16 -> 0 <= s < 16 -> f d s = true.
Proof.
  unfold all_registers. intros H Hd Hs. apply all_below_spec with (x := d) in H; [|lia].
  cbn beta in H. by apply all_below_spec with (x := s) in H; [|lia].
Qed.

Definition same_decoding (e : emitter unit) (r : option (string * bool * Z * Z * Z)) : bool :=
  bool_decide (vex_decode (snd (e [])) = r).

(** With AVX the emitter for VADDPD on 256 bits encodes the 128-bit VADDPS with
    register 2 as first source, that for VSUBPD the 128-bit VSUBPS, that for VMULSD the
    VMULSS with register 1 as first source, whatever the first source asked for, and that
    for VMOVDQU no instruction at all; registers from 8 on are taken modulo 8. *)
Theorem avx_encodings dest src src1 :
  0 <= dest < 16 -> 0 <= src < 16 ->
  vex_decode (snd (emit_vaddpd_avx true dest src [])) = Some ("vaddps"%string, false, 2, dest mod 8, src mod 8) /\
  vex_decode (snd (emit_vsubpd_avx true dest src [])) = Some ("vsubps"%string, false, 2, dest mod 8, src mod 8) /\
  vex_decode (snd (emit_vmulsd_avx true dest src1 src [])) = Some ("vmulss"%string, false, 1, dest mod 8, src mod 8) /\
  vex_decode (snd (emit_vmovdqu_avx true dest src [])) = None /\
  vex_decode [0xc5; 0xed; 0x58; 0xc0] = Some ("vaddpd"%string, true, 2, 0, 0).
Proof.
  intros Hd Hs.
  assert (F : forall (e : Z -> Z -> emitter unit) r,
    all_registers (fun d s => same_decoding (e d s) (r d s)) = true -> vex_decode (snd (e dest src [])) = r dest src).
  { intros e r H. pose proof (all_registers_spec _ dest src H Hd Hs) as E. by apply bool_decide_eq_true in E. }
  split; [|split; [|split; [|split]]].
  - apply (F (emit_vaddpd_avx true) (fun d s => Some ("vaddps"%string, false, 2, d mod 8, s mod 8))). vm_compute. reflexivity.
  - apply (F (emit_vsubpd_avx true) (fun d s => Some ("vsubps"%string, false, 2, d mod 8, s mod 8))). vm_compute. reflexivity.
  - apply (F (fun d s => emit_vmulsd_avx true d 0 s) (fun d s => Some ("vmulss"%string, false, 1, d mod 8, s mod 8))). vm_compute. reflexivity.
  - apply (F (emit_vmovdqu_avx true) (fun d s => None)). vm_compute. reflexivity.
  - vm_compute. reflexivity.
Qed.
Lemma avx_encodings_witness :
  vex_decode (snd (emit_vaddpd_avx true 9 3 [])) = Some ("vaddps"%string, false, 2, 1, 3).
Proof. apply (avx_encodings 9 3 0); lia. Defined.

(** ** The table of hot blocks *)

Definition record_all (hs : list Z) : list HotBlockInfo := fold_left (fun l pc => arm2x86_profile_record_hit pc l) hs [].
Definition occurrences (pc : Z) (hs : list Z) : Z := Z.of_nat (count_occ Z.eq_dec hs pc).
Definition count_of (pc : Z) (l : list HotBlockInfo) : Z :=
  match profile_find pc l with Some (_, b) => hb_hit_count b | None => 0 end.

Record profile_ok (hs : list Z) (l : list HotBlockInfo) : Prop := {
  po_distinct : base.NoDup (map hb_arm_pc l);
  po_bound : (length l <= 256)%nat;
  po_from : forall pc, In pc (map hb_arm_pc l) -> In pc hs;
  po_all : (length l < 256)%nat -> forall pc, In pc hs -> In pc (map hb_arm_pc l);
  po_fresh : Forall (fun b => hb_retranslated b = 0 /\ hb_flags b = 0) l }.

Lemma profile_find_spec pc l :
  match profile_find pc l with
  | Some (i, b) => l !! i = Some b /\ hb_arm_pc b = pc
  | None => ~ In pc (map hb_arm_pc l)
  end.
Proof.
  unfold profile_find. destruct (list_find _ l) as [[i b]|] eqn:E.
  - apply list_find_Some in E as (H1 & H2 & _). done.
  - intros (b & Hb & Hin%list_elem_of_In)%in_map_iff. apply list_find_None in E. rewrite Forall_forall in E. by apply (E b).
Qed.

Lemma profile_find_distinct l i b : base.NoDup (map hb_arm_pc l) -> l !! i = Some b -> profile_find (hb_arm_pc b) l = Some (i, b).
Proof.
  intros Hd Hi. pose proof (profile_find_spec (hb_arm_pc b) l) as H. destruct (profile_find _ l) as [[j b']|] eqn:E.
  - destruct H as [Hj Ha]. assert (i = j) as ->.
    { apply (proj1 (NoDup_alt _) Hd i j (hb_arm_pc b)); rewrite list_lookup_fmap.
      - by rewrite Hi.
      - rewrite Hj. cbn. by rewrite Ha. }
    by rewrite Hj in Hi; injection Hi as ->.
  - exfalso. apply H. apply in_map_iff. exists b. split; [done|]. apply list_elem_of_In. by eapply list_elem_of_lookup_2.
Qed.

Lemma count_occ_snoc pc h hs : occurrences pc (hs ++ [h]) = occurrences pc hs + (if Z.eq_dec h pc then 1 else 0).
Proof. unfold occurrences. rewrite count_occ_app. cbn [count_occ]. destruct (Z.eq_dec h pc); lia. Qed.

(** Every entry counts the occurrences of its address. *)
Lemma record_all_ok hs : profile_ok hs (record_all hs) /\
  Forall (fun b => hb_hit_count b = u32 (occurrences (hb_arm_pc b) hs)) (record_all hs).
Proof.
  induction hs as [|h hs IH] using rev_ind.
  - split; [split; cbn; try constructor; try lia; done|constructor].
  - unfold record_all in *. rewrite fold_left_app. cbn [fold_left]. set (l := fold_left _ hs []) in *.
    destruct IH as [[D B F A R] C]. unfold arm2x86_profile_record_hit. pose proof (profile_find_spec h l) as H.
    destruct (profile_find h l) as [[i b]|] eqn:E.
    + destruct H as [Hi Hb]. set (b' := {| hb_arm_pc := hb_arm_pc b; hb_hit_count := _; hb_retranslated := _; hb_flags := _ |}).
      assert (M : map hb_arm_pc (<[i:=b']> l) = map hb_arm_pc l).
      { change (hb_arm_pc <$> <[i:=b']> l = hb_arm_pc <$> l). rewrite list_fmap_insert. apply list_insert_id.
        rewrite list_lookup_fmap, Hi. done. }
      split; [split|].
      * by rewrite M.
      * by rewrite length_insert.
      * intros pc. rewrite M. intros Hp. apply in_or_app. left. by apply F.
      * rewrite length_insert, M. intros Hl pc [Hp|[<-|[]]]%in_app_or; [by apply A|].
        apply in_map_iff. exists b. split; [done|]. apply list_elem_of_In. by eapply list_elem_of_lookup_2.
      * apply Forall_insert; [exact R|]. cbn. exact (proj1 (Forall_lookup _ _) R i b Hi).
      * apply Forall_lookup. intros j x Hj. rewrite count_occ_snoc.
        destruct (Nat.eq_dec i j) as [<-|Hne].
        -- rewrite list_lookup_insert_eq in Hj by (by eapply lookup_lt_Some). injection Hj as <-. cbn [hb_hit_count hb_arm_pc b'].
           rewrite (proj1 (Forall_lookup _ _) C i b Hi), Hb. destruct (Z.eq_dec h h); [|done].
           unfold u32. by rewrite Zplus_mod_idemp_l.
        -- rewrite list_lookup_insert_ne in Hj by done. rewrite (proj1 (Forall_lookup _ _) C j x Hj).
           destruct (Z.eq_dec h (hb_arm_pc x)) as [Eh|]; [|by rewrite Z.add_0_r]. exfalso. apply Hne.
           apply (proj1 (NoDup_alt _) D i j h); rewrite list_lookup_fmap; [rewrite Hi|rewrite Hj]; cbn; congruence.
    + destruct (Nat.ltb_spec (length l) MAX_HOT_BLOCKS) as [Hl|Hl]; unfold MAX_HOT_BLOCKS in Hl.
      * set (b := {| hb_arm_pc := h; hb_hit_count := 1; hb_retranslated := 0; hb_flags := 0 |}).
        split; [split|].
        -- rewrite map_app. apply NoDup_app. split; [done|]. split; [|apply NoDup_singleton].
           intros x Hx. cbn. rewrite list_elem_of_singleton. intros ->. apply H. by apply list_elem_of_In.
        -- rewrite length_app. cbn. lia.
        -- intros pc. rewrite map_app. intros [Hp|Hp]%in_app_or; apply in_or_app; [left; by apply F|by right].
        -- intros _ pc. rewrite map_app. intros [Hp|Hp]%in_app_or; apply in_or_app; [left; by apply A|by right].
        -- apply Forall_app. split; [exact R|]. repeat constructor.
        -- apply Forall_app. split.
           ++ apply List.Forall_forall. intros x Hx. rewrite (proj1 (List.Forall_forall _ _) C x Hx), count_occ_snoc.
              destruct (Z.eq_dec h (hb_arm_pc x)) as [Eh|]; [|by rewrite Z.add_0_r]. exfalso. apply H. rewrite Eh. by apply in_map.
           ++ constructor; [|constructor]. cbn [hb_hit_count hb_arm_pc b]. rewrite count_occ_snoc. destruct (Z.eq_dec h h); [|done].
              assert (E0 : occurrences h hs = 0); [|by rewrite E0].
              unfold occurrences. rewrite (proj1 (count_occ_not_In Z.eq_dec hs h)); [done|].
              intros Hin. by apply H, A.
      * split; [split|].
        -- done.
        -- done.
        -- intros pc Hp. apply in_or_app. left. by apply F.
        -- lia.
        -- done.
        -- apply List.Forall_forall. intros x Hx. rewrite (proj1 (List.Forall_forall _ _) C x Hx), count_occ_snoc.
           destruct (Z.eq_dec h (hb_arm_pc x)) as [Eh|]; [|by rewrite Z.add_0_r]. exfalso. apply H. rewrite Eh. by apply in_map.
Qed.

(** After any sequence of executions the table has at most 256 entries with distinct
    addresses, one for each address executed as long as there is room, and each counts the
    executions of its address (modulo 2^32); a block is reported hot exactly when it is in the
    table with more than 100.  Marking it for retranslation stops the report, and that of
    no other block; an address first executed when the table is full never becomes hot. *)
Theorem profile_counts hs pc :
  let l := record_all hs in
  (base.NoDup (map hb_arm_pc l) /\ (length l <= 256)%nat /\ ((length l < 256)%nat -> forall a, In a hs -> In a (map hb_arm_pc l))) /\
  (In pc (map hb_arm_pc l) -> count_of pc l = u32 (occurrences pc hs)) /\
  (arm2x86_profile_check pc l = true <-> In pc (map hb_arm_pc l) /\ 100 < u32 (occurrences pc hs)) /\
  arm2x86_profile_check pc (arm2x86_retranslate_hot_block pc true l) = false /\
  (forall a, a <> pc -> arm2x86_profile_check a (arm2x86_retranslate_hot_block pc true l) = arm2x86_profile_check a l).
Proof.
  intros l. destruct (record_all_ok hs) as [[D B F A R] C]. fold l in D, B, F, A, R, C.
  split; [done|].
  assert (Hc : match profile_find pc l with
               | Some (i, b) => l !! i = Some b /\ hb_arm_pc b = pc /\ hb_hit_count b = u32 (occurrences pc hs) /\ hb_retranslated b = 0
                                /\ In pc (map hb_arm_pc l)
               | None => ~ In pc (map hb_arm_pc l) end).
  { pose proof (profile_find_spec pc l) as H. destruct (profile_find pc l) as [[i b]|]; [|done]. destruct H as [Hi Hb].
    split_and!; try done.
    - rewrite (proj1 (Forall_lookup _ _) C i b Hi). by rewrite Hb.
    - exact (proj1 (proj1 (Forall_lookup _ _) R i b Hi)).
    - apply in_map_iff. exists b. split; [done|]. apply list_elem_of_In. by eapply list_elem_of_lookup_2. }
  unfold count_of, arm2x86_profile_check at 1, ARM2X86_HOT_THRESHOLD.
  destruct (profile_find pc l) as [[i b]|] eqn:E.
  - destruct Hc as (Hi & Hb & Hn & Hr & Hin). rewrite Hn, Hr. split; [done|].
    split; [rewrite andb_true_r, Z.ltb_lt; split; [intros; by split|by intros [_ ?]]|].
    unfold arm2x86_retranslate_hot_block. cbn [negb]. destruct (list_find _ l) as [[j x]|] eqn:Ej.
    + apply list_find_Some in Ej as (Hj & (Hx & Hx2 & Hx3) & _).
      assert (j = i) as ->.
      { apply (proj1 (NoDup_alt _) D j i pc); rewrite list_lookup_fmap; [rewrite Hj|rewrite Hi]; cbn; congruence. }
      rewrite Hi in Hj. injection Hj as <-.
      set (b' := {| hb_arm_pc := hb_arm_pc b; hb_hit_count := _; hb_retranslated := 1; hb_flags := _ |}).
      assert (M : map hb_arm_pc (<[i:=b']> l) = map hb_arm_pc l).
      { change (hb_arm_pc <$> <[i:=b']> l = hb_arm_pc <$> l). rewrite list_fmap_insert. apply list_insert_id.
        rewrite list_lookup_fmap, Hi. done. }
      assert (D' : base.NoDup (map hb_arm_pc (<[i:=b']> l))) by (by rewrite M).
      split.
      * unfold arm2x86_profile_check. replace pc with (hb_arm_pc b') by exact Hb.
        rewrite (profile_find_distinct _ i b' D') by (apply list_lookup_insert_eq; by eapply lookup_lt_Some).
        cbn [hb_retranslated b']. apply andb_false_r.
      * intros a Ha. unfold arm2x86_profile_check. pose proof (profile_find_spec a l) as H.
        destruct (profile_find a l) as [[k y]|].
        -- destruct H as [Hk <-]. assert (k <> i) by (intros ->; congruence).
           rewrite (profile_find_distinct _ k y D') by (by rewrite list_lookup_insert_ne). done.
        -- pose proof (profile_find_spec a (<[i:=b']> l)) as H'. destruct (profile_find a (<[i:=b']> l)) as [[k y]|]; [|done].
           destruct H' as [Hk <-]. exfalso. apply H. rewrite <- M. apply in_map, list_elem_of_In. by eapply list_elem_of_lookup_2.
    + split; [|done]. unfold arm2x86_profile_check. rewrite E. apply list_find_None in Ej.
      pose proof (proj1 (Forall_lookup _ _) Ej i b Hi) as Hno. unfold ARM2X86_HOT_THRESHOLD in *.
      destruct (Z.ltb_spec 100 (hb_hit_count b)); [|done]. exfalso. by apply Hno.
  - split; [done|]. split; [split; [discriminate|intros [? _]; done]|].
    unfold arm2x86_retranslate_hot_block. cbn [negb]. destruct (list_find _ l) as [[j x]|] eqn:Ej.
    + exfalso. apply list_find_Some in Ej as (Hj & (Hx & _) & _). apply Hc. apply in_map_iff. exists x. split; [done|].
      apply list_elem_of_In. by eapply list_elem_of_lookup_2.
    + split; [|done]. unfold arm2x86_profile_check. by rewrite E.
Qed.
