(* ===== verification/Trace.v ===== *)
(** * Observation: [modules/arm2x86_trace.c], [modules/arm2x86_profiler.c], [modules/arm2x86_perf.c]

    The ring buffer of the execution trace, the events, statistics and timed regions of the
    profiler, and the performance counters.  What the clocks read is an argument; the files
    and reports are modelled as far as they say which entries are written in which order. *)
From S2P Require Import Prelude Decode64 Block64.
From Stdlib Require Import ZArith Lia ZifyBool Bool Permutation.
From stdpp Require Import base numbers list.
Open Scope Z_scope.
Open Scope c_scope.

(** ** The execution trace *)

Definition ARM2X86_TRACE_MAX_ENTRIES : nat := Z.to_nat 1000000.
Definition ARM2X86_TRACE_TRANSLATE := 1.
Definition ARM2X86_TRACE_EXECUTE := 2.

Record trace_entry := {
  te_timestamp : Z; te_event : Z; te_address : Z; te_translated : Z; te_size : Z; te_cpu_id : Z; te_extra : Z }.
Definition zero_trace_entry : trace_entry :=
  {| te_timestamp := 0; te_event := 0; te_address := 0; te_translated := 0; te_size := 0; te_cpu_id := 0; te_extra := 0 |}.

Record trace := {
  tr_entries : list trace_entry; tr_capacity : nat; tr_count : nat; tr_head : nat; tr_enabled : bool }.

(** The booleans say whether the two allocations succeed. *)
Definition arm2x86_trace_create (capacity : nat) (calloc_trace calloc_entries : bool) : option trace :=
  let capacity := if Nat.eqb capacity 0 then ARM2X86_TRACE_MAX_ENTRIES else capacity in
  if negb calloc_trace then None
  else if negb calloc_entries then None
  else Some {| tr_entries := replicate capacity zero_trace_entry; tr_capacity := capacity; tr_count := 0; tr_head := 0;
               tr_enabled := true |}.

Definition arm2x86_trace_enable (enabled : Z) (t : trace) : trace :=
  {| tr_entries := tr_entries t; tr_capacity := tr_capacity t; tr_count := tr_count t; tr_head := tr_head t;
     tr_enabled := c_true enabled |}.

Definition new_trace_entry (now event address translated size : Z) : trace_entry :=
  {| te_timestamp := now; te_event := event; te_address := address; te_translated := translated; te_size := size;
     te_cpu_id := 0; te_extra := 0 |}.

Definition arm2x86_trace_record (now event address translated size : Z) (t : trace) : trace :=
  if negb (tr_enabled t) then t
  else
    {| tr_entries := <[tr_head t := new_trace_entry now event address translated size]> (tr_entries t);
       tr_capacity := tr_capacity t;
       tr_count := if Nat.ltb (tr_count t) (tr_capacity t) then S (tr_count t) else tr_count t;
       tr_head := (tr_head t + 1) mod tr_capacity t; tr_enabled := tr_enabled t |}.

Definition arm2x86_trace_clear (t : trace) : trace :=
  {| tr_entries := replicate (tr_capacity t) zero_trace_entry; tr_capacity := tr_capacity t; tr_count := 0; tr_head := 0;
     tr_enabled := tr_enabled t |}.

(** The entries the two exports write and the statistics count, in their order. *)
Definition exported_entries (t : trace) : list trace_entry :=
  map (fun i => nth ((tr_head t + i) mod tr_capacity t) (tr_entries t) zero_trace_entry) (seq 0 (tr_count t)).

(** An entry in memory: [event] is followed by four bytes of padding, zero since [calloc]. *)
Definition trace_entry_bytes (e : trace_entry) : list Z :=
  le_bytes 8 (te_timestamp e) ++ le_bytes 4 (te_event e) ++ le_bytes 4 0 ++ le_bytes 8 (te_address e) ++
  le_bytes 8 (te_translated e) ++ le_bytes 4 (te_size e) ++ le_bytes 4 (te_cpu_id e) ++ le_bytes 8 (te_extra e).

(** The file, when it can be opened. *)
Definition arm2x86_trace_export_binary (t : trace) : list Z :=
  le_bytes 4 0x4A414E55 ++ le_bytes 4 1 ++ le_bytes 8 (Z.of_nat (tr_count t)) ++
  flat_map trace_entry_bytes (exported_entries t).

Definition count_events (event : Z) (l : list trace_entry) : nat :=
  length (List.filter (fun e => te_event e =? event) l).
(** All entries, translations, executions. *)
Definition arm2x86_trace_stats (t : trace) : nat * nat * nat :=
  (tr_count t, count_events ARM2X86_TRACE_TRANSLATE (exported_entries t),
   count_events ARM2X86_TRACE_EXECUTE (exported_entries t)).

(** ** The profiler: events and statistics *)

Definition PROFILER_MAX_ENTRIES : nat := Z.to_nat 65536.
Definition PROFILER_MAX_REGIONS : nat := 64.
Definition PROF_EVENT_TRANSLATE_START := 1.
Definition PROF_EVENT_TRANSLATE_END := 2.
Definition PROF_BLOCK_EXECUTION := 3.
Definition PROF_CACHE_HIT := 4.
Definition PROF_CACHE_MISS := 5.
Definition PROF_HOT_BLOCK_RETRANSLATE := 6.
Definition PROF_SIGNAL_HANDLER := 7.

Record prof_entry := { pe_type : Z; pe_arm_pc : Z; pe_timestamp_us : Z; pe_cycle_count : Z; pe_data : Z }.
Definition zero_prof_entry : prof_entry :=
  {| pe_type := 0; pe_arm_pc := 0; pe_timestamp_us := 0; pe_cycle_count := 0; pe_data := 0 |}.

Record prof_stats := {
  total_translate_time_us : Z; max_translate_time_us : Z; min_translate_time_us : Z; slowest_translate_pc : Z;
  translate_count : Z; total_blocks_executed : Z; total_instructions_executed : Z; cache_hits : Z; cache_misses : Z;
  hot_block_retranslations : Z; signal_handler_invocations : Z; current_translate_start : Z; current_translate_pc : Z }.
Definition zero_prof_stats : prof_stats := Build_prof_stats 0 0 0 0 0 0 0 0 0 0 0 0 0.

(** The switch of [arm2x86_profiler_record_event]. *)
Definition update_stats (e : prof_entry) (s : prof_stats) : prof_stats :=
  let 'Build_prof_stats total mx mn slow cnt blocks instrs hits misses hot sigs start pc := s in
  if pe_type e =? PROF_EVENT_TRANSLATE_START then
    Build_prof_stats total mx mn slow cnt blocks instrs hits misses hot sigs (pe_timestamp_us e) (pe_arm_pc e)
  else if pe_type e =? PROF_EVENT_TRANSLATE_END then
    if 0 <? start then
      let duration := u64 (pe_timestamp_us e - start) in
      Build_prof_stats (u64 (total + duration)) (if mx <? duration then duration else mx)
        (if (duration <? mn) || (mn =? 0) then duration else mn) (if mx <? duration then pc else slow)
        (u32 (cnt + 1)) blocks instrs hits misses hot sigs start pc
    else s
  else if pe_type e =? PROF_BLOCK_EXECUTION then
    Build_prof_stats total mx mn slow cnt (u64 (blocks + 1)) (if 0 <? pe_data e then u64 (instrs + pe_data e) else instrs)
      hits misses hot sigs start pc
  else if pe_type e =? PROF_CACHE_HIT then
    Build_prof_stats total mx mn slow cnt blocks instrs (u64 (hits + 1)) misses hot sigs start pc
  else if pe_type e =? PROF_CACHE_MISS then
    Build_prof_stats total mx mn slow cnt blocks instrs hits (u64 (misses + 1)) hot sigs start pc
  else if pe_type e =? PROF_HOT_BLOCK_RETRANSLATE then
    Build_prof_stats total mx mn slow cnt blocks instrs hits misses (u64 (hot + 1)) sigs start pc
  else if pe_type e =? PROF_SIGNAL_HANDLER then
    Build_prof_stats total mx mn slow cnt blocks instrs hits misses hot (u64 (sigs + 1)) start pc
  else s.

(** A name is its characters before the terminator. *)
Record prof_region := {
  pr_name : list Z; pr_start_time_us : Z; pr_start_cycles : Z; pr_total_time_us : Z; pr_total_cycles : Z;
  pr_max_time_us : Z; pr_call_count : Z; pr_active : bool }.

(** The regions below [region_count]. *)
Record profiler := {
  pf_entries : list prof_entry; pf_max_entries : nat; pf_count : nat; pf_start_idx : nat; pf_total_events : Z;
  pf_start_time : Z; pf_stats : prof_stats; pf_regions : list prof_region }.

Definition arm2x86_profiler_init (now : Z) (calloc_ok : bool) : option profiler :=
  if negb calloc_ok then None
  else Some {| pf_entries := replicate PROFILER_MAX_ENTRIES zero_prof_entry; pf_max_entries := PROFILER_MAX_ENTRIES;
               pf_count := 0; pf_start_idx := 0; pf_total_events := 0; pf_start_time := now;
               pf_stats := zero_prof_stats; pf_regions := [] |}.

Definition arm2x86_profiler_record_event (type arm_pc data now cycles : Z) (p : profiler) : profiler :=
  let full := Nat.leb (pf_max_entries p) (pf_count p) in
  let start_idx := if full then ((pf_start_idx p + 1) mod pf_max_entries p)%nat else pf_start_idx p in
  let count := if full then (pf_count p - 1)%nat else pf_count p in
  let idx := ((start_idx + count) mod pf_max_entries p)%nat in
  let e := {| pe_type := type; pe_arm_pc := arm_pc; pe_timestamp_us := now; pe_cycle_count := cycles; pe_data := data |} in
  {| pf_entries := <[idx := e]> (pf_entries p); pf_max_entries := pf_max_entries p; pf_count := S count;
     pf_start_idx := start_idx; pf_total_events := u32 (pf_total_events p + 1); pf_start_time := pf_start_time p;
     pf_stats := update_stats e (pf_stats p); pf_regions := pf_regions p |}.

(** The clock is read twice. *)
Definition arm2x86_profiler_record_translation (arm_pc x86_pc arm_size x86_size now1 cycles1 now2 cycles2 : Z) (p : profiler) : profiler :=
  let p := arm2x86_profiler_record_event PROF_EVENT_TRANSLATE_START arm_pc 0 now1 cycles1 p in
  let packed_data := (x86_pc &&& 0xFFFFFFFF) ||| u64 ((arm_size &&& 0xFFFF) <<< 32) ||| u64 ((x86_size &&& 0xFFFF) <<< 48) in
  arm2x86_profiler_record_event PROF_EVENT_TRANSLATE_END arm_pc packed_data now2 cycles2 p.

(** The entries of the JSON file, in order. *)
Definition profiler_exported (p : profiler) : list prof_entry :=
  let n := if Nat.ltb (pf_count p) PROFILER_MAX_ENTRIES then pf_count p else PROFILER_MAX_ENTRIES in
  map (fun i => nth ((pf_start_idx p + i) mod pf_max_entries p) (pf_entries p) zero_prof_entry) (seq 0 n).

(** *** The report of the most executed blocks *)

(** The index of the largest [data] from [j] on. *)
Fixpoint max_from (n j best : nat) (l : list prof_entry) : nat :=
  match n with
  | O => best
  | S n => max_from n (S j) (if pe_data (nth best l zero_prof_entry) <? pe_data (nth j l zero_prof_entry) then j else best) l
  end.
Definition swap_entries (i j : nat) (l : list prof_entry) : list prof_entry :=
  <[j := nth i l zero_prof_entry]> (<[i := nth j l zero_prof_entry]> l).
Fixpoint selection_sort (n i : nat) (l : list prof_entry) : list prof_entry :=
  match n with
  | O => l
  | S n =>
    let max_idx := max_from (length l - (i + 1)) (i + 1) i l in
    selection_sort n (S i) (if Nat.eqb max_idx i then l else swap_entries i max_idx l)
  end.

(** The entries printed. *)
Definition top_blocks (count : nat) (p : profiler) : list prof_entry :=
  let n := if Nat.ltb (pf_count p) PROFILER_MAX_ENTRIES then pf_count p else PROFILER_MAX_ENTRIES in
  let count_top := if Nat.ltb count n then count else n in
  let sorted := take count_top (pf_entries p) in
  List.filter (fun e => pe_type e =? PROF_BLOCK_EXECUTION) (selection_sort count_top 0 sorted).

(** *** Regions *)

(** [strcmp(...) == 0] on the stored name: at most 63 characters of a name are stored. *)
Definition find_region (name : list Z) (active_only : bool) (l : list prof_region) : option (nat * prof_region) :=
  list_find (fun r => pr_name r = name /\ (active_only = true -> pr_active r = true)) l.

Definition new_region (name : list Z) : prof_region :=
  {| pr_name := take 63 name; pr_start_time_us := 0; pr_start_cycles := 0; pr_total_time_us := 0; pr_total_cycles := 0;
     pr_max_time_us := 0; pr_call_count := 0; pr_active := false |}.
Definition started (now cycles : Z) (r : prof_region) : prof_region :=
  {| pr_name := pr_name r; pr_start_time_us := now; pr_start_cycles := cycles; pr_total_time_us := pr_total_time_us r;
     pr_total_cycles := pr_total_cycles r; pr_max_time_us := pr_max_time_us r; pr_call_count := pr_call_count r;
     pr_active := true |}.

Definition arm2x86_profiler_start_region (name : list Z) (now cycles : Z) (l : list prof_region) : Z * list prof_region :=
  match find_region name false l with
  | Some (i, r) => (Z.of_nat i, <[i := started now cycles r]> l)
  | None =>
    if Nat.ltb (length l) PROFILER_MAX_REGIONS
    then (Z.of_nat (length l), l ++ [started now cycles (new_region name)])
    else (-1, l)
  end.

Definition arm2x86_profiler_end_region (name : list Z) (now cycles : Z) (l : list prof_region) : Z * list prof_region :=
  match find_region name true l with
  | Some (i, r) =>
    let duration_us := u64 (now - pr_start_time_us r) in
    let duration_cycles := u64 (cycles - pr_start_cycles r) in
    (0, <[i := {| pr_name := pr_name r; pr_start_time_us := pr_start_time_us r; pr_start_cycles := pr_start_cycles r;
                  pr_total_time_us := u64 (pr_total_time_us r + duration_us);
                  pr_total_cycles := u64 (pr_total_cycles r + duration_cycles);
                  pr_max_time_us := if pr_max_time_us r <? duration_us then duration_us else pr_max_time_us r;
                  pr_call_count := u32 (pr_call_count r + 1); pr_active := false |}]> l)
  | None => (-1, l)
  end.

(** ** The performance counters *)

Record perf_stats := {
  total_translations : Z; total_instructions : Z; arm_bytes_translated : Z; x86_bytes_generated : Z;
  total_executions : Z; cached_executions : Z; uncached_executions : Z;
  instr_count_data_proc : Z; instr_count_load_store : Z; instr_count_branch : Z; instr_count_neon : Z;
  instr_count_system : Z; instr_count_unknown : Z;
  total_decode_time_ns : Z; total_translate_time_ns : Z; total_emit_time_ns : Z;
  total_blocks : Z; hot_blocks : Z; cold_blocks : Z; max_block_size : Z; avg_block_size : Z;
  total_memory_allocated : Z; current_memory_used : Z; peak_memory_used : Z;
  perf_start_time : Z; last_reset : Z }.
Definition perf_zero (now : Z) : perf_stats := Build_perf_stats 0 0 0 0 0 0 0 0 0 0 0 0 0 0 0 0 0 0 0 0 0 0 0 0 now now.

(** [None] before the initialisation. *)
Definition arm2x86_perf_init (now : Z) (s : option perf_stats) : perf_stats :=
  match s with Some s => s | None => perf_zero now end.

(** What was translated is kept. *)
Definition arm2x86_perf_reset (now : Z) (s : option perf_stats) : perf_stats :=
  match s with
  | None => arm2x86_perf_init now None
  | Some s => Build_perf_stats (total_translations s) (total_instructions s) (arm_bytes_translated s) (x86_bytes_generated s)
                0 0 0 0 0 0 0 0 0 0 0 0 0 0 0 0 0 0 0 0 now now
  end.

Definition arm2x86_perf_record_translation (arm_bytes x86_bytes decode_time translate_time emit_time now : Z)
    (s : option perf_stats) : perf_stats :=
  let s := arm2x86_perf_init now s in
  Build_perf_stats (u64 (total_translations s + 1)) (total_instructions s) (u64 (arm_bytes_translated s + arm_bytes))
    (u64 (x86_bytes_generated s + x86_bytes)) (total_executions s) (cached_executions s) (uncached_executions s)
    (instr_count_data_proc s) (instr_count_load_store s) (instr_count_branch s) (instr_count_neon s)
    (instr_count_system s) (instr_count_unknown s)
    (u64 (total_decode_time_ns s + decode_time)) (u64 (total_translate_time_ns s + translate_time))
    (u64 (total_emit_time_ns s + emit_time)) (total_blocks s) (hot_blocks s) (cold_blocks s)
    (if max_block_size s <? x86_bytes then x86_bytes else max_block_size s) (avg_block_size s)
    (total_memory_allocated s) (current_memory_used s) (peak_memory_used s) (perf_start_time s) (last_reset s).

Definition INSTR_HVC := 113.
Inductive instr_class := DataProc | LoadStore | Branch | NeonClass | System | Unknown.
Definition one_of (t : Z) (l : list Z) : bool := existsb (Z.eqb t) l.
(** The switch of [arm2x86_perf_record_execution]. *)
Definition class_of (instr_type : Z) : instr_class :=
  if one_of instr_type [INSTR_ADD; INSTR_SUB; INSTR_AND; INSTR_ORR; INSTR_EOR; INSTR_MOV] then DataProc
  else if one_of instr_type [INSTR_LDR; INSTR_STR; INSTR_LDP; INSTR_STP] then LoadStore
  else if one_of instr_type [INSTR_B; INSTR_BL; INSTR_BR; INSTR_BLR; INSTR_RET; INSTR_B_COND; INSTR_CBZ; INSTR_CBNZ] then Branch
  else if one_of instr_type [INSTR_FMOV_REG; INSTR_FMOV_IMM; INSTR_FADD; INSTR_FSUB; INSTR_FMUL; INSTR_NEON_ADD; INSTR_NEON_SUB]
    then NeonClass
  else if one_of instr_type [INSTR_MRS; INSTR_MSR; INSTR_SVC; INSTR_HVC] then System
  else Unknown.
Definition bump (b : bool) (v : Z) : Z := if b then u64 (v + 1) else v.

Definition arm2x86_perf_record_execution (cached : bool) (instr_type now : Z) (s : option perf_stats) : perf_stats :=
  let s := arm2x86_perf_init now s in
  let counts c := match class_of instr_type, c with
              | DataProc, DataProc | LoadStore, LoadStore | Branch, Branch | NeonClass, NeonClass | System, System
              | Unknown, Unknown => true | _, _ => false end in
  Build_perf_stats (total_translations s) (total_instructions s) (arm_bytes_translated s) (x86_bytes_generated s)
    (u64 (total_executions s + 1)) (bump cached (cached_executions s)) (bump (negb cached) (uncached_executions s))
    (bump (counts DataProc) (instr_count_data_proc s)) (bump (counts LoadStore) (instr_count_load_store s))
    (bump (counts Branch) (instr_count_branch s)) (bump (counts NeonClass) (instr_count_neon s))
    (bump (counts System) (instr_count_system s)) (bump (counts Unknown) (instr_count_unknown s))
    (total_decode_time_ns s) (total_translate_time_ns s) (total_emit_time_ns s) (total_blocks s) (hot_blocks s)
    (cold_blocks s) (max_block_size s) (avg_block_size s) (total_memory_allocated s) (current_memory_used s)
    (peak_memory_used s) (perf_start_time s) (last_reset s).

Definition arm2x86_perf_record_memory (allocated current peak now : Z) (s : option perf_stats) : perf_stats :=
  let s := arm2x86_perf_init now s in
  Build_perf_stats (total_translations s) (total_instructions s) (arm_bytes_translated s) (x86_bytes_generated s)
    (total_executions s) (cached_executions s) (uncached_executions s) (instr_count_data_proc s) (instr_count_load_store s)
    (instr_count_branch s) (instr_count_neon s) (instr_count_system s) (instr_count_unknown s) (total_decode_time_ns s)
    (total_translate_time_ns s) (total_emit_time_ns s) (total_blocks s) (hot_blocks s) (cold_blocks s) (max_block_size s)
    (avg_block_size s) (u64 (total_memory_allocated s + allocated)) current
    (if peak_memory_used s <? peak then peak else peak_memory_used s) (perf_start_time s) (last_reset s).

Definition arm2x86_perf_record_block (is_hot : bool) (now : Z) (s : option perf_stats) : perf_stats :=
  let s := arm2x86_perf_init now s in
  Build_perf_stats (total_translations s) (total_instructions s) (arm_bytes_translated s) (x86_bytes_generated s)
    (total_executions s) (cached_executions s) (uncached_executions s) (instr_count_data_proc s) (instr_count_load_store s)
    (instr_count_branch s) (instr_count_neon s) (instr_count_system s) (instr_count_unknown s) (total_decode_time_ns s)
    (total_translate_time_ns s) (total_emit_time_ns s) (u64 (total_blocks s + 1)) (bump is_hot (hot_blocks s))
    (bump (negb is_hot) (cold_blocks s)) (max_block_size s) (avg_block_size s) (total_memory_allocated s)
    (current_memory_used s) (peak_memory_used s) (perf_start_time s) (last_reset s).

(** ** A ring of slots *)

(** After the items of [log] were written to the slots one after the other, around the ring,
    a slot holds the last item written to it, or what it held at the start. *)
Definition slots_ok {A} (zero : A) (cap : nat) (log slots : list A) : Prop :=
  length slots = cap /\
  (forall j, (j < length log)%nat -> (length log <= j + cap)%nat -> nth (j mod cap) slots zero = nth j log zero) /\
  (forall k, (length log <= k < cap)%nat -> nth k slots zero = zero).

Lemma slots_start {A} (zero : A) cap : slots_ok zero cap [] (replicate cap zero).
Proof.
  split; [apply length_replicate|]. split; [cbn; lia|]. intros k Hk. rewrite nth_lookup, lookup_replicate_2 by lia. done.
Qed.

Lemma slots_write {A} (zero : A) cap log slots x : (0 < cap)%nat -> slots_ok zero cap log slots ->
  slots_ok zero cap (log ++ [x]) (<[(length log mod cap)%nat := x]> slots).
Proof.
  intros Hc (L & W & Z0). pose proof (Nat.mod_upper_bound (length log) cap ltac:(lia)) as Hm.
  split; [by rewrite length_insert|]. rewrite length_app. cbn [length]. split.
  - intros j Hj Hj2. destruct (Nat.eq_dec j (length log)) as [->|Hne].
    + rewrite nth_insert, decide_True by (done || lia). by rewrite app_nth2, Nat.sub_diag by lia.
    + rewrite app_nth1 by lia. rewrite nth_insert by lia. rewrite decide_False.
      * apply W; lia.
      * intros E. assert (D : (length log - j < cap)%nat) by lia.
        rewrite (Nat.div_mod_eq (length log) cap), (Nat.div_mod_eq j cap) in D.
        assert (Hq : (length log / cap = j / cap \/ length log / cap >= S (j / cap))%nat).
        { pose proof (Nat.Div0.div_le_mono j (length log) cap ltac:(lia)). lia. }
        pose proof (Nat.div_mod_eq (length log) cap). pose proof (Nat.div_mod_eq j cap). nia.
  - intros k Hk. rewrite nth_insert by lia. rewrite decide_False by (rewrite Nat.mod_small by lia; lia). apply Z0. lia.
Qed.

(** Reading the ring from the place written next. *)
Lemma ring_full {A} (zero : A) cap log slots : (0 < cap)%nat -> slots_ok zero cap log slots -> (cap <= length log)%nat ->
  map (fun i => nth ((length log + i) mod cap)%nat slots zero) (seq 0 cap) = drop (length log - cap) log.
Proof.
  intros Hc (L & W & _) Hf. apply (nth_ext _ _ zero zero).
  - rewrite length_map, length_seq, length_drop. lia.
  - intros i Hi. rewrite length_map, length_seq in Hi.
    rewrite (nth_indep _ zero (nth ((length log + 0) mod cap)%nat slots zero)) by (by rewrite length_map, length_seq).
    rewrite (map_nth (fun i => nth ((length log + i) mod cap)%nat slots zero)), seq_nth by done. cbn [Nat.add].
    rewrite nth_skipn.
    replace ((length log + i) mod cap)%nat with ((length log - cap + i) mod cap)%nat.
    + apply W; lia.
    + replace (length log + i)%nat with (length log - cap + i + 1 * cap)%nat by lia. symmetry. apply Nat.Div0.mod_add.
Qed.

(** ** The execution trace *)

Inductive trace_op := TRecord (now event address translated size : Z) | TEnable (enabled : Z) | TClear.
Definition trace_step (t : trace) (o : trace_op) : trace :=
  match o with
  | TRecord now event address translated size => arm2x86_trace_record now event address translated size t
  | TEnable e => arm2x86_trace_enable e t
  | TClear => arm2x86_trace_clear t
  end.

(** The reference: whether recording is on, and the entries recorded since the last clear. *)
Definition log_step (s : bool * list trace_entry) (o : trace_op) : bool * list trace_entry :=
  match o with
  | TRecord now event address translated size =>
    if fst s then (true, snd s ++ [new_trace_entry now event address translated size]) else s
  | TEnable e => (c_true e, snd s)
  | TClear => (fst s, [])
  end.
Definition trace_run (t : trace) (ops : list trace_op) : trace := fold_left trace_step ops t.
Definition trace_log (ops : list trace_op) : list trace_entry := snd (fold_left log_step ops (true, [])).

Definition trace_ok (cap : nat) (s : bool * list trace_entry) (t : trace) : Prop :=
  tr_capacity t = cap /\ slots_ok zero_trace_entry cap (snd s) (tr_entries t) /\
  tr_count t = Nat.min (length (snd s)) cap /\ tr_head t = (length (snd s) mod cap)%nat /\ tr_enabled t = fst s.

Lemma trace_step_ok cap s t o : (0 < cap)%nat -> trace_ok cap s t -> trace_ok cap (log_step s o) (trace_step t o).
Proof.
  intros Hc (Hcap & Hs & Hn & Hh & He). destruct o as [now ev a tr sz|e|]; cbn [trace_step log_step].
  - unfold arm2x86_trace_record. rewrite He. destruct (fst s) eqn:Ef; cbn [negb]; [|split_and!; done || congruence].
    split_and!; cbn [tr_capacity tr_entries tr_count tr_head tr_enabled fst snd]; try done.
    + rewrite Hh. by apply slots_write.
    + rewrite length_app, Hn, Hcap. cbn [length]. destruct (Nat.ltb_spec (Nat.min (length (snd s)) cap) cap); lia.
    + rewrite length_app, Hh, Hcap. cbn [length]. by rewrite Nat.Div0.add_mod_idemp_l.
  - split_and!; done.
  - unfold arm2x86_trace_clear. split_and!; cbn [tr_capacity tr_entries tr_count tr_head tr_enabled fst snd]; try done.
    + rewrite Hcap. apply slots_start.
    + symmetry. by apply Nat.Div0.mod_0_l.
Qed.

Lemma trace_run_ok cap ops t : (0 < cap)%nat -> arm2x86_trace_create cap true true = Some t ->
  trace_ok cap (fold_left log_step ops (true, [])) (trace_run t ops).
Proof.
  intros Hc E. unfold arm2x86_trace_create in E. rewrite (proj2 (Nat.eqb_neq cap 0)) in E by lia. cbn [negb] in E.
  injection E as <-. unfold trace_run.
  assert (G : forall l s t, trace_ok cap s t -> trace_ok cap (fold_left log_step l s) (fold_left trace_step l t)).
  { induction l as [|o l IH]; intros s t H; [done|]. cbn [fold_left]. apply IH. by apply trace_step_ok. }
  apply G. split_and!; cbn [tr_capacity tr_entries tr_count tr_head tr_enabled fst snd]; try done.
  - apply slots_start.
  - symmetry. by apply Nat.Div0.mod_0_l.
Qed.

Lemma all_zero_count event n : event <> 0 -> count_events event (repeat zero_trace_entry n) = 0%nat.
Proof.
  intros H. unfold count_events. induction n as [|n IH]; [done|]. cbn [repeat List.filter].
  cbn [te_event zero_trace_entry]. rewrite (proj2 (Z.eqb_neq 0 event)) by congruence. exact IH.
Qed.

(** C40: After any sequence of operations the buffer holds the last entries recorded since it
    was cleared.  Once it has been filled, the exports write and the statistics count
    exactly these, the oldest first.  Before that they start at the place written next as
    well, which nothing was written to: an exported entry is zero, until the ring is
    gone around and the first entries come; as long as the buffer is at most half full
    every exported entry is zero, and the statistics know of no translation or execution. *)
Theorem trace_export cap ops t0 :
  (0 < cap)%nat -> arm2x86_trace_create cap true true = Some t0 ->
  let t := trace_run t0 ops in
  let log := trace_log ops in
  let n := length log in
  length (exported_entries t) = Nat.min n cap /\
  ((cap <= n)%nat -> exported_entries t = drop (n - cap) log /\
     arm2x86_trace_stats t = (cap, count_events ARM2X86_TRACE_TRANSLATE (drop (n - cap) log),
                                   count_events ARM2X86_TRACE_EXECUTE (drop (n - cap) log))) /\
  ((n < cap)%nat -> forall i, (i < n)%nat -> nth i (exported_entries t) zero_trace_entry =
     if (n + i <? cap)%nat then zero_trace_entry else nth (n + i - cap) log zero_trace_entry) /\
  ((n + n <= cap)%nat -> arm2x86_trace_stats t = (n, 0%nat, 0%nat)).
Proof.
  intros Hc E0 t log n. destruct (trace_run_ok cap ops t0 Hc E0) as (Hcap & Hs & Hn & Hh & _). fold t in Hcap, Hs, Hn, Hh.
  fold (trace_log ops) in Hs, Hn, Hh. fold log in Hs, Hn, Hh. fold n in Hn, Hh.
  assert (Ex : exported_entries t =
    map (fun i => nth ((n + i) mod cap)%nat (tr_entries t) zero_trace_entry) (seq 0 (Nat.min n cap))).
  { unfold exported_entries. rewrite Hn, Hh, Hcap. apply map_ext. intros i. by rewrite Nat.Div0.add_mod_idemp_l. }
  assert (Lt : forall i, (n < cap)%nat -> (i < n)%nat -> nth i (exported_entries t) zero_trace_entry =
     if (n + i <? cap)%nat then zero_trace_entry else nth (n + i - cap) log zero_trace_entry).
  { intros i Hlt Hi. rewrite Ex.
    rewrite (nth_indep _ zero_trace_entry (nth ((n + 0) mod cap)%nat (tr_entries t) zero_trace_entry))
      by (rewrite length_map, length_seq; lia).
    rewrite (map_nth (fun i => nth ((n + i) mod cap)%nat (tr_entries t) zero_trace_entry)), seq_nth by lia. cbn [Nat.add].
    destruct Hs as (_ & W & Zk). destruct (Nat.ltb_spec (n + i) cap).
    - rewrite Nat.mod_small by lia. apply Zk. fold n. lia.
    - replace ((n + i) mod cap)%nat with ((n + i - cap) mod cap)%nat.
      + apply W; fold n; lia.
      + replace (n + i)%nat with (n + i - cap + 1 * cap)%nat at 2 by lia. symmetry. apply Nat.Div0.mod_add. }
  split; [rewrite Ex, length_map, length_seq; done|]. split; [|split; [intros Hlt i; by apply Lt|]].
  - intros Hf. assert (Ed : exported_entries t = drop (n - cap) log).
    { rewrite Ex, Nat.min_r by lia. by apply ring_full. }
    split; [exact Ed|]. unfold arm2x86_trace_stats. rewrite Ed, Hn, Nat.min_r by lia. done.
  - intros Hh2. assert (Ez : exported_entries t = repeat zero_trace_entry n).
    { assert (Hl : length (exported_entries t) = n) by (rewrite Ex, length_map, length_seq; lia).
      apply (nth_ext _ _ zero_trace_entry zero_trace_entry); rewrite Hl; [by rewrite repeat_length|].
      intros i Hi. rewrite Lt by lia. rewrite (proj2 (Nat.ltb_lt _ _)) by lia. by rewrite nth_repeat. }
    unfold arm2x86_trace_stats. rewrite Ez, !all_zero_count by discriminate. f_equal. f_equal. lia.
Qed.

Lemma trace_export_witness :
  let ops := [TRecord 1 ARM2X86_TRACE_TRANSLATE 0x1000 0x7000 16; TRecord 2 ARM2X86_TRACE_EXECUTE 0x1000 0x7000 0] in
  option_map (fun t => arm2x86_trace_stats (trace_run t ops)) (arm2x86_trace_create 8 true true) = Some (2%nat, 0%nat, 0%nat) /\
  option_map (fun t => arm2x86_trace_stats (trace_run t ops)) (arm2x86_trace_create 2 true true) = Some (2%nat, 1%nat, 1%nat).
Proof.
  intros ops. split.
  - destruct (arm2x86_trace_create 8 true true) as [t|] eqn:E; [|discriminate]. cbn [option_map]. f_equal.
    apply (trace_export 8 ops t ltac:(lia) E). vm_compute. lia.
  - destruct (arm2x86_trace_create 2 true true) as [t|] eqn:E; [|discriminate]. cbn [option_map]. f_equal.
    destruct (trace_export 2 ops t ltac:(lia) E) as (_ & H & _). rewrite (proj2 (H ltac:(vm_compute; lia))). reflexivity.
Defined.

(** ** The events of the profiler *)

(** An event with what the clocks read. *)
Definition record_event (p : profiler) (e : prof_entry) : profiler :=
  arm2x86_profiler_record_event (pe_type e) (pe_arm_pc e) (pe_data e) (pe_timestamp_us e) (pe_cycle_count e) p.
Definition record_events (p : profiler) (l : list prof_entry) : profiler := fold_left record_event l p.

Definition count_type (type : Z) (l : list prof_entry) : Z := Z.of_nat (length (List.filter (fun e => pe_type e =? type) l)).
(** The instructions of the executed blocks. *)
Definition instructions_of (l : list prof_entry) : Z :=
  fold_left (fun n e => if (pe_type e =? PROF_BLOCK_EXECUTION) && (0 <? pe_data e) then n + pe_data e else n) l 0.

Definition prof_ok (cap : nat) (log : list prof_entry) (p : profiler) : Prop :=
  pf_max_entries p = cap /\ slots_ok zero_prof_entry cap log (pf_entries p) /\ pf_count p = Nat.min (length log) cap /\
  pf_start_idx p = (if (length log <? cap)%nat then 0 else length log mod cap)%nat.

Lemma record_event_ok cap log p e : (0 < cap)%nat -> prof_ok cap log p -> prof_ok cap (log ++ [e]) (record_event p e).
Proof.
  intros Hc (Hcap & Hs & Hn & Hi). unfold record_event, arm2x86_profiler_record_event. cbv zeta.
  unfold prof_ok. cbn [pf_max_entries pf_entries pf_count pf_start_idx].
  pose proof (Nat.mod_upper_bound (length log) cap ltac:(lia)) as Hm.
  assert (Ee : {| pe_type := pe_type e; pe_arm_pc := pe_arm_pc e; pe_timestamp_us := pe_timestamp_us e;
    pe_cycle_count := pe_cycle_count e; pe_data := pe_data e |} = e) by (by destruct e).
  rewrite Ee, Hcap, Hn, Hi, length_app. cbn [length].
  destruct (Nat.leb_spec cap (Nat.min (length log) cap)) as [Hf|Hf]; destruct (Nat.ltb_spec (length log) cap) as [Hl|Hl]; try lia.
  - assert (Ei : (((length log mod cap + 1) mod cap + (Nat.min (length log) cap - 1)) mod cap = length log mod cap)%nat).
    { rewrite Nat.Div0.add_mod_idemp_l, <- Nat.add_assoc. replace (1 + (Nat.min (length log) cap - 1))%nat with (1 * cap)%nat by lia.
      rewrite Nat.Div0.mod_add. by apply Nat.Div0.mod_mod. }
    rewrite Ei. split_and!; [done|by apply slots_write|lia|].
    destruct (Nat.ltb_spec (length log + 1) cap); [lia|]. apply Nat.Div0.add_mod_idemp_l.
  - assert (Ei : ((0 + Nat.min (length log) cap) mod cap = length log mod cap)%nat) by (f_equal; lia).
    rewrite Ei. split_and!; [done|by apply slots_write|lia|].
    destruct (Nat.ltb_spec (length log + 1) cap); [done|]. assert ((length log + 1)%nat = cap) as -> by lia. by rewrite Nat.Div0.mod_same.
Qed.

Lemma count_type_snoc t l e : count_type t (l ++ [e]) = count_type t l + b2z (pe_type e =? t).
Proof.
  unfold count_type. rewrite List.filter_app, length_app. cbn [List.filter]. destruct (pe_type e =? t); cbn [length b2z]; lia.
Qed.
Lemma instructions_snoc l e : instructions_of (l ++ [e]) =
  if (pe_type e =? PROF_BLOCK_EXECUTION) && (0 <? pe_data e) then instructions_of l + pe_data e else instructions_of l.
Proof. unfold instructions_of. by rewrite fold_left_app. Qed.

(** The counters count the events of their types. *)
Definition stats_ok (l : list prof_entry) (s : prof_stats) : Prop :=
  total_blocks_executed s = u64 (count_type PROF_BLOCK_EXECUTION l) /\
  total_instructions_executed s = u64 (instructions_of l) /\
  cache_hits s = u64 (count_type PROF_CACHE_HIT l) /\ cache_misses s = u64 (count_type PROF_CACHE_MISS l) /\
  hot_block_retranslations s = u64 (count_type PROF_HOT_BLOCK_RETRANSLATE l) /\
  signal_handler_invocations s = u64 (count_type PROF_SIGNAL_HANDLER l).

Lemma u64_plus a b : u64 (u64 a + b) = u64 (a + b).
Proof. unfold u64. apply Zplus_mod_idemp_l. Qed.

Lemma update_stats_ok l s e : stats_ok l s -> stats_ok (l ++ [e]) (update_stats e s).
Proof.
  destruct s as [total mx mn slow cnt blocks instrs hits misses hot sigs start pc]. unfold stats_ok. cbn.
  intros (-> & -> & -> & -> & -> & ->). rewrite !count_type_snoc, instructions_snoc. unfold update_stats.
  unfold PROF_EVENT_TRANSLATE_START, PROF_EVENT_TRANSLATE_END, PROF_BLOCK_EXECUTION, PROF_CACHE_HIT, PROF_CACHE_MISS,
    PROF_HOT_BLOCK_RETRANSLATE, PROF_SIGNAL_HANDLER.
  repeat match goal with |- context [if pe_type e =? ?k then _ else _] => let H := fresh in destruct (Z.eqb_spec (pe_type e) k) as [H|H] end;
    try match goal with H : pe_type e = _ |- _ => rewrite H end; try (destruct (0 <? start)); cbn [total_blocks_executed total_instructions_executed cache_hits cache_misses
      hot_block_retranslations signal_handler_invocations Z.eqb Pos.eqb b2z andb]; rewrite ?Z.add_0_r, ?u64_plus;
    repeat match goal with H : ?x <> ?k |- context [?x =? ?k] => rewrite (proj2 (Z.eqb_neq x k) H) end;
    cbn [b2z andb]; rewrite ?Z.add_0_r; split_and!; try reflexivity;
    destruct (0 <? pe_data e); rewrite ?u64_plus; reflexivity.
Qed.

(** Whatever events were recorded, the export writes the last 65536 of them, the oldest
    first, whether the buffer has been filled or not; and the statistics count all of them:
    executed blocks, their instructions, cache hits and misses, retranslations and signals,
    modulo 2^64. *)
Theorem profiler_records now p0 l :
  arm2x86_profiler_init now true = Some p0 ->
  let p := record_events p0 l in
  profiler_exported p = drop (length l - PROFILER_MAX_ENTRIES) l /\
  pf_total_events p = u32 (Z.of_nat (length l)) /\
  total_blocks_executed (pf_stats p) = u64 (count_type PROF_BLOCK_EXECUTION l) /\
  total_instructions_executed (pf_stats p) = u64 (instructions_of l) /\
  cache_hits (pf_stats p) = u64 (count_type PROF_CACHE_HIT l) /\
  cache_misses (pf_stats p) = u64 (count_type PROF_CACHE_MISS l) /\
  hot_block_retranslations (pf_stats p) = u64 (count_type PROF_HOT_BLOCK_RETRANSLATE l) /\
  signal_handler_invocations (pf_stats p) = u64 (count_type PROF_SIGNAL_HANDLER l).
Proof.
  intros E p. unfold arm2x86_profiler_init in E. cbn [negb] in E. apply (inj Some) in E.
  remember PROFILER_MAX_ENTRIES as cap eqn:Ecap.
  assert (Hc : (0 < cap)%nat) by (subst cap; unfold PROFILER_MAX_ENTRIES; lia).
  assert (H : prof_ok cap l p /\ pf_total_events p = u32 (Z.of_nat (length l)) /\ stats_ok l (pf_stats p)).
  { subst p. unfold record_events. induction l as [|e l IH] using rev_ind.
    - subst p0. cbn [fold_left]. split; [|split; [reflexivity|split_and!; reflexivity]].
      split; [reflexivity|]. split; [apply slots_start|]. split; [reflexivity|]. cbn [length pf_start_idx].
      by rewrite (proj2 (Nat.ltb_lt 0 cap)).
    - rewrite fold_left_app. cbn [fold_left]. destruct IH as (H1 & H2 & H3).
      set (q := fold_left record_event l p0) in *. split; [by apply record_event_ok|].
      split.
      + unfold record_event, arm2x86_profiler_record_event. cbn [pf_total_events]. rewrite H2, length_app. cbn [length].
        unfold u32. rewrite Zplus_mod_idemp_l. f_equal. lia.
      + pose proof (update_stats_ok _ _ e H3) as H4. unfold record_event, arm2x86_profiler_record_event.
        cbv zeta. cbn [pf_stats]. destruct e. exact H4. }
  destruct H as ((Hcap & Hs & Hn & Hi) & Ht & Hst). split; [|split; [exact Ht|exact Hst]].
  unfold profiler_exported. rewrite <- Ecap. cbv zeta. rewrite Hn, Hi, Hcap.
  destruct (Nat.ltb_spec (length l) cap) as [Hl|Hl].
  - rewrite (proj2 (Nat.ltb_lt _ _)) by lia. rewrite Nat.min_l by lia. replace (length l - cap)%nat with 0%nat by lia. cbn [drop].
    apply (nth_ext _ _ zero_prof_entry zero_prof_entry); rewrite length_map, length_seq; [done|]. intros i Hi2.
    rewrite (nth_indep _ zero_prof_entry (nth ((0 + 0) mod cap)%nat (pf_entries p) zero_prof_entry))
      by (by rewrite length_map, length_seq).
    rewrite (map_nth (fun i => nth ((0 + i) mod cap)%nat (pf_entries p) zero_prof_entry)), seq_nth by done. cbn [Nat.add].
    apply (proj1 (proj2 Hs)); lia.
  - rewrite (proj2 (Nat.ltb_ge _ _)) by lia. rewrite <- (ring_full zero_prof_entry cap l (pf_entries p) Hc Hs Hl).
    apply map_ext. intros i. by rewrite Nat.Div0.add_mod_idemp_l.
Qed.

(** ** The report of the most executed blocks *)

Local Abbreviation data_at l i := (pe_data (nth i l zero_prof_entry)).

Lemma max_from_spec n j best l : (best < length l)%nat -> (j + n = length l)%nat ->
  let m := max_from n j best l in
  (m < length l)%nat /\ (m = best \/ (j <= m)%nat) /\ data_at l best <= data_at l m /\
  (forall k, (j <= k < length l)%nat -> data_at l k <= data_at l m).
Proof.
  revert j best. induction n as [|n IH]; intros j best Hb Hj; cbn [max_from].
  - split_and!; [done|by left|lia|intros; lia].
  - set (b' := if _ <? _ then j else best). destruct (IH (S j) b') as (H1 & H2 & H3 & H4).
    { subst b'. destruct (_ <? _); lia. } { lia. }
    assert (M : data_at l best <= data_at l b' /\ data_at l j <= data_at l b' /\ (b' = best \/ b' = j)).
    { subst b'. destruct (Z.ltb_spec (data_at l best) (data_at l j)); split_and!; try lia; by (left + right). }
    split_and!; [done| |lia|].
    + destruct H2 as [->|]; [|lia]. destruct M as (_ & _ & [->| ->]); lia.
    + intros k Hk. destruct (Nat.eq_dec k j) as [->|]; [lia|apply H4; lia].
Qed.

Lemma swap_entries_nth i j l k : (i < length l)%nat -> (j < length l)%nat ->
  nth k (swap_entries i j l) zero_prof_entry =
  nth (if Nat.eqb k j then i else if Nat.eqb k i then j else k) l zero_prof_entry.
Proof.
  intros Hi Hj. unfold swap_entries. rewrite nth_insert by (by rewrite length_insert).
  destruct (Nat.eqb_spec k j) as [->|Hkj]; [by rewrite decide_True|]. rewrite decide_False by done.
  rewrite nth_insert by done. destruct (Nat.eqb_spec k i) as [->|Hki]; [by rewrite decide_True|by rewrite decide_False].
Qed.
Lemma length_swap_entries i j l : length (swap_entries i j l) = length l.
Proof. unfold swap_entries. by rewrite !length_insert. Qed.

Lemma lookup_nth_small l k : (k < length l)%nat -> l !! k = Some (nth k l zero_prof_entry).
Proof. intros H. destruct (lookup_lt_is_Some_2 l k H) as [x E]. rewrite E. f_equal. symmetry. by apply nth_lookup_Some. Qed.

Lemma swap_entries_perm i j l : (i < length l)%nat -> (j < length l)%nat -> swap_entries i j l ≡ₚ l.
Proof.
  intros Hi Hj. apply Permutation_inj. split; [apply length_swap_entries|].
  exists (fun k => if Nat.eqb k j then i else if Nat.eqb k i then j else k). split.
  - intros a b. destruct (Nat.eqb_spec a j), (Nat.eqb_spec b j), (Nat.eqb_spec a i), (Nat.eqb_spec b i); lia.
  - intros k. destruct (Nat.lt_ge_cases k (length l)) as [Hk|Hk].
    + rewrite (lookup_nth_small (swap_entries i j l) k) by (by rewrite length_swap_entries).
      rewrite swap_entries_nth by done. symmetry. apply lookup_nth_small.
      destruct (Nat.eqb_spec k j), (Nat.eqb_spec k i); done.
    + rewrite !lookup_ge_None_2; [done| |by rewrite length_swap_entries].
      destruct (Nat.eqb_spec k j), (Nat.eqb_spec k i); lia.
Qed.

(** The entries before [i] are in order and not smaller than those behind them. *)
Definition sorted_to (i : nat) (l : list prof_entry) : Prop :=
  forall a b, (a < i)%nat -> (a < b < length l)%nat -> data_at l b <= data_at l a.

Lemma selection_sort_spec n i l : sorted_to i l -> (i + n = length l)%nat ->
  selection_sort n i l ≡ₚ l /\ sorted_to (length l) (selection_sort n i l).
Proof.
  revert i l. induction n as [|n IH]; intros i l Hs Hn; cbn [selection_sort].
  - split; [done|]. by replace (length l) with i by lia.
  - destruct (max_from_spec (length l - (i + 1)) (i + 1) i l ltac:(lia) ltac:(lia)) as (H1 & H2 & H3 & H4).
    set (m := max_from _ _ _ _) in *. set (l' := if Nat.eqb m i then l else swap_entries i m l).
    assert (P : l' ≡ₚ l /\ length l' = length l).
    { subst l'. destruct (Nat.eqb m i); [done|]. split; [apply swap_entries_perm; lia|apply length_swap_entries]. }
    destruct P as [P L].
    assert (D : forall k, (k < length l)%nat -> data_at l' k = data_at l (if Nat.eqb k m then i else if Nat.eqb k i then m else k)).
    { intros k Hk. subst l'. destruct (Nat.eqb_spec m i) as [->|]; [|by rewrite swap_entries_nth by lia].
      destruct (Nat.eqb_spec k i) as [->|]; done. }
    destruct (IH (S i) l') as [Q S'].
    + intros a b Ha Hb. rewrite L in Hb. rewrite !D by lia.
      destruct (Nat.eq_dec a i) as [->|Hai].
      * rewrite Nat.eqb_refl. replace (if Nat.eqb i m then i else m) with m by (destruct (Nat.eqb_spec i m); done).
        destruct (Nat.eqb_spec b m); [exact H3|]. rewrite (proj2 (Nat.eqb_neq b i)) by lia. apply H4. lia.
      * rewrite (proj2 (Nat.eqb_neq a m)), (proj2 (Nat.eqb_neq a i)) by lia.
        apply Hs; [lia|]. destruct (Nat.eqb_spec b m), (Nat.eqb_spec b i); lia.
    + rewrite L. lia.
    + split; [by rewrite Q|]. by rewrite L in S'.
Qed.

(** The report takes the first entries of the buffer, as many as lines were asked for,
    sorts these by their data, largest first, and prints the block executions among them.
    An entry behind them is not considered: of two executions with 1 and 100 instructions a
    report of one line has the first. *)
Theorem top_blocks_report count p :
  (pf_count p <= length (pf_entries p))%nat -> (pf_count p <= PROFILER_MAX_ENTRIES)%nat ->
  (exists s, top_blocks count p = List.filter (fun e => pe_type e =? PROF_BLOCK_EXECUTION) s /\
    s ≡ₚ take (Nat.min count (pf_count p)) (pf_entries p) /\
    (forall a b, (a < b < length s)%nat -> data_at s b <= data_at s a)) /\
  (forall pc1 pc2 now, let e1 := {| pe_type := 3; pe_arm_pc := pc1; pe_timestamp_us := now; pe_cycle_count := 0; pe_data := 1 |} in
     let e2 := {| pe_type := 3; pe_arm_pc := pc2; pe_timestamp_us := now; pe_cycle_count := 0; pe_data := 100 |} in
     pf_entries p = e1 :: e2 :: drop 2 (pf_entries p) -> pf_count p = 2%nat -> top_blocks 1 p = [e1]).
Proof.
  intros H1 H2. split.
  - unfold top_blocks. cbv zeta.
    set (n := if Nat.ltb (pf_count p) PROFILER_MAX_ENTRIES then pf_count p else PROFILER_MAX_ENTRIES).
    assert (En : n = pf_count p) by (subst n; destruct (Nat.ltb_spec (pf_count p) PROFILER_MAX_ENTRIES); lia).
    rewrite En. replace (if Nat.ltb count (pf_count p) then count else pf_count p) with (Nat.min count (pf_count p))
      by (destruct (Nat.ltb_spec count (pf_count p)); lia).
    set (k := Nat.min count (pf_count p)). set (l := take k (pf_entries p)).
    assert (L : length l = k) by (subst l k; rewrite length_take; lia).
    destruct (selection_sort_spec k 0 l) as [P S']; [intros a b Ha; lia|lia|].
    eexists. split; [reflexivity|]. split; [exact P|]. intros a b Hab.
    rewrite (Permutation_length P) in Hab. apply S'; rewrite ?(Permutation_length P); lia.
  - intros pc1 pc2 now e1 e2 E Hn. unfold top_blocks. rewrite Hn, E.
    assert (Hlt : Nat.ltb 2 PROFILER_MAX_ENTRIES = true) by (apply Nat.ltb_lt; unfold PROFILER_MAX_ENTRIES; lia).
    rewrite Hlt. reflexivity.
Qed.

(** ** Regions *)

(** The names stored have at most 63 characters. *)
Definition regions_ok (l : list prof_region) : Prop := Forall (fun r => (length (pr_name r) <= 63)%nat) l.

Lemma find_region_long name b l : (63 < length name)%nat -> regions_ok l -> find_region name b l = None.
Proof.
  intros H Hl. apply list_find_None. eapply Forall_impl; [exact Hl|]. intros r Hr [E _]. cbn in Hr. rewrite E in Hr. lia.
Qed.

(** Timing a region.  With a name of at most 63 characters and room in the table,
    starting and ending it adds what the clocks advanced in between to its totals and one
    to its calls, keeps the maximum, and changes no region with another name.  A longer
    name is stored cut and so never found again: every start takes a new region, after 64
    there is none, and no end succeeds. *)
Theorem region_timing name l now1 cycles1 now2 cycles2 :
  regions_ok l ->
  ((length name <= 63)%nat -> (length l < 64)%nat ->
   0 <= now1 <= now2 -> now2 < 2^64 -> 0 <= cycles1 <= cycles2 -> cycles2 < 2^64 ->
   let '(i, l1) := arm2x86_profiler_start_region name now1 cycles1 l in
   let '(rc, l2) := arm2x86_profiler_end_region name now2 cycles2 l1 in
   let before := match find_region name false l with Some (_, r) => r | None => new_region name end in
   rc = 0 /\ regions_ok l2 /\
   exists r, l2 !! Z.to_nat i = Some r /\ pr_name r = name /\ pr_active r = false /\
     pr_total_time_us r = u64 (pr_total_time_us before + (now2 - now1)) /\
     pr_total_cycles r = u64 (pr_total_cycles before + (cycles2 - cycles1)) /\
     pr_call_count r = u32 (pr_call_count before + 1) /\
     pr_max_time_us r = Z.max (pr_max_time_us before) (now2 - now1) /\
     (forall j x, j <> Z.to_nat i -> l !! j = Some x -> l2 !! j = Some x)) /\
  ((63 < length name)%nat ->
   fst (arm2x86_profiler_end_region name now2 cycles2 l) = -1 /\
   ((length l < 64)%nat -> exists r, arm2x86_profiler_start_region name now1 cycles1 l = (Z.of_nat (length l), l ++ [r]) /\
      pr_name r = take 63 name /\ regions_ok (l ++ [r])) /\
   ((64 <= length l)%nat -> arm2x86_profiler_start_region name now1 cycles1 l = (-1, l))).
Proof.
  intros Hl. split.
  - intros Hn Hlen Hnow Hnow2 Hcyc Hcyc2.
    assert (Hu : forall a b, 0 <= a <= b -> b < 2^64 -> u64 (b - a) = b - a) by (intros; apply Z.mod_small; lia).
    assert (Hst : exists i l1 before, arm2x86_profiler_start_region name now1 cycles1 l = (Z.of_nat i, l1) /\
      before = match find_region name false l with Some (_, r) => r | None => new_region name end /\
      pr_name before = name /\ list_find (fun r => pr_name r = name /\ (true = true -> pr_active r = true)) l1 = Some (i, started now1 cycles1 before) /\
      regions_ok l1 /\ (forall j x, j <> i -> l !! j = Some x -> l1 !! j = Some x)).
    { unfold arm2x86_profiler_start_region, PROFILER_MAX_REGIONS. destruct (find_region name false l) as [[i r]|] eqn:E.
      - apply list_find_Some in E as (Hi & [Hname _] & Hfirst). exists i, (<[i := started now1 cycles1 r]> l), r.
        split; [done|]. split; [done|]. split; [done|]. pose proof (lookup_lt_Some _ _ _ Hi) as Hi2. split; [|split].
        + apply list_find_Some. rewrite list_lookup_insert_eq by done. split; [done|]. split; [done|].
          intros j x Hx Hji. rewrite list_lookup_insert_ne in Hx by lia. intros [Ex _]. by eapply (Hfirst j x).
        + apply Forall_insert; [done|]. exact (proj1 (Forall_lookup _ _) Hl i r Hi).
        + intros j x Hj Hx. by rewrite list_lookup_insert_ne by done.
      - apply list_find_None in E. rewrite (proj2 (Nat.ltb_lt _ _) Hlen).
        exists (length l), (l ++ [started now1 cycles1 (new_region name)]), (new_region name).
        assert (En : pr_name (new_region name) = name) by (cbn; by apply take_ge).
        split; [done|]. split; [done|]. split; [done|]. split; [|split].
        + apply list_find_Some. rewrite list_lookup_middle by done. split; [done|]. split; [split; [exact En|done]|].
          intros j x Hx Hj. rewrite lookup_app_l in Hx by done. intros [Ex _].
          apply (proj1 (Forall_lookup _ _) E j x Hx). done.
        + apply Forall_app. split; [done|]. constructor; [|constructor]. cbn [started pr_name]. by rewrite En.
        + intros j x _ Hx. apply lookup_app_Some. by left. }
    destruct Hst as (i & l1 & before & -> & Eb & Hname & Hf & Hl1 & Hrest). rewrite <- Eb. clear Eb.
    unfold arm2x86_profiler_end_region, find_region. rewrite Hf. cbv zeta. rewrite Nat2Z.id.
    apply list_find_Some in Hf as (Hi & _). pose proof (lookup_lt_Some _ _ _ Hi) as Hi2.
    split; [done|]. split.
    { apply Forall_insert; [done|]. cbn [started pr_name]. by rewrite Hname. }
    eexists. rewrite list_lookup_insert_eq by done. split; [done|].
    cbn [started pr_name pr_active pr_total_time_us pr_total_cycles pr_call_count pr_max_time_us pr_start_time_us pr_start_cycles].
    rewrite !Hu by lia. split_and!; try done.
    + destruct (Z.ltb_spec (pr_max_time_us before) (now2 - now1)); lia.
    + intros j x Hj Hx. rewrite list_lookup_insert_ne by done. by apply Hrest.
  - intros Hn. unfold arm2x86_profiler_end_region, arm2x86_profiler_start_region, PROFILER_MAX_REGIONS. rewrite !find_region_long by done.
    split; [done|]. split.
    + intros Hlen. rewrite (proj2 (Nat.ltb_lt _ _) Hlen). eexists. split; [done|]. split; [done|].
      apply Forall_app. split; [done|]. constructor; [|constructor]. cbn [started pr_name new_region]. rewrite length_take. lia.
    + intros Hlen. by rewrite (proj2 (Nat.ltb_ge _ _) Hlen).
Qed.

Lemma region_timing_witness :
  let l := snd (arm2x86_profiler_start_region [109] 1000 50 []) in
  arm2x86_profiler_start_region (repeat 97 64) 0 0 [] = (0, [started 0 0 (new_region (repeat 97 64))]) /\
  fst (arm2x86_profiler_end_region [109] 1250 80 l) = 0.
Proof.
  intros l. split.
  - destruct (region_timing (repeat 97 64) [] 0 0 0 0 (List.Forall_nil _)) as [_ H].
    destruct (H ltac:(vm_compute; lia)) as (_ & H2 & _). destruct (H2 ltac:(cbn; lia)) as (r & E & _).
    rewrite E. vm_compute in E. injection E as <-. reflexivity.
  - destruct (region_timing [109] [] 1000 50 1250 80 (List.Forall_nil _)) as [H _].
    specialize (H ltac:(cbn; lia) ltac:(cbn; lia) ltac:(lia) ltac:(lia) ltac:(lia) ltac:(lia)). subst l.
    destruct (arm2x86_profiler_start_region [109] 1000 50 []) as [i l1]. cbn [snd].
    destruct (arm2x86_profiler_end_region [109] 1250 80 l1) as [rc l2]. exact (proj1 H).
Defined.

(** ** The performance counters *)

Inductive perf_op :=
  | PInit (now : Z) | PReset (now : Z)
  | PTranslation (arm_bytes x86_bytes decode_time translate_time emit_time now : Z)
  | PExecution (cached : bool) (instr_type now : Z) | PMemory (allocated current peak now : Z) | PBlock (is_hot : bool) (now : Z).
Definition perf_step (s : option perf_stats) (o : perf_op) : option perf_stats :=
  Some match o with
       | PInit now => arm2x86_perf_init now s
       | PReset now => arm2x86_perf_reset now s
       | PTranslation a x d t e now => arm2x86_perf_record_translation a x d t e now s
       | PExecution c i now => arm2x86_perf_record_execution c i now s
       | PMemory a c p now => arm2x86_perf_record_memory a c p now s
       | PBlock h now => arm2x86_perf_record_block h now s
       end.

(** The translations of a run, and the executions since the last reset. *)
Definition translations (l : list perf_op) : Z :=
  Z.of_nat (length (List.filter (fun o => match o with PTranslation _ _ _ _ _ _ => true | _ => false end) l)).
Definition since_reset (l : list perf_op) : Z * Z :=
  fold_left (fun n o => match o with PReset _ => (0, 0) | PExecution _ _ _ => (fst n + 1, snd n) | PBlock _ _ => (fst n, snd n + 1)
                        | _ => n end) l (0, 0).

Record perf_ok (l : list perf_op) (s : perf_stats) : Prop := {
  pk_translations : total_translations s = u64 (translations l);
  pk_executions : total_executions s = u64 (fst (since_reset l));
  pk_cached : u64 (cached_executions s + uncached_executions s) = total_executions s;
  pk_classes : u64 (instr_count_data_proc s + instr_count_load_store s + instr_count_branch s + instr_count_neon s +
                    instr_count_system s + instr_count_unknown s) = total_executions s;
  pk_blocks : total_blocks s = u64 (snd (since_reset l)) /\ u64 (hot_blocks s + cold_blocks s) = total_blocks s;
  pk_unused : total_instructions s = 0 /\ avg_block_size s = 0 }.

Lemma translations_snoc l o : translations (l ++ [o]) =
  translations l + match o with PTranslation _ _ _ _ _ _ => 1 | _ => 0 end.
Proof. unfold translations. rewrite List.filter_app, length_app. destruct o; cbn [List.filter length]; lia. Qed.
(** A counter among others goes up by one. *)
Lemma bump_among a v b : u64 (a + u64 (v + 1) + b) = u64 (a + v + b + 1).
Proof. unfold u64. rewrite <- Zplus_mod_idemp_l, Zplus_mod_idemp_r, Zplus_mod_idemp_l. f_equal. lia. Qed.

Lemma perf_step_ok l s o : (match s with Some s => perf_ok l s | None => translations l = 0 /\ since_reset l = (0, 0) end) ->
  exists s', perf_step s o = Some s' /\ perf_ok (l ++ [o]) s'.
Proof.
  intros Hs.
  assert (H0 : forall now, perf_ok l (arm2x86_perf_init now s)).
  { intros now. destruct s as [s|]; [exact Hs|]. destruct Hs as [T R]. split; cbn; rewrite ?T, ?R; done. }
  assert (F : since_reset (l ++ [o]) = match o with PReset _ => (0, 0) | PExecution _ _ _ => (fst (since_reset l) + 1, snd (since_reset l))
       | PBlock _ _ => (fst (since_reset l), snd (since_reset l) + 1) | _ => since_reset l end).
  { unfold since_reset. rewrite fold_left_app. by destruct o. }
  assert (P : forall a b, u64 (u64 a + b) = u64 (a + b)) by (intros; unfold u64; apply Zplus_mod_idemp_l).
  assert (P2 : forall a b, u64 (a + u64 b) = u64 (a + b)) by (intros; unfold u64; apply Zplus_mod_idemp_r).
  eexists. split; [reflexivity|]. destruct o as [now|now|a x d t e now|c i now|a c p now|h now].
  - destruct (H0 now) as [A B C D [E1 E2] G]. split; rewrite ?F, ?translations_snoc, ?Z.add_0_r; done.
  - unfold arm2x86_perf_reset. destruct s as [s|].
    + destruct Hs as [A B C D [E1 E2] [G1 G2]]. split; rewrite ?F, ?translations_snoc, ?Z.add_0_r; cbn; done.
    + destruct (H0 now) as [A B C D [E1 E2] G]. split; rewrite ?F, ?translations_snoc, ?Z.add_0_r; done.
  - destruct (H0 now) as [A B C D [E1 E2] G]. unfold arm2x86_perf_record_translation.
    split; rewrite ?F, ?translations_snoc; cbn [total_translations total_executions cached_executions uncached_executions
      instr_count_data_proc instr_count_load_store instr_count_branch instr_count_neon instr_count_system instr_count_unknown
      total_blocks hot_blocks cold_blocks total_instructions avg_block_size]; try done. by rewrite A, P.
  - destruct (H0 now) as [A B C D [E1 E2] G]. unfold arm2x86_perf_record_execution. cbv zeta.
    set (s0 := arm2x86_perf_init now s) in *.
    split; rewrite ?F, ?translations_snoc, ?Z.add_0_r; cbn [fst snd total_translations total_executions cached_executions uncached_executions
      instr_count_data_proc instr_count_load_store instr_count_branch instr_count_neon instr_count_system instr_count_unknown
      total_blocks hot_blocks cold_blocks total_instructions avg_block_size]; try done.
    + by rewrite B, P.
    + rewrite <- C, P. unfold bump. destruct c; cbn [negb]; rewrite ?P, ?P2; f_equal; lia.
    + rewrite <- D, P. unfold bump. destruct (class_of i); rewrite ?P, ?P2.
      all: try (f_equal; lia).
      all: match goal with |- u64 ?e = _ => match e with context [u64 (?v + 1)] =>
             transitivity (u64 (0 + u64 (v + 1) + (e - u64 (v + 1)))); [f_equal; lia|rewrite bump_among; f_equal; lia] end end.
  - destruct (H0 now) as [A B C D [E1 E2] G]. unfold arm2x86_perf_record_memory.
    split; rewrite ?F, ?translations_snoc, ?Z.add_0_r; done.
  - destruct (H0 now) as [A B C D [E1 E2] G]. unfold arm2x86_perf_record_block.
    split; rewrite ?F, ?translations_snoc, ?Z.add_0_r; cbn [fst snd total_translations total_executions cached_executions uncached_executions
      instr_count_data_proc instr_count_load_store instr_count_branch instr_count_neon instr_count_system instr_count_unknown
      total_blocks hot_blocks cold_blocks total_instructions avg_block_size]; try done. split; [by rewrite E1, P|].
    rewrite <- E2, P. unfold bump. destruct h; cbn [negb]; rewrite ?P, ?P2; f_equal; lia.
Qed.

(** In every run the counters add up, modulo 2^64: translations are counted from the
    start, executions and blocks since the last reset; cached and uncached executions, and
    the six classes of instructions, are all executions; hot and cold blocks all blocks.
    The number of translated instructions and the average block size stay 0: nothing
    counts them. *)
Theorem perf_counts l o :
  exists s, fold_left perf_step (l ++ [o]) None = Some s /\
  total_translations s = u64 (translations (l ++ [o])) /\
  total_executions s = u64 (fst (since_reset (l ++ [o]))) /\
  u64 (cached_executions s + uncached_executions s) = total_executions s /\
  u64 (instr_count_data_proc s + instr_count_load_store s + instr_count_branch s + instr_count_neon s +
       instr_count_system s + instr_count_unknown s) = total_executions s /\
  total_blocks s = u64 (snd (since_reset (l ++ [o]))) /\ u64 (hot_blocks s + cold_blocks s) = total_blocks s /\
  total_instructions s = 0 /\ avg_block_size s = 0.
Proof.
  assert (G : forall l, match fold_left perf_step l None with Some s => perf_ok l s
                        | None => translations l = 0 /\ since_reset l = (0, 0) end).
  { intros l'. induction l' as [|o' l' IH] using rev_ind; [done|]. rewrite fold_left_app. cbn [fold_left].
    destruct (perf_step_ok l' _ o' IH) as (s' & -> & H). exact H. }
  specialize (G l). rewrite fold_left_app. cbn [fold_left]. destruct (perf_step_ok l _ o G) as (s & -> & [A B C D [E1 E2] [G1 G2]]).
  exists s. split_and!; done.
Qed.
